(* ===== verification/_CoqProject ===== *)
-Q . S2P
Prelude.v
Calls.v
GoStd.v
Sha256.v
Registry.v
RegistryFacts.v
RegistryProps.v
RegistryStore.v
Wire.v
Manifest.v
Chunk.v
Staging.v
Ingest.v
CommitS3.v
Export.v
Calendar.v
Usage.v
UsageProps.v
Authz.v
AuthzSteps.v
AuthzProps.v
AuthzQuota.v
AuthzServer.v
AuthzServerProps.v
FileTree.v
FileTreeFacts.v
CommitFS.v
CommitFSFacts.v
CommitFSDelete.v
CommitFSProps.v
CommitFSTheorems.v
EnvTemplate.v
EnvTemplateProps.v
WorkloadName.v
WorkloadNameProps.v
Scan.v
MarkDone.v
MarkDoneProps.v
Quantity.v
Capacity.v
Float64.v
Bounds.v
BoundsProps.v
Quota.v
QuotaProps.v
Rollout.v
Sizing.v
Tuning.v
SizingDemo.v
SizingProps.v
TuningProps.v
OomProps.v
Tuned.v
TunedProps.v
OomRaise.v
OomCap.v
Capability.v
Roles.v
GrantsProps.v
RolesProps.v
NsOwner.v
Access.v
AccessProps.v
ProjectNs.v
ProjectNsProps.v
ProjectNsClaims.v
Totp.v
TwoFactor.v
TwoFactorWorld.v
TwoFactorDemo.v
TwoFactorCodes.v
TwoFactorSpent.v
TwoFactorLimits.v
TwoFactorProps.v
RouteNames.v
RouteNamesProps.v
RouteNamesScan.v
