(* ===== verification/Prelude.v ===== *)
(** * Kipper: a verification library for the Go code of the platform.

    Kipper runs applications on a Kubernetes cluster. This library models the
    parts of it that carry their own protocol and state, each translated from
    the Go source under [src/], and proves what makes them correct. Definitions
    keep the names of the source and are executable.

    ** The parts and how they fit

    - The gateway registry ([src/gateway/internal/registry]): clusters behind
      *.kipper.run register a label, pin their ingress key and prove they hold
      it; the gateway's proxy asks the registry which label it may route.
    - The data mover ([src/datamover/internal]): moves a volume or a bucket
      between clusters in hashed chunks. The client (package [export]) sends a
      manifest, then the chunks the importer (package [ingest]) does not have,
      then a finalize request, and checks the report. The importer commits the
      staged chunks to an object store or to a file tree.
    - The authorizer ([src/authz]): decides every request to an app behind API
      keys, from an informer cache whose freshness it proves by itself, and
      meters usage into UsageRollup objects shared by all replicas.
    - The console ([src/console-api]) and the packages it shares with the command
      line ([src/controller/pkg]): the auto-sizer reads metrics and writes tuning
      records, the reconcilers apply them inside the user's bounds and the
      project's quota; names of workloads are reserved across kinds; environment
      templates are resolved; rollouts are explained. Its access control decides
      what a user may do, from roles, grants and the ownership of namespaces;
      its project controller creates, hands over and deletes the namespaces, and
      its route names say which namespace a public name belongs to.
      Destructive operations ask for the code of a second factor, which the user
      enrols with a bootstrap code an operator issues on the host.
    - The poller ([src/kipper-poll]): binds the values of a row into the
      statement that marks it as done.

    ** The files

    - [Prelude]: results, tactics, hint bases, lemmas on lists, maps, strings.
      [Calls]: programs over API calls that interleave, and their safety.
    - [GoStd], [Sha256], [Calendar], [Float64], [Scan]: what the code uses of the
      language and its standard library: int64 with wrap-around, time and
      duration, strings, path cleaning, hexadecimal, [sort.Search], SHA-256, the
      Gregorian calendar, float64 by IEEE 754, searching and slicing strings.
    - [Registry] is registry.go, method by method; [RegistryFacts] describes the
      change one critical section makes to one entry and derives the invariants;
      [RegistryProps] has the theorems; [RegistryStore] is store.go (atomic save,
      load with migration, durable registration, background flush, prune).
    - [Wire] is wire/wire.go; [Manifest] is manifest/manifest.go; [Chunk] is
      chunk/plan.go.
    - [Staging] is the file-system side of ingest/state.go and of [receiveChunk]
      in ingest/server.go, on a disk with crashes; [Ingest] is the rest of
      state.go and every handler of server.go; [CommitS3] is ingest/commit_s3.go
      over the interface [ObjectStore]; [Export] is export/client.go.
    - [FileTree] is a file system with symbolic links, metadata and calls that
      fail by a schedule of faults; [FileTreeFacts] its logic; [CommitFS] is
      ingest/commit_fs.go; [CommitFSFacts], [CommitFSDelete], [CommitFSProps]
      follow one commit; [CommitFSTheorems] has the theorems.
    - [Usage] is authz/usage.go, with its replicas and the API server as one
      transition system; [UsageProps] has its invariants. [Authz] is
      authz/authorizer.go and the reads of authz/freshness.go, one request by
      itself; [AuthzSteps] is the same request as a program whose reads and
      critical sections come one by one among those of others; [AuthzProps] and
      [AuthzQuota] have the theorems. [AuthzServer] is authz/server.go and the
      probes of authz/freshness.go; [AuthzServerProps] has their theorems.
    - [EnvTemplate] is envtemplate/envtemplate.go; [EnvTemplateProps].
    - [WorkloadName] is internal/workloadname, the create handlers' tails and the
      controllers' claims; [WorkloadNameProps].
    - [MarkDone] is kipper-poll/markdone.go; [MarkDoneProps].
    - [Quantity] is the interface of Kubernetes quantities with its laws, and an
      instance; [Capacity] is capacity/capacity.go; [Bounds] is
      fieldowners, provenance and internal/resourcebounds; [BoundsProps];
      [Quota] is quota/quota.go; [QuotaProps]; [Rollout] is the package rollout.
    - [Sizing] is [evaluate] of controller/resource_controller.go with what it
      calls; [SizingProps]; [Tuning] is controller/tuning.go and the tuning part of
      a tick; [TuningProps]; [OomProps] and [OomCap] follow an OOM kill across
      passes and restarts; [Tuned] is controllers/tuned_resources.go;
      [TunedProps]; [OomRaise] composes the auto-sizer with the reconciler;
      [SizingDemo] is a small cluster for the examples.

    - [Capability] is capability/capability.go; [Roles] is usergrants and
      middleware/roles.go (the role store with its caches, the monitoring grants);
      [GrantsProps] and [RolesProps]. [NsOwner] is internal/nsowner; [Access] is
      middleware/{projectaccess,projectguard,projectmembers}.go: the resolver
      behind the reader that can be swapped, the guards of the routes, the answers
      they give; [AccessProps].
    - [ProjectNs] is the namespace side of controllers/project_controller.go: the
      plan of the environments, creating, adopting and claiming, the conflicts,
      the clean-up and the finalizer, over an API server other controllers write
      to; [ProjectNsProps] and [ProjectNsClaims] (the invariant of the claims).
    - [RouteNames] is routename/routename.go and the claims and the plan of a pass
      in controllers/route_name_{claim,plan}.go; [RouteNamesProps]
      follows the claims through passes, [RouteNamesScan] is about one pass.
    - [Totp] is handlers/twofa/totp.go with HMAC-SHA-1 and base32; [TwoFactor] is
      the rest of that package, pkg/twofa and kip/cmd/twofa.go, as programs over
      their calls; [TwoFactorWorld] is where these run; [TwoFactorCodes] has the
      invariant of factors and codes, [TwoFactorSpent] what it shows of requests,
      [TwoFactorLimits] the same for guessing, [TwoFactorProps] what one request
      does alone; [TwoFactorDemo] is a small console for the examples.

    ** How state and effects are modelled

    A structure behind a mutex is a record, and a critical section is a function
    from the record to the new one; a clock reading or a random value is an
    argument. Where the code releases the lock, calls another process or writes
    a file, the model has separate steps, so that other actors come in between:
    [Registry.step], [RegistryStore.flush_step], [Staging.sys_step],
    [Export.pool_step], [Usage.step], the programs of [Calls]. Theorems about
    histories are inductions over these steps. A call that can fail takes its
    outcome as an argument, so every error path is a case of the definition.

    The disk of [Staging] separates what was written from what is durable: a
    file not synced since its last write holds anything after a crash, and a
    directory comes back in one of the forms it had since its last sync. The
    file system of [FileTree] is for the committer, which does not promise to
    survive a crash: it follows links as the system calls do, every call can
    fail, a write can be torn; umask and owner are parameters. The API server
    of [Usage] and [WorkloadName] rejects an update whose resource version is not
    the stored one, as its documentation says. In [Tuning] a write to a record is
    done, refused, or done with its answer lost; times are stored in whole
    seconds. One pass of the auto-sizer reads the clock once.

    In [TwoFactorWorld] a lock is a call that waits for its turn, a critical
    section of the limiter is a call that cannot fail, a Secret has the number of
    its revision as its version, and the revisions, the secrets drawn and the
    journal of a limiter are kept for the theorems to speak of. A user's lock and
    limiter belong to one replica; the two-pod overlap of a restart is several.
    Twenty random bytes do not come twice; an operator deletes Secrets and issues
    codes at any time, and does nothing else to them.

    Third-party code is a parameter: the object store with its laws
    ([CommitS3.ObjectStore]), the cached client ([Authz.Reader]), the token
    bucket of golang.org/x/time/rate, quantities ([Quantity.Quantities] with
    [Quantity.QuantityLaws], which an instance satisfies). JSON and zstd enter as
    the decoded value and the decoded stream; the time layout RFC 3339 as a
    printing and a parsing function.

    ** What the theorems show

    - Registry: a label that has served traffic is not taken over without its
      token; a routed label proved its key over an unexpired lease; pins come
      only from the token's holder; a challenge is spent once; the index and the
      entries agree; registering, moving and releasing do to routing and pins
      what they should. Its file is saved atomically, survives a restart up to
      the plaintext tokens, and loses no update to the background flush.
    - Data mover: validation accepts exactly the well-formed manifests; the
      chunks partition the stream and stay inside the files; after any crash the
      bitmap claims only chunks that are durable and intact; after any requests,
      failing ones included, a restart finds the transfer the importer answers
      for, until one of three named failures lets disk and memory come apart; a
      finalize commits only complete transfers; a commit to
      an object store leaves exactly the source's objects under its prefix; a
      clean report of the file-tree committer means the tree is the manifest's,
      and nothing outside of the root changes, for manifests whose entries stay
      out of each other's working paths and below directories, as long as no
      link sits at such a path, and not without these conditions; and a client run that succeeds means the destination
      holds the source.
    - Authorizer: a request is admitted exactly under the stated conditions and
      counted once; the quota windows partition time; usage is conserved over
      any number of replicas, conflicts and faults; between flushes a replica
      exceeds a quota by no more than the requests it decides at the same time;
      the HTTP contract holds, with a
      Retry-After that ends in the next window; logs are bounded and free of
      secrets; a fresh replica really saw its own writes through every watch.
    - Resources: a value has exactly the owner its managed fields say; the
      container gets a request and a limit inside the user's, and reconciling
      twice changes nothing; a rollout the projection accepts, and
      that shrinks no pod, never uses more than the cap or, where the usage was
      above it, than it used; every proposal of the auto-sizer is justified by an
      OOM kill or by its observations and has the stated size; a record never
      leaves the user's bounds; an OOM kill is answered once, however many passes
      fail and controllers restart, is retried until it is, and ends in a
      container with more memory, unless it is at its cap or the raise is
      withheld for a stated reason; a recommendation is applied only when it is
      the workload's own, tuning is on and the quota allows it; a switch-off
      leaves an app that can be saved; a rollout is explained by the first of its
      problems, in the stated order.
    - Access: the table of capabilities is the one documented; a route lets a
      user through exactly under the stated conditions, an owner is taken only
      from the reader that is current, and an answer about a role or a monitoring
      grant is never older than its bounds; writing and merging grants changes
      one user's lines only.
    - Project namespaces: no two projects claim one namespace object, whatever
      controllers interleave, fail and restart; a namespace is deleted only when
      the project's own records say it is the project's; the number of
      environments stays within the plan's limit.
    - Two factors: a code authorises one operation, however many requests on
      however many replicas present it; the device behind a step-up was confirmed
      the required age ago, and rotating it starts that age again; an enrolment
      redeems a bootstrap code that an operator issued, once and in time; five
      wrong codes of an active device are judged in five minutes and a wrong
      confirmation voids the enrolment; a step-up answers exactly as
      documented and costs nothing when it is refused; a device enrolled as
      intended works.
    - Names and templates: racing creates of one name leave one kind, as long as
      no answer of a create is lost, one request of a kind runs and nobody
      reclaims the name, and not otherwise; traffic of a route name is attributed
      to a namespace only while it was alone with the name, a collision records who took part,
      a claim is deleted only when nobody may use it, and the order in which a
      pass meets objects does not matter; templates of every entry point
      obey one grammar and a preview shows no secret.
    - Poller: the values of a row never become syntax of the statement, and a
      parsed template is the text it was read from.
    - What does not hold is proved too: [Chunk.validated_total_can_overflow],
      [Staging.overlapping_upload_truncates], [Staging.failed_dir_sync_keeps_bit],
      [AuthzQuota.flush_in_flight_forgotten],
      [WorkloadNameProps.joined_reservation_lost],
      [WorkloadNameProps.lost_reply_releases],
      [Ingest.failed_manifest_comes_apart],
      [CommitFSTheorems.assembly_follows_link],
      [CommitFSTheorems.temporary_link_removes_file],
      [CommitFSTheorems.directory_times_follow_link],
      [CommitFSTheorems.assembly_not_retried],
      [QuotaProps.shrinking_rollout_above_cap],
      [QuotaProps.unchanged_rollout_over_cap], [OomCap.oom_at_cap_reporting].

    ** Fuel and bounds

    [GoStd.Search] runs its loop with as much fuel as the range is long
    ([GoStd.Search_spec]); [Ingest.AssembleEntry] with enough for every entry
    ([Ingest.assemble_total]); [Export.uploadChunk] with its number of retries,
    [Usage.flushOne] and [CommitFS.retryIO] with their attempts, which are the
    code's own bounds. The scanners of [MarkDone] and [EnvTemplate] run as long as
    their text, and their theorems are about every text. [Calendar.decimal] has 20
    digits, enough for 64 bits. Counters and sizes wrap at 64 bits; theorems that
    need them not to say so. [Access.settle] has the resolver's own four
    turns, [TwoFactor.step_up] the three attempts of its
    loop. In [Roles], [lag] bounds the time between a refresh's read and its
    store. The auto-sizer's theorems are for sizes up to a
    pebibyte, where its floats are exact.

    ** What is not modelled

    A crash inside [InitState] or in the middle of [os.RemoveAll]: a removal is
    one step, which may fail after removing a part; set-user bits, which the
    exporter does not record and a change of owner clears; hard links and other writers in the tree a transfer is committed to;
    the adapters to minio, to the API server and to HTTP, which only pass calls
    on; log lines and metrics, but for the authorizer's forensics line; the
    stopped page. Of the auto-sizer: collecting metrics, deleting stuck pods,
    profile recommendations, the alerts about pods, nodes, jobs and rollouts.
    Of workload names: deleting a workload and garbage collection. Of route
    names: their admission, the loop that carries out a plan, host claims. Of the project
    controller: the contents of a namespace (quota objects, policies, roles,
    secrets), which are calls that work or fail; the claims are exclusive as long
    as nobody but the controller changes the project label of a namespace; the
    JSON of its annotations is a parameter. Of two-factor authentication: text
    outside of ASCII in an address, bcrypt and the layouts of times (parameters);
    the limit on wrong bootstrap codes, which is not asked for under the lock, is
    not claimed. The handlers
    and reconcilers of the console otherwise, the gateway's proxy and
    certificates, the installer and the commands of the command-line tool, which
    turn requests into Kubernetes objects and shell commands; the web interface,
    generated code, runtimes and images. *)

From Stdlib Require Import Ascii.
From stdpp Require Import base tactics numbers list option strings gmap sorting.

(** ** Notations of the development. *)

Declare Scope kipper_scope.
Delimit Scope kipper_scope with kip.
#[global] Open Scope Z_scope.

(** String concatenation computes on a constructor. *)
#[global] Arguments String.append !s1 s2 : simpl nomatch.
#[global] Arguments String.eqb : simpl never.

(** A Go function that returns [(T, error)] is modelled as a [result E T]. *)
Inductive result (E A : Type) : Type :=
| Ok (a : A)
| Err (e : E).

Arguments Ok {E A} a.
Arguments Err {E A} e.

#[export] Instance result_ret {E : Type} : MRet (result E) := fun A a => Ok a.

#[export] Instance result_bind {E : Type} : MBind (result E) :=
  fun A B f r => match r with Ok a => f a | Err e => Err e end.

#[export] Instance result_fmap {E : Type} : FMap (result E) :=
  fun A B f r => match r with Ok a => Ok (f a) | Err e => Err e end.

Definition is_ok {E A : Type} (r : result E A) : bool :=
  match r with Ok _ => true | Err _ => false end.

#[export] Instance result_eq_dec {E A : Type} `{EqDecision E, EqDecision A} :
  EqDecision (result E A).
Proof. solve_decision. Defined.

(** Sum of a list of integers. *)
Definition sumZ (l : list Z) : Z := foldr Z.add 0 l.

(** Concatenation of a list of strings. *)
Definition concat_strings (l : list string) : string := foldr String.append ""%string l.

(** ** Automation. *)

Create HintDb kipper.
Create Rewrite HintDb kipper_str.

(** Turn boolean tests into propositions. *)
Ltac bool_to_prop :=
  repeat match goal with
  | H : _ && _ = true |- _ => apply andb_true_iff in H; destruct H
  | H : _ || _ = false |- _ => apply orb_false_iff in H; destruct H
  | H : negb _ = true |- _ => apply negb_true_iff in H
  | H : negb _ = false |- _ => apply negb_false_iff in H
  | H : (_ <? _)%Z = true |- _ => apply Z.ltb_lt in H
  | H : (_ <? _)%Z = false |- _ => apply Z.ltb_ge in H
  | H : (_ <=? _)%Z = true |- _ => apply Z.leb_le in H
  | H : (_ <=? _)%Z = false |- _ => apply Z.leb_gt in H
  | H : (_ =? _)%Z = true |- _ => apply Z.eqb_eq in H
  | H : (_ =? _)%Z = false |- _ => apply Z.eqb_neq in H
  | H : (_ =? _)%string = true |- _ => apply String.eqb_eq in H
  | H : (_ =? _)%string = false |- _ => apply String.eqb_neq in H
  | H : bool_decide _ = true |- _ => apply bool_decide_eq_true in H
  | H : bool_decide _ = false |- _ => apply bool_decide_eq_false in H
  | H : Is_true _ |- _ => apply Is_true_true in H
  end.

(** One step of case analysis on the scrutinee of a match in the goal or in a
    hypothesis, keeping the equation. *)
Ltac split_match :=
  match goal with
  | |- context [ match ?x with _ => _ end ] =>
      lazymatch x with context [ match _ with _ => _ end ] => fail | _ => idtac end;
      destruct x eqn:?
  | H : context [ match ?x with _ => _ end ] |- _ =>
      lazymatch x with context [ match _ with _ => _ end ] => fail | _ => idtac end;
      destruct x eqn:?
  end.

Ltac split_matches := repeat (split_match; simplify_eq/=).

(** Case analysis on all the matches, then the boolean facts. *)
Ltac go_cases := split_matches; bool_to_prop; simplify_eq/=.

(** ** Shared lemmas. *)

Lemma is_ok_Ok {E A : Type} (r : result E A) : is_ok r = true <-> exists a, r = Ok a.
Proof. destruct r; simpl; split; [eauto|done|done|]. intros [? ?]. done. Qed.

Lemma bind_Ok {E A B : Type} (f : A -> result E B) (r : result E A) (b : B) :
  mbind f r = Ok b <-> exists a, r = Ok a /\ f a = Ok b.
Proof.
  destruct r as [a|e]; simpl; split.
  - eauto.
  - intros (a' & [= ->] & H). done.
  - discriminate.
  - intros (a' & [=] & _).
Qed.

Lemma sumZ_app (l1 l2 : list Z) : sumZ (l1 ++ l2) = sumZ l1 + sumZ l2.
Proof. induction l1 as [|x l1 IH]; simpl; [done|]. rewrite IH. lia. Qed.

Lemma sumZ_nonneg (l : list Z) : Forall (fun x => 0 <= x) l -> 0 <= sumZ l.
Proof. induction 1; simpl; lia. Qed.

Lemma sumZ_perm (l1 l2 : list Z) : l1 ≡ₚ l2 -> sumZ l1 = sumZ l2.
Proof. induction 1; simpl; lia. Qed.

Lemma sumZ_take_drop (n : nat) (l : list Z) : sumZ l = sumZ (take n l) + sumZ (drop n l).
Proof. rewrite <- sumZ_app, take_drop. done. Qed.

Lemma sumZ_take_S (l : list Z) (i : nat) (x : Z) :
  l !! i = Some x -> sumZ (take (S i) l) = sumZ (take i l) + x.
Proof. intros H. rewrite (take_S_r _ _ _ H), sumZ_app. simpl. lia. Qed.

Lemma sumZ_take_mono (l : list Z) (i j : nat) :
  Forall (fun x => 0 <= x) l -> (i <= j)%nat -> sumZ (take i l) <= sumZ (take j l).
Proof.
  intros Hl Hij. rewrite (sumZ_take_drop i (take j l)), take_take, Nat.min_l by lia.
  pose proof (sumZ_nonneg (drop i (take j l))) as Hn.
  specialize (Hn (Forall_drop _ _ _ (Forall_take _ _ _ Hl))). lia.
Qed.

Lemma str_app_nil_r (s : string) : String.append s ""%string = s.
Proof. induction s as [|c s IH]; simpl; congruence. Qed.

Lemma str_app_assoc (s1 s2 s3 : string) :
  String.append (String.append s1 s2) s3 = String.append s1 (String.append s2 s3).
Proof. induction s1 as [|c s IH]; simpl; congruence. Qed.

Lemma str_length_app (s1 s2 : string) :
  String.length (String.append s1 s2) = (String.length s1 + String.length s2)%nat.
Proof. induction s1 as [|c s IH]; simpl; congruence. Qed.

Lemma str_app_inv_l (s s1 s2 : string) :
  String.append s s1 = String.append s s2 -> s1 = s2.
Proof. induction s as [|c s IH]; simpl; [done|]. intros H. simplify_eq. auto. Qed.

Lemma str_app_inv_length (a b c d : string) :
  String.length a = String.length c ->
  String.append a b = String.append c d -> a = c /\ b = d.
Proof.
  revert c. induction a as [|x a IH]; intros [|y c] Hl H; simplify_eq/=; [done|].
  destruct (IH c) as [-> ->]; auto.
Qed.

Lemma str_app_eq_nil (a b : string) :
  String.append a b = ""%string -> a = ""%string /\ b = ""%string.
Proof. destruct a; simpl; [done|discriminate]. Qed.

Lemma concat_strings_app (l1 l2 : list string) :
  concat_strings (l1 ++ l2) = String.append (concat_strings l1) (concat_strings l2).
Proof. induction l1 as [|s l1 IH]; simpl; [done|]. by rewrite IH, str_app_assoc. Qed.

#[export] Hint Rewrite str_app_nil_r str_app_assoc str_length_app : kipper_str.
#[export] Hint Resolve sumZ_nonneg : kipper.

(** Filters that keep everything, or nothing. *)
Lemma filter_full {A : Type} (P : A -> Prop) `{!forall x, Decision (P x)} (l : list A) :
  length (filter P l) = length l <-> Forall P l.
Proof.
  induction l as [|x l IH]; [simpl; split; [constructor|done]|].
  rewrite Forall_cons, filter_cons, <- IH. pose proof (length_filter P l).
  destruct (decide (P x)); simpl; [|split; [lia|intros [? _]; done]].
  split; [intros H1; split; [done|lia]|intros [_ H1]; lia].
Qed.

Lemma filter_none {A : Type} (P : A -> Prop) `{!forall x, Decision (P x)} (l : list A) :
  length (filter P l) = 0%nat <-> Forall (fun x => ~ P x) l.
Proof.
  induction l as [|x l IH]; [simpl; split; [constructor|done]|].
  rewrite Forall_cons, filter_cons, <- IH. destruct (decide (P x)); simpl; [split; [lia|tauto]|tauto].
Qed.

(** Two finite maps with the same lookups restricted to a predicate. *)
Lemma map_filter_keeps {A : Type} (P : string * A -> Prop) `{!∀ x, Decision (P x)}
    (m : gmap string A) (k : string) (v : A) :
  m !! k = Some v -> P (k, v) -> filter P m !! k = Some v.
Proof. intros Hm HP. apply map_lookup_filter_Some. done. Qed.

Lemma lookup_filter_inv {A : Type} (P : string * A -> Prop) `{!∀ x, Decision (P x)}
    (m : gmap string A) (k : string) (v : A) :
  filter P m !! k = Some v -> m !! k = Some v /\ P (k, v).
Proof. apply map_lookup_filter_Some. Qed.
