(* ===== verification/Calls.v ===== *)
(** * Programs that call a shared server

    Code that talks to the Kubernetes API is a tree of calls: each call is a
    typed event, what follows depends on the answer. A handler gives the calls
    their meaning on the server's state; a pool of programs runs them in any
    order, one call at a time, under the faults a schedule picks. The last
    section is the proof rule the components use: a global invariant, a ghost
    value per thread, and a predicate on programs that says every call keeps
    the invariant whatever the other threads did since the last one. *)

From stdpp Require Import base tactics list option relations.
From S2P Require Import Prelude.

Section Prog.
Context {E : Type -> Type}.

(** A program: a result, or a call and what follows its answer. *)
Inductive prog (A : Type) : Type :=
| Ret (a : A)
| Call (R : Type) (e : E R) (k : R -> prog A).

Fixpoint prog_bind {A B : Type} (f : A -> prog B) (p : prog A) : prog B :=
  match p with
  | Ret _ a => f a
  | Call _ R e k => Call B R e (fun r => prog_bind f (k r))
  end.
End Prog.

Arguments prog : clear implicits.
Arguments Ret {E A} a.
Arguments Call {E A R} e k.

#[export] Instance prog_MRet {E : Type -> Type} : MRet (prog E) := fun A a => Ret a.
#[export] Instance prog_MBind {E : Type -> Type} : MBind (prog E) := fun A B f p => prog_bind f p.

(** A call by itself. *)
Definition call {E : Type -> Type} {R : Type} (e : E R) : prog E R := Call e Ret.

Section Pool.
Context {E : Type -> Type} {S Fault Env : Type}.
(** What a call does to the state and what it answers; what the environment
    may do between calls; which faults the schedule may pick, and whether the
    call can be made at all in this state (a lock may be held). *)
Variable handle : forall R, E R -> Fault -> S -> S * R.
Variable env : Env -> S -> S.
Variable legal : forall R, E R -> Fault -> S -> bool.

(** A program alone, without faults or interference. *)
Fixpoint alone {A : Type} (fine : Fault) (p : prog E A) (s : S) : S * A :=
  match p with
  | Ret a => (s, a)
  | Call e k => let '(s', r) := handle _ e fine s in alone fine (k r) s'
  end.

Lemma alone_bind {A B : Type} (fine : Fault) (f : A -> prog E B) (p : prog E A) (s : S) :
  alone fine (p ≫= f) s = alone fine (f (alone fine p s).2) (alone fine p s).1.
Proof.
  revert s. induction p as [a|R e k IH]; intros s; [done|]. simpl.
  destruct (handle R e fine s) as [s' r]. apply IH.
Qed.

(** One entry of a schedule: a thread makes its next call, or the environment
    acts. A thread that has returned, or that is not there, does nothing. *)
Inductive turn : Type := Run (i : nat) (f : Fault) | Outside (x : Env).

Definition take_turn {A : Type} (t : turn) (c : S * list (prog E A)) : option (S * list (prog E A)) :=
  match t with
  | Outside x => Some (env x c.1, c.2)
  | Run i f =>
      match c.2 !! i with
      | Some (Call e k) =>
          if legal _ e f c.1
          then let '(s', r) := handle _ e f c.1 in Some (s', <[i := k r]> c.2)
          else None
      | _ => Some c
      end
  end.

Fixpoint run {A : Type} (ts : list turn) (c : S * list (prog E A)) : option (S * list (prog E A)) :=
  match ts with
  | [] => Some c
  | t :: ts' => c' ← take_turn t c; run ts' c'
  end.

(** ** The proof rule. *)

Section Rule.
Context {G : Type}.
Variable I : S -> list G -> Prop.

(** [safe i g p Q]: with ghost value [g], thread [i] running [p] keeps the
    invariant at every call, updating its own ghost value only, and returns
    in [Q]. *)
Fixpoint safe {A : Type} (i : nat) (g : G) (p : prog E A) (Q : G -> A -> Prop) : Prop :=
  match p with
  | Ret a => Q g a
  | Call e k =>
      forall s gs f, I s gs -> gs !! i = Some g -> legal _ e f s = true ->
        exists g', I (handle _ e f s).1 (<[i := g']> gs) /\
                   safe i g' (k (handle _ e f s).2) Q
  end.

Lemma safe_bind {A B : Type} (i : nat) (g : G) (p : prog E A) (f : A -> prog E B) Q :
  safe i g p (fun g' a => safe i g' (f a) Q) -> safe i g (p ≫= f) Q.
Proof.
  revert g. induction p as [a|R e k IH]; intros g H; [done|]. simpl.
  intros s gs fl HI Hg Hl. destruct (H s gs fl HI Hg Hl) as (g' & HI' & Hs).
  exists g'. split; [done|]. by apply IH.
Qed.

Lemma safe_mono {A : Type} (i : nat) (g : G) (p : prog E A) (Q Q' : G -> A -> Prop) :
  safe i g p Q -> (forall g' a, Q g' a -> Q' g' a) -> safe i g p Q'.
Proof.
  intros H HQ. revert g H. induction p as [a|R e k IH]; intros g H; [by apply HQ|]. simpl.
  intros s gs fl HI Hg Hl. destruct (H s gs fl HI Hg Hl) as (g' & HI' & Hs).
  exists g'. split; [done|]. by apply IH.
Qed.

Lemma safe_call {R : Type} (i : nat) (g : G) (e : E R) Q :
  (forall s gs f, I s gs -> gs !! i = Some g -> legal _ e f s = true ->
     exists g', I (handle _ e f s).1 (<[i := g']> gs) /\ Q g' (handle _ e f s).2) ->
  safe i g (call e) Q.
Proof. done. Qed.

(** Every thread of the pool is safe, so is every configuration it
    reaches. *)
Definition pool_safe {A : Type} (Q : nat -> G -> A -> Prop) (c : S * list (prog E A)) (gs : list G) : Prop :=
  I c.1 gs /\
  forall i p, c.2 !! i = Some p -> exists g, gs !! i = Some g /\ safe i g p (Q i).

Lemma pool_safe_turn {A : Type} (Q : nat -> G -> A -> Prop) t c c' gs :
  (forall x s gs, I s gs -> I (env x s) gs) ->
  pool_safe Q c gs -> take_turn t c = Some c' -> exists gs', pool_safe Q c' gs'.
Proof.
  intros Henv [HI Hall]. destruct t as [i f|x]; simpl.
  - destruct (c.2 !! i) as [[a|R e k]|] eqn:Hi; [intros [= <-]; by exists gs| |intros [= <-]; by exists gs].
    destruct (legal R e f c.1) eqn:Hl; [|done].
    destruct (Hall i _ Hi) as (g & Hg & Hsafe). simpl in Hsafe.
    destruct (Hsafe c.1 gs f HI Hg Hl) as (g' & HI' & Hs).
    destruct (handle R e f c.1) as [s' r]. intros [= <-]. exists (<[i := g']> gs).
    split; [done|]. simpl. intros j p. destruct (decide (j = i)) as [->|Hj].
    + rewrite list_lookup_insert_eq by (by eapply lookup_lt_Some). intros [= <-]. exists g'.
      rewrite list_lookup_insert_eq by (by eapply lookup_lt_Some). done.
    + rewrite !list_lookup_insert_ne by done. apply Hall.
  - intros [= <-]. exists gs. split; [by apply Henv|]. done.
Qed.

Lemma pool_safe_run {A : Type} (Q : nat -> G -> A -> Prop) ts c c' gs :
  (forall x s gs, I s gs -> I (env x s) gs) ->
  pool_safe Q c gs -> run ts c = Some c' -> exists gs', pool_safe Q c' gs'.
Proof.
  intros Henv. revert c gs. induction ts as [|t ts IH]; intros c gs Hc; simpl.
  - intros [= <-]. by exists gs.
  - destruct (take_turn t c) as [c1|] eqn:Ht; simpl; [|done]. intros Hr.
    destruct (pool_safe_turn Q t c c1 gs Henv Hc Ht) as (gs1 & H1). by apply (IH c1 gs1).
Qed.
End Rule.
End Pool.

Arguments Run {Fault Env} i f.
Arguments Outside {Fault Env} x.

(** ** Ghosts that exclude each other. *)

Lemma lookup_update {A : Type} (gs : list A) (i j : nat) (g g0 g' : A) :
  gs !! i = Some g -> <[i := g']> gs !! j = Some g0 -> (j = i /\ g0 = g') \/ (j <> i /\ gs !! j = Some g0).
Proof.
  intros Hi Hj. destruct (decide (j = i)) as [->|Hne].
  - rewrite list_lookup_insert_eq in Hj by (by eapply lookup_lt_Some). left. by simplify_eq.
  - rewrite list_lookup_insert_ne in Hj by done. by right.
Qed.

(** No two threads have the same. *)
Definition exclusive {G X : Type} (what : G -> option X) (gs : list G) : Prop :=
  forall i j g g' x, gs !! i = Some g -> gs !! j = Some g' -> what g = Some x -> what g' = Some x -> i = j.

Lemma exclusive_update {G X : Type} (what : G -> option X) (gs : list G) (i : nat) (g g' : G) :
  gs !! i = Some g -> exclusive what gs ->
  (forall x, what g' = Some x -> what g = Some x \/ forall j g0, gs !! j = Some g0 -> what g0 <> Some x) ->
  exclusive what (<[i := g']> gs).
Proof.
  intros Hi He Hnew j k g1 g2 x Hj Hk H1 H2.
  destruct (lookup_update gs i j g g1 _ Hi Hj) as [[-> ->]|[Hnj Hj']], (lookup_update gs i k g g2 _ Hi Hk) as [[-> ->]|[Hnk Hk']]; [done| | |by apply (He j k g1 g2 x)].
  - destruct (Hnew x H1) as [Hx|Hx]; [by apply (He i k g g2 x)|by destruct (Hx k g2)].
  - destruct (Hnew x H2) as [Hx|Hx]; [by apply (He j i g1 g x)|by destruct (Hx j g1)].
Qed.

(** ** One program among events.

    A program whose calls are made one by one, each after what the outside did
    since the last one: what each call saw and answered, in order, with where
    the program ended and its result. A script that ends early says that
    nothing more happens and that calls are answered without faults. *)
Section Attend.
Context {E : Type -> Type} {S Fault Env L : Type}.
Variable handle : forall R, E R -> Fault -> S -> S * R.
Variable env : Env -> S -> S.
Variable fine : Fault.
(** What the log keeps of a call, from the state it saw. *)
Variable note : forall R, E R -> S -> R -> L.

Abbreviation script := (list (list Env * Fault)).

Definition happened (s : S) (xs : list Env) : S := foldl (fun s x => env x s) s xs.

Definition upcoming (sc : script) : list Env * Fault := default ([], fine) (head sc).

Fixpoint attend {A : Type} (p : prog E A) (s : S) (sc : script) : list L * (S * script) * A :=
  match p with
  | Ret a => ([], (s, sc), a)
  | Call e k =>
      let s1 := happened s (upcoming sc).1 in
      let '(s2, r) := handle _ e (upcoming sc).2 s1 in
      let '(log, rest, a) := attend (k r) s2 (tail sc) in
      (note _ e s1 r :: log, rest, a)
  end.

Lemma attend_bind {A B : Type} (p : prog E A) (f : A -> prog E B) (s : S) (sc : script) :
  attend (p ≫= f) s sc =
  let '(log, (s', sc'), a) := attend p s sc in
  let '(log', rest, b) := attend (f a) s' sc' in (log ++ log', rest, b).
Proof.
  revert s sc. induction p as [a|R e k IH]; intros s sc; simpl.
  - by destruct (attend (f a) s sc) as [[? ?] ?].
  - destruct (handle R e _ _) as [s2 r]. unfold mbind in IH. simpl in IH. rewrite IH.
    destruct (attend (k r) s2 (tail sc)) as [[log [s' sc']] a]. by destruct (attend (f a) s' sc') as [[? ?] ?].
Qed.

Lemma attend_call {A R : Type} (e : E R) (k : R -> prog E A) (s : S) (sc : script) :
  attend (Call e k) s sc =
  let s1 := happened s (upcoming sc).1 in
  let '(s2, r) := handle _ e (upcoming sc).2 s1 in
  let '(log, rest, a) := attend (k r) s2 (tail sc) in (note _ e s1 r :: log, rest, a).
Proof. done. Qed.

(** Alone, with nothing happening. *)
Lemma attend_alone {A : Type} (p : prog E A) (s : S) :
  (attend p s []).1.2 = ((alone handle fine p s).1, []) /\ (attend p s []).2 = (alone handle fine p s).2.
Proof.
  revert s. induction p as [a|R e k IH]; intros s; simpl; [done|].
  destruct (handle R e fine s) as [s2 r]. specialize (IH r s2). by destruct (attend (k r) s2 []) as [[log rest] a].
Qed.
End Attend.

(** ** One program, whatever it is answered. *)
Section Runs.
Context {E : Type -> Type} {L : Type}.
(** What the log keeps of a call and its answer. *)
Variable note : forall R, E R -> R -> L.

(** [runs p log a]: with some answers, [p] makes the calls of [log] and returns
    [a]. *)
Fixpoint runs {A : Type} (p : prog E A) (log : list L) (a : A) : Prop :=
  match p with
  | Ret b => log = [] /\ a = b
  | Call e k => exists r log', log = note _ e r :: log' /\ runs (k r) log' a
  end.

Lemma runs_bind {A B : Type} (p : prog E A) (f : A -> prog E B) (log : list L) (b : B) :
  runs (p ≫= f) log b <-> exists log1 a log2, log = log1 ++ log2 /\ runs p log1 a /\ runs (f a) log2 b.
Proof.
  revert log. induction p as [a|R e k IH]; intros log; simpl.
  - split; [intros H; by exists [], a, log|]. by intros (? & ? & ? & -> & [-> ->] & H).
  - split.
    + intros (r & log' & -> & (log1 & a & log2 & -> & H1 & H2)%IH). exists (note _ e r :: log1), a, log2. split_and!; [done|by exists r, log1|done].
    + intros (? & a & log2 & -> & (r & log1 & -> & H1) & H2). exists r, (log1 ++ log2). split; [done|]. apply IH. by exists log1, a, log2.
Qed.

Lemma runs_ret {A : Type} (a b : A) (log : list L) : runs (mret a) log b <-> log = [] /\ b = a.
Proof. done. Qed.

Lemma runs_call {R : Type} (e : E R) (log : list L) (r : R) : runs (call e) log r <-> log = [note _ e r].
Proof. simpl. split; [by intros (? & ? & -> & -> & ->)|]. intros ->. by exists r, []. Qed.

(** What happens among events is one of these. *)
Lemma attend_runs {S Fault Env A : Type} (handle : forall R, E R -> Fault -> S -> S * R) (env : Env -> S -> S) (fine : Fault)
    (p : prog E A) (s : S) (sc : list (list Env * Fault)) :
  runs p (attend handle env fine (fun R e _ r => note R e r) p s sc).1.1 (attend handle env fine (fun R e _ r => note R e r) p s sc).2.
Proof.
  revert s sc. induction p as [a|R e k IH]; intros s sc; [done|]. rewrite attend_call. cbv zeta.
  destruct (handle R e _ _) as [s2 r]. specialize (IH r s2 (tail sc)). destruct (attend _ _ _ _ (k r) s2 _) as [[log rest] a].
  by exists r, log.
Qed.
End Runs.
