(* ===== verification/GoStd.v ===== *)
(** * The parts of the Go language and its standard library the code relies on.

    Machine integers with their wrap-around, [time.Time] and [time.Duration] on
    a nanosecond line, the functions of package [strings] the components call,
    the binary search of package [sort], and hexadecimal encoding. *)

From Stdlib Require Import Ascii.
From stdpp Require Import base tactics numbers list option strings gmap sorting.
From S2P Require Import Prelude.

(** ** Integers. *)

(** A Go [int64] (and [int] on the 64-bit targets) is a [Z] in this range. *)
Definition int64_max : Z := 2 ^ 63 - 1.

Definition int64_min : Z := - 2 ^ 63.

(** Two's-complement wrap-around of signed 64-bit arithmetic. *)
Definition wrap64 (z : Z) : Z := (z + 2 ^ 63) mod 2 ^ 64 - 2 ^ 63.

Notation "a +! b" := (wrap64 (a + b)) (at level 50, left associativity) : kipper_scope.

Definition int64_range (z : Z) : Prop := int64_min <= z <= int64_max.

(** ** Time.

    A [time.Time] is its number of nanoseconds since Go's zero time (January 1,
    year 1, 00:00:00 UTC), so the zero value of the type is 0. A [time.Duration]
    is a number of nanoseconds. *)
Definition Time : Type := Z.

Definition Duration : Type := Z.

Definition zero_time : Time := 0.

Definition IsZero (t : Time) : bool := t =? zero_time.

Definition Nanosecond : Duration := 1.

Definition Second : Duration := 1000000000.

Definition Minute : Duration := 60 * Second.

Definition Hour : Duration := 60 * Minute.

(** [t.Add(d)]. *)
Definition Add (t : Time) (d : Duration) : Time := t + d.

(** [t.Sub(u)] saturates at the bounds of [time.Duration]. *)
Definition Sub (t u : Time) : Duration := Z.max int64_min (Z.min int64_max (t - u)).

(** [t.After(u)] and [t.Before(u)]. *)
Definition After (t u : Time) : bool := u <? t.

Definition Before (t u : Time) : bool := t <? u.

(** ** Strings. *)

Local Open Scope string_scope.

(** [strings.HasPrefix(s, prefix)]. *)
Fixpoint HasPrefix (s prefix : string) {struct prefix} : bool :=
  match prefix, s with
  | "", _ => true
  | String p ps, String c cs => Ascii.eqb p c && HasPrefix cs ps
  | String _ _, "" => false
  end.

(** [strings.CutPrefix(s, prefix)]: what follows the prefix, [None] when [s]
    does not start with it. *)
Fixpoint CutPrefix (s prefix : string) {struct prefix} : option string :=
  match prefix, s with
  | "", _ => Some s
  | String p ps, String c cs => if Ascii.eqb p c then CutPrefix cs ps else None
  | String _ _, "" => None
  end.

(** [strings.CutSuffix(s, suffix)]. *)
Fixpoint CutSuffix (s suffix : string) : option string :=
  if s =? suffix then Some ""
  else match s with
       | "" => None
       | String c cs => String c <$> CutSuffix cs suffix
       end.

(** [strings.HasSuffix] and [strings.TrimSuffix]. *)
Definition HasSuffix (s suffix : string) : bool := bool_decide (is_Some (CutSuffix s suffix)).

Definition TrimSuffix (s suffix : string) : string := default s (CutSuffix s suffix).

(** [strings.IndexByte(s, c)]: the first index of [c], [None] for -1. *)
Fixpoint IndexByte (s : string) (c : Ascii.ascii) : option nat :=
  match s with
  | "" => None
  | String d s' => if Ascii.eqb d c then Some 0%nat else S <$> IndexByte s' c
  end.

(** [strings.Contains(s, sub)]. *)
Fixpoint Contains (s sub : string) : bool :=
  HasPrefix s sub ||
  match s with
  | "" => false
  | String _ s' => Contains s' sub
  end.

(** [s[n:]] and [s[:n]] for [n] within the length. *)
Fixpoint str_drop (n : nat) (s : string) : string :=
  match n, s with
  | O, _ => s
  | S n', String _ s' => str_drop n' s'
  | S _, "" => ""
  end.

Fixpoint str_take (n : nat) (s : string) : string :=
  match n, s with
  | S n', String c s' => String c (str_take n' s')
  | _, _ => ""
  end.

(** [strings.Split(s, sep)] for a one-byte separator. *)
Fixpoint Split (s : string) (sep : Ascii.ascii) : list string :=
  match s with
  | "" => [""]
  | String c s' =>
      if Ascii.eqb c sep then "" :: Split s' sep
      else match Split s' sep with
           | [] => [String c ""]
           | w :: ws => String c w :: ws
           end
  end.

(** [strings.Join(parts, sep)]. *)
Fixpoint Join (parts : list string) (sep : string) : string :=
  match parts with
  | [] => ""
  | [p] => p
  | p :: ps => p ++ sep ++ Join ps sep
  end.

(** The last index of a byte. *)
Fixpoint LastIndexByte (s : string) (c : Ascii.ascii) : option nat :=
  match s with
  | EmptyString => None
  | String d s' =>
      match LastIndexByte s' c with
      | Some i => Some (S i)
      | None => if Ascii.eqb d c then Some 0%nat else None
      end
  end.

(** [path.Clean(p)]: empty and ["."] elements go, an inner [".."] goes with the
    element before it, a leading [".."] stays unless the path is rooted. The
    stack holds the elements kept so far, last first. *)
Definition clean_element (rooted : bool) (stack : list string) (seg : string) : list string :=
  if (seg =? "") || (seg =? ".") then stack
  else if seg =? ".." then
    match stack with
    | [] => if rooted then [] else [".."]
    | top :: rest => if top =? ".." then ".." :: stack else rest
    end
  else seg :: stack.

Definition Clean (p : string) : string :=
  let rooted := HasPrefix p "/" in
  let body := Join (reverse (foldl (clean_element rooted) [] (Split p "/"%char))) "/" in
  if rooted then "/" ++ body else if body =? "" then "." else body.

(** [strings.TrimRight(s, cutset)] for a one-byte cutset. *)
Fixpoint TrimRight (s : string) (c : Ascii.ascii) : string :=
  match s with
  | "" => ""
  | String d s' =>
      match TrimRight s' c with
      | "" => if Ascii.eqb d c then "" else String d ""
      | t => String d t
      end
  end.

(** Whether every byte of a string satisfies a test. *)
Fixpoint str_forall (P : Ascii.ascii -> bool) (s : string) : bool :=
  match s with
  | "" => true
  | String c s' => P c && str_forall P s'
  end.

(** Byte classes used by the validators. *)
Definition byte_of (c : Ascii.ascii) : Z := Z.of_N (Ascii.N_of_ascii c).

Definition in_range (c lo hi : Ascii.ascii) : bool :=
  (byte_of lo <=? byte_of c)%Z && (byte_of c <=? byte_of hi)%Z.

Definition is_digit (c : Ascii.ascii) : bool := in_range c "0"%char "9"%char.

Definition is_lower (c : Ascii.ascii) : bool := in_range c "a"%char "z"%char.

Definition is_upper (c : Ascii.ascii) : bool := in_range c "A"%char "Z"%char.

Definition is_lower_hex (c : Ascii.ascii) : bool := is_digit c || in_range c "a"%char "f"%char.

(** [strings.TrimSpace] on ASCII text. *)
Definition is_space (c : Ascii.ascii) : bool :=
  in_range c (Ascii.ascii_of_N 9) (Ascii.ascii_of_N 13) || Ascii.eqb c " "%char.

Fixpoint TrimLeftSpace (s : string) : string :=
  match s with
  | String c s' => if is_space c then TrimLeftSpace s' else s
  | EmptyString => EmptyString
  end.

Fixpoint TrimRightSpace (s : string) : string :=
  match s with
  | EmptyString => EmptyString
  | String c s' =>
      match TrimRightSpace s' with
      | EmptyString => if is_space c then EmptyString else String c EmptyString
      | t => String c t
      end
  end.

Definition TrimSpace (s : string) : string := TrimRightSpace (TrimLeftSpace s).

(** Lower case of an ASCII byte, as [strings.ToLower] acts on ASCII text. *)
Definition to_lower_byte (c : Ascii.ascii) : Ascii.ascii :=
  if is_upper c then Ascii.ascii_of_N (Ascii.N_of_ascii c + 32) else c.

Fixpoint ToLower (s : string) : string :=
  match s with
  | "" => ""
  | String c s' => String (to_lower_byte c) (ToLower s')
  end.

Local Close Scope string_scope.

(** ** Hexadecimal. *)

Definition hex_digit (n : Z) : Ascii.ascii :=
  if n <? 10 then Ascii.ascii_of_N (Z.to_N (48 + n)) else Ascii.ascii_of_N (Z.to_N (87 + n)).

(** [hex.EncodeToString]: two lower-case digits per byte. *)
Fixpoint hex_encode (l : list Z) : string :=
  match l with
  | [] => EmptyString
  | b :: l' =>
      String (hex_digit (Z.shiftr b 4)) (String (hex_digit (Z.land b 15)) (hex_encode l'))
  end.

Definition hex_value (c : Ascii.ascii) : option Z :=
  if is_digit c then Some (byte_of c - 48)
  else if in_range c "a"%char "f"%char then Some (byte_of c - 87)
  else if in_range c "A"%char "F"%char then Some (byte_of c - 55)
  else None.

(** [hex.DecodeString]: [None] for a byte outside the alphabet or an odd length. *)
Fixpoint hex_decode (s : string) : option (list Z) :=
  match s with
  | EmptyString => Some []
  | String _ EmptyString => None
  | String a (String b s') =>
      x ← hex_value a; y ← hex_value b; l ← hex_decode s';
      Some ((16 * x + y) :: l)
  end.

(** Bytes of a string. *)
Fixpoint bytes_of (s : string) : list Z :=
  match s with
  | EmptyString => []
  | String c s' => byte_of c :: bytes_of s'
  end.

Fixpoint string_of (l : list Z) : string :=
  match l with
  | [] => EmptyString
  | b :: l' => String (Ascii.ascii_of_N (Z.to_N b)) (string_of l')
  end.

(** All that [io.LimitReader(r, n)] lets through of the bytes of [r]. *)
Definition LimitReader (l : list Z) (n : Z) : list Z :=
  if Z.of_nat (length l) <=? n then l else take (Z.to_nat n) l.

(** The value of a string of decimal digits, [None] for any other byte. *)
Fixpoint digits_value (acc : Z) (s : string) : option Z :=
  match s with
  | EmptyString => Some acc
  | String c s' => if is_digit c then digits_value (10 * acc + (byte_of c - 48)) s' else None
  end.

(** [strconv.Atoi(s)]: an optional sign, at least one digit, within [int]. *)
Definition Atoi (s : string) : option Z :=
  let '(neg, ds) :=
    match s with
    | String c s' =>
        if Ascii.eqb c "-"%char then (true, s') else if Ascii.eqb c "+"%char then (false, s') else (false, s)
    | EmptyString => (false, s)
    end in
  match ds with
  | EmptyString => None
  | _ =>
      v ← digits_value 0 ds;
      let v := if neg : bool then - v else v in
      if (int64_min <=? v) && (v <=? int64_max) then Some v else None
  end.

(** ** Search and sort. *)

(** The loop of [sort.Search]: the range [i, j) is halved until it is empty.
    [None] only when the fuel runs out. *)
Fixpoint search_loop (fuel : nat) (f : nat -> bool) (i j : nat) : option nat :=
  if (j <=? i)%nat then Some i
  else match fuel with
       | O => None
       | S fuel' =>
           let h := ((i + j) / 2)%nat in
           if f h then search_loop fuel' f i h else search_loop fuel' f (S h) j
       end.

(** [sort.Search(n, f)]; the range shrinks at every iteration, so [n] steps are
    enough. *)
Definition Search (n : nat) (f : nat -> bool) : nat := default n (search_loop n f 0 n).

(** [sort.Strings]: byte-wise ascending order. *)
Definition str_le (a b : string) : Prop := String.leb a b.

#[export] Instance str_le_dec : RelDecision str_le.
Proof. intros a b. unfold str_le. apply _. Defined.

Definition Strings (l : list string) : list string := merge_sort str_le l.

(** [slices.Compact] on strings. *)
Fixpoint Compact (l : list string) : list string :=
  match l with
  | a :: ((b :: _) as l') => if (a =? b)%string then Compact l' else a :: Compact l'
  | _ => l
  end.

(** ** Lemmas. *)

Lemma wrap64_id (z : Z) : int64_range z -> wrap64 z = z.
Proof.
  unfold int64_range, int64_min, int64_max, wrap64. intros H.
  rewrite Z.mod_small by lia. lia.
Qed.

Lemma wrap64_range (z : Z) : int64_range (wrap64 z).
Proof.
  unfold int64_range, int64_min, int64_max, wrap64.
  pose proof (Z.mod_pos_bound (z + 2 ^ 63) (2 ^ 64)). lia.
Qed.

Lemma wrap64_add_l (a b : Z) : wrap64 (wrap64 a + b) = wrap64 (a + b).
Proof.
  unfold wrap64.
  replace ((a + 2 ^ 63) mod 2 ^ 64 - 2 ^ 63 + b + 2 ^ 63)
    with ((a + 2 ^ 63) mod 2 ^ 64 + b) by lia.
  rewrite Zplus_mod_idemp_l. do 2 f_equal. lia.
Qed.

Lemma Sub_exact (t u : Time) : int64_range (t - u) -> Sub t u = t - u.
Proof. unfold int64_range, Sub. lia. Qed.

Lemma Sub_mono (t t' u : Time) : t <= t' -> Sub t u <= Sub t' u.
Proof. unfold Sub, int64_min, int64_max. lia. Qed.

(** A bound below the saturation point is passed exactly when the true
    difference passes it. *)
Lemma Sub_gt (t u : Time) (d : Duration) :
  int64_min <= d < int64_max -> (d <? Sub t u) = (d <? t - u).
Proof.
  intros Hd. destruct (Z.ltb_spec d (t - u)), (Z.ltb_spec d (Sub t u)); try done;
    unfold Sub in *; lia.
Qed.

Lemma CutPrefix_Some (s prefix rest : string) :
  CutPrefix s prefix = Some rest <-> s = String.append prefix rest.
Proof.
  revert s. induction prefix as [|p ps IH]; intros s; simpl.
  - split; congruence.
  - destruct s as [|c cs]; simpl; [split; discriminate|].
    destruct (Ascii.eqb_spec p c) as [->|Hne]; [rewrite IH|]; split; congruence.
Qed.

Lemma HasPrefix_CutPrefix (s prefix : string) :
  HasPrefix s prefix = bool_decide (is_Some (CutPrefix s prefix)).
Proof.
  revert s. induction prefix as [|p ps IH]; intros s; simpl.
  - done.
  - destruct s as [|c cs]; simpl; [done|].
    destruct (Ascii.eqb_spec p c) as [->|Hne]; simpl; auto.
Qed.

Lemma HasPrefix_spec (s prefix : string) :
  HasPrefix s prefix = true <-> exists rest, s = String.append prefix rest.
Proof.
  rewrite HasPrefix_CutPrefix, bool_decide_eq_true. unfold is_Some.
  by setoid_rewrite CutPrefix_Some.
Qed.

Lemma CutSuffix_Some (s suffix rest : string) :
  CutSuffix s suffix = Some rest <-> s = String.append rest suffix.
Proof.
  revert rest. induction s as [|c cs IH]; intros rest; simpl;
    match goal with |- context [String.eqb ?x suffix] =>
      destruct (String.eqb_spec x suffix) as [<-|Hne]; [split|] end.
  - intros [= <-]. done.
  - intros H. symmetry in H. by apply str_app_eq_nil in H as [-> _].
  - split; [done|]. intros H. symmetry in H. apply str_app_eq_nil in H as [_ ->]. done.
  - intros [= <-]. done.
  - intros H. destruct rest as [|d rest]; [done|].
    apply (f_equal String.length) in H. rewrite str_length_app in H. simpl in H. lia.
  - rewrite fmap_Some. split.
    + intros (r & Hr & ->). apply IH in Hr. by subst.
    + intros H. destruct rest as [|d rest]; simplify_eq/=. exists rest. by rewrite IH.
Qed.

Lemma HasSuffix_spec (s suffix : string) :
  HasSuffix s suffix = true <-> exists rest, s = String.append rest suffix.
Proof.
  unfold HasSuffix. rewrite bool_decide_eq_true. unfold is_Some.
  by setoid_rewrite CutSuffix_Some.
Qed.

Lemma str_forall_app (P : Ascii.ascii -> bool) (a b : string) :
  str_forall P (String.append a b) = str_forall P a && str_forall P b.
Proof. induction a as [|c a IH]; simpl; [done|]. by rewrite IH, andb_assoc. Qed.

Lemma str_take_drop (n : nat) (s : string) : String.append (str_take n s) (str_drop n s) = s.
Proof. revert n. induction s as [|c s IH]; intros [|n]; simpl; try done. by rewrite IH. Qed.

Lemma str_drop_drop (n m : nat) (s : string) : str_drop n (str_drop m s) = str_drop (m + n) s.
Proof. revert m. induction s as [|c s IH]; intros [|m]; simpl; try done; by destruct n. Qed.

Lemma str_length_drop (n : nat) (s : string) :
  String.length (str_drop n s) = (String.length s - n)%nat.
Proof. revert n. induction s as [|c s IH]; intros [|n]; simpl; auto. Qed.

Lemma str_length_take (n : nat) (s : string) :
  String.length (str_take n s) = Nat.min n (String.length s).
Proof. revert n. induction s as [|c s IH]; intros [|n]; simpl; auto. Qed.

(** A string without a given byte. *)
Definition no_byte (c : Ascii.ascii) (s : string) : Prop :=
  str_forall (fun d => negb (Ascii.eqb d c)) s = true.

Lemma Split_cons (s : string) (c : Ascii.ascii) : exists w ws, Split s c = w :: ws.
Proof. destruct s as [|d s]; simpl; repeat case_match; eauto. Qed.

Lemma Join_Split (s : string) (c : Ascii.ascii) : Join (Split s c) (String c EmptyString) = s.
Proof.
  induction s as [|d s IH]; [done|]. destruct (Split_cons s c) as (w & ws & Hs). simpl.
  destruct (Ascii.eqb_spec d c) as [->|Hne]; rewrite Hs in *.
  - by rewrite <- IH.
  - destruct ws; simpl in *; congruence.
Qed.

Lemma Split_no_byte (s : string) (c : Ascii.ascii) : Forall (no_byte c) (Split s c).
Proof.
  induction s as [|d s IH]; [by repeat constructor|]. destruct (Split_cons s c) as (w & ws & Hs). simpl.
  destruct (Ascii.eqb d c) eqn:Hd; rewrite Hs in *; [by constructor|].
  apply Forall_cons in IH as [Hw Hws]. constructor; [|done].
  unfold no_byte. simpl. by rewrite Hd.
Qed.

Lemma Split_no_byte_id (s : string) (c : Ascii.ascii) : no_byte c s -> Split s c = [s].
Proof.
  unfold no_byte. induction s as [|d s IH]; simpl; [done|]. intros H. bool_to_prop.
  rewrite IH by done. by destruct (Ascii.eqb d c).
Qed.

Lemma Split_app_sep (s t : string) (c : Ascii.ascii) :
  no_byte c s -> Split (String.append s (String c t)) c = s :: Split t c.
Proof.
  unfold no_byte. induction s as [|d s IH]; simpl; intros H.
  - by rewrite Ascii.eqb_refl.
  - bool_to_prop. rewrite IH by done. by destruct (Ascii.eqb d c).
Qed.

Lemma Split_Join (l : list string) (c : Ascii.ascii) :
  l <> [] -> Forall (no_byte c) l -> Split (Join l (String c EmptyString)) c = l.
Proof.
  intros Hne Hl. induction Hl as [|s l Hs Hl IH]; [done|]. destruct l as [|s' l].
  - by apply Split_no_byte_id.
  - change (Join (s :: s' :: l) (String c EmptyString))
      with (String.append s (String c (Join (s' :: l) (String c EmptyString)))).
    rewrite Split_app_sep, IH by done. done.
Qed.

Lemma IndexByte_lt (s : string) (c : Ascii.ascii) (i : nat) :
  IndexByte s c = Some i -> (i < String.length s)%nat.
Proof.
  revert i. induction s as [|d s IH]; intros i; simpl; [done|].
  destruct (Ascii.eqb d c); intros H; simplify_eq/=; [lia|].
  apply fmap_Some in H as (j & Hj & ->). apply IH in Hj. lia.
Qed.

Lemma LimitReader_take (l : list Z) (n : Z) : LimitReader l n = take (Z.to_nat n) l.
Proof. unfold LimitReader. destruct (Z.leb_spec (Z.of_nat (length l)) n); [|done]. rewrite take_ge; [done|lia]. Qed.

Lemma string_of_bytes_of (s : string) : string_of (bytes_of s) = s.
Proof.
  induction s as [|c s IH]; simpl; [done|]. unfold byte_of.
  by rewrite N2Z.id, Ascii.ascii_N_embedding, IH.
Qed.

Lemma length_hex_encode (l : list Z) : String.length (hex_encode l) = (2 * length l)%nat.
Proof. induction l as [|b l IH]; simpl; [done|]. lia. Qed.

(** The digits of a byte are lower-case hexadecimal: checked on all 16 values. *)
Lemma hex_digit_lower (n : Z) : 0 <= n < 16 -> is_lower_hex (hex_digit n) = true.
Proof.
  intros H. assert (Hall : forallb (fun k => is_lower_hex (hex_digit (Z.of_nat k))) (seq 0 16) = true)
    by (vm_compute; reflexivity).
  rewrite forallb_forall in Hall. specialize (Hall (Z.to_nat n)).
  rewrite Z2Nat.id in Hall by lia. apply Hall, in_seq. lia.
Qed.

Lemma hex_encode_lower (l : list Z) :
  Forall (fun b => 0 <= b < 256) l -> str_forall is_lower_hex (hex_encode l) = true.
Proof.
  induction 1 as [|b l Hb _ IH]; simpl; [done|].
  assert (0 <= Z.shiftr b 4 < 16).
  { rewrite Z.shiftr_div_pow2 by lia. split; [apply Z.div_pos; lia|apply Z.div_lt_upper_bound; lia]. }
  assert (0 <= Z.land b 15 < 16).
  { change 15 with (Z.ones 4). rewrite Z.land_ones by lia. apply Z.mod_pos_bound. lia. }
  rewrite !hex_digit_lower, IH by done. done.
Qed.

Lemma search_loop_spec (f : nat -> bool) (n : nat) :
  (forall a b, (a <= b)%nat -> f a = true -> f b = true) ->
  forall fuel i j,
  (j - i <= fuel)%nat -> (i <= j <= n)%nat ->
  (forall k, (k < i)%nat -> f k = false) -> (forall k, (j <= k < n)%nat -> f k = true) ->
  exists r, search_loop fuel f i j = Some r /\ (i <= r <= j)%nat /\
    (forall k, (k < r)%nat -> f k = false) /\ (forall k, (r <= k < n)%nat -> f k = true).
Proof.
  intros Hmono fuel. induction fuel as [|fuel IH]; intros i j Hf Hij Hlo Hhi; cbn [search_loop]; cbv zeta.
  - destruct (Nat.leb_spec j i); [|lia].
    exists i. split_and!; try done; try lia. intros k Hk. apply Hhi. lia.
  - destruct (Nat.leb_spec j i).
    + exists i. split_and!; try done; try lia. intros k Hk. apply Hhi. lia.
    + set (h := ((i + j) / 2)%nat).
      assert (Hh : (i <= h < j)%nat).
      { unfold h. split; [apply Nat.div_le_lower_bound; lia|apply Nat.Div0.div_lt_upper_bound; lia]. }
      destruct (f h) eqn:Hfh.
      * destruct (IH i h) as (r & -> & Hr & Hl & Hg); try done; try lia.
        { intros k Hk. apply (Hmono h); [lia|done]. }
        exists r. split_and!; try done; lia.
      * destruct (IH (S h) j) as (r & -> & Hr & Hl & Hg); try done; try lia.
        { intros k Hk. destruct (f k) eqn:Hfk; [|done].
          rewrite (Hmono k h) in Hfh; [done|lia|done]. }
        exists r. split_and!; try done; lia.
Qed.

(** [sort.Search] returns the least index at which a monotone test holds. *)
Lemma Search_spec (n : nat) (f : nat -> bool) :
  (forall a b, (a <= b)%nat -> f a = true -> f b = true) ->
  (Search n f <= n)%nat /\
  (forall k, (k < Search n f)%nat -> f k = false) /\
  (forall k, (Search n f <= k < n)%nat -> f k = true).
Proof.
  intros Hmono. destruct (search_loop_spec f n Hmono n 0 n) as (r & Hr & Hb & Hl & Hg);
    try lia.
  unfold Search. rewrite Hr. simpl. split_and!; [lia|done|done].
Qed.

#[export] Instance str_le_trans : Transitive str_le := transitivity (R := String.le).
#[export] Instance str_le_antisymm : AntiSymm eq str_le := anti_symm String.le.
#[export] Instance str_le_total : Total str_le := total String.le.

Lemma Strings_perm (l : list string) : Strings l ≡ₚ l.
Proof. apply merge_sort_Permutation. Qed.

Lemma Strings_sorted (l : list string) : Sorted str_le (Strings l).
Proof. apply Sorted_merge_sort. apply _. Qed.

Lemma elem_of_Strings (l : list string) (x : string) : x ∈ Strings l <-> x ∈ l.
Proof. by rewrite Strings_perm. Qed.

(** The string functions are reasoned about through their specifications. *)
#[global] Arguments HasPrefix : simpl never.
#[global] Arguments CutPrefix : simpl never.
#[global] Arguments CutSuffix : simpl never.
#[global] Arguments Contains : simpl never.

Lemma elem_of_Compact (l : list string) (x : string) : x ∈ Compact l <-> x ∈ l.
Proof.
  induction l as [|a [|b l] IH]; [done|done|].
  change (Compact (a :: b :: l)) with (if (a =? b)%string then Compact (b :: l) else a :: Compact (b :: l)).
  destruct (String.eqb_spec a b) as [->|_].
  - rewrite IH, !elem_of_cons. tauto.
  - rewrite elem_of_cons, IH, (elem_of_cons (b :: l)). done.
Qed.

Lemma LastIndexByte_None (s : string) (c : Ascii.ascii) : LastIndexByte s c = None -> no_byte c s.
Proof.
  unfold no_byte. induction s as [|d s IH]; simpl; [done|]. destruct (LastIndexByte s c); [done|].
  destruct (Ascii.eqb d c); [done|]. intros _. by rewrite IH.
Qed.

Lemma LastIndexByte_Some (s : string) (c : Ascii.ascii) (i : nat) :
  LastIndexByte s c = Some i ->
  exists rest, s = String.append (str_take i s) (String c rest) /\ no_byte c rest.
Proof.
  revert i. induction s as [|d s IH]; intros i; simpl; [done|].
  destruct (LastIndexByte s c) as [j|] eqn:Hj.
  - intros [= <-]. destruct (IH j eq_refl) as (rest & Heq & Hn). exists rest. split; [|done].
    simpl. congruence.
  - destruct (Ascii.eqb_spec d c) as [->|]; [|done]. intros [= <-]. exists s.
    split; [done|]. by apply LastIndexByte_None.
Qed.

Lemma Split_app (s t : string) (c : Ascii.ascii) :
  Split (String.append s (String c t)) c = Split s c ++ Split t c.
Proof.
  induction s as [|d s IH]; simpl; [by rewrite Ascii.eqb_refl|]. rewrite IH.
  destruct (Ascii.eqb d c); [done|]. by destruct (Split_cons s c) as (w & ws & ->).
Qed.
