(* ===== verification/Sha256.v ===== *)
(** * SHA-256, as [crypto/sha256] computes it.

    The code keys its registries and verifies its payloads by [sha256.Sum256];
    the digest is executable, so that a witness evaluates it. *)

From Stdlib Require Import Ascii.
From stdpp Require Import base tactics numbers list option strings.
From S2P Require Import Prelude GoStd.

(** ** 32-bit words. *)

Definition w32 (x : Z) : Z := x mod 2 ^ 32.

Definition add32 (x y : Z) : Z := w32 (x + y).

Definition rotr (x : Z) (n : Z) : Z := w32 (Z.lor (Z.shiftr x n) (Z.shiftl x (32 - n))).

Definition not32 (x : Z) : Z := 2 ^ 32 - 1 - x.

Definition Ch (x y z : Z) : Z := Z.lxor (Z.land x y) (Z.land (not32 x) z).

Definition Maj (x y z : Z) : Z := Z.lxor (Z.lxor (Z.land x y) (Z.land x z)) (Z.land y z).

Definition big_sigma0 (x : Z) : Z := Z.lxor (Z.lxor (rotr x 2) (rotr x 13)) (rotr x 22).

Definition big_sigma1 (x : Z) : Z := Z.lxor (Z.lxor (rotr x 6) (rotr x 11)) (rotr x 25).

Definition small_sigma0 (x : Z) : Z := Z.lxor (Z.lxor (rotr x 7) (rotr x 18)) (Z.shiftr x 3).

Definition small_sigma1 (x : Z) : Z := Z.lxor (Z.lxor (rotr x 17) (rotr x 19)) (Z.shiftr x 10).

(** The round constants: the first 32 bits of the fractional parts of the cube
    roots of the first 64 primes. *)
Definition round_constants : list Z :=
  [1116352408; 1899447441; 3049323471; 3921009573; 961987163; 1508970993;
   2453635748; 2870763221; 3624381080; 310598401; 607225278; 1426881987;
   1925078388; 2162078206; 2614888103; 3248222580; 3835390401; 4022224774;
   264347078; 604807628; 770255983; 1249150122; 1555081692; 1996064986;
   2554220882; 2821834349; 2952996808; 3210313671; 3336571891; 3584528711;
   113926993; 338241895; 666307205; 773529912; 1294757372; 1396182291;
   1695183700; 1986661051; 2177026350; 2456956037; 2730485921; 2820302411;
   3259730800; 3345764771; 3516065817; 3600352804; 4094571909; 275423344;
   430227734; 506948616; 659060556; 883997877; 958139571; 1322822218;
   1537002063; 1747873779; 1955562222; 2024104815; 2227730452; 2361852424;
   2428436474; 2756734187; 3204031479; 3329325298].

(** The chaining state. *)
Record digest := mkDigest {
  dA : Z; dB : Z; dC : Z; dD : Z; dE : Z; dF : Z; dG : Z; dH : Z
}.

Definition initial_digest : digest :=
  mkDigest 1779033703 3144134277 1013904242 2773480762 1359893119 2600822924 528734635 1541459225.

(** One round with its constant [k] and schedule word [w]. *)
Definition sha_round (d : digest) (k w : Z) : digest :=
  let t1 := add32 (dH d) (big_sigma1 (dE d) + Ch (dE d) (dF d) (dG d) + k + w) in
  let t2 := add32 (big_sigma0 (dA d)) (Maj (dA d) (dB d) (dC d)) in
  mkDigest (add32 t1 t2) (dA d) (dB d) (dC d) (add32 (dD d) t1) (dE d) (dF d) (dG d).

(** The rounds of one block. The window holds the next 16 schedule words, and
    every round appends the word 16 positions later. *)
Fixpoint sha_rounds (ks : list Z) (window : list Z) (d : digest) : digest :=
  match ks, window with
  | k :: ks', w :: rest =>
      let next :=
        w32 (small_sigma1 (default 0 (rest !! 13%nat)) + default 0 (rest !! 8%nat)
             + small_sigma0 (default 0 (rest !! 0%nat)) + w) in
      sha_rounds ks' (rest ++ [next]) (sha_round d k w)
  | _, _ => d
  end.

Definition compress (d : digest) (block : list Z) : digest :=
  let e := sha_rounds round_constants block d in
  mkDigest (add32 (dA d) (dA e)) (add32 (dB d) (dB e)) (add32 (dC d) (dC e))
    (add32 (dD d) (dD e)) (add32 (dE d) (dE e)) (add32 (dF d) (dF e))
    (add32 (dG d) (dG e)) (add32 (dH d) (dH e)).

(** Big-endian bytes of a word, and back. *)
Definition word_bytes (w : Z) : list Z :=
  [Z.land (Z.shiftr w 24) 255; Z.land (Z.shiftr w 16) 255; Z.land (Z.shiftr w 8) 255;
   Z.land w 255].

Fixpoint bytes_words (l : list Z) : list Z :=
  match l with
  | a :: b :: c :: d :: l' =>
      (Z.shiftl a 24 + Z.shiftl b 16 + Z.shiftl c 8 + d) :: bytes_words l'
  | _ => []
  end.

(** The message followed by the bit 1, zeros, and its length in bits. *)
Definition sha_pad (l : list Z) : list Z :=
  let n := length l in
  let zeros := ((119 - n mod 64) mod 64)%nat in
  let bits := 8 * Z.of_nat n in
  l ++ 128 :: replicate zeros 0 ++ word_bytes (w32 (Z.shiftr bits 32)) ++ word_bytes (w32 bits).

(** The blocks of 16 words, consumed left to right. *)
Fixpoint sha_blocks (fuel : nat) (ws : list Z) (d : digest) : digest :=
  match fuel, ws with
  | S fuel', _ :: _ => sha_blocks fuel' (drop 16 ws) (compress d (take 16 ws))
  | _, _ => d
  end.

Definition digest_bytes (d : digest) : list Z :=
  word_bytes (dA d) ++ word_bytes (dB d) ++ word_bytes (dC d) ++ word_bytes (dD d) ++
  word_bytes (dE d) ++ word_bytes (dF d) ++ word_bytes (dG d) ++ word_bytes (dH d).

(** [sha256.Sum256] of a byte string; [fuel] is the number of words, which
    bounds the number of blocks. *)
Definition Sum256_bytes (l : list Z) : list Z :=
  let ws := bytes_words (sha_pad l) in
  digest_bytes (sha_blocks (length ws) ws initial_digest).

Definition Sum256 (s : string) : list Z := Sum256_bytes (bytes_of s).

(** The hexadecimal digest the code stores. *)
Definition sha256_hex (s : string) : string := hex_encode (Sum256 s).

(** ** Lemmas. *)

Lemma length_Sum256 (s : string) : length (Sum256 s) = 32%nat.
Proof. reflexivity. Qed.

Lemma word_bytes_range (w : Z) : Forall (fun b => 0 <= b < 256) (word_bytes w).
Proof.
  assert (H : forall x, 0 <= Z.land x 255 < 256).
  { intros x. change 255 with (Z.ones 8). rewrite Z.land_ones by lia.
    apply Z.mod_pos_bound. lia. }
  unfold word_bytes. repeat constructor; apply H.
Qed.

Lemma Sum256_range (s : string) : Forall (fun b => 0 <= b < 256) (Sum256 s).
Proof.
  unfold Sum256, Sum256_bytes, digest_bytes. rewrite !Forall_app.
  split_and!; apply word_bytes_range.
Qed.

Lemma sha256_hex_length (s : string) : String.length (sha256_hex s) = 64%nat.
Proof. unfold sha256_hex. by rewrite length_hex_encode, length_Sum256. Qed.

Lemma sha256_hex_lower (s : string) : str_forall is_lower_hex (sha256_hex s) = true.
Proof. apply hex_encode_lower, Sum256_range. Qed.

#[export] Hint Rewrite sha256_hex_length : kipper_str.

(** The published test vectors. *)
Example sha256_empty :
  sha256_hex "" = "e3b0c44298fc1c149afbf4c8996fb92427ae41e4649b934ca495991b7852b855"%string.
Proof. vm_compute. reflexivity. Qed.

Example sha256_abc :
  sha256_hex "abc" = "ba7816bf8f01cfea414140de5dae2223b00361a396177a9cb410ff61f20015ad"%string.
Proof. vm_compute. reflexivity. Qed.

Example sha256_two_blocks :
  sha256_hex "abcdbcdecdefdefgefghfghighijhijkijkljklmklmnlmnomnopnopq" =
  "248d6a61d20638b8e5c026930c3e6039a33ce45964ff2167f6ecedd419db06c1"%string.
Proof. vm_compute. reflexivity. Qed.

(** A digest is never unfolded by the simplification tactics. *)
#[global] Opaque sha256_hex Sum256 Sum256_bytes.
