(* ===== verification/Registry.v ===== *)
(** * The gateway's registry of *.kipper.run labels
    ([src/gateway/internal/registry/registry.go]).

    A registry maps a label to its entry and a token hash to its label. Every
    operation runs under the registry's mutex, so it is one atomic transition;
    the clock reading of a critical section is the argument [now], and the result
    of a random source ([newToken], [newNonce]) is an argument as well, [None]
    for an entropy failure. *)

From Stdlib Require Import Ascii.
From stdpp Require Import base tactics numbers list option strings gmap.
From S2P Require Import Prelude GoStd Sha256.


(** ** Constants. *)

Definition pendingPinTTL : Duration := 24 * Hour.

Definition prevPinTTL : Duration := 24 * Hour.

Definition challengeTTL : Duration := 5 * Minute.

Definition proofLease : Duration := 7 * 24 * Hour.

Definition unprovenReservationTTL : Duration := 2 * Hour.

Definition defaultTombstoneTTL : Duration := 90 * 24 * Hour.

Definition firstPinSettleWindow : Duration := 2 * Minute.

(** ** Data. *)

Record Entry := mkEntry {
  Subdomain : string;
  IP : string;
  TokenHash : string;
  Token : string;
  CreatedAt : Time;
  LastSeen : Time;
  CertFingerprint : string;
  PendingFingerprint : string;
  PendingSince : Time;
  PrevFingerprint : string;
  PrevSince : Time;
  PinUpdatedAt : Time;
  FirstPinnedAt : Time;
  ProvenAt : Time;
  ProofExpiry : Time;
  ProofKeySPKI : string;
  ProofProtocol : string;
  ChallengeNonce : string;
  ChallengeExpiry : Time;
  FirstProvenAt : Time
}.

#[export] Instance Entry_eq_dec : EqDecision Entry.
Proof. solve_decision. Defined.

Record Registry := mkRegistry {
  entries : gmap string Entry;
  tokens : gmap string string;
  dirty : bool;
  InactivityTTL : Duration;
  TombstoneTTL : Duration;
  EnforceProof : bool
}.

(** The registry [New] returns; the proof regime is switched on at startup. *)
Definition New (enforce : bool) : Registry :=
  mkRegistry ∅ ∅ false (30 * 24 * Hour) defaultTombstoneTTL enforce.

Inductive Outcome := Created | Renewed | Moved | Unauthenticated.

(** The failures of [Register]. *)
Inductive RegisterError :=
| ErrSubdomainTaken (subdomain : string)
| ErrGeneratingToken.

(** ** Assignments to the fields of an entry and of the registry. *)

Definition set_LastSeen (t : Time) (e : Entry) : Entry :=
  mkEntry (Subdomain e) (IP e) (TokenHash e) (Token e) (CreatedAt e) t (CertFingerprint e) (PendingFingerprint e) (PendingSince e) (PrevFingerprint e) (PrevSince e) (PinUpdatedAt e) (FirstPinnedAt e) (ProvenAt e) (ProofExpiry e) (ProofKeySPKI e) (ProofProtocol e) (ChallengeNonce e) (ChallengeExpiry e) (FirstProvenAt e).

Definition set_IP (ip : string) (e : Entry) : Entry :=
  mkEntry (Subdomain e) ip (TokenHash e) (Token e) (CreatedAt e) (LastSeen e) (CertFingerprint e) (PendingFingerprint e) (PendingSince e) (PrevFingerprint e) (PrevSince e) (PinUpdatedAt e) (FirstPinnedAt e) (ProvenAt e) (ProofExpiry e) (ProofKeySPKI e) (ProofProtocol e) (ChallengeNonce e) (ChallengeExpiry e) (FirstProvenAt e).

Definition set_Pending (fp : string) (t : Time) (e : Entry) : Entry :=
  mkEntry (Subdomain e) (IP e) (TokenHash e) (Token e) (CreatedAt e) (LastSeen e) (CertFingerprint e) fp t (PrevFingerprint e) (PrevSince e) (PinUpdatedAt e) (FirstPinnedAt e) (ProvenAt e) (ProofExpiry e) (ProofKeySPKI e) (ProofProtocol e) (ChallengeNonce e) (ChallengeExpiry e) (FirstProvenAt e).

Definition set_Prev (fp : string) (t : Time) (e : Entry) : Entry :=
  mkEntry (Subdomain e) (IP e) (TokenHash e) (Token e) (CreatedAt e) (LastSeen e) (CertFingerprint e) (PendingFingerprint e) (PendingSince e) fp t (PinUpdatedAt e) (FirstPinnedAt e) (ProvenAt e) (ProofExpiry e) (ProofKeySPKI e) (ProofProtocol e) (ChallengeNonce e) (ChallengeExpiry e) (FirstProvenAt e).

Definition set_Cert (fp : string) (e : Entry) : Entry :=
  mkEntry (Subdomain e) (IP e) (TokenHash e) (Token e) (CreatedAt e) (LastSeen e) fp (PendingFingerprint e) (PendingSince e) (PrevFingerprint e) (PrevSince e) (PinUpdatedAt e) (FirstPinnedAt e) (ProvenAt e) (ProofExpiry e) (ProofKeySPKI e) (ProofProtocol e) (ChallengeNonce e) (ChallengeExpiry e) (FirstProvenAt e).

Definition set_PinUpdatedAt (t : Time) (e : Entry) : Entry :=
  mkEntry (Subdomain e) (IP e) (TokenHash e) (Token e) (CreatedAt e) (LastSeen e) (CertFingerprint e) (PendingFingerprint e) (PendingSince e) (PrevFingerprint e) (PrevSince e) t (FirstPinnedAt e) (ProvenAt e) (ProofExpiry e) (ProofKeySPKI e) (ProofProtocol e) (ChallengeNonce e) (ChallengeExpiry e) (FirstProvenAt e).

Definition set_FirstPinnedAt (t : Time) (e : Entry) : Entry :=
  mkEntry (Subdomain e) (IP e) (TokenHash e) (Token e) (CreatedAt e) (LastSeen e) (CertFingerprint e) (PendingFingerprint e) (PendingSince e) (PrevFingerprint e) (PrevSince e) (PinUpdatedAt e) t (ProvenAt e) (ProofExpiry e) (ProofKeySPKI e) (ProofProtocol e) (ChallengeNonce e) (ChallengeExpiry e) (FirstProvenAt e).

Definition set_Challenge (nonce : string) (t : Time) (e : Entry) : Entry :=
  mkEntry (Subdomain e) (IP e) (TokenHash e) (Token e) (CreatedAt e) (LastSeen e) (CertFingerprint e) (PendingFingerprint e) (PendingSince e) (PrevFingerprint e) (PrevSince e) (PinUpdatedAt e) (FirstPinnedAt e) (ProvenAt e) (ProofExpiry e) (ProofKeySPKI e) (ProofProtocol e) nonce t (FirstProvenAt e).

Definition set_Proof (at_ expiry : Time) (spki protocol : string) (e : Entry) : Entry :=
  mkEntry (Subdomain e) (IP e) (TokenHash e) (Token e) (CreatedAt e) (LastSeen e) (CertFingerprint e) (PendingFingerprint e) (PendingSince e) (PrevFingerprint e) (PrevSince e) (PinUpdatedAt e) (FirstPinnedAt e) at_ expiry spki protocol (ChallengeNonce e) (ChallengeExpiry e) (FirstProvenAt e).

Definition set_FirstProvenAt (t : Time) (e : Entry) : Entry :=
  mkEntry (Subdomain e) (IP e) (TokenHash e) (Token e) (CreatedAt e) (LastSeen e) (CertFingerprint e) (PendingFingerprint e) (PendingSince e) (PrevFingerprint e) (PrevSince e) (PinUpdatedAt e) (FirstPinnedAt e) (ProvenAt e) (ProofExpiry e) (ProofKeySPKI e) (ProofProtocol e) (ChallengeNonce e) (ChallengeExpiry e) t.

Definition set_TokenHash (h : string) (e : Entry) : Entry :=
  mkEntry (Subdomain e) (IP e) h (Token e) (CreatedAt e) (LastSeen e) (CertFingerprint e) (PendingFingerprint e) (PendingSince e) (PrevFingerprint e) (PrevSince e) (PinUpdatedAt e) (FirstPinnedAt e) (ProvenAt e) (ProofExpiry e) (ProofKeySPKI e) (ProofProtocol e) (ChallengeNonce e) (ChallengeExpiry e) (FirstProvenAt e).

Definition erase_Token (e : Entry) : Entry :=
  mkEntry (Subdomain e) (IP e) (TokenHash e) "" (CreatedAt e) (LastSeen e) (CertFingerprint e) (PendingFingerprint e) (PendingSince e) (PrevFingerprint e) (PrevSince e) (PinUpdatedAt e) (FirstPinnedAt e) (ProvenAt e) (ProofExpiry e) (ProofKeySPKI e) (ProofProtocol e) (ChallengeNonce e) (ChallengeExpiry e) (FirstProvenAt e).

Definition set_dirty (b : bool) (r : Registry) : Registry :=
  mkRegistry (entries r) (tokens r) b (InactivityTTL r) (TombstoneTTL r) (EnforceProof r).

Definition set_maps (es : gmap string Entry) (ts : gmap string string) (r : Registry) : Registry :=
  mkRegistry es ts (dirty r) (InactivityTTL r) (TombstoneTTL r) (EnforceProof r).

(** Writing through the pointer [r.entries[subdomain]]. *)
Definition put (subdomain : string) (e : Entry) (r : Registry) : Registry :=
  set_maps (<[subdomain := e]> (entries r)) (tokens r) r.

(** Removing a registration and the index entry of its token. *)
Definition drop_entry (subdomain hash : string) (r : Registry) : Registry :=
  set_maps (delete subdomain (entries r)) (delete hash (tokens r)) r.

(** ** Tokens and fingerprints. *)

Definition tokenHashPrefix : string := "sha256:".

Definition hashToken (token : string) : string := tokenHashPrefix +:+ sha256_hex token.

(** [subtle.ConstantTimeCompare(x, y) == 1]. *)
Definition ConstantTimeEq (x y : string) : bool := (x =? y)%string.

Definition tokenMatches (entry : Entry) (token : string) : bool :=
  negb (token =? "")%string && ConstantTimeEq (TokenHash entry) (hashToken token).

Definition nonceMatches (issued submitted : string) : bool :=
  negb (submitted =? "")%string &&
  (String.length issued =? String.length submitted)%nat && ConstantTimeEq issued submitted.

(** The pattern [^[0-9a-f]{64}$]. *)
Definition ValidFingerprint (fp : string) : bool :=
  (String.length fp =? 64)%nat && str_forall is_lower_hex fp.

Definition FingerprintsEqual (a b : string) : bool :=
  (String.length a =? String.length b)%nat && negb (a =? "")%string && ConstantTimeEq a b.

(** [generateToken] and [generateNonce] over the bytes the random source gave. *)
Definition generateToken (random : option (list Z)) : option string := hex_encode <$> random.

Definition generateNonce (random : option (list Z)) : option string := hex_encode <$> random.

(** ** Lapse and release. *)

(** The moment an entry stopped serving, when it has. *)
Definition lapsedAtLocked (r : Registry) (now : Time) (entry : Entry) : option Time :=
  let inactive := Add (LastSeen entry) (InactivityTTL r) in
  if After now inactive then Some inactive
  else if EnforceProof r && IsZero (FirstProvenAt entry) then
    let unproven := Add (CreatedAt entry) unprovenReservationTTL in
    if After now unproven then Some unproven else None
  else None.

Definition isExpiredLocked (r : Registry) (now : Time) (entry : Entry) : bool :=
  bool_decide (is_Some (lapsedAtLocked r now entry)).

Definition isReleasableLocked (r : Registry) (now : Time) (entry : Entry) : bool :=
  match lapsedAtLocked r now entry with
  | None => false
  | Some at_ =>
      if IsZero (FirstProvenAt entry) then true
      else TombstoneTTL r <? Sub now at_
  end.

Definition everProvenLocked (entry : Entry) : bool :=
  negb (IsZero (ProvenAt entry)) && negb (ProofKeySPKI entry =? "")%string.

(** ** Pin and proof state of an entry. *)

Definition clearPinLocked (now : Time) (entry : Entry) : Entry :=
  set_FirstPinnedAt zero_time
    (set_PinUpdatedAt now
       (set_Prev "" zero_time (set_Pending "" zero_time (set_Cert "" entry)))).

Definition clearProofLocked (entry : Entry) : Entry :=
  set_Challenge "" zero_time (set_Proof zero_time zero_time "" "" entry).

Definition activateLocked (now : Time) (fp : string) (entry : Entry) : Entry * bool :=
  if FingerprintsEqual (CertFingerprint entry) fp then (entry, false)
  else
    let displaced :=
      if (CertFingerprint entry =? "")%string then set_FirstPinnedAt now entry
      else if (ProofKeySPKI entry =? "")%string
              || FingerprintsEqual (CertFingerprint entry) (ProofKeySPKI entry)
      then set_Prev (CertFingerprint entry) now entry
      else set_Prev "" zero_time entry in
    (set_PinUpdatedAt now (set_Pending "" zero_time (set_Cert fp displaced)), true).

Definition leaseCurrentLocked (now : Time) (entry : Entry) : bool :=
  everProvenLocked entry && Before now (ProofExpiry entry).

Definition proofValidLocked (now : Time) (entry : Entry) : bool :=
  leaseCurrentLocked now entry &&
  ((CertFingerprint entry =? "")%string
   || FingerprintsEqual (CertFingerprint entry) (ProofKeySPKI entry)).

(** ** Registration. *)

Definition new_entry (now : Time) (subdomain ip token : string) : Entry :=
  mkEntry subdomain ip (hashToken token) token now now
    "" "" zero_time "" zero_time zero_time zero_time
    zero_time zero_time "" "" "" zero_time zero_time.

Definition Register (now : Time) (newToken : option string) (subdomain ip token : string)
    (r0 : Registry) : Registry * Outcome * result RegisterError Entry :=
  let r :=
    match entries r0 !! subdomain with
    | Some existing =>
        if isReleasableLocked r0 now existing
        then drop_entry subdomain (TokenHash existing) r0 else r0
    | None => r0
    end in
  match entries r !! subdomain with
  | Some existing =>
      let authorised := tokenMatches existing token in
      let reviving := isExpiredLocked r now existing in
      if negb authorised && (IP existing =? ip)%string then (r, Unauthenticated, Ok existing)
      else if negb authorised then (r, Unauthenticated, Err (ErrSubdomainTaken subdomain))
      else if (IP existing =? ip)%string then
        let kept := if reviving then clearProofLocked existing else existing in
        let renewed := set_LastSeen now kept in
        (set_dirty true (put subdomain renewed r), Renewed, Ok renewed)
      else
        let moved :=
          clearProofLocked (clearPinLocked now (set_LastSeen now (set_IP ip existing))) in
        (set_dirty true (put subdomain moved r), Moved, Ok moved)
  | None =>
      match newToken with
      | None => (r, Created, Err ErrGeneratingToken)
      | Some fresh =>
          let entry := new_entry now subdomain ip fresh in
          (set_dirty true
             (set_maps (<[subdomain := entry]> (entries r))
                (<[TokenHash entry := subdomain]> (tokens r)) r), Created, Ok entry)
      end
  end.

Definition Deregister (token : string) (r : Registry) : Registry * option string :=
  match tokens r !! hashToken token with
  | Some subdomain =>
      if (token =? "")%string then (r, None)
      else match entries r !! subdomain with
           | Some entry =>
               if tokenMatches entry token
               then (set_dirty true (drop_entry subdomain (hashToken token) r), Some subdomain)
               else (r, None)
           | None => (r, None)
           end
  | None => (r, None)
  end.

Definition HeldBy (subdomain token : string) (r : Registry) : bool :=
  match entries r !! subdomain with
  | Some entry => tokenMatches entry token
  | None => false
  end.

Definition Lookup (now : Time) (subdomain : string) (r : Registry) : option Entry :=
  match entries r !! subdomain with
  | Some entry => if isExpiredLocked r now entry then None else Some entry
  | None => None
  end.

Inductive PingError := PingInvalidToken | PingNotFound | PingLapsed (subdomain : string).

Definition Ping (now : Time) (token : string) (r : Registry) : Registry * result PingError unit :=
  match tokens r !! hashToken token with
  | Some subdomain =>
      if (token =? "")%string then (r, Err PingInvalidToken)
      else match entries r !! subdomain with
           | None => (r, Err PingNotFound)
           | Some entry =>
               if negb (tokenMatches entry token) then (r, Err PingInvalidToken)
               else if isExpiredLocked r now entry then (r, Err (PingLapsed subdomain))
               else (set_dirty true (put subdomain (set_LastSeen now entry) r), Ok tt)
           end
  | None => (r, Err PingInvalidToken)
  end.

(** The body of the loop of [Cleanup] for one entry: [None] when it is removed,
    otherwise the entry and whether it changed. *)
Definition cleanup_entry (r : Registry) (now : Time) (entry : Entry) : option (Entry * bool) :=
  if isReleasableLocked r now entry then None
  else
    let dropPending :=
      negb (PendingFingerprint entry =? "")%string
      && (pendingPinTTL <? Sub now (PendingSince entry)) in
    let e1 := if dropPending then set_Pending "" zero_time entry else entry in
    let dropPrev :=
      negb (PrevFingerprint e1 =? "")%string && (prevPinTTL <? Sub now (PrevSince e1)) in
    let e2 := if dropPrev then set_Prev "" zero_time e1 else e1 in
    Some (e2, dropPending || dropPrev).

Definition cleanup_step (now : Time) (acc : Registry * list string) (kv : string * Entry) :
    Registry * list string :=
  let '(r, removed) := acc in
  let '(subdomain, entry) := kv in
  match cleanup_entry r now entry with
  | None => (drop_entry subdomain (TokenHash entry) r, removed ++ [subdomain])
  | Some (entry', changed) =>
      (set_dirty (dirty r || changed) (put subdomain entry' r), removed)
  end.

(** [Cleanup] visits every entry once, in the order of the map's iteration. *)
Definition Cleanup (now : Time) (r : Registry) : Registry * list string :=
  foldl (cleanup_step now) (r, []) (map_to_list (entries r)).

(** The registrations that are serving. *)
Definition live (now : Time) (r : Registry) : gmap string Entry :=
  filter (fun kv => isExpiredLocked r now kv.2 = false) (entries r).

Definition Count (now : Time) (r : Registry) : nat :=
  foldl (fun n kv => if isExpiredLocked r now (kv.2 : Entry) then n else S n) 0%nat
    (map_to_list (entries r)).

(** ** Certificate pins. *)

Record PinStateT := mkPinState {
  Current : string;
  Pending : string;
  Prev : string;
  PSFirstPinnedAt : Time
}.

Definition InFirstPinSettle (now : Time) (s : PinStateT) : bool :=
  negb (IsZero (PSFirstPinnedAt s)) && (Sub now (PSFirstPinnedAt s) <? firstPinSettleWindow).

Definition Pinned (s : PinStateT) : bool := negb (Current s =? "")%string.

Definition PinState (now : Time) (subdomain : string) (r : Registry) : PinStateT :=
  match entries r !! subdomain with
  | None => mkPinState "" "" "" zero_time
  | Some entry =>
      mkPinState (CertFingerprint entry)
        (if negb (PendingFingerprint entry =? "")%string
            && (Sub now (PendingSince entry) <=? pendingPinTTL)
         then PendingFingerprint entry else "")
        (if negb (PrevFingerprint entry =? "")%string
            && (Sub now (PrevSince entry) <=? prevPinTTL)
         then PrevFingerprint entry else "")
        (FirstPinnedAt entry)
  end.

Inductive AssertResult := AssertInvalidToken | AssertActive | AssertNeedsDial.

Definition AssertPin (subdomain token fp : string) (r : Registry) : Registry * AssertResult :=
  match entries r !! subdomain with
  | None => (r, AssertInvalidToken)
  | Some entry =>
      if negb (tokenMatches entry token) then (r, AssertInvalidToken)
      else if FingerprintsEqual (CertFingerprint entry) fp then
        if negb (PendingFingerprint entry =? "")%string
           || negb (PrevFingerprint entry =? "")%string
        then (set_dirty true
                (put subdomain (set_Prev "" zero_time (set_Pending "" zero_time entry)) r),
              AssertActive)
        else (r, AssertActive)
      else (r, AssertNeedsDial)
  end.

(** [activateLocked] on the registry: the entry is written back and a change
    marks the registry dirty. *)
Definition activate (now : Time) (subdomain fp : string) (entry : Entry) (r : Registry) : Registry :=
  let '(entry', changed) := activateLocked now fp entry in
  set_dirty (dirty r || changed) (put subdomain entry' r).

Definition ActivatePin (now : Time) (subdomain token fp : string) (r : Registry) :
    Registry * bool :=
  match entries r !! subdomain with
  | None => (r, false)
  | Some entry =>
      if negb (tokenMatches entry token) then (r, false)
      else (activate now subdomain fp entry r, true)
  end.

Definition StorePendingPin (now : Time) (subdomain token fp : string) (r : Registry) :
    Registry * bool :=
  match entries r !! subdomain with
  | None => (r, false)
  | Some entry =>
      if negb (tokenMatches entry token) then (r, false)
      else (set_dirty true
              (put subdomain (set_PinUpdatedAt now (set_Pending fp now entry)) r), true)
  end.

Definition PromoteOnObserve (now : Time) (subdomain observed : string) (r : Registry) :
    Registry * bool :=
  match entries r !! subdomain with
  | None => (r, false)
  | Some entry =>
      if negb (FingerprintsEqual (PendingFingerprint entry) observed) then (r, false)
      else if pendingPinTTL <? Sub now (PendingSince entry) then (r, false)
      else (activate now subdomain observed entry r, true)
  end.

(** The loop shared by the two summaries: entries that [skip] leaves in are
    counted, with the age of the oldest. *)
Definition summarise (now : Time) (skip : Entry -> bool) (r : Registry) : nat * Duration :=
  foldl (fun acc kv =>
           let '(count, oldest) := (acc : nat * Duration) in
           let entry : Entry := kv.2 in
           if skip entry then (count, oldest)
           else (S count, Z.max oldest (Sub now (CreatedAt entry))))
    (0%nat, 0) (map_to_list (entries r)).

Definition UnpinnedSummary (now : Time) (r : Registry) : nat * Duration :=
  summarise now
    (fun entry => isExpiredLocked r now entry || negb (CertFingerprint entry =? "")%string) r.

(** ** Proof of possession. *)

(** [IssueChallenge]: the nonce, whether the token was accepted, and whether
    minting failed. *)
Inductive ChallengeResult :=
| ChallengeRefused
| ChallengeNonceOf (nonce : string)
| ErrChallengeUnavailable.

Definition IssueChallenge (now : Time) (newNonce : option string) (subdomain token : string)
    (r : Registry) : Registry * ChallengeResult :=
  match entries r !! subdomain with
  | None => (r, ChallengeRefused)
  | Some entry =>
      if negb (tokenMatches entry token) then (r, ChallengeRefused)
      else if isExpiredLocked r now entry then (r, ChallengeRefused)
      else if negb (ChallengeNonce entry =? "")%string && Before now (ChallengeExpiry entry)
      then (r, ChallengeNonceOf (ChallengeNonce entry))
      else match newNonce with
           | None => (r, ErrChallengeUnavailable)
           | Some nonce =>
               (set_dirty true
                  (put subdomain (set_Challenge nonce (Add now challengeTTL) entry) r),
                ChallengeNonceOf nonce)
           end
  end.

Definition ChallengeMatches (now : Time) (subdomain token nonce : string) (r : Registry) : bool :=
  match entries r !! subdomain with
  | None => false
  | Some entry =>
      if negb (tokenMatches entry token) then false
      else if (ChallengeNonce entry =? "")%string || After now (ChallengeExpiry entry) then false
      else nonceMatches (ChallengeNonce entry) nonce
  end.

Definition RecordProof (now : Time) (subdomain token nonce spki protocol : string)
    (r : Registry) : Registry * bool :=
  match entries r !! subdomain with
  | None => (r, false)
  | Some entry =>
      if negb (tokenMatches entry token) then (r, false)
      else if isExpiredLocked r now entry then (r, false)
      else if (ChallengeNonce entry =? "")%string
              || negb (nonceMatches (ChallengeNonce entry) nonce) then (r, false)
      else if After now (ChallengeExpiry entry) then (r, false)
      else
        let first :=
          if IsZero (FirstProvenAt entry) then set_FirstProvenAt now entry else entry in
        let proven :=
          set_Challenge "" zero_time
            (set_Proof now (Add now proofLease) spki protocol first) in
        (set_dirty true (put subdomain proven r), true)
  end.

Definition Challenge (now : Time) (subdomain : string) (r : Registry) : string :=
  match entries r !! subdomain with
  | None => ""
  | Some entry =>
      if (ChallengeNonce entry =? "")%string || After now (ChallengeExpiry entry) then ""
      else ChallengeNonce entry
  end.

Definition Routable (now : Time) (subdomain : string) (r : Registry) : bool :=
  match entries r !! subdomain with
  | None => false
  | Some entry =>
      if isExpiredLocked r now entry then false else proofValidLocked now entry
  end.

Definition ProofAuthorizes (now : Time) (subdomain observed : string) (r : Registry) : bool :=
  match entries r !! subdomain with
  | None => false
  | Some entry =>
      if isExpiredLocked r now entry then false
      else if negb (leaseCurrentLocked now entry) then false
      else FingerprintsEqual (ProofKeySPKI entry) observed
  end.

Definition ProvenKey (now : Time) (subdomain : string) (r : Registry) : string :=
  match entries r !! subdomain with
  | None => ""
  | Some entry => if leaseCurrentLocked now entry then ProofKeySPKI entry else ""
  end.

Definition UnprovenSummary (now : Time) (r : Registry) : nat * Duration :=
  summarise now (fun entry => isExpiredLocked r now entry || proofValidLocked now entry) r.

Definition NewestProofAge (now : Time) (r : Registry) : option Duration :=
  let newest :=
    foldl (fun newest kv =>
             let entry : Entry := kv.2 in
             if isExpiredLocked r now entry then newest
             else if After (ProvenAt entry) newest then ProvenAt entry else newest)
      zero_time (map_to_list (entries r)) in
  if IsZero newest then None else Some (Sub now newest).

Definition ProofOverdue (now : Time) (window : Duration) (r : Registry) : nat :=
  let cutoff := Add now (- window) in
  foldl (fun n kv =>
           let entry : Entry := kv.2 in
           if isExpiredLocked r now entry || negb (After (LastSeen entry) cutoff) then n
           else if negb (proofValidLocked now entry) || negb (After (ProvenAt entry) cutoff)
           then S n else n)
    0%nat (map_to_list (entries r)).

(** ** The registry as a transition system. *)

Inductive op :=
| OpRegister (newToken : option string) (subdomain ip token : string)
| OpDeregister (token : string)
| OpPing (token : string)
| OpCleanup
| OpAssertPin (subdomain token fp : string)
| OpActivatePin (subdomain token fp : string)
| OpStorePendingPin (subdomain token fp : string)
| OpPromoteOnObserve (subdomain observed : string)
| OpIssueChallenge (newNonce : option string) (subdomain token : string)
| OpRecordProof (subdomain token nonce spki protocol : string).

Definition step (now : Time) (o : op) (r : Registry) : Registry :=
  match o with
  | OpRegister fresh s ip token => (Register now fresh s ip token r).1.1
  | OpDeregister token => (Deregister token r).1
  | OpPing token => (Ping now token r).1
  | OpCleanup => (Cleanup now r).1
  | OpAssertPin s token fp => (AssertPin s token fp r).1
  | OpActivatePin s token fp => (ActivatePin now s token fp r).1
  | OpStorePendingPin s token fp => (StorePendingPin now s token fp r).1
  | OpPromoteOnObserve s observed => (PromoteOnObserve now s observed r).1
  | OpIssueChallenge fresh s token => (IssueChallenge now fresh s token r).1
  | OpRecordProof s token nonce spki protocol =>
      (RecordProof now s token nonce spki protocol r).1
  end.

(** A history is the list of the critical sections with their clock readings. *)
Definition run (r : Registry) (history : list (Time * op)) : Registry :=
  foldl (fun r ev => step ev.1 ev.2 r) r history.
