(* ===== verification/RegistryFacts.v ===== *)
(** * Theorems about the gateway registry.

    The evolution of one entry under one critical section is described once, by
    [entry_change] and [step_lookup]; the invariants and the history theorems are
    rule inductions over it. *)

From Stdlib Require Import Ascii.
From stdpp Require Import base tactics numbers list option strings gmap.
From S2P Require Import Prelude GoStd Sha256 Registry.


(** ** Specifications. *)

(** The index of tokens and the map of entries describe the same registrations,
    and the history of an entry's proof is recorded in it. *)
Record registry_wf (r : Registry) : Prop := {
  wf_token : forall h s, tokens r !! h = Some s ->
    exists e, entries r !! s = Some e /\ TokenHash e = h;
  wf_entry : forall s e, entries r !! s = Some e ->
    Subdomain e = s /\ tokens r !! TokenHash e = Some s;
  wf_hashed : forall s e, entries r !! s = Some e ->
    HasPrefix (TokenHash e) tokenHashPrefix = true;
  wf_proven : forall s e, entries r !! s = Some e ->
    IsZero (FirstProvenAt e) = true -> everProvenLocked e = false
}.

(** The random source never repeats a token that is still in use. *)
Definition fresh_token (o : op) (r : Registry) : Prop :=
  match o with
  | OpRegister (Some fresh) _ _ _ => tokens r !! hashToken fresh = None
  | _ => True
  end.

(** The states a gateway reaches, with clock readings after the zero time. *)
Inductive reachable (enforce : bool) : Registry -> Prop :=
| reach_new : reachable enforce (New enforce)
| reach_step (now : Time) (o : op) (r : Registry) :
    reachable enforce r -> fresh_token o r -> 0 < now ->
    reachable enforce (step now o r).

(** How one critical section changes the entry of the label [s]. *)
Inductive entry_change (r : Registry) (now : Time) (s : string) : op -> Entry -> Entry -> Prop :=
| ec_same o e : entry_change r now s o e e
| ec_renew fresh token e :
    tokenMatches e token = true ->
    entry_change r now s (OpRegister fresh s (IP e) token) e (set_LastSeen now e)
| ec_revive fresh token e :
    tokenMatches e token = true -> isExpiredLocked r now e = true ->
    entry_change r now s (OpRegister fresh s (IP e) token) e
      (set_LastSeen now (clearProofLocked e))
| ec_move fresh ip token e :
    tokenMatches e token = true ->
    entry_change r now s (OpRegister fresh s ip token) e
      (clearProofLocked (clearPinLocked now (set_LastSeen now (set_IP ip e))))
| ec_ping token e :
    tokenMatches e token = true ->
    entry_change r now s (OpPing token) e (set_LastSeen now e)
| ec_cleanup e e' b :
    cleanup_entry r now e = Some (e', b) -> entry_change r now s OpCleanup e e'
| ec_assert token fp e :
    tokenMatches e token = true ->
    entry_change r now s (OpAssertPin s token fp) e
      (set_Prev "" zero_time (set_Pending "" zero_time e))
| ec_activate token fp e :
    tokenMatches e token = true ->
    entry_change r now s (OpActivatePin s token fp) e (activateLocked now fp e).1
| ec_store token fp e :
    tokenMatches e token = true ->
    entry_change r now s (OpStorePendingPin s token fp) e
      (set_PinUpdatedAt now (set_Pending fp now e))
| ec_promote observed e :
    PendingFingerprint e = observed -> observed <> "" ->
    entry_change r now s (OpPromoteOnObserve s observed) e (activateLocked now observed e).1
| ec_issue nonce token e :
    tokenMatches e token = true -> isExpiredLocked r now e = false ->
    entry_change r now s (OpIssueChallenge (Some nonce) s token) e
      (set_Challenge nonce (Add now challengeTTL) e)
| ec_record token nonce spki protocol e :
    tokenMatches e token = true ->
    (RecordProof now s token nonce spki protocol r).2 = true ->
    entry_change r now s (OpRecordProof s token nonce spki protocol) e
      (set_Challenge "" zero_time
         (set_Proof now (Add now proofLease) spki protocol
            (if IsZero (FirstProvenAt e) then set_FirstProvenAt now e else e))).

(** Whether a critical section presents a token of this entry. *)
Definition presents_token (o : op) (e : Entry) : bool :=
  match o with
  | OpRegister _ _ _ token | OpDeregister token | OpPing token
  | OpAssertPin _ token _ | OpActivatePin _ token _ | OpStorePendingPin _ token _
  | OpIssueChallenge _ _ token | OpRecordProof _ token _ _ _ => tokenMatches e token
  | OpCleanup | OpPromoteOnObserve _ _ => false
  end.

(** The parts of an entry that decide who holds the label, where it routes to
    and whether it may be routed. *)
Definition same_holder (e e' : Entry) : Prop :=
  TokenHash e' = TokenHash e /\ IP e' = IP e /\ LastSeen e' = LastSeen e /\
  CreatedAt e' = CreatedAt e /\ FirstProvenAt e' = FirstProvenAt e /\
  ProvenAt e' = ProvenAt e /\ ProofExpiry e' = ProofExpiry e /\
  ProofKeySPKI e' = ProofKeySPKI e /\ ChallengeNonce e' = ChallengeNonce e /\
  ChallengeExpiry e' = ChallengeExpiry e.

Definition same_config (r r' : Registry) : Prop :=
  InactivityTTL r' = InactivityTTL r /\ TombstoneTTL r' = TombstoneTTL r /\
  EnforceProof r' = EnforceProof r.

(** ** Tokens and fingerprints. *)

Lemma tokenMatches_spec (e : Entry) (token : string) :
  tokenMatches e token = true <-> token <> "" /\ TokenHash e = hashToken token.
Proof.
  unfold tokenMatches, ConstantTimeEq.
  rewrite andb_true_iff, negb_true_iff, String.eqb_neq, String.eqb_eq. done.
Qed.

Lemma FingerprintsEqual_spec (a b : string) :
  FingerprintsEqual a b = true <-> a <> "" /\ a = b.
Proof.
  unfold FingerprintsEqual, ConstantTimeEq.
  rewrite !andb_true_iff, negb_true_iff, String.eqb_neq, String.eqb_eq, Nat.eqb_eq.
  split; [tauto|]. intros [Ha ->]. done.
Qed.

Lemma nonceMatches_spec (issued submitted : string) :
  nonceMatches issued submitted = true <-> submitted <> "" /\ issued = submitted.
Proof.
  unfold nonceMatches, ConstantTimeEq.
  rewrite !andb_true_iff, negb_true_iff, String.eqb_neq, String.eqb_eq, Nat.eqb_eq.
  split; [tauto|]. intros [Ha ->]. done.
Qed.

Lemma hashToken_prefix (token : string) : HasPrefix (hashToken token) tokenHashPrefix = true.
Proof. apply HasPrefix_spec. by exists (sha256_hex token). Qed.

Ltac reg_bool :=
  bool_to_prop;
  repeat match goal with
  | H : tokenMatches _ _ = true |- _ => apply tokenMatches_spec in H as [? ?]
  | H : FingerprintsEqual _ _ = true |- _ => apply FingerprintsEqual_spec in H as [? ?]
  | H : nonceMatches _ _ = true |- _ => apply nonceMatches_spec in H as [? ?]
  end.

(** ** The configuration never changes. *)

Lemma same_config_refl (r : Registry) : same_config r r.
Proof. done. Qed.

Lemma same_config_trans (r1 r2 r3 : Registry) :
  same_config r1 r2 -> same_config r2 r3 -> same_config r1 r3.
Proof. unfold same_config. intuition congruence. Qed.

Lemma lapsedAt_config (r r' : Registry) (now : Time) (e : Entry) :
  same_config r r' -> lapsedAtLocked r' now e = lapsedAtLocked r now e.
Proof. intros (H1 & H2 & H3). unfold lapsedAtLocked. by rewrite H1, H3. Qed.

Lemma isExpired_config (r r' : Registry) (now : Time) (e : Entry) :
  same_config r r' -> isExpiredLocked r' now e = isExpiredLocked r now e.
Proof. intros H. unfold isExpiredLocked. by rewrite (lapsedAt_config r r'). Qed.

Lemma isReleasable_config (r r' : Registry) (now : Time) (e : Entry) :
  same_config r r' -> isReleasableLocked r' now e = isReleasableLocked r now e.
Proof.
  intros H. unfold isReleasableLocked. rewrite (lapsedAt_config r r') by done.
  destruct H as (_ & -> & _). done.
Qed.

Lemma cleanup_entry_config (r r' : Registry) (now : Time) (e : Entry) :
  same_config r r' -> cleanup_entry r' now e = cleanup_entry r now e.
Proof. intros H. unfold cleanup_entry. by rewrite (isReleasable_config r r'). Qed.

Lemma cleanup_step_config (now : Time) (r : Registry) (rm : list string) (kv : string * Entry) :
  same_config r (cleanup_step now (r, rm) kv).1.
Proof. destruct kv as [k e]. simpl. by destruct (cleanup_entry r now e) as [[e' b]|]. Qed.

(** ** [Cleanup]. *)

Section CleanupLoop.
Context (now : Time).

Lemma cleanup_fold_config (l : list (string * Entry)) (r : Registry) (rm : list string) :
  same_config r (foldl (cleanup_step now) (r, rm) l).1.
Proof.
  revert r rm. induction l as [|kv l IH]; intros r rm; [done|].
  pose proof (cleanup_step_config now r rm kv) as H.
  cbn [foldl]. destruct (cleanup_step now (r, rm) kv) as [r' rm'].
  eapply same_config_trans; [exact H|apply IH].
Qed.

(** The loop treats every key of the list once and leaves the others alone. *)
Lemma cleanup_fold_lookup (l : list (string * Entry)) (r : Registry) (rm : list string) (s : string) :
  NoDup l.*1 ->
  entries (foldl (cleanup_step now) (r, rm) l).1 !! s =
    match (list_to_map l : gmap string Entry) !! s with
    | Some e => fst <$> cleanup_entry r now e
    | None => entries r !! s
    end.
Proof.
  revert r rm. induction l as [|[k e] l IH]; intros r rm Hnd; [done|].
  apply NoDup_cons in Hnd as [Hk Hnd].
  pose proof (cleanup_step_config now r rm (k, e)) as Hcfg.
  cbn [foldl list_to_map foldr uncurry]. simpl.
  destruct (cleanup_step now (r, rm) (k, e)) as [r' rm'] eqn:Hstep.
  simpl in Hstep. rewrite Hstep. rewrite IH by done.
  assert (Hent : entries r' = match cleanup_entry r now e with
      | None => delete k (entries r) | Some (e', _) => <[k:=e']> (entries r) end).
  { destruct (cleanup_entry r now e) as [[e' b]|]; simplify_eq; done. }
  destruct (decide (s = k)) as [->|Hne].
  - rewrite lookup_insert_eq, (not_elem_of_list_to_map_1 _ _ Hk), Hent.
    destruct (cleanup_entry r now e) as [[e' b]|]; simpl;
      [by rewrite lookup_insert_eq|by rewrite lookup_delete_eq].
  - rewrite lookup_insert_ne by done.
    destruct (list_to_map l !! s); [by rewrite (cleanup_entry_config r r')|].
    rewrite Hent. destruct (cleanup_entry r now e) as [[e' b]|];
      [by rewrite lookup_insert_ne|by rewrite lookup_delete_ne].
Qed.

Lemma Cleanup_lookup (r : Registry) (s : string) :
  entries (Cleanup now r).1 !! s =
    match entries r !! s with
    | Some e => fst <$> cleanup_entry r now e
    | None => None
    end.
Proof.
  unfold Cleanup. rewrite cleanup_fold_lookup by apply NoDup_fst_map_to_list.
  rewrite list_to_map_to_list. by destruct (entries r !! s).
Qed.

(** A property that every iteration keeps holds after the loop, when each
    iteration still finds its entry in the map. *)
Lemma cleanup_fold_ind (P : Registry -> Prop) :
  (forall r k e e' b, P r -> entries r !! k = Some e -> cleanup_entry r now e = Some (e', b) ->
     P (set_dirty (dirty r || b) (put k e' r))) ->
  (forall r k e, P r -> entries r !! k = Some e -> cleanup_entry r now e = None ->
     P (drop_entry k (TokenHash e) r)) ->
  forall l r rm,
  NoDup l.*1 -> (forall k e, (k, e) ∈ l -> entries r !! k = Some e) ->
  P r -> P (foldl (cleanup_step now) (r, rm) l).1.
Proof.
  intros Hkeep Hdrop l. induction l as [|[k e] l IH]; intros r rm Hnd Hl HP; [done|].
  apply NoDup_cons in Hnd as [Hk Hnd]. cbn [foldl]. simpl.
  assert (He : entries r !! k = Some e) by (apply Hl; left).
  assert (Hother : forall k' e', (k', e') ∈ l -> k' <> k).
  { intros k' e' Hin ->. apply Hk. apply list_elem_of_fmap. by exists (k, e'). }
  destruct (cleanup_entry r now e) as [[e' b]|] eqn:Hc; apply IH; try done; try by eauto.
  - intros k' e1 Hin. simpl. rewrite lookup_insert_ne by (apply not_eq_sym; eauto).
    apply Hl. by right.
  - intros k' e1 Hin. simpl. rewrite lookup_delete_ne by (apply not_eq_sym; eauto).
    apply Hl. by right.
Qed.

Lemma Cleanup_ind (P : Registry -> Prop) :
  (forall r k e e' b, P r -> entries r !! k = Some e -> cleanup_entry r now e = Some (e', b) ->
     P (set_dirty (dirty r || b) (put k e' r))) ->
  (forall r k e, P r -> entries r !! k = Some e -> cleanup_entry r now e = None ->
     P (drop_entry k (TokenHash e) r)) ->
  forall r, P r -> P (Cleanup now r).1.
Proof.
  intros Hkeep Hdrop r HP. unfold Cleanup. apply (cleanup_fold_ind P); try done.
  - apply NoDup_fst_map_to_list.
  - intros k e Hin. by apply elem_of_map_to_list.
Qed.
End CleanupLoop.

(** ** One critical section. *)

Lemma step_config (r : Registry) (now : Time) (o : op) : same_config r (step now o r).
Proof.
  destruct o; simpl.
  - unfold Register. by repeat (case_match; simplify_eq/=).
  - unfold Deregister. by repeat (case_match; simplify_eq/=).
  - unfold Ping. by repeat (case_match; simplify_eq/=).
  - apply cleanup_fold_config.
  - unfold AssertPin. by repeat (case_match; simplify_eq/=).
  - unfold ActivatePin, activate. by repeat (case_match; simplify_eq/=).
  - unfold StorePendingPin. by repeat (case_match; simplify_eq/=).
  - unfold PromoteOnObserve, activate. by repeat (case_match; simplify_eq/=).
  - unfold IssueChallenge. by repeat (case_match; simplify_eq/=).
  - unfold RecordProof. by repeat (case_match; simplify_eq/=).
Qed.

Lemma lookup_put (k s : string) (e : Entry) (r : Registry) (b : bool) :
  entries (set_dirty b (put k e r)) !! s =
    if decide (k = s) then Some e else entries r !! s.
Proof. simpl. by rewrite lookup_insert. Qed.

Lemma lookup_drop (k s h : string) (r : Registry) :
  entries (drop_entry k h r) !! s = if decide (k = s) then None else entries r !! s.
Proof. simpl. by rewrite lookup_delete. Qed.

(** [Register] either works on the entry that holds the label, or on a free
    label. *)
Lemma Register_held (now : Time) (fresh : option string) (s ip token : string)
    (r : Registry) (e : Entry) :
  entries r !! s = Some e -> isReleasableLocked r now e = false ->
  Register now fresh s ip token r =
    (if negb (tokenMatches e token) && (IP e =? ip)%string then (r, Unauthenticated, Ok e)
     else if negb (tokenMatches e token) then (r, Unauthenticated, Err (ErrSubdomainTaken s))
     else if (IP e =? ip)%string then
       let renewed :=
         set_LastSeen now (if isExpiredLocked r now e then clearProofLocked e else e) in
       (set_dirty true (put s renewed r), Renewed, Ok renewed)
     else
       let moved := clearProofLocked (clearPinLocked now (set_LastSeen now (set_IP ip e))) in
       (set_dirty true (put s moved r), Moved, Ok moved)).
Proof. intros He Hr. unfold Register. by rewrite He, Hr, He. Qed.

(** The registry after a spent tombstone has been dropped. *)
Definition without_spent (now : Time) (s : string) (r : Registry) : Registry :=
  match entries r !! s with
  | Some e => if isReleasableLocked r now e then drop_entry s (TokenHash e) r else r
  | None => r
  end.

Lemma Register_free (now : Time) (fresh : option string) (s ip token : string) (r : Registry) :
  (forall e, entries r !! s = Some e -> isReleasableLocked r now e = true) ->
  Register now fresh s ip token r =
    match fresh with
    | None => (without_spent now s r, Created, Err ErrGeneratingToken)
    | Some t =>
        (set_dirty true
           (set_maps (<[s := new_entry now s ip t]> (entries (without_spent now s r)))
              (<[hashToken t := s]> (tokens (without_spent now s r))) (without_spent now s r)),
         Created, Ok (new_entry now s ip t))
    end.
Proof.
  intros Hr. unfold Register, without_spent.
  destruct (entries r !! s) as [e|] eqn:He.
  - rewrite (Hr e eq_refl). rewrite lookup_drop, decide_True by done. by destruct fresh.
  - rewrite He. by destruct fresh.
Qed.

(** Whether the label is held by an entry whose tombstone is not spent. *)
Lemma Register_cases (now : Time) (s : string) (r : Registry) :
  (exists e, entries r !! s = Some e /\ isReleasableLocked r now e = false) \/
  (forall e, entries r !! s = Some e -> isReleasableLocked r now e = true).
Proof.
  destruct (entries r !! s) as [e|] eqn:He; [|right; congruence].
  destruct (isReleasableLocked r now e) eqn:Hr; [right; congruence|left; eauto].
Qed.

Lemma without_spent_lookup (now : Time) (s : string) (r : Registry) (k : string) :
  (forall e, entries r !! s = Some e -> isReleasableLocked r now e = true) ->
  entries (without_spent now s r) !! k = if decide (s = k) then None else entries r !! k.
Proof.
  intros Hr. unfold without_spent. destruct (entries r !! s) as [e|] eqn:He.
  - rewrite (Hr e eq_refl). apply lookup_drop.
  - by case_decide; subst.
Qed.

(** The entry after a proof has been recorded. *)
Definition proven_entry (now : Time) (spki protocol : string) (e : Entry) : Entry :=
  set_Challenge "" zero_time
    (set_Proof now (Add now proofLease) spki protocol
       (if IsZero (FirstProvenAt e) then set_FirstProvenAt now e else e)).

Lemma RecordProof_accepted (now : Time) (s token nonce spki protocol : string) (r : Registry) :
  (RecordProof now s token nonce spki protocol r).2 = true <->
  exists e, entries r !! s = Some e /\ tokenMatches e token = true /\
    isExpiredLocked r now e = false /\ ChallengeNonce e <> "" /\ ChallengeNonce e = nonce /\
    now <= ChallengeExpiry e.
Proof.
  unfold RecordProof. split.
  - repeat case_match; simpl; try discriminate; intros _; eexists; (split; [done|]);
      unfold After in *; reg_bool; split_and!; auto; by apply tokenMatches_spec.
  - intros (e & -> & -> & -> & Hne & <- & Hle). simpl.
    assert (Hn : nonceMatches (ChallengeNonce e) (ChallengeNonce e) = true)
      by (by apply nonceMatches_spec).
    apply String.eqb_neq in Hne. rewrite Hne, Hn. simpl.
    unfold After. destruct (Z.ltb_spec (ChallengeExpiry e) now); [lia|done].
Qed.

Lemma RecordProof_state (now : Time) (s token nonce spki protocol : string) (r : Registry) :
  (RecordProof now s token nonce spki protocol r).1 =
    if (RecordProof now s token nonce spki protocol r).2
    then match entries r !! s with
         | Some e => set_dirty true (put s (proven_entry now spki protocol e) r)
         | None => r
         end
    else r.
Proof. unfold RecordProof, proven_entry. by repeat case_match; simplify_eq/=. Qed.

#[local] Hint Constructors entry_change : core.

(** Where the entry of a label comes from after one critical section. *)
Lemma step_origin (r : Registry) (now : Time) (o : op) (s : string) (e' : Entry) :
  entries (step now o r) !! s = Some e' ->
  (exists e, entries r !! s = Some e /\ entry_change r now s o e e') \/
  (exists fresh ip token, o = OpRegister (Some fresh) s ip token /\ e' = new_entry now s ip fresh).
Proof.
  destruct o as [fresh k ip token|token|token| |k token fp|k token fp|k token fp|k observed
                |fresh k token|k token nonce spki protocol]; simpl.
  - destruct (Register_cases now k r) as [(e & He & Hr)|Hr].
    + rewrite (Register_held _ _ _ _ _ _ _ He Hr).
      destruct (tokenMatches e token) eqn:Ht; simpl; [|by destruct (IP e =? ip)%string; eauto].
      destruct (IP e =? ip)%string eqn:Hip; simpl; rewrite lookup_insert; case_decide; subst;
        intros; simplify_eq; bool_to_prop; subst; eauto 6.
      destruct (isExpiredLocked r now e) eqn:Hx; eauto 6.
    + rewrite (Register_free _ _ _ _ _ _ Hr).
      assert (Hle : entries (without_spent now k r) !! s = Some e' -> entries r !! s = Some e').
      { rewrite (without_spent_lookup _ _ _ _ Hr). by case_decide. }
      destruct fresh as [t|]; simpl; [|by eauto].
      rewrite lookup_insert. case_decide; subst; intros; simplify_eq; eauto 7.
  - unfold Deregister. repeat (case_match; simpl); try by eauto.
    rewrite lookup_delete. case_decide; [done|eauto].
  - unfold Ping. repeat (case_match; simpl); try by eauto.
    rewrite lookup_insert. case_decide; subst; intros; simplify_eq; bool_to_prop; eauto.
  - rewrite Cleanup_lookup. destruct (entries r !! s) as [e|]; [|done].
    intros H. apply fmap_Some in H as ([e1 b] & H & ->). eauto.
  - unfold AssertPin. repeat (case_match; simpl); try by eauto.
    rewrite lookup_insert. case_decide; subst; intros; simplify_eq; bool_to_prop; eauto.
  - unfold ActivatePin, activate. repeat (case_match; simpl); try by eauto.
    rewrite lookup_insert. case_decide; subst; intros; simplify_eq; bool_to_prop; [|by eauto].
    left. eexists. split; [done|].
    match goal with H : activateLocked _ _ _ = (?a, _) |- _ =>
      replace a with (activateLocked now fp e).1 by (by rewrite H) end. eauto.
  - unfold StorePendingPin. repeat (case_match; simpl); try by eauto.
    rewrite lookup_insert. case_decide; subst; intros; simplify_eq; bool_to_prop; eauto.
  - unfold PromoteOnObserve, activate. repeat (case_match; simpl); try by eauto.
    rewrite lookup_insert. case_decide; subst; intros; simplify_eq; [|by eauto].
    left. eexists. split; [done|].
    match goal with H : activateLocked _ _ ?x = (?a, _) |- _ =>
      replace a with (activateLocked now observed x).1 by (by rewrite H) end.
    match goal with H : negb (FingerprintsEqual _ _) = false |- _ =>
      apply negb_false_iff, FingerprintsEqual_spec in H as [? ?] end.
    apply ec_promote; congruence.
  - unfold IssueChallenge. repeat (case_match; simpl); try by eauto.
    rewrite lookup_insert. case_decide; subst; intros; simplify_eq; bool_to_prop; eauto.
  - rewrite RecordProof_state.
    destruct (RecordProof now k token nonce spki protocol r).2 eqn:Hok; [|by eauto].
    destruct (entries r !! k) as [e|] eqn:He; [|by eauto].
    rewrite lookup_put. case_decide; subst; intros; simplify_eq; [|by eauto].
    left. exists e. split; [done|]. apply ec_record; [|done].
    apply RecordProof_accepted in Hok as (e1 & ? & ? & _). by simplify_eq.
Qed.

(** What happens to the entry of a label: it stays, changed as [entry_change]
    says, unless its holder deregisters it or its tombstone is spent. *)
Lemma step_kept (r : Registry) (now : Time) (o : op) (s : string) (e : Entry) :
  entries r !! s = Some e ->
  (exists e', entries (step now o r) !! s = Some e' /\ entry_change r now s o e e') \/
  isReleasableLocked r now e = true \/
  (exists token, o = OpDeregister token /\ tokenMatches e token = true).
Proof.
  intros He.
  destruct (entries (step now o r) !! s) as [e'|] eqn:He'.
  - destruct (step_origin _ _ _ _ _ He') as [(e1 & He1 & Hc)|(fresh & ip & token & -> & _)].
    + simplify_eq. eauto.
    + destruct (Register_cases now s r) as [(e1 & He1 & Hr)|Hr]; [|auto].
      simplify_eq. left. simpl in He'. rewrite (Register_held _ _ _ _ _ _ _ He Hr) in He'.
      destruct (tokenMatches e token) eqn:Ht; simpl in He';
        [|destruct (IP e =? ip)%string; simpl in He'; simplify_eq; eauto].
      destruct (IP e =? ip)%string eqn:Hip; simpl in He'; rewrite lookup_insert_eq in He';
        injection He' as <-; bool_to_prop; subst; eauto.
      destruct (isExpiredLocked r now e) eqn:Hx; eauto.
  - destruct (Register_cases now s r) as [(e1 & He1 & Hr)|Hr]; [simplify_eq|auto].
    right. right.
    destruct o as [fresh k ip token|token|token| |k token fp|k token fp|k token fp|k observed
                |fresh k token|k token nonce spki protocol]; simpl in He'.
    all: try (exfalso; revert He'; unfold Ping, AssertPin, ActivatePin, StorePendingPin,
      PromoteOnObserve, activate, IssueChallenge, RecordProof;
      repeat (case_match; simpl); rewrite ?lookup_insert; repeat case_decide; congruence).
    + exfalso. destruct (decide (k = s)) as [->|Hne].
      * rewrite (Register_held _ _ _ _ _ _ _ He Hr) in He'.
        revert He'. repeat (case_match; simpl); rewrite ?lookup_insert_eq; congruence.
      * destruct (Register_cases now k r) as [(e1 & He1 & Hr1)|Hr1].
        -- rewrite (Register_held _ _ _ _ _ _ _ He1 Hr1) in He'.
           revert He'. repeat (case_match; simpl); rewrite ?lookup_insert_ne by done; congruence.
        -- rewrite (Register_free _ _ _ _ _ _ Hr1) in He'.
           revert He'. destruct fresh; simpl; rewrite ?lookup_insert_ne by done;
             rewrite (without_spent_lookup _ _ _ _ Hr1), decide_False by done; congruence.
    + revert He'. unfold Deregister. repeat (case_match; simpl); try congruence.
      rewrite lookup_delete. case_decide; [subst|congruence]. intros _. simplify_eq. eauto.
    + rewrite Cleanup_lookup, He in He'. apply fmap_None in He'.
      unfold cleanup_entry in He'. by rewrite Hr in He'.
Qed.

(** ** The index invariant. *)

Lemma change_identity (r : Registry) (now : Time) (s : string) (o : op) (e e' : Entry) :
  entry_change r now s o e e' ->
  Subdomain e' = Subdomain e /\ TokenHash e' = TokenHash e /\ CreatedAt e' = CreatedAt e.
Proof.
  destruct 1 as [| | | | |? ? ? Hc| | | | | |]; try done.
  - unfold cleanup_entry in Hc. by repeat (case_match; simplify_eq/=).
  - unfold activateLocked. by repeat (case_match; simplify_eq/=).
  - unfold activateLocked. by repeat (case_match; simplify_eq/=).
  - by case_match.
Qed.

Lemma activate_keeps_proof (now : Time) (fp : string) (e : Entry) :
  let e' := (activateLocked now fp e).1 in
  ProvenAt e' = ProvenAt e /\ ProofExpiry e' = ProofExpiry e /\
  ProofKeySPKI e' = ProofKeySPKI e /\ FirstProvenAt e' = FirstProvenAt e /\
  ChallengeNonce e' = ChallengeNonce e /\ ChallengeExpiry e' = ChallengeExpiry e /\
  LastSeen e' = LastSeen e /\ IP e' = IP e.
Proof. unfold activateLocked. by repeat (case_match; simplify_eq/=). Qed.

Lemma cleanup_keeps_proof (r : Registry) (now : Time) (e e' : Entry) (b : bool) :
  cleanup_entry r now e = Some (e', b) ->
  ProvenAt e' = ProvenAt e /\ ProofExpiry e' = ProofExpiry e /\
  ProofKeySPKI e' = ProofKeySPKI e /\ FirstProvenAt e' = FirstProvenAt e /\
  ChallengeNonce e' = ChallengeNonce e /\ ChallengeExpiry e' = ChallengeExpiry e /\
  LastSeen e' = LastSeen e /\ IP e' = IP e.
Proof. unfold cleanup_entry. intros H. by repeat (case_match; simplify_eq/=). Qed.

(** The proof fields of an entry are left alone, cleared, or set by
    [RecordProof]. *)
Lemma change_proof (r : Registry) (now : Time) (s : string) (o : op) (e e' : Entry) :
  entry_change r now s o e e' ->
  (ProvenAt e' = ProvenAt e /\ ProofExpiry e' = ProofExpiry e /\
   ProofKeySPKI e' = ProofKeySPKI e /\ FirstProvenAt e' = FirstProvenAt e) \/
  (everProvenLocked e' = false /\ FirstProvenAt e' = FirstProvenAt e) \/
  (exists token nonce spki protocol,
     o = OpRecordProof s token nonce spki protocol /\
     (RecordProof now s token nonce spki protocol r).2 = true /\
     e' = proven_entry now spki protocol e).
Proof.
  destruct 1 as [| | | | |? ? ? Hc| |token fp e|  |observed e| |token nonce spki protocol e _ Hok];
    try (left; done); try (right; left; done).
  - left. pose proof (cleanup_keeps_proof _ _ _ _ _ Hc). tauto.
  - left. destruct (activate_keeps_proof now fp e) as (? & ? & ? & ? & _). auto.
  - left. destruct (activate_keeps_proof now observed e) as (? & ? & ? & ? & _). auto.
  - right. right. eauto 9.
Qed.

Lemma change_wf_proven (r : Registry) (now : Time) (s : string) (o : op) (e e' : Entry) :
  0 < now -> entry_change r now s o e e' ->
  (IsZero (FirstProvenAt e) = true -> everProvenLocked e = false) ->
  IsZero (FirstProvenAt e') = true -> everProvenLocked e' = false.
Proof.
  intros Hnow Hc Hwf.
  destruct (change_proof _ _ _ _ _ _ Hc)
    as [(H1 & H2 & H3 & H4)|[[H1 H2]|(token & nonce & spki & protocol & -> & Hok & ->)]].
  - unfold everProvenLocked in *. by rewrite H1, H3, H4.
  - done.
  - unfold proven_entry, IsZero, zero_time. simpl. unfold IsZero, zero_time in *.
    destruct (Z.eqb_spec (FirstProvenAt e) 0); simpl; intros H; apply Z.eqb_eq in H; lia.
Qed.

Lemma wf_dirty (r : Registry) (b : bool) : registry_wf r -> registry_wf (set_dirty b r).
Proof. intros [H1 H2 H3 H4]. by split. Qed.

Lemma wf_put (r : Registry) (s : string) (e e' : Entry) :
  registry_wf r -> entries r !! s = Some e ->
  Subdomain e' = Subdomain e -> TokenHash e' = TokenHash e ->
  (IsZero (FirstProvenAt e') = true -> everProvenLocked e' = false) ->
  registry_wf (put s e' r).
Proof.
  intros [H1 H2 H4 H3] He Hs Ht Hp. split; simpl.
  - intros h k Hk. destruct (H1 h k Hk) as (e1 & He1 & Hh).
    destruct (decide (s = k)) as [->|Hne].
    + rewrite lookup_insert_eq. exists e'. split; [done|]. congruence.
    + rewrite lookup_insert_ne by done. eauto.
  - intros k e1. destruct (decide (s = k)) as [->|Hne].
    + rewrite lookup_insert_eq. intros [= <-]. rewrite Hs, Ht. auto.
    + rewrite lookup_insert_ne by done. auto.
  - intros k e1. destruct (decide (s = k)) as [->|Hne].
    + rewrite lookup_insert_eq. intros [= <-]. rewrite Ht. eauto.
    + rewrite lookup_insert_ne by done. eauto.
  - intros k e1. destruct (decide (s = k)) as [->|Hne].
    + rewrite lookup_insert_eq. intros [= <-]. auto.
    + rewrite lookup_insert_ne by done. eauto.
Qed.

Lemma wf_drop (r : Registry) (s : string) (e : Entry) :
  registry_wf r -> entries r !! s = Some e -> registry_wf (drop_entry s (TokenHash e) r).
Proof.
  intros [H1 H2 H4 H3] He. split; simpl.
  - intros h k Hk. apply lookup_delete_Some in Hk as [Hne Hk].
    destruct (H1 h k Hk) as (e1 & He1 & Hh). exists e1. split; [|done].
    rewrite lookup_delete_ne; [done|]. intros ->. congruence.
  - intros k e1 Hk. apply lookup_delete_Some in Hk as [Hne Hk].
    destruct (H2 k e1 Hk) as [Hs Ht]. split; [done|].
    rewrite lookup_delete_ne; [done|]. intros Heq. destruct (H2 s e He) as [_ Ht'].
    rewrite Heq in Ht'. congruence.
  - intros k e1 Hk. apply lookup_delete_Some in Hk as [Hne Hk]. eauto.
  - intros k e1 Hk. apply lookup_delete_Some in Hk as [Hne Hk]. eauto.
Qed.

Lemma wf_new (enforce : bool) : registry_wf (New enforce).
Proof. split; simpl; intros *; by rewrite lookup_empty. Qed.

Lemma wf_register_free (now : Time) (t s ip : string) (r : Registry) :
  registry_wf r -> entries r !! s = None -> tokens r !! hashToken t = None ->
  registry_wf (set_maps (<[s := new_entry now s ip t]> (entries r))
                 (<[hashToken t := s]> (tokens r)) r).
Proof.
  intros [H1 H2 H4 H3] Hs Ht. split; simpl.
  - intros h k. rewrite lookup_insert. case_decide as Hh.
    + intros [= <-]. exists (new_entry now s ip t). rewrite lookup_insert_eq. auto.
    + intros Hk. destruct (H1 h k Hk) as (e1 & He1 & Hh1). exists e1.
      rewrite lookup_insert_ne; [done|]. congruence.
  - intros k e1. rewrite lookup_insert. case_decide as Hk; subst.
    + intros [= <-]. simpl. by rewrite lookup_insert_eq.
    + intros Hk1. destruct (H2 k e1 Hk1) as [Hs1 Ht1]. split; [done|].
      rewrite lookup_insert_ne; [done|]. congruence.
  - intros k e1. rewrite lookup_insert. case_decide; [|by eauto].
    intros [= <-]. apply hashToken_prefix.
  - intros k e1. rewrite lookup_insert. case_decide; [|by eauto].
    intros [= <-]. done.
Qed.

Lemma without_spent_wf (now : Time) (s : string) (r : Registry) :
  registry_wf r -> registry_wf (without_spent now s r).
Proof.
  intros H. unfold without_spent. destruct (entries r !! s) eqn:He; [|done].
  case_match; [|done]. by apply wf_drop.
Qed.

Lemma without_spent_token (now : Time) (s h : string) (r : Registry) :
  tokens r !! h = None -> tokens (without_spent now s r) !! h = None.
Proof.
  intros H. unfold without_spent. destruct (entries r !! s) eqn:He; [|done].
  case_match; [|done]. simpl. rewrite lookup_delete. by case_decide.
Qed.

(** Every operation that writes an entry back keeps the index. *)
Lemma wf_write (r : Registry) (now : Time) (o : op) (s : string) (e e' : Entry) (b : bool) :
  0 < now -> registry_wf r -> entries r !! s = Some e -> entry_change r now s o e e' ->
  registry_wf (set_dirty b (put s e' r)).
Proof.
  intros Hnow Hwf He Hc. destruct (change_identity _ _ _ _ _ _ Hc) as (H1 & H2 & _).
  apply wf_dirty, (wf_put r s e); try done.
  apply (change_wf_proven _ _ _ _ _ _ Hnow Hc). by apply (wf_proven r Hwf s).
Qed.

#[export] Hint Resolve wf_dirty wf_put wf_drop wf_new wf_write : kipper.

Lemma registry_wf_Register (r : Registry) (now : Time) (fresh : option string) (s ip token : string) :
  0 < now -> registry_wf r -> fresh_token (OpRegister fresh s ip token) r ->
  registry_wf (Register now fresh s ip token r).1.1.
Proof.
  intros Hnow Hwf Hf. destruct (Register_cases now s r) as [(e & He & Hr)|Hr].
  - rewrite (Register_held _ _ _ _ _ _ _ He Hr).
    destruct (tokenMatches e token) eqn:Ht; simpl; [|by destruct (IP e =? ip)%string].
    destruct (IP e =? ip)%string eqn:Hip; simpl.
    + apply String.eqb_eq in Hip as <-. destruct (isExpiredLocked r now e) eqn:Hx.
      * eapply (wf_write r now (OpRegister fresh s (IP e) token)); eauto.
      * eapply (wf_write r now (OpRegister fresh s (IP e) token)); eauto.
    + eapply (wf_write r now (OpRegister fresh s ip token)); eauto.
  - rewrite (Register_free _ _ _ _ _ _ Hr). destruct fresh as [t|]; simpl.
    + apply wf_dirty, wf_register_free; auto using without_spent_wf, without_spent_token.
      rewrite (without_spent_lookup _ _ _ _ Hr). by rewrite decide_True.
    + by apply without_spent_wf.
Qed.

Lemma registry_wf_step (r : Registry) (now : Time) (o : op) :
  0 < now -> registry_wf r -> fresh_token o r -> registry_wf (step now o r).
Proof.
  intros Hnow Hwf Hf.
  destruct o as [fresh k ip token|token|token| |k token fp|k token fp|k token fp|k observed
                |fresh k token|k token nonce spki protocol]; simpl.
  - by apply registry_wf_Register.
  - unfold Deregister. repeat (case_match; simpl; try done). reg_bool.
    match goal with H : TokenHash _ = _ |- _ => rewrite <- H end. auto with kipper.
  - unfold Ping. repeat (case_match; simpl; try done). bool_to_prop.
    eapply (wf_write r now (OpPing token)); eauto.
  - apply Cleanup_ind; [| |done].
    + intros r1 k e e' b Hwf1 He Hc. eapply (wf_write r1 now OpCleanup); eauto.
    + intros r1 k e Hwf1 He _. by apply wf_drop.
  - unfold AssertPin. repeat (case_match; simpl; try done). bool_to_prop.
    eapply (wf_write r now (OpAssertPin k token fp)); eauto.
  - unfold ActivatePin. repeat (case_match; simpl; try done). bool_to_prop.
    unfold activate. destruct (activateLocked now fp e) as [e' b] eqn:Ha.
    replace e' with (activateLocked now fp e).1 by (by rewrite Ha).
    eapply (wf_write r now (OpActivatePin k token fp)); eauto.
  - unfold StorePendingPin. repeat (case_match; simpl; try done). bool_to_prop.
    eapply (wf_write r now (OpStorePendingPin k token fp)); eauto.
  - unfold PromoteOnObserve. repeat (case_match; simpl; try done). reg_bool.
    unfold activate. destruct (activateLocked now observed e) as [e' b] eqn:Ha.
    replace e' with (activateLocked now observed e).1 by (by rewrite Ha).
    eapply (wf_write r now (OpPromoteOnObserve k observed)); eauto; apply ec_promote; congruence.
  - unfold IssueChallenge. repeat (case_match; simpl; try done). bool_to_prop.
    eapply (wf_write r now (OpIssueChallenge (Some _) k token)); eauto.
  - rewrite RecordProof_state. destruct (RecordProof now k token nonce spki protocol r).2 eqn:Hok;
      [|done]. destruct (entries r !! k) as [e|] eqn:He; [|done].
    eapply (wf_write r now (OpRecordProof k token nonce spki protocol)); eauto;
      apply ec_record; [|done]; apply RecordProof_accepted in Hok as (e1 & ? & ? & _);
      by simplify_eq.
Qed.

(** ** Histories. *)

Lemma New_empty (enforce : bool) (s : string) : entries (New enforce) !! s = None.
Proof. apply lookup_empty. Qed.

Lemma run_snoc (r : Registry) (tr : list (Time * op)) (now : Time) (o : op) :
  run r (tr ++ [(now, o)]) = step now o (run r tr).
Proof. unfold run. by rewrite foldl_app. Qed.

Lemma run_config (r : Registry) (tr : list (Time * op)) : same_config r (run r tr).
Proof.
  induction tr as [|[now o] tr IH] using rev_ind; [done|].
  rewrite run_snoc. eapply same_config_trans; [exact IH|apply step_config].
Qed.

(** A fact about the entry of a label that every change carries along the
    history holds at its end. *)
Lemma history_entries (r0 : Registry) (P : list (Time * op) -> string -> Entry -> Prop) :
  (forall s e, entries r0 !! s = Some e -> P [] s e) ->
  (forall tr now s o e e', entries (run r0 tr) !! s = Some e -> P tr s e ->
     entry_change (run r0 tr) now s o e e' -> P (tr ++ [(now, o)]) s e') ->
  (forall tr now s fresh ip token,
     P (tr ++ [(now, OpRegister (Some fresh) s ip token)]) s (new_entry now s ip fresh)) ->
  forall tr s e, entries (run r0 tr) !! s = Some e -> P tr s e.
Proof.
  intros Hbase Hstep Hnew tr. induction tr as [|[now o] tr IH] using rev_ind; intros s e He.
  - auto.
  - rewrite run_snoc in He.
    destruct (step_origin _ _ _ _ _ He) as [(e1 & He1 & Hc)|(fresh & ip & token & -> & ->)]; eauto.
Qed.

(** The event [ev] happened in [tr], in the state [run r0 tr1]. *)
Definition happened (r0 : Registry) (tr tr1 : list (Time * op)) (ev : Time * op) : Prop :=
  exists tr2, tr = tr1 ++ ev :: tr2.

Lemma happened_last (r0 : Registry) (tr : list (Time * op)) (ev : Time * op) :
  happened r0 (tr ++ [ev]) tr ev.
Proof. by exists []. Qed.

Lemma happened_weaken (r0 : Registry) (tr tr1 tr' : list (Time * op)) (ev : Time * op) :
  happened r0 tr tr1 ev -> happened r0 (tr ++ tr') tr1 ev.
Proof. intros [tr2 ->]. exists (tr2 ++ tr'). by rewrite <- app_assoc. Qed.

#[export] Hint Resolve happened_last happened_weaken : kipper.

(** A fingerprint asserted for a label by the holder of its token. *)
Definition asserted (r0 : Registry) (tr : list (Time * op)) (s fp : string) : Prop :=
  exists tr1 t token,
    HeldBy s token (run r0 tr1) = true /\
    (happened r0 tr tr1 (t, OpActivatePin s token fp) \/
     happened r0 tr tr1 (t, OpStorePendingPin s token fp)).

Lemma asserted_weaken (r0 : Registry) (tr tr' : list (Time * op)) (s fp : string) :
  asserted r0 tr s fp -> asserted r0 (tr ++ tr') s fp.
Proof. intros (tr1 & t & token & Hh & [H|H]); exists tr1, t, token; auto with kipper. Qed.

(** The three fingerprints of an entry. *)
Definition pins (e : Entry) : list string :=
  [CertFingerprint e; PendingFingerprint e; PrevFingerprint e].

(** A change keeps the pins within the old ones, the empty one and an asserted
    one. *)
Lemma change_pins (r : Registry) (now : Time) (s : string) (o : op) (e e' : Entry) (fp : string) :
  entry_change r now s o e e' -> fp ∈ pins e' ->
  fp = "" \/ fp ∈ pins e \/
  exists token, tokenMatches e token = true /\
    (o = OpActivatePin s token fp \/ o = OpStorePendingPin s token fp).
Proof.
  unfold pins. intros Hc Hfp.
  assert (Hact : forall f, fp ∈ pins (activateLocked now f e).1 -> fp = "" \/ fp ∈ pins e \/ fp = f).
  { intros f. unfold activateLocked, pins.
    repeat case_match; simpl; rewrite !elem_of_cons; tauto. }
  destruct Hc as [ | | | | | ? ? ? Hc | | token f e Ht | token f e Ht | observed e Hp Hne | | ];
    simpl in Hfp; rewrite ?elem_of_cons in Hfp |- *; try tauto.
  - unfold cleanup_entry in Hc. repeat (case_match; simplify_eq/=); tauto.
  - rewrite <- !elem_of_cons in Hfp. destruct (Hact f Hfp) as [ ? | [ Hin | -> ] ]; [auto| |by eauto 7].
    unfold pins in Hin. rewrite !elem_of_cons in Hin. auto.
  - destruct Hfp as [ ? | [ -> | ? ] ]; [tauto| |tauto]. eauto 7.
  - rewrite <- !elem_of_cons in Hfp. destruct (Hact observed Hfp) as [ ? | [ Hin | -> ] ]; [auto| |subst; auto].
    unfold pins in Hin. rewrite !elem_of_cons in Hin. auto.
  - case_match; simpl in *; tauto.
Qed.

(** The facts a recorded proof leaves behind. *)
Definition proof_recorded (r0 : Registry) (tr : list (Time * op)) (s : string) (e : Entry) : Prop :=
  everProvenLocked e = true ->
  exists tr1 token nonce protocol,
    happened r0 tr tr1 (ProvenAt e, OpRecordProof s token nonce (ProofKeySPKI e) protocol) /\
    (RecordProof (ProvenAt e) s token nonce (ProofKeySPKI e) protocol (run r0 tr1)).2 = true /\
    ProofExpiry e = ProvenAt e + proofLease.

Lemma history_proof (enforce : bool) (tr : list (Time * op)) (s : string) (e : Entry) :
  entries (run (New enforce) tr) !! s = Some e -> proof_recorded (New enforce) tr s e.
Proof.
  revert tr s e. apply (history_entries (New enforce) (proof_recorded (New enforce))).
  - intros s e He. by rewrite New_empty in He.
  - intros tr now s o e e' He IH Hc Hp.
    destruct (change_proof _ _ _ _ _ _ Hc)
      as [(H1 & H2 & H3 & _)|[[H1 _]|(token & nonce & spki & protocol & -> & Hok & ->)]].
    + unfold everProvenLocked in *. rewrite H1, H3 in *. rewrite H2.
      destruct (IH Hp) as (tr1 & token & nonce & protocol & Hh & Hok & Hx).
      exists tr1, token, nonce, protocol. eauto with kipper.
    + congruence.
    + exists tr, token, nonce, protocol. unfold proven_entry; simpl. auto with kipper.
  - intros tr now s fresh ip token Hp. done.
Qed.

(** The facts an outstanding challenge leaves behind. *)
Definition challenge_issued (r0 : Registry) (tr : list (Time * op)) (s : string) (e : Entry) : Prop :=
  ChallengeNonce e <> "" ->
  exists tr1 t token,
    happened r0 tr tr1 (t, OpIssueChallenge (Some (ChallengeNonce e)) s token) /\
    HeldBy s token (run r0 tr1) = true /\
    ChallengeExpiry e = t + challengeTTL.

Lemma change_challenge (r : Registry) (now : Time) (s : string) (o : op) (e e' : Entry) :
  entry_change r now s o e e' ->
  (ChallengeNonce e' = ChallengeNonce e /\ ChallengeExpiry e' = ChallengeExpiry e) \/
  ChallengeNonce e' = "" \/
  (exists nonce token, o = OpIssueChallenge (Some nonce) s token /\
     tokenMatches e token = true /\ e' = set_Challenge nonce (Add now challengeTTL) e).
Proof.
  destruct 1 as [| | | | |? ? ? Hc| |token fp e|  |observed e|nonce token e Ht|];
    try (left; done); try (right; left; done).
  - left. pose proof (cleanup_keeps_proof _ _ _ _ _ Hc). tauto.
  - left. destruct (activate_keeps_proof now fp e) as (? & ? & ? & ? & ? & ? & _). auto.
  - left. destruct (activate_keeps_proof now observed e) as (? & ? & ? & ? & ? & ? & _). auto.
  - right. right. eauto.
Qed.

Lemma HeldBy_intro (r : Registry) (s token : string) (e : Entry) :
  entries r !! s = Some e -> tokenMatches e token = true -> HeldBy s token r = true.
Proof. intros He Ht. unfold HeldBy. by rewrite He. Qed.

Lemma history_challenge (enforce : bool) (tr : list (Time * op)) (s : string) (e : Entry) :
  entries (run (New enforce) tr) !! s = Some e -> challenge_issued (New enforce) tr s e.
Proof.
  revert tr s e. apply (history_entries (New enforce) (challenge_issued (New enforce))).
  - intros s e He. by rewrite New_empty in He.
  - intros tr now s o e e' He IH Hc Hn.
    destruct (change_challenge _ _ _ _ _ _ Hc)
      as [(H1 & H2)|[H1|(nonce & token & -> & Ht & ->)]].
    + rewrite H1, H2 in *. destruct (IH Hn) as (tr1 & t & token & Hh & Hk & Hx).
      exists tr1, t, token. eauto with kipper.
    + congruence.
    + exists tr, now, token. simpl. split_and!; eauto using HeldBy_intro with kipper.
  - intros tr now s fresh ip token Hn. done.
Qed.

(** What [PinState] accepts comes from the entry. *)
Lemma PinState_pins (now : Time) (s fp : string) (r : Registry) :
  let ps := PinState now s r in
  fp <> "" -> fp ∈ [Current ps; Pending ps; Prev ps] ->
  exists e, entries r !! s = Some e /\ fp ∈ pins e.
Proof.
  unfold PinState, pins. intros Hne. destruct (entries r !! s) as [e|]; simpl.
  - intros H. exists e. split; [done|]. revert H. rewrite !elem_of_cons.
    repeat case_match; tauto.
  - rewrite !elem_of_cons, elem_of_nil. tauto.
Qed.

Lemma Routable_entry (now : Time) (s : string) (r : Registry) :
  Routable now s r = true <->
  exists e, entries r !! s = Some e /\ isExpiredLocked r now e = false /\
    proofValidLocked now e = true.
Proof.
  unfold Routable. destruct (entries r !! s) as [e|]; [|naive_solver].
  destruct (isExpiredLocked r now e) eqn:Hx; naive_solver.
Qed.

(** An entry that was served is not released before its tombstone ends. *)
Lemma not_releasable (r : Registry) (now : Time) (e : Entry) :
  int64_min <= TombstoneTTL r < int64_max ->
  IsZero (FirstProvenAt e) = false ->
  now <= LastSeen e + InactivityTTL r + TombstoneTTL r -> 0 <= TombstoneTTL r ->
  isReleasableLocked r now e = false.
Proof.
  intros Hr Hp Hle Hpos. unfold isReleasableLocked, lapsedAtLocked, After, Add.
  destruct (Z.ltb_spec (LastSeen e + InactivityTTL r) now).
  - rewrite Hp, Sub_gt by done. apply Z.ltb_ge. lia.
  - rewrite Hp, andb_false_r. done.
Qed.

(** Without its token, the routing of an entry and its hold are left alone. *)
Lemma change_same_holder (r : Registry) (now : Time) (s : string) (o : op) (e e' : Entry) :
  entry_change r now s o e e' -> presents_token o e = false ->
  same_holder e e'.
Proof.
  unfold same_holder.
  destruct 1 as [| | | | |? ? ? Hc| | | |observed e| |token nonce spki protocol e Hok];
    simpl; intros Hp; try done; try congruence.
  - pose proof (change_identity r now s OpCleanup _ _ (ec_cleanup r now s _ _ _ Hc)).
    pose proof (cleanup_keeps_proof _ _ _ _ _ Hc). tauto.
  - destruct (activate_keeps_proof now observed e) as (? & ? & ? & ? & ? & ? & ? & ?).
    unfold activateLocked in *. repeat (case_match; simplify_eq/=); tauto.
Qed.
