(* ===== verification/RegistryProps.v ===== *)
(** * The properties of the gateway registry.

    Safety of a label over whole histories of critical sections: nobody without
    the token takes it over, routes it or pins a key for it; then the behaviour
    of single operations and the audits built on them. *)

From Stdlib Require Import Ascii.
From stdpp Require Import base tactics numbers list option strings gmap.
From S2P Require Import Prelude GoStd Sha256 Registry RegistryFacts.

(** The events of a history that presents no token of [e] before [deadline]. *)
Definition unauthenticated_until (e : Entry) (deadline : Time) (ev : Time * op) : Prop :=
  ev.1 <= deadline /\ presents_token ev.2 e = false.

(** No event of the history issues [nonce] to the label [s]. *)
Definition never_issues (s nonce : string) (tr : list (Time * op)) : Prop :=
  Forall (fun ev => forall token, ev.2 <> OpIssueChallenge (Some nonce) s token) tr.

(** A cluster that registers, answers a challenge and pins its key. *)
Definition demo_history : list (Time * op) :=
  [(1 * Hour, OpRegister (Some "tok-1") "acme" "203.0.113.10" "");
   (2 * Hour, OpIssueChallenge (Some "nonce-1") "acme" "tok-1");
   (2 * Hour + 1 * Minute, OpRecordProof "acme" "tok-1" "nonce-1" "spki-1" "v1");
   (3 * Hour, OpActivatePin "acme" "tok-1" "spki-1")].

Definition demo_registry : Registry := run (New true) demo_history.

Definition demo_entry : Entry :=
  default (new_entry 0 "" "" "") (entries demo_registry !! "acme").

(** A stranger's claim on the label, a sweep and an anonymous renewal. *)
Definition demo_attack : list (Time * op) :=
  [(4 * Hour, OpRegister (Some "evil") "acme" "198.51.100.9" "guess");
   (800 * Hour, OpCleanup); (801 * Hour, OpRegister None "acme" "203.0.113.10" "")].

(** ** Lemmas. *)

Lemma demo_entry_held : entries demo_registry !! "acme" = Some demo_entry.
Proof. vm_compute. reflexivity. Qed.

Section Holding.
Context (s : string).

Lemma same_holder_refl (e : Entry) : same_holder e e.
Proof. by unfold same_holder. Qed.

Lemma same_holder_trans (e1 e2 e3 : Entry) :
  same_holder e1 e2 -> same_holder e2 e3 -> same_holder e1 e3.
Proof. unfold same_holder. intuition congruence. Qed.

Lemma presents_token_same (o : op) (e e' : Entry) :
  same_holder e e' -> presents_token o e' = presents_token o e.
Proof.
  intros (Ht & _).
  assert (Hm : forall token, tokenMatches e' token = tokenMatches e token)
    by (intros token; unfold tokenMatches; by rewrite Ht).
  destruct o; simpl; auto.
Qed.

(** A critical section that presents no token of the entry, before the end of
    its tombstone, keeps the hold. *)
Lemma step_same_holder (r : Registry) (now : Time) (o : op) (e : Entry) :
  entries r !! s = Some e -> IsZero (FirstProvenAt e) = false ->
  int64_min <= TombstoneTTL r < int64_max -> 0 <= TombstoneTTL r ->
  now <= LastSeen e + InactivityTTL r + TombstoneTTL r ->
  presents_token o e = false ->
  exists e', entries (step now o r) !! s = Some e' /\ same_holder e e'.
Proof.
  intros He Hp Hr Hpos Hle Ht.
  destruct (step_kept _ now o _ _ He) as [(e' & He' & Hc)|[Hrel|(token & -> & Hm)]].
  - exists e'. split; [done|]. by eapply change_same_holder.
  - by rewrite not_releasable in Hrel.
  - simpl in Ht. congruence.
Qed.
End Holding.

Lemma summarise_count (now : Time) (skip : Entry -> bool) (l : list (string * Entry)) (n : nat) (d : Z) :
  (foldl (fun acc kv =>
           let '(count, oldest) := (acc : nat * Duration) in
           let entry : Entry := kv.2 in
           if skip entry then (count, oldest)
           else (S count, Z.max oldest (Sub now (CreatedAt entry)))) (n, d) l).1 =
  (n + length (filter (fun kv => skip kv.2 = false) l))%nat.
Proof.
  revert n d. induction l as [|[k e] l IH]; intros n d; simpl; [lia|].
  rewrite filter_cons. simpl. destruct (skip e) eqn:Hs; rewrite IH; case_decide; simpl; try done; lia.
Qed.

Lemma summarise_zero (now : Time) (skip : Entry -> bool) (r : Registry) :
  (summarise now skip r).1 = 0%nat <-> forall s e, entries r !! s = Some e -> skip e = true.
Proof.
  unfold summarise. rewrite summarise_count. simpl. rewrite length_zero_iff_nil. split.
  - intros Hnil s e He. destruct (skip e) eqn:Hs; [done|].
    assert (Hin : (s, e) ∈ filter (fun kv => skip kv.2 = false) (map_to_list (entries r)))
      by (apply list_elem_of_filter; split; [done|by apply elem_of_map_to_list]).
    rewrite Hnil in Hin. by apply elem_of_nil in Hin.
  - intros Hall. apply elem_of_nil_inv. intros [s e] Hin.
    apply list_elem_of_filter in Hin as [Hs Hin]. apply elem_of_map_to_list in Hin.
    simpl in Hs. rewrite (Hall s e Hin) in Hs. done.
Qed.

Lemma everProven_cleared (e : Entry) : everProvenLocked (clearProofLocked e) = false.
Proof. done. Qed.

Lemma proofValid_proven (now : Time) (e : Entry) :
  proofValidLocked now e = true ->
  everProvenLocked e = true /\ now < ProofExpiry e /\
  (CertFingerprint e = "" \/ CertFingerprint e = ProofKeySPKI e).
Proof.
  unfold proofValidLocked, leaseCurrentLocked, Before. intros H. bool_to_prop.
  split_and!; try done.
  match goal with H : _ || _ = true |- _ => apply orb_true_iff in H as [H|H] end; reg_bool; auto.
Qed.

(** A consumed nonce does not come back into the entry. *)
Lemma spent_nonce (r : Registry) (t : Time) (s token nonce spki protocol : string)
    (tr : list (Time * op)) :
  (RecordProof t s token nonce spki protocol r).2 = true -> never_issues s nonce tr ->
  forall e, entries (run (RecordProof t s token nonce spki protocol r).1 tr) !! s = Some e ->
  ChallengeNonce e <> nonce.
Proof.
  intros Hok Hni e He. pose proof Hok as Hacc.
  apply RecordProof_accepted in Hacc as (e0 & He0 & _ & _ & Hne & Hn & _).
  cut (s = s -> never_issues s nonce tr -> ChallengeNonce e <> nonce); [auto|].
  clear Hni. revert tr e He.
  cut (forall tr k e, entries (run (RecordProof t s token nonce spki protocol r).1 tr) !! k = Some e ->
         k = s -> never_issues s nonce tr -> ChallengeNonce e <> nonce); [by eauto|].
  apply (history_entries _ (fun tr k e => k = s -> never_issues s nonce tr -> ChallengeNonce e <> nonce)).
  - intros k e He -> _. rewrite RecordProof_state, Hok, He0, lookup_put, decide_True in He by done.
    simplify_eq. unfold proven_entry. simpl. congruence.
  - intros tr now k o e e' He IH Hc -> Hni. apply Forall_app in Hni as [Hni Ho].
    rewrite Forall_singleton in Ho.
    destruct (change_challenge _ _ _ _ _ _ Hc) as [(-> & _) | [-> | (n & tok & -> & _ & ->)]].
    + by apply IH.
    + congruence.
    + simpl. intros ->. by apply (Ho tok).
  - intros tr now k fresh ip tok -> _. simpl. congruence.
Qed.

(** ** Properties. *)

(** C1: a label that has served cannot be taken over. Over any history of
    critical sections, in which nobody presents the token of its registration
    before the inactivity and the tombstone period have passed, the label stays
    with the same token at the same address, and its activity, proof and
    challenge records are untouched. *)
Theorem label_not_taken_over (r : Registry) (s : string) (e : Entry) (tr : list (Time * op)) :
  int64_min <= TombstoneTTL r < int64_max -> 0 <= TombstoneTTL r ->
  entries r !! s = Some e -> IsZero (FirstProvenAt e) = false ->
  Forall (unauthenticated_until e (LastSeen e + InactivityTTL r + TombstoneTTL r)) tr ->
  exists e', entries (run r tr) !! s = Some e' /\ same_holder e e'.
Proof.
  intros Hr Hpos He Hp. induction tr as [|[now o] tr IH] using rev_ind; intros Htr.
  - exists e. split; [done|apply same_holder_refl].
  - apply Forall_app in Htr as [Htr Hev]. rewrite Forall_singleton in Hev. destruct Hev as [Hle Ht].
    destruct (IH Htr) as (e1 & He1 & Hs1). rewrite run_snoc.
    destruct (run_config r tr) as (Hi & Hts & _).
    pose proof Hs1 as (_ & _ & Hls & _ & Hf & _).
    destruct (step_same_holder s (run r tr) now o e1) as (e2 & He2 & Hs2); try done.
    + by rewrite Hf.
    + by rewrite Hts.
    + by rewrite Hts.
    + by rewrite Hi, Hts, Hls.
    + by rewrite (presents_token_same _ _ _ Hs1).
    + exists e2. split; [done|]. by eapply same_holder_trans.
Qed.

Lemma label_not_taken_over_witness :
  exists e', entries (run demo_registry demo_attack) !! "acme" = Some e' /\
    same_holder demo_entry e'.
Proof.
  apply (label_not_taken_over demo_registry "acme" demo_entry demo_attack).
  - vm_compute. split; [discriminate|reflexivity].
  - vm_compute. discriminate.
  - vm_compute. reflexivity.
  - vm_compute. reflexivity.
  - unfold demo_attack.
    repeat (apply Forall_cons_2; [split; vm_compute; [discriminate|reflexivity]|]).
    apply Forall_nil_2.
Defined.

(** C2: routing rests on a proof of possession. When a label is routable at the
    end of a history that starts with an empty registry, the history holds a
    challenge issued to a holder of the label's token, and a later proof over
    exactly that nonce, presented with the token within the challenge's lifetime,
    whose lease has not run out; the key that routes is the proven one, and an
    enforced pin agrees with it. *)
Theorem routable_has_proof (enforce : bool) (tr : list (Time * op)) (now : Time) (s : string) :
  Routable now s (run (New enforce) tr) = true ->
  exists tr0 t0 token0 tr1 t token nonce spki protocol,
    happened (New enforce) tr tr1 (t, OpRecordProof s token nonce spki protocol) /\
    happened (New enforce) tr1 tr0 (t0, OpIssueChallenge (Some nonce) s token0) /\
    HeldBy s token0 (run (New enforce) tr0) = true /\
    HeldBy s token (run (New enforce) tr1) = true /\
    t <= t0 + challengeTTL /\ now < t + proofLease /\
    ProvenKey now s (run (New enforce) tr) = spki /\
    Current (PinState now s (run (New enforce) tr)) ∈ [""; spki].
Proof.
  intros H. apply Routable_entry in H as (e & He & _ & Hv).
  pose proof (proofValid_proven _ _ Hv) as (Hev & Hlt & Hpin).
  destruct (history_proof enforce tr s e He Hev) as (tr1 & token & nonce & protocol & Hh & Hok & Hx).
  apply RecordProof_accepted in Hok as (e1 & He1 & Ht1 & _ & Hn & <- & Hle).
  destruct (history_challenge enforce tr1 s e1 He1 Hn) as (tr0 & t0 & token0 & Hh0 & Hk0 & Hx0).
  exists tr0, t0, token0, tr1, (ProvenAt e), token, (ChallengeNonce e1), (ProofKeySPKI e), protocol.
  split_and!; try done.
  - by apply (HeldBy_intro _ _ _ e1).
  - lia.
  - lia.
  - unfold ProvenKey. rewrite He. unfold proofValidLocked in Hv.
    apply andb_true_iff in Hv as [-> _]. done.
  - unfold PinState. rewrite He. simpl. rewrite !elem_of_cons. tauto.
Qed.

Lemma routable_has_proof_witness :
  exists tr0 t0 token0 tr1 t token nonce spki protocol,
    happened (New true) demo_history tr1 (t, OpRecordProof "acme" token nonce spki protocol) /\
    happened (New true) tr1 tr0 (t0, OpIssueChallenge (Some nonce) "acme" token0) /\
    HeldBy "acme" token0 (run (New true) tr0) = true /\
    HeldBy "acme" token (run (New true) tr1) = true /\
    t <= t0 + challengeTTL /\ 5 * Hour < t + proofLease /\
    ProvenKey (5 * Hour) "acme" (run (New true) demo_history) = spki /\
    Current (PinState (5 * Hour) "acme" (run (New true) demo_history)) ∈ [""; spki].
Proof. apply routable_has_proof. vm_compute. reflexivity. Defined.

(** C25: pins are never poisoned. Every fingerprint the proxy accepts for a
    label, current, pending or previous, after a history that starts with an
    empty registry, was asserted for that label in an earlier critical section
    by a holder of the label's token; observing a key on the wire never adds
    one. *)
Theorem pins_token_authenticated (enforce : bool) (tr : list (Time * op)) (now : Time) (s fp : string) :
  let ps := PinState now s (run (New enforce) tr) in
  fp <> "" -> fp ∈ [Current ps; Pending ps; Prev ps] ->
  asserted (New enforce) tr s fp.
Proof.
  intros ps Hne Hin. destruct (PinState_pins _ _ _ _ Hne Hin) as (e & He & Hfp).
  clear ps Hin. revert tr s e He Hfp.
  apply (history_entries (New enforce) (fun tr s e => fp ∈ pins e -> asserted (New enforce) tr s fp)).
  - intros s e He. by rewrite New_empty in He.
  - intros tr now' s o e e' He IH Hc Hfp.
    destruct (change_pins _ _ _ _ _ _ _ Hc Hfp) as [-> | [Hin | (token & Ht & Ho)]]; [done| |].
    + by apply asserted_weaken, IH.
    + exists tr, now', token. split; [by apply (HeldBy_intro _ _ _ e)|].
      destruct Ho as [-> | ->]; auto with kipper.
  - intros tr now' s fresh ip token Hfp. unfold pins in Hfp. simpl in Hfp.
    rewrite !elem_of_cons, elem_of_nil in Hfp. naive_solver.
Qed.

Lemma pins_token_authenticated_witness : asserted (New true) demo_history "acme" "spki-1".
Proof.
  apply (pins_token_authenticated true demo_history (5 * Hour) "acme" "spki-1").
  - discriminate.
  - replace (PinState (5 * Hour) "acme" (run (New true) demo_history))
      with (mkPinState "spki-1" "" "" (3 * Hour)) by (vm_compute; reflexivity).
    left.
Defined.

(** C40: the token index and the entries always describe the same
    registrations, every entry sits under its own label, and an entry with a
    proof has its serving history recorded, in every state a gateway reaches
    from an empty registry with tokens that do not repeat. *)
Theorem registry_wf_reachable (enforce : bool) (r : Registry) :
  reachable enforce r -> registry_wf r.
Proof.
  induction 1 as [|now o r _ IH Hf Hnow]; [apply wf_new|by apply registry_wf_step].
Qed.

Lemma registry_wf_reachable_witness :
  registry_wf (step (1 * Hour) (OpRegister (Some "tok-1") "acme" "203.0.113.10" "") (New true)).
Proof.
  apply (registry_wf_reachable true). apply reach_step; [apply reach_new|reflexivity|reflexivity].
Defined.

(** A challenge is single use. Once a proof over a nonce was recorded for a
    label, no later request is matched by that nonce and no later proof over it
    is recorded, whatever happens in between, unless the gateway draws and
    issues the same nonce to the label again. *)
Theorem challenge_single_use (r : Registry) (t : Time) (s token nonce spki protocol : string)
    (tr : list (Time * op)) :
  (RecordProof t s token nonce spki protocol r).2 = true ->
  never_issues s nonce tr ->
  let r' := run (RecordProof t s token nonce spki protocol r).1 tr in
  forall t' token' spki' protocol',
    ChallengeMatches t' s token' nonce r' = false /\
    (RecordProof t' s token' nonce spki' protocol' r').2 = false.
Proof.
  intros Hok Hni r' t' token' spki' protocol'.
  pose proof Hok as Hacc. apply RecordProof_accepted in Hacc as (e0 & He0 & _ & _ & Hne & Hn & _).
  pose proof (spent_nonce r t s token nonce spki protocol tr Hok Hni) as Hspent. fold r' in Hspent.
  split.
  - unfold ChallengeMatches. destruct (entries r' !! s) as [e|] eqn:He; [|done].
    repeat case_match; try done. apply not_true_iff_false. rewrite nonceMatches_spec.
    intros [_ Heq]. by apply (Hspent e).
  - apply not_true_iff_false. rewrite RecordProof_accepted.
    intros (e & He & _ & _ & _ & Heq & _). by apply (Hspent e).
Qed.

Lemma challenge_single_use_witness :
  let r := run (New true) (take 2 demo_history) in
  let r' := run (RecordProof (2 * Hour) "acme" "tok-1" "nonce-1" "spki-1" "v1" r).1
              [(3 * Hour, OpIssueChallenge (Some "nonce-2") "acme" "tok-1")] in
  ChallengeMatches (3 * Hour) "acme" "tok-1" "nonce-1" r' = false /\
  (RecordProof (3 * Hour) "acme" "tok-1" "nonce-1" "spki-2" "v1" r').2 = false.
Proof.
  apply (challenge_single_use (run (New true) (take 2 demo_history)) (2 * Hour) "acme" "tok-1"
           "nonce-1" "spki-1" "v1" [(3 * Hour, OpIssueChallenge (Some "nonce-2") "acme" "tok-1")]).
  - vm_compute. reflexivity.
  - apply Forall_cons_2; [intros token; discriminate|apply Forall_nil_2].
Defined.

(** [Cleanup] only forgets what no longer counts. A label that [Cleanup]
    keeps has the same accepted fingerprints at every later moment as without
    the cleanup, and a label it removes was releasable. *)
Theorem cleanup_preserves_pins (r : Registry) (now now' : Time) (s : string) :
  now <= now' ->
  let r' := (Cleanup now r).1 in
  (is_Some (entries r' !! s) -> PinState now' s r' = PinState now' s r) /\
  (entries r' !! s = None ->
   forall e, entries r !! s = Some e -> isReleasableLocked r now e = true).
Proof.
  intros Hle r'. unfold r', PinState. rewrite Cleanup_lookup.
  destruct (entries r !! s) as [e|] eqn:He; [|split; [by intros [? [=]]|done]].
  destruct (cleanup_entry r now e) as [[e' b]|] eqn:Hc; simpl.
  - split; [intros _|done]. unfold cleanup_entry in Hc.
    destruct (isReleasableLocked r now e); [done|].
    assert (Hlt : forall u d, d < Sub now u -> (Sub now' u <=? d) = false).
    { intros u d Hd. pose proof (Sub_mono now now' u Hle). apply Z.leb_gt. lia. }
    injection Hc as <- <-.
    destruct (PendingFingerprint e =? "")%string eqn:Hp; simpl;
      [|destruct (pendingPinTTL <? Sub now (PendingSince e)) eqn:Hx; simpl];
      (destruct (PrevFingerprint e =? "")%string eqn:Hq; simpl;
        [|destruct (prevPinTTL <? Sub now (PrevSince e)) eqn:Hy; simpl]);
      rewrite ?Hp, ?Hq; simpl; bool_to_prop; try rewrite (Hlt _ _ Hx); try rewrite (Hlt _ _ Hy); try done.
  - split; [by intros [? [=]]|]. intros _ e1 [= <-]. unfold cleanup_entry in Hc.
    by destruct (isReleasableLocked r now e).
Qed.

Lemma cleanup_preserves_pins_witness :
  let r' := (Cleanup (30 * Hour) demo_registry).1 in
  (is_Some (entries r' !! "acme") ->
   PinState (31 * Hour) "acme" r' = PinState (31 * Hour) "acme" demo_registry) /\
  (entries r' !! "acme" = None ->
   forall e, entries demo_registry !! "acme" = Some e ->
     isReleasableLocked demo_registry (30 * Hour) e = true).
Proof. apply (cleanup_preserves_pins demo_registry). vm_compute. discriminate. Defined.

(** The cutover audit is exact. The summary of unproven registrations
    reports none exactly when every registration that is looked up successfully
    is routable, so it never reads zero while an entry would be refused. *)
Theorem unproven_audit (now : Time) (r : Registry) :
  (UnprovenSummary now r).1 = 0%nat <->
  forall s e, Lookup now s r = Some e -> Routable now s r = true.
Proof.
  unfold UnprovenSummary. rewrite summarise_zero. unfold Lookup, Routable. split.
  - intros H s e. destruct (entries r !! s) as [e1|] eqn:He; [|done].
    specialize (H s e1 He). destruct (isExpiredLocked r now e1); [done|]. auto.
  - intros H s e He. specialize (H s e). rewrite He in H.
    destruct (isExpiredLocked r now e); simpl in *; auto.
Qed.

(** What a renewal and a move do to routing. The token holder's renewal of
    a live label keeps it routable; the renewal of a lapsed label and a move to
    another address leave it held by the token at the requested address, with its
    serving history, but not routable at any time, and a move also returns the
    label to unpinned. *)
Theorem register_suspends_or_keeps (now : Time) (fresh : option string) (s ip token : string)
    (r : Registry) (e : Entry) :
  entries r !! s = Some e -> tokenMatches e token = true -> isReleasableLocked r now e = false ->
  0 <= InactivityTTL r ->
  let '(r', outcome, res) := Register now fresh s ip token r in
  (exists e', res = Ok e' /\ entries r' !! s = Some e' /\ IP e' = ip /\ LastSeen e' = now /\
     FirstProvenAt e' = FirstProvenAt e) /\
  HeldBy s token r' = true /\
  (outcome = Renewed /\ isExpiredLocked r now e = false /\ Routable now s r' = Routable now s r \/
   outcome = Renewed /\ isExpiredLocked r now e = true /\ (forall t, Routable t s r' = false) \/
   outcome = Moved /\ (forall t, Routable t s r' = false) /\
     forall t, PinState t s r' = mkPinState "" "" "" zero_time).
Proof.
  intros He Ht Hr Hpos. rewrite (Register_held _ _ _ _ _ _ _ He Hr), Ht. simpl.
  destruct (IP e =? ip)%string eqn:Hip; simpl.
  - apply String.eqb_eq in Hip as <-. destruct (isExpiredLocked r now e) eqn:Hx.
    + split; [eexists; split; [done|]; rewrite lookup_insert_eq; done|].
      split; [unfold HeldBy; simpl; rewrite lookup_insert_eq; done|].
      right. left. split_and!; try done. intros t. unfold Routable. simpl.
      rewrite lookup_insert_eq. by case_match.
    + split; [eexists; split; [done|]; rewrite lookup_insert_eq; done|].
      split; [unfold HeldBy; simpl; rewrite lookup_insert_eq; done|].
      left. split_and!; try done. unfold Routable. simpl. rewrite lookup_insert_eq, He, Hx.
      assert (Hl : isExpiredLocked (set_dirty true (put s (set_LastSeen now e) r)) now
                     (set_LastSeen now e) = false).
      { rewrite (isExpired_config r) by done. revert Hx.
        unfold isExpiredLocked, lapsedAtLocked, After, Add. simpl.
        destruct (Z.ltb_spec (now + InactivityTTL r) now); [lia|].
        by destruct (Z.ltb_spec (LastSeen e + InactivityTTL r) now). }
      by rewrite Hl.
  - split; [eexists; split; [done|]; rewrite lookup_insert_eq; done|].
    split; [unfold HeldBy; simpl; rewrite lookup_insert_eq; done|].
    right. right. split_and!; try done; intros t.
    + unfold Routable. simpl. rewrite lookup_insert_eq. by case_match.
    + unfold PinState. simpl. by rewrite lookup_insert_eq.
Qed.

Lemma register_suspends_or_keeps_witness :
  let '(r', outcome, res) :=
    Register (6 * Hour) None "acme" "203.0.113.77" "tok-1" demo_registry in
  (exists e', res = Ok e' /\ entries r' !! "acme" = Some e' /\ IP e' = "203.0.113.77" /\
     LastSeen e' = 6 * Hour /\ FirstProvenAt e' = FirstProvenAt demo_entry) /\
  HeldBy "acme" "tok-1" r' = true /\
  (outcome = Renewed /\ isExpiredLocked demo_registry (6 * Hour) demo_entry = false /\
     Routable (6 * Hour) "acme" r' = Routable (6 * Hour) "acme" demo_registry \/
   outcome = Renewed /\ isExpiredLocked demo_registry (6 * Hour) demo_entry = true /\
     (forall t, Routable t "acme" r' = false) \/
   outcome = Moved /\ (forall t, Routable t "acme" r' = false) /\
     forall t, PinState t "acme" r' = mkPinState "" "" "" zero_time).
Proof.
  apply (register_suspends_or_keeps (6 * Hour) None "acme" "203.0.113.77" "tok-1" demo_registry
           demo_entry); [vm_compute; reflexivity ..|vm_compute; discriminate].
Defined.

(** A deliberate release bypasses the tombstone. After the holder
    deregisters a label, the label and its token are gone, every other
    registration is untouched, and anyone can register the label at once; the
    new registration answers to the new token and is not routable. *)
Theorem deregistered_label_is_free (r : Registry) (token s : string) :
  registry_wf r -> (Deregister token r).2 = Some s ->
  let r' := (Deregister token r).1 in
  HeldBy s token r = true /\ entries r' = delete s (entries r) /\
  tokens r' !! hashToken token = None /\ registry_wf r' /\
  forall now fresh ip token', fresh <> "" ->
    let '(r2, outcome, res) := Register now (Some fresh) s ip token' r' in
    outcome = Created /\ res = Ok (new_entry now s ip fresh) /\
    HeldBy s fresh r2 = true /\ (forall t, Routable t s r2 = false).
Proof.
  intros Hwf Hs. unfold Deregister in *.
  destruct (tokens r !! hashToken token) as [s'|] eqn:Htok; [|done].
  destruct (token =? "")%string eqn:Hempty; [done|].
  destruct (entries r !! s') as [e|] eqn:He; [|done].
  destruct (tokenMatches e token) eqn:Ht; [|done]. simpl in Hs. injection Hs as ->. simpl.
  assert (Hh : TokenHash e = hashToken token) by (by apply tokenMatches_spec in Ht as [_ ?]).
  split_and!.
  - unfold HeldBy. by rewrite He.
  - done.
  - by rewrite lookup_delete_eq.
  - rewrite <- Hh. apply (wf_dirty _ true), wf_drop; done.
  - intros now fresh ip token' Hne. rewrite Register_free.
    + simpl. split_and!; try done.
      * unfold HeldBy. simpl. rewrite lookup_insert_eq. apply tokenMatches_spec. done.
      * intros t. unfold Routable. simpl. rewrite lookup_insert_eq. by case_match.
    + intros e1. simpl. by rewrite lookup_delete_eq.
Qed.

Lemma deregistered_label_is_free_witness :
  let r := step (1 * Hour) (OpRegister (Some "tok-1") "acme" "203.0.113.10" "") (New true) in
  let r' := (Deregister "tok-1" r).1 in
  HeldBy "acme" "tok-1" r = true /\ entries r' = delete "acme" (entries r) /\
  tokens r' !! hashToken "tok-1" = None /\ registry_wf r' /\
  forall now fresh ip token', fresh <> "" ->
    let '(r2, outcome, res) := Register now (Some fresh) "acme" ip token' r' in
    outcome = Created /\ res = Ok (new_entry now "acme" ip fresh) /\
    HeldBy "acme" fresh r2 = true /\ (forall t, Routable t "acme" r2 = false).
Proof.
  apply (deregistered_label_is_free
           (step (1 * Hour) (OpRegister (Some "tok-1") "acme" "203.0.113.10" "") (New true))
           "tok-1" "acme").
  - apply registry_wf_step; [reflexivity|apply wf_new|reflexivity].
  - vm_compute. reflexivity.
Defined.
