(* ===== verification/RegistryStore.v ===== *)
(** * Persistence of the gateway registry
    ([src/gateway/internal/registry/store.go]).

    A snapshot file holds the entries by value; the JSON form leaves out the
    plaintext token, so writing and reading a snapshot is the identity up to that
    field. The file system is a map from file names to contents, and every call
    that can fail takes its failure from the [fault] argument. *)

From Stdlib Require Import Ascii.
From stdpp Require Import base tactics numbers list option strings gmap.
From S2P Require Import Prelude GoStd Sha256 Registry RegistryFacts.

(** ** Files. *)

(** [valueSnapshot]: the entries, with the field excluded from JSON erased. *)
Definition valueSnapshot : Type := list Entry.

Inductive FileContent :=
| Snapshot (snap : valueSnapshot)
| Torn.

Abbreviation FileSystem := (gmap string FileContent).

(** The calls of [saveLocked] that can fail. *)
Inductive SaveStep := StepMkdir | StepCreateTemp | StepWrite | StepClose | StepRename.

#[export] Instance SaveStep_eq_dec : EqDecision SaveStep.
Proof. solve_decision. Defined.

Definition snapshot (r : Registry) : valueSnapshot :=
  (fun kv => erase_Token kv.2) <$> map_to_list (entries r).

(** ** [saveLocked]. *)

(** The states of the file system while [saveLocked] runs, oldest first; a crash
    leaves one of them behind. The last one is the state on return: the deferred
    removal drops the temporary file on every path. *)
Definition save_states (path tmp : string) (fault : option SaveStep) (r : Registry)
    (fs : FileSystem) : list FileSystem :=
  let created := <[tmp := Torn]> fs in
  let written := <[tmp := Snapshot (snapshot r)]> fs in
  let renamed := <[path := Snapshot (snapshot r)]> (delete tmp fs) in
  match fault with
  | Some StepMkdir | Some StepCreateTemp => [fs]
  | Some StepWrite => [fs; created; delete tmp created]
  | Some StepClose | Some StepRename => [fs; created; written; delete tmp written]
  | None => [fs; created; written; renamed]
  end.

Definition saveLocked (path tmp : string) (fault : option SaveStep) (r : Registry)
    (fs : FileSystem) : FileSystem * result SaveStep unit :=
  (default fs (last (save_states path tmp fault r fs)),
   match fault with Some f => Err f | None => Ok tt end).

(** ** [RegisterDurably] and [FlushIfDirty]. *)

Inductive DurableError :=
| DurableRegister (e : RegisterError)
| ErrNotRecorded (save : SaveStep) (withdrawn : bool).

Definition RegisterDurably (now : Time) (newToken : option string)
    (subdomain ip token path tmp : string) (fault : option SaveStep)
    (r : Registry) (fs : FileSystem) :
    Registry * FileSystem * Outcome * result DurableError Entry :=
  let '(r1, outcome, res) := Register now newToken subdomain ip token r in
  match res, outcome with
  | Err e, _ => (r1, fs, outcome, Err (DurableRegister e))
  | Ok entry, Created =>
      let '(fs1, saved) := saveLocked path tmp fault r1 fs in
      match saved with
      | Ok _ => (r1, fs1, outcome, Ok entry)
      | Err serr =>
          let '(r2, withdrawn) := Deregister (Token entry) r1 in
          (r2, fs1, outcome, Err (ErrNotRecorded serr (bool_decide (is_Some withdrawn))))
      end
  | Ok entry, _ => (r1, fs, outcome, Ok entry)
  end.

(** The sequential [FlushIfDirty]: whether a write happened, or its failure. *)
Definition FlushIfDirty (path tmp : string) (fault : option SaveStep) (r : Registry)
    (fs : FileSystem) : Registry * FileSystem * result SaveStep bool :=
  if negb (dirty r) then (r, fs, Ok false)
  else
    let cleared := set_dirty false r in
    let '(fs1, saved) := saveLocked path tmp fault cleared fs in
    match saved with
    | Ok _ => (cleared, fs1, Ok true)
    | Err e => (set_dirty true cleared, fs1, Err e)
    end.

(** ** [Prune], [PruneEntries] and [FlagEntries]. *)

Definition PruneEntries (drop : Entry -> bool) (r : Registry) : Registry * nat :=
  foldl (fun acc kv =>
           let '(r, removed) := (acc : Registry * nat) in
           if drop kv.2 then (drop_entry kv.1 (TokenHash kv.2) r, S removed)
           else (r, removed))
    (r, 0%nat) (map_to_list (entries r)).

Definition Prune (keep : string -> bool) (r : Registry) : Registry * nat :=
  PruneEntries (fun entry => negb (keep (IP entry))) r.

Definition FlagEntries (report : Entry -> bool) (r : Registry) : list string :=
  Strings (fst <$> filter (fun kv => report kv.2 = true) (map_to_list (entries r))).

(** ** [LoadFrom]. *)

(** The migrations of one stored entry, and whether one applied. *)
Definition migrate_entry (entry : Entry) : Entry * bool :=
  let backfill :=
    IsZero (FirstProvenAt entry) && negb (IsZero (ProvenAt entry))
    && negb (ProofKeySPKI entry =? "")%string in
  let e1 := if backfill then set_FirstProvenAt (ProvenAt entry) entry else entry in
  let plain := negb (HasPrefix (TokenHash e1) tokenHashPrefix) in
  let e2 := if plain then set_TokenHash (hashToken (TokenHash e1)) e1 else e1 in
  (e2, backfill || plain).

Definition load_step (acc : Registry * bool) (stored : Entry) : Registry * bool :=
  let '(r, migrated) := acc in
  let '(entry, changed) := migrate_entry stored in
  (set_maps (<[Subdomain entry := entry]> (entries r))
     (<[TokenHash entry := Subdomain entry]> (tokens r)) r, migrated || changed).

Inductive LoadError := ErrReading | ErrParsing.

Definition LoadFrom (path : string) (readable : bool) (fs : FileSystem) (r : Registry) :
    Registry * result LoadError unit :=
  match fs !! path with
  | None => (r, Ok tt)
  | Some content =>
      if negb readable then (r, Err ErrReading)
      else match content with
           | Torn => (r, Err ErrParsing)
           | Snapshot snap =>
               let '(r1, migrated) := foldl load_step (set_maps ∅ ∅ r, false) snap in
               (set_dirty migrated r1, Ok tt)
           end
  end.

(** ** A flush among concurrent critical sections.

    [FlushIfDirty] clears the flag under the mutex, [saveLocked] takes its
    snapshot under it later, and the write ends outside it; other critical
    sections run in between. *)
Inductive FlushPhase := Idle | Cleared | Writing (snap : valueSnapshot).

Record FlushState := mkFlushState {
  registry : Registry;
  disk : valueSnapshot;
  phase : FlushPhase
}.

Inductive flush_step : FlushState -> FlushState -> Prop :=
| fl_op r d ph now o :
    flush_step (mkFlushState r d ph) (mkFlushState (step now o r) d ph)
| fl_start r d :
    dirty r = true -> flush_step (mkFlushState r d Idle) (mkFlushState (set_dirty false r) d Cleared)
| fl_snapshot r d :
    flush_step (mkFlushState r d Cleared) (mkFlushState r d (Writing (snapshot r)))
| fl_written r d snap :
    flush_step (mkFlushState r d (Writing snap)) (mkFlushState r snap Idle)
| fl_failed r d ph :
    ph <> Idle -> flush_step (mkFlushState r d ph) (mkFlushState (set_dirty true r) d Idle).

(** A registry with one label, to evaluate the operations on. *)
Definition demo_saved : Registry :=
  step (1 * Hour) (OpRegister (Some "tok-1") "acme" "203.0.113.10" "") (New true).

(** ** Lemmas. *)

Lemma demo_saved_wf : registry_wf demo_saved.
Proof. apply registry_wf_step; [reflexivity|apply wf_new|reflexivity]. Qed.

Lemma elem_of_snapshot (r : Registry) (e : Entry) :
  e ∈ snapshot r <-> exists s e0, entries r !! s = Some e0 /\ e = erase_Token e0.
Proof.
  unfold snapshot. rewrite list_elem_of_fmap. split.
  - intros ([s e0] & -> & Hin). exists s, e0. split; [by apply elem_of_map_to_list|done].
  - intros (s & e0 & He & ->). exists (s, e0). split; [done|by apply elem_of_map_to_list].
Qed.

(** Every critical section that changes an entry marks the registry dirty. *)
Lemma step_dirty (r : Registry) (now : Time) (o : op) :
  dirty (step now o r) = true \/
  (dirty (step now o r) = dirty r /\
   forall s e, entries (step now o r) !! s = Some e -> entries r !! s = Some e).
Proof.
  destruct o as [fresh k ip token|token|token| |k token fp|k token fp|k token fp|k observed
                |fresh k token|k token nonce spki protocol]; simpl.
  - destruct (Register_cases now k r) as [(e & He & Hr)|Hr].
    + rewrite (Register_held _ _ _ _ _ _ _ He Hr). repeat (case_match; simpl); auto.
    + rewrite (Register_free _ _ _ _ _ _ Hr). destruct fresh; simpl; [by left|right].
      unfold without_spent. destruct (entries r !! k) eqn:He; [|auto].
      case_match; [|auto]. simpl. split; [done|]. intros s e0.
      rewrite lookup_delete. by case_decide.
  - unfold Deregister. repeat (case_match; simpl); auto.
  - unfold Ping. repeat (case_match; simpl); auto.
  - apply (Cleanup_ind now (fun r' => dirty r' = true \/ (dirty r' = dirty r /\
      forall s e, entries r' !! s = Some e -> entries r !! s = Some e))); [| |auto].
    + intros r1 k e e' b Hr He Hc. simpl.
      destruct Hr as [->|[-> Hr]]; [by left|].
      destruct b; [left; by rewrite orb_true_r|right; rewrite orb_false_r; split; [done|]].
      assert (e' = e) as ->.
      { unfold cleanup_entry in Hc. by repeat (case_match; simplify_eq/=). }
      intros s e0. rewrite lookup_insert. case_decide; [subst|auto]. intros [= <-]. auto.
    + intros r1 k e Hr He Hc. simpl. destruct Hr as [->|[-> Hr]]; [by left|].
      right. split; [done|]. intros s e0. rewrite lookup_delete. case_decide; [done|auto].
  - unfold AssertPin. repeat (case_match; simpl); auto.
  - unfold ActivatePin, activate. repeat (case_match; simpl); auto.
    destruct (dirty r); [by left|]. destruct b; [by left|]. right. split; [done|].
    intros s e1. rewrite lookup_insert. case_decide; [subst|auto]. intros [= <-].
    unfold activateLocked in *. repeat (case_match; simplify_eq/=); congruence.
  - unfold StorePendingPin. repeat (case_match; simpl); auto.
  - unfold PromoteOnObserve, activate. repeat (case_match; simpl); auto.
    destruct (dirty r); [by left|]. destruct b; [by left|]. right. split; [done|].
    intros s e1. rewrite lookup_insert. case_decide; [subst|auto]. intros [= <-].
    unfold activateLocked in *. repeat (case_match; simplify_eq/=); congruence.
  - unfold IssueChallenge. repeat (case_match; simpl); auto.
  - rewrite RecordProof_state. case_match; [|auto]. case_match; auto.
Qed.


Lemma migrate_entry_id (e : Entry) :
  HasPrefix (TokenHash e) tokenHashPrefix = true ->
  (IsZero (FirstProvenAt e) = true -> everProvenLocked e = false) ->
  migrate_entry e = (e, false).
Proof.
  intros Hh Hp. unfold migrate_entry.
  assert (Hb : IsZero (FirstProvenAt e) && negb (IsZero (ProvenAt e))
               && negb (ProofKeySPKI e =? "")%string = false).
  { destruct (IsZero (FirstProvenAt e)); [|done]. rewrite <- andb_assoc.
    by apply Hp. }
  rewrite Hb, Hh. done.
Qed.

(** [LoadFrom] on entries that need no migration. *)
Section LoadLoop.

Lemma load_step_clean (r : Registry) (m : bool) (e : Entry) :
  migrate_entry e = (e, false) ->
  load_step (r, m) e =
    (set_maps (<[Subdomain e := e]> (entries r)) (<[TokenHash e := Subdomain e]> (tokens r)) r, m).
Proof. intros H. unfold load_step. rewrite H. by rewrite orb_false_r. Qed.

Lemma load_fold_flag (l : list Entry) (r : Registry) (m : bool) :
  Forall (fun e => migrate_entry e = (e, false)) l ->
  (foldl load_step (r, m) l).2 = m /\ same_config r (foldl load_step (r, m) l).1.
Proof.
  intros Hl. revert r. induction Hl as [|e l He _ IH]; intros r; [done|].
  cbn [foldl]. rewrite load_step_clean by done. apply (IH (set_maps _ _ r)).
Qed.

Lemma load_fold_entries (l : list Entry) (r : Registry) (m : bool) (s : string) (e : Entry) :
  Forall (fun e => migrate_entry e = (e, false)) l -> NoDup (Subdomain <$> l) ->
  entries (foldl load_step (r, m) l).1 !! s = Some e <->
  (e ∈ l /\ Subdomain e = s) \/ ((s ∉ (Subdomain <$> l)) /\ entries r !! s = Some e).
Proof.
  intros Hl. revert r. induction Hl as [|e1 l He1 _ IH]; intros r Hnd.
  { simpl. rewrite !elem_of_nil. naive_solver. }
  cbn [fmap list_fmap] in Hnd. apply NoDup_cons in Hnd as [Hn Hnd].
  cbn [foldl]. rewrite load_step_clean, IH by done. cbn [fmap list_fmap]. simpl.
  rewrite !elem_of_cons, lookup_insert.
  assert (Hin : e ∈ l -> Subdomain e ∈ (Subdomain <$> l)) by (intros; by apply list_elem_of_fmap_2).
  case_decide as Hs; [subst s|]; split.
  - intros [[H1 H2]|[H1 [= ->]]]; [|left; auto]. rewrite H2 in Hin. tauto.
  - intros [[[->|H1] H2]|[H1 H2]]; [by right| |tauto]. rewrite H2 in Hin. tauto.
  - intros [[H1 H2]|[H1 H2]]; [tauto|]. right. split; [|done]. intros [?|?]; [congruence|tauto].
  - intros [[[->|H1] H2]|[H1 H2]]; [congruence|tauto|tauto].
Qed.

Lemma load_fold_tokens (l : list Entry) (r : Registry) (m : bool) (h s : string) :
  Forall (fun e => migrate_entry e = (e, false)) l -> NoDup (TokenHash <$> l) ->
  tokens (foldl load_step (r, m) l).1 !! h = Some s <->
  (exists e, e ∈ l /\ TokenHash e = h /\ Subdomain e = s) \/
  ((h ∉ (TokenHash <$> l)) /\ tokens r !! h = Some s).
Proof.
  intros Hl. revert r. induction Hl as [|e1 l He1 _ IH]; intros r Hnd.
  { simpl. setoid_rewrite elem_of_nil. naive_solver. }
  cbn [fmap list_fmap] in Hnd. apply NoDup_cons in Hnd as [Hn Hnd].
  cbn [foldl]. rewrite load_step_clean, IH by done. cbn [fmap list_fmap]. simpl.
  setoid_rewrite elem_of_cons. rewrite lookup_insert.
  assert (Hin : forall e, e ∈ l -> TokenHash e ∈ (TokenHash <$> l))
    by (intros; by apply list_elem_of_fmap_2).
  case_decide as Hh; [subst h|]; split.
  - intros [(e & H1 & H2 & H3)|[H1 [= <-]]]; [|eauto 6]. specialize (Hin e H1). congruence.
  - intros [(e & [->|H1] & H2 & H3)|[H1 H2]]; [naive_solver| |tauto].
    specialize (Hin e H1). congruence.
  - intros [(e & H1 & H2 & H3)|[H1 H2]]; [eauto 7|]. right. split; [|done].
    intros [?|?]; [congruence|tauto].
  - intros [(e & [->|H1] & H2 & H3)|[H1 H2]]; [congruence|eauto 6|tauto].
Qed.
End LoadLoop.

(** The snapshot of a well-formed registry needs no migration, and neither its
    labels nor its token hashes repeat. *)
Lemma snapshot_clean (r : Registry) :
  registry_wf r -> Forall (fun e => migrate_entry e = (e, false)) (snapshot r).
Proof.
  intros Hwf. apply Forall_forall. intros e He.
  apply elem_of_snapshot in He as (s & e0 & He0 & ->).
  apply migrate_entry_id; [apply (wf_hashed r Hwf s e0 He0)|apply (wf_proven r Hwf s e0 He0)].
Qed.

Lemma snapshot_NoDup (r : Registry) (f : Entry -> string) :
  (forall e, f (erase_Token e) = f e) ->
  (forall s1 s2 e1 e2, entries r !! s1 = Some e1 -> entries r !! s2 = Some e2 ->
     f e1 = f e2 -> s1 = s2) ->
  NoDup (f <$> snapshot r).
Proof.
  intros Hf Hinj. unfold snapshot. rewrite <- list_fmap_compose.
  apply NoDup_fmap_2_strong; [|apply NoDup_map_to_list].
  intros [s1 e1] [s2 e2] H1 H2. apply elem_of_map_to_list in H1, H2. simpl.
  rewrite !Hf. intros Heq. pose proof (Hinj _ _ _ _ H1 H2 Heq) as ->. congruence.
Qed.

Lemma snapshot_labels (r : Registry) : registry_wf r -> NoDup (Subdomain <$> snapshot r).
Proof.
  intros Hwf. apply snapshot_NoDup; [done|]. intros s1 s2 e1 e2 H1 H2 Heq.
  destruct (wf_entry r Hwf _ _ H1) as [<- _]. destruct (wf_entry r Hwf _ _ H2) as [<- _]. done.
Qed.

Lemma snapshot_hashes (r : Registry) : registry_wf r -> NoDup (TokenHash <$> snapshot r).
Proof.
  intros Hwf. apply snapshot_NoDup; [done|]. intros s1 s2 e1 e2 H1 H2 Heq.
  destruct (wf_entry r Hwf _ _ H1) as [_ Ht1]. destruct (wf_entry r Hwf _ _ H2) as [_ Ht2].
  congruence.
Qed.

Lemma load_snapshot (r r0 : Registry) :
  registry_wf r ->
  let r' := (foldl load_step (set_maps ∅ ∅ r0, false) (snapshot r)).1 in
  entries r' = erase_Token <$> entries r /\ tokens r' = tokens r.
Proof.
  intros Hwf r'. pose proof (snapshot_clean r Hwf) as Hc. split; apply map_eq.
  - intros s. apply option_eq. intros e. unfold r'.
    rewrite load_fold_entries by auto using snapshot_labels.
    simpl. rewrite lookup_empty, elem_of_snapshot, lookup_fmap, fmap_Some. split.
    + intros [[(s' & e0 & He & ->) Hs]|[_ [=]]]. exists e0. split; [|done].
      destruct (wf_entry r Hwf _ _ He) as [Hs' _]. simpl in Hs. congruence.
    + intros (e0 & He & ->). left. destruct (wf_entry r Hwf _ _ He) as [Hs' _]. eauto.
  - intros h. apply option_eq. intros s. unfold r'.
    rewrite load_fold_tokens by auto using snapshot_hashes.
    simpl. rewrite lookup_empty. setoid_rewrite elem_of_snapshot. split.
    + intros [(e & (s' & e0 & He & ->) & <- & <-)|[_ [=]]]. simpl.
      destruct (wf_entry r Hwf _ _ He) as [-> Ht]. done.
    + intros Ht. destruct (wf_token r Hwf h s Ht) as (e0 & He & Hh). left.
      destruct (wf_entry r Hwf _ _ He) as [Hs _]. exists (erase_Token e0). simpl. eauto 6.
Qed.

Lemma fs_after_save (path tmp : string) (fault : option SaveStep) (r : Registry) (fs : FileSystem) :
  fs !! tmp = None -> path <> tmp ->
  (saveLocked path tmp fault r fs).1 =
    match fault with
    | None => <[path := Snapshot (snapshot r)]> fs
    | Some _ => fs
    end.
Proof.
  intros Ht Hne. unfold saveLocked, save_states.
  assert (Hd : forall c, delete tmp (<[tmp := c]> fs) = fs) by (intros c; by apply delete_insert_id).
  assert (Hd' : delete tmp fs = fs) by (by apply delete_id).
  destruct fault as [[]|]; simpl; rewrite ?Hd, ?Hd'; done.
Qed.

(** ** Properties. *)

(** Saving is atomic. Whatever call fails, and whichever moment a crash
    interrupts [saveLocked], the registry file holds either its old content or
    the complete new snapshot; a reported success means the new snapshot is in
    place, a reported failure leaves the directory as it was. *)
Theorem save_is_atomic (path tmp : string) (fault : option SaveStep) (r : Registry)
    (fs : FileSystem) :
  fs !! tmp = None -> path <> tmp ->
  (forall fs', fs' ∈ save_states path tmp fault r fs ->
     fs' !! path = fs !! path \/ fs' !! path = Some (Snapshot (snapshot r))) /\
  match saveLocked path tmp fault r fs with
  | (fs', Ok _) => fs' = <[path := Snapshot (snapshot r)]> fs
  | (fs', Err _) => fs' = fs
  end.
Proof.
  intros Ht Hne. split.
  - intros fs' Hin. unfold save_states in Hin.
    destruct fault as [[]|]; rewrite !elem_of_cons, elem_of_nil in Hin;
      destruct_or?; subst; try done; simplify_map_eq; auto.
  - pose proof (fs_after_save path tmp fault r fs Ht Hne) as H.
    destruct (saveLocked path tmp fault r fs) as [fs' res] eqn:Hs.
    unfold saveLocked in Hs. simpl in H. by destruct fault; simplify_eq.
Qed.

Lemma save_is_atomic_witness :
  let fs : FileSystem := {["/data/registry.json" := Snapshot []]} in
  (forall fs', fs' ∈ save_states "/data/registry.json" "/data/registry-1.tmp" (Some StepRename)
                       demo_saved fs ->
     fs' !! "/data/registry.json" = fs !! "/data/registry.json" \/
     fs' !! "/data/registry.json" = Some (Snapshot (snapshot demo_saved))) /\
  match saveLocked "/data/registry.json" "/data/registry-1.tmp" (Some StepRename) demo_saved fs with
  | (fs', Ok _) => fs' = <["/data/registry.json" := Snapshot (snapshot demo_saved)]> fs
  | (fs', Err _) => fs' = fs
  end.
Proof. apply save_is_atomic; [reflexivity|discriminate]. Defined.

(** A restart loses nothing but the plaintext tokens. Loading the file that
    a successful save of a well-formed registry wrote gives back the same labels
    with the same records, the same token index, and a registry that needs no
    rewrite; every token still authenticates the same label. *)
Theorem restart_roundtrip (path tmp : string) (r r0 : Registry) (fs : FileSystem) :
  registry_wf r -> fs !! tmp = None -> path <> tmp ->
  let fs' := (saveLocked path tmp None r fs).1 in
  let '(r', res) := LoadFrom path true fs' r0 in
  res = Ok tt /\ entries r' = erase_Token <$> entries r /\ tokens r' = tokens r /\
  dirty r' = false /\ (forall s token, HeldBy s token r' = HeldBy s token r).
Proof.
  intros Hwf Ht Hne. cbv zeta. rewrite fs_after_save by done. unfold LoadFrom.
  rewrite lookup_insert_eq. simpl.
  pose proof (load_snapshot r r0 Hwf) as [He Htok].
  pose proof (load_fold_flag (snapshot r) (set_maps ∅ ∅ r0) false (snapshot_clean r Hwf)) as [Hm _].
  destruct (foldl load_step (set_maps ∅ ∅ r0, false) (snapshot r)) as [r1 m]. simpl in *.
  split_and!; try done. intros s token. unfold HeldBy. simpl. rewrite He, lookup_fmap.
  by destruct (entries r !! s).
Qed.

Lemma restart_roundtrip_witness :
  let fs' := (saveLocked "/r.json" "/r.tmp" None demo_saved ∅).1 in
  let '(r', res) := LoadFrom "/r.json" true fs' (New true) in
  res = Ok tt /\ entries r' = erase_Token <$> entries demo_saved /\
  tokens r' = tokens demo_saved /\ dirty r' = false /\
  (forall s token, HeldBy s token r' = HeldBy s token demo_saved).
Proof.
  apply (restart_roundtrip "/r.json" "/r.tmp" demo_saved (New true) ∅);
    [apply demo_saved_wf|reflexivity|discriminate].
Defined.

(** C26: a durable registration is on disk or withdrawn. When a new label is
    registered durably, success means that a restart finds it held by the
    returned token; a failed save leaves the file as it was and the registry
    without the label and without the token, every other registration kept. *)
Theorem register_durably_all_or_nothing (now : Time) (fresh subdomain ip token path tmp : string)
    (fault : option SaveStep) (r r0 : Registry) (fs : FileSystem) :
  registry_wf r -> fresh <> "" -> tokens r !! hashToken fresh = None ->
  (forall e, entries r !! subdomain = Some e -> isReleasableLocked r now e = true) ->
  fs !! tmp = None -> path <> tmp ->
  let '(r', fs', outcome, res) :=
    RegisterDurably now (Some fresh) subdomain ip token path tmp fault r fs in
  outcome = Created /\
  match res with
  | Ok e => fault = None /\ e = new_entry now subdomain ip fresh /\
      HeldBy subdomain fresh (LoadFrom path true fs' r0).1 = true
  | Err (ErrNotRecorded f withdrawn) =>
      fault = Some f /\ withdrawn = true /\ fs' = fs /\
      entries r' = delete subdomain (entries r) /\ tokens r' !! hashToken fresh = None
  | Err (DurableRegister _) => False
  end.
Proof.
  intros Hwf Hne Hf Hr Ht Hpt. unfold RegisterDurably. rewrite (Register_free _ _ _ _ _ _ Hr).
  set (r1 := set_dirty true _).
  assert (Hwf1 : registry_wf r1).
  { apply wf_dirty, wf_register_free; auto using without_spent_wf, without_spent_token.
    rewrite (without_spent_lookup _ _ _ _ Hr). by rewrite decide_True. }
  assert (He1 : entries r1 !! subdomain = Some (new_entry now subdomain ip fresh))
    by (simpl; by rewrite lookup_insert_eq).
  pose proof (fs_after_save path tmp fault r1 fs Ht Hpt) as Hfs.
  destruct (saveLocked path tmp fault r1 fs) as [fs1 saved] eqn:Hs.
  unfold saveLocked in Hs. simpl in Hfs. destruct fault as [f|]; simplify_eq.
  - unfold Deregister. cbn [Token new_entry]. replace (tokens r1 !! hashToken fresh) with (Some subdomain)
      by (simpl; by rewrite lookup_insert_eq).
    rewrite He1. destruct (String.eqb_spec fresh "") as [->|_]; [done|].
    rewrite (proj2 (tokenMatches_spec _ _)) by done.
    split_and!; try done.
    + apply map_eq. intros k. simpl. rewrite !lookup_delete, lookup_insert.
      rewrite (without_spent_lookup _ _ _ _ Hr). by repeat case_decide.
    + simpl. by rewrite lookup_delete_eq.
  - split_and!; try done. unfold LoadFrom. rewrite lookup_insert_eq. simpl.
    pose proof (load_snapshot r1 r0 Hwf1) as [He _].
    destruct (foldl load_step (set_maps ∅ ∅ r0, false) (snapshot r1)) as [r2 m].
    simpl in He |- *. unfold HeldBy. simpl. rewrite He, lookup_fmap, lookup_insert_eq. simpl.
    by apply tokenMatches_spec.
Qed.

Lemma register_durably_all_or_nothing_witness :
  let '(r', fs', outcome, res) :=
    RegisterDurably (2 * Hour) (Some "tok-2") "globex" "203.0.113.20" "" "/r.json" "/r.tmp"
      (Some StepWrite) demo_saved ∅ in
  outcome = Created /\
  match res with
  | Ok e => Some StepWrite = None /\ e = new_entry (2 * Hour) "globex" "203.0.113.20" "tok-2" /\
      HeldBy "globex" "tok-2" (LoadFrom "/r.json" true fs' (New true)).1 = true
  | Err (ErrNotRecorded f withdrawn) =>
      Some StepWrite = Some f /\ withdrawn = true /\ fs' = ∅ /\
      entries r' = delete "globex" (entries demo_saved) /\ tokens r' !! hashToken "tok-2" = None
  | Err (DurableRegister _) => False
  end.
Proof.
  apply (register_durably_all_or_nothing (2 * Hour) "tok-2" "globex" "203.0.113.20" "" "/r.json"
           "/r.tmp" (Some StepWrite) demo_saved (New true) ∅).
  - apply demo_saved_wf.
  - discriminate.
  - vm_compute. reflexivity.
  - intros e H. vm_compute in H. discriminate H.
  - reflexivity.
  - discriminate.
Defined.

(** The flush loses no update. In every state reached from an empty registry
    and an empty file by critical sections interleaved with flushes, successful
    or failed, a registry that is not marked dirty while no flush is under way
    has every one of its entries in the file exactly as it is in memory. *)
Theorem flush_loses_nothing (enforce : bool) (st : FlushState) :
  rtc flush_step (mkFlushState (New enforce) [] Idle) st ->
  phase st = Idle -> dirty (registry st) = false ->
  forall s e, entries (registry st) !! s = Some e -> erase_Token e ∈ disk st.
Proof.
  set (inv := fun st => dirty (registry st) = true \/
    match phase st with
    | Idle => forall s e, entries (registry st) !! s = Some e -> erase_Token e ∈ disk st
    | Cleared => True
    | Writing snap => forall s e, entries (registry st) !! s = Some e -> erase_Token e ∈ snap
    end).
  intros Hr. assert (Hinv : inv st).
  { revert Hr. apply (rtc_ind_r (fun st => inv st)).
    - right. intros s e He. simpl in He. by rewrite lookup_empty in He.
    - intros st1 st2 _ Hstep IH. unfold inv in *. destruct Hstep; simpl in *.
      + destruct (step_dirty r now o) as [H|[Hd He]]; [by left|]. rewrite Hd.
        destruct IH as [IH|IH]; [by left|right]. destruct ph; eauto.
      + by right.
      + right. intros s e He. apply elem_of_snapshot. eauto.
      + destruct IH as [IH|IH]; auto.
      + by left. }
  intros Hph Hd. unfold inv in Hinv. rewrite Hph, Hd in Hinv. destruct Hinv; [done|auto].
Qed.

Lemma flush_loses_nothing_witness :
  erase_Token (new_entry (1 * Hour) "acme" "203.0.113.10" "tok-1") ∈ snapshot demo_saved.
Proof.
  apply (flush_loses_nothing true
           (mkFlushState (set_dirty false demo_saved) (snapshot demo_saved) Idle)) with (s := "acme");
    [|reflexivity|reflexivity|vm_compute; reflexivity].
  eapply rtc_l; [apply (fl_op _ _ _ (1 * Hour) (OpRegister (Some "tok-1") "acme" "203.0.113.10" ""))|].
  eapply rtc_l; [apply fl_start; reflexivity|]. eapply rtc_l; [apply fl_snapshot|].
  eapply rtc_l; [apply fl_written|]. apply rtc_refl.
Defined.
