(* ===== verification/Wire.v ===== *)
(** * The datamover wire protocol
    ([src/datamover/internal/wire/wire.go]).

    The chunk bitmap, the bearer-token comparison and the types that the export
    client and the import server exchange. An [int] is a [Z]; a byte is a [Z]
    from 0 to 255; an index out of range, which panics in Go, is [None]. *)

From Stdlib Require Import Ascii.
From stdpp Require Import base tactics numbers list option strings.
From S2P Require Import Prelude GoStd Sha256.

Definition HeaderChunkSHA256 : string := "X-Chunk-SHA256".

Definition StateDirName : string := ".kipper-transfer-state".

Definition PathPrefix : string := "/kipper-transfer".

Definition URL (base transferID op : string) : string :=
  TrimRight base "/"%char +:+ PathPrefix +:+ "/" +:+ transferID +:+ "/" +:+ op.

(** ** The chunk bitmap. *)

Abbreviation Bitmap := (list Z).

(** [make] panics on a negative length. *)
Definition NewBitmap (n : Z) : option Bitmap :=
  let len := Z.quot (wrap64 (n + 7)) 8 in
  if len <? 0 then None else Some (replicate (Z.to_nat len) 0).

(** [1 << uint(n%8)] as a byte: a negative remainder converts to a shift count
    past the width. *)
Definition bit_mask (n : Z) : Z :=
  let r := Z.rem n 8 in if r <? 0 then 0 else Z.shiftl 1 r.

Definition Get (b : Bitmap) (n : Z) : bool :=
  let i := Z.quot n 8 in
  if (i <? 0) || (Z.of_nat (length b) <=? i) then false
  else match b !! Z.to_nat i with
       | Some x => negb (Z.land x (bit_mask n) =? 0)
       | None => false
       end.

(** [b[n/8]], [None] for the panic of an index out of range. *)
Definition byte_at (b : Bitmap) (n : Z) : option Z :=
  let i := Z.quot n 8 in if i <? 0 then None else b !! Z.to_nat i.

Definition Set_ (b : Bitmap) (n : Z) : option Bitmap :=
  x ← byte_at b n; Some (<[Z.to_nat (Z.quot n 8) := Z.lor x (bit_mask n)]> b).

Definition Clear (b : Bitmap) (n : Z) : option Bitmap :=
  x ← byte_at b n; Some (<[Z.to_nat (Z.quot n 8) := Z.ldiff x (bit_mask n)]> b).

Definition Count (b : Bitmap) (total : Z) : Z :=
  foldl (fun c n => if Get b n then c + 1 else c) 0 (seqZ 0 total).

(** ** Tokens and messages. *)

Definition TokenEqual (a b : string) : bool := bool_decide (Sum256 a = Sum256 b).

Record StateResponse := mkStateResponse {
  ManifestDigest : string;
  SR_TotalChunks : Z;
  CompletedChunks : Bitmap;
}.

Record FileResult := mkFileResult {
  FR_Path : string;
  FR_SHA256 : string;
  Match : bool;
  Error : string;
}.

Record Report := mkReport {
  Files : list FileResult;
  Deleted : list string;
}.

Inductive Phase := PhaseWaiting | PhaseReceiving | PhaseFinalizing | PhaseCompleted | PhaseFailed.

Record Progress := mkProgress {
  BytesDone : Z;
  TotalBytes : Z;
  ChunksDone : Z;
  TotalChunks : Z;
  P_Phase : Phase;
}.

(** ** Lemmas. *)

Lemma byte_at_lt (b : Bitmap) (n x : Z) :
  0 <= n -> byte_at b n = Some x ->
  n / 8 < Z.of_nat (length b) /\ b !! Z.to_nat (n / 8) = Some x.
Proof.
  intros Hn. unfold byte_at. rewrite Z.quot_div_nonneg by lia. pose proof (Z.div_pos n 8).
  case_match; [done|]. intros Hx. split; [|done].
  apply lookup_lt_Some in Hx. lia.
Qed.

(** Bit [n] of the bitmap is bit [n mod 8] of byte [n / 8]. *)
Lemma Get_testbit (b : Bitmap) (n : Z) :
  0 <= n ->
  Get b n = match b !! Z.to_nat (n / 8) with
            | Some x => Z.testbit x (n mod 8)
            | None => false
            end.
Proof.
  intros Hn. unfold Get, bit_mask.
  rewrite Z.quot_div_nonneg, Z.rem_mod_nonneg by lia.
  pose proof (Z.div_pos n 8). pose proof (Z.mod_pos_bound n 8).
  destruct (Z.ltb_spec (n / 8) 0); [lia|].
  destruct (Z.ltb_spec (n mod 8) 0); [lia|]. simpl.
  destruct (b !! Z.to_nat (n / 8)) as [x|] eqn:Hx.
  - pose proof (lookup_lt_Some _ _ _ Hx).
    destruct (Z.leb_spec (Z.of_nat (length b)) (n / 8)); [lia|].
    rewrite Z.shiftl_1_l. destruct (Z.testbit x (n mod 8)) eqn:Ht.
    + apply negb_true_iff, Z.eqb_neq. intros Hz.
      assert (Hb : Z.testbit (Z.land x (2 ^ (n mod 8))) (n mod 8) = true).
      { rewrite Z.land_spec, Ht, Z.pow2_bits_true by lia. done. }
      by rewrite Hz, Z.bits_0 in Hb.
    + apply negb_false_iff, Z.eqb_eq, Z.bits_inj'. intros k Hk.
      rewrite Z.land_spec, Z.bits_0, Z.pow2_bits_eqb by lia.
      destruct (Z.eqb_spec (n mod 8) k) as [<-|]; [by rewrite Ht|apply andb_false_r].
  - by case_match.
Qed.

(** Updating byte [n / 8] only changes the bits of that byte. *)
Lemma Get_update (b : Bitmap) (n k x y : Z) :
  0 <= n -> 0 <= k -> byte_at b n = Some x ->
  (forall j, 0 <= j < 8 -> j <> n mod 8 -> Z.testbit y j = Z.testbit x j) ->
  Get (<[Z.to_nat (Z.quot n 8) := y]> b) k =
  if k =? n then Z.testbit y (n mod 8) else Get b k.
Proof.
  intros Hn Hk Hx Hy. destruct (byte_at_lt b n x Hn Hx) as [Hl Hx'].
  rewrite Z.quot_div_nonneg by lia.
  pose proof (Z.div_pos n 8). pose proof (Z.div_pos k 8).
  pose proof (Z.mod_pos_bound k 8).
  pose proof (Z.div_mod n 8). pose proof (Z.div_mod k 8).
  rewrite !Get_testbit by done. destruct (Z.eqb_spec k n) as [->|Hne].
  - rewrite list_lookup_insert_eq by lia. done.
  - destruct (decide (k / 8 = n / 8)) as [Heq|Hd].
    + rewrite Heq, list_lookup_insert_eq, Hx' by lia. apply Hy; lia.
    + rewrite list_lookup_insert_ne by lia. done.
Qed.

Lemma Set_spec (b b' : Bitmap) (n k : Z) :
  0 <= n -> 0 <= k -> Set_ b n = Some b' -> Get b' k = (k =? n) || Get b k.
Proof.
  intros Hn Hk H. unfold Set_ in H. apply bind_Some in H as (x & Hx & [= <-]).
  assert (Hm : bit_mask n = 2 ^ (n mod 8)).
  { unfold bit_mask. rewrite Z.rem_mod_nonneg by lia. pose proof (Z.mod_pos_bound n 8).
    destruct (Z.ltb_spec (n mod 8) 0); [lia|]. apply Z.shiftl_1_l. }
  pose proof (Z.mod_pos_bound n 8).
  rewrite (Get_update b n k x); try done.
  - destruct (k =? n); [|done]. rewrite Hm, Z.lor_spec, Z.pow2_bits_true by lia. apply orb_true_r.
  - intros j Hj Hne. rewrite Hm, Z.lor_spec, Z.pow2_bits_false by lia. apply orb_false_r.
Qed.

Lemma Clear_spec (b b' : Bitmap) (n k : Z) :
  0 <= n -> 0 <= k -> Clear b n = Some b' -> Get b' k = negb (k =? n) && Get b k.
Proof.
  intros Hn Hk H. unfold Clear in H. apply bind_Some in H as (x & Hx & [= <-]).
  assert (Hm : bit_mask n = 2 ^ (n mod 8)).
  { unfold bit_mask. rewrite Z.rem_mod_nonneg by lia. pose proof (Z.mod_pos_bound n 8).
    destruct (Z.ltb_spec (n mod 8) 0); [lia|]. apply Z.shiftl_1_l. }
  pose proof (Z.mod_pos_bound n 8).
  rewrite (Get_update b n k x); try done.
  - destruct (k =? n); [|done]. rewrite Hm, Z.ldiff_spec, Z.pow2_bits_true by lia. apply andb_false_r.
  - intros j Hj Hne. rewrite Hm, Z.ldiff_spec, Z.pow2_bits_false by lia. apply andb_true_r.
Qed.

Lemma length_Set (b b' : Bitmap) (n : Z) : Set_ b n = Some b' -> length b' = length b.
Proof. unfold Set_. intros H. apply bind_Some in H as (x & _ & [= <-]). apply length_insert. Qed.

Lemma length_Clear (b b' : Bitmap) (n : Z) : Clear b n = Some b' -> length b' = length b.
Proof. unfold Clear. intros H. apply bind_Some in H as (x & _ & [= <-]). apply length_insert. Qed.

(** Every chunk number of a plan has a bit. *)
Lemma in_bitmap (b : Bitmap) (total n : Z) :
  0 <= n < total -> total <= int64_max - 7 -> NewBitmap total = Some b ->
  forall b', length b' = length b -> exists x, byte_at b' n = Some x.
Proof.
  intros Hn Ht Hb b' Hl. unfold NewBitmap in Hb. cbv zeta in Hb.
  rewrite wrap64_id in Hb by (unfold int64_range, int64_min, int64_max in *; lia).
  rewrite Z.quot_div_nonneg in Hb by lia. case_match; [done|]. injection Hb as <-.
  rewrite length_replicate in Hl. unfold byte_at. rewrite Z.quot_div_nonneg by lia.
  pose proof (Z.div_pos n 8). destruct (Z.ltb_spec (n / 8) 0); [lia|].
  apply lookup_lt_is_Some. rewrite Hl.
  assert (n / 8 < (total + 7) / 8); [|lia].
  apply Z.div_lt_upper_bound; [lia|]. pose proof (Z.div_mod (total + 7) 8).
  pose proof (Z.mod_pos_bound (total + 7) 8). lia.
Qed.

Lemma Set_total (b : Bitmap) (n : Z) :
  (exists x, byte_at b n = Some x) -> exists b', Set_ b n = Some b'.
Proof. intros [x Hx]. unfold Set_. rewrite Hx. simpl. eauto. Qed.

Lemma Clear_total (b : Bitmap) (n : Z) :
  (exists x, byte_at b n = Some x) -> exists b', Clear b n = Some b'.
Proof. intros [x Hx]. unfold Clear. rewrite Hx. simpl. eauto. Qed.

Lemma NewBitmap_Get (n : Z) (b : Bitmap) (k : Z) : 0 <= k -> NewBitmap n = Some b -> Get b k = false.
Proof.
  intros Hk. unfold NewBitmap. cbv zeta. case_match; [done|]. intros [= <-].
  rewrite Get_testbit by done. destruct (replicate _ 0 !! _) as [x|] eqn:Hx; [|done].
  apply lookup_replicate in Hx as [-> _]. apply Z.bits_0.
Qed.

Lemma Count_filter (b : Bitmap) (total : Z) :
  Count b total = Z.of_nat (length (filter (fun n => Get b n = true) (seqZ 0 total))).
Proof.
  unfold Count. generalize (seqZ 0 total). intros l.
  assert (Hgen : forall c, foldl (fun c n => if Get b n then c + 1 else c) c l =
    c + Z.of_nat (length (filter (fun n => Get b n = true) l))).
  { induction l as [|n l IH]; intros c; simpl; [lia|]. rewrite filter_cons.
    destruct (decide (Get b n = true)) as [->|Hg]; simpl; rewrite IH; [lia|].
    apply not_true_is_false in Hg as ->. simpl. lia. }
  apply Hgen.
Qed.

(** The bitmap counts to the total exactly when every bit is set. *)
Lemma Count_all (b : Bitmap) (total : Z) :
  0 <= total -> Count b total = total <-> forall n, 0 <= n < total -> Get b n = true.
Proof.
  intros Ht. rewrite Count_filter.
  assert (Hs : length (seqZ 0 total) = Z.to_nat total) by apply length_seqZ.
  transitivity (length (filter (fun n => Get b n = true) (seqZ 0 total)) = length (seqZ 0 total)).
  { rewrite Hs. lia. }
  rewrite filter_full, Forall_forall. setoid_rewrite elem_of_seqZ. split.
  - intros H n Hn. apply H. lia.
  - intros H n Hn. apply H. lia.
Qed.
