(* ===== verification/Manifest.v ===== *)
(** * Transfer manifests ([src/datamover/internal/manifest/manifest.go]).

    Both sides of a transfer agree on a manifest: the entries to move and the
    chunk size. [Validate] is what the import server runs on a manifest before it
    trusts a path or a size of it. The zstd codec and the JSON codec are taken as
    the decoded stream and the decoded value. *)

From Stdlib Require Import Ascii.
From stdpp Require Import base tactics numbers list option strings gmap sorting.
From S2P Require Import Prelude GoStd Sha256.

Definition DefaultChunkSize : Z := 128 * 1024 * 1024.

Definition TypeFile : string := "file".

Definition TypeDir : string := "dir".

Definition TypeSymlink : string := "symlink".

Record Entry := mkEntry {
  Path : string;
  Type_ : string;
  Size : Z;
  Mode : Z;
  UID : Z;
  GID : Z;
  MtimeUnixNano : Z;
  SHA256 : string;
  LinkTarget : string;
}.

Record Manifest := mkManifest {
  ChunkSize : Z;
  Entries : list Entry;
}.

(** The sum wraps around like the [int64] accumulator. *)
Definition TotalBytes (m : Manifest) : Z :=
  foldl (fun t e => wrap64 (t + Size e)) 0 (Entries m).

(** ** Validation. *)

Inductive ManifestError :=
| ErrChunkSize (size : Z)
| ErrEmptyPath
| ErrAbsolutePath (p : string)
| ErrNotClean (p : string)
| ErrEscapes (p : string)
| ErrNegativeSize (p : string)
| ErrMalformedSHA256 (p : string)
| ErrFileLinkTarget (p : string)
| ErrDirContent (p : string)
| ErrNoLinkTarget (p : string)
| ErrSymlinkContent (p : string)
| ErrUnknownType (p : string)
| ErrDuplicate (p : string).

Definition validatePath (p : string) : result ManifestError unit :=
  if (p =? "")%string then Err ErrEmptyPath
  else if HasPrefix p "/" then Err (ErrAbsolutePath p)
  else if negb (p =? Clean p)%string then Err (ErrNotClean p)
  else if existsb (fun seg => (seg =? "..")%string || (seg =? ".")%string) (Split p "/"%char)
  then Err (ErrEscapes p)
  else Ok tt.

Definition validateEntry (e : Entry) : result ManifestError unit :=
  _ ← validatePath (Path e);
  if (Type_ e =? TypeFile)%string then
    if Size e <? 0 then Err (ErrNegativeSize (Path e))
    else if negb (String.length (SHA256 e) =? 64)%nat then Err (ErrMalformedSHA256 (Path e))
    else if negb (LinkTarget e =? "")%string then Err (ErrFileLinkTarget (Path e))
    else Ok tt
  else if (Type_ e =? TypeDir)%string then
    if negb (Size e =? 0) || negb (SHA256 e =? "")%string || negb (LinkTarget e =? "")%string
    then Err (ErrDirContent (Path e))
    else Ok tt
  else if (Type_ e =? TypeSymlink)%string then
    if (LinkTarget e =? "")%string then Err (ErrNoLinkTarget (Path e))
    else if negb (Size e =? 0) || negb (SHA256 e =? "")%string
    then Err (ErrSymlinkContent (Path e))
    else Ok tt
  else Err (ErrUnknownType (Path e)).

(** The loop of [Validate], with the set of the paths seen so far. *)
Fixpoint validateEntries (seen : gset string) (es : list Entry) : result ManifestError unit :=
  match es with
  | [] => Ok tt
  | e :: es' =>
      _ ← validateEntry e;
      if bool_decide (Path e ∈ seen) then Err (ErrDuplicate (Path e))
      else validateEntries ({[Path e]} ∪ seen) es'
  end.

Definition Validate (m : Manifest) : result ManifestError unit :=
  if ChunkSize m <=? 0 then Err (ErrChunkSize (ChunkSize m))
  else validateEntries ∅ (Entries m).

(** ** Building.

    What a walk of the source tree yields for one path below the root: its
    metadata, and the content of a file or the target of a link. A walk that
    fails returns the error, and so does reading a link or hashing a file. *)
Record FileInfo := mkFileInfo {
  FI_Mode : Z;
  FI_UID : Z;
  FI_GID : Z;
  FI_ModTime : Z;
}.

Inductive DirEntry :=
| DRegular (info : FileInfo) (content : string)
| DDir (info : FileInfo)
| DSymlink (info : FileInfo) (target : string)
| DOther.

(** [uint32(info.Mode().Perm())] keeps the nine permission bits. *)
Definition entryFromInfo (relPath entryType : string) (info : FileInfo) : Entry :=
  mkEntry relPath entryType 0 (Z.land (FI_Mode info) 511) (FI_UID info) (FI_GID info)
    (FI_ModTime info) "" "".

Definition statAndHash (relPath : string) (info : FileInfo) (content : string) : Entry :=
  let e := entryFromInfo relPath TypeFile info in
  mkEntry (Path e) (Type_ e) (Z.of_nat (String.length content)) (Mode e) (UID e) (GID e)
    (MtimeUnixNano e) (sha256_hex content) "".

Definition walk_entry (p : string * DirEntry) : option Entry :=
  let '(relSlash, d) := p in
  if (relSlash =? ".")%string then None
  else match d with
       | DDir info => Some (entryFromInfo relSlash TypeDir info)
       | DSymlink info target =>
           let e := entryFromInfo relSlash TypeSymlink info in
           Some (mkEntry (Path e) (Type_ e) (Size e) (Mode e) (UID e) (GID e)
                   (MtimeUnixNano e) (SHA256 e) target)
       | DRegular info content => Some (statAndHash relSlash info content)
       | DOther => None
       end.

Definition by_path (a b : Entry) : Prop := str_le (Path a) (Path b).

#[export] Instance by_path_dec : RelDecision by_path.
Proof. intros a b. unfold by_path. apply _. Defined.

Definition BuildDir {E : Type} (walk : result E (list (string * DirEntry))) (chunkSize : Z) :
    result E Manifest :=
  ds ← walk; Ok (mkManifest chunkSize (merge_sort by_path (omap walk_entry ds))).

Definition BuildFile {E : Type} (file : result E (string * FileInfo * string)) (chunkSize : Z) :
    result E Manifest :=
  f ← file; let '(base, info, content) := f in
  Ok (mkManifest chunkSize [statAndHash base info content]).

(** ** Encoded manifests. *)

Inductive DecodeError := ErrDecoding | ErrInvalid (e : ManifestError).

(** [Decode], on the value [json.Unmarshal] finds in the bytes. *)
Definition Decode (unmarshalled : option Manifest) : result DecodeError Manifest :=
  match unmarshalled with
  | None => Err ErrDecoding
  | Some m => match Validate m with Err e => Err (ErrInvalid e) | Ok _ => Ok m end
  end.

Definition Digest (raw : list Z) : string := hex_encode (Sum256_bytes raw).

Inductive DecompressError := ErrDecompressing | ErrExceeds (maxBytes : Z).

(** [Decompress] reads at most one byte more than the limit of the decoded stream;
    [broken] says that the decoder fails where the stream ends. *)
Definition Decompress (stream : list Z) (broken : bool) (maxBytes : Z) :
    result DecompressError (list Z) :=
  let raw := LimitReader stream (maxBytes + 1) in
  if broken && (Z.of_nat (length raw) <=? maxBytes) then Err ErrDecompressing
  else if maxBytes <? Z.of_nat (length raw) then Err (ErrExceeds maxBytes)
  else Ok raw.

(** ** The specification of a valid manifest. *)

(** One element of a path below the transfer root. *)
Definition safe_segment (seg : string) : Prop :=
  seg <> "" /\ seg <> "." /\ seg <> ".." /\ no_byte "/"%char seg.

Definition safe_path (p : string) : Prop :=
  exists segs, segs <> [] /\ Forall safe_segment segs /\ p = Join segs "/".

Definition entry_ok (e : Entry) : Prop :=
  safe_path (Path e) /\
  (Type_ e = TypeFile /\ 0 <= Size e /\ String.length (SHA256 e) = 64%nat /\ LinkTarget e = "" \/
   Type_ e = TypeDir /\ Size e = 0 /\ SHA256 e = "" /\ LinkTarget e = "" \/
   Type_ e = TypeSymlink /\ Size e = 0 /\ SHA256 e = "" /\ LinkTarget e <> "").

Definition manifest_ok (m : Manifest) : Prop :=
  0 < ChunkSize m /\ Forall entry_ok (Entries m) /\ NoDup (Path <$> Entries m).

(** ** Lemmas. *)

(** The elements that [Clean] keeps are elements of the path, and never empty. *)
Lemma clean_elements_kept (rooted : bool) (segs stack : list string) (seg : string) :
  seg ∈ foldl (clean_element rooted) stack segs ->
  seg ∈ stack \/ seg = ".." \/ (seg ∈ segs /\ seg <> "").
Proof.
  revert stack. induction segs as [|s segs IH]; intros stack; simpl; [by left|].
  intros H. apply IH in H as [H|[H|[H1 H2]]]; [|by auto|right; right; split; [by right|done]].
  unfold clean_element in H. destruct (s =? "")%string eqn:Hs; [by left|].
  destruct (s =? ".")%string eqn:Hd; [by left|]. simpl in H. bool_to_prop.
  assert (Hpush : seg ∈ s :: stack -> seg ∈ stack \/ seg = ".." \/ seg ∈ s :: segs /\ seg <> "").
  { intros Hin. apply elem_of_cons in Hin as [->|?]; [|by left]. right. right. split; [left|done]. }
  destruct (s =? "..")%string; [|auto].
  destruct stack as [|top rest]; [destruct rooted|destruct (top =? "..")%string].
  - by apply elem_of_nil in H.
  - apply list_elem_of_singleton in H as ->. auto.
  - apply elem_of_cons in H as [->|H]; auto.
  - left. by right.
Qed.

(** On proper elements [Clean] only collects. *)
Lemma clean_elements_id (rooted : bool) (segs stack : list string) :
  Forall safe_segment segs ->
  foldl (clean_element rooted) stack segs = reverse segs ++ stack.
Proof.
  intros H. revert stack. induction H as [|s segs (H1 & H2 & H3 & _) _ IH]; intros stack; [done|].
  simpl. rewrite IH, reverse_cons, <- app_assoc. simpl. unfold clean_element.
  apply String.eqb_neq in H1, H2, H3. by rewrite H1, H2, H3.
Qed.

Lemma Join_slash_nil (segs : list string) :
  Forall safe_segment segs -> Join segs "/" = "" -> segs = [].
Proof.
  intros [|s l (Hne & _) _]; [done|]. destruct l; simpl; [done|].
  intros Hj. by apply str_app_eq_nil in Hj as [-> _].
Qed.

Lemma Join_no_leading_slash (segs : list string) :
  Forall safe_segment segs -> HasPrefix (Join segs "/") "/" = false.
Proof.
  intros [|s l (Hne & _ & _ & Hs) _]; [done|]. destruct s as [|c s]; [done|].
  unfold no_byte in Hs. simpl in Hs. bool_to_prop.
  assert (Hj : exists t, Join (String c s :: l) "/" = String c t) by (destruct l; simpl; eauto).
  destruct Hj as [t ->]. apply not_true_iff_false. rewrite HasPrefix_spec.
  intros [rest [= -> _]]. done.
Qed.

Lemma validatePath_ok (p : string) : validatePath p = Ok tt <-> safe_path p.
Proof.
  unfold validatePath. split.
  - intros H. repeat case_match; bool_to_prop; try done. clear H.
    rename H0 into Hne, H1 into Habs, H2 into Hclean, H3 into Hdots.
    assert (Hseg : forall seg, seg ∈ Split p "/"%char -> seg <> ".." /\ seg <> ".").
    { intros seg Hin. destruct (existsb_exists (fun seg => (seg =? "..")%string || (seg =? ".")%string)
        (Split p "/"%char)) as [_ Hex]. rewrite Hdots in Hex.
      split; intros ->; discriminate Hex; eexists; (split; [by apply list_elem_of_In|done]). }
    unfold Clean in Hclean. rewrite Habs in Hclean.
    set (kept := reverse (foldl (clean_element false) [] (Split p "/"%char))) in *.
    assert (Hk : Forall (fun seg => seg <> "" /\ seg ∈ Split p "/"%char \/ seg = "..") kept).
    { apply Forall_forall. intros seg Hin. unfold kept in Hin. rewrite elem_of_reverse in Hin.
      apply clean_elements_kept in Hin as [Hin|[Hin|[Hin Hx]]]; [by apply elem_of_nil in Hin|auto|auto]. }
    destruct (Join kept "/" =? "")%string eqn:Hb; bool_to_prop.
    { subst p. destruct (Hseg "."); [|done]. vm_compute. left. }
    assert (Hkn : kept <> []) by (intros Hk0; rewrite Hk0 in Hb; done).
    assert (Hnb : Forall (no_byte "/"%char) kept).
    { eapply Forall_impl; [exact Hk|]. intros seg [[_ Hin]| ->]; [|done].
      by eapply Forall_forall; [apply Split_no_byte|]. }
    assert (Hsp : Split p "/"%char = kept) by (rewrite Hclean; by apply Split_Join).
    exists kept. split_and!; [done| |done].
    apply Forall_forall. intros seg Hin. rewrite <- Hsp in Hin. destruct (Hseg seg Hin) as [H1 H2].
    rewrite Forall_forall in Hk, Hnb. rewrite Hsp in Hin.
    destruct (Hk seg Hin) as [[? _]| ->]; [|done]. split_and!; auto.
  - intros (segs & Hne & Hs & ->).
    assert (Hnb : Forall (no_byte "/"%char) segs) by (eapply Forall_impl; [exact Hs|by intros ? (_&_&_&?)]).
    assert (Hb : (Join segs "/" =? "")%string = false).
    { apply String.eqb_neq. intros Hj. by apply Join_slash_nil in Hj. }
    rewrite Hb, Join_no_leading_slash by done. unfold Clean.
    rewrite Join_no_leading_slash, Split_Join, clean_elements_id, app_nil_r, reverse_involutive by done.
    rewrite Hb, String.eqb_refl. simpl. destruct (existsb _ segs) eqn:Hex; [|done].
    apply existsb_exists in Hex as (seg & Hin & Hd). apply list_elem_of_In in Hin.
    rewrite Forall_forall in Hs. destruct (Hs seg Hin) as (_ & H1 & H2 & _).
    apply String.eqb_neq in H1, H2. by rewrite H1, H2 in Hd.
Qed.

Lemma validateEntry_ok (e : Entry) : validateEntry e = Ok tt <-> entry_ok e.
Proof.
  unfold validateEntry, entry_ok. rewrite <- validatePath_ok.
  assert (Hdis : TypeFile <> TypeDir /\ TypeFile <> TypeSymlink /\ TypeDir <> TypeSymlink) by done.
  destruct Hdis as (Hfd & Hfs & Hds).
  destruct (validatePath (Path e)) as [[]|err]; simpl; [|split; [done|by intros [? _]]].
  destruct (String.eqb_spec (Type_ e) TypeFile) as [Hf|Hf];
    [|destruct (String.eqb_spec (Type_ e) TypeDir) as [Hd|Hd];
      [|destruct (String.eqb_spec (Type_ e) TypeSymlink) as [Hs|Hs]]].
  - destruct (Z.ltb_spec (Size e) 0), (Nat.eqb_spec (String.length (SHA256 e)) 64),
      (String.eqb_spec (LinkTarget e) ""); simpl; (split; [done || naive_solver lia|];
      intros (_ & [(_ & ? & ? & ?)|[[? _]|[? _]]]); try congruence; try lia).
  - destruct (Z.eqb_spec (Size e) 0), (String.eqb_spec (SHA256 e) ""),
      (String.eqb_spec (LinkTarget e) ""); simpl; (split; [done || naive_solver|];
      intros (_ & [[? _]|[(_ & ? & ? & ?)|[? _]]]); congruence).
  - destruct (String.eqb_spec (LinkTarget e) ""), (Z.eqb_spec (Size e) 0),
      (String.eqb_spec (SHA256 e) ""); simpl; (split; [done || naive_solver|];
      intros (_ & [[? _]|[[? _]|(_ & ? & ? & ?)]]); congruence).
  - split; [done|]. intros (_ & [[? _]|[[? _]|[? _]]]); congruence.
Qed.

Lemma validateEntries_ok (seen : gset string) (es : list Entry) :
  validateEntries seen es = Ok tt <->
  Forall entry_ok es /\ NoDup (Path <$> es) /\ Forall (fun e => Path e ∉ seen) es.
Proof.
  revert seen. induction es as [|e es IH]; intros seen; simpl.
  - split; [intros _; split_and!; constructor|done].
  - rewrite !Forall_cons, NoDup_cons, <- validateEntry_ok.
    destruct (validateEntry e) as [[]|err]; simpl; [|split; [done|by intros ([? _] & _)]].
    destruct (bool_decide (Path e ∈ seen)) eqn:Hseen; bool_to_prop.
    + split; [done|]. by intros (_ & _ & ? & _).
    + rewrite IH. assert (Hnew : Forall (fun e' => Path e' ∉ ({[Path e]} ∪ seen : gset string)) es <->
        (Path e ∉ (Path <$> es)) /\ Forall (fun e' => Path e' ∉ seen) es).
      { rewrite !Forall_forall, list_elem_of_fmap. split.
        - intros H. split; [intros (e' & Heq & He'); specialize (H e' He'); set_solver|].
          intros e' He'. specialize (H e' He'). set_solver.
        - intros [H1 H2] e' He' Hin. apply elem_of_union in Hin as [Hin|Hin]; [|by apply (H2 e')].
          apply elem_of_singleton in Hin. apply H1. by exists e'. }
      rewrite Hnew. tauto.
Qed.

(** A walk that a file system can give: safe relative paths, each one once, and
    no link without a target. *)
Definition walk_ok (ds : list (string * DirEntry)) : Prop :=
  NoDup (ds.*1) /\
  Forall (fun p => p.1 = "." \/ safe_path p.1 /\
    match p.2 with DSymlink _ target => target <> "" | _ => True end) ds.

Lemma walk_entry_Path (p : string * DirEntry) (e : Entry) : walk_entry p = Some e -> Path e = p.1.
Proof. destruct p as [rel d]. simpl. repeat case_match; intros [= <-]; done. Qed.

Lemma walk_entries_ok (ds : list (string * DirEntry)) :
  walk_ok ds -> Forall entry_ok (omap walk_entry ds) /\ NoDup (Path <$> omap walk_entry ds).
Proof.
  intros [Hnd Hok]. split.
  - apply Forall_forall. intros e He. apply list_elem_of_omap in He as ([rel d] & Hin & Hw).
    rewrite Forall_forall in Hok. specialize (Hok _ Hin) as Hp. simpl in *.
    destruct (String.eqb_spec rel "."); [done|]. destruct Hp as [?|[Hs Ht]]; [done|].
    destruct d; simplify_eq/=; (split; [done|]); simpl; [|tauto|tauto].
    left. split_and!; [done|lia| |done]. apply sha256_hex_length.
  - clear Hok. induction ds as [|[rel d] ds IH]; [apply NoDup_nil_2|].
    rewrite fmap_cons in Hnd. simpl in Hnd.
    apply NoDup_cons in Hnd as [Hni Hnd]. specialize (IH Hnd).
    change (omap walk_entry ((rel, d) :: ds)) with
      (match walk_entry (rel, d) with Some y => y :: omap walk_entry ds | None => omap walk_entry ds end).
    destruct (walk_entry (rel, d)) as [e|] eqn:Hw; [|done].
    rewrite fmap_cons, NoDup_cons. split; [|done].
    rewrite (walk_entry_Path _ _ Hw). simpl. intros Hin. apply Hni.
    apply list_elem_of_fmap in Hin as (e' & He' & Hin). apply list_elem_of_omap in Hin as (p & Hp & Hw').
    apply list_elem_of_fmap. exists p. rewrite <- (walk_entry_Path _ _ Hw'). by subst.
Qed.

#[export] Instance by_path_trans : Transitive by_path.
Proof. intros a b c. unfold by_path. apply transitivity. Qed.

#[export] Instance by_path_total : Total by_path.
Proof. intros a b. unfold by_path. apply total, _. Qed.

(** [Validate] accepts exactly the well-formed manifests. *)
Lemma manifest_ok_Validate (m : Manifest) : Validate m = Ok tt <-> manifest_ok m.
Proof.
  unfold Validate, manifest_ok. destruct (Z.leb_spec (ChunkSize m) 0).
  - split; [done|lia].
  - rewrite validateEntries_ok. split; [tauto|]. intros (_ & H1 & H2).
    split_and!; try done. apply Forall_forall. set_solver.
Qed.

(** ** Properties. *)

(** [Validate] accepts exactly the well-formed manifests: a positive chunk
    size, every path a nonempty sequence of proper elements below the transfer
    root (no empty, dot or dot-dot element, not absolute), per-type field rules,
    and no path twice. *)
Theorem manifest_validation_exact (m : Manifest) :
  Validate m = Ok tt <->
  0 < ChunkSize m /\ Forall entry_ok (Entries m) /\ NoDup (Path <$> Entries m).
Proof. apply manifest_ok_Validate. Qed.

(** The manifest built from a walk of a source tree passes [Validate],
    lists exactly the files, directories and links of the walk, each file with
    the length and the hash of its content, in path order. *)
Theorem built_manifest_valid (ds : list (string * DirEntry)) (chunkSize : Z) :
  walk_ok ds -> 0 < chunkSize ->
  exists m, BuildDir (E := unit) (Ok ds) chunkSize = Ok m /\ ChunkSize m = chunkSize /\
    Validate m = Ok tt /\ Sorted by_path (Entries m) /\
    (forall e, e ∈ Entries m <-> exists p, p ∈ ds /\ walk_entry p = Some e) /\
    forall e rel info content, e ∈ Entries m -> (rel, DRegular info content) ∈ ds -> Path e = rel ->
      Size e = Z.of_nat (String.length content) /\ SHA256 e = sha256_hex content.
Proof.
  intros Hok Hc. pose proof (walk_entries_ok ds Hok) as [Hf Hn].
  eexists. split; [done|]. simpl.
  assert (Hp : merge_sort by_path (omap walk_entry ds) ≡ₚ omap walk_entry ds)
    by apply merge_sort_Permutation.
  split_and!; [done| |apply Sorted_merge_sort; apply _| |].
  - apply manifest_ok_Validate. unfold manifest_ok. simpl. by rewrite Hp.
  - intros e. rewrite Hp. apply list_elem_of_omap.
  - intros e rel info content He Hin Hrel. rewrite Hp in He.
    apply list_elem_of_omap in He as (p & Hp' & Hw).
    assert (Hpe : p = (rel, DRegular info content)).
    { destruct Hok as [Hnd _]. rewrite (walk_entry_Path _ _ Hw) in Hrel. destruct p as [rel' d].
      simpl in Hrel. subst rel'. f_equal.
      apply list_elem_of_lookup in Hp' as [i Hi]. apply list_elem_of_lookup in Hin as [j Hj].
      assert (i = j); [|congruence].
      eapply NoDup_lookup; [exact Hnd|by rewrite list_lookup_fmap, Hi|by rewrite list_lookup_fmap, Hj]. }
    subst p. simpl in Hw. case_match; [done|]. injection Hw as <-. done.
Qed.

Definition demo_info : FileInfo := mkFileInfo 420 1000 1000 1700000000000000000.

Definition demo_walk : list (string * DirEntry) :=
  [(".", DDir demo_info); ("data", DDir demo_info);
   ("data/b.txt", DRegular demo_info "hello world"); ("data/a.link", DSymlink demo_info "b.txt")].

Lemma demo_walk_ok : walk_ok demo_walk.
Proof.
  split; [by apply (bool_decide_unpack _)|].
  repeat (apply Forall_cons_2; [(by left) || (right; split; [by apply validatePath_ok|done])|]).
  apply Forall_nil_2.
Qed.

Lemma built_manifest_valid_witness :
  exists m, BuildDir (E := unit) (Ok demo_walk) 4 = Ok m /\ ChunkSize m = 4 /\
    Validate m = Ok tt /\ Sorted by_path (Entries m) /\
    (forall e, e ∈ Entries m <-> exists p, p ∈ demo_walk /\ walk_entry p = Some e) /\
    forall e rel info content, e ∈ Entries m -> (rel, DRegular info content) ∈ demo_walk ->
      Path e = rel -> Size e = Z.of_nat (String.length content) /\ SHA256 e = sha256_hex content.
Proof. apply (built_manifest_valid demo_walk 4); [apply demo_walk_ok|reflexivity]. Defined.
