(* ===== verification/Chunk.v ===== *)
(** * The chunk plan ([src/datamover/internal/chunk/plan.go]).

    The logical stream is the concatenation of the file contents in manifest
    order; the plan cuts it into chunks of a fixed size and maps a chunk back to
    spans of files. The arithmetic is that of [int64]. *)

From Stdlib Require Import Ascii.
From stdpp Require Import base tactics numbers list option strings.
From S2P Require Import Prelude GoStd Sha256 Wire Manifest.

Record Span := mkSpan {
  FileIndex : nat;
  SpanPath : string;
  FileOffset : Z;
  Length : Z;
}.

Record Plan := mkPlan {
  chunkSize : Z;
  total : Z;
  starts : list Z;
  files : list Entry;
}.

(** The loop of [NewPlan]: the start of every entry and the final offset. *)
Fixpoint plan_starts (off : Z) (es : list Entry) : list Z * Z :=
  match es with
  | [] => ([], off)
  | f :: es' => let '(ss, t) := plan_starts (wrap64 (off + Size f)) es' in (off :: ss, t)
  end.

Definition NewPlan (m : Manifest) : Plan :=
  let '(ss, t) := plan_starts 0 (Entries m) in mkPlan (ChunkSize m) t ss (Entries m).

(** [p.starts[i]]: an index out of range panics. *)
Definition EntryOffset (p : Plan) (i : nat) : option Z := starts p !! i.

Definition NumChunks (p : Plan) : Z :=
  if total p =? 0 then 0
  else Z.quot (wrap64 (wrap64 (total p + chunkSize p) - 1)) (chunkSize p).

Definition ChunkLength (p : Plan) (n : Z) : Z :=
  let start := wrap64 (n * chunkSize p) in
  let end_ := wrap64 (start + chunkSize p) in
  let end_ := if total p <? end_ then total p else end_ in
  if end_ <=? start then 0 else wrap64 (end_ - start).

(** The loop of [Spans] from file [i] on. *)
Fixpoint collect_spans (start end_ : Z) (i : nat) (l : list (Z * Entry)) : list Span :=
  match l with
  | [] => []
  | (s, f) :: l' =>
      if s <? end_ then
        if Size f =? 0 then collect_spans start end_ (S i) l'
        else
          let so := wrap64 (Z.max start s - s) in
          let eo := wrap64 (Z.min end_ (wrap64 (s + Size f)) - s) in
          mkSpan i (Path f) so (wrap64 (eo - so)) :: collect_spans start end_ (S i) l'
      else []
  end.

Definition Spans (p : Plan) (n : Z) : list Span :=
  let start := wrap64 (n * chunkSize p) in
  let end_ := wrap64 (start + ChunkLength p n) in
  if end_ <=? start then []
  else
    let l := zip (starts p) (files p) in
    let i := Search (length (files p)) (fun i =>
               match l !! i with
               | Some (s, f) => start <? wrap64 (s + Size f)
               | None => true
               end) in
    collect_spans start end_ i (drop i l).

(** ** The stream.

    [contents] gives the bytes of every entry, in manifest order; an entry that
    is not a file has none. *)
Definition contents_match (m : Manifest) (contents : list (list Z)) : Prop :=
  Forall2 (fun e c => Size e = Z.of_nat (length c)) (Entries m) contents.

Definition stream (contents : list (list Z)) : list Z := concat contents.

(** The bytes [sp] stands for. *)
Definition read_span (contents : list (list Z)) (sp : Span) : list Z :=
  take (Z.to_nat (Length sp)) (drop (Z.to_nat (FileOffset sp)) (default [] (contents !! FileIndex sp))).

(** The payload of chunk [n], as the exporter reads it. *)
Definition chunk_payload (p : Plan) (contents : list (list Z)) (n : Z) : list Z :=
  concat (read_span contents <$> Spans p n).

(** The sizes fit: neither the total nor rounding it up to a whole chunk leaves
    [int64]. [Validate] checks the first two conditions and not the third. *)
Definition plan_fits (m : Manifest) : Prop :=
  0 < ChunkSize m /\ Forall (fun e => 0 <= Size e) (Entries m) /\
  sumZ (Size <$> Entries m) + ChunkSize m <= int64_max.

(** ** Lemmas. *)

Ltac wrap_id :=
  repeat match goal with
  | |- context [wrap64 ?z] => rewrite (wrap64_id z) by (unfold int64_range, int64_min, int64_max in *; lia)
  end.

(** Prefix sums of the sizes. *)
Fixpoint prefix_sums (off : Z) (es : list Entry) : list Z :=
  match es with [] => [] | f :: es' => off :: prefix_sums (off + Size f) es' end.

Lemma plan_starts_exact (es : list Entry) (off : Z) :
  Forall (fun e => 0 <= Size e) es -> 0 <= off -> off + sumZ (Size <$> es) <= int64_max ->
  plan_starts off es = (prefix_sums off es, off + sumZ (Size <$> es)).
Proof.
  intros H. revert off. induction H as [|f es Hf Hes IH]; intros off Ho Ht; csimpl.
  - by rewrite Z.add_0_r.
  - csimpl in *. assert (0 <= sumZ (Size <$> es)) by (apply sumZ_nonneg, Forall_fmap; done).
    wrap_id. rewrite IH by lia. f_equal. lia.
Qed.

Lemma length_prefix_sums (off : Z) (es : list Entry) : length (prefix_sums off es) = length es.
Proof. revert off. induction es as [|f es IH]; intros off; simpl; [done|]. by rewrite IH. Qed.

Lemma prefix_sums_lookup (es : list Entry) (off : Z) (i : nat) (s : Z) :
  prefix_sums off es !! i = Some s -> s = off + sumZ (take i (Size <$> es)).
Proof.
  revert off i. induction es as [|f es IH]; intros off [|i] H; simplify_eq/=.
  - lia.
  - apply IH in H. csimpl. lia.
Qed.

Lemma prefix_sums_drop (es : list Entry) (off : Z) (i : nat) :
  drop i (prefix_sums off es) = prefix_sums (off + sumZ (take i (Size <$> es))) (drop i es).
Proof.
  revert off i. induction es as [|f es IH]; intros off [|i]; csimpl; try done.
  - by rewrite Z.add_0_r.
  - rewrite IH. csimpl. f_equal. lia.
Qed.

Section plan.
Context (m : Manifest) (Hfits : plan_fits m).

Let sizes : list Z := Size <$> Entries m.
Let T : Z := sumZ sizes.
Let cs : Z := ChunkSize m.

Lemma sizes_nonneg : Forall (fun x => 0 <= x) sizes.
Proof. destruct Hfits as (_ & H & _). by apply Forall_fmap. Qed.

Lemma T_nonneg : 0 <= T.
Proof. apply sumZ_nonneg, sizes_nonneg. Qed.

Lemma T_bound : T + cs <= int64_max /\ 0 < cs.
Proof. destruct Hfits as (? & _ & ?). unfold T, cs, sizes. lia. Qed.

Lemma NewPlan_exact : NewPlan m = mkPlan cs T (prefix_sums 0 (Entries m)) (Entries m).
Proof.
  pose proof T_bound. pose proof T_nonneg. unfold NewPlan.
  rewrite plan_starts_exact; [done|by destruct Hfits as (_ & ? & _)|lia|].
  unfold T, sizes in *. lia.
Qed.

Lemma NumChunks_exact : NumChunks (NewPlan m) = (T + cs - 1) / cs.
Proof.
  pose proof T_bound. pose proof T_nonneg. rewrite NewPlan_exact. unfold NumChunks. simpl.
  destruct (Z.eqb_spec T 0) as [->|Hne].
  - symmetry. apply Z.div_small. lia.
  - wrap_id. apply Z.quot_div_nonneg; lia.
Qed.

(** A chunk number of the plan starts inside the stream. *)
Lemma chunk_start_lt (n : Z) : 0 <= n < NumChunks (NewPlan m) -> 0 <= n * cs < T.
Proof.
  rewrite NumChunks_exact. intros Hn. pose proof T_bound. pose proof T_nonneg.
  pose proof (Z.div_mod (T + cs - 1) cs). pose proof (Z.mod_pos_bound (T + cs - 1) cs). nia.
Qed.

Lemma ChunkLength_exact (n : Z) :
  0 <= n < NumChunks (NewPlan m) -> ChunkLength (NewPlan m) n = Z.min cs (T - n * cs).
Proof.
  intros Hn. pose proof (chunk_start_lt n Hn). pose proof T_bound. pose proof T_nonneg.
  rewrite NewPlan_exact. unfold ChunkLength. simpl. wrap_id.
  destruct (Z.ltb_spec T (n * cs + cs)).
  - destruct (Z.leb_spec T (n * cs)); wrap_id; lia.
  - destruct (Z.leb_spec (n * cs + cs) (n * cs)); wrap_id; lia.
Qed.

(** Past the last chunk nothing is left. *)
Lemma last_chunk : T <= NumChunks (NewPlan m) * cs.
Proof.
  rewrite NumChunks_exact. pose proof T_bound.
  pose proof (Z.div_mod (T + cs - 1) cs). pose proof (Z.mod_pos_bound (T + cs - 1) cs). nia.
Qed.
End plan.

(** The spans collected from a file on, when that file and all the later ones
    end past the start of the chunk, read the chunk's part of the stream. *)
Lemma collect_spans_read (contents : list (list Z)) (start end_ : Z) (es : list Entry) :
  forall (cs : list (list Z)) (off : Z) (i : nat),
  Forall2 (fun e c => Size e = Z.of_nat (length c)) es cs ->
  drop i contents = cs -> 0 <= start <= end_ -> 0 <= off ->
  off + sumZ (Size <$> es) <= int64_max -> end_ <= int64_max ->
  Forall (fun sf => start < sf.1 + Size sf.2) (zip (prefix_sums off es) es) ->
  concat (read_span contents <$> collect_spans start end_ i (zip (prefix_sums off es) es)) =
  take (Z.to_nat (end_ - Z.max start off)) (drop (Z.to_nat (start - off)) (concat cs)).
Proof.
  induction es as [|f es IH]; intros cs off i Hcs Hdrop Hse Hoff Ht He Hpast.
  - inversion Hcs. simpl. by rewrite drop_nil, take_nil.
  - apply Forall2_cons_inv_l in Hcs as (c & cs' & Hf & Hcs' & ->). csimpl in *.
    assert (Hsum : 0 <= sumZ (Size <$> es)).
    { apply sumZ_nonneg, Forall_fmap. clear - Hcs'. induction Hcs'; constructor; simpl; [lia|done]. }
    apply Forall_cons in Hpast as [Hp Hpast]. simpl in Hp.
    assert (Hnext : drop (S i) contents = cs').
    { change (S i) with (1 + i)%nat. rewrite Nat.add_comm, <- drop_drop, Hdrop. done. }
    assert (Hi : contents !! i = Some c).
    { rewrite <- (Nat.add_0_r i), <- lookup_drop, Hdrop. done. }
    destruct (Z.ltb_spec off end_).
    + destruct (Z.eqb_spec (Size f) 0) as [Hz|Hz].
      * rewrite Hz, Z.add_0_r in *. destruct c; [|simpl in Hf; lia]. simpl.
        rewrite (IH cs') by (done || lia). done.
      * csimpl. wrap_id. rewrite (IH cs') by (done || lia).
        unfold read_span. simpl. rewrite Hi. simpl. wrap_id.
        rewrite (drop_app_le c) by lia. rewrite take_app, length_drop.
        replace (Z.to_nat (start - off) ) with (Z.to_nat (Z.max start off - off)) by lia.
        f_equal.
        -- destruct (Z.le_gt_cases end_ (off + Size f)).
           ++ rewrite Z.min_l by lia. f_equal. lia.
           ++ rewrite Z.min_r by lia. rewrite !take_ge; rewrite ?length_drop; try done; lia.
        -- replace (Z.to_nat (start - (off + Size f))) with 0%nat by lia. rewrite drop_0.
           f_equal. lia.
    + replace (Z.to_nat (end_ - Z.max start off)) with 0%nat by lia. by rewrite take_0.
Qed.

Lemma length_concat_sizes (es : list Entry) (cs : list (list Z)) :
  Forall2 (fun e c => Size e = Z.of_nat (length c)) es cs ->
  Z.of_nat (length (concat cs)) = sumZ (Size <$> es).
Proof. induction 1 as [|e c es cs He _ IH]; [done|]. csimpl. rewrite length_app. lia. Qed.

Section contents.
Context (m : Manifest) (Hfits : plan_fits m).
Context (contents : list (list Z)) (Hcontents : contents_match m contents).

Let sizes : list Z := Size <$> Entries m.
Let T : Z := sumZ sizes.
Let cs : Z := ChunkSize m.
Let ends (i : nat) : Z := sumZ (take (S i) sizes).

Lemma length_stream : Z.of_nat (length (stream contents)) = T.
Proof. by apply length_concat_sizes. Qed.

Lemma zip_starts_lookup (i : nat) (s : Z) (f : Entry) :
  zip (prefix_sums 0 (Entries m)) (Entries m) !! i = Some (s, f) ->
  s = sumZ (take i sizes) /\ Entries m !! i = Some f /\ s + Size f = ends i.
Proof.
  intros H. apply lookup_zip_with_Some in H as (s' & f' & [= <- <-] & Hs & Hf).
  apply prefix_sums_lookup in Hs. rewrite Z.add_0_l in Hs. split_and!; [done|done|].
  unfold ends, sizes. rewrite (sumZ_take_S _ i (Size f)) by (by rewrite list_lookup_fmap, Hf).
  unfold sizes in Hs. lia.
Qed.

Lemma ends_bounds (i : nat) : 0 <= ends i <= T.
Proof.
  pose proof (sizes_nonneg m Hfits) as Hn. unfold ends, T. fold sizes in Hn. split.
  - apply sumZ_nonneg, Forall_take, Hn.
  - rewrite (sumZ_take_drop (S i) sizes). pose proof (sumZ_nonneg _ (Forall_drop _ (S i) _ Hn)). lia.
Qed.

(** The test [Spans] searches with is monotone and exact. *)
Lemma search_spans (start : Z) :
  0 <= start < T ->
  let l := zip (prefix_sums 0 (Entries m)) (Entries m) in
  let i := Search (length (Entries m)) (fun i =>
             match l !! i with
             | Some (s, f) => start <? wrap64 (s + Size f)
             | None => true
             end) in
  (i <= length (Entries m))%nat /\ sumZ (take i sizes) <= start /\
  Forall (fun sf => start < sf.1 + Size sf.2) (drop i l).
Proof.
  intros Hs l i. pose proof (T_bound m Hfits) as Hb. fold sizes T cs in Hb.
  assert (Hl : length l = length (Entries m)).
  { unfold l. rewrite length_zip_with, length_prefix_sums. lia. }
  assert (Htest : forall k, match l !! k with
                            | Some (s, f) => start <? wrap64 (s + Size f)
                            | None => true end =
                            ((length (Entries m) <=? k)%nat || (start <? ends k))).
  { intros k. destruct (l !! k) as [[s f]|] eqn:Hk.
    - destruct (zip_starts_lookup k s f Hk) as (_ & Hf & ->). pose proof (ends_bounds k).
      apply lookup_lt_Some in Hf. destruct (Nat.leb_spec (length (Entries m)) k); [lia|].
      wrap_id. done.
    - apply lookup_ge_None in Hk. rewrite Hl in Hk. by apply Nat.leb_le in Hk as ->. }
  assert (Hmono : forall a b, (a <= b)%nat -> ends a <= ends b).
  { intros a b Hab. apply sumZ_take_mono; [apply (sizes_nonneg m Hfits)|lia]. }
  destruct (Search_spec (length (Entries m)) (fun i =>
             match l !! i with
             | Some (s, f) => start <? wrap64 (s + Size f)
             | None => true
             end)) as (Hi & Hlo & Hhi).
  { intros a b Hab. rewrite !Htest. specialize (Hmono a b Hab).
    destruct (Nat.leb_spec (length (Entries m)) a), (Nat.leb_spec (length (Entries m)) b),
      (Z.ltb_spec start (ends a)), (Z.ltb_spec start (ends b)); simpl; done || lia. }
  fold i in Hi, Hlo, Hhi. split_and!; [done| |].
  - destruct i as [|j] eqn:Hij; [simpl; lia|]. specialize (Hlo j ltac:(lia)).
    rewrite Htest in Hlo. bool_to_prop. done.
  - apply Forall_lookup. intros k [s f] Hk. rewrite lookup_drop in Hk.
    pose proof (lookup_lt_Some _ _ _ Hk) as Hlt. rewrite Hl in Hlt.
    specialize (Hhi (i + k)%nat ltac:(lia)). rewrite Htest in Hhi.
    destruct (zip_starts_lookup _ s f Hk) as (_ & _ & Hend). simpl. rewrite Hend.
    apply orb_true_iff in Hhi as [Hhi|Hhi]; [apply Nat.leb_le in Hhi; lia|by bool_to_prop].
Qed.

Lemma drop_prefix (i : nat) :
  (i <= length (Entries m))%nat ->
  stream contents = concat (take i contents) ++ concat (drop i contents) /\
  Z.of_nat (length (concat (take i contents))) = sumZ (take i sizes).
Proof.
  intros Hi. split.
  - unfold stream. rewrite <- concat_app, take_drop. done.
  - rewrite (length_concat_sizes (take i (Entries m))); [|by apply Forall2_take].
    unfold sizes. by rewrite fmap_take.
Qed.

(** The payload of a chunk is its part of the stream. *)
Lemma chunk_payload_slice (n : Z) :
  0 <= n < NumChunks (NewPlan m) ->
  chunk_payload (NewPlan m) contents n =
  take (Z.to_nat (ChunkLength (NewPlan m) n)) (drop (Z.to_nat (n * cs)) (stream contents)).
Proof.
  intros Hn. pose proof (chunk_start_lt m Hfits n Hn) as Hs.
  pose proof (T_bound m Hfits) as Hb. fold sizes T cs in Hb, Hs.
  pose proof (ChunkLength_exact m Hfits n Hn) as Hlen. fold sizes T cs in Hlen.
  destruct (search_spans (n * cs) Hs) as (Hi & Hoff & Hpast).
  unfold chunk_payload, Spans. rewrite Hlen, (NewPlan_exact m Hfits).
  cbn [chunkSize total starts files]. cbv zeta. fold sizes T cs. wrap_id.
  destruct (Z.leb_spec (n * cs + Z.min cs (T - n * cs)) (n * cs)); [lia|].
  set (i := Search _ _) in *.
  assert (Hzip : drop i (zip (prefix_sums 0 (Entries m)) (Entries m)) =
    zip (prefix_sums (sumZ (take i sizes)) (drop i (Entries m))) (drop i (Entries m))).
  { rewrite zip_with_drop, prefix_sums_drop. by rewrite Z.add_0_l. }
  rewrite Hzip in *.
  destruct (drop_prefix i Hi) as [Hst Hpre].
  rewrite (collect_spans_read contents _ _ _ (drop i contents)); try done; try lia.
  - rewrite Hst, drop_app_ge by lia. f_equal; [f_equal; lia|]. f_equal. lia.
  - by apply Forall2_drop.
  - rewrite fmap_drop. fold sizes. rewrite <- (sumZ_take_drop i sizes). fold T. lia.
Qed.
End contents.

Lemma collect_spans_within (start end_ : Z) (es : list Entry) :
  forall (off : Z) (i : nat) (all : list Entry) (sp : Span),
  Forall (fun e => 0 <= Size e) es -> drop i all = es -> 0 <= start < end_ -> 0 <= off ->
  off + sumZ (Size <$> es) <= int64_max -> end_ <= int64_max ->
  Forall (fun sf => start < sf.1 + Size sf.2) (zip (prefix_sums off es) es) ->
  sp ∈ collect_spans start end_ i (zip (prefix_sums off es) es) ->
  exists f, all !! FileIndex sp = Some f /\ SpanPath sp = Path f /\ 0 <= FileOffset sp /\
    0 < Length sp /\ FileOffset sp + Length sp <= Size f.
Proof.
  induction es as [|f es IH]; intros off i all sp Hsz Hdrop Hse Hoff Ht He Hpast Hin.
  { by apply elem_of_nil in Hin. }
  apply Forall_cons in Hsz as [Hf Hsz]. csimpl in *.
  assert (Hsum : 0 <= sumZ (Size <$> es)) by (apply sumZ_nonneg, Forall_fmap; done).
  apply Forall_cons in Hpast as [Hp Hpast]. simpl in Hp.
  assert (Hnext : drop (S i) all = es).
  { change (S i) with (1 + i)%nat. rewrite Nat.add_comm, <- drop_drop, Hdrop. done. }
  assert (Hi : all !! i = Some f).
  { rewrite <- (Nat.add_0_r i), <- lookup_drop, Hdrop. done. }
  destruct (Z.ltb_spec off end_); [|by apply elem_of_nil in Hin].
  assert (Hrec : sp ∈ collect_spans start end_ (S i) (zip (prefix_sums (off + Size f) es) es) ->
    exists f, all !! FileIndex sp = Some f /\ SpanPath sp = Path f /\ 0 <= FileOffset sp /\
      0 < Length sp /\ FileOffset sp + Length sp <= Size f).
  { intros Hin'. apply (IH (off + Size f) (S i)); try done; lia. }
  destruct (Z.eqb_spec (Size f) 0) as [Hz|Hz]; [by apply Hrec|].
  apply elem_of_cons in Hin as [->|Hin]; [|by apply Hrec].
  exists f. simpl. wrap_id. split_and!; try done; lia.
Qed.

Section chunks.
Context (m : Manifest) (Hfits : plan_fits m).
Context (contents : list (list Z)) (Hcontents : contents_match m contents).

Lemma chunk_payload_length (n : Z) :
  0 <= n < NumChunks (NewPlan m) ->
  Z.of_nat (length (chunk_payload (NewPlan m) contents n)) = ChunkLength (NewPlan m) n.
Proof.
  intros Hn. rewrite (chunk_payload_slice m Hfits contents Hcontents n Hn).
  rewrite length_take, length_drop.
  pose proof (length_stream m contents Hcontents).
  pose proof (chunk_start_lt m Hfits n Hn).
  rewrite (ChunkLength_exact m Hfits n Hn). pose proof (T_bound m Hfits). lia.
Qed.

(** The first [k] payloads are the first [k] chunk sizes of the stream. *)
Lemma payload_prefix (k : nat) :
  Z.of_nat k <= NumChunks (NewPlan m) ->
  concat (chunk_payload (NewPlan m) contents <$> seqZ 0 (Z.of_nat k)) =
  take (Z.to_nat (Z.of_nat k * ChunkSize m)) (stream contents).
Proof.
  induction k as [|k IH]; intros Hk; [done|].
  rewrite Nat2Z.inj_succ, <- Z.add_1_r, seqZ_app, fmap_app, concat_app, IH by lia.
  assert (Hn : 0 <= Z.of_nat k < NumChunks (NewPlan m)) by lia.
  change (seqZ (0 + Z.of_nat k) 1) with [0 + Z.of_nat k].
  rewrite Z.add_0_l. csimpl. rewrite app_nil_r.
  rewrite (chunk_payload_slice m Hfits contents Hcontents _ Hn).
  pose proof (chunk_start_lt m Hfits _ Hn). pose proof (T_bound m Hfits).
  pose proof (length_stream m contents Hcontents).
  rewrite (ChunkLength_exact m Hfits _ Hn), take_take_drop.
  destruct (Z.le_gt_cases (ChunkSize m) (sumZ (Size <$> Entries m) - Z.of_nat k * ChunkSize m)).
  - f_equal. lia.
  - rewrite !take_ge by lia. done.
Qed.

Lemma chunk_lengths_prefix (k : nat) :
  Z.of_nat k <= NumChunks (NewPlan m) ->
  sumZ (ChunkLength (NewPlan m) <$> seqZ 0 (Z.of_nat k)) =
  Z.min (Z.of_nat k * ChunkSize m) (sumZ (Size <$> Entries m)).
Proof.
  pose proof (T_nonneg m Hfits). induction k as [|k IH]; intros Hk; [simpl; lia|].
  rewrite Nat2Z.inj_succ, <- Z.add_1_r, seqZ_app, fmap_app, sumZ_app, IH by lia.
  assert (Hn : 0 <= Z.of_nat k < NumChunks (NewPlan m)) by lia.
  change (seqZ (0 + Z.of_nat k) 1) with [0 + Z.of_nat k].
  rewrite Z.add_0_l. csimpl. rewrite (ChunkLength_exact m Hfits _ Hn).
  pose proof (chunk_start_lt m Hfits _ Hn). lia.
Qed.
End chunks.

Lemma span_within (m : Manifest) (n : Z) (sp : Span) :
  plan_fits m -> 0 <= n < NumChunks (NewPlan m) -> sp ∈ Spans (NewPlan m) n ->
  exists f, Entries m !! FileIndex sp = Some f /\ SpanPath sp = Path f /\
    0 <= FileOffset sp /\ 0 < Length sp /\ FileOffset sp + Length sp <= Size f.
Proof.
  intros Hfits Hn Hin. pose proof (chunk_start_lt m Hfits n Hn) as Hs.
  pose proof (T_bound m Hfits) as Hb. pose proof (ChunkLength_exact m Hfits n Hn) as Hlen.
  destruct (search_spans m Hfits (n * ChunkSize m) Hs) as (Hi & Hoff & Hpast).
  unfold Spans in Hin. rewrite Hlen, (NewPlan_exact m Hfits) in Hin.
  cbn [chunkSize total starts files] in Hin. cbv zeta in Hin.
  rewrite (wrap64_id (n * ChunkSize m)) in Hin by (unfold int64_range, int64_min, int64_max in *; lia).
  rewrite wrap64_id in Hin by (unfold int64_range, int64_min, int64_max in *; lia).
  case_match; [by apply elem_of_nil in Hin|].
  rewrite zip_with_drop, prefix_sums_drop, Z.add_0_l in *.
  eapply collect_spans_within in Hin; try done; try lia.
  - by apply Forall_drop; destruct Hfits as (_ & ? & _).
  - apply sumZ_nonneg, Forall_take, (sizes_nonneg m Hfits).
  - rewrite fmap_drop, <- sumZ_take_drop. lia.
Qed.

(** ** Properties. *)

(** C24: the chunks partition the stream. For a manifest whose sizes fit, the
    payloads of all chunks in order are the concatenation of the file contents,
    every payload has the planned length, which is positive and at most the chunk
    size, and the lengths add up to the total. *)
Theorem chunks_partition_stream (m : Manifest) (contents : list (list Z)) :
  plan_fits m -> contents_match m contents ->
  let p := NewPlan m in
  concat (chunk_payload p contents <$> seqZ 0 (NumChunks p)) = stream contents /\
  sumZ (ChunkLength p <$> seqZ 0 (NumChunks p)) = total p /\
  total p = TotalBytes m /\
  forall n, 0 <= n < NumChunks p ->
    Z.of_nat (length (chunk_payload p contents n)) = ChunkLength p n /\
    0 < ChunkLength p n <= ChunkSize m.
Proof.
  intros Hfits Hc p. pose proof (last_chunk m Hfits) as Hlast.
  pose proof (T_nonneg m Hfits) as Hnn. pose proof (T_bound m Hfits) as Hb.
  assert (Hk : 0 <= NumChunks p).
  { unfold p. rewrite (NumChunks_exact m Hfits). apply Z.div_pos; lia. }
  pose proof (length_stream m contents Hc) as Hl. split_and!.
  - rewrite <- (Z2Nat.id (NumChunks p)) by done.
    unfold p. rewrite (payload_prefix m Hfits contents Hc) by (fold p; lia).
    apply take_ge. fold p in Hlast |- *. lia.
  - rewrite <- (Z2Nat.id (NumChunks p)) by done.
    unfold p. rewrite (chunk_lengths_prefix m Hfits) by (fold p; lia).
    rewrite (NewPlan_exact m Hfits) at 2. cbn [total]. fold p in Hlast |- *. lia.
  - unfold p. rewrite (NewPlan_exact m Hfits). unfold TotalBytes. cbn [total].
    destruct Hfits as (_ & Hsz & Hfit).
    assert (Hgen : forall off, 0 <= off -> off + sumZ (Size <$> Entries m) <= int64_max ->
      foldl (fun t e => wrap64 (t + Size e)) off (Entries m) = off + sumZ (Size <$> Entries m)).
    { clear -Hsz. induction Hsz as [|e es He Hes IH]; intros off Ho Ht; csimpl in *; [lia|].
      assert (0 <= sumZ (Size <$> es)) by (apply sumZ_nonneg, Forall_fmap; done).
      wrap_id. rewrite IH; lia. }
    rewrite Hgen; lia.
  - intros n Hn. split; [by apply chunk_payload_length|].
    unfold p. rewrite (ChunkLength_exact m Hfits n Hn). pose proof (chunk_start_lt m Hfits n Hn). lia.
Qed.

(** A chunk only reads inside the files. Every span of a chunk names a file of
    the manifest by its index and its path, and covers a nonempty range of bytes
    within that file's size. *)
Theorem spans_within_files (m : Manifest) (n : Z) (sp : Span) :
  plan_fits m -> 0 <= n < NumChunks (NewPlan m) -> sp ∈ Spans (NewPlan m) n ->
  exists f, Entries m !! FileIndex sp = Some f /\ SpanPath sp = Path f /\
    0 <= FileOffset sp /\ 0 < Length sp /\ FileOffset sp + Length sp <= Size f.
Proof. apply span_within. Qed.

Definition demo_manifest : Manifest :=
  mkManifest 4
    [mkEntry "a" TypeFile 6 420 0 0 0 (sha256_hex "abcdef") "";
     mkEntry "d" TypeDir 0 493 0 0 0 "" "";
     mkEntry "d/b" TypeFile 5 420 0 0 0 (sha256_hex "ghijk") ""].

Definition demo_contents : list (list Z) := [[97; 98; 99; 100; 101; 102]; []; [103; 104; 105; 106; 107]].

Lemma demo_fits : plan_fits demo_manifest.
Proof.
  split; [reflexivity|]. split; [|vm_compute; discriminate].
  repeat (apply Forall_cons_2; [simpl; lia|]). apply Forall_nil_2.
Qed.

Lemma demo_match : contents_match demo_manifest demo_contents.
Proof. repeat constructor. Qed.

Lemma chunks_partition_stream_witness :
  let p := NewPlan demo_manifest in
  concat (chunk_payload p demo_contents <$> seqZ 0 (NumChunks p)) = stream demo_contents /\
  sumZ (ChunkLength p <$> seqZ 0 (NumChunks p)) = total p /\
  total p = TotalBytes demo_manifest /\
  forall n, 0 <= n < NumChunks p ->
    Z.of_nat (length (chunk_payload p demo_contents n)) = ChunkLength p n /\
    0 < ChunkLength p n <= ChunkSize demo_manifest.
Proof. apply (chunks_partition_stream demo_manifest demo_contents); [apply demo_fits|apply demo_match]. Defined.

Lemma spans_within_files_witness :
  exists f, Entries demo_manifest !! 2%nat = Some f /\ "d/b" = Path f /\ 0 <= 0 /\ 0 < 2 /\
    0 + 2 <= Size f.
Proof.
  apply (spans_within_files demo_manifest 1 (mkSpan 2 "d/b" 0 2)).
  - apply demo_fits.
  - vm_compute. split; [discriminate|reflexivity].
  - apply (list_elem_of_lookup_2 _ 1). vm_compute. reflexivity.
Defined.

(** Validation does not bound the sum of the sizes. There is a manifest that
    [Validate] accepts whose total wraps around, so that its number of chunks is
    negative and allocating its bitmap panics. *)
Theorem validated_total_can_overflow :
  exists m, Validate m = Ok tt /\ Forall (fun e => int64_range (Size e)) (Entries m) /\
    int64_range (ChunkSize m) /\ total (NewPlan m) < 0 /\
    NumChunks (NewPlan m) < 0 /\ NewBitmap (NumChunks (NewPlan m)) = None.
Proof.
  exists (mkManifest 1 [mkEntry "a" TypeFile (2 ^ 62) 420 0 0 0 (sha256_hex "") "";
                        mkEntry "b" TypeFile (2 ^ 62) 420 0 0 0 (sha256_hex "") ""]).
  split; [vm_compute; reflexivity|]. split.
  { repeat (apply Forall_cons_2; [vm_compute; split; discriminate|]). apply Forall_nil_2. }
  split; [vm_compute; split; discriminate|]. split; [vm_compute; reflexivity|].
  split; vm_compute; reflexivity.
Qed.
