(* ===== verification/Staging.v ===== *)
(** * Crash-safe staging of chunks
    ([src/datamover/internal/ingest/state.go], and [receiveChunk] of
    [src/datamover/internal/ingest/server.go]).

    The state directory is a disk with a volatile and a durable part. A file
    whose content was not synced since its last write holds anything after a
    crash; a directory comes back in one of the forms it had since its last sync.
    The code is the list of the file operations it performs, each of which can
    fail; concurrent uploads interleave their lists. *)

From Stdlib Require Import Ascii.
From stdpp Require Import base tactics numbers list option strings gmap relations.
From S2P Require Import Prelude GoStd Sha256 Wire Manifest Chunk.

(** ** The disk. *)

(** A file of the state directory by its name, or the staged chunk [n], whose
    file is named by the decimal digits of [n] in the chunk directory. *)
Inductive file := InState (name : string) | ChunkPath (n : Z).

(** The content of an inode and whether it was synced since its last write; the
    current entries of each directory; the forms each had since its last sync. *)
Record Disk := mkDisk {
  inodes : gmap nat (list Z * bool);
  state_cur : gmap string nat;
  state_old : list (gmap string nat);
  chunk_cur : gmap Z nat;
  chunk_old : list (gmap Z nat);
}.

Inductive action :=
| OpenTrunc (f : file)
| Write (f : file) (data : list Z)
| Sync (f : file)
| Close (f : file)
| Rename (from to : string)
| SyncStateDir
| SyncChunksDir
| RemoveAll
| MkdirAll.

Definition inode_of (d : Disk) (f : file) : option nat :=
  match f with InState name => state_cur d !! name | ChunkPath n => chunk_cur d !! n end.

Definition set_inode (i : nat) (v : list Z * bool) (d : Disk) : Disk :=
  mkDisk (<[i := v]> (inodes d)) (state_cur d) (state_old d) (chunk_cur d) (chunk_old d).

(** A new directory entry: the directory without it becomes a form that a crash
    can bring back. *)
Definition link (f : file) (i : nat) (d : Disk) : Disk :=
  match f with
  | InState name =>
      mkDisk (inodes d) (<[name := i]> (state_cur d)) (state_cur d :: state_old d)
        (chunk_cur d) (chunk_old d)
  | ChunkPath n =>
      mkDisk (inodes d) (state_cur d) (state_old d)
        (<[n := i]> (chunk_cur d)) (chunk_cur d :: chunk_old d)
  end.

Definition apply_action (a : action) (d : Disk) : Disk :=
  match a with
  | OpenTrunc f =>
      match inode_of d f with
      | Some i => set_inode i ([], false) d
      | None =>
          let i := fresh (dom (inodes d)) in link f i (set_inode i ([], false) d)
      end
  | Write f data =>
      match inode_of d f with
      | Some i =>
          match inodes d !! i with
          | Some (c, _) => set_inode i (c ++ data, false) d
          | None => d
          end
      | None => d
      end
  | Sync f =>
      match inode_of d f with
      | Some i =>
          match inodes d !! i with
          | Some (c, _) => set_inode i (c, true) d
          | None => d
          end
      | None => d
      end
  | Close _ => d
  | Rename from to =>
      match state_cur d !! from with
      | Some i =>
          mkDisk (inodes d) (<[to := i]> (delete from (state_cur d))) (state_cur d :: state_old d)
            (chunk_cur d) (chunk_old d)
      | None => d
      end
  | SyncStateDir => mkDisk (inodes d) (state_cur d) [] (chunk_cur d) (chunk_old d)
  | SyncChunksDir => mkDisk (inodes d) (state_cur d) (state_old d) (chunk_cur d) []
  | RemoveAll =>
      mkDisk (inodes d) ∅ (state_cur d :: state_old d) ∅ (chunk_cur d :: chunk_old d)
  | MkdirAll => d
  end.

(** How far a failing operation got: a write the bytes it put down, a removal
    the files that are gone. *)
Inductive leftover := Bytes (k : nat) | Gone (names : gset string) (chunks : gset Z).

Definition remove_some (names : gset string) (chunks : gset Z) (d : Disk) : Disk :=
  mkDisk (inodes d) (filter (fun e => e.1 ∉ names) (state_cur d)) (state_cur d :: state_old d)
    (filter (fun e => e.1 ∉ chunks) (chunk_cur d)) (chunk_cur d :: chunk_old d).

(** What a failing operation leaves; one that is neither a write nor a removal
    did nothing. *)
Definition apply_failed (a : action) (k : leftover) (d : Disk) : Disk :=
  match a, k with
  | Write f data, Bytes n => apply_action (Write f (take n data)) d
  | RemoveAll, Gone names chunks => remove_some names chunks d
  | _, _ => d
  end.

(** A list of operations; [fault] says which one fails, if any. *)
Fixpoint run_actions (l : list action) (fault : option (nat * leftover)) (d : Disk) : Disk * bool :=
  match l, fault with
  | [], _ => (d, true)
  | a :: _, Some (O, k) => (apply_failed a k d, false)
  | a :: l', Some (S j, k) => run_actions l' (Some (j, k)) (apply_action a d)
  | a :: l', None => run_actions l' None (apply_action a d)
  end.

Definition read_file (d : Disk) (f : file) : option (list Z) :=
  i ← inode_of d f; p ← inodes d !! i; Some p.1.

(** What a crash can leave of a disk. *)
Inductive crash (d : Disk) : Disk -> Prop :=
| crash_intro (scur : gmap string nat) (ccur : gmap Z nat) (ins : gmap nat (list Z * bool)) :
    scur ∈ state_cur d :: state_old d ->
    ccur ∈ chunk_cur d :: chunk_old d ->
    dom ins = dom (inodes d) ->
    (forall i c, inodes d !! i = Some (c, true) -> ins !! i = Some (c, true)) ->
    crash d (mkDisk ins scur [] ccur []).

(** ** The operations of the code. *)

Definition manifestFileName : string := "manifest.json".

Definition idFileName : string := "transfer-id".

Definition bitmapFileName : string := "bitmap".

Definition bitmapTmpName : string := bitmapFileName +:+ ".tmp".

Definition persistBitmap (bitmap : Bitmap) : list action :=
  [OpenTrunc (InState bitmapTmpName); Write (InState bitmapTmpName) bitmap;
   Sync (InState bitmapTmpName); Close (InState bitmapTmpName);
   Rename bitmapTmpName bitmapFileName; SyncStateDir].

(** [MarkChunk]: the bit is set, and taken back when the bitmap cannot be
    persisted. *)
Definition MarkChunk (n : Z) (fault : option (nat * leftover)) (bitmap : Bitmap) (d : Disk) :
    option (Bitmap * Disk * bool) :=
  b' ← Set_ bitmap n;
  let '(d', ok) := run_actions (persistBitmap b') fault d in
  if ok then Some (b', d', true)
  else b'' ← Clear b' n; Some (b'', d', false).

Inductive ChunkError := ErrReadPayload | ErrTooLong | ErrShort | ErrSHA256Mismatch.

(** What [receiveChunk] does with a decoded payload: the operations on the staged
    file, and the payload problem that ends it, if any. The payload is read up to
    one byte past the expected length; [broken] says the decoder fails where the
    stream ends. *)
Definition receive_actions (p : Plan) (n : Z) (wantSum : string) (decoded : list Z)
    (broken : bool) : list action * option ChunkError :=
  let want := ChunkLength p n in
  let payload := LimitReader decoded (want + 1) in
  let received := Z.of_nat (length payload) in
  let staged := [OpenTrunc (ChunkPath n); Write (ChunkPath n) payload] in
  if broken && (received <=? want) then (staged, Some ErrReadPayload)
  else if want <? received then (staged, Some ErrTooLong)
  else if received <? want then (staged, Some ErrShort)
  else if negb (hex_encode (Sum256_bytes payload) =? wantSum)%string
  then (staged, Some ErrSHA256Mismatch)
  else (staged ++ [Sync (ChunkPath n); Close (ChunkPath n); SyncChunksDir], None).

(** ** Concurrent uploads, crashes and restarts. *)

(** A request that stages a chunk: the operations left to do and the payload
    problem it will report. *)
Record Upload := mkUpload {
  chunk : Z;
  todo : list action;
  problem : option ChunkError;
}.

(** [bits] is the bitmap in memory, [uploads] the requests under way, [marking] the
    one that holds the mutex of the bitmap with the operations it has left, and
    [offered] the digests announced for each chunk so far. *)
Record Sys := mkSys {
  disk : Disk;
  bits : Bitmap;
  uploads : gmap nat Upload;
  marking : option (Z * list action);
  offered : list (Z * string);
}.

Definition uploading (us : gmap nat Upload) (n : Z) : Prop :=
  exists id u, us !! id = Some u /\ chunk u = n.

Section staging.
(** The plan of the transfer; whether a chunk can be uploaded by two requests at
    a time; whether the sync of the state directory, the last operation of
    [persistBitmap], can fail. The code excludes neither. *)
Context (p : Plan) (overlapping dir_sync_fails : bool).

Inductive sys_step : Sys -> Sys -> Prop :=
| up_begin d b us os id n wantSum decoded broken l e :
    0 <= n < NumChunks p -> Get b n = false -> us !! id = None ->
    overlapping = true \/ ~ uploading us n ->
    receive_actions p n wantSum decoded broken = (l, e) ->
    sys_step (mkSys d b us None os)
      (mkSys d b (<[id := mkUpload n l e]> us) None ((n, wantSum) :: os))
| up_act d b us mk os id n a l e :
    us !! id = Some (mkUpload n (a :: l) e) ->
    sys_step (mkSys d b us mk os)
      (mkSys (apply_action a d) b (<[id := mkUpload n l e]> us) mk os)
| up_fail d b us mk os id n a l e k :
    us !! id = Some (mkUpload n (a :: l) e) ->
    sys_step (mkSys d b us mk os) (mkSys (apply_failed a k d) b (delete id us) mk os)
| up_reject d b us mk os id n e :
    us !! id = Some (mkUpload n [] (Some e)) ->
    sys_step (mkSys d b us mk os) (mkSys d b (delete id us) mk os)
| mark_begin d b us os id n b' :
    us !! id = Some (mkUpload n [] None) -> Set_ b n = Some b' ->
    sys_step (mkSys d b us None os) (mkSys d b' (delete id us) (Some (n, persistBitmap b')) os)
| mark_act d b us os n a l :
    sys_step (mkSys d b us (Some (n, a :: l)) os)
      (mkSys (apply_action a d) b us (Some (n, l)) os)
| mark_fail d b us os n a l k b' :
    dir_sync_fails = true \/ a <> SyncStateDir -> Clear b n = Some b' ->
    sys_step (mkSys d b us (Some (n, a :: l)) os) (mkSys (apply_failed a k d) b' us None os)
| mark_done d b us os n :
    sys_step (mkSys d b us (Some (n, [])) os) (mkSys d b us None os)
| restart d d' b b' us mk os :
    crash d d' -> read_file d' (InState bitmapFileName) = Some b' ->
    sys_step (mkSys d b us mk os) (mkSys d' b' ∅ None os).
End staging.

(** What the directories, in their current and recoverable forms, refer to. *)
Definition state_ref (d : Disk) (i : nat) : Prop :=
  exists t a, t ∈ state_cur d :: state_old d /\ t !! a = Some i.

Definition chunk_ref (d : Disk) (i : nat) : Prop :=
  exists t n, t ∈ chunk_cur d :: chunk_old d /\ t !! n = Some i.

Definition injective {K : Type} `{Countable K} (t : gmap K nat) : Prop :=
  forall a b i, t !! a = Some i -> t !! b = Some i -> a = b.

Record disk_wf (d : Disk) : Prop := mkWf {
  wf_ref : forall i, state_ref d i \/ chunk_ref d i -> is_Some (inodes d !! i);
  wf_apart : forall i, state_ref d i -> chunk_ref d i -> False;
  wf_state_inj : Forall injective (state_cur d :: state_old d);
  wf_chunk_inj : Forall injective (chunk_cur d :: chunk_old d);
  wf_tmp : forall j t, state_cur d !! bitmapTmpName = Some j ->
    t ∈ state_cur d :: state_old d -> t !! bitmapFileName <> Some j;
}.

(** The state right after [InitState]: the bitmap is durable and holds no bit. *)
Definition fresh_state (p : Plan) (s : Sys) : Prop :=
  disk_wf (disk s) /\ uploads s = ∅ /\ marking s = None /\ offered s = [] /\
  NewBitmap (NumChunks p) = Some (bits s) /\ state_old (disk s) = [] /\
  exists i, state_cur (disk s) !! bitmapFileName = Some i /\ inodes (disk s) !! i = Some (bits s, true).

(** A chunk file that is complete: the planned length and a digest that was
    announced for that chunk. *)
Definition good_content (p : Plan) (os : list (Z * string)) (n : Z) (c : list Z) : Prop :=
  Z.of_nat (length c) = ChunkLength p n /\ (n, hex_encode (Sum256_bytes c)) ∈ os.

(** The staged chunk is complete and survives a crash. *)
Definition durable_chunk (p : Plan) (os : list (Z * string)) (d : Disk) (n : Z) : Prop :=
  exists i c, inodes d !! i = Some (c, true) /\ good_content p os n c /\
    chunk_cur d !! n = Some i /\ Forall (fun m => m !! n = Some i) (chunk_old d).

(** ** Lemmas. *)

(** The actions of an upload of chunk [n]. *)
Definition chunk_action (n : Z) (a : action) : Prop :=
  match a with
  | OpenTrunc f | Write f _ | Sync f | Close f => f = ChunkPath n
  | SyncChunksDir => True
  | Rename _ _ | SyncStateDir | RemoveAll | MkdirAll => False
  end.

(** What an upload of chunk [n] leaves alone. *)
Record chunk_frame (n : Z) (d d' : Disk) : Prop := mkChunkFrame {
  cf_state_cur : state_cur d' = state_cur d;
  cf_state_old : state_old d' = state_old d;
  cf_inodes : forall i, chunk_cur d !! n <> Some i -> is_Some (inodes d !! i) ->
    inodes d' !! i = inodes d !! i;
  cf_chunk : forall k, k <> n -> chunk_cur d' !! k = chunk_cur d !! k;
  cf_old : forall m, m ∈ chunk_old d' -> m = chunk_cur d \/ m ∈ chunk_old d;
}.

Lemma fresh_inode (d : Disk) : inodes d !! fresh (dom (inodes d)) = None.
Proof. apply not_elem_of_dom, is_fresh. Qed.

Lemma chunk_ref_cur (d : Disk) (n : Z) (i : nat) : chunk_cur d !! n = Some i -> chunk_ref d i.
Proof. intros H. exists (chunk_cur d), n. split; [left|done]. Qed.

Lemma state_ref_cur (d : Disk) (a : string) (i : nat) : state_cur d !! a = Some i -> state_ref d i.
Proof. intros H. exists (state_cur d), a. split; [left|done]. Qed.

#[export] Hint Resolve chunk_ref_cur state_ref_cur : kipper.

(** Changing the content of an inode keeps the disk well formed. *)
Lemma wf_set_inode (d : Disk) (i : nat) (v : list Z * bool) : disk_wf d -> disk_wf (set_inode i v d).
Proof.
  intros [H1 H2 H3 H4 H5]. constructor; try done.
  intros j Hj. simpl. destruct (decide (i = j)) as [->|Hne].
  - rewrite lookup_insert_eq. done.
  - rewrite lookup_insert_ne by done. by apply H1.
Qed.

Lemma injective_insert {K : Type} `{Countable K} (t : gmap K nat) (a : K) (i : nat) :
  injective t -> (forall b, t !! b <> Some i) -> injective (<[a := i]> t).
Proof.
  intros Hinj Hni b c j. rewrite !lookup_insert_Some.
  intros [[<- <-]|[Hb Hb']] [[<- Hj]|[Hc Hc']]; try done.
  - by apply Hni in Hc'.
  - subst j. by apply Hni in Hb'.
  - by apply (Hinj b c j).
Qed.

(** A new file gets an inode that nothing refers to. *)
Lemma wf_link_chunk (d : Disk) (n : Z) (i : nat) (v : list Z * bool) :
  disk_wf d -> inodes d !! i = None -> disk_wf (link (ChunkPath n) i (set_inode i v d)).
Proof.
  intros [H1 H2 H3 H4 H5] Hi.
  assert (Hs : ~ state_ref d i) by (intros H; destruct (H1 i); [by left|congruence]).
  assert (Hc : ~ chunk_ref d i) by (intros H; destruct (H1 i); [by right|congruence]).
  assert (Href : forall j, chunk_ref (link (ChunkPath n) i (set_inode i v d)) j -> j = i \/ chunk_ref d j).
  { intros j (t & k & Ht & Hk). simpl in Ht. apply elem_of_cons in Ht as [->|Ht].
    - apply lookup_insert_Some in Hk as [[_ ->]|[_ Hk]]; [by left|right; eauto with kipper].
    - right. by exists t, k. }
  constructor; try done; simpl.
  - intros j Hj. destruct (decide (i = j)) as [->|Hne]; [by rewrite lookup_insert_eq|].
    rewrite lookup_insert_ne by done. apply H1. destruct Hj as [Hj|Hj]; [by left|].
    apply Href in Hj as [->|Hj]; [done|by right].
  - intros j Hsj Hcj. apply Href in Hcj as [->|Hcj]; [by apply Hs|by apply (H2 j)].
  - apply Forall_cons_2; [|done]. apply injective_insert; [by apply Forall_inv in H4|].
    intros b Hb. apply Hc. eauto with kipper.
Qed.

Lemma wf_chunk_action (d : Disk) (n : Z) (a : action) :
  disk_wf d -> chunk_action n a -> disk_wf (apply_action a d).
Proof.
  intros Hwf Ha. destruct a; simpl in *; try done; subst; simpl.
  - destruct (chunk_cur d !! n); [by apply wf_set_inode|].
    apply wf_link_chunk; [done|apply fresh_inode].
  - repeat case_match; try done. by apply wf_set_inode.
  - repeat case_match; try done. by apply wf_set_inode.
  - destruct Hwf as [H1 H2 H3 H4 H5].
    assert (Href : forall i, chunk_ref (apply_action SyncChunksDir d) i -> chunk_ref d i).
    { intros i (t & k & Ht & Hk). simpl in Ht. apply list_elem_of_singleton in Ht as ->.
      eauto with kipper. }
    constructor; try done; simpl.
    + intros i [Hi|Hi]; apply H1; auto.
    + intros i Hi Hc. apply Href in Hc. by apply (H2 i).
    + apply Forall_inv in H4. by apply Forall_singleton.
Qed.

Lemma frame_chunk_action (d : Disk) (n : Z) (a : action) :
  chunk_action n a -> chunk_frame n d (apply_action a d).
Proof.
  intros Ha. destruct a; simpl in *; try done; subst; simpl.
  - destruct (chunk_cur d !! n) as [i|] eqn:Hn.
    + constructor; simpl; auto. intros j Hj _. rewrite lookup_insert_ne; congruence.
    + constructor; simpl; auto.
      * intros j _ [v Hj]. rewrite lookup_insert_ne; [done|]. intros <-. by rewrite fresh_inode in Hj.
      * intros k Hk. by rewrite lookup_insert_ne.
      * intros m Hm. by apply elem_of_cons in Hm.
  - destruct (chunk_cur d !! n) as [i|] eqn:Hn; [|by constructor; auto].
    destruct (inodes d !! i) as [[c b]|]; [|by constructor; auto].
    constructor; simpl; auto. intros j Hj _. rewrite lookup_insert_ne; congruence.
  - destruct (chunk_cur d !! n) as [i|] eqn:Hn; [|by constructor; auto].
    destruct (inodes d !! i) as [[c b]|]; [|by constructor; auto].
    constructor; simpl; auto. intros j Hj _. rewrite lookup_insert_ne; congruence.
  - by constructor; auto.
  - constructor; simpl; auto. intros m Hm. by apply elem_of_nil in Hm.
Qed.

(** A failing action is the same action with less data, or nothing. *)
Lemma failed_chunk_action (d : Disk) (n : Z) (a : action) (k : leftover) :
  disk_wf d -> chunk_action n a ->
  disk_wf (apply_failed a k d) /\ chunk_frame n d (apply_failed a k d).
Proof.
  intros Hwf Ha. destruct a, k; try (split; [done|by constructor; auto]).
  split; [by apply (wf_chunk_action d n)|by apply frame_chunk_action].
Qed.

Section frames.
Context (p : Plan) (os : list (Z * string)).

Lemma durable_frame (n k : Z) (d d' : Disk) :
  disk_wf d -> chunk_frame n d d' -> k <> n -> durable_chunk p os d k -> durable_chunk p os d' k.
Proof.
  intros Hwf [H1 H2 H3 H4 H5] Hk (i & c & Hi & Hg & Hc & Ho). exists i, c. split_and!; try done.
  - rewrite H3; [done| |by rewrite Hi]. intros Hn.
    pose proof (Forall_inv (wf_chunk_inj d Hwf)) as Hinj. by apply Hk, (Hinj k n i).
  - by rewrite H4.
  - apply Forall_forall. intros m Hm. apply H5 in Hm as [->|Hm]; [done|].
    by rewrite Forall_forall in Ho; apply Ho.
Qed.

Lemma state_inode_frame (n : Z) (d d' : Disk) (i : nat) :
  disk_wf d -> chunk_frame n d d' -> state_ref d i -> inodes d' !! i = inodes d !! i.
Proof.
  intros Hwf Hf Hi. apply (cf_inodes n d d' Hf).
  - intros Hn. apply (wf_apart d Hwf i Hi). eauto with kipper.
  - apply (wf_ref d Hwf). by left.
Qed.

Lemma durable_offered (x : Z * string) (d : Disk) (n : Z) :
  durable_chunk p os d n -> durable_chunk p (x :: os) d n.
Proof.
  intros (i & c & Hi & [Hl Ho] & Hc). exists i, c. split_and!; try done; try tauto.
  split; [done|by right].
Qed.
End frames.

(** Where an upload that will be accepted stands. *)
Inductive upload_at (p : Plan) (os : list (Z * string)) (d : Disk) (n : Z) :
  list action -> option ChunkError -> Prop :=
| at_rejected l e : Forall (chunk_action n) l -> upload_at p os d n l (Some e)
| at_start c :
    good_content p os n c ->
    upload_at p os d n [OpenTrunc (ChunkPath n); Write (ChunkPath n) c; Sync (ChunkPath n);
                        Close (ChunkPath n); SyncChunksDir] None
| at_open c i :
    good_content p os n c -> chunk_cur d !! n = Some i -> inodes d !! i = Some ([], false) ->
    upload_at p os d n [Write (ChunkPath n) c; Sync (ChunkPath n); Close (ChunkPath n);
                        SyncChunksDir] None
| at_written c i :
    good_content p os n c -> chunk_cur d !! n = Some i -> inodes d !! i = Some (c, false) ->
    upload_at p os d n [Sync (ChunkPath n); Close (ChunkPath n); SyncChunksDir] None
| at_synced c i l :
    good_content p os n c -> chunk_cur d !! n = Some i -> inodes d !! i = Some (c, true) ->
    l = [Close (ChunkPath n); SyncChunksDir] \/ l = [SyncChunksDir] ->
    upload_at p os d n l None
| at_durable : durable_chunk p os d n -> upload_at p os d n [] None.

Section uploads.
Context (p : Plan) (os : list (Z * string)).

Lemma upload_at_start (d : Disk) (n : Z) (wantSum : string) (decoded : list Z) (broken : bool)
    (l : list action) (e : option ChunkError) :
  receive_actions p n wantSum decoded broken = (l, e) ->
  upload_at p ((n, wantSum) :: os) d n l e.
Proof.
  unfold receive_actions. cbv zeta. set (payload := LimitReader decoded _).
  repeat case_match; intros [= <- <-];
    try (apply at_rejected; repeat (apply Forall_cons_2; [done|]); apply Forall_nil_2).
  bool_to_prop. apply at_start. split; [lia|]. apply elem_of_cons. left. congruence.
Qed.

Lemma upload_at_actions (d : Disk) (n : Z) (a : action) (l : list action) (e : option ChunkError) :
  upload_at p os d n (a :: l) e -> chunk_action n a.
Proof. inversion 1; subst; try done; [by eapply Forall_inv|]. naive_solver. Qed.

(** The next operation of the upload itself. *)
Lemma upload_at_next (d : Disk) (n : Z) (a : action) (l : list action) (e : option ChunkError) :
  disk_wf d -> upload_at p os d n (a :: l) e -> upload_at p os (apply_action a d) n l e.
Proof.
  intros Hwf. inversion 1 as [? ? Hl|c Hg|c i Hg Hn Hi|c i Hg Hn Hi|c i ? Hg Hn Hi Hl|]; subst; simpl.
  - apply at_rejected. by apply Forall_cons in Hl as [_ ?].
  - destruct (chunk_cur d !! n) as [i|] eqn:Hn.
    + apply (at_open _ _ _ _ c i); [done|done|]. simpl. apply lookup_insert_eq.
    + eapply (at_open _ _ _ _ c); [done|simpl; apply lookup_insert_eq|]. simpl. apply lookup_insert_eq.
  - rewrite Hn, Hi. apply (at_written _ _ _ _ c i); [done|done|]. simpl. apply lookup_insert_eq.
  - rewrite Hn, Hi. apply (at_synced _ _ _ _ c i); [done|done| |by left]. simpl. apply lookup_insert_eq.
  - destruct Hl as [[= -> ->]|[= -> ->]]; simpl.
    + apply (at_synced _ _ _ _ c i); auto.
    + apply at_durable. exists i, c. split_and!; try done.
Qed.

(** The operations of another upload do not disturb it. *)
Lemma upload_at_frame (d d' : Disk) (n k : Z) (l : list action) (e : option ChunkError) :
  disk_wf d -> chunk_frame n d d' -> k <> n -> upload_at p os d k l e -> upload_at p os d' k l e.
Proof.
  intros Hwf Hf Hk H.
  assert (Hin : forall i, chunk_cur d !! k = Some i ->
    chunk_cur d' !! k = Some i /\ inodes d' !! i = inodes d !! i).
  { intros i Hi. split; [by rewrite (cf_chunk n d d' Hf)|].
    apply (cf_inodes n d d' Hf); [|apply (wf_ref d Hwf); right; eauto with kipper].
    intros Hn. pose proof (Forall_inv (wf_chunk_inj d Hwf)) as Hinj. by apply Hk, (Hinj k n i). }
  destruct H as [? ? Hl|c Hg|c i Hg Hn Hi|c i Hg Hn Hi|c i ? Hg Hn Hi Hl|Hd];
    try (destruct (Hin i Hn) as [Hn' Hi']; rewrite <- Hi' in Hi).
  - by apply at_rejected.
  - by apply at_start.
  - by apply (at_open _ _ _ _ c i).
  - by apply (at_written _ _ _ _ c i).
  - by apply (at_synced _ _ _ _ c i).
  - apply at_durable. by apply (durable_frame p os n k d d').
Qed.

Lemma upload_at_offered (x : Z * string) (d : Disk) (n : Z) (l : list action) (e : option ChunkError) :
  upload_at p os d n l e -> upload_at p (x :: os) d n l e.
Proof.
  assert (Hg : forall c, good_content p os n c -> good_content p (x :: os) n c).
  { intros c [Hl Ho]. split; [done|by right]. }
  destruct 1; [by apply at_rejected|apply at_start; auto|eapply at_open; eauto|
    eapply at_written; eauto|eapply at_synced; eauto|apply at_durable].
  by apply durable_offered.
Qed.
End uploads.

(** What persisting the bitmap leaves alone. *)
Record state_frame (d d' : Disk) : Prop := mkStateFrame {
  sf_cur : chunk_cur d' = chunk_cur d;
  sf_old : chunk_old d' = chunk_old d;
  sf_inodes : forall i, chunk_ref d i -> inodes d' !! i = inodes d !! i;
}.

Lemma durable_state_frame (p : Plan) (os : list (Z * string)) (d d' : Disk) (n : Z) :
  state_frame d d' -> durable_chunk p os d n -> durable_chunk p os d' n.
Proof.
  intros [H1 H2 H3] (i & c & Hi & Hg & Hc & Ho). exists i, c. rewrite H1, H2, H3 by eauto with kipper. done.
Qed.

Lemma upload_state_frame (p : Plan) (os : list (Z * string)) (d d' : Disk) (n : Z)
    (l : list action) (e : option ChunkError) :
  state_frame d d' -> upload_at p os d n l e -> upload_at p os d' n l e.
Proof.
  intros Hf H. pose proof Hf as [H1 H2 H3].
  destruct H as [? ? Hl|c Hg|c i Hg Hn Hi|c i Hg Hn Hi|c i ? Hg Hn Hi Hl|Hd];
    try (rewrite <- (H3 i) in Hi by eauto with kipper; rewrite <- H1 in Hn).
  - by apply at_rejected.
  - by apply at_start.
  - by apply (at_open _ _ _ _ c i).
  - by apply (at_written _ _ _ _ c i).
  - by apply (at_synced _ _ _ _ c i).
  - apply at_durable. by apply (durable_state_frame p os d d').
Qed.

Abbreviation tmp_file := (InState bitmapTmpName).
Abbreviation commit := (Rename bitmapTmpName bitmapFileName).

(** Where persisting the bitmap [b] stands. *)
Inductive mark_at (d : Disk) (b : Bitmap) : list action -> Prop :=
| mk_start : mark_at d b (persistBitmap b)
| mk_open j :
    state_cur d !! bitmapTmpName = Some j -> inodes d !! j = Some ([], false) ->
    mark_at d b [Write tmp_file b; Sync tmp_file; Close tmp_file; commit; SyncStateDir]
| mk_written j :
    state_cur d !! bitmapTmpName = Some j -> inodes d !! j = Some (b, false) ->
    mark_at d b [Sync tmp_file; Close tmp_file; commit; SyncStateDir]
| mk_synced j l :
    state_cur d !! bitmapTmpName = Some j -> inodes d !! j = Some (b, true) ->
    l = [Close tmp_file; commit; SyncStateDir] \/ l = [commit; SyncStateDir] ->
    mark_at d b l
| mk_committed l : l = [SyncStateDir] \/ l = [] -> mark_at d b l.

(** Every bitmap that a crash can bring back is intact and only has bits in [P]. *)
Definition claims (d : Disk) (P : Z -> Prop) : Prop :=
  forall t i, t ∈ state_cur d :: state_old d -> t !! bitmapFileName = Some i ->
  exists bs, inodes d !! i = Some (bs, true) /\ forall n, 0 <= n -> Get bs n = true -> P n.

Lemma claims_mono (d : Disk) (P Q : Z -> Prop) :
  claims d P -> (forall n, 0 <= n -> P n -> Q n) -> claims d Q.
Proof. intros H HPQ t i Ht Hi. destruct (H t i Ht Hi) as (bs & Hbs & HP). eauto 8. Qed.

(** The temporary file, when it exists, is not a bitmap that a crash can bring back. *)
Lemma wf_set_tmp (d : Disk) (j : nat) (v : list Z * bool) (P : Z -> Prop) :
  disk_wf d -> claims d P -> state_cur d !! bitmapTmpName = Some j ->
  disk_wf (set_inode j v d) /\ claims (set_inode j v d) P /\ state_frame d (set_inode j v d).
Proof.
  intros Hwf Hc Hj. split; [by apply wf_set_inode|]. split.
  - intros t i Ht Hi. destruct (Hc t i Ht Hi) as (bs & Hbs & HP). exists bs. split; [|done].
    simpl. rewrite lookup_insert_ne; [done|]. intros ->. by apply (wf_tmp d Hwf i t Hj Ht).
  - constructor; try done. intros i Hi. simpl. rewrite lookup_insert_ne; [done|]. intros ->.
    apply (wf_apart d Hwf i); eauto with kipper.
Qed.

(** A new file of the state directory, other than the bitmap. *)
Lemma wf_link_state (d : Disk) (name : string) (i : nat) (v : list Z * bool) :
  disk_wf d -> inodes d !! i = None -> name <> bitmapFileName ->
  disk_wf (link (InState name) i (set_inode i v d)) /\ ~ state_ref d i /\ ~ chunk_ref d i.
Proof.
  intros [H1 H2 H3 H4 H5] Hi Hname.
  assert (Hs : ~ state_ref d i) by (intros H; destruct (H1 i); [by left|congruence]).
  assert (Hk : ~ chunk_ref d i) by (intros H; destruct (H1 i); [by right|congruence]).
  split_and!; [|done|done]. set (d' := link (InState name) i (set_inode i v d)).
  assert (Href : forall j, state_ref d' j -> j = i \/ state_ref d j).
  { intros j (t & a & Ht & Ha). simpl in Ht. apply elem_of_cons in Ht as [->|Ht]; [|right; by exists t, a].
    apply lookup_insert_Some in Ha as [[_ ->]|[_ Ha]]; [by left|right; eauto with kipper]. }
  constructor; simpl.
  - intros k Hr. destruct (decide (i = k)) as [->|Hne]; [by rewrite lookup_insert_eq|].
    rewrite lookup_insert_ne by done. apply H1. destruct Hr as [Hr|Hr]; [|by right].
    apply Href in Hr as [->|Hr]; [done|by left].
  - intros k Hr Hc. apply Href in Hr as [->|Hr]; [by apply Hk|by apply (H2 k)].
  - apply Forall_cons_2; [|done]. apply injective_insert; [by apply Forall_inv in H3|].
    intros b Hb. apply Hs. eauto with kipper.
  - done.
  - intros k t Hcur Ht. apply lookup_insert_Some in Hcur as [[_ <-]|[_ Hcur]].
    + intros Hb. apply elem_of_cons in Ht as [->|Ht].
      * rewrite lookup_insert_ne in Hb by done. apply Hs. eauto with kipper.
      * apply Hs. by exists t, bitmapFileName.
    + apply elem_of_cons in Ht as [->|Ht]; [|by apply (H5 k)].
      rewrite lookup_insert_ne by done. apply (H5 k); [done|left].
Qed.

Lemma wf_open_tmp (d : Disk) (P : Z -> Prop) :
  disk_wf d -> claims d P ->
  let d' := apply_action (OpenTrunc tmp_file) d in
  disk_wf d' /\ claims d' P /\ state_frame d d' /\
  exists j, state_cur d' !! bitmapTmpName = Some j /\ inodes d' !! j = Some ([], false).
Proof.
  intros Hwf Hc d'. subst d'. cbn [apply_action inode_of].
  destruct (state_cur d !! bitmapTmpName) as [j|] eqn:Hj.
  { destruct (wf_set_tmp d j ([], false) P Hwf Hc Hj) as (H1 & H2 & H3). split_and!; try done.
    exists j. split; [done|]. simpl. apply lookup_insert_eq. }
  set (i := fresh (dom (inodes d))). pose proof (fresh_inode d) as Hi. fold i in Hi.
  destruct (wf_link_state d bitmapTmpName i ([], false) Hwf Hi) as (Hwf' & Hs & Hk); [done|].
  split_and!; [done| | |exists i; simpl; by rewrite !lookup_insert_eq].
  - intros t k Ht Hb. simpl in Ht.
    assert (Ht' : exists t', t' ∈ state_cur d :: state_old d /\ t' !! bitmapFileName = Some k).
    { apply elem_of_cons in Ht as [->|Ht]; [|by exists t].
      rewrite lookup_insert_ne in Hb by done. exists (state_cur d). split; [left|done]. }
    destruct Ht' as (t' & Ht' & Hb'). destruct (Hc t' k Ht' Hb') as (bs & Hbs & HP).
    exists bs. split; [|done]. simpl. rewrite lookup_insert_ne; [done|]. intros <-.
    apply Hs. by exists t', bitmapFileName.
  - constructor; try done. intros k Hr. simpl. rewrite lookup_insert_ne; [done|]. by intros <-.
Qed.

(** The commit: the new bitmap takes the place of the old one. *)
Lemma commit_ref (d : Disk) (j : nat) (t : gmap string nat) (a : string) (k : nat) :
  state_cur d !! bitmapTmpName = Some j ->
  t ∈ state_cur (apply_action commit d) :: state_old (apply_action commit d) -> t !! a = Some k ->
  (k = j /\ a = bitmapFileName) \/ (exists t', t' ∈ state_cur d :: state_old d /\ t' !! a = Some k).
Proof.
  intros Hj. cbn [apply_action]. rewrite Hj. simpl. intros Ht Ha.
  apply elem_of_cons in Ht as [->|Ht]; [|right; by exists t].
  apply lookup_insert_Some in Ha as [[<- <-]|[_ Ha]]; [by left|right].
  apply lookup_delete_Some in Ha as [_ Ha]. exists (state_cur d). split; [left|done].
Qed.

Lemma wf_commit_disk (d : Disk) (j : nat) :
  disk_wf d -> state_cur d !! bitmapTmpName = Some j -> disk_wf (apply_action commit d).
Proof.
  intros [H1 H2 H3 H4 H5] Hj.
  assert (Hsr : forall k, state_ref (apply_action commit d) k -> state_ref d k).
  { intros k (t & a & Ht & Ha).
    destruct (commit_ref d j t a k Hj Ht Ha) as [[-> _]|(t' & Ht' & Ha')]; [eauto with kipper|by exists t', a]. }
  revert Hsr. cbn [apply_action]. rewrite Hj. intros Hsr. constructor; simpl.
  - intros k [Hr|Hr]; apply H1; auto.
  - intros k Hr. apply H2; auto.
  - apply Forall_cons_2; [|done]. pose proof (Forall_inv H3) as Hinj.
    intros a c k. rewrite !lookup_insert_Some, !lookup_delete_Some.
    intros [[<- <-]|(Ha & Ht & Ha')] [[<- Hk]|(Hc1 & Hct & Hc')]; try done.
    + exfalso. apply Hct. by apply (Hinj bitmapTmpName c j).
    + subst k. exfalso. apply Ht. by apply (Hinj bitmapTmpName a j).
    + by apply (Hinj a c k).
  - done.
  - intros k t Hcur. exfalso. by rewrite lookup_insert_ne, lookup_delete_eq in Hcur.
Qed.

Lemma wf_commit (d : Disk) (b : Bitmap) (j : nat) (P Q : Z -> Prop) :
  disk_wf d -> claims d P -> state_cur d !! bitmapTmpName = Some j ->
  inodes d !! j = Some (b, true) -> (forall n, 0 <= n -> P n -> Q n) ->
  (forall n, 0 <= n -> Get b n = true -> Q n) ->
  disk_wf (apply_action commit d) /\ claims (apply_action commit d) Q /\
  state_frame d (apply_action commit d).
Proof.
  intros Hwf Hc Hj Hb HPQ HQ. split; [by apply (wf_commit_disk d j)|].
  assert (Hin : inodes (apply_action commit d) = inodes d) by (cbn [apply_action]; by rewrite Hj).
  split.
  - intros t k Ht Ha. rewrite Hin.
    destruct (commit_ref d j t _ k Hj Ht Ha) as [[-> _]|(t' & Ht' & Ha')]; [eauto|].
    destruct (Hc t' k Ht' Ha') as (bs & Hbs & HP). exists bs. split; [done|]. intros n Hn Hg.
    apply HPQ; auto.
  - cbn [apply_action]. rewrite Hj. by constructor.
Qed.

Lemma wf_sync_state_disk (d : Disk) : disk_wf d -> disk_wf (apply_action SyncStateDir d).
Proof.
  intros [H1 H2 H3 H4 H5].
  assert (Hsr : forall k, state_ref (apply_action SyncStateDir d) k -> state_ref d k).
  { intros k (t & a & Ht & Ha). simpl in Ht. apply list_elem_of_singleton in Ht as ->.
    eauto with kipper. }
  constructor; simpl; try done.
  - intros k [Hr|Hr]; apply H1; auto.
  - intros k Hr. apply H2; auto.
  - apply Forall_inv in H3. by apply Forall_singleton.
  - intros k t Hcur Ht. apply list_elem_of_singleton in Ht as ->. apply (H5 k); [done|left].
Qed.

Lemma wf_sync_state (d : Disk) (P : Z -> Prop) :
  disk_wf d -> claims d P ->
  disk_wf (apply_action SyncStateDir d) /\ claims (apply_action SyncStateDir d) P /\
  state_frame d (apply_action SyncStateDir d).
Proof.
  intros Hwf Hc. split_and!; [by apply wf_sync_state_disk| |by constructor].
  intros t k Ht Ha. simpl in Ht. apply list_elem_of_singleton in Ht as ->.
  apply (Hc (state_cur d) k); [left|done].
Qed.

(** The bits a crash can bring back while chunk [n] is marked: until the commit,
    not that of [n]. *)
Definition on_disk (b : Bitmap) (mk : option (Z * list action)) (k : Z) : Prop :=
  Get b k = true /\ match mk with Some (n, l) => commit ∈ l -> k <> n | None => True end.

Lemma mark_next (d : Disk) (b : Bitmap) (n : Z) (a : action) (l : list action) :
  disk_wf d -> mark_at d b (a :: l) -> claims d (on_disk b (Some (n, a :: l))) ->
  let d' := apply_action a d in
  disk_wf d' /\ mark_at d' b l /\ claims d' (on_disk b (Some (n, l))) /\ state_frame d d'.
Proof.
  intros Hwf Hm Hc d'.
  assert (Hkeep : commit ∈ l -> forall k, 0 <= k -> on_disk b (Some (n, a :: l)) k -> on_disk b (Some (n, l)) k).
  { intros _ k _ [Hg Hk]. split; [done|]. intros Hin. apply Hk. by right. }
  assert (Hcl : commit ∈ l -> claims d (on_disk b (Some (n, l)))).
  { intros Hin. eapply claims_mono; [exact Hc|auto]. }
  inversion Hm as [Heq|j Hj Hi Heq|j Hj Hi Heq|j ? Hj Hi Hl|? Hl]; subst; subst d'.
  - assert (Hin : commit ∈ tl (persistBitmap b)) by (simpl; rewrite !elem_of_cons; tauto).
    destruct (wf_open_tmp d _ Hwf (Hcl Hin)) as (H1 & H2 & H3 & j & Hj & Hi).
    split_and!; try done. by apply (mk_open _ _ j).
  - destruct (wf_set_tmp d j (b, false) _ Hwf (Hcl ltac:(rewrite !elem_of_cons; tauto)) Hj) as (H1 & H2 & H3).
    cbn [apply_action inode_of]. rewrite Hj, Hi. split_and!; try done.
    apply (mk_written _ _ j); [done|]. simpl. apply lookup_insert_eq.
  - destruct (wf_set_tmp d j (b, true) _ Hwf (Hcl ltac:(rewrite !elem_of_cons; tauto)) Hj) as (H1 & H2 & H3).
    cbn [apply_action inode_of]. rewrite Hj, Hi. split_and!; try done.
    apply (mk_synced _ _ j); [done| |by left]. simpl. apply lookup_insert_eq.
  - destruct Hl as [[= -> ->]|[= -> ->]].
    + cbn [apply_action]. split_and!; [done| |apply Hcl; rewrite elem_of_cons; tauto|by constructor].
      apply (mk_synced _ _ j); [done|done|by right].
    + assert (Hin : forall k, on_disk b (Some (n, [SyncStateDir])) k <-> Get b k = true).
      { intros k. split; [by intros [? _]|]. intros Hg. split; [done|].
        intros Hx. by apply list_elem_of_singleton in Hx. }
      destruct (wf_commit d b j _ (on_disk b (Some (n, [SyncStateDir]))) Hwf Hc Hj Hi) as (H1 & H2 & H3).
      * intros k _ [Hg _]. by apply Hin.
      * intros k _ Hg. by apply Hin.
      * split_and!; try done. apply mk_committed. by left.
  - destruct Hl as [[= -> ->]|[=]].
    destruct (wf_sync_state d (on_disk b (Some (n, []))) Hwf) as (H1 & H2 & H3).
    { eapply claims_mono; [exact Hc|]. intros k _ [Hg _]. split; [done|]. intros Hx. by apply elem_of_nil in Hx. }
    split_and!; try done. apply mk_committed. by right.
Qed.

(** An operation that fails, other than the last sync, leaves no trace of the bit. *)
Lemma mark_failed (d : Disk) (b : Bitmap) (n : Z) (a : action) (l : list action) (k : leftover) :
  disk_wf d -> mark_at d b (a :: l) -> claims d (on_disk b (Some (n, a :: l))) ->
  a <> SyncStateDir ->
  let d' := apply_failed a k d in
  disk_wf d' /\ claims d' (fun x => Get b x = true /\ x <> n) /\ state_frame d d'.
Proof.
  intros Hwf Hm Hc Ha d'.
  assert (Hcl : commit ∈ a :: l -> claims d (fun x => Get b x = true /\ x <> n)).
  { intros Hin. eapply claims_mono; [exact Hc|]. intros x _ [Hg Hx]. auto. }
  assert (Hin : commit ∈ a :: l).
  { inversion Hm as [Heq|j Hj Hi Heq|j Hj Hi Heq|j ? Hj Hi Hl|? Hl]; subst;
      try (rewrite !elem_of_cons; tauto).
    - destruct Hl as [[= -> ->]|[= -> ->]]; rewrite !elem_of_cons; tauto.
    - destruct Hl as [[= -> ->]|[=]]. done. }
  specialize (Hcl Hin). subst d'.
  assert (Hsame : disk_wf d /\ claims d (fun x => Get b x = true /\ x <> n) /\ state_frame d d).
  { split_and!; [done|done|by constructor]. }
  destruct a, k; try exact Hsame; cbn [apply_failed]; [|by inversion Hm; subst; match goal with Hl : _ \/ _ |- _ => destruct Hl as [[=]|[=]] end].
  inversion Hm as [|j Hj Hi Heq|j Hj Hi Heq|j ? Hj Hi Hl|? Hl]; subst;
    [|destruct Hl as [[=]|[=]]..].
  cbn [apply_action inode_of]. rewrite Hj, Hi. by apply wf_set_tmp.
Qed.

(** ** The invariant. *)
Section invariant.
Context (p : Plan).

Record sys_inv (s : Sys) : Prop := mkInv {
  inv_wf : disk_wf (disk s);
  inv_uniq : forall id id' u u', uploads s !! id = Some u -> uploads s !! id' = Some u' ->
    chunk u = chunk u' -> id = id';
  inv_uploads : forall id u, uploads s !! id = Some u ->
    0 <= chunk u /\ upload_at p (offered s) (disk s) (chunk u) (todo u) (problem u);
  inv_bits : forall n, 0 <= n -> Get (bits s) n = true ->
    durable_chunk p (offered s) (disk s) n /\ ~ uploading (uploads s) n;
  inv_disk : claims (disk s) (on_disk (bits s) (marking s));
  inv_marking : match marking s with
                | Some (n, l) => 0 <= n /\ mark_at (disk s) (bits s) l
                | None => True
                end;
}.

Lemma inv_fresh (s : Sys) : fresh_state p s -> sys_inv s.
Proof.
  destruct s as [d b us mk os].
  intros (Hwf & ? & ? & ? & Hb0 & Hso & i & Hbm & Hi). simpl in *. subst.
  assert (Hzero : forall n, 0 <= n -> Get b n = true -> False).
  { intros n Hn Hg. by rewrite (NewBitmap_Get _ _ _ Hn Hb0) in Hg. }
  constructor; simpl; try done.
  - intros n Hn Hg. by destruct (Hzero n Hn Hg).
  - intros t j Ht Hj. rewrite Hso in Ht. apply list_elem_of_singleton in Ht as ->.
    rewrite Hbm in Hj. injection Hj as <-. exists b. split; [done|].
    intros n Hn Hg. by destruct (Hzero n Hn Hg).
Qed.

Lemma uploading_delete (us : gmap nat Upload) (id : nat) (n : Z) :
  uploading (delete id us) n -> uploading us n.
Proof.
  intros (id' & u & Hu & Hn). apply lookup_delete_Some in Hu as [_ Hu]. by exists id', u.
Qed.

(** Chunk actions of one upload, whatever becomes of the request. *)
Lemma inv_chunk_step (d d' : Disk) (b : Bitmap) (us us' : gmap nat Upload)
    (mk : option (Z * list action)) (os : list (Z * string)) (id : nat) (u : Upload) :
  sys_inv (mkSys d b us mk os) -> us !! id = Some u ->
  disk_wf d' -> chunk_frame (chunk u) d d' ->
  (us' = delete id us \/ exists l, us' = <[id := mkUpload (chunk u) l (problem u)]> us /\
     upload_at p os d' (chunk u) l (problem u)) ->
  sys_inv (mkSys d' b us' mk os).
Proof.
  intros [Hwf Huq Hup Hbits Hdisk Hmark] Hu Hwf' Hf Hus'. simpl in *.
  assert (Hold : forall id' u', us' !! id' = Some u' ->
    exists u0, us !! id' = Some u0 /\ chunk u0 = chunk u' /\
      (id' <> id -> u' = u0) /\ (id' = id -> upload_at p os d' (chunk u') (todo u') (problem u'))).
  { intros id' u' Hu'. destruct Hus' as [->|(l & -> & Hl)].
    - apply lookup_delete_Some in Hu' as [Hne Hu']. exists u'. split_and!; auto. congruence.
    - apply lookup_insert_Some in Hu' as [[<- <-]|[Hne Hu']].
      + exists u. split_and!; auto. done.
      + exists u'. split_and!; auto. congruence. }
  assert (Hst : forall i, state_ref d i -> inodes d' !! i = inodes d !! i).
  { intros i. by apply (state_inode_frame (chunk u)). }
  constructor; simpl.
  - done.
  - intros id1 id2 u1 u2 H1 H2 Hc. destruct (Hold id1 u1 H1) as (v1 & Hv1 & Hc1 & _).
    destruct (Hold id2 u2 H2) as (v2 & Hv2 & Hc2 & _). apply (Huq id1 id2 v1 v2); congruence.
  - intros id' u' Hu'. destruct (Hold id' u' Hu') as (u0 & Hu0 & Hc0 & Hne & Heq).
    destruct (Hup id' u0 Hu0) as [H0 Hat]. split; [by rewrite <- Hc0|].
    destruct (decide (id' = id)) as [->|Hd]; [by apply Heq|]. rewrite (Hne Hd).
    apply (upload_at_frame p os d d' (chunk u)); try done. intros Hx. apply Hd.
    by apply (Huq id' id u0 u).
  - intros n Hn Hg. destruct (Hbits n Hn Hg) as [Hd Hnu]. split.
    + apply (durable_frame p os (chunk u) n d d'); try done. intros ->. apply Hnu. by exists id, u.
    + intros (id' & u' & Hu' & Hcu). apply Hnu. destruct (Hold id' u' Hu') as (u0 & Hu0 & Hc0 & _).
      exists id', u0. split; [done|congruence].
  - intros t i Ht Hi. rewrite (cf_state_cur _ _ _ Hf), (cf_state_old _ _ _ Hf) in Ht.
    rewrite Hst by (by exists t, bitmapFileName). by apply Hdisk with (t := t).
  - destruct mk as [[n l]|]; [|done]. destruct Hmark as [Hn Hm]. split; [done|].
    assert (Htmp : forall j v, state_cur d !! bitmapTmpName = Some j -> inodes d !! j = Some v ->
      state_cur d' !! bitmapTmpName = Some j /\ inodes d' !! j = Some v).
    { intros j v Hj Hi. rewrite (cf_state_cur _ _ _ Hf), Hst by eauto with kipper. done. }
    destruct Hm as [|j Hj Hi|j Hj Hi|j l Hj Hi Hl|l Hl]; try (destruct (Htmp _ _ Hj Hi) as [Hj' Hi']).
    + apply mk_start.
    + by apply (mk_open _ _ j).
    + by apply (mk_written _ _ j).
    + by apply (mk_synced _ _ j).
    + by apply mk_committed.
Qed.

(** Operations on the bitmap, whatever becomes of the mark. *)
Lemma inv_state_step (d d' : Disk) (b b' : Bitmap) (us : gmap nat Upload)
    (mk mk' : option (Z * list action)) (os : list (Z * string)) :
  sys_inv (mkSys d b us mk os) -> disk_wf d' -> state_frame d d' ->
  (forall k, 0 <= k -> Get b' k = true -> Get b k = true) ->
  claims d' (on_disk b' mk') ->
  match mk' with Some (n, l) => 0 <= n /\ mark_at d' b' l | None => True end ->
  sys_inv (mkSys d' b' us mk' os).
Proof.
  intros [Hwf Huq Hup Hbits Hdisk Hmark] Hwf' Hf Hb Hc Hm. simpl in *.
  constructor; simpl; try done.
  - intros id u Hu. destruct (Hup id u Hu) as [H0 Hat]. split; [done|].
    by apply (upload_state_frame p os d d').
  - intros n Hn Hg. destruct (Hbits n Hn (Hb n Hn Hg)) as [Hd Hnu]. split; [|done].
    by apply (durable_state_frame p os d d').
Qed.

Lemma inv_begin (d : Disk) (b : Bitmap) (us : gmap nat Upload) (os : list (Z * string))
    (id : nat) (n : Z) (wantSum : string) (l : list action) (e : option ChunkError) :
  sys_inv (mkSys d b us None os) -> 0 <= n -> Get b n = false -> us !! id = None ->
  ~ uploading us n -> upload_at p ((n, wantSum) :: os) d n l e ->
  sys_inv (mkSys d b (<[id := mkUpload n l e]> us) None ((n, wantSum) :: os)).
Proof.
  intros [Hwf Huq Hup Hbits Hdisk Hmark] Hn Hg Hid Hnu Hat. simpl in *.
  constructor; simpl; try done.
  - intros i1 i2 u1 u2. rewrite !lookup_insert_Some.
    intros [[<- <-]|[H1 H1']] [[<- <-]|[H2 H2']]; simpl; intros Hc; try done.
    + destruct Hnu. by exists i2, u2.
    + destruct Hnu. by exists i1, u1.
    + by apply (Huq i1 i2 u1 u2).
  - intros i u. rewrite lookup_insert_Some. intros [[<- <-]|[_ Hu]]; [done|].
    destruct (Hup i u Hu) as [H0 H1]. split; [done|]. by apply upload_at_offered.
  - intros k Hk Hgk. destruct (Hbits k Hk Hgk) as [Hd Hku]. split; [by apply durable_offered|].
    intros (i & u & Hu & Hc). apply lookup_insert_Some in Hu as [[<- <-]|[_ Hu]].
    + simpl in Hc. subst k. congruence.
    + apply Hku. by exists i, u.
Qed.

Lemma inv_mark_begin (d : Disk) (b b' : Bitmap) (us : gmap nat Upload) (os : list (Z * string))
    (id : nat) (n : Z) :
  sys_inv (mkSys d b us None os) -> us !! id = Some (mkUpload n [] None) -> Set_ b n = Some b' ->
  sys_inv (mkSys d b' (delete id us) (Some (n, persistBitmap b')) os).
Proof.
  intros [Hwf Huq Hup Hbits Hdisk Hmark] Hid Hset. simpl in *.
  destruct (Hup id _ Hid) as [Hn Hat]. simpl in *.
  assert (Hd : durable_chunk p os d n) by (inversion Hat; subst; naive_solver).
  assert (Hget : forall k, 0 <= k -> Get b' k = (k =? n) || Get b k) by (intros k Hk; by apply Set_spec).
  constructor; simpl; try done.
  - intros i1 i2 u1 u2 H1 H2. apply lookup_delete_Some in H1 as [_ H1], H2 as [_ H2].
    by apply (Huq i1 i2).
  - intros i u Hu. apply lookup_delete_Some in Hu as [_ Hu]. by apply (Hup i).
  - intros k Hk Hg. rewrite Hget in Hg by done. apply orb_true_iff in Hg as [Hg|Hg].
    + bool_to_prop. subst k. split; [done|]. intros (i & u & Hu & Hc).
      apply lookup_delete_Some in Hu as [Hne Hu]. apply Hne. by apply (Huq id i (mkUpload n [] None) u).
    + destruct (Hbits k Hk Hg) as [Hdk Hku]. split; [done|]. intros Hu. apply Hku. by apply (uploading_delete us id).
  - eapply claims_mono; [exact Hdisk|]. intros k Hk [Hg _]. split.
    + rewrite Hget, Hg by done. apply orb_true_r.
    + intros _ ->. destruct (Hbits n Hk Hg) as [_ Hnu]. apply Hnu. by exists id, (mkUpload n [] None).
  - split; [done|apply mk_start].
Qed.

Lemma inv_restart (d d' : Disk) (b b' : Bitmap) (us : gmap nat Upload)
    (mk : option (Z * list action)) (os : list (Z * string)) :
  sys_inv (mkSys d b us mk os) -> crash d d' ->
  read_file d' (InState bitmapFileName) = Some b' ->
  sys_inv (mkSys d' b' ∅ None os) /\ forall k, 0 <= k -> Get b' k = true -> Get b k = true.
Proof.
  intros [Hwf Huq Hup Hbits Hdisk Hmark] [scur ccur ins Hs Hc Hdom Hins] Hr. simpl in *.
  unfold read_file in Hr. simpl in Hr.
  apply bind_Some in Hr as (i & Hi & Hr). apply bind_Some in Hr as (v & Hv & [= <-]).
  destruct (Hdisk scur i Hs Hi) as (bs & Hbs & HP).
  rewrite (Hins i bs Hbs) in Hv. injection Hv as <-. simpl.
  assert (Hsub : forall k, 0 <= k -> Get bs k = true -> Get b k = true).
  { intros k Hk Hg. by destruct (HP k Hk Hg). }
  split; [|done]. constructor; simpl; try done.
  - destruct Hwf as [H1 H2 H3 H4 H5]. rewrite Forall_forall in H3. rewrite Forall_forall in H4. constructor; simpl.
    + intros j Hj. apply elem_of_dom. rewrite Hdom. apply elem_of_dom, H1.
      destruct Hj as [(t & a & Ht & Ha)|(t & a & Ht & Ha)]; simpl in Ht;
        apply list_elem_of_singleton in Ht as ->; [left; by exists scur, a|right; by exists ccur, a].
    + intros j (t & a & Ht & Ha) (t' & a' & Ht' & Ha'). simpl in Ht, Ht'.
      apply list_elem_of_singleton in Ht as ->, Ht' as ->.
      apply (H2 j); [by exists scur, a|by exists ccur, a'].
    + apply Forall_singleton. by apply H3.
    + apply Forall_singleton. by apply H4.
    + intros j t Hj Ht Hb. apply list_elem_of_singleton in Ht as ->.
      specialize (H3 scur Hs _ _ _ Hj Hb). done.
  - intros k Hk Hg. destruct (Hbits k Hk (Hsub k Hk Hg)) as [(j & c & Hj & Hgc & Hcur & Hold) _]. split.
    + exists j, c. simpl. split_and!; [by apply Hins|done| |by apply Forall_nil_2].
      apply elem_of_cons in Hc as [->|Hc]; [done|]. rewrite Forall_forall in Hold. by apply Hold.
    + intros (id & u & Hu & _). by rewrite lookup_empty in Hu.
  - intros t j Ht Hj. simpl in Ht. apply list_elem_of_singleton in Ht as ->.
    rewrite Hi in Hj. injection Hj as <-. exists bs. split; [by apply Hins|]. by intros k _ Hg.
Qed.

(** Without overlapping uploads of a chunk and with a state directory that syncs,
    every step keeps the invariant. *)
Lemma inv_step (s s' : Sys) : sys_inv s -> sys_step p false false s s' -> sys_inv s'.
Proof.
  intros Hi Hs. destruct Hs as
    [d b us os id n wantSum decoded broken l e Hn Hg Hid Hov Hr
    |d b us mk os id n a l e Hid|d b us mk os id n a l e k Hid|d b us mk os id n e Hid
    |d b us os id n b' Hid Hset|d b us os n a l|d b us os n a l k b' Ha Hcl|d b us os n
    |d d' b b' us mk os Hcr Hrd].
  - apply inv_begin; try done; [lia|by destruct Hov|by eapply upload_at_start].
  - destruct (inv_uploads _ Hi id _ Hid) as [_ Hat]. simpl in Hat.
    pose proof (inv_wf _ Hi) as Hwf. pose proof (upload_at_actions _ _ _ _ _ _ _ Hat) as Hact.
    apply (inv_chunk_step d _ b us _ mk os id _ Hi Hid); simpl.
    + by apply (wf_chunk_action d n).
    + by apply frame_chunk_action.
    + right. exists l. split; [done|]. by apply upload_at_next.
  - destruct (inv_uploads _ Hi id _ Hid) as [_ Hat]. simpl in Hat.
    pose proof (inv_wf _ Hi) as Hwf. pose proof (upload_at_actions _ _ _ _ _ _ _ Hat) as Hact.
    destruct (failed_chunk_action d n a k Hwf Hact) as [Hwf' Hf].
    apply (inv_chunk_step d _ b us _ mk os id _ Hi Hid); auto.
  - apply (inv_chunk_step d _ b us _ mk os id _ Hi Hid); auto.
    + apply (inv_wf _ Hi).
    + by constructor; auto.
  - by apply (inv_mark_begin d b b' us os id n).
  - destruct (inv_marking _ Hi) as [Hn Hm]. simpl in *.
    destruct (mark_next d b n a l (inv_wf _ Hi) Hm (inv_disk _ Hi)) as (H1 & H2 & H3 & H4).
    by apply (inv_state_step d _ b b us (Some (n, a :: l)) _ os Hi).
  - destruct (inv_marking _ Hi) as [Hn Hm]. simpl in *. destruct Ha as [?|Ha]; [done|].
    destruct (mark_failed d b n a l k (inv_wf _ Hi) Hm (inv_disk _ Hi) Ha) as (H1 & H2 & H3).
    assert (Hget : forall x, 0 <= x -> Get b' x = negb (x =? n) && Get b x) by (intros x Hx; by apply Clear_spec).
    apply (inv_state_step d _ b b' us (Some (n, a :: l)) _ os Hi); try done.
    + intros x Hx. rewrite Hget by done. by intros [_ ?]%andb_true_iff.
    + eapply claims_mono; [exact H2|]. intros x Hx [Hgx Hne]. split; [|done].
      rewrite Hget, Hgx by done. destruct (Z.eqb_spec x n); done.
  - apply (inv_state_step d d b b us (Some (n, [])) _ os Hi); try done.
    + apply (inv_wf _ Hi).
    + eapply claims_mono; [apply (inv_disk _ Hi)|]. by intros x Hx [Hgx _].
  - by destruct (inv_restart d d' b b' us mk os Hi Hcr Hrd).
Qed.
End invariant.

(** ** Executions. *)

Definition run_all (d : Disk) (l : list action) : Disk := foldl (fun d a => apply_action a d) d l.

Section executions.
Context (p : Plan) (overlapping dir_sync_fails : bool).

Abbreviation steps := (rtc (sys_step p overlapping dir_sync_fails)).

Lemma run_upload (d : Disk) (b : Bitmap) (us : gmap nat Upload) (mk : option (Z * list action))
    (os : list (Z * string)) (id : nat) (n : Z) (l1 l2 : list action) (e : option ChunkError) :
  us !! id = Some (mkUpload n (l1 ++ l2) e) ->
  steps (mkSys d b us mk os) (mkSys (run_all d l1) b (<[id := mkUpload n l2 e]> us) mk os).
Proof.
  revert d us. induction l1 as [|a l1 IH]; intros d us Hu.
  - simpl. rewrite insert_id by done. apply rtc_refl.
  - eapply rtc_l; [by apply (up_act p _ _ d b us mk os id n a (l1 ++ l2) e)|].
    specialize (IH (apply_action a d) (<[id := mkUpload n (l1 ++ l2) e]> us)).
    rewrite insert_insert_eq in IH. apply IH, lookup_insert_eq.
Qed.

Lemma run_mark (d : Disk) (b : Bitmap) (us : gmap nat Upload) (os : list (Z * string)) (n : Z)
    (l1 l2 : list action) :
  steps (mkSys d b us (Some (n, l1 ++ l2)) os) (mkSys (run_all d l1) b us (Some (n, l2)) os).
Proof.
  revert d. induction l1 as [|a l1 IH]; intros d; [apply rtc_refl|].
  eapply rtc_l; [apply mark_act|]. apply IH.
Qed.

(** A request goes through all its file operations. *)
Lemma run_receive (d : Disk) (b : Bitmap) (us : gmap nat Upload) (os : list (Z * string))
    (id : nat) (n : Z) (wantSum : string) (payload : list Z) (l1 l2 : list action)
    (e : option ChunkError) :
  0 <= n < NumChunks p -> Get b n = false -> us !! id = None ->
  overlapping = true \/ ~ uploading us n ->
  receive_actions p n wantSum payload false = (l1 ++ l2, e) ->
  steps (mkSys d b us None os)
    (mkSys (run_all d l1) b (<[id := mkUpload n l2 e]> us) None ((n, wantSum) :: os)).
Proof.
  intros Hn Hg Hid Hov Hr. eapply rtc_l; [by eapply up_begin|].
  pose proof (run_upload d b (<[id := mkUpload n (l1 ++ l2) e]> us) None ((n, wantSum) :: os)
    id n l1 l2 e) as H. rewrite insert_insert_eq in H. apply H, lookup_insert_eq.
Qed.

(** A staged chunk is marked, up to any point of persisting the bitmap. *)
Lemma run_commit (d : Disk) (b b' : Bitmap) (us : gmap nat Upload) (os : list (Z * string))
    (id : nat) (n : Z) (l1 l2 : list action) :
  us !! id = Some (mkUpload n [] None) -> Set_ b n = Some b' -> persistBitmap b' = l1 ++ l2 ->
  steps (mkSys d b us None os)
    (mkSys (run_all d l1) b' (delete id us) (Some (n, l2)) os).
Proof.
  intros Hid Hs Hl. eapply rtc_l; [by eapply mark_begin|]. rewrite Hl. apply run_mark.
Qed.

(** An upload that nothing disturbs ends with its chunk marked. *)
Lemma upload_completes (d : Disk) (b b' : Bitmap) (os : list (Z * string)) (n : Z)
    (wantSum : string) (payload : list Z) (l : list action) :
  0 <= n < NumChunks p -> Get b n = false -> Set_ b n = Some b' ->
  receive_actions p n wantSum payload false = (l, None) ->
  steps (mkSys d b ∅ None os)
    (mkSys (run_all (run_all d l) (persistBitmap b')) b' ∅ None ((n, wantSum) :: os)).
Proof.
  intros Hn Hg Hs Hr. etrans.
  { eapply (run_receive d b ∅ os 0%nat n wantSum payload l []); try done.
    - right. intros (id & u & Hu & _). by rewrite lookup_empty in Hu.
    - by rewrite app_nil_r. }
  etrans.
  { eapply (run_commit _ b b' _ _ 0%nat n (persistBitmap b') []); [|done|by rewrite app_nil_r].
    apply lookup_insert_eq. }
  rewrite delete_insert_id by done. eapply rtc_l; [apply mark_done|apply rtc_refl].
Qed.
End executions.

Definition demo_plan : Plan := NewPlan demo_manifest.

Definition demo_disk : Disk :=
  mkDisk {[0%nat := ([0], true)]} {[bitmapFileName := 0%nat]} [] ∅ [].

Definition demo_fresh : Sys := mkSys demo_disk [0] ∅ None [].

Definition demo_payload : list Z := [97; 98; 99; 100].

Definition demo_sum : string := hex_encode (Sum256_bytes demo_payload).

Definition demo_ops : list action := (receive_actions demo_plan 0 demo_sum demo_payload false).1.

Definition demo_staged_disk : Disk := run_all (run_all demo_disk demo_ops) (persistBitmap [1]).

Lemma demo_fresh_ok : fresh_state demo_plan demo_fresh.
Proof.
  split.
  { constructor; simpl.
    - intros i [(t & a & Ht & Ha)|(t & a & Ht & Ha)]; apply list_elem_of_singleton in Ht as ->;
        unfold demo_disk in Ha; cbn [state_cur chunk_cur] in Ha.
      + apply lookup_singleton_Some in Ha as [_ <-]. by eexists.
      + by rewrite lookup_empty in Ha.
    - intros i _ (t & a & Ht & Ha). apply list_elem_of_singleton in Ht as ->.
      unfold demo_disk in Ha. cbn [chunk_cur] in Ha. by rewrite lookup_empty in Ha.
    - apply Forall_singleton. intros n1 n2 j. rewrite !lookup_singleton_Some. by intros [<- _] [<- _].
    - apply Forall_singleton. intros n1 n2 j H. by rewrite lookup_empty in H.
    - intros j t H. by rewrite lookup_singleton_ne in H. }
  split_and!; try done. by exists 0%nat.
Qed.

Lemma demo_receive : receive_actions demo_plan 0 demo_sum demo_payload false = (demo_ops, None).
Proof. vm_compute. reflexivity. Qed.

Lemma demo_ops_split : [OpenTrunc (ChunkPath 0)] ++ tl demo_ops = demo_ops.
Proof. vm_compute. reflexivity. Qed.

(** A crash may also lose nothing. *)
Lemma crash_nothing_lost (d : Disk) :
  crash d (mkDisk (inodes d) (state_cur d) [] (chunk_cur d) []).
Proof. constructor; auto; left. Qed.

Definition demo_crashed : Disk :=
  mkDisk (inodes demo_staged_disk) (state_cur demo_staged_disk) [] (chunk_cur demo_staged_disk) [].

Lemma demo_steps :
  rtc (sys_step demo_plan false false) demo_fresh (mkSys demo_staged_disk [1] ∅ None [(0, demo_sum)]).
Proof.
  apply (upload_completes demo_plan false false demo_disk [0] [1] [] 0 demo_sum demo_payload);
    [vm_compute; done|done|done|apply demo_receive].
Qed.

(** ** Properties. *)

(** C4: resume only skips durable data. After any sequence of concurrent uploads of
    distinct chunks, of failures of any file operation but the last sync of the
    state directory, and of crashes with restarts, whatever a further crash leaves:
    every chunk that the bitmap on disk reports as done is staged in full, with the
    planned length and a digest that the exporter announced for that chunk. *)
Theorem staging_crash_safe (p : Plan) (s0 s : Sys) (d : Disk) (b : Bitmap) :
  fresh_state p s0 -> rtc (sys_step p false false) s0 s ->
  crash (disk s) d -> read_file d (InState bitmapFileName) = Some b ->
  forall n, 0 <= n -> Get b n = true ->
  exists c, read_file d (ChunkPath n) = Some c /\ good_content p (offered s) n c.
Proof.
  intros H0 Hr Hc Hb n Hn Hg.
  assert (Hi : sys_inv p s).
  { revert Hr. apply (rtc_ind_r (sys_inv p)); [by apply inv_fresh|].
    intros s1 s2 _ Hs IH. by apply (inv_step p s1). }
  destruct s as [ds bs us mk os]. simpl in *.
  destruct (inv_restart p ds d bs b us mk os Hi Hc Hb) as [Hi' _].
  destruct (inv_bits p _ Hi' n Hn Hg) as [(i & c & Hin & Hgc & Hcur & _) _]. simpl in *.
  exists c. split; [|done]. unfold read_file. simpl. by rewrite Hcur; simpl; rewrite Hin.
Qed.

(** The state endpoint never claims a chunk that is not durable. In every
    reachable state a bit of the bitmap in memory stands for a chunk that is staged
    in full, is being uploaded by nobody, and survives every crash. *)
Theorem claimed_chunks_are_durable (p : Plan) (s0 s : Sys) :
  fresh_state p s0 -> rtc (sys_step p false false) s0 s ->
  forall n, 0 <= n -> Get (bits s) n = true ->
  ~ uploading (uploads s) n /\
  forall d, crash (disk s) d ->
  exists c, read_file d (ChunkPath n) = Some c /\ good_content p (offered s) n c.
Proof.
  intros H0 Hr n Hn Hg.
  assert (Hi : sys_inv p s).
  { revert Hr. apply (rtc_ind_r (sys_inv p)); [by apply inv_fresh|].
    intros s1 s2 _ Hs IH. by apply (inv_step p s1). }
  destruct (inv_bits p _ Hi n Hn Hg) as [(i & c & Hin & Hgc & Hcur & Hold) Hnu].
  split; [done|]. intros d [scur ccur ins Hs Hc Hdom Hins]. exists c. split; [|done].
  assert (Hcc : ccur !! n = Some i).
  { apply elem_of_cons in Hc as [->|Hc]; [done|]. rewrite Forall_forall in Hold. by apply Hold. }
  unfold read_file. simpl. rewrite Hcc. simpl. by rewrite (Hins i c Hin).
Qed.

Lemma staging_crash_safe_witness :
  exists c, read_file demo_crashed (ChunkPath 0) = Some c /\
    good_content demo_plan [(0, demo_sum)] 0 c.
Proof.
  apply (staging_crash_safe demo_plan demo_fresh _ demo_crashed [1] demo_fresh_ok demo_steps
    (crash_nothing_lost demo_staged_disk)) with (n := 0); [vm_compute; reflexivity|lia|reflexivity].
Defined.

Lemma claimed_chunks_are_durable_witness :
  ~ uploading ∅ 0 /\
  forall d, crash demo_staged_disk d ->
  exists c, read_file d (ChunkPath 0) = Some c /\ good_content demo_plan [(0, demo_sum)] 0 c.
Proof.
  apply (claimed_chunks_are_durable demo_plan demo_fresh _ demo_fresh_ok demo_steps 0);
    [lia|reflexivity].
Defined.

(** Two requests for the same chunk are not kept apart. The check that a chunk
    is not done yet comes before its file is opened, so a request that overlaps an
    earlier one for the same chunk, as an upload retried while the first attempt is
    still being served does, can truncate the staged file after the bit was set:
    the bitmap then claims a chunk whose file is empty. *)
Theorem overlapping_upload_truncates :
  exists s, rtc (sys_step demo_plan true false) demo_fresh s /\
    marking s = None /\ Get (bits s) 0 = true /\
    0 < ChunkLength demo_plan 0 /\ read_file (disk s) (ChunkPath 0) = Some [].
Proof.
  set (os := [(0, demo_sum); (0, demo_sum)]).
  set (second := <[1%nat := mkUpload 0 demo_ops None]> (∅ : gmap nat Upload)).
  exists (mkSys (run_all demo_staged_disk [OpenTrunc (ChunkPath 0)]) [1]
    (<[1%nat := mkUpload 0 (tl demo_ops) None]> second) None os).
  split; [|split_and!; vm_compute; reflexivity].
  etrans; [apply (run_receive _ _ _ demo_disk [0] ∅ [] 0%nat 0 demo_sum demo_payload [] demo_ops None);
    [vm_compute; done|done|done|by left|apply demo_receive]|].
  etrans; [apply (run_receive _ _ _ demo_disk [0] (<[0%nat := mkUpload 0 demo_ops None]> ∅)
    [(0, demo_sum)] 1%nat 0 demo_sum demo_payload [] demo_ops None);
    [vm_compute; done|done|done|by left|apply demo_receive]|].
  etrans; [apply (run_upload _ _ _ demo_disk [0] _ None os 0%nat 0 demo_ops [] None)|].
  { rewrite app_nil_r. done. }
  etrans; [apply (run_commit _ _ _ _ [0] [1] _ os 0%nat 0 (persistBitmap [1]) []);
    [apply lookup_insert_eq|done|by rewrite app_nil_r]|].
  eapply rtc_l; [apply mark_done|]. fold demo_staged_disk.
  assert (Hus : delete 0%nat (<[0%nat := mkUpload 0 [] None]>
      (<[1%nat := mkUpload 0 demo_ops None]> (<[0%nat := mkUpload 0 demo_ops None]> (∅ : gmap nat Upload)))) =
      second).
  { apply map_eq. intros i. unfold second. rewrite lookup_delete, !lookup_insert, lookup_empty.
    repeat case_decide; congruence. }
  rewrite Hus. apply (run_upload _ _ _ demo_staged_disk [1] second None os 1%nat 0
    [OpenTrunc (ChunkPath 0)] (tl demo_ops) None).
  unfold second. by rewrite lookup_insert_eq, demo_ops_split.
Qed.

(** A bit can outlive its withdrawal. When the last sync of the state directory
    fails, the bitmap was already renamed into place: the bit is cleared in memory
    only. The upload is then repeated, and a crash after it truncated the staged
    file brings back a bitmap that claims a chunk whose file is empty. *)
Theorem failed_dir_sync_keeps_bit :
  exists s d b, rtc (sys_step demo_plan false true) demo_fresh s /\ crash (disk s) d /\
    read_file d (InState bitmapFileName) = Some b /\ Get b 0 = true /\
    0 < ChunkLength demo_plan 0 /\ read_file d (ChunkPath 0) = Some [].
Proof.
  set (os := [(0, demo_sum); (0, demo_sum)]).
  set (renamed := run_all (run_all demo_disk demo_ops) (take 5 (persistBitmap [1]))).
  set (again := run_all renamed [OpenTrunc (ChunkPath 0)]).
  exists (mkSys again [0] (<[0%nat := mkUpload 0 (tl demo_ops) None]> ∅) None os).
  exists (mkDisk (inodes again) (state_cur again) [] (chunk_cur again) []), [1].
  split; [|split; [apply crash_nothing_lost|split_and!; vm_compute; reflexivity]].
  etrans; [apply (run_receive _ _ _ demo_disk [0] ∅ [] 0%nat 0 demo_sum demo_payload demo_ops [] None)|].
  1-4: first [vm_compute; done|done|right; intros (id & u & Hu & _); by rewrite lookup_empty in Hu].
  { rewrite app_nil_r. apply demo_receive. }
  etrans; [apply (run_commit _ _ _ _ [0] [1] _ _ 0%nat 0 (take 5 (persistBitmap [1])) [SyncStateDir]);
    [apply lookup_insert_eq|done|done]|].
  fold renamed. rewrite delete_insert_id by done.
  eapply rtc_l; [apply (mark_fail _ _ _ renamed [1] ∅ _ 0 SyncStateDir [] (Bytes 0) [0]); [by left|done]|].
  apply (run_receive _ _ _ renamed [0] ∅ [(0, demo_sum)] 0%nat 0 demo_sum demo_payload
    [OpenTrunc (ChunkPath 0)] (tl demo_ops) None);
    [vm_compute; done|done|done|right; intros (id & u & Hu & _); by rewrite lookup_empty in Hu|].
  rewrite demo_ops_split. apply demo_receive.
Qed.
