(* ===== verification/Ingest.v ===== *)
(** * The import server of a transfer
    ([src/datamover/internal/ingest/state.go] and [server.go]).

    A server keeps the state of one transfer and its phase; the staged bytes are on
    the disk of [Staging.v]. A handler is a function from the server and the disk
    to the new ones and the response. The JSON decoder of the standard library is
    [unmarshal]; the outcome of the commit is an argument. *)

From Stdlib Require Import Ascii.
From stdpp Require Import base tactics numbers list option strings gmap relations.
From S2P Require Import Prelude GoStd Sha256 Wire Manifest Chunk Staging.

(** ** Resume state. *)

Definition maxManifestBytes : Z := Z.shiftl 1 30.

Record State := mkState {
  TransferID : string;
  Raw : list Z;
  Man : Manifest;
  SPlan : Plan;
  bitmap : Bitmap;
}.

Inductive LoadError :=
| ErrReadingManifest
| ErrStoredManifest (e : DecodeError)
| ErrReadingId
| ErrReadingBitmap
| ErrBitmapSize
| LoadPanic.

Inductive InitError := ErrInitIO | InitPanic.

Inductive AssembleError := ErrOpeningChunk (n : Z) | ErrShortChunk (n : Z).

Section state.
Context (unmarshal : list Z -> option Manifest).

(** [unreadable] says which files exist and fail to be read. *)
Definition LoadState (unreadable : file -> bool) (d : Disk) : result LoadError (option State) :=
  if unreadable (InState manifestFileName) then Err ErrReadingManifest
  else match read_file d (InState manifestFileName) with
  | None => Ok None
  | Some raw =>
    match Decode (unmarshal raw) with
    | Err e => Err (ErrStoredManifest e)
    | Ok m =>
      if unreadable (InState idFileName) then Err ErrReadingId
      else match read_file d (InState idFileName) with
      | None => Err ErrReadingId
      | Some id =>
        let plan := NewPlan m in
        if unreadable (InState bitmapFileName) then Err ErrReadingBitmap
        else match read_file d (InState bitmapFileName) with
        | None => Err ErrReadingBitmap
        | Some bs =>
          match NewBitmap (NumChunks plan) with
          | None => Err LoadPanic
          | Some b0 =>
            if negb (length bs =? length b0)%nat then Err ErrBitmapSize
            else Ok (Some (mkState (string_of id) raw m plan bs))
          end
        end
      end
    end
  end.
End state.

(** The operations of [InitState] before the bitmap. *)
Definition init_actions (transferID : string) (raw : list Z) : list action :=
  [RemoveAll; MkdirAll;
   OpenTrunc (InState manifestFileName); Write (InState manifestFileName) raw;
   Close (InState manifestFileName);
   OpenTrunc (InState idFileName); Write (InState idFileName) (bytes_of transferID);
   Close (InState idFileName)].

Definition InitState (transferID : string) (raw : list Z) (m : Manifest)
    (fault : option (nat * leftover)) (d : Disk) : Disk * result InitError State :=
  match NewBitmap (NumChunks (NewPlan m)) with
  | None =>
      let '(d', ok) := run_actions (init_actions transferID raw) fault d in
      (d', Err (if ok then InitPanic else ErrInitIO))
  | Some b =>
      let '(d', ok) := run_actions (init_actions transferID raw ++ persistBitmap b) fault d in
      (d', if ok then Ok (mkState transferID raw m (NewPlan m) b) else Err ErrInitIO)
  end.

Definition StateDigest (s : State) : string := Digest (Raw s).

Definition ChunkDone (s : State) (n : Z) : bool := Get (bitmap s) n.

Definition AllChunksDone (s : State) : bool :=
  Count (bitmap s) (NumChunks (SPlan s)) =? NumChunks (SPlan s).

(** The loop of [AssembleEntry], [None] when the fuel runs out. *)
Fixpoint assemble_loop (fuel : nat) (s : State) (d : Disk) (size start written : Z)
    (out : list Z) : option (result AssembleError (list Z)) :=
  if written <? size then
    match fuel with
    | O => None
    | S fuel' =>
        let pos := start + written in
        let n := Z.quot pos (ChunkSize (Man s)) in
        let inOff := pos - n * ChunkSize (Man s) in
        let len := Z.min (size - written) (ChunkLength (SPlan s) n - inOff) in
        match read_file d (ChunkPath n) with
        | None => Some (Err (ErrOpeningChunk n))
        | Some c =>
            let copied := take (Z.to_nat len) (drop (Z.to_nat inOff) c) in
            if negb (Z.of_nat (length copied) =? len) then Some (Err (ErrShortChunk n))
            else assemble_loop fuel' s d size start (written + Z.of_nat (length copied)) (out ++ copied)
        end
    end
  else Some (Ok out).

(** Every iteration copies at least one byte, so the size is fuel enough. An index
    out of range, which panics, is [None]. *)
Definition AssembleEntry (s : State) (d : Disk) (i : nat) : option (result AssembleError (list Z)) :=
  e ← Entries (Man s) !! i;
  if Size e =? 0 then Some (Ok [])
  else start ← EntryOffset (SPlan s) i; assemble_loop (Z.to_nat (Size e)) s d (Size e) start 0 [].

(** ** The server. *)

Record Server := mkServer {
  token : string;
  st : option State;
  phase : Phase;
  lastReport : option Report;
}.

Inductive Response :=
| Status (code : Z)
| BodyState (r : StateResponse)
| BodyReport (r : Report)
| BodyProgress (r : Progress)
| Aborted.

Inductive ServerError := ErrEmptyToken | ErrLoad (e : LoadError).

Definition NewServer (unmarshal : list Z -> option Manifest) (unreadable : file -> bool)
    (tok : string) (d : Disk) : result ServerError Server :=
  if (tok =? "")%string then Err ErrEmptyToken
  else match LoadState unmarshal unreadable d with
       | Err e => Err (ErrLoad e)
       | Ok None => Ok (mkServer tok None PhaseWaiting None)
       | Ok (Some s) => Ok (mkServer tok (Some s) PhaseReceiving None)
       end.

(** [requireAuth]: whether the request reaches its handler. *)
Definition requireAuth (s : Server) (authorization : string) : bool :=
  match CutPrefix authorization "Bearer " with
  | Some got => TokenEqual got (token s)
  | None => false
  end.

(** [state]: the state when the request's transfer id matches it. *)
Definition state (s : Server) (id : string) : option State :=
  match st s with
  | Some x => if (id =? TransferID x)%string then Some x else None
  | None => None
  end.

Definition set_st (x : option State) (s : Server) : Server :=
  mkServer (token s) x (phase s) (lastReport s).

(** [handleManifest], with the body as the zstd decoder reads it. *)
Definition handleManifest (unmarshal : list Z -> option Manifest) (id : string)
    (stream : list Z) (broken : bool) (fault : option (nat * leftover)) (s : Server) (d : Disk) :
    Server * Disk * Response :=
  match Decompress stream broken maxManifestBytes with
  | Err _ => (s, d, Status 400)
  | Ok raw =>
    match Decode (unmarshal raw) with
    | Err _ => (s, d, Status 400)
    | Ok m =>
      let same := match st s with
                  | Some x => (TransferID x =? id)%string && (StateDigest x =? Digest raw)%string
                  | None => false
                  end in
      if same then (s, d, Status 204)
      else match InitState id raw m fault d with
           | (d', Err InitPanic) => (s, d', Aborted)
           | (d', Err ErrInitIO) => (s, d', Status 500)
           | (d', Ok x) => (mkServer (token s) (Some x) PhaseReceiving None, d', Status 204)
           end
    end
  end.

Definition handleState (id : string) (s : Server) : Response :=
  match state s id with
  | None => Status 409
  | Some x => BodyState (mkStateResponse (StateDigest x) (NumChunks (SPlan x)) (bitmap x))
  end.

Inductive RecvError := ChunkErr (e : ChunkError) | IOErr.

(** [receiveChunk]: stage and verify, then mark. [body] is what the decoder reads,
    [None] when it refuses the stream; [fault] and [mark_fault] are the failing
    operation of staging and of marking. *)
Definition receiveChunk (x : State) (n : Z) (wantSum : string) (body : option (list Z * bool))
    (fault mark_fault : option (nat * leftover)) (d : Disk) : State * Disk * result RecvError unit :=
  match body with
  | None => (x, d, Err (ChunkErr ErrReadPayload))
  | Some (decoded, broken) =>
      let '(ops, problem) := receive_actions (SPlan x) n wantSum decoded broken in
      let '(d', ok) := run_actions ops fault d in
      if negb ok then (x, d', Err IOErr)
      else match problem with
      | Some e => (x, d', Err (ChunkErr e))
      | None =>
          match MarkChunk n mark_fault (bitmap x) d' with
          | None => (x, d', Err IOErr)
          | Some (b', d'', marked) =>
              (mkState (TransferID x) (Raw x) (Man x) (SPlan x) b', d'',
               if marked then Ok tt else Err IOErr)
          end
      end
  end.

Definition handleChunk (id number header : string) (body : option (list Z * bool))
    (fault mark_fault : option (nat * leftover)) (s : Server) (d : Disk) : Server * Disk * Response :=
  match state s id with
  | None => (s, d, Status 409)
  | Some x =>
    match Atoi number with
    | None => (s, d, Status 400)
    | Some n =>
      if (n <? 0) || (NumChunks (SPlan x) <=? n) then (s, d, Status 400)
      else if ChunkDone x n then (s, d, Status 200)
      else
        let wantSum := ToLower header in
        if negb (String.length wantSum =? 64)%nat then (s, d, Status 400)
        else
          let '(x', d', res) := receiveChunk x n wantSum body fault mark_fault d in
          (set_st (Some x') s, d',
           match res with
           | Ok _ => Status 204
           | Err (ChunkErr _) => Status 422
           | Err IOErr => Status 500
           end)
    end
  end.

Definition failedCount (r : Report) : nat :=
  length (filter (fun f => negb (Match f) || negb (Error f =? "")%string = true) (Files r)).

Definition reportClean (r : Report) : bool := (failedCount r =? 0)%nat.

(** [State.Destroy]: [stuck] is what a removal that fails left. *)
Definition Destroy (stuck : option leftover) (d : Disk) : Disk * bool :=
  run_actions [RemoveAll] (pair O <$> stuck) d.

(** [handleFinalize]; [commit] is what the committer returns, [None] for an
    error. *)
Definition handleFinalize (id : string) (commit : State -> option Report) (stuck : option leftover)
    (s : Server) (d : Disk) : Server * Disk * Response :=
  match st s with
  | None =>
      match phase s, lastReport s with
      | PhaseCompleted, Some r => (s, d, BodyReport r)
      | _, _ => (s, d, Status 409)
      end
  | Some x =>
      if negb (id =? TransferID x)%string then (s, d, Status 409)
      else if negb (AllChunksDone x) then (s, d, Status 409)
      else match commit x with
      | None => (mkServer (token s) (Some x) PhaseFailed (lastReport s), d, Status 500)
      | Some r =>
          if reportClean r then
            (mkServer (token s) None PhaseCompleted (Some r),
             (Destroy stuck d).1, BodyReport r)
          else (mkServer (token s) (Some x) PhaseFailed (Some r), d, BodyReport r)
      end
  end.

Definition handleAbort (stuck : option leftover) (s : Server) (d : Disk) : Server * Disk * Response :=
  match st s with
  | Some _ =>
      let '(d', ok) := Destroy stuck d in
      if ok then (mkServer (token s) None PhaseWaiting None, d', Status 204) else (s, d', Status 500)
  | None => (mkServer (token s) None PhaseWaiting None, d, Status 204)
  end.

Definition handleProgress (s : Server) : Response :=
  match st s with
  | None => BodyProgress (mkProgress 0 0 0 0 (phase s))
  | Some x =>
      let total := NumChunks (SPlan x) in
      let '(done, bytes) :=
        foldl (fun acc n => if Get (bitmap x) n then (acc.1 + 1, wrap64 (acc.2 + ChunkLength (SPlan x) n))
                            else acc) (0, 0) (seqZ 0 total) in
      BodyProgress (mkProgress bytes (Chunk.total (SPlan x)) done total (phase s))
  end.

(** ** Lemmas on reassembly. *)

Section assemble.
Context (m : Manifest) (Hfits : plan_fits m).
Context (s : State) (Hman : Man s = m) (Hplan : SPlan s = NewPlan m).

(** A position inside the stream falls in a chunk of the plan, before its end. *)
Lemma chunk_of_position (pos : Z) :
  0 <= pos < sumZ (Size <$> Entries m) ->
  let n := Z.quot pos (ChunkSize m) in
  0 <= n < NumChunks (NewPlan m) /\ 0 <= pos - n * ChunkSize m < ChunkLength (NewPlan m) n /\
  n * ChunkSize m + ChunkLength (NewPlan m) n <= sumZ (Size <$> Entries m).
Proof.
  intros Hpos n. pose proof (T_bound m Hfits) as Hb. pose proof (last_chunk m Hfits) as Hl.
  subst n. rewrite Z.quot_div_nonneg by lia. set (n := pos / ChunkSize m).
  assert (Hn : n * ChunkSize m <= pos < n * ChunkSize m + ChunkSize m).
  { pose proof (Z.div_mod pos (ChunkSize m)). pose proof (Z.mod_pos_bound pos (ChunkSize m)). lia. }
  assert (Hr : 0 <= n < NumChunks (NewPlan m)) by nia.
  pose proof (chunk_start_lt m Hfits n Hr). rewrite (ChunkLength_exact m Hfits n Hr). lia.
Qed.

Lemma entry_range (i : nat) (e : Entry) :
  Entries m !! i = Some e ->
  starts (NewPlan m) !! i = Some (sumZ (take i (Size <$> Entries m))) /\
  0 <= sumZ (take i (Size <$> Entries m)) /\ 0 <= Size e /\
  sumZ (take i (Size <$> Entries m)) + Size e <= sumZ (Size <$> Entries m).
Proof.
  intros He. pose proof (sizes_nonneg m Hfits) as Hn. split_and!.
  - rewrite (NewPlan_exact m Hfits). cbn [starts].
    destruct (lookup_lt_is_Some_2 (prefix_sums 0 (Entries m)) i) as [x Hx].
    { rewrite length_prefix_sums. by eapply lookup_lt_Some. }
    rewrite Hx. f_equal. by apply prefix_sums_lookup in Hx.
  - apply sumZ_nonneg, Forall_take, Hn.
  - rewrite Forall_forall in Hn. apply Hn. apply list_elem_of_fmap. exists e.
    split; [done|by eapply list_elem_of_lookup_2].
  - rewrite <- (sumZ_take_S _ i (Size e)) by (by rewrite list_lookup_fmap, He).
    rewrite (sumZ_take_drop (S i) (Size <$> Entries m)).
    pose proof (sumZ_nonneg _ (Forall_drop _ (S i) _ Hn)). lia.
Qed.

(** The loop ends for any content of the disk. *)
Lemma assemble_terminates (d : Disk) (size start : Z) (fuel : nat) :
  0 <= start -> start + size <= sumZ (Size <$> Entries m) ->
  forall written out, 0 <= written -> size - written <= Z.of_nat fuel ->
  is_Some (assemble_loop fuel s d size start written out).
Proof.
  intros Hs Ht. induction fuel as [|fuel IH]; intros written out Hw Hf; cbn [assemble_loop];
    destruct (Z.ltb_spec written size); try (by eexists); [lia|].
  rewrite Hman, Hplan. cbv zeta.
  pose proof (chunk_of_position (start + written) ltac:(lia)) as Hc. cbv zeta in Hc.
  set (n := Z.quot (start + written) (ChunkSize m)) in *.
  destruct (read_file d (ChunkPath n)) as [c|]; [|by eexists].
  destruct (Z.eqb_spec (Z.of_nat (length (take (Z.to_nat (Z.min (size - written)
    (ChunkLength (NewPlan m) n - (start + written - n * ChunkSize m))))
    (drop (Z.to_nat (start + written - n * ChunkSize m)) c))))
    (Z.min (size - written) (ChunkLength (NewPlan m) n - (start + written - n * ChunkSize m))))
    as [->|]; simpl; [|by eexists].
  apply IH; lia.
Qed.

(** With every chunk staged, the loop copies the entry's part of the stream. *)
Lemma assemble_stream (d : Disk) (contents : list (list Z)) (size start : Z) (fuel : nat) :
  contents_match m contents ->
  (forall n, 0 <= n < NumChunks (NewPlan m) ->
     read_file d (ChunkPath n) = Some (chunk_payload (NewPlan m) contents n)) ->
  0 <= start -> start + size <= sumZ (Size <$> Entries m) ->
  forall written out, 0 <= written <= size -> size - written <= Z.of_nat fuel ->
  assemble_loop fuel s d size start written out =
  Some (Ok (out ++ take (Z.to_nat (size - written)) (drop (Z.to_nat (start + written)) (stream contents)))).
Proof.
  intros Hc Hd Hs Ht. induction fuel as [|fuel IH]; intros written out Hw Hf; cbn [assemble_loop];
    destruct (Z.ltb_spec written size); try lia;
    try (replace (Z.to_nat (size - written)) with 0%nat by lia; by rewrite take_0, app_nil_r).
  rewrite Hman, Hplan. cbv zeta.
  pose proof (chunk_of_position (start + written) ltac:(lia)) as Hp. cbv zeta in Hp.
  set (n := Z.quot (start + written) (ChunkSize m)) in *.
  destruct Hp as (Hn & Hin & Hend). rewrite (Hd n Hn).
  pose proof (length_stream m contents Hc) as Hl. pose proof (T_bound m Hfits) as Hb.
  pose proof (chunk_start_lt m Hfits n Hn) as Hst.
  set (inOff := start + written - n * ChunkSize m) in *.
  set (len := Z.min (size - written) (ChunkLength (NewPlan m) n - inOff)).
  assert (Hcopy : take (Z.to_nat len) (drop (Z.to_nat inOff) (chunk_payload (NewPlan m) contents n)) =
    take (Z.to_nat len) (drop (Z.to_nat (start + written)) (stream contents))).
  { rewrite (chunk_payload_slice m Hfits contents Hc n Hn), skipn_firstn_comm, take_take, drop_drop.
    f_equal; [lia|]. f_equal. lia. }
  rewrite Hcopy. clear Hcopy.
  assert (Hlen : Z.of_nat (length (take (Z.to_nat len)
    (drop (Z.to_nat (start + written)) (stream contents)))) = len).
  { rewrite length_take, length_drop. lia. }
  rewrite Hlen, Z.eqb_refl. simpl. rewrite IH by lia. rewrite <- app_assoc. do 3 f_equal.
  replace (Z.to_nat (start + (written + len))) with (Z.to_nat (start + written) + Z.to_nat len)%nat by lia.
  rewrite <- drop_drop, take_take_drop. f_equal. lia.
Qed.
End assemble.

(** The entry's part of the stream is its content. *)
Lemma stream_entry (es : list Entry) (contents : list (list Z)) (i : nat) (e : Entry) (c : list Z) :
  Forall2 (fun e c => Size e = Z.of_nat (length c)) es contents ->
  es !! i = Some e -> contents !! i = Some c ->
  take (Z.to_nat (Size e)) (drop (Z.to_nat (sumZ (take i (Size <$> es)))) (concat contents)) = c.
Proof.
  intros H. revert i. induction H as [|e0 c0 es cs Hec Hrest IH]; intros [|i] He Hc; simplify_eq/=.
  - rewrite drop_0, Hec, Nat2Z.id, take_app_length. done.
  - csimpl. specialize (IH i He Hc).
    assert (0 <= sumZ (take i (Size <$> es))).
    { apply sumZ_nonneg, Forall_take, Forall_fmap. clear -Hrest.
      induction Hrest; constructor; simpl; [lia|done]. }
    rewrite Hec, drop_app_ge by lia.
    replace (Z.to_nat (Z.of_nat (length c0) + sumZ (take i (Size <$> es))) - length c0)%nat
      with (Z.to_nat (sumZ (take i (Size <$> es)))) by lia.
    done.
Qed.

Lemma AssembleEntry_content (s : State) (d : Disk) (contents : list (list Z)) (i : nat) (c : list Z) :
  plan_fits (Man s) -> SPlan s = NewPlan (Man s) -> contents_match (Man s) contents ->
  (forall n, 0 <= n < NumChunks (SPlan s) ->
     read_file d (ChunkPath n) = Some (chunk_payload (SPlan s) contents n)) ->
  contents !! i = Some c ->
  AssembleEntry s d i = Some (Ok c).
Proof.
  intros Hf Hp Hc Hd Hi. unfold AssembleEntry.
  destruct (Forall2_lookup_r _ _ _ _ _ Hc Hi) as (e & He & Hsz). rewrite He. simpl.
  destruct (entry_range (Man s) Hf i e He) as (Hst & H0 & H1 & H2).
  destruct (Z.eqb_spec (Size e) 0) as [Hz|Hz]; [destruct c; [done|simpl in Hsz; lia]|].
  unfold EntryOffset. rewrite Hp in *. rewrite Hst. simpl.
  rewrite (assemble_stream (Man s) Hf s eq_refl Hp d contents) by (done || lia).
  rewrite Z.sub_0_r, Z.add_0_r. simpl. do 2 f_equal.
  by apply (stream_entry (Entries (Man s)) contents i e c).
Qed.

(** ** Properties of reassembly. *)

(** Reassembly always ends. Whatever the disk holds, missing and short chunk
    files included, the loop of [AssembleEntry] stops with the content or with an
    error within as many iterations as the entry has bytes. *)
Theorem assemble_total (s : State) (d : Disk) (i : nat) :
  plan_fits (Man s) -> SPlan s = NewPlan (Man s) -> (i < length (Entries (Man s)))%nat ->
  is_Some (AssembleEntry s d i).
Proof.
  intros Hf Hp Hi. unfold AssembleEntry.
  destruct (lookup_lt_is_Some_2 _ _ Hi) as [e He]. rewrite He. simpl.
  destruct (entry_range (Man s) Hf i e He) as (Hst & H0 & H1 & H2).
  destruct (Size e =? 0); [by eexists|].
  unfold EntryOffset. rewrite Hp, Hst. simpl.
  by apply (assemble_terminates (Man s) Hf); auto; lia.
Qed.

(** ** Lemmas on the files of the state directory. *)

(** The files of the state directory, apart from the temporary one, read the same. *)
Definition same_files (d d' : Disk) : Prop :=
  forall name, name <> bitmapTmpName -> read_file d' (InState name) = read_file d (InState name).

#[export] Instance same_files_preorder : PreOrder same_files.
Proof.
  split; [by intros d name|]. intros d1 d2 d3 H1 H2 name Hn. rewrite H2, H1; done.
Qed.

Lemma same_files_chunk (n : Z) (d d' : Disk) :
  disk_wf d -> chunk_frame n d d' -> same_files d d'.
Proof.
  intros Hwf Hf name _. unfold read_file. simpl. rewrite (cf_state_cur _ _ _ Hf).
  destruct (state_cur d !! name) as [i|] eqn:Hi; [|done]. simpl.
  rewrite (state_inode_frame n d d'); eauto with kipper.
Qed.

(** The upload of a chunk, wherever it stops, keeps them. *)
Lemma run_chunk_actions (n : Z) (l : list action) (fault : option (nat * leftover)) (d : Disk) :
  disk_wf d -> Forall (chunk_action n) l ->
  disk_wf (run_actions l fault d).1 /\ same_files d (run_actions l fault d).1.
Proof.
  intros Hwf Hl. revert fault d Hwf. induction Hl as [|a l Ha Hl IH]; intros fault d Hwf; [done|].
  assert (Hstep : disk_wf (apply_action a d) /\ same_files d (apply_action a d)).
  { split; [by apply (wf_chunk_action d n)|]. by apply (same_files_chunk n), frame_chunk_action. }
  destruct Hstep as [Hwf' Hs]. destruct fault as [[[|j] k]|]; simpl.
  - destruct (failed_chunk_action d n a k Hwf Ha) as [Hw Hf].
    split; [done|by apply (same_files_chunk n)].
  - destruct (IH (Some (j, k)) _ Hwf') as [Hw Hf]. split; [done|by transitivity (apply_action a d)].
  - destruct (IH None _ Hwf') as [Hw Hf]. split; [done|by transitivity (apply_action a d)].
Qed.

Definition tmp_action (a : action) : Prop :=
  match a with OpenTrunc f | Write f _ | Sync f | Close f => f = tmp_file | _ => False end.

Lemma same_files_set_tmp (d : Disk) (j : nat) (v : list Z * bool) :
  disk_wf d -> state_cur d !! bitmapTmpName = Some j -> same_files d (set_inode j v d).
Proof.
  intros Hwf Hj name Hn. unfold read_file. simpl.
  destruct (state_cur d !! name) as [i|] eqn:Hi; [|done]. simpl.
  rewrite lookup_insert_ne; [done|]. intros ->. apply Hn.
  by apply (Forall_inv (wf_state_inj d Hwf) name bitmapTmpName i).
Qed.

#[export] Instance state_frame_preorder : PreOrder state_frame.
Proof.
  split; [by intros d; constructor|]. intros d1 d2 d3 [H1 H2 H3] [H4 H5 H6].
  constructor; [congruence|congruence|]. intros i Hi. rewrite H6; [by apply H3|].
  destruct Hi as (t & n & Ht & Hn). exists t, n. by rewrite H1, H2.
Qed.

Lemma state_frame_set_inode (d : Disk) (j : nat) (v : list Z * bool) :
  ~ chunk_ref d j -> state_frame d (set_inode j v d).
Proof. intros Hj. constructor; try done. intros i Hi. simpl. rewrite lookup_insert_ne; [done|]. by intros ->. Qed.

Lemma run_tmp_action (a : action) (d : Disk) :
  disk_wf d -> tmp_action a ->
  disk_wf (apply_action a d) /\ same_files d (apply_action a d) /\ state_frame d (apply_action a d).
Proof.
  intros Hwf Ha.
  assert (Hset : forall j v, state_cur d !! bitmapTmpName = Some j ->
    disk_wf (set_inode j v d) /\ same_files d (set_inode j v d) /\ state_frame d (set_inode j v d)).
  { intros j v Hj. split_and!; [by apply wf_set_inode|by apply same_files_set_tmp|].
    apply state_frame_set_inode. intros Hc. apply (wf_apart d Hwf j); eauto with kipper. }
  destruct a; try done; simpl in Ha; subst; cbn [apply_action inode_of].
  - destruct (state_cur d !! bitmapTmpName) as [j|] eqn:Hj; [by apply Hset|].
    set (i := fresh (dom (inodes d))). pose proof (fresh_inode d) as Hi. fold i in Hi.
    destruct (wf_link_state d bitmapTmpName i ([], false) Hwf Hi) as (Hwf' & Hs & Hc); [done|].
    split_and!; [done| |by apply (state_frame_set_inode d i ([], false)) in Hc as [? ? ?]; constructor].
    intros name Hn. unfold read_file. simpl. rewrite lookup_insert_ne by done.
    destruct (state_cur d !! name) as [k|] eqn:Hk; [|done]. simpl.
    rewrite lookup_insert_ne; [done|]. intros <-. apply Hs. eauto with kipper.
  - repeat case_match; (by apply Hset) || (by split_and!).
  - repeat case_match; (by apply Hset) || (by split_and!).
Qed.

Lemma run_tmp_actions (l : list action) (fault : option (nat * leftover)) (d : Disk) :
  disk_wf d -> Forall tmp_action l ->
  disk_wf (run_actions l fault d).1 /\ same_files d (run_actions l fault d).1 /\
  state_frame d (run_actions l fault d).1.
Proof.
  intros Hwf Hl. revert fault d Hwf. induction Hl as [|a l Ha Hl IH]; intros fault d Hwf; [done|].
  destruct (run_tmp_action a d Hwf Ha) as (Hwf' & Hs & Hf). destruct fault as [[[|j] k]|]; simpl.
  - destruct a, k; try done; by apply run_tmp_action.
  - destruct (IH (Some (j, k)) _ Hwf') as (H1 & H2 & H3).
    split_and!; [done|by transitivity (apply_action a d)|by transitivity (apply_action a d)].
  - destruct (IH None _ Hwf') as (H1 & H2 & H3).
    split_and!; [done|by transitivity (apply_action a d)|by transitivity (apply_action a d)].
Qed.

Lemma run_actions_app (l1 l2 : list action) (fault : option (nat * leftover)) (d : Disk) :
  run_actions (l1 ++ l2) fault d =
  match fault with
  | None => run_actions l2 None (run_actions l1 None d).1
  | Some (j, k) =>
      if (j <? length l1)%nat then run_actions l1 fault d
      else run_actions l2 (Some (j - length l1, k)%nat) (run_actions l1 None d).1
  end.
Proof.
  revert fault d. induction l1 as [|a l1 IH]; intros [[j k]|] d; simpl.
  - by rewrite Nat.sub_0_r.
  - done.
  - destruct j as [|j]; [done|]. rewrite IH. done.
  - rewrite IH. done.
Qed.

Lemma run_actions_ok (l : list action) (d : Disk) : (run_actions l None d).2 = true.
Proof. revert d. induction l as [|a l IH]; intros d; simpl; auto. Qed.

(** The part of [persistBitmap] before the rename, and its effect. *)
Definition write_tmp (b : Bitmap) : list action := take 4 (persistBitmap b).

Lemma write_tmp_tmp (b : Bitmap) : Forall tmp_action (write_tmp b).
Proof. repeat (apply Forall_cons_2; [done|]). apply Forall_nil_2. Qed.

Lemma written_tmp (b : Bitmap) (d : Disk) :
  exists j, state_cur (run_actions (write_tmp b) None d).1 !! bitmapTmpName = Some j /\
    inodes (run_actions (write_tmp b) None d).1 !! j = Some (b, true).
Proof.
  assert (Hopen : exists j, state_cur (apply_action (OpenTrunc tmp_file) d) !! bitmapTmpName = Some j /\
    inodes (apply_action (OpenTrunc tmp_file) d) !! j = Some ([], false)).
  { cbn [apply_action inode_of]. destruct (state_cur d !! bitmapTmpName) as [j|] eqn:Hj.
    - exists j. split; [done|]. simpl. apply lookup_insert_eq.
    - eexists. split; simpl; apply lookup_insert_eq. }
  destruct Hopen as (j & Hj & Hi). exists j.
  unfold write_tmp, persistBitmap. cbn [take run_actions fst].
  set (d1 := apply_action (OpenTrunc tmp_file) d) in *.
  cbn [apply_action inode_of]. rewrite Hj, Hi. cbn [set_inode state_cur inodes]. rewrite Hj.
  rewrite lookup_insert_eq. simpl. split; [done|]. rewrite insert_insert_eq. apply lookup_insert_eq.
Qed.

Lemma run_persist (b : Bitmap) (d : Disk) :
  disk_wf d ->
  let d' := (run_actions (persistBitmap b) None d).1 in
  disk_wf d' /\ state_old d' = [] /\ state_frame d d' /\
  (forall name, name <> bitmapTmpName -> name <> bitmapFileName ->
     read_file d' (InState name) = read_file d (InState name)) /\
  exists j, state_cur d' !! bitmapFileName = Some j /\ inodes d' !! j = Some (b, true).
Proof.
  intros Hwf d'. subst d'.
  change (persistBitmap b) with (write_tmp b ++ [commit; SyncStateDir]).
  rewrite run_actions_app. destruct (run_tmp_actions (write_tmp b) None d Hwf (write_tmp_tmp b)) as (Hwf1 & Hs & Hf).
  destruct (written_tmp b d) as (j & Hj & Hi). set (d1 := (run_actions (write_tmp b) None d).1) in *.
  cbn [run_actions fst].
  pose proof (wf_commit_disk d1 j Hwf1 Hj) as Hwf2.
  split; [by apply wf_sync_state_disk|]. split; [done|].
  cbn [apply_action]. rewrite Hj. split.
  { transitivity d1; [done|by constructor]. }
  simpl. split.
  - intros name Hn1 Hn2. rewrite <- Hs by done. unfold read_file. simpl.
    rewrite lookup_insert_ne, lookup_delete_ne by done. done.
  - exists j. split; [apply lookup_insert_eq|done].
Qed.

(** A persist that fails before the last sync leaves the old bitmap in place. *)
Lemma run_persist_failed (b : Bitmap) (d : Disk) (j : nat) (k : leftover) :
  disk_wf d -> (j < 5)%nat ->
  disk_wf (run_actions (persistBitmap b) (Some (j, k)) d).1 /\
  same_files d (run_actions (persistBitmap b) (Some (j, k)) d).1 /\
  (run_actions (persistBitmap b) (Some (j, k)) d).2 = false.
Proof.
  intros Hwf Hj. change (persistBitmap b) with (write_tmp b ++ [commit; SyncStateDir]).
  rewrite run_actions_app. change (length (write_tmp b)) with 4%nat.
  destruct (Nat.ltb_spec j 4).
  - pose proof (run_tmp_actions (write_tmp b) (Some (j, k)) d Hwf (write_tmp_tmp b)) as (H1 & H2 & _).
    split_and!; [done|done|]. do 4 (destruct j as [|j]; [done|]). lia.
  - replace j with 4%nat by lia. cbn [Nat.sub run_actions fst snd apply_failed].
    pose proof (run_tmp_actions (write_tmp b) None d Hwf (write_tmp_tmp b)) as (H1 & H2 & _). done.
Qed.

(** ** The stored state. *)

Definition state_ok (x : State) : Prop :=
  SPlan x = NewPlan (Man x) /\ Validate (Man x) = Ok tt /\
  exists b0, NewBitmap (NumChunks (SPlan x)) = Some b0 /\ length (bitmap x) = length b0.

(** The disk holds the state [x]. *)
Definition stored (unmarshal : list Z -> option Manifest) (x : State) (d : Disk) : Prop :=
  unmarshal (Raw x) = Some (Man x) /\
  read_file d (InState manifestFileName) = Some (Raw x) /\
  string_of <$> read_file d (InState idFileName) = Some (TransferID x) /\
  read_file d (InState bitmapFileName) = Some (bitmap x).

Lemma LoadState_stored (unmarshal : list Z -> option Manifest) (x : State) (d : Disk) :
  state_ok x -> stored unmarshal x d ->
  LoadState unmarshal (fun _ => false) d = Ok (Some x).
Proof.
  intros (Hp & Hv & b0 & Hb0 & Hl) (Hu & H1 & H2 & H3). unfold LoadState.
  rewrite H1, Hu. unfold Decode. destruct (read_file d (InState idFileName)) as [id|]; [|done]. injection H2 as H2.
  rewrite Hv, H3, <- Hp, Hb0, Hl, Nat.eqb_refl, H2. by destruct x.
Qed.

(** What a start finds, it holds. *)
Lemma LoadState_found (unmarshal : list Z -> option Manifest) (d : Disk) (x : State) :
  LoadState unmarshal (fun _ => false) d = Ok (Some x) -> state_ok x /\ stored unmarshal x d.
Proof.
  unfold LoadState. destruct (read_file d (InState manifestFileName)) as [raw|] eqn:H1; [|done].
  destruct (unmarshal raw) as [m|] eqn:Hu; [|done]. unfold Decode. destruct (Validate m) as [[]|] eqn:Hv; [|done].
  destruct (read_file d (InState idFileName)) as [id|] eqn:H2; [|done].
  destruct (read_file d (InState bitmapFileName)) as [bs|] eqn:H3; [|done]. destruct (NewBitmap _) as [b0|] eqn:Hb; [|done].
  destruct (length bs =? length b0)%nat eqn:Hl; [|done]. cbn [negb]. intros [= <-]. apply Nat.eqb_eq in Hl.
  split; [split_and!; [done|done|by exists b0]|]. unfold stored. split_and!; [done|done|by rewrite H2|done].
Qed.

Lemma LoadState_none (unmarshal : list Z -> option Manifest) (d : Disk) :
  LoadState unmarshal (fun _ => false) d = Ok None <-> read_file d (InState manifestFileName) = None.
Proof.
  unfold LoadState. destruct (read_file d (InState manifestFileName)) as [raw|]; [|done]. split; [|done].
  destruct (Decode (unmarshal raw)) as [m|e]; [|done]. destruct (read_file d (InState idFileName)); [|done].
  destruct (read_file d (InState bitmapFileName)) as [bs|]; [|done]. destruct (NewBitmap _) as [b0|]; [|done]. by destruct (negb _).
Qed.

Lemma stored_same (unmarshal : list Z -> option Manifest) (x : State) (d d' : Disk) :
  same_files d d' -> stored unmarshal x d -> stored unmarshal x d'.
Proof. intros Hs (Hu & H1 & H2 & H3). unfold stored. by rewrite !Hs. Qed.

Lemma wf_fewer (d : Disk) (scur : gmap string nat) (ccur : gmap Z nat) :
  disk_wf d -> scur ⊆ state_cur d -> ccur ⊆ chunk_cur d ->
  disk_wf (mkDisk (inodes d) scur (state_cur d :: state_old d) ccur (chunk_cur d :: chunk_old d)).
Proof.
  intros [H1 H2 H3 H4 H5] Hsub Hcub. set (d' := mkDisk _ _ _ _ _).
  assert (Hs : forall i, state_ref d' i -> state_ref d i).
  { intros i (t & a & [->|Ht]%elem_of_cons & Ha); [|by exists t, a]. apply (lookup_weaken _ _ _ _ Ha) in Hsub. eauto with kipper. }
  assert (Hc : forall i, chunk_ref d' i -> chunk_ref d i).
  { intros i (t & a & [->|Ht]%elem_of_cons & Ha); [|by exists t, a]. apply (lookup_weaken _ _ _ _ Ha) in Hcub. eauto with kipper. }
  constructor; simpl.
  - intros i [Hi|Hi]; apply H1; auto.
  - intros i Hi Hi'. apply (H2 i); auto.
  - apply Forall_cons_2; [|done]. intros a b i Ha Hb. by eapply (Forall_inv H3); eapply lookup_weaken.
  - apply Forall_cons_2; [|done]. intros a b i Ha Hb. by eapply (Forall_inv H4); eapply lookup_weaken.
  - intros j t Hj [->|Ht]%elem_of_cons Hb; apply (lookup_weaken _ _ _ _ Hj) in Hsub as Hj'; [|by apply (H5 j t)].
    apply (lookup_weaken _ _ _ _ Hb) in Hsub as Hb'. by apply (H5 j (state_cur d) Hj' (list_elem_of_here _ _)).
Qed.

Lemma wf_remove (d : Disk) : disk_wf d -> disk_wf (apply_action RemoveAll d).
Proof. intros Hwf. apply wf_fewer; [done|apply map_empty_subseteq..]. Qed.

Lemma wf_Destroy (stuck : option leftover) (d : Disk) : disk_wf d -> disk_wf (Destroy stuck d).1.
Proof.
  intros Hwf. destruct stuck as [[k|names chunks]|]; simpl; [done| |by apply wf_remove].
  apply wf_fewer; [done|apply map_filter_subseteq..].
Qed.

(** Writing a new file of the state directory. *)
Lemma write_new_file (d : Disk) (name : string) (data : list Z) :
  disk_wf d -> name <> bitmapFileName -> state_cur d !! name = None ->
  let d' := (run_actions [OpenTrunc (InState name); Write (InState name) data; Close (InState name)] None d).1 in
  disk_wf d' /\ read_file d' (InState name) = Some data /\
  forall other, other <> name -> state_cur d' !! other = state_cur d !! other /\
    read_file d' (InState other) = read_file d (InState other).
Proof.
  intros Hwf Hname Hn d'. subst d'. cbn [run_actions fst apply_action inode_of]. rewrite Hn.
  set (i := fresh (dom (inodes d))). pose proof (fresh_inode d) as Hi. fold i in Hi.
  destruct (wf_link_state d name i ([], false) Hwf Hi Hname) as (Hwf' & Hs & _).
  cbn [link state_cur inodes set_inode]. rewrite !lookup_insert_eq. simpl.
  split_and!.
  - by apply (wf_set_inode _ i (data, false)) in Hwf'.
  - unfold read_file. simpl. rewrite lookup_insert_eq. simpl. by rewrite lookup_insert_eq.
  - intros other Ho. rewrite lookup_insert_ne by done. split; [done|].
    unfold read_file. simpl. rewrite lookup_insert_ne by done.
    destruct (state_cur d !! other) as [k|] eqn:Hk; [|done]. simpl.
    assert (i <> k) by (intros <-; apply Hs; eauto with kipper).
    by rewrite !lookup_insert_ne.
Qed.

(** A run that reports success ran every operation. *)
Lemma run_actions_true (l : list action) (fault : option (nat * leftover)) (d : Disk) :
  (run_actions l fault d).2 = true -> run_actions l fault d = run_actions l None d.
Proof.
  revert fault d. induction l as [|a l IH]; intros [[[|j] k]|] d; simpl; auto; done.
Qed.

Lemma InitState_ok (id : string) (raw : list Z) (m : Manifest) (fault : option (nat * leftover))
    (d d' : Disk) (x : State) :
  disk_wf d -> InitState id raw m fault d = (d', Ok x) ->
  x = mkState id raw m (NewPlan m) (bitmap x) /\ NewBitmap (NumChunks (NewPlan m)) = Some (bitmap x) /\
  disk_wf d' /\ state_old d' = [] /\
  read_file d' (InState manifestFileName) = Some raw /\
  read_file d' (InState idFileName) = Some (bytes_of id) /\
  exists i, state_cur d' !! bitmapFileName = Some i /\ inodes d' !! i = Some (bitmap x, true).
Proof.
  intros Hwf. unfold InitState. destruct (NewBitmap _) as [b|]; [|by destruct (run_actions _ _ _)].
  destruct (run_actions (init_actions id raw ++ persistBitmap b) fault d) as [d1 ok] eqn:Hrun.
  destruct ok; [|done]. intros [= <- <-]. cbn [bitmap].
  assert (Hrun' : d1 = (run_actions (init_actions id raw ++ persistBitmap b) None d).1).
  { rewrite <- (run_actions_true _ fault); rewrite Hrun; done. }
  rewrite run_actions_app in Hrun'. subst d1. clear Hrun fault.
  pose proof (wf_remove d Hwf) as Hwf1. set (d1 := apply_action RemoveAll d) in *.
  destruct (write_new_file d1 manifestFileName raw Hwf1) as (Hwf2 & Hm2 & Ho2); [done|done|].
  set (d2 := (run_actions _ None d1).1) in *.
  destruct (write_new_file d2 idFileName (bytes_of id) Hwf2) as (Hwf3 & Hm3 & Ho3); [done| |].
  { destruct (Ho2 idFileName) as [-> _]; done. }
  set (d3 := (run_actions _ None d2).1) in *.
  change (run_actions (init_actions id raw) None d).1 with d3.
  destruct (run_persist b d3 Hwf3) as (Hwf4 & Hold & _ & Hkeep & Hbm).
  split_and!; try done.
  - rewrite Hkeep by done. destruct (Ho3 manifestFileName) as [_ ->]; done.
  - by rewrite Hkeep.
Qed.

(** Withdrawing a bit that was just set gives the old bitmap back. *)
Lemma Clear_Set (b b1 : Bitmap) (n : Z) :
  0 <= n -> Get b n = false -> Set_ b n = Some b1 -> Clear b1 n = Some b.
Proof.
  intros Hn Hg Hs. unfold Set_ in Hs. apply bind_Some in Hs as (x & Hx & [= <-]).
  destruct (byte_at_lt b n x Hn Hx) as [Hlt Hx']. unfold Clear, byte_at.
  rewrite Get_testbit, Hx' in Hg by done.
  rewrite !Z.quot_div_nonneg by lia. pose proof (Z.div_pos n 8).
  destruct (Z.ltb_spec (n / 8) 0); [lia|].
  rewrite list_lookup_insert_eq by lia. simpl. f_equal. rewrite list_insert_insert_eq.
  rewrite list_insert_id; [done|]. rewrite Hx'. f_equal.
  assert (Hmask : bit_mask n = 2 ^ (n mod 8)).
  { unfold bit_mask. rewrite Z.rem_mod_nonneg by lia. pose proof (Z.mod_pos_bound n 8).
    destruct (Z.ltb_spec (n mod 8) 0); [lia|]. apply Z.shiftl_1_l. }
  pose proof (Z.mod_pos_bound n 8).
  apply Z.bits_inj'. intros k Hk. rewrite Hmask, Z.ldiff_spec, Z.lor_spec, Z.pow2_bits_eqb by lia.
  destruct (Z.eqb_spec (n mod 8) k) as [<-|].
  - by rewrite Hg.
  - simpl. by rewrite orb_false_r, andb_true_r.
Qed.

(** ** Lemmas on marking and receiving. *)

(** A failing operation of [MarkChunk] that is not the last sync of the state
    directory (the sixth operation of [persistBitmap]). *)
Definition mark_fault_ok (fault : option (nat * leftover)) : Prop :=
  match fault with Some (j, _) => j <> 5%nat | None => True end.

Lemma run_actions_past (l : list action) (j : nat) (k : leftover) (d : Disk) :
  (length l <= j)%nat -> run_actions l (Some (j, k)) d = run_actions l None d.
Proof.
  revert j d. induction l as [|a l IH]; intros j d Hj; [done|].
  destruct j as [|j]; simpl in *; [lia|]. apply IH. lia.
Qed.

Lemma MarkChunk_spec (n : Z) (fault : option (nat * leftover)) (b : Bitmap) (d : Disk) :
  disk_wf d -> 0 <= n -> Get b n = false -> (exists x, byte_at b n = Some x) -> mark_fault_ok fault ->
  exists b' d' ok, MarkChunk n fault b d = Some (b', d', ok) /\ disk_wf d' /\
    (ok = false -> b' = b /\ same_files d d') /\
    (ok = true -> Set_ b n = Some b' /\ state_frame d d' /\
       read_file d' (InState bitmapFileName) = Some b' /\
       forall name, name <> bitmapTmpName -> name <> bitmapFileName ->
         read_file d' (InState name) = read_file d (InState name)).
Proof.
  intros Hwf Hn Hg Hx Hf. unfold MarkChunk. destruct (Set_total b n Hx) as [b1 Hb1]. rewrite Hb1. cbn [mbind option_bind].
  assert (Hok : exists b' d' ok,
    (let '(d', ok) := run_actions (persistBitmap b1) None d in
     if ok then Some (b1, d', true) else b'' ← Clear b1 n; Some (b'', d', false)) = Some (b', d', ok) /\
    disk_wf d' /\ (ok = false -> b' = b /\ same_files d d') /\
    (ok = true -> b1 = b' /\ state_frame d d' /\
       read_file d' (InState bitmapFileName) = Some b' /\
       forall name, name <> bitmapTmpName -> name <> bitmapFileName ->
         read_file d' (InState name) = read_file d (InState name))).
  { destruct (run_persist b1 d Hwf) as (H1 & _ & H2 & H3 & i & Hi & Hc).
    pose proof (run_actions_ok (persistBitmap b1) d) as Hres.
    destruct (run_actions (persistBitmap b1) None d) as [d' ok]. cbn [fst snd] in *. subst ok.
    exists b1, d', true. split_and!; try done. intros _. split_and!; try done.
    unfold read_file. cbn [inode_of]. rewrite Hi. simpl. by rewrite Hc. }
  assert (Hb : forall b', b1 = b' -> Some b1 = Some b') by (intros; congruence).
  destruct fault as [[j k]|].
  - simpl in Hf. destruct (decide (j < 5)%nat) as [Hj|Hj].
    + destruct (run_persist_failed b1 d j k Hwf Hj) as (H1 & H2 & H3).
      destruct (run_actions (persistBitmap b1) (Some (j, k)) d) as [d' ok]. cbn [fst snd] in *. subst ok.
      rewrite (Clear_Set b b1 n Hn Hg Hb1). exists b, d', false. split_and!; try done.
    + rewrite run_actions_past by (simpl; lia).
      destruct Hok as (b' & d' & ok & H1 & H2 & H3 & H4). exists b', d', ok. split_and!; try done.
      intros Ht. destruct (H4 Ht) as (-> & H). done.
  - destruct Hok as (b' & d' & ok & H1 & H2 & H3 & H4). exists b', d', ok. split_and!; try done.
    intros Ht. destruct (H4 Ht) as (-> & H). done.
Qed.

Lemma receive_actions_chunk (p : Plan) (n : Z) (wantSum : string) (decoded : list Z) (broken : bool) :
  Forall (chunk_action n) (receive_actions p n wantSum decoded broken).1.
Proof.
  unfold receive_actions. cbv zeta. repeat case_match; simpl;
    repeat (apply Forall_cons_2; [done|]); apply Forall_nil_2.
Qed.

(** An accepted payload is staged durably. *)
Lemma receive_durable (p : Plan) (n : Z) (wantSum : string) (decoded : list Z) (broken : bool)
    (l : list action) (fault : option (nat * leftover)) (d d' : Disk) :
  disk_wf d -> receive_actions p n wantSum decoded broken = (l, None) ->
  run_actions l fault d = (d', true) -> durable_chunk p [(n, wantSum)] d' n.
Proof.
  intros Hwf Hr Hrun. rewrite run_actions_true in Hrun by (by rewrite Hrun).
  pose proof (upload_at_start p [] d n wantSum decoded broken l None Hr) as Hat.
  assert (Hall : forall l d, disk_wf d -> upload_at p [(n, wantSum)] d n l None ->
    upload_at p [(n, wantSum)] (run_actions l None d).1 n [] None).
  { clear. induction l as [|a l IH]; intros d Hwf Hat; [done|]. simpl. apply IH.
    - apply (wf_chunk_action d n); [done|by eapply upload_at_actions].
    - by apply upload_at_next. }
  specialize (Hall l d Hwf Hat). rewrite Hrun in Hall. simpl in Hall.
  inversion Hall; subst; naive_solver.
Qed.

(** What [receiveChunk] does to a stored state. *)
Lemma receiveChunk_spec (unmarshal : list Z -> option Manifest) (x : State) (n : Z) (wantSum : string)
    (body : option (list Z * bool)) (fault mark_fault : option (nat * leftover)) (d : Disk) :
  disk_wf d -> stored unmarshal x d -> 0 <= n -> Get (bitmap x) n = false ->
  (exists y, byte_at (bitmap x) n = Some y) -> mark_fault_ok mark_fault ->
  let '(x', d', res) := receiveChunk x n wantSum body fault mark_fault d in
  disk_wf d' /\ stored unmarshal x' d' /\
  (res = Ok tt /\ (exists b', Set_ (bitmap x) n = Some b' /\
     x' = mkState (TransferID x) (Raw x) (Man x) (SPlan x) b') /\
     durable_chunk (SPlan x) [(n, wantSum)] d' n \/
   (exists e, res = Err e) /\ x' = x).
Proof.
  intros Hwf Hst Hn Hg Hx Hmf. unfold receiveChunk.
  destruct body as [[decoded broken]|]; [|split_and!; eauto].
  pose proof (receive_actions_chunk (SPlan x) n wantSum decoded broken) as Hact.
  destruct (receive_actions (SPlan x) n wantSum decoded broken) as [ops problem] eqn:Hr.
  destruct (run_chunk_actions n ops fault d Hwf Hact) as [Hwf1 Hs1].
  destruct (run_actions ops fault d) as [d1 ok] eqn:Hrun. cbn [fst] in *.
  pose proof (stored_same unmarshal x d d1 Hs1 Hst) as Hst1.
  destruct ok; simpl; [|split_and!; eauto]. destruct problem as [e|]; [split_and!; eauto|].
  destruct (MarkChunk_spec n mark_fault (bitmap x) d1 Hwf1 Hn Hg Hx Hmf)
    as (b' & d' & marked & Hm & Hwf' & Hfail & Hok). rewrite Hm.
  split; [done|]. destruct marked.
  - destruct (Hok eq_refl) as (Hset & Hfr & Hbm & Hrest). split.
    + destruct Hst1 as (Hu & H1 & H2 & H3). unfold stored. simpl.
      rewrite !Hrest by done. done.
    + left. split; [done|]. split; [by exists b'|].
      apply (durable_state_frame _ _ d1 d' n Hfr). exact (receive_durable (SPlan x) n wantSum decoded broken ops fault d d1 Hwf Hr Hrun).
  - destruct (Hfail eq_refl) as [-> Hs]. replace (mkState _ _ _ _ _) with x by (by destruct x).
    split; [by apply (stored_same unmarshal x d1)|]. right. split; [by eexists|done].
Qed.

Lemma NumChunks_range (m : Manifest) : Validate m = Ok tt -> int64_range (NumChunks (NewPlan m)).
Proof.
  intros Hv. apply manifest_ok_Validate in Hv as (Hc & _).
  unfold NumChunks, NewPlan. destruct (plan_starts 0 (Entries m)) as [ss t]. simpl.
  destruct (t =? 0); [by vm_compute|].
  pose proof (wrap64_range (wrap64 (t + ChunkSize m) - 1)) as Hw.
  set (z := wrap64 _) in *. clearbody z. unfold int64_range, int64_min, int64_max in *.
  pose proof (Z.quot_le_upper_bound (Z.abs z) (ChunkSize m) (Z.abs z)).
  assert (Z.abs (Z.quot z (ChunkSize m)) <= Z.abs z).
  { rewrite <- Z.quot_abs by lia. rewrite (Z.abs_eq (ChunkSize m)) by lia.
    apply Z.quot_le_upper_bound; nia. }
  destruct (Z.le_gt_cases 0 z).
  - pose proof (Z.quot_pos z (ChunkSize m)). lia.
  - pose proof (Z.quot_opp_l z (ChunkSize m)). pose proof (Z.quot_pos (- z) (ChunkSize m)). lia.
Qed.

(** Every chunk of the plan of a good state has its bit. *)
Lemma state_ok_bit (x : State) (n : Z) :
  state_ok x -> 0 <= n < NumChunks (SPlan x) -> exists y, byte_at (bitmap x) n = Some y.
Proof.
  intros (Hp & Hv & b0 & Hb & Hl) Hn. pose proof (NumChunks_range _ Hv) as Hr. rewrite <- Hp in Hr.
  apply (in_bitmap b0 (NumChunks (SPlan x))); try done.
  unfold int64_range, int64_max, int64_min in *.
  destruct (Z.le_gt_cases (NumChunks (SPlan x)) (2 ^ 63 - 1 - 7)); [done|exfalso].
  unfold NewBitmap in Hb. cbv zeta in Hb.
  assert (Hw : wrap64 (NumChunks (SPlan x) + 7) = NumChunks (SPlan x) + 7 - 2 ^ 64).
  { unfold wrap64. replace (NumChunks (SPlan x) + 7 + 2 ^ 63)
      with (NumChunks (SPlan x) + 7 - 2 ^ 63 + 1 * 2 ^ 64) by lia.
    rewrite Z.mod_add by lia. rewrite Z.mod_small by lia. lia. }
  rewrite Hw in Hb. destruct (Z.ltb_spec (Z.quot (NumChunks (SPlan x) + 7 - 2 ^ 64) 8) 0); [done|].
  pose proof (Z.quot_opp_l (NumChunks (SPlan x) + 7 - 2 ^ 64) 8).
  assert (1 <= Z.quot (- (NumChunks (SPlan x) + 7 - 2 ^ 64)) 8).
  { apply Z.quot_le_lower_bound; lia. }
  lia.
Qed.

Lemma state_ok_set (x : State) (n : Z) (b' : Bitmap) :
  state_ok x -> Set_ (bitmap x) n = Some b' ->
  state_ok (mkState (TransferID x) (Raw x) (Man x) (SPlan x) b').
Proof.
  intros (Hp & Hv & b0 & Hb & Hl) Hs. split_and!; try done. exists b0. split; [done|].
  simpl. by rewrite (length_Set _ _ _ Hs).
Qed.

(** ** A server over its lifetime. *)

(** A request that changes the server, with how its body reads and which of its
    operations fail. *)
Inductive Request :=
| ManifestReq (id : string) (stream : list Z) (broken : bool) (fault : option (nat * leftover))
| ChunkReq (id number header : string) (body : option (list Z * bool)) (fault mark_fault : option (nat * leftover))
| FinalizeReq (id : string) (committed : State -> option Report) (stuck : option leftover)
| AbortReq (stuck : option leftover).

Definition serve (unmarshal : list Z -> option Manifest) (q : Request) (s : Server) (d : Disk) : Server * Disk * Response :=
  match q with
  | ManifestReq id stream broken fault => handleManifest unmarshal id stream broken fault s d
  | ChunkReq id number header body fault mark_fault => handleChunk id number header body fault mark_fault s d
  | FinalizeReq id committed stuck => handleFinalize id committed stuck s d
  | AbortReq stuck => handleAbort stuck s d
  end.

Definition is_status (r : Response) (code : Z) : bool := match r with Status c => c =? code | _ => false end.

(** Which transfer a server holds. *)
Definition transfer_of (s : Server) : option (string * string) := (fun x => (TransferID x, StateDigest x)) <$> st s.

(** Whether memory and disk may have come apart: they do where [InitState] does
    not end, where the last sync of a bitmap fails, and where the removal after a
    clean report or at an abort removes a part only; a transfer that starts, or
    is given up and removed, brings them together. *)
Definition apart (q : Request) (s s' : Server) (r : Response) (before : bool) : bool :=
  match q with
  | ManifestReq _ _ _ _ =>
      if is_status r 400 then before
      else if is_status r 204 then before && bool_decide (transfer_of s' = transfer_of s)
      else true
  | ChunkReq _ _ _ _ _ mark_fault =>
      before || (is_status r 500 && match mark_fault with Some (j, _) => (j =? 5)%nat | None => false end)
  | FinalizeReq _ _ stuck | AbortReq stuck =>
      match st s, st s' with
      | Some _, None => bool_decide (is_Some stuck)
      | _, _ => before || is_status r 500 && bool_decide (is_Some stuck)
      end
  end.

Definition serve_next (unmarshal : list Z -> option Manifest) (c : Server * Disk * bool) (q : Request) : Server * Disk * bool :=
  let '(s, d, split) := c in
  let '(s', d', r) := serve unmarshal q s d in (s', d', apart q s s' r split).

(** A server through a list of requests from its start. *)
Definition lifetime (unmarshal : list Z -> option Manifest) (s : Server) (d : Disk) (qs : list Request) : Server * Disk * bool :=
  foldl (serve_next unmarshal) (s, d, false) qs.

Definition consistent (unmarshal : list Z -> option Manifest) (sd : Server * Disk) : Prop :=
  disk_wf sd.2 /\ forall x, st sd.1 = Some x -> state_ok x /\ stored unmarshal x sd.2.

(** The disk holds the server's transfer, or none if it has none. *)
Definition in_step (unmarshal : list Z -> option Manifest) (sd : Server * Disk) : Prop :=
  consistent unmarshal sd /\ (st sd.1 = None -> read_file sd.2 (InState manifestFileName) = None).

Lemma InitState_consistent (unmarshal : list Z -> option Manifest) (id : string) (raw : list Z)
    (m : Manifest) (fault : option (nat * leftover)) (d d' : Disk) (x : State) :
  disk_wf d -> unmarshal raw = Some m -> Validate m = Ok tt ->
  InitState id raw m fault d = (d', Ok x) ->
  disk_wf d' /\ state_ok x /\ stored unmarshal x d'.
Proof.
  intros Hwf Hu Hv Hi.
  destruct (InitState_ok id raw m fault d d' x Hwf Hi) as (Hx & Hb & Hwf' & _ & H1 & H2 & i & H3 & H4).
  split; [done|]. rewrite Hx. split.
  - split_and!; try done. simpl. by exists (bitmap x).
  - unfold stored. cbn [Raw Man TransferID bitmap]. split_and!; [done|done| |unfold read_file; simpl; rewrite H3; simpl; by rewrite H4].
    rewrite H2. cbn. by rewrite string_of_bytes_of.
Qed.

Lemma state_spec (s : Server) (id : string) (x : State) :
  state s id = Some x -> st s = Some x /\ id = TransferID x.
Proof.
  unfold state. destruct (st s) as [y|]; [|done]. destruct (String.eqb_spec id (TransferID y)); [|done].
  intros [= ->]. done.
Qed.

(** The disk is well formed whatever fails. *)
Definition tame (a : action) : Prop :=
  match a with
  | OpenTrunc (InState name) => name <> bitmapFileName
  | OpenTrunc (ChunkPath _) | SyncChunksDir => False
  | Rename from to => from = bitmapTmpName /\ to = bitmapFileName
  | _ => True
  end.

Lemma wf_tame (a : action) (d : Disk) : tame a -> disk_wf d -> disk_wf (apply_action a d).
Proof.
  intros Ha Hwf. destruct a as [[name|n]|f data|f| |from to| | | |]; simpl in Ha; try done; cbn [apply_action].
  - case_match; [by apply wf_set_inode|]. by apply wf_link_state; [|apply fresh_inode|].
  - repeat case_match; by (apply wf_set_inode || idtac).
  - repeat case_match; by (apply wf_set_inode || idtac).
  - destruct Ha as [-> ->]. destruct (state_cur d !! bitmapTmpName) as [j|] eqn:Hj; [|done].
    pose proof (wf_commit_disk d j Hwf Hj) as H. cbn [apply_action] in H. by rewrite Hj in H.
  - by apply wf_sync_state_disk.
  - by apply wf_remove.
Qed.

Lemma wf_run_tame (l : list action) (fault : option (nat * leftover)) (d : Disk) :
  Forall tame l -> disk_wf d -> disk_wf (run_actions l fault d).1.
Proof.
  intros Hl. revert fault d. induction Hl as [|a l Ha Hl IH]; intros fault d Hwf; [done|].
  destruct fault as [[[|j] k]|]; [|by apply IH, wf_tame..]. cbn [run_actions fst].
  destruct a, k; try done; cbn [apply_failed]; [by apply wf_tame|].
  by apply (wf_Destroy (Some (Gone names chunks))).
Qed.

Lemma persist_tame (b : Bitmap) : Forall tame (persistBitmap b).
Proof. repeat (apply Forall_cons_2; [done|]). apply Forall_nil_2. Qed.

Lemma InitState_wf (id : string) (raw : list Z) (m : Manifest) (fault : option (nat * leftover)) (d : Disk) :
  disk_wf d -> disk_wf (InitState id raw m fault d).1.
Proof.
  intros Hwf. assert (Hi : Forall tame (init_actions id raw)) by (repeat (apply Forall_cons_2; [done|]); apply Forall_nil_2).
  unfold InitState. destruct (NewBitmap _) as [b|].
  - pose proof (wf_run_tame (init_actions id raw ++ persistBitmap b) fault d) as H. destruct (run_actions _ _ _). apply H; [|done].
    apply Forall_app. split; [done|apply persist_tame].
  - pose proof (wf_run_tame (init_actions id raw) fault d Hi Hwf) as H. by destruct (run_actions _ _ _).
Qed.

Lemma receiveChunk_wf (x : State) (n : Z) (wantSum : string) (body : option (list Z * bool))
    (fault mark_fault : option (nat * leftover)) (d : Disk) :
  disk_wf d -> disk_wf (receiveChunk x n wantSum body fault mark_fault d).1.2.
Proof.
  intros Hwf. unfold receiveChunk. destruct body as [[decoded broken]|]; [|done].
  pose proof (receive_actions_chunk (SPlan x) n wantSum decoded broken) as Hact. destruct (receive_actions _ _ _ _ _) as [ops problem].
  destruct (run_chunk_actions n ops fault d Hwf Hact) as [Hwf1 _]. destruct (run_actions ops fault d) as [d1 ok]. cbn [fst] in Hwf1.
  destruct ok; cbn [negb]; [|done]. destruct problem; [done|]. unfold MarkChunk.
  destruct (Set_ (bitmap x) n) as [b'|]; cbn [mbind option_bind]; [|done].
  pose proof (wf_run_tame (persistBitmap b') mark_fault d1 (persist_tame b') Hwf1) as H. destruct (run_actions (persistBitmap b') mark_fault d1) as [d2 [|]]; [done|].
  by destruct (Clear b' n).
Qed.

(** A manifest request leaves memory and disk together or says that it did
    not. *)
Lemma manifest_consistent (unmarshal : list Z -> option Manifest) (id : string) (stream : list Z) (broken : bool)
    (fault : option (nat * leftover)) (s : Server) (d : Disk) (split : bool) :
  disk_wf d -> (split = false -> in_step unmarshal (s, d)) ->
  let '(s', d', r) := handleManifest unmarshal id stream broken fault s d in
  disk_wf d' /\ (apart (ManifestReq id stream broken fault) s s' r split = false -> in_step unmarshal (s', d')).
Proof.
  intros Hwf Hc. unfold handleManifest. destruct (Decompress _ _ _) as [raw|]; [|done].
  destruct (Decode (unmarshal raw)) as [m|] eqn:Hd; [|done].
  destruct (match st s with Some x => _ | None => false end) eqn:Hsame.
  { split; [done|]. cbn. rewrite bool_decide_true, andb_true_r by done. done. }
  pose proof (InitState_wf id raw m fault d Hwf) as Hwf'. destruct (InitState id raw m fault d) as [d1 [x|[]]] eqn:Hi; cbn [fst] in Hwf'; [|done..].
  split; [done|]. intros _. unfold Decode in Hd. destruct (unmarshal raw) as [m'|] eqn:Hu; [|done].
  destruct (Validate m') as [[]|] eqn:Hv; [|done]. injection Hd as ->.
  destruct (InitState_consistent unmarshal id raw m fault d d1 x Hwf Hu Hv Hi) as (H1 & H2 & H3). split; [|done]. split; [done|]. by intros y [= <-].
Qed.

(** A chunk answered without an I/O error did not come to the last sync of a
    bitmap that would have failed. *)
Lemma receive_unmarked (x : State) (n : Z) (wantSum : string) (body : option (list Z * bool)) (fault : option (nat * leftover))
    (k : leftover) (d : Disk) x' d' res :
  receiveChunk x n wantSum body fault (Some (5%nat, k)) d = (x', d', res) -> res <> Err IOErr ->
  receiveChunk x n wantSum body fault None d = (x', d', res).
Proof.
  unfold receiveChunk. destruct body as [[decoded broken]|]; [|done]. destruct (receive_actions _ _ _ _ _) as [ops problem].
  destruct (run_actions ops fault d) as [d1 ok]. destruct ok; cbn [negb]; [|done]. destruct problem; [done|]. unfold MarkChunk.
  destruct (Set_ (bitmap x) n) as [b'|]; simpl; [|done]. destruct (Clear b' n); intros [= <- <- <-] Hres; by destruct Hres.
Qed.

Lemma chunk_consistent (unmarshal : list Z -> option Manifest) (id number header : string) (body : option (list Z * bool))
    (fault mark_fault : option (nat * leftover)) (s : Server) (d : Disk) (split : bool) :
  disk_wf d -> (split = false -> in_step unmarshal (s, d)) ->
  let '(s', d', r) := handleChunk id number header body fault mark_fault s d in
  disk_wf d' /\ (apart (ChunkReq id number header body fault mark_fault) s s' r split = false -> in_step unmarshal (s', d')).
Proof.
  intros Hwf Hc. unfold handleChunk.
  assert (Hsame : forall code, disk_wf d /\ (apart (ChunkReq id number header body fault mark_fault) s s (Status code) split = false -> in_step unmarshal (s, d))).
  { intros code. split; [done|]. cbn. intros [Hs _]%orb_false_iff. by apply Hc. }
  destruct (state s id) as [x|] eqn:Hst; [|apply Hsame]. apply state_spec in Hst as [Hst _].
  destruct (Atoi number) as [n|]; [|apply Hsame]. destruct ((n <? 0) || (NumChunks (SPlan x) <=? n)) eqn:Hn; [apply Hsame|].
  destruct (ChunkDone x n) eqn:Hg; [apply Hsame|]. destruct (negb (String.length (ToLower header) =? 64)%nat); [apply Hsame|]. bool_to_prop.
  pose proof (receiveChunk_wf x n (ToLower header) body fault mark_fault d Hwf) as Hwf'.
  destruct (receiveChunk x n (ToLower header) body fault mark_fault d) as [[x' d1] res] eqn:Hr. split; [done|]. cbn [apart].
  intros [Hs Hm]%orb_false_iff. destruct (Hc Hs) as [[_ Hx] _]. destruct (Hx x Hst) as [Hok Hsto].
  assert (He : exists mf, mark_fault_ok mf /\ receiveChunk x n (ToLower header) body fault mf d = (x', d1, res)).
  { destruct mark_fault as [[i k]|]; [|by exists None]. destruct (decide (i = 5%nat)) as [->|]; [|by exists (Some (i, k))].
    exists None. split; [done|]. eapply receive_unmarked; [exact Hr|]. by intros ->. }
  destruct He as (mf & Hmf & Hr').
  pose proof (receiveChunk_spec unmarshal x n (ToLower header) body fault mf d Hwf Hsto ltac:(lia) Hg
    (state_ok_bit x n Hok ltac:(lia)) Hmf) as Hrc.
  rewrite Hr' in Hrc. destruct Hrc as (_ & Hsto1 & Hres). split; [|done]. split; [done|]. intros y [= <-]. split; [|done].
  destruct Hres as [(_ & (b' & Hset & ->) & _)|[_ ->]]; [|done]. by apply (state_ok_set x n).
Qed.

(** A transfer given up. *)
Lemma removed_in_step (unmarshal : list Z -> option Manifest) (s : Server) (d : Disk) (stuck : option leftover) :
  disk_wf d -> st s = None -> bool_decide (is_Some stuck) = false -> in_step unmarshal (s, (Destroy stuck d).1).
Proof.
  intros Hwf Hst Hk. split; [split; [by apply wf_Destroy|]; cbn; congruence|]. intros _. destruct stuck as [k|]; [by apply bool_decide_eq_false in Hk; destruct Hk|done].
Qed.

Lemma abort_consistent (unmarshal : list Z -> option Manifest) (q : Request) (s : Server) (d : Disk) (split : bool) :
  match q with FinalizeReq _ _ _ | AbortReq _ => True | _ => False end ->
  disk_wf d -> (split = false -> in_step unmarshal (s, d)) ->
  let '(s', d', r) := serve unmarshal q s d in
  disk_wf d' /\ (apart q s s' r split = false -> in_step unmarshal (s', d')).
Proof.
  intros Hq Hwf Hc.
  assert (Hkeep : forall p r', split = false -> in_step unmarshal (mkServer (token s) (st s) p r', d)) by (intros p r' Hs; by apply Hc).
  assert (Hsame : forall c stuck, disk_wf d /\ (match st s, st s with Some _, None => bool_decide (is_Some stuck)
      | _, _ => split || is_status c 500 && bool_decide (is_Some (A := leftover) stuck) end = false -> in_step unmarshal (s, d))).
  { intros c stuck. split; [done|]. destruct (st s); intros [Hs _]%orb_false_iff; by apply Hc. }
  destruct q as [| |id committed stuck|stuck]; try done; clear Hq; cbn [serve apart].
  - unfold handleFinalize. destruct (st s) as [x|] eqn:Hst.
    + destruct (negb (id =? TransferID x)%string); [rewrite Hst; apply (Hsame (Status 409))|].
      destruct (negb (AllChunksDone x)); [rewrite Hst; apply (Hsame (Status 409))|].
      destruct (committed x) as [r|]; cbn [st]; [|split; [done|]; intros [Hs _]%orb_false_iff; by apply Hkeep].
      destruct (reportClean r); cbn [st]; [|split; [done|]; intros [Hs _]%orb_false_iff; by apply Hkeep].
      split; [by apply wf_Destroy|]. by apply removed_in_step.
    + destruct (phase s); try apply (Hsame (Status 409)).
      destruct (lastReport s) as [r|]; [apply (Hsame (BodyReport r))|apply (Hsame (Status 409))].
  - unfold handleAbort. destruct (st s) as [x|] eqn:Hst; cbn [st].
    + destruct stuck as [k|]; [|split; [by apply (wf_Destroy None)|]; intros _; by apply (removed_in_step unmarshal _ d None)].
      cbn [Destroy run_actions fmap option_fmap option_map]. rewrite Hst. split; [by apply (wf_Destroy (Some k))|].
      intros [_ Hk]%orb_false_iff. by rewrite bool_decide_true in Hk by (by eexists).
    + split; [done|]. intros [Hs _]%orb_false_iff. by apply Hkeep.
Qed.

Lemma serve_consistent (unmarshal : list Z -> option Manifest) (q : Request) (s : Server) (d : Disk) (split : bool) :
  disk_wf d -> (split = false -> in_step unmarshal (s, d)) ->
  let '(s', d', r) := serve unmarshal q s d in
  disk_wf d' /\ (apart q s s' r split = false -> in_step unmarshal (s', d')).
Proof. destruct q; [apply manifest_consistent|apply chunk_consistent|by apply abort_consistent..]. Qed.

Lemma lifetime_in_step (unmarshal : list Z -> option Manifest) (s0 : Server) (d0 : Disk) (qs : list Request) :
  in_step unmarshal (s0, d0) ->
  let '(s, d, split) := lifetime unmarshal s0 d0 qs in disk_wf d /\ (split = false -> in_step unmarshal (s, d)).
Proof.
  intros H0. unfold lifetime. induction qs as [|q qs IH] using rev_ind; [split; [apply H0|done]|].
  rewrite foldl_app. simpl. destruct (foldl _ _ qs) as [[s d] split]. destruct IH as [Hd Hc].
  pose proof (serve_consistent unmarshal q s d split Hd Hc) as H. unfold serve_next. by destruct (serve unmarshal q s d) as [[s' d'] r].
Qed.

(** A server that starts holds what its disk does. *)
Lemma NewServer_in_step (unmarshal : list Z -> option Manifest) (tok : string) (d : Disk) (s : Server) :
  disk_wf d -> NewServer unmarshal (fun _ => false) tok d = Ok s -> tok <> ""%string /\ in_step unmarshal (s, d).
Proof.
  intros Hwf. unfold NewServer. destruct (String.eqb_spec tok ""); [done|].
  destruct (LoadState _ _ d) as [[x|]|] eqn:Hl; [| |done]; intros [= <-]; (split; [done|]).
  - apply LoadState_found in Hl. split; [|done]. split; [done|]. by intros y [= <-].
  - apply LoadState_none in Hl. by split.
Qed.

Lemma reportClean_spec (rep : Report) :
  reportClean rep = true <-> Forall (fun f => Match f = true /\ Error f = "") (Files rep).
Proof.
  unfold reportClean, failedCount. rewrite Nat.eqb_eq, filter_none. split.
  - intros H. apply Forall_forall. intros f Hf. rewrite Forall_forall in H. specialize (H f Hf).
    destruct (Match f), (String.eqb_spec (Error f) ""); simpl in H; try done; exfalso; by apply H.
  - intros H. eapply Forall_impl; [exact H|]. intros f [-> ->]. done.
Qed.

(** ** Properties of the server. *)


(** What an upload request does. It is answered 204 exactly when it staged a
    chunk of the plan that was not done: the chunk is then durable, with the planned
    length and the digest of the request's header, and its bit is the only one that
    changed. Every other answer leaves the server as it was, and 200 means that the
    chunk was already done. *)
Theorem chunk_upload_outcome (unmarshal : list Z -> option Manifest) (s : Server) (d : Disk)
    (id number header : string) (body : option (list Z * bool)) (fault mark_fault : option (nat * leftover)) :
  consistent unmarshal (s, d) -> mark_fault_ok mark_fault ->
  let '(s', d', r) := handleChunk id number header body fault mark_fault s d in
  (r = Status 204 /\ exists x x' n, st s = Some x /\ id = TransferID x /\ Atoi number = Some n /\
     0 <= n < NumChunks (SPlan x) /\ Get (bitmap x) n = false /\ st s' = Some x' /\
     SPlan x' = SPlan x /\ (forall k, 0 <= k -> Get (bitmap x') k = (k =? n) || Get (bitmap x) k) /\
     durable_chunk (SPlan x) [(n, ToLower header)] d' n) \/
  (exists code, r = Status code /\ code ∈ [200; 400; 409; 422; 500] /\ s' = s /\
     (code = 200 -> exists x n, st s = Some x /\ Atoi number = Some n /\ Get (bitmap x) n = true)).
Proof.
  intros [Hwf Hc] Hm. unfold handleChunk. simpl in *.
  assert (Hfail : forall code, code ∈ [200; 400; 409; 422; 500] -> code <> 200 ->
    exists code', Status code = Status code' /\ code' ∈ [200; 400; 409; 422; 500] /\ s = s /\
     (code' = 200 -> exists x n, st s = Some x /\ Atoi number = Some n /\ Get (bitmap x) n = true)).
  { intros code Hin Hne. by exists code. }
  destruct (state s id) as [x|] eqn:Hst; [|right; apply Hfail; [rewrite !elem_of_cons; tauto|done]].
  apply state_spec in Hst as [Hst Hid]. destruct (Hc x Hst) as [Hok Hsto].
  destruct (Atoi number) as [n|] eqn:Hn; [|right; apply Hfail; [rewrite !elem_of_cons; tauto|done]].
  destruct ((n <? 0) || (NumChunks (SPlan x) <=? n)) eqn:Hr;
    [right; apply Hfail; [rewrite !elem_of_cons; tauto|done]|].
  destruct (ChunkDone x n) eqn:Hg.
  { right. exists 200. split_and!; [done|rewrite !elem_of_cons; tauto|done|]. intros _. by exists x, n. }
  destruct (negb (String.length (ToLower header) =? 64)%nat);
    [right; apply Hfail; [rewrite !elem_of_cons; tauto|done]|]. bool_to_prop.
  pose proof (receiveChunk_spec unmarshal x n (ToLower header) body fault mark_fault d Hwf Hsto
    ltac:(lia) Hg (state_ok_bit x n Hok ltac:(lia)) Hm) as Hrc.
  destruct (receiveChunk x n (ToLower header) body fault mark_fault d) as [[x' d1] res].
  destruct Hrc as (_ & _ & [(-> & (b' & Hs & ->) & Hd)|[[e ->] ->]]).
  - left. split; [done|]. eexists x, _, n. split_and!; try done; try lia.
    intros k Hk. apply (Set_spec (bitmap x)); [lia|done|done].
  - right. assert (Hsame : set_st (Some x) s = s) by (unfold set_st; rewrite <- Hst; by destruct s).
    rewrite Hsame. destruct e; apply Hfail; try done; rewrite !elem_of_cons; tauto.
Qed.

(** Finalize commits only a complete transfer. A report that a finalize request
    returns for the transfer under way comes from a commit of that transfer, for its
    id, with every chunk marked done; and the server gives up the transfer's state
    exactly when the report shows no failed entry. *)
Theorem finalize_needs_every_chunk (s : Server) (d : Disk) (x : State) (id : string)
    (commit : State -> option Report) (stuck : option leftover) :
  st s = Some x ->
  let '(s', d', r) := handleFinalize id commit stuck s d in
  (forall rep, r = BodyReport rep ->
     id = TransferID x /\ commit x = Some rep /\ lastReport s' = Some rep /\
     forall n, 0 <= n < NumChunks (SPlan x) -> Get (bitmap x) n = true) /\
  (st s' = None -> phase s' = PhaseCompleted) /\
  (st s' = None <-> exists rep, r = BodyReport rep /\
     Forall (fun f => Match f = true /\ Error f = "") (Files rep)) /\
  (st s' <> None -> s' = s \/ phase s' = PhaseFailed /\ st s' = Some x).
Proof.
  intros Hst. unfold handleFinalize. rewrite Hst.
  destruct (String.eqb_spec id (TransferID x)) as [->|Hid]; simpl.
  2: { rewrite Hst. split_and!; try done; intros; try (by left); split; try done; naive_solver. }
  destruct (AllChunksDone x) eqn:Hall; simpl.
  2: { rewrite Hst. split_and!; try done; intros; try (by left); split; try done; naive_solver. }
  assert (Hbits : forall n, 0 <= n < NumChunks (SPlan x) -> Get (bitmap x) n = true).
  { unfold AllChunksDone in Hall. bool_to_prop. intros n Hn. revert n Hn. apply Count_all; [|done].
    unfold Count in Hall. destruct (Z.le_gt_cases 0 (NumChunks (SPlan x))); [done|].
    exfalso. rewrite seqZ_nil in Hall by lia. simpl in Hall. lia. }
  destruct (commit x) as [rep|] eqn:Hc.
  2: { simpl. split_and!; try done; intros; try (by right); split; try done; naive_solver. }
  destruct (reportClean rep) eqn:Hrc; simpl.
  - split_and!; try done; [intros ? [= <-]; done|].
    split; [intros _; exists rep; split; [done|by apply reportClean_spec]|done].
  - split_and!; try done; [intros ? [= <-]; done| |by right].
    split; [done|]. intros (rep' & [= <-] & Hf). apply reportClean_spec in Hf. congruence.
Qed.

(** Accepting a manifest either resumes or starts clean. The manifest that is
    already under way, by id and digest, changes nothing, so its bitmap and staged
    chunks stay. Any other valid manifest that is answered 204 starts a transfer of
    that id and manifest with no chunk done, on a disk from which crash-safe staging
    can start. An invalid or oversized manifest is refused and changes nothing. *)
Theorem manifest_request_outcome (unmarshal : list Z -> option Manifest) (s : Server) (d : Disk)
    (id : string) (raw : list Z) (m : Manifest) (fault : option (nat * leftover)) :
  disk_wf d -> Z.of_nat (length raw) <= maxManifestBytes -> unmarshal raw = Some m ->
  let '(s', d', r) := handleManifest unmarshal id raw false fault s d in
  match st s with
  | Some x =>
      TransferID x = id -> StateDigest x = Digest raw -> Validate m = Ok tt ->
      (s', d', r) = (s, d, Status 204)
  | None => True
  end /\
  (Validate m <> Ok tt -> (s', d', r) = (s, d, Status 400)) /\
  (r = Status 204 ->
   s' = s /\ d' = d \/
   exists x, s' = mkServer (token s) (Some x) PhaseReceiving None /\ TransferID x = id /\
     Man x = m /\ (forall n, 0 <= n -> Get (bitmap x) n = false) /\
     fresh_state (NewPlan m) (mkSys d' (bitmap x) ∅ None [])).
Proof.
  intros Hwf Hlen Hu. unfold handleManifest, Decompress. simpl.
  rewrite LimitReader_take, take_ge by lia. destruct (Z.ltb_spec maxManifestBytes (Z.of_nat (length raw))); [lia|].
  unfold Decode. rewrite Hu. destruct (Validate m) as [[]|e] eqn:Hv.
  2: { split_and!; try done. by destruct (st s). }
  destruct (match st s with Some x => _ | None => false end) eqn:Hsame.
  - split_and!; try done; [by destruct (st s)|]. by left.
  - destruct (InitState id raw m fault d) as [d' [x|err]] eqn:Hi.
    + split_and!; try done.
      * destruct (st s) as [y|]; [|done]. intros <- Hdig _. by rewrite String.eqb_refl, Hdig, String.eqb_refl in Hsame.
      * intros _. right. exists x.
        destruct (InitState_ok id raw m fault d d' x Hwf Hi) as (Hx & Hb & Hwf' & Hold & _ & _ & Hbm).
        split; [done|]. split; [by rewrite Hx|]. split; [by rewrite Hx|]. split; [|by split_and!].
        intros n Hn. by apply (NewBitmap_Get (NumChunks (NewPlan m))).
    + destruct err; (split_and!; try done);
        (destruct (st s) as [y|]; [|done]); intros <- Hdig _;
        by rewrite String.eqb_refl, Hdig, String.eqb_refl in Hsame.
Qed.

(** Progress adds up. For a transfer whose sizes fit, the bytes that progress
    reports are between zero and the total, the chunk count is the number of bits
    set, and the bytes reach the total exactly when every chunk is done. *)
Theorem progress_accounts (s : Server) (x : State) :
  st s = Some x -> plan_fits (Man x) -> SPlan x = NewPlan (Man x) ->
  exists pr, handleProgress s = BodyProgress pr /\
    Wire.TotalBytes pr = sumZ (Size <$> Entries (Man x)) /\ 0 <= BytesDone pr <= Wire.TotalBytes pr /\
    TotalChunks pr = NumChunks (SPlan x) /\ ChunksDone pr = Count (bitmap x) (TotalChunks pr) /\
    (BytesDone pr = Wire.TotalBytes pr <-> AllChunksDone x = true).
Proof.
  intros Hst Hf Hp. unfold handleProgress. rewrite Hst. unfold AllChunksDone. rewrite Hp.
  set (p := NewPlan (Man x)) in *. set (T := sumZ (Size <$> Entries (Man x))) in *.
  set (todo := fun n => if Get (bitmap x) n then 0 else ChunkLength p n).
  pose proof (T_bound (Man x) Hf) as HT. pose proof (T_nonneg (Man x) Hf) as Hnn. fold T in HT, Hnn.
  assert (Hk : 0 <= NumChunks p).
  { unfold p. rewrite (NumChunks_exact _ Hf). apply Z.div_pos; lia. }
  assert (Hlen : forall n, n ∈ seqZ 0 (NumChunks p) -> 0 < ChunkLength p n).
  { intros n Hn. apply elem_of_seqZ in Hn. assert (Hn' : 0 <= n < NumChunks p) by lia.
    unfold p. rewrite (ChunkLength_exact _ Hf n Hn'). pose proof (chunk_start_lt _ Hf n Hn'). lia. }
  assert (Hsum : sumZ (ChunkLength p <$> seqZ 0 (NumChunks p)) = T).
  { rewrite <- (Z2Nat.id (NumChunks p)) by done. unfold p at 1.
    rewrite (chunk_lengths_prefix (Man x) Hf) by (fold p; lia).
    pose proof (last_chunk _ Hf) as Hl. fold p T in Hl |- *. lia. }
  assert (Hgen : forall l c b, (forall n, n ∈ l -> 0 < ChunkLength p n) -> 0 <= b ->
    b + sumZ (ChunkLength p <$> l) <= int64_max ->
    foldl (fun acc n => if Get (bitmap x) n then (acc.1 + 1, wrap64 (acc.2 + ChunkLength p n)) else acc) (c, b) l =
    (foldl (fun c n => if Get (bitmap x) n then c + 1 else c) c l,
     b + sumZ (ChunkLength p <$> l) - sumZ (todo <$> l)) /\
    0 <= sumZ (todo <$> l) <= sumZ (ChunkLength p <$> l) /\
    (sumZ (todo <$> l) = 0 <-> Forall (fun n => Get (bitmap x) n = true) l)).
  { clear Hsum. induction l as [|n l IH]; intros c b Hl Hb Hmax; csimpl in *.
    - split_and!; try done; [f_equal; lia]. 
    - assert (Hn : 0 < ChunkLength p n) by (apply Hl; left).
      assert (Hl' : forall k, k ∈ l -> 0 < ChunkLength p k) by (intros k Hk'; apply Hl; by right).
      assert (0 <= sumZ (ChunkLength p <$> l)).
      { apply sumZ_nonneg, Forall_fmap, Forall_forall. intros k Hk'. simpl. specialize (Hl' k Hk'). lia. }
      rewrite Forall_cons.
      assert (Htn : todo n = if Get (bitmap x) n then 0 else ChunkLength p n) by done. rewrite !Htn.
      destruct (Get (bitmap x) n) eqn:Hg.
      + wrap_id. destruct (IH (c + 1) (b + ChunkLength p n) Hl' ltac:(lia) ltac:(lia)) as (-> & H1 & H2).
        split; [f_equal; lia|]. split; [lia|]. rewrite Z.add_0_l, H2. tauto.
      + destruct (IH c b Hl' ltac:(lia) ltac:(lia)) as (-> & H1 & H2).
        split; [f_equal; lia|]. split; [lia|]. split; [lia|]. by intros [? _]. }
  destruct (Hgen (seqZ 0 (NumChunks p)) 0 0 Hlen ltac:(lia) ltac:(lia)) as (Hfold & Hb & Hz).
  rewrite Hfold. eexists. split; [done|]. cbn [Wire.TotalBytes BytesDone TotalChunks ChunksDone].
  assert (Htot : Chunk.total p = T) by (unfold p; rewrite (NewPlan_exact _ Hf); done).
  rewrite Htot, Hsum in *. split_and!; try done; try lia.
  rewrite Z.eqb_eq, Count_all by done.
  transitivity (sumZ (todo <$> seqZ 0 (NumChunks p)) = 0); [lia|]. rewrite Hz, Forall_forall.
  setoid_rewrite elem_of_seqZ. split; intros H n Hn; apply H; lia.
Qed.

(** ** Concrete runs. *)

Definition demo_raw : list Z := bytes_of "{manifest}".

Definition demo_unmarshal (raw : list Z) : option Manifest :=
  if decide (raw = demo_raw) then Some demo_manifest else None.

Definition demo_empty : Disk := mkDisk ∅ ∅ [] ∅ [].

Definition demo_idle : Server := mkServer "secret" None PhaseWaiting None.

Definition demo_started : Server * Disk * Response :=
  handleManifest demo_unmarshal "t1" demo_raw false None demo_idle demo_empty.

Definition demo_uploaded : Server * Disk * Response :=
  handleChunk "t1" "0" demo_sum (Some (demo_payload, false)) None None demo_started.1.1 demo_started.1.2.

Definition demo_state (b : Bitmap) : State :=
  mkState "t1" demo_raw demo_manifest (NewPlan demo_manifest) b.

Lemma demo_empty_wf : disk_wf demo_empty.
Proof.
  assert (Hs : forall t, t ∈ state_cur demo_empty :: state_old demo_empty -> t = ∅).
  { intros t Ht. by apply list_elem_of_singleton in Ht. }
  assert (Hc : forall t, t ∈ chunk_cur demo_empty :: chunk_old demo_empty -> t = ∅).
  { intros t Ht. by apply list_elem_of_singleton in Ht. }
  constructor; simpl.
  - intros i [(t & a & Ht & Ha)|(t & a & Ht & Ha)];
      [apply Hs in Ht as ->|apply Hc in Ht as ->]; by rewrite lookup_empty in Ha.
  - intros i (t & a & Ht & Ha). apply Hs in Ht as ->. by rewrite lookup_empty in Ha.
  - apply Forall_singleton. intros a b i Ha. by rewrite lookup_empty in Ha.
  - apply Forall_singleton. intros a b i Ha. by rewrite lookup_empty in Ha.
  - intros j t Hj. by rewrite lookup_empty in Hj.
Qed.

(** A manifest that could not be written, the same one again, a chunk whose
    staging fails, and the chunk. *)
Definition demo_requests : list Request :=
  [ManifestReq "t1" demo_raw false (Some (9%nat, Bytes 0)); ManifestReq "t1" demo_raw false None;
   ChunkReq "t1" "0" demo_sum (Some (demo_payload, false)) (Some (1%nat, Bytes 2)) None;
   ChunkReq "t1" "0" demo_sum (Some (demo_payload, false)) None None].

Definition demo_end : Server * Disk * bool := lifetime demo_unmarshal demo_idle demo_empty demo_requests.


(** A second transfer whose manifest could not be written: the server keeps the
    first, of which the disk holds nothing. *)
Example failed_manifest_comes_apart :
  let '(s, d, split) := lifetime demo_unmarshal demo_idle demo_empty
    [ManifestReq "t1" demo_raw false None; ManifestReq "t2" demo_raw false (Some (1%nat, Bytes 0))] in
  split = true /\ st s = Some (demo_state [0]) /\
  NewServer demo_unmarshal (fun _ => false) "secret" d = Ok (mkServer "secret" None PhaseWaiting None).
Proof. vm_compute. split_and!; reflexivity. Qed.

Lemma demo_empty_in_step : in_step demo_unmarshal (demo_idle, demo_empty).
Proof. split; [split; [apply demo_empty_wf|intros x [=]]|done]. Qed.

Lemma demo_started_consistent : consistent demo_unmarshal (demo_started.1.1, demo_started.1.2).
Proof.
  pose proof (lifetime_in_step demo_unmarshal demo_idle demo_empty [ManifestReq "t1" demo_raw false None] demo_empty_in_step) as H.
  destruct (lifetime _ _ _ _) as [[s d] split] eqn:Hl. destruct H as [_ H].
  assert (He : (s, d, split) = (demo_started.1.1, demo_started.1.2, false)) by (rewrite <- Hl; vm_compute; reflexivity).
  injection He as -> -> ->. by apply H.
Qed.

Lemma chunk_upload_outcome_witness :
  let '(s', d', r) := demo_uploaded in
  (r = Status 204 /\ exists x x' n, st demo_started.1.1 = Some x /\ "t1" = TransferID x /\
     Atoi "0" = Some n /\ 0 <= n < NumChunks (SPlan x) /\ Get (bitmap x) n = false /\ st s' = Some x' /\
     SPlan x' = SPlan x /\ (forall k, 0 <= k -> Get (bitmap x') k = (k =? n) || Get (bitmap x) k) /\
     durable_chunk (SPlan x) [(n, ToLower demo_sum)] d' n) \/
  (exists code, r = Status code /\ code ∈ [200; 400; 409; 422; 500] /\ s' = demo_started.1.1 /\
     (code = 200 -> exists x n, st demo_started.1.1 = Some x /\ Atoi "0" = Some n /\
        Get (bitmap x) n = true)).
Proof.
  apply (chunk_upload_outcome demo_unmarshal demo_started.1.1 demo_started.1.2 "t1" "0" demo_sum
    (Some (demo_payload, false)) None None demo_started_consistent I).
Defined.

Definition demo_report : Report :=
  mkReport [mkFileResult "a" (sha256_hex "abcdef") true ""; mkFileResult "d" "" true "";
            mkFileResult "d/b" (sha256_hex "ghijk") true ""] [].

Definition demo_complete : Server := mkServer "secret" (Some (demo_state [7])) PhaseReceiving None.

Lemma finalize_needs_every_chunk_witness :
  let '(s', d', r) := handleFinalize "t1" (fun _ => Some demo_report) None demo_complete demo_empty in
  (forall rep, r = BodyReport rep ->
     "t1" = TransferID (demo_state [7]) /\ Some demo_report = Some rep /\ lastReport s' = Some rep /\
     forall n, 0 <= n < NumChunks (SPlan (demo_state [7])) -> Get [7] n = true) /\
  (st s' = None -> phase s' = PhaseCompleted) /\
  (st s' = None <-> exists rep, r = BodyReport rep /\
     Forall (fun f => Match f = true /\ Error f = "") (Files rep)) /\
  (st s' <> None -> s' = demo_complete \/ phase s' = PhaseFailed /\ st s' = Some (demo_state [7])).
Proof.
  apply (finalize_needs_every_chunk demo_complete demo_empty (demo_state [7]) "t1"
    (fun _ => Some demo_report) None). reflexivity.
Defined.

Lemma manifest_request_outcome_witness :
  let '(s', d', r) := demo_started in
  True /\
  (Validate demo_manifest <> Ok tt -> (s', d', r) = (demo_idle, demo_empty, Status 400)) /\
  (r = Status 204 ->
   s' = demo_idle /\ d' = demo_empty \/
   exists x, s' = mkServer "secret" (Some x) PhaseReceiving None /\ TransferID x = "t1" /\
     Man x = demo_manifest /\ (forall n, 0 <= n -> Get (bitmap x) n = false) /\
     fresh_state (NewPlan demo_manifest) (mkSys d' (bitmap x) ∅ None [])).
Proof.
  apply (manifest_request_outcome demo_unmarshal demo_idle demo_empty "t1" demo_raw demo_manifest None
    demo_empty_wf); [vm_compute; discriminate|vm_compute; reflexivity].
Defined.

Lemma progress_accounts_witness :
  exists pr, handleProgress demo_complete = BodyProgress pr /\
    Wire.TotalBytes pr = sumZ (Size <$> Entries demo_manifest) /\
    0 <= BytesDone pr <= Wire.TotalBytes pr /\
    TotalChunks pr = NumChunks (SPlan (demo_state [7])) /\
    ChunksDone pr = Count [7] (TotalChunks pr) /\
    (BytesDone pr = Wire.TotalBytes pr <-> AllChunksDone (demo_state [7]) = true).
Proof. apply (progress_accounts demo_complete (demo_state [7]) eq_refl demo_fits eq_refl). Defined.

(** A disk with the three chunks of [demo_manifest] staged. *)
Definition demo_all_staged : Disk :=
  run_all demo_empty
    (concat ((fun n => [OpenTrunc (ChunkPath n);
       Write (ChunkPath n) (chunk_payload (NewPlan demo_manifest) demo_contents n)]) <$> [0; 1; 2])).

Lemma demo_all_staged_ok (n : Z) :
  0 <= n < NumChunks (NewPlan demo_manifest) ->
  read_file demo_all_staged (ChunkPath n) = Some (chunk_payload (NewPlan demo_manifest) demo_contents n).
Proof.
  intros Hn. change (NumChunks (NewPlan demo_manifest)) with 3 in Hn.
  assert (Hc : n = 0 \/ n = 1 \/ n = 2) by lia.
  destruct Hc as [-> | [-> | ->]]; vm_compute; reflexivity.
Qed.

Lemma assemble_total_witness : is_Some (AssembleEntry (demo_state [7]) demo_empty 0).
Proof.
  apply (assemble_total (demo_state [7]) demo_empty 0); [apply demo_fits|reflexivity|simpl; lia].
Defined.
