(* ===== verification/CommitS3.v ===== *)
(** * Committing a transfer into an object store
    ([src/datamover/internal/ingest/commit_s3.go]).

    [ObjectStore] is the interface the committer works through, with the promises
    it relies on; the committer and its theorem are about any implementation. The
    in-memory store is one, as in the tests of the code. *)

From Stdlib Require Import Ascii.
From stdpp Require Import base tactics numbers list option strings gmap.
From S2P Require Import Prelude GoStd Sha256 Wire Manifest Chunk Staging Ingest.

(** ** The interface. *)

(** The operations of the Go interface, on a store of type [S]. *)
Class ObjectStore (S : Type) := {
  EnsureBucket : S -> S * bool;
  Put : S -> string -> list Z -> S * bool;
  ListKeys : S -> option (list string);
  Remove : S -> string -> S * bool;
}.

(** What the documented behaviour of the operations promises, in terms of the
    objects of the bucket: an operation that reports success did what it says, one
    that fails touches no other key, and nothing else changes a bucket. *)
Class ObjectStoreLaws (S : Type) `{ObjectStore S} := {
  objects : S -> gmap string (list Z);
  EnsureBucket_objects s s' ok : EnsureBucket s = (s', ok) -> objects s' = objects s;
  Put_ok s s' k c : Put s k c = (s', true) -> objects s' = <[k := c]> (objects s);
  Put_other s s' k c ok k' : Put s k c = (s', ok) -> k' <> k -> objects s' !! k' = objects s !! k';
  List_ok s ks : ListKeys s = Some ks -> forall k, k ∈ ks <-> is_Some (objects s !! k);
  List_NoDup s ks : ListKeys s = Some ks -> NoDup ks;
  Remove_ok s s' k : Remove s k = (s', true) -> objects s' = delete k (objects s);
}.

(** ** The committer. *)

(** Which local file operation fails for an entry: creating the scratch file,
    reading it back, opening it for the upload. *)
Record LocalFaults := mkLocalFaults { fail_create : bool; fail_hash : bool; fail_open : bool }.

Inductive CommitError := ErrEnsureBucket | ErrContext | ErrListing | ErrDeleting (key : string).

Section committer.
Context {S : Type} `{ObjectStore S}.

(** [st] and the disk with its staged chunks; the failures of the local files by
    entry; the entry at which the context is found cancelled, if any. *)
Context (st : State) (d : Disk) (faults : nat -> LocalFaults) (cancelled : nat -> bool).

(** [assembleTo]: the content of the scratch file, [None] for an error. *)
Definition assembleTo (i : nat) : option (list Z) :=
  if fail_create (faults i) then None
  else match AssembleEntry st d i with Some (Ok c) => Some c | _ => None end.

Definition putObject (s : S) (i : nat) (key : string) (scratch : list Z) : S * bool :=
  if fail_open (faults i) then (s, false) else Put s key scratch.

(** The body of the loop of [Commit]. *)
Definition commit_entry (s : S) (i : nat) (e : Entry) : S * FileResult :=
  if negb (Type_ e =? TypeFile)%string then (s, mkFileResult (Path e) "" true "")
  else match assembleTo i with
  | None => (s, mkFileResult (Path e) "" false "assembling")
  | Some c =>
      if fail_hash (faults i) then (s, mkFileResult (Path e) "" false "hashing")
      else
        let sum := hex_encode (Sum256_bytes c) in
        if negb (sum =? SHA256 e)%string
        then (s, mkFileResult (Path e) sum false "sha256 mismatch after assembly")
        else
          let '(s', ok) := putObject s i (Path e) c in
          (s', mkFileResult (Path e) sum true (if ok then "" else "uploading"))
  end.

Fixpoint commit_loop (s : S) (i : nat) (es : list Entry) (acc : list FileResult) :
    S * result CommitError (list FileResult) :=
  match es with
  | [] => (s, Ok acc)
  | e :: es' =>
      if cancelled i then (s, Err ErrContext)
      else let '(s', r) := commit_entry s i e in commit_loop s' (Datatypes.S i) es' (acc ++ [r])
  end.

(** The loop over the listed keys that removes what the manifest does not name. *)
Fixpoint remove_loop (s : S) (keep : gset string) (keys deleted : list string) :
    S * result CommitError (list string) :=
  match keys with
  | [] => (s, Ok deleted)
  | k :: keys' =>
      if bool_decide (k ∈ keep) then remove_loop s keep keys' deleted
      else match Remove s k with
           | (s', false) => (s', Err (ErrDeleting k))
           | (s', true) => remove_loop s' keep keys' (deleted ++ [k])
           end
  end.

Definition kept (es : list Entry) : gset string :=
  list_to_set (Path <$> filter (fun e => Type_ e = TypeFile) es).

Definition Commit (s : S) : S * result CommitError Report :=
  let '(s0, ok) := EnsureBucket s in
  if negb ok then (s0, Err ErrEnsureBucket)
  else match commit_loop s0 0 (Entries (Man st)) [] with
  | (s1, Err e) => (s1, Err e)
  | (s1, Ok files) =>
      match ListKeys s1 with
      | None => (s1, Err ErrListing)
      | Some keys =>
          match remove_loop s1 (kept (Entries (Man st))) keys [] with
          | (s2, Err e) => (s2, Err e)
          | (s2, Ok deleted) => (s2, Ok (mkReport files deleted))
          end
      end
  end.
End committer.

(** ** An implementation: the store in memory. *)

Record MemStore := mkMemStore { mem : gmap string (list Z) }.

#[export] Instance mem_store : ObjectStore MemStore := {
  EnsureBucket s := (s, true);
  Put s k c := (mkMemStore (<[k := c]> (mem s)), true);
  ListKeys s := Some (map_to_list (mem s)).*1;
  Remove s k := (mkMemStore (delete k (mem s)), true);
}.

#[export] Program Instance mem_store_laws : ObjectStoreLaws MemStore := {
  objects s := mem s;
}.
Next Obligation. by intros s s' ok [= <- <-]. Qed.
Next Obligation. by intros s s' k c [= <-]. Qed.
Next Obligation. intros s s' k c ok k' [= <- <-] Hne. simpl. by apply lookup_insert_ne. Qed.
Next Obligation.
  intros s ks [= <-] k. rewrite list_elem_of_fmap. split.
  - intros ([k' c] & -> & Hin). apply elem_of_map_to_list in Hin. by eexists.
  - intros [c Hc]. exists (k, c). split; [done|]. by apply elem_of_map_to_list.
Qed.
Next Obligation. intros s ks [= <-]. apply NoDup_fst_map_to_list. Qed.
Next Obligation. by intros s s' k [= <-]. Qed.

(** ** Lemmas. *)

Section laws.
Context {S : Type} `{ObjectStoreLaws S}.
Context (st : State) (d : Disk) (faults : nat -> LocalFaults) (cancelled : nat -> bool).

Lemma commit_entry_path (s s' : S) (i : nat) (e : Entry) (r : FileResult) :
  commit_entry st d faults s i e = (s', r) -> FR_Path r = Path e.
Proof.
  unfold commit_entry. intros Hc. repeat case_match; simplify_eq; done.
Qed.

(** A clean result for a file means its assembled content is in the store, under
    its path, with the digest of the manifest. *)
Lemma commit_entry_clean (s s' : S) (i : nat) (e : Entry) (r : FileResult) :
  commit_entry st d faults s i e = (s', r) -> Match r = true -> Error r = "" ->
  if decide (Type_ e = TypeFile)
  then exists c, AssembleEntry st d i = Some (Ok c) /\ hex_encode (Sum256_bytes c) = SHA256 e /\
         FR_SHA256 r = SHA256 e /\ objects s' = <[Path e := c]> (objects s)
  else s' = s /\ FR_SHA256 r = "".
Proof.
  unfold commit_entry, assembleTo, putObject. intros Hc Hm He.
  destruct (String.eqb_spec (Type_ e) TypeFile) as [Ht|Ht]; simpl in Hc.
  - rewrite decide_True by done.
    destruct (fail_create (faults i)); [by simplify_eq|].
    destruct (AssembleEntry st d i) as [[c|]|]; [|by simplify_eq..].
    destruct (fail_hash (faults i)); [by simplify_eq|].
    destruct (String.eqb_spec (hex_encode (Sum256_bytes c)) (SHA256 e)) as [Hs|]; simpl in Hc; [|by simplify_eq].
    exists c. destruct (fail_open (faults i)); [by simplify_eq|].
    destruct (Put s (Path e) c) as [s1 ok] eqn:Hp. simplify_eq/=. destruct ok; [|done].
    split_and!; try done. by apply Put_ok.
  - rewrite decide_False by done. by simplify_eq.
Qed.

Lemma commit_loop_files (es : list Entry) :
  forall (s s' : S) (i : nat) (acc files : list FileResult),
  commit_loop st d faults cancelled s i es acc = (s', Ok files) ->
  exists rs, files = acc ++ rs /\ FR_Path <$> rs = Path <$> es.
Proof.
  induction es as [|e es IH]; intros s s' i acc files; cbn [commit_loop].
  - intros [= <- <-]. exists []. by rewrite app_nil_r.
  - destruct (cancelled i); [done|]. destruct (commit_entry st d faults s i e) as [s1 r] eqn:Hc.
    intros Hl. apply IH in Hl as (rs & -> & Hp). exists (r :: rs).
    rewrite <- app_assoc. csimpl. by rewrite Hp, (commit_entry_path _ _ _ _ _ Hc).
Qed.

(** The objects after a clean loop: the new contents over the old ones. *)
Lemma commit_loop_clean (es : list Entry) :
  forall (s s' : S) (i : nat) (acc files : list FileResult),
  commit_loop st d faults cancelled s i es acc = (s', Ok files) ->
  NoDup (Path <$> es) ->
  Forall (fun f => Match f = true /\ Error f = "") files ->
  (forall k, k ∉ (Path <$> filter (fun e => Type_ e = TypeFile) es) -> objects s' !! k = objects s !! k) /\
  (forall j e, es !! j = Some e -> Type_ e = TypeFile ->
     exists c, AssembleEntry st d (i + j) = Some (Ok c) /\
       hex_encode (Sum256_bytes c) = SHA256 e /\ objects s' !! Path e = Some c).
Proof.
  induction es as [|e es IH]; intros s s' i acc files; cbn [commit_loop].
  - intros [= <- <-] _ _. split; [done|]. intros j e Hj. by rewrite lookup_nil in Hj.
  - destruct (cancelled i); [done|]. destruct (commit_entry st d faults s i e) as [s1 r] eqn:Hc.
    intros Hl Hnd Hf. pose proof Hl as Hfiles. apply commit_loop_files in Hfiles as (rs & -> & _).
    assert (Hfr : Match r = true /\ Error r = "").
    { rewrite !Forall_app, Forall_singleton in Hf. by destruct Hf as [[_ ?] _]. }
    destruct Hfr as [Hm He].
    csimpl in Hnd. apply NoDup_cons in Hnd as [Hni Hnd].
    destruct (IH s1 s' (Datatypes.S i) (acc ++ [r]) _ Hl Hnd) as [Hother Hnew].
    { done. }
    pose proof (commit_entry_clean s s1 i e r Hc Hm He) as Hclean.
    assert (Hni' : Path e ∉ Path <$> filter (fun e => Type_ e = TypeFile) es).
    { intros Hin. apply Hni. apply list_elem_of_fmap in Hin as (e' & -> & Hin).
      apply list_elem_of_filter in Hin as [_ Hin]. apply list_elem_of_fmap. by exists e'. }
    rewrite filter_cons. destruct (decide (Type_ e = TypeFile)) as [Ht|Ht].
    + destruct Hclean as (c & Ha & Hs & _ & Ho). split.
      * intros k Hk. csimpl in Hk. apply not_elem_of_cons in Hk as [Hk1 Hk2].
        rewrite Hother by done. rewrite Ho. by apply lookup_insert_ne.
      * intros [|j] e' Hj Ht'; simpl in Hj.
        -- simplify_eq. exists c. rewrite Nat.add_0_r, Hother by done. rewrite Ho.
           split_and!; try done. apply lookup_insert_eq.
        -- destruct (Hnew j e' Hj Ht') as (c' & H1 & H2 & H3). exists c'.
           by rewrite Nat.add_succ_r.
    + destruct Hclean as [-> _]. split; [done|]. intros [|j] e' Hj Ht'; simpl in Hj; [by simplify_eq|].
      destruct (Hnew j e' Hj Ht') as (c' & H1 & H2 & H3). exists c'. by rewrite Nat.add_succ_r.
Qed.

Lemma remove_loop_ok (keep : gset string) (keys : list string) :
  forall (s s' : S) (del0 del : list string),
  remove_loop s keep keys del0 = (s', Ok del) ->
  del = del0 ++ filter (fun k => k ∉ keep) keys /\
  forall k, objects s' !! k = if decide (k ∈ keys /\ k ∉ keep) then None else objects s !! k.
Proof.
  induction keys as [|k keys IH]; intros s s' del0 del; cbn [remove_loop].
  - intros [= <- <-]. split; [by rewrite app_nil_r|]. intros k.
    rewrite decide_False; [done|]. intros [Hin _]. by apply elem_of_nil in Hin.
  - rewrite filter_cons. destruct (bool_decide (k ∈ keep)) eqn:Hk; bool_to_prop.
    + intros Hl. rewrite decide_False by (intros Hn; by apply Hn).
      destruct (IH s s' del0 del Hl) as [-> Hobj]. split; [done|]. intros k'. rewrite Hobj.
      destruct (decide (k' ∈ keys /\ k' ∉ keep)) as [[H1 H2]|Hn].
      * rewrite decide_True; [done|]. split; [by right|done].
      * rewrite decide_False; [done|]. intros [[->|Hin]%elem_of_cons Hni]; [done|]. by apply Hn.
    + rewrite decide_True by done. destruct (Remove s k) as [s1 [|]] eqn:Hr; [|done].
      intros Hl. destruct (IH s1 s' _ del Hl) as [-> Hobj]. rewrite <- app_assoc. split; [done|].
      intros k'. rewrite Hobj, (Remove_ok s s1 k Hr).
      destruct (decide (k' ∈ keys /\ k' ∉ keep)) as [[H1 H2]|Hn].
      * rewrite decide_True; [done|]. split; [by right|done].
      * destruct (decide (k' = k)) as [->|Hne].
        -- rewrite lookup_delete_eq, decide_True; [done|]. split; [left|done].
        -- rewrite lookup_delete_ne by done. rewrite decide_False; [done|].
           intros [[->|Hin]%elem_of_cons Hni]; [done|]. by apply Hn.
Qed.
End laws.

Section properties.
Context {S : Type} `{ObjectStoreLaws S}.

Lemma Commit_clean (st : State) (d : Disk) (faults : nat -> LocalFaults) (cancelled : nat -> bool)
    (s s' : S) (rep : Report) :
  NoDup (Path <$> Entries (Man st)) ->
  Commit st d faults cancelled s = (s', Ok rep) ->
  Forall (fun f => Match f = true /\ Error f = "") (Files rep) ->
  FR_Path <$> Files rep = Path <$> Entries (Man st) /\
  (forall k, is_Some (objects s' !! k) <->
     exists e, e ∈ Entries (Man st) /\ Type_ e = TypeFile /\ Path e = k) /\
  forall i e, Entries (Man st) !! i = Some e -> Type_ e = TypeFile ->
    exists c, AssembleEntry st d i = Some (Ok c) /\ hex_encode (Sum256_bytes c) = SHA256 e /\
      objects s' !! Path e = Some c.
Proof.
  intros Hnd Hc Hclean. unfold Commit in Hc.
  destruct (EnsureBucket s) as [s0 ok]. destruct ok; simpl in Hc; [|done].
  destruct (commit_loop st d faults cancelled s0 0 (Entries (Man st)) []) as [s1 [files|]] eqn:Hl; [|done].
  destruct (ListKeys s1) as [keys|] eqn:Hk; [|done].
  destruct (remove_loop s1 (kept (Entries (Man st))) keys []) as [s2 [del|]] eqn:Hr; [|done].
  simplify_eq/=.
  pose proof (commit_loop_files st d faults cancelled _ _ _ _ _ _ Hl) as (rs & -> & Hp).
  destruct (commit_loop_clean st d faults cancelled _ _ _ _ _ _ Hl Hnd Hclean) as [_ Hnew].
  destruct (remove_loop_ok _ _ _ _ _ _ Hr) as [_ Hobj].
  assert (Hkept : forall k, k ∈ kept (Entries (Man st)) <->
    exists e, e ∈ Entries (Man st) /\ Type_ e = TypeFile /\ Path e = k).
  { intros k. unfold kept. rewrite elem_of_list_to_set, list_elem_of_fmap.
    setoid_rewrite list_elem_of_filter. naive_solver. }
  assert (Hfile : forall i e, Entries (Man st) !! i = Some e -> Type_ e = TypeFile ->
    exists c, AssembleEntry st d i = Some (Ok c) /\ hex_encode (Sum256_bytes c) = SHA256 e /\
      objects s' !! Path e = Some c).
  { intros i e He Ht. destruct (Hnew i e He Ht) as (c & H1 & H2 & H3). exists c. split_and!; try done.
    rewrite Hobj, decide_False; [done|]. intros [_ Hn]. apply Hn, Hkept. exists e.
    split; [by eapply list_elem_of_lookup_2|done]. }
  split_and!; try done. intros k. split.
  - rewrite Hobj. intros Hin. destruct (decide (k ∈ keys /\ k ∉ kept (Entries (Man st)))) as [_|Hn].
    + by destruct Hin.
    + apply Hkept. destruct (decide (k ∈ kept (Entries (Man st)))) as [|Hni]; [done|].
      exfalso. apply Hn. split; [by apply (List_ok s1 keys Hk)|done].
  - intros (e & Hin & Ht & <-). apply list_elem_of_lookup in Hin as [i Hi].
    destruct (Hfile i e Hi Ht) as (c & _ & _ & ->). by eexists.
Qed.
End properties.

(** ** Properties. *)

(** A clean commit makes the bucket the transfer. For any store that keeps the
    promises of the interface, when a commit of a manifest without duplicate paths
    reports every entry as matched without error, the bucket holds exactly the file
    entries of the manifest, each with the reassembled content whose digest is the
    manifest's, and the report lists the manifest's entries in order. *)
Theorem object_commit_exact {S : Type} `{ObjectStoreLaws S} (st : State) (d : Disk)
    (faults : nat -> LocalFaults) (cancelled : nat -> bool) (s s' : S) (rep : Report) :
  NoDup (Path <$> Entries (Man st)) ->
  Commit st d faults cancelled s = (s', Ok rep) -> reportClean rep = true ->
  FR_Path <$> Files rep = Path <$> Entries (Man st) /\
  (forall k, is_Some (objects s' !! k) <->
     exists e, e ∈ Entries (Man st) /\ Type_ e = TypeFile /\ Path e = k) /\
  forall i e, Entries (Man st) !! i = Some e -> Type_ e = TypeFile ->
    exists c, AssembleEntry st d i = Some (Ok c) /\ hex_encode (Sum256_bytes c) = SHA256 e /\
      objects s' !! Path e = Some c.
Proof.
  intros Hnd Hc Hclean. apply (Commit_clean st d faults cancelled s s' rep Hnd Hc).
  by apply reportClean_spec.
Qed.

(** C3: a transfer reproduces its source. When the staged chunks are the payloads the
    exporter cut from the source contents, a clean commit into an object store leaves
    exactly the source files in the bucket, byte for byte, whatever it held before. *)
Theorem transfer_reproduces_source {S : Type} `{ObjectStoreLaws S} (st : State) (d : Disk)
    (contents : list (list Z)) (faults : nat -> LocalFaults) (cancelled : nat -> bool)
    (s s' : S) (rep : Report) :
  plan_fits (Man st) -> NoDup (Path <$> Entries (Man st)) -> SPlan st = NewPlan (Man st) ->
  contents_match (Man st) contents ->
  (forall n, 0 <= n < NumChunks (SPlan st) ->
     read_file d (ChunkPath n) = Some (chunk_payload (SPlan st) contents n)) ->
  Commit st d faults cancelled s = (s', Ok rep) -> reportClean rep = true ->
  forall k c, objects s' !! k = Some c <->
    exists i e, Entries (Man st) !! i = Some e /\ contents !! i = Some c /\
      Type_ e = TypeFile /\ Path e = k.
Proof.
  intros Hf Hnd Hp Hm Hd Hc Hclean k c. apply reportClean_spec in Hclean.
  destruct (Commit_clean st d faults cancelled s s' rep Hnd Hc Hclean) as (_ & Hkeys & Hfile).
  assert (Hone : forall i e, Entries (Man st) !! i = Some e -> Type_ e = TypeFile ->
    exists c, contents !! i = Some c /\ objects s' !! Path e = Some c).
  { intros i e He Ht. destruct (Hfile i e He Ht) as (c' & Ha & _ & Ho).
    destruct (Forall2_lookup_l _ _ _ _ _ Hm He) as (c'' & Hc' & _). exists c''. split; [done|].
    rewrite (AssembleEntry_content st d contents i c'' Hf Hp Hm Hd Hc') in Ha. by simplify_eq. }
  split.
  - intros Hk. destruct (proj1 (Hkeys k)) as (e & Hin & Ht & <-); [by eexists|].
    apply list_elem_of_lookup in Hin as [i Hi]. destruct (Hone i e Hi Ht) as (c' & Hc' & Ho).
    exists i, e. rewrite Ho in Hk. by simplify_eq.
  - intros (i & e & Hi & Hci & Ht & <-). destruct (Hone i e Hi Ht) as (c' & Hc' & Ho). congruence.
Qed.

(** ** A concrete commit. *)

Definition no_faults (i : nat) : LocalFaults := mkLocalFaults false false false.

Definition never (i : nat) : bool := false.

Definition demo_store : MemStore := mkMemStore {["old" := [1]]}.

Definition demo_commit : MemStore * result CommitError Report :=
  Commit (demo_state [7]) demo_all_staged no_faults never demo_store.

Definition demo_clean_report : Report := mkReport (Files demo_report) ["old"].

Lemma demo_commit_result : demo_commit = (demo_commit.1, Ok demo_clean_report).
Proof. rewrite (surjective_pairing demo_commit) at 1. apply (f_equal (pair _)). vm_compute. reflexivity. Qed.

Lemma demo_paths_NoDup : NoDup (Path <$> Entries demo_manifest).
Proof. by apply (bool_decide_unpack _). Qed.

Lemma object_commit_exact_witness :
  FR_Path <$> Files demo_clean_report = Path <$> Entries demo_manifest /\
  (forall k, is_Some (objects demo_commit.1 !! k) <->
     exists e, e ∈ Entries demo_manifest /\ Type_ e = TypeFile /\ Path e = k) /\
  forall i e, Entries demo_manifest !! i = Some e -> Type_ e = TypeFile ->
    exists c, AssembleEntry (demo_state [7]) demo_all_staged i = Some (Ok c) /\
      hex_encode (Sum256_bytes c) = SHA256 e /\ objects demo_commit.1 !! Path e = Some c.
Proof.
  apply (object_commit_exact (demo_state [7]) demo_all_staged no_faults never demo_store
    demo_commit.1 demo_clean_report); [apply demo_paths_NoDup|apply demo_commit_result|reflexivity].
Defined.

Lemma transfer_reproduces_source_witness :
  objects demo_commit.1 !! "d/b" = Some [103; 104; 105; 106; 107] <->
  exists i e, Entries demo_manifest !! i = Some e /\
    demo_contents !! i = Some [103; 104; 105; 106; 107] /\ Type_ e = TypeFile /\ Path e = "d/b".
Proof.
  apply (transfer_reproduces_source (demo_state [7]) demo_all_staged demo_contents no_faults
    never demo_store demo_commit.1 demo_clean_report);
    [apply demo_fits|apply demo_paths_NoDup|reflexivity|apply demo_match|apply demo_all_staged_ok
    |apply demo_commit_result|reflexivity].
Defined.
