(* ===== verification/Export.v ===== *)
(** * The export client of a transfer
    ([src/datamover/internal/export/client.go]).

    The network and the source are arguments: the reply to each request, and the
    bytes a ranged read returns. The pool of upload workers is a step relation. *)

From Stdlib Require Import Ascii.
From stdpp Require Import base tactics numbers list option strings gmap relations pretty.
From S2P Require Import Prelude GoStd Sha256 Wire Manifest Chunk Staging Ingest CommitS3.

(** ** Settings. *)

Record Client := mkClient {
  ClientManifest : Manifest;
  Concurrency : Z;
  MaxAttempts : Z;
  Backoff : Duration;
}.

Definition defaults (c : Client) : Client :=
  mkClient (ClientManifest c)
    (if Concurrency c <=? 0 then 4 else Concurrency c)
    (if MaxAttempts c <=? 0 then 3 else MaxAttempts c)
    (if Backoff c <=? 0 then Second else Backoff c).

(** ** One chunk. *)

(** How an upload attempt fails: with a status, in the transport, or because the
    context was cancelled. *)
Inductive PutError := StatusError (status : Z) | TransportError | CanceledError.

Definition retryable (e : PutError) : bool :=
  match e with
  | StatusError status => (500 <=? status) || (status =? 422)
  | TransportError => true
  | CanceledError => false
  end.

Inductive UploadError :=
| ErrHashing
| ErrCtx
| ErrUploading (e : PutError)
| ErrAttempts (e : option PutError) (attempts : Z).

(** A ranged read of the source: the bytes it delivers, [None] for an error. *)
Definition Source : Type := string -> Z -> Z -> option (list Z).

Fixpoint read_spans (src : Source) (spans : list Span) : option (list Z) :=
  match spans with
  | [] => Some []
  | sp :: spans' =>
      bs ← src (SpanPath sp) (FileOffset sp) (Length sp);
      if negb (Z.of_nat (length bs) =? Length sp) then None
      else rest ← read_spans src spans'; Some (bs ++ rest)
  end.

Definition hashSpans (src : Source) (spans : list Span) : option string :=
  (fun bs => hex_encode (Sum256_bytes bs)) <$> read_spans src spans.

(** The wait before an attempt: [c.Backoff << uint(attempt-2)]. *)
Definition retry_delay (c : Client) (attempt : nat) : Duration :=
  wrap64 (Z.shiftl (Backoff c) (Z.of_nat attempt - 2)).

(** The retry loop of [uploadChunk] from [attempt] on, with [left] attempts left.
    [put] is the outcome of each attempt, [cancelled] says whether the context ends
    during the wait before it. The result comes with the waits, oldest first. *)
Fixpoint upload_loop (c : Client) (put : nat -> option PutError) (cancelled : nat -> bool)
    (left attempt : nat) (lastErr : option PutError) (waits : list Duration) :
    list Duration * result UploadError unit :=
  match left with
  | O => (waits, Err (ErrAttempts lastErr (MaxAttempts c)))
  | S left' =>
      let waits := if (1 <? attempt)%nat then waits ++ [retry_delay c attempt] else waits in
      if (1 <? attempt)%nat && cancelled attempt then (waits, Err ErrCtx)
      else match put attempt with
           | None => (waits, Ok tt)
           | Some e =>
               if retryable e then upload_loop c put cancelled left' (S attempt) (Some e) waits
               else (waits, Err (ErrUploading e))
           end
  end.

Definition uploadChunk (c : Client) (src : Source) (p : Plan) (n : Z)
    (put : string -> nat -> option PutError) (cancelled : nat -> bool) :
    list Duration * result UploadError unit :=
  match hashSpans src (Spans p n) with
  | None => ([], Err ErrHashing)
  | Some sum => upload_loop c (put sum) cancelled (Z.to_nat (MaxAttempts c)) 1 None []
  end.

(** ** The pool of workers. *)

Definition missing (p : Plan) (done : Bitmap) : list Z :=
  filter (fun n => Get done n = false) (seqZ 0 (NumChunks p)).

(** [queue] is what the sending loop has not handed out, [busy] the chunks being
    uploaded, [workers] the workers that have not returned, [sending] whether the
    loop still runs, [cancelled] the derived context. *)
Record Pool := mkPool {
  queue : list Z;
  busy : list Z;
  finished : list Z;
  failed : list Z;
  workers : nat;
  sending : bool;
  cancelled : bool;
  firstErr : option UploadError;
}.

Definition start_pool (c : Client) (todo : list Z) : Pool :=
  mkPool todo [] [] [] (Nat.min (Z.to_nat (Concurrency c)) (length todo)) true false None.

Inductive pool_step : Pool -> Pool -> Prop :=
| pool_send n q b f x w ca fe :
    (length b < w)%nat ->
    pool_step (mkPool (n :: q) b f x w true ca fe) (mkPool q (n :: b) f x w (negb ca) ca fe)
| pool_stop n q b f x w fe :
    pool_step (mkPool (n :: q) b f x w true true fe) (mkPool (n :: q) b f x w false true fe)
| pool_ok q b1 n b2 f x w se ca fe :
    pool_step (mkPool q (b1 ++ n :: b2) f x w se ca fe) (mkPool q (b1 ++ b2) (n :: f) x w se ca fe)
| pool_err q b1 n b2 f x w se ca fe e :
    pool_step (mkPool q (b1 ++ n :: b2) f x w se ca fe)
      (mkPool q (b1 ++ b2) f (n :: x) (w - 1) se
         (match fe with None => true | Some _ => ca end) (match fe with None => Some e | Some _ => fe end))
| pool_cancel q b f x w se ca fe :
    pool_step (mkPool q b f x w se ca fe) (mkPool q b f x w se true fe).

Definition pool_final (s : Pool) : Prop := busy s = [] /\ (queue s = [] \/ sending s = false).

(** What [uploadChunks] returns once the workers are done. *)
Definition pool_result (s : Pool) : result UploadError unit :=
  match firstErr s with
  | Some e => Err e
  | None => if cancelled s then Err ErrCtx else Ok tt
  end.

(** ** The report. *)

Inductive Problem :=
| MissingFromReport (path : string)
| HashMismatch (path target : string)
| ApplyError (path message : string)
| WrongCount (report entries : nat).

Definition results_by_path (r : Report) : gmap string FileResult :=
  foldl (fun m f => <[FR_Path f := f]> m) ∅ (Files r).

Definition entry_problem (results : gmap string FileResult) (e : Entry) : option Problem :=
  match results !! Path e with
  | None => Some (MissingFromReport (Path e))
  | Some r =>
      if negb (Match r) || negb (FR_SHA256 r =? SHA256 e)%string
      then Some (HashMismatch (Path e) (FR_SHA256 r))
      else if negb (Error r =? "")%string then Some (ApplyError (Path e) (Error r))
      else None
  end.

Definition report_problems (m : Manifest) (r : Report) : list Problem :=
  omap (entry_problem (results_by_path r)) (Entries m) ++
  (if (length (Files r) =? length (Entries m))%nat then []
   else [WrongCount (length (Files r)) (length (Entries m))]).

Definition verifyReport (m : Manifest) (r : Report) : result (list Problem) unit :=
  match report_problems m r with [] => Ok tt | ps => Err ps end.

(** [joinLimited]: indexing an empty list panics. *)
Definition joinLimited (items : list string) (limit : nat) : option string :=
  let items := if (limit <? length items)%nat
               then take limit items ++ ["and " +:+ pretty (length items - limit)%nat +:+ " more"]
               else items in
  match items with [] => None | _ => Some (Join items "; ") end.

(** ** The whole transfer. *)

Inductive RunError :=
| ErrInvalidManifest (e : ManifestError)
| ErrEncoding
| ErrSending
| ErrFetchingState
| ErrDigest (server : string)
| ErrUpload (e : UploadError)
| ErrFinalizing
| ErrVerification (ps : list Problem).

(** [Run], with what each of its requests comes back with: [encoded] is the JSON of
    the manifest, [posted] whether the manifest was accepted, [state_reply] and
    [final_reply] the decoded replies, [uploads] the outcome of the pool for the
    chunks that the reply says are missing. *)
Definition Run (c : Client) (encoded : option (list Z)) (posted : bool)
    (state_reply : option StateResponse) (uploads : list Z -> result UploadError unit)
    (final_reply : option Report) : result RunError unit :=
  match Validate (ClientManifest c) with
  | Err e => Err (ErrInvalidManifest e)
  | Ok _ =>
    match encoded with
    | None => Err ErrEncoding
    | Some raw =>
      if negb posted then Err ErrSending
      else match state_reply with
      | None => Err ErrFetchingState
      | Some sr =>
        if negb (ManifestDigest sr =? Digest raw)%string then Err (ErrDigest (ManifestDigest sr))
        else
          let todo := missing (NewPlan (ClientManifest c)) (CompletedChunks sr) in
          match (if (length todo =? 0)%nat then Ok tt else uploads todo) with
          | Err e => Err (ErrUpload e)
          | Ok _ =>
            match final_reply with
            | None => Err ErrFinalizing
            | Some rep =>
              match verifyReport (ClientManifest c) rep with
              | Err ps => Err (ErrVerification ps)
              | Ok _ => Ok tt
              end
            end
          end
      end
    end
  end.

(** ** Lemmas on the report. *)

(** A map filled from a list keeps the last value of each key. *)
Lemma results_lookup (l : list FileResult) (m0 : gmap string FileResult) (k : string) (r : FileResult) :
  foldl (fun m f => <[FR_Path f := f]> m) m0 l !! k = Some r ->
  (r ∈ l /\ FR_Path r = k) \/ m0 !! k = Some r.
Proof.
  revert m0. induction l as [|f l IH]; intros m0; simpl; [by right|].
  intros H. apply IH in H as [[Hin Hp]|H]; [left; split; [by right|done]|].
  apply lookup_insert_Some in H as [[<- <-]|[_ H]]; [left; split; [left|done]|by right].
Qed.

Lemma results_lookup_NoDup (l : list FileResult) (m0 : gmap string FileResult) (f : FileResult) :
  NoDup (FR_Path <$> l) -> f ∈ l ->
  foldl (fun m f => <[FR_Path f := f]> m) m0 l !! FR_Path f = Some f.
Proof.
  revert m0. induction l as [|g l IH]; intros m0 Hnd Hin; [by apply elem_of_nil in Hin|].
  csimpl in Hnd. apply NoDup_cons in Hnd as [Hni Hnd]. simpl.
  apply elem_of_cons in Hin as [->|Hin]; [|by apply IH].
  assert (Hkeep : forall m1 : gmap string FileResult, m1 !! FR_Path g = Some g ->
    foldl (fun m f => <[FR_Path f := f]> m) m1 l !! FR_Path g = Some g).
  { clear IH Hnd. induction l as [|h l IH]; intros m1 Hm1; simpl; [done|].
    csimpl in Hni. apply not_elem_of_cons in Hni as [Hne Hni]. apply IH; [done|].
    by rewrite lookup_insert_ne. }
  apply Hkeep, lookup_insert_eq.
Qed.

(** Equally long, and every path of the manifest reported: the paths agree. *)
Lemma same_paths (es : list Entry) (fs : list FileResult) :
  NoDup (Path <$> es) -> length fs = length es ->
  (forall e, e ∈ es -> exists f, f ∈ fs /\ FR_Path f = Path e) ->
  FR_Path <$> fs ≡ₚ Path <$> es.
Proof.
  intros Hnd Hlen Hall. symmetry. apply submseteq_length_Permutation.
  - apply NoDup_submseteq; [done|]. intros k Hk. apply list_elem_of_fmap in Hk as (e & -> & He).
    destruct (Hall e He) as (f & Hf & Hp). apply list_elem_of_fmap. by exists f.
  - rewrite !length_fmap. lia.
Qed.

Lemma entry_problem_None (results : gmap string FileResult) (e : Entry) :
  entry_problem results e = None <->
  exists r, results !! Path e = Some r /\ Match r = true /\ FR_SHA256 r = SHA256 e /\ Error r = "".
Proof.
  unfold entry_problem. destruct (results !! Path e) as [r|]; [|split; [done|by intros (? & ? & _)]].
  destruct (Match r) eqn:Hm, (String.eqb_spec (FR_SHA256 r) (SHA256 e)),
    (String.eqb_spec (Error r) ""); simpl; (split; [try done; intros _; by exists r|]);
    intros (r' & [= <-] & ? & ? & ?); congruence.
Qed.

Lemma verifyReport_ok (m : Manifest) (r : Report) :
  NoDup (Path <$> Entries m) ->
  verifyReport m r = Ok tt <->
  FR_Path <$> Files r ≡ₚ Path <$> Entries m /\
  forall f, f ∈ Files r -> exists e, e ∈ Entries m /\ Path e = FR_Path f /\
    Match f = true /\ FR_SHA256 f = SHA256 e /\ Error f = "".
Proof.
  intros Hnd.
  assert (Hok : verifyReport m r = Ok tt <-> report_problems m r = []).
  { unfold verifyReport. by destruct (report_problems m r). }
  rewrite Hok. unfold report_problems. rewrite app_nil.
  assert (Hom : omap (entry_problem (results_by_path r)) (Entries m) = [] <->
    forall e, e ∈ Entries m -> entry_problem (results_by_path r) e = None).
  { split.
    - intros Ho e He. destruct (entry_problem (results_by_path r) e) as [pr|] eqn:Hp; [|done].
      assert (Hin : pr ∈ omap (entry_problem (results_by_path r)) (Entries m))
        by (apply list_elem_of_omap; eauto).
      rewrite Ho in Hin. by apply elem_of_nil in Hin.
    - intros H. destruct (omap _ (Entries m)) as [|pr prs] eqn:Ho; [done|].
      assert (Hin : pr ∈ omap (entry_problem (results_by_path r)) (Entries m)) by (rewrite Ho; left).
      apply list_elem_of_omap in Hin as (e & He & Hp). by rewrite H in Hp. }
  rewrite Hom. split.
  - intros [Hall Hcount]. destruct (Nat.eqb_spec (length (Files r)) (length (Entries m))) as [Hlen|]; [|done].
    assert (Hperm : FR_Path <$> Files r ≡ₚ Path <$> Entries m).
    { apply same_paths; [done|done|]. intros e He. apply Hall, entry_problem_None in He as (f & Hf & _).
      apply results_lookup in Hf as [[Hin Hp]|Hf]; [by exists f|by rewrite lookup_empty in Hf]. }
    split; [done|]. intros f Hf.
    assert (Hin : FR_Path f ∈ Path <$> Entries m).
    { rewrite <- Hperm. apply list_elem_of_fmap. by exists f. }
    apply list_elem_of_fmap in Hin as (e & Hp & He). exists e. split; [done|]. split; [done|].
    apply Hall, entry_problem_None in He as (f' & Hf' & H1 & H2 & H3).
    unfold results_by_path in Hf'. rewrite <- Hp, results_lookup_NoDup in Hf' by (rewrite ?Hperm; done).
    by simplify_eq.
  - intros [Hperm Hall]. split.
    + intros e He. apply entry_problem_None.
      assert (Hin : Path e ∈ FR_Path <$> Files r).
      { rewrite Hperm. apply list_elem_of_fmap. by exists e. }
      apply list_elem_of_fmap in Hin as (f & Hp & Hf). destruct (Hall f Hf) as (e' & He' & Hp' & H1 & H2 & H3).
      assert (e' = e) as ->.
      { apply list_elem_of_lookup in He as [i Hi]. apply list_elem_of_lookup in He' as [j Hj].
        assert (i = j); [|congruence]. eapply NoDup_lookup; [exact Hnd| |].
        - by rewrite list_lookup_fmap, Hi.
        - rewrite list_lookup_fmap, Hj. simpl. congruence. }
      exists f. split; [|done]. unfold results_by_path. rewrite Hp. apply results_lookup_NoDup; [|done].
      by rewrite Hperm.
    + pose proof (Permutation_length Hperm) as Hl. rewrite !length_fmap in Hl.
      by rewrite Hl, Nat.eqb_refl.
Qed.

(** ** Lemmas on the retry loop. *)

(** The attempts from [a] up to a first success at [k]. *)
Definition succeeds_at (put : nat -> option PutError) (cancelled : nat -> bool) (a k : nat) : Prop :=
  (a <= k)%nat /\ put k = None /\
  (forall j, (a <= j < k)%nat -> exists e, put j = Some e /\ retryable e = true) /\
  (forall j, (a <= j <= k)%nat -> (1 < j)%nat -> cancelled j = false).

Lemma upload_loop_ok (c : Client) (put : nat -> option PutError) (cancelled : nat -> bool) (left : nat) :
  forall (a : nat) (lastErr : option PutError) (waits : list Duration),
  (upload_loop c put cancelled left a lastErr waits).2 = Ok tt <->
  exists k, succeeds_at put cancelled a k /\ (k < a + left)%nat.
Proof.
  induction left as [|left IH]; intros a lastErr waits; cbn [upload_loop].
  - split; [done|]. intros (k & (Hk & _) & Hlt). lia.
  - destruct ((1 <? a)%nat && cancelled a) eqn:Hc.
    { split; [done|]. intros (k & (Hak & _ & _ & Hnc) & _). apply andb_true_iff in Hc as [Ha Hc].
      apply Nat.ltb_lt in Ha. rewrite Hnc in Hc by lia. done. }
    assert (Hca : (1 < a)%nat -> cancelled a = false).
    { intros Ha. apply Nat.ltb_lt in Ha. by rewrite Ha in Hc. }
    destruct (put a) as [e|] eqn:Hp.
    + destruct (retryable e) eqn:Hr.
      * rewrite IH. split.
        -- intros (k & (H1 & H2 & H3 & H4) & H5). exists k. split; [|lia]. split_and!; [lia|done| |].
           ++ intros j Hj. destruct (decide (j = a)) as [->|]; [by exists e|]. apply H3. lia.
           ++ intros j Hj Hj1. destruct (decide (j = a)) as [->|]; [auto|]. apply H4; lia.
        -- intros (k & (H1 & H2 & H3 & H4) & H5).
           assert (k <> a) by (intros ->; congruence). exists k. split; [|lia].
           split_and!; [lia|done|intros j Hj; apply H3; lia|intros j Hj; apply H4; lia].
      * split; [done|]. intros (k & (H1 & H2 & H3 & H4) & H5).
        destruct (decide (k = a)) as [->|]; [congruence|].
        destruct (H3 a ltac:(lia)) as (e' & He' & Hr'). congruence.
    + split; [|done]. intros _. exists a. split; [|lia]. split_and!; [lia|done|lia|].
      intros j Hj Hj1. replace j with a by lia. apply Hca. lia.
Qed.

Lemma upload_loop_waits (c : Client) (put : nat -> option PutError) (cancelled : nat -> bool) (left : nat) :
  forall (a : nat) (lastErr : option PutError) (waits : list Duration),
  (1 <= a)%nat ->
  exists k, (k <= left)%nat /\ (a = 1%nat -> (1 <= left)%nat -> (k < left)%nat) /\
    (upload_loop c put cancelled left a lastErr waits).1 =
    waits ++ (retry_delay c <$> seq (if (1 <? a)%nat then a else 2%nat) k).
Proof.
  induction left as [|left IH]; intros a lastErr waits Ha; cbn [upload_loop].
  - exists 0%nat. split_and!; [lia|lia|]. by rewrite app_nil_r.
  - set (waits' := if (1 <? a)%nat then _ else _).
    assert (Hstop : exists k, (k <= S left)%nat /\ (a = 1%nat -> (1 <= S left)%nat -> (k < S left)%nat) /\
      waits' = waits ++ (retry_delay c <$> seq (if (1 <? a)%nat then a else 2%nat) k)).
    { unfold waits'. destruct (Nat.ltb_spec 1 a); [exists 1%nat|exists 0%nat]; (split_and!; [lia|lia|]).
      - done.
      - by rewrite app_nil_r. }
    destruct (_ && _); [done|]. destruct (put a) as [e|]; [|done]. destruct (retryable e); [|done].
    destruct (IH (S a) (Some e) waits' ltac:(lia)) as (k & Hk & _ & ->).
    destruct (Nat.ltb_spec 1 (S a)); [|lia]. unfold waits'. destruct (Nat.ltb_spec 1 a).
    + exists (S k). split_and!; [lia|lia|]. rewrite <- app_assoc. done.
    + replace a with 1%nat by lia. exists k. split_and!; [lia|lia|done].
Qed.

(** ** Lemmas on the pool. *)

Section pool.
Context (c : Client) (todo : list Z) (Hconc : 0 < Concurrency c).

Record pool_inv (s : Pool) : Prop := mkPoolInv {
  pi_chunks : queue s ++ busy s ++ finished s ++ failed s ≡ₚ todo;
  pi_failed : failed s <> [] -> firstErr s <> None;
  pi_err : firstErr s <> None -> cancelled s = true;
  pi_sending : sending s = false -> cancelled s = true;
  pi_workers : cancelled s = false -> queue s <> [] -> (0 < workers s)%nat;
}.

Lemma pool_inv_start : pool_inv (start_pool c todo).
Proof.
  constructor; simpl; try done.
  - by rewrite app_nil_r.
  - intros _ Hq. destruct todo; [done|]. simpl. lia.
Qed.

Lemma pool_inv_step (s s' : Pool) : pool_inv s -> pool_step s s' -> pool_inv s'.
Proof.
  intros [H1 H2 H3 H4 H5] Hs. destruct Hs; simpl in *; constructor; simpl; try done.
  - rewrite <- H1. solve_Permutation.
  - intros Hca. destruct ca; done.
  - intros Hca Hq. apply H5; done.
  - rewrite <- H1. solve_Permutation.
  - rewrite <- H1. solve_Permutation.
  - intros _. by destruct fe.
  - intros _. destruct fe; [by apply H3|done].
  - intros Hse. destruct fe; auto.
  - intros Hca Hq. destruct fe; [|done]. by rewrite H3 in Hca.
Qed.

Lemma pool_reachable_inv (s : Pool) : rtc pool_step (start_pool c todo) s -> pool_inv s.
Proof.
  apply (rtc_ind_r pool_inv); [apply pool_inv_start|]. intros s1 s2 _ Hs IH.
  by apply (pool_inv_step s1).
Qed.

(** What is left to do in a pool. *)
Definition pool_measure (s : Pool) : nat :=
  2 * length (queue s) + length (busy s) + (if sending s then 1 else 0).

Lemma pool_step_measure (s s' : Pool) : pool_step s s' -> (pool_measure s' <= pool_measure s)%nat.
Proof.
  intros Hs. destruct Hs; unfold pool_measure; simpl; rewrite ?length_app; simpl; try lia.
  destruct ca; simpl; lia.
Qed.

Lemma pool_advances (s : Pool) :
  pool_inv s -> ~ pool_final s -> exists s', pool_step s s' /\ (pool_measure s' < pool_measure s)%nat.
Proof.
  intros [H1 H2 H3 H4 H5] Hf. destruct s as [q b f x w se ca fe]. unfold pool_final in Hf. simpl in *.
  destruct b as [|n b].
  - destruct q as [|n q]; [tauto|]. destruct se; [|tauto]. destruct ca.
    + eexists. split; [apply pool_stop|]. unfold pool_measure. simpl. lia.
    + eexists. split; [apply pool_send; simpl; auto|]. unfold pool_measure. simpl. lia.
  - eexists. split; [apply (pool_ok q [] n b)|]. unfold pool_measure. simpl. lia.
Qed.
Lemma pool_success (s : Pool) :
  rtc pool_step (start_pool c todo) s -> pool_final s -> pool_result s = Ok tt ->
  finished s ≡ₚ todo.
Proof.
  intros Hr [Hb Hq] Hok. pose proof (pool_reachable_inv s Hr) as [H1 H2 H3 H4 H5].
  destruct s as [q b f x w se ca fe]. unfold pool_result in Hok. simpl in *.
  destruct fe; [done|]. destruct ca; [done|].
  assert (Hqn : q = []) by (destruct Hq as [?|Hse]; [done|by apply H4 in Hse]).
  assert (Hx : x = []) by (destruct x; [done|exfalso; by apply H2]).
  subst. by rewrite app_nil_r in H1.
Qed.
End pool.

(** ** Lemmas on an honest source. *)

(** The source delivers the contents of the manifest's entries. *)
Definition honest_source (m : Manifest) (contents : list (list Z)) (src : Source) : Prop :=
  forall i e bs off len, Entries m !! i = Some e -> contents !! i = Some bs ->
  0 <= off -> 0 <= len -> off + len <= Size e ->
  src (Path e) off len = Some (take (Z.to_nat len) (drop (Z.to_nat off) bs)).

Lemma read_spans_honest (m : Manifest) (contents : list (list Z)) (src : Source) (spans : list Span) :
  contents_match m contents -> honest_source m contents src ->
  (forall sp, sp ∈ spans -> exists f, Entries m !! FileIndex sp = Some f /\ SpanPath sp = Path f /\
     0 <= FileOffset sp /\ 0 < Length sp /\ FileOffset sp + Length sp <= Size f) ->
  read_spans src spans = Some (concat (read_span contents <$> spans)).
Proof.
  intros Hm Hsrc. induction spans as [|sp spans IH]; intros Hall; [done|]. cbn [read_spans].
  destruct (Hall sp) as (f & Hf & Hp & H1 & H2 & H3); [left|].
  destruct (Forall2_lookup_l _ _ _ _ _ Hm Hf) as (bs & Hbs & Hsz).
  rewrite Hp, (Hsrc (FileIndex sp) f bs) by (done || lia). cbn [mbind option_bind].
  rewrite length_take, length_drop.
  destruct (Z.eqb_spec (Z.of_nat (Nat.min (Z.to_nat (Length sp)) (length bs - Z.to_nat (FileOffset sp))))
    (Length sp)); [|lia]. cbn [negb].
  rewrite IH by (intros sp' Hin; apply Hall; by right). rewrite fmap_cons.
  cbn [mbind option_bind concat]. do 2 f_equal. unfold read_span. by rewrite Hbs.
Qed.

(** ** Properties. *)

(** A verified report accounts for the whole manifest. For a valid manifest the
    client accepts a report exactly when its paths are those of the manifest, each
    once, and every entry of it matched, with the manifest's digest and no error. *)
Theorem verified_report_exact (m : Manifest) (r : Report) :
  Validate m = Ok tt ->
  verifyReport m r = Ok tt <->
  FR_Path <$> Files r ≡ₚ Path <$> Entries m /\
  forall f, f ∈ Files r -> exists e, e ∈ Entries m /\ Path e = FR_Path f /\
    Match f = true /\ FR_SHA256 f = SHA256 e /\ Error f = "".
Proof. intros Hv. apply manifest_ok_Validate in Hv as (_ & _ & Hnd). by apply verifyReport_ok. Qed.

(** The retry loop is bounded and exact. The upload of a chunk succeeds exactly
    when one of its first [MaxAttempts] attempts does, every earlier one having
    failed in a way worth retrying and no wait having been cut short; it waits fewer
    times than it has attempts, and each wait is the backoff doubled from the one
    before. *)
Theorem chunk_upload_attempts (c0 : Client) (src : Source) (p : Plan) (n : Z) (sum : string)
    (put : string -> nat -> option PutError) (cancelled : nat -> bool) :
  let c := defaults c0 in
  hashSpans src (Spans p n) = Some sum ->
  ((uploadChunk c src p n put cancelled).2 = Ok tt <->
   exists k, succeeds_at (put sum) cancelled 1 k /\ Z.of_nat k <= MaxAttempts c) /\
  exists k, Z.of_nat k < MaxAttempts c /\
    (uploadChunk c src p n put cancelled).1 =
    (fun i => wrap64 (Backoff c * 2 ^ Z.of_nat i)) <$> seq 0 k.
Proof.
  intros c Hsum. unfold uploadChunk. rewrite Hsum.
  assert (Hmax : 0 < MaxAttempts c).
  { unfold c, defaults. simpl. destruct (Z.leb_spec (MaxAttempts c0) 0); lia. }
  split.
  - rewrite upload_loop_ok. split; intros (k & Hk & Hlt); exists k; (split; [done|lia]).
  - destruct (upload_loop_waits c (put sum) cancelled (Z.to_nat (MaxAttempts c)) 1 None [] ltac:(lia))
      as (k & Hk & Hlt & ->). exists k. split; [lia|]. simpl.
    change 2%nat with (2 + 0)%nat at 1. rewrite <- (fmap_add_seq 2 0 k), <- list_fmap_compose. apply list_fmap_ext. intros i j _. simpl.
    unfold retry_delay. f_equal. rewrite Z.shiftl_mul_pow2 by lia. f_equal. f_equal. lia.
Qed.

(** The pool uploads everything or reports an error. However its workers
    interleave, when [uploadChunks] returns success every missing chunk was uploaded
    exactly once; as long as it has not returned some step brings it closer to the
    end, and no step takes it further away. *)
Theorem upload_pool_complete (c : Client) (todo : list Z) (s : Pool) :
  0 < Concurrency c -> rtc pool_step (start_pool c todo) s ->
  (pool_final s -> pool_result s = Ok tt -> finished s ≡ₚ todo) /\
  (~ pool_final s -> exists s', pool_step s s' /\ (pool_measure s' < pool_measure s)%nat) /\
  (forall s', pool_step s s' -> (pool_measure s' <= pool_measure s)%nat).
Proof.
  intros Hc Hr. pose proof (pool_reachable_inv c todo Hc s Hr) as Hi. split_and!.
  - by apply (pool_success c todo).
  - by apply (pool_advances todo).
  - apply pool_step_measure.
Qed.

(** What the exporter sends is what the importer accepts. For a manifest whose
    sizes fit and a source that delivers its contents, the digest the exporter
    announces for a chunk and the bytes it sends pass every check of the import
    server: the staged payload is the chunk's part of the stream and is accepted. *)
Theorem honest_chunk_accepted (m : Manifest) (contents : list (list Z)) (src : Source) (n : Z) :
  plan_fits m -> contents_match m contents -> honest_source m contents src ->
  0 <= n < NumChunks (NewPlan m) ->
  exists sum, hashSpans src (Spans (NewPlan m) n) = Some sum /\
    read_spans src (Spans (NewPlan m) n) = Some (chunk_payload (NewPlan m) contents n) /\
    receive_actions (NewPlan m) n sum (chunk_payload (NewPlan m) contents n) false =
    ([OpenTrunc (ChunkPath n); Write (ChunkPath n) (chunk_payload (NewPlan m) contents n);
      Sync (ChunkPath n); Close (ChunkPath n); SyncChunksDir], None).
Proof.
  intros Hf Hm Hsrc Hn.
  assert (Hrd : read_spans src (Spans (NewPlan m) n) = Some (chunk_payload (NewPlan m) contents n)).
  { apply (read_spans_honest m); [done|done|]. intros sp Hin. by apply (span_within m n). }
  exists (hex_encode (Sum256_bytes (chunk_payload (NewPlan m) contents n))).
  split; [unfold hashSpans; by rewrite Hrd|]. split; [done|].
  pose proof (chunk_payload_length m Hf contents Hm n Hn) as Hl.
  unfold receive_actions. cbv zeta. rewrite LimitReader_take, take_ge by lia.
  rewrite Hl, Z.ltb_irrefl, String.eqb_refl. simpl. done.
Qed.

(** C5: a successful run is an exact copy. When [Run] returns success for a transfer
    whose report comes from committing the same manifest into an object store, and
    whose chunks went through the worker pool, the manifest was valid, every chunk
    the server missed was uploaded, and the bucket holds exactly the manifest's files
    with the manifest's digests. *)
Theorem run_success_end_to_end {S : Type} `{ObjectStoreLaws S} (c : Client) (encoded : option (list Z))
    (posted : bool) (sr : StateResponse) (up : Pool) (rep : Report)
    (st : State) (d : Disk) (faults : nat -> LocalFaults) (cancelled : nat -> bool) (s s' : S) :
  let todo := missing (NewPlan (ClientManifest c)) (CompletedChunks sr) in
  0 < Concurrency c -> rtc pool_step (start_pool c todo) up -> pool_final up ->
  Man st = ClientManifest c -> Commit st d faults cancelled s = (s', Ok rep) ->
  Run c encoded posted (Some sr) (fun _ => pool_result up) (Some rep) = Ok tt ->
  Validate (ClientManifest c) = Ok tt /\ (todo <> [] -> finished up ≡ₚ todo) /\
  (forall k, is_Some (objects s' !! k) <->
     exists e, e ∈ Entries (ClientManifest c) /\ Type_ e = TypeFile /\ Path e = k) /\
  forall e, e ∈ Entries (ClientManifest c) -> Type_ e = TypeFile ->
    exists bs, objects s' !! Path e = Some bs /\ hex_encode (Sum256_bytes bs) = SHA256 e.
Proof.
  intros todo Hconc Hr Hfin Hman Hcommit Hrun. unfold Run in Hrun.
  destruct (Validate (ClientManifest c)) as [[]|] eqn:Hv; [|done].
  destruct encoded as [raw|]; [|done]. destruct posted; [|done]. simpl in Hrun.
  destruct (_ =? _)%string; [|done]. simpl in Hrun. fold todo in Hrun.
  pose proof Hv as Hok. apply manifest_ok_Validate in Hok as (_ & _ & Hnd).
  destruct (if (length todo =? 0)%nat then Ok tt else _) as [[]|] eqn:Hup; [|done].
  destruct (verifyReport (ClientManifest c) rep) as [[]|] eqn:Hver; [|done].
  apply (verifyReport_ok _ _ Hnd) in Hver as [_ Hfiles].
  assert (Hclean : Forall (fun f => Match f = true /\ Error f = "") (Files rep)).
  { apply Forall_forall. intros f Hin. destruct (Hfiles f Hin) as (e & _ & _ & ? & _ & ?). done. }
  rewrite <- Hman in Hnd |- *.
  destruct (Commit_clean st d faults cancelled s s' rep Hnd Hcommit Hclean) as (_ & Hkeys & Hnew).
  split; [done|]. split.
  - intros Hne.
    destruct (Nat.eqb_spec (length todo) 0) as [Hz|_]; [by apply nil_length_inv in Hz|].
    by apply (pool_success c todo Hconc).
  - split; [done|]. intros e Hin Ht. apply list_elem_of_lookup in Hin as [i Hi].
    destruct (Hnew i e Hi Ht) as (bs & _ & Hs & Ho). by exists bs.
Qed.

(** ** Concrete runs. *)

Definition demo_client : Client := mkClient demo_manifest 0 0 0.

Definition demo_source : Source := fun path off len =>
  let slice bs := Some (take (Z.to_nat len) (drop (Z.to_nat off) bs)) in
  if (path =? "a")%string then slice [97; 98; 99; 100; 101; 102]
  else if (path =? "d")%string then slice []
  else if (path =? "d/b")%string then slice [103; 104; 105; 106; 107]
  else None.

Lemma demo_source_honest : honest_source demo_manifest demo_contents demo_source.
Proof. intros [|[|[|i]]] e bs off len He Hbs _ _ _; simplify_eq/=; done. Qed.

Lemma demo_valid : Validate demo_manifest = Ok tt.
Proof. vm_compute. reflexivity. Qed.

Lemma verified_report_exact_witness :
  verifyReport demo_manifest demo_report = Ok tt <->
  FR_Path <$> Files demo_report ≡ₚ Path <$> Entries demo_manifest /\
  forall f, f ∈ Files demo_report -> exists e, e ∈ Entries demo_manifest /\ Path e = FR_Path f /\
    Match f = true /\ FR_SHA256 f = SHA256 e /\ Error f = "".
Proof. apply (verified_report_exact demo_manifest demo_report demo_valid). Defined.

(** A first attempt that the target answers with 503, then one that succeeds. *)
Definition demo_put (sum : string) (attempt : nat) : option PutError :=
  if (attempt =? 1)%nat then Some (StatusError 503) else None.

Lemma chunk_upload_attempts_witness :
  let c := defaults demo_client in
  ((uploadChunk c demo_source demo_plan 0 demo_put never).2 = Ok tt <->
   exists k, succeeds_at (demo_put demo_sum) never 1 k /\ Z.of_nat k <= MaxAttempts c) /\
  exists k, Z.of_nat k < MaxAttempts c /\
    (uploadChunk c demo_source demo_plan 0 demo_put never).1 =
    (fun i => wrap64 (Backoff c * 2 ^ Z.of_nat i)) <$> seq 0 k.
Proof.
  apply (chunk_upload_attempts demo_client demo_source demo_plan 0 demo_sum demo_put never).
  vm_compute. reflexivity.
Defined.

(** One chunk handed to a worker and uploaded. *)
Definition demo_pool_client : Client := defaults demo_client.

Definition demo_pool_end : Pool := mkPool [] [] [2] [] 1 true false None.

Lemma demo_pool_run : rtc pool_step (start_pool demo_pool_client [2]) demo_pool_end.
Proof.
  eapply rtc_l; [apply pool_send; simpl; lia|].
  eapply rtc_l; [apply (pool_ok [] [] 2 [])|]. apply rtc_refl.
Qed.

Lemma upload_pool_complete_witness :
  (pool_final demo_pool_end -> pool_result demo_pool_end = Ok tt -> finished demo_pool_end ≡ₚ [2]) /\
  (~ pool_final demo_pool_end ->
     exists s', pool_step demo_pool_end s' /\ (pool_measure s' < pool_measure demo_pool_end)%nat) /\
  (forall s', pool_step demo_pool_end s' -> (pool_measure s' <= pool_measure demo_pool_end)%nat).
Proof. apply (upload_pool_complete demo_pool_client [2] demo_pool_end eq_refl demo_pool_run). Defined.

Lemma honest_chunk_accepted_witness :
  exists sum, hashSpans demo_source (Spans (NewPlan demo_manifest) 1) = Some sum /\
    read_spans demo_source (Spans (NewPlan demo_manifest) 1) =
      Some (chunk_payload (NewPlan demo_manifest) demo_contents 1) /\
    receive_actions (NewPlan demo_manifest) 1 sum
      (chunk_payload (NewPlan demo_manifest) demo_contents 1) false =
    ([OpenTrunc (ChunkPath 1); Write (ChunkPath 1) (chunk_payload (NewPlan demo_manifest) demo_contents 1);
      Sync (ChunkPath 1); Close (ChunkPath 1); SyncChunksDir], None).
Proof.
  apply (honest_chunk_accepted demo_manifest demo_contents demo_source 1 demo_fits demo_match
    demo_source_honest). vm_compute. split; [discriminate|reflexivity].
Defined.

Definition demo_reply : StateResponse := mkStateResponse (Digest demo_raw) 3 [3].

Lemma run_success_end_to_end_witness :
  let todo := missing (NewPlan demo_manifest) [3] in
  Validate demo_manifest = Ok tt /\ (todo <> [] -> finished demo_pool_end ≡ₚ todo) /\
  (forall k, is_Some (objects demo_commit.1 !! k) <->
     exists e, e ∈ Entries demo_manifest /\ Type_ e = TypeFile /\ Path e = k) /\
  forall e, e ∈ Entries demo_manifest -> Type_ e = TypeFile ->
    exists bs, objects demo_commit.1 !! Path e = Some bs /\ hex_encode (Sum256_bytes bs) = SHA256 e.
Proof.
  apply (run_success_end_to_end demo_pool_client (Some demo_raw) true demo_reply demo_pool_end
    demo_clean_report (demo_state [7]) demo_all_staged no_faults never demo_store demo_commit.1).
  - reflexivity.
  - apply demo_pool_run.
  - split; [reflexivity|by left].
  - reflexivity.
  - apply demo_commit_result.
  - vm_compute. reflexivity.
Defined.
