(* ===== verification/Calendar.v ===== *)
(** * The proleptic Gregorian calendar of package [time].

    [time.Date], [Year], [Month], [Day], [Weekday] and [AddDate] in UTC, and the
    layout ["2006-01-02"] of [Format] and [Parse], on the nanosecond line of
    [GoStd.Time]. Day 0 is Monday, January 1 of year 1. *)

From Stdlib Require Import Ascii.
From stdpp Require Import base tactics numbers list option strings.
From S2P Require Import Prelude GoStd.

(** ** Days. *)

Definition Day : Duration := 24 * Hour.

Definition leap (y : Z) : bool :=
  (y mod 4 =? 0) && (negb (y mod 100 =? 0) || (y mod 400 =? 0)).

(** Days before January 1 of year [y]. *)
Definition year_days (y : Z) : Z :=
  365 * (y - 1) + (y - 1) / 4 - (y - 1) / 100 + (y - 1) / 400.

(** Days of the year before the first of month [m]; month 13 gives the length
    of the year. *)
Definition month_start (leap_year : bool) (m : Z) : Z :=
  nth (Z.to_nat (m - 1)) [0; 31; 59; 90; 120; 151; 181; 212; 243; 273; 304; 334; 365] 0 +
  (if leap_year && (2 <? m) then 1 else 0).

Definition month_days (y m : Z) : Z := month_start (leap y) m.

(** The number of the [d]-th day of month [m] of year [y]. *)
Definition day_number (y m d : Z) : Z := year_days y + month_days y m + (d - 1).

Definition year_of (n : Z) : Z :=
  let y := n * 400 / 146097 + 1 in if year_days (y + 1) <=? n then y + 1 else y.

(** The last month that starts on or before day [yd] of the year. *)
Fixpoint month_loop (leap_year : bool) (yd : Z) (months : list Z) : Z :=
  match months with
  | [] => 1
  | m :: rest => if month_start leap_year m <=? yd then m else month_loop leap_year yd rest
  end.

Definition month_of (y yd : Z) : Z := month_loop (leap y) yd [12; 11; 10; 9; 8; 7; 6; 5; 4; 3; 2].

(** ** The operations on times. *)

Definition days_since (t : Time) : Z := t / Day.

Definition Year (t : Time) : Z := year_of (days_since t).

Definition Month (t : Time) : Z :=
  let y := Year t in month_of y (days_since t - year_days y).

Definition DayOf (t : Time) : Z :=
  let y := Year t in days_since t - year_days y - month_days y (Month t) + 1.

(** [t.Weekday()]: Sunday is 0. *)
Definition Weekday (t : Time) : Z := (days_since t + 1) mod 7.

(** [time.Date(y, m, d, 0, 0, 0, 0, time.UTC)]: a month outside 1 to 12 carries
    into the year, a day outside the month into the days. *)
Definition Date (y m d : Z) : Time :=
  Day * day_number (y + (m - 1) / 12) ((m - 1) mod 12 + 1) d.

(** [t.AddDate(years, months, days)]. *)
Definition AddDate (t : Time) (years months days : Z) : Time :=
  Date (Year t + years) (Month t + months) (DayOf t + days) + t mod Day.

(** ** The layout ["2006-01-02"]. *)

Definition digit (n : Z) : string := String (Ascii.ascii_of_N (Z.to_N (48 + n))) EmptyString.

(** The decimal digits of [n], 20 being enough for 64 bits. *)
Fixpoint decimal (fuel : nat) (n : Z) : string :=
  match fuel with
  | O => EmptyString
  | S fuel' => String.append (if n <? 10 then EmptyString else decimal fuel' (n / 10)) (digit (n mod 10))
  end.

Fixpoint zeros (n : nat) : string :=
  match n with O => EmptyString | S n' => String "0"%char (zeros n') end.

(** [appendInt(x, width)] of package [time]. *)
Definition appendInt (x : Z) (width : nat) : string :=
  let s := decimal 20 (Z.abs x) in
  String.append (if x <? 0 then "-"%string else EmptyString)
    (String.append (zeros (width - String.length s)) s).

Definition FormatDate (t : Time) : string :=
  String.append (appendInt (Year t) 4)
    (String "-"%char (String.append (appendInt (Month t) 2) (String "-"%char (appendInt (DayOf t) 2)))).

(** [time.Parse("2006-01-02", s)]: four, two and two digits, a month and a day
    that exist. *)
Definition ParseDate (s : string) : option Time :=
  match s with
  | String y1 (String y2 (String y3 (String y4 (String "-" (String m1 (String m2
      (String "-" (String d1 (String d2 "")))))))))%char =>
      y ← digits_value 0 (String y1 (String y2 (String y3 (String y4 EmptyString))));
      m ← digits_value 0 (String m1 (String m2 EmptyString));
      d ← digits_value 0 (String d1 (String d2 EmptyString));
      if (1 <=? m) && (m <=? 12) && (1 <=? d) && (d <=? month_days y (m + 1) - month_days y m)
      then Some (Date y m d) else None
  | _ => None
  end.

(** ** Years and months of a day number. *)

Lemma leap_year_days (y : Z) : year_days (y + 1) = year_days y + (if leap y then 366 else 365).
Proof.
  unfold year_days, leap. replace (y + 1 - 1) with y by lia.
  destruct (Z.eqb_spec (y mod 4) 0), (Z.eqb_spec (y mod 100) 0), (Z.eqb_spec (y mod 400) 0); simpl;
    Z.to_euclidean_division_equations; lia.
Qed.

Lemma year_days_mono (y y' : Z) : y <= y' -> year_days y <= year_days y'.
Proof. intros H. unfold year_days. Z.to_euclidean_division_equations; lia. Qed.

(** [year_days] stays within two days of the mean year of 146097 / 400 days. *)
Lemma year_days_linear (y : Z) :
  146097 * (y - 1) - 800 < 400 * year_days y < 146097 * (y - 1) + 400.
Proof. unfold year_days. Z.to_euclidean_division_equations; lia. Qed.

Lemma year_of_spec (n : Z) : year_days (year_of n) <= n < year_days (year_of n + 1).
Proof.
  unfold year_of. set (y := n * 400 / 146097 + 1).
  assert (Hy : 146097 * (y - 1) <= n * 400 < 146097 * y).
  { subst y. pose proof (Z.div_mod (n * 400) 146097). pose proof (Z.mod_pos_bound (n * 400) 146097). lia. }
  pose proof (year_days_linear y). pose proof (year_days_linear (y + 1 + 1)).
  destruct (Z.leb_spec (year_days (y + 1)) n); lia.
Qed.

Lemma year_of_unique (n y : Z) : year_days y <= n < year_days (y + 1) -> year_of n = y.
Proof.
  intros H. pose proof (year_of_spec n) as Hs.
  destruct (Z.lt_trichotomy (year_of n) y) as [Hlt|[Heq|Hgt]]; [|done|].
  - pose proof (year_days_mono (year_of n + 1) y ltac:(lia)). lia.
  - pose proof (year_days_mono (y + 1) (year_of n) ltac:(lia)). lia.
Qed.

(** A test on a bounded integer, decided on every value. *)
Lemma Z_all_below (n : Z) (P : Z -> bool) (x : Z) :
  forallb (fun k => P (Z.of_nat k)) (seq 0 (Z.to_nat n)) = true -> 0 <= x < n -> P x = true.
Proof.
  rewrite forallb_forall. intros H Hx. specialize (H (Z.to_nat x)).
  rewrite Z2Nat.id in H by lia. apply H, in_seq. lia.
Qed.

Lemma month_of_spec (y yd : Z) :
  0 <= yd < (if leap y then 366 else 365) ->
  1 <= month_of y yd <= 12 /\ month_days y (month_of y yd) <= yd < month_days y (month_of y yd + 1).
Proof.
  unfold month_of, month_days. intros H.
  assert (Hb : (let m := month_loop (leap y) yd [12; 11; 10; 9; 8; 7; 6; 5; 4; 3; 2] in
    (1 <=? m) && (m <=? 12) && (month_start (leap y) m <=? yd) &&
    (yd <? month_start (leap y) (m + 1))) = true).
  { destruct (leap y);
      [apply (Z_all_below 366 (fun d => let m := month_loop true d [12; 11; 10; 9; 8; 7; 6; 5; 4; 3; 2] in
         (1 <=? m) && (m <=? 12) && (month_start true m <=? d) && (d <? month_start true (m + 1))))
      |apply (Z_all_below 365 (fun d => let m := month_loop false d [12; 11; 10; 9; 8; 7; 6; 5; 4; 3; 2] in
         (1 <=? m) && (m <=? 12) && (month_start false m <=? d) && (d <? month_start false (m + 1))))];
      (vm_compute; reflexivity) || lia. }
  cbn zeta in Hb. bool_to_prop. lia.
Qed.

(** Month starts grow, by 28 to 31 days. *)
Lemma month_start_step (b : bool) (m : Z) :
  1 <= m <= 12 -> month_start b m + 28 <= month_start b (m + 1) <= month_start b m + 31.
Proof.
  intros H. assert (Hb : ((month_start b (m - 1 + 1) + 28 <=? month_start b (m - 1 + 1 + 1)) &&
    (month_start b (m - 1 + 1 + 1) <=? month_start b (m - 1 + 1) + 31)) = true).
  { apply (Z_all_below 12 (fun k => (month_start b (k + 1) + 28 <=? month_start b (k + 1 + 1)) &&
      (month_start b (k + 1 + 1) <=? month_start b (k + 1) + 31))); [|lia].
    destruct b; vm_compute; reflexivity. }
  replace (m - 1 + 1) with m in Hb by lia. bool_to_prop. lia.
Qed.

Lemma month_start_mono (b : bool) (m m' : Z) :
  1 <= m -> m <= m' <= 13 -> month_start b m <= month_start b m'.
Proof.
  intros H1 [H2 H3]. replace m' with (m + Z.of_nat (Z.to_nat (m' - m))) in * by lia.
  set (k := Z.to_nat (m' - m)) in *. clearbody k. clear H2. induction k as [|k IH].
  - rewrite Z.add_0_r. done.
  - pose proof (month_start_step b (m + Z.of_nat k) ltac:(lia)).
    replace (m + Z.of_nat (S k)) with (m + Z.of_nat k + 1) by lia. specialize (IH ltac:(lia)). lia.
Qed.

Lemma month_days_bounds (y m : Z) :
  1 <= m <= 12 -> 0 <= month_days y m /\ month_days y m + 28 <= month_days y (m + 1) /\
  month_days y (m + 1) <= month_days y m + 31 /\ month_days y (m + 1) <= (if leap y then 366 else 365).
Proof.
  intros Hm. unfold month_days. pose proof (month_start_step (leap y) m Hm).
  pose proof (month_start_mono (leap y) 1 m). pose proof (month_start_mono (leap y) (m + 1) 13).
  replace (month_start (leap y) 1) with 0 in * by (by destruct (leap y)).
  replace (month_start (leap y) 13) with (if leap y then 366 else 365) in * by (by destruct (leap y)).
  lia.
Qed.

Lemma month_of_unique (y m yd : Z) :
  1 <= m <= 12 -> month_days y m <= yd < month_days y (m + 1) -> month_of y yd = m.
Proof.
  intros Hm H. pose proof (month_days_bounds y m Hm).
  destruct (month_of_spec y yd ltac:(lia)) as [Hr Hs]. unfold month_days in *.
  destruct (Z.lt_trichotomy (month_of y yd) m) as [Hlt|[Heq|Hgt]]; [|done|].
  - pose proof (month_start_mono (leap y) (month_of y yd + 1) m). lia.
  - pose proof (month_start_mono (leap y) (m + 1) (month_of y yd)). lia.
Qed.

(** ** Dates and times. *)

Lemma Month_range (t : Time) : 1 <= Month t <= 12.
Proof.
  pose proof (year_of_spec (days_since t)). rewrite leap_year_days in *.
  apply month_of_spec. unfold Year. lia.
Qed.

Lemma civil_bounds (t : Time) :
  month_days (Year t) (Month t) <= days_since t - year_days (Year t) < month_days (Year t) (Month t + 1).
Proof.
  pose proof (year_of_spec (days_since t)). rewrite leap_year_days in *.
  apply month_of_spec. unfold Year. lia.
Qed.

Lemma DayOf_range (t : Time) :
  1 <= DayOf t <= month_days (Year t) (Month t + 1) - month_days (Year t) (Month t).
Proof. pose proof (civil_bounds t). unfold DayOf. lia. Qed.

Lemma civil_day_number (t : Time) : day_number (Year t) (Month t) (DayOf t) = days_since t.
Proof. unfold day_number, DayOf. lia. Qed.

Lemma Day_pos : 0 < Day.
Proof. reflexivity. Qed.

Lemma days_since_Date (n : Z) (r : Z) : 0 <= r < Day -> days_since (Day * n + r) = n.
Proof.
  intros H. unfold days_since. rewrite Z.mul_comm, Z.div_add_l by (pose proof Day_pos; lia).
  rewrite Z.div_small by done. lia.
Qed.

Lemma day_start (t : Time) : Day * days_since t <= t < Day * (days_since t + 1).
Proof.
  unfold days_since. pose proof (Z.div_mod t Day). pose proof (Z.mod_pos_bound t Day Day_pos).
  pose proof Day_pos. lia.
Qed.

Lemma Date_in_range (y m d : Z) : 1 <= m <= 12 -> Date y m d = Day * day_number y m d.
Proof.
  intros H. unfold Date. rewrite Z.div_small, Z.mod_small by lia. do 2 f_equal; lia.
Qed.

Lemma Date_shift_day (y m d k : Z) : Date y m (d + k) = Date y m d + Day * k.
Proof. unfold Date, day_number. lia. Qed.

Lemma Date_civil (t : Time) : Date (Year t) (Month t) (DayOf t) = Day * days_since t.
Proof. rewrite Date_in_range by apply Month_range. by rewrite civil_day_number. Qed.

(** The fields of a date that exists are read back. *)
Lemma Date_fields (y m d : Z) :
  1 <= m <= 12 -> 1 <= d <= month_days y (m + 1) - month_days y m ->
  Year (Date y m d) = y /\ Month (Date y m d) = m /\ DayOf (Date y m d) = d.
Proof.
  intros Hm Hd. rewrite Date_in_range by done.
  assert (Hn : days_since (Day * day_number y m d) = day_number y m d).
  { rewrite <- (Z.add_0_r (Day * _)). apply days_since_Date. pose proof Day_pos. lia. }
  pose proof (month_days_bounds y m Hm) as Hb. pose proof (leap_year_days y) as Hl.
  assert (HY : Year (Day * day_number y m d) = y).
  { unfold Year. rewrite Hn. apply year_of_unique. unfold day_number. lia. }
  assert (HM : Month (Day * day_number y m d) = m).
  { unfold Month. rewrite HY, Hn. apply month_of_unique; [done|]. unfold day_number. lia. }
  split_and!; [done|done|]. unfold DayOf. rewrite HM, HY, Hn. unfold day_number. lia.
Qed.

(** ** The layout. *)

(** The digits of a number within its width. *)
Lemma appendInt_4 (y : Z) : 0 <= y <= 9999 ->
  exists a b c d, appendInt y 4 = String a (String b (String c (String d EmptyString))) /\
    str_forall is_digit (appendInt y 4) = true /\ digits_value 0 (appendInt y 4) = Some y.
Proof.
  intros H. assert (Hb : (match appendInt y 4 with String _ (String _ (String _ (String _ EmptyString))) => true | _ => false end &&
    str_forall is_digit (appendInt y 4) && match digits_value 0 (appendInt y 4) with Some v => v =? y | None => false end) = true).
  { apply (Z_all_below 10000 (fun n => match appendInt n 4 with String _ (String _ (String _ (String _ EmptyString))) => true | _ => false end &&
      str_forall is_digit (appendInt n 4) && match digits_value 0 (appendInt n 4) with Some v => v =? n | None => false end));
      [vm_compute; reflexivity|lia]. }
  bool_to_prop. repeat case_match; try done. bool_to_prop. subst. eauto 10.
Qed.

Lemma appendInt_2 (x : Z) : 0 <= x <= 99 ->
  exists a b, appendInt x 2 = String a (String b EmptyString) /\
    str_forall is_digit (appendInt x 2) = true /\ digits_value 0 (appendInt x 2) = Some x.
Proof.
  intros H. assert (Hb : (match appendInt x 2 with String _ (String _ EmptyString) => true | _ => false end &&
    str_forall is_digit (appendInt x 2) && match digits_value 0 (appendInt x 2) with Some v => v =? x | None => false end) = true).
  { apply (Z_all_below 100 (fun n => match appendInt n 2 with String _ (String _ EmptyString) => true | _ => false end &&
      str_forall is_digit (appendInt n 2) && match digits_value 0 (appendInt n 2) with Some v => v =? n | None => false end));
      [vm_compute; reflexivity|lia]. }
  bool_to_prop. repeat case_match; try done. bool_to_prop. subst. eauto 10.
Qed.

(** A printed date has eight digits in the places of the layout. *)
Lemma FormatDate_shape (t : Time) : 0 <= Year t <= 9999 ->
  exists y m d, FormatDate t = String.append y (String "-"%char (String.append m (String "-"%char d))) /\
    String.length y = 4%nat /\ String.length m = 2%nat /\ String.length d = 2%nat /\
    str_forall is_digit y = true /\ str_forall is_digit m = true /\ str_forall is_digit d = true.
Proof.
  intros Hy. pose proof (Month_range t) as Hm. pose proof (DayOf_range t) as Hd.
  pose proof (month_days_bounds (Year t) (Month t) Hm).
  destruct (appendInt_4 (Year t) Hy) as (?&?&?&?&F1&?&_).
  destruct (appendInt_2 (Month t) ltac:(lia)) as (?&?&F2&?&_).
  destruct (appendInt_2 (DayOf t) ltac:(lia)) as (?&?&F3&?&_).
  exists (appendInt (Year t) 4), (appendInt (Month t) 2), (appendInt (DayOf t) 2).
  split_and!; try done; [by rewrite F1|by rewrite F2|by rewrite F3].
Qed.

(** A printed date parses to the start of its day. *)
Lemma ParseDate_FormatDate (t : Time) : 0 <= Year t <= 9999 ->
  ParseDate (FormatDate t) = Some (Day * days_since t).
Proof.
  intros Hy. pose proof (Month_range t) as Hm. pose proof (DayOf_range t) as Hd.
  pose proof (month_days_bounds (Year t) (Month t) Hm).
  destruct (appendInt_4 (Year t) Hy) as (a1&a2&a3&a4&F1&_&V1).
  destruct (appendInt_2 (Month t) ltac:(lia)) as (b1&b2&F2&_&V2).
  destruct (appendInt_2 (DayOf t) ltac:(lia)) as (c1&c2&F3&_&V3).
  unfold FormatDate. rewrite F1, F2, F3. cbn [String.append ParseDate].
  rewrite F1 in V1. rewrite F2 in V2. rewrite F3 in V3. rewrite V1, V2, V3. cbn [mbind option_bind].
  destruct (Z.leb_spec 1 (Month t)); [|lia]. destruct (Z.leb_spec (Month t) 12); [|lia].
  destruct (Z.leb_spec 1 (DayOf t)); [|lia].
  destruct (Z.leb_spec (DayOf t) (month_days (Year t) (Month t + 1) - month_days (Year t) (Month t))); [|lia].
  simpl. by rewrite Date_civil.
Qed.

#[global] Opaque year_of month_of.
