(* ===== verification/Usage.v ===== *)
(** * The usage counters of the authorizer, [src/authz/usage.go].

    [UsageBuffer] counts requests in memory; [Flusher] writes the counts to
    UsageRollup objects with optimistic concurrency. The mutex makes every
    method of the buffer one critical section; the calls of the flusher to the
    API server are separate steps, so that requests, other replicas and faults
    come between them ([World] and [step]). *)

From Stdlib Require Import Ascii.
From stdpp Require Import base tactics numbers countable list option strings gmap.
From S2P Require Import Prelude GoStd Calendar.

#[local] Open Scope kipper_scope.

(** ** Data. *)

Inductive Counter : Type := CounterAllowed | CounterDeniedRate | CounterDeniedQuota.

#[export] Instance Counter_eq_dec : EqDecision Counter.
Proof. solve_decision. Defined.

Record usageKey : Type := UsageKey { namespace : string; prefix : string; day : string }.

#[export] Instance usageKey_eq_dec : EqDecision usageKey.
Proof. solve_decision. Defined.

#[export] Instance usageKey_countable : Countable usageKey.
Proof.
  apply (inj_countable' (fun k => (namespace k, prefix k, day k))
    (fun p => UsageKey p.1.1 p.1.2 p.2)).
  by intros [].
Defined.

Record usageCounts : Type := UsageCounts { allowed : Z; deniedRate : Z; deniedQuota : Z }.

Definition zeroCounts : usageCounts := UsageCounts 0 0 0.

(** [floors] are the allowed totals this replica last wrote. *)
Record UsageBuffer : Type :=
  { counts : gmap usageKey usageCounts; floors : gmap usageKey Z }.

Definition NewUsageBuffer : UsageBuffer := {| counts := ∅; floors := ∅ |}.

(** ** The buffer. *)

(** The switch of [Add]. *)
Definition increment (counter : Counter) (c : usageCounts) : usageCounts :=
  match counter with
  | CounterAllowed => UsageCounts (allowed c +! 1) (deniedRate c) (deniedQuota c)
  | CounterDeniedRate => UsageCounts (allowed c) (deniedRate c +! 1) (deniedQuota c)
  | CounterDeniedQuota => UsageCounts (allowed c) (deniedRate c) (deniedQuota c +! 1)
  end.

Definition Add (b : UsageBuffer) (ns pfx d : string) (counter : Counter) : UsageBuffer :=
  let k := UsageKey ns pfx d in
  {| counts := <[k := increment counter (default zeroCounts (counts b !! k))]> (counts b);
     floors := floors b |}.

(** The condition of the loops of [UnflushedAllowed] and [AllowedFloors]. *)
Definition in_window (ns pfx : string) (start : Time) (k : usageKey) : bool :=
  (namespace k =? ns)%string && (prefix k =? pfx)%string &&
  match ParseDate (day k) with Some d => negb (Before d start) | None => false end.

Definition UnflushedAllowed (b : UsageBuffer) (ns pfx : string) (start : Time) : Z :=
  foldr (fun kc total =>
      if in_window ns pfx start kc.1 then total +! allowed kc.2 else total)
    0 (map_to_list (counts b)).

Definition floorRetention : Duration := 40 * 24 * Hour.

Definition keep_floor (before : Time) (kf : usageKey * Z) : bool :=
  match ParseDate (day kf.1) with Some d => negb (Before d before) | None => false end.

Definition pruneFloors (b : UsageBuffer) (before : Time) : UsageBuffer :=
  {| counts := counts b; floors := filter (fun kf => keep_floor before kf = true) (floors b) |}.

Definition setFloor (b : UsageBuffer) (k : usageKey) (allowedTotal : Z) : UsageBuffer :=
  if default 0 (floors b !! k) <? allowedTotal
  then {| counts := counts b; floors := <[k := allowedTotal]> (floors b) |}
  else b.

Definition AllowedFloors (b : UsageBuffer) (ns pfx : string) (start : Time) : gmap string Z :=
  foldr (fun kf out => if in_window ns pfx start kf.1 then <[day kf.1 := kf.2]> out else out)
    ∅ (map_to_list (floors b)).

Definition drain (b : UsageBuffer) : gmap usageKey usageCounts * UsageBuffer :=
  (counts b, {| counts := ∅; floors := floors b |}).

Definition addCounts (a c : usageCounts) : usageCounts :=
  UsageCounts (allowed a +! allowed c) (deniedRate a +! deniedRate c)
    (deniedQuota a +! deniedQuota c).

Definition restore (b : UsageBuffer) (m : gmap usageKey usageCounts) : UsageBuffer :=
  {| counts := union_with (fun existing c => Some (addCounts existing c)) (counts b) m;
     floors := floors b |}.

(** ** Rollups. *)

Fixpoint dayCompact (d : string) : string :=
  match d with
  | EmptyString => EmptyString
  | String c d' => if Ascii.eqb c "-"%char then dayCompact d' else String c (dayCompact d')
  end.

Definition RollupName (pfx d : string) : string :=
  String.append "rollup-" (String.append pfx (String.append "-" (dayCompact d))).

(** A UsageRollup: its metadata and its [Spec]. *)
Record UsageRollup : Type := {
  Name : string;
  Namespace : string;
  Labels : list (string * string);
  ResourceVersion : Z;
  KeyPrefix : string;
  RollupDay : string;
  Allowed : Z;
  DeniedRate : Z;
  DeniedQuota : Z
}.

(** ** [flushOne], cut at its calls to the API server. *)

Inductive GetResult : Type := Got (r : UsageRollup) | GetNotFound | GetFailed.

Inductive WriteRequest : Type := Create (r : UsageRollup) | Update (r : UsageRollup).

Inductive WriteResult : Type := Written | AlreadyExists | Conflict | WriteFailed.

#[export] Instance WriteResult_eq_dec : EqDecision WriteResult.
Proof. solve_decision. Defined.

(** Where [flushOne] stands between two calls, and how it ends: [Done] carries
    the total given to [setFloor]. *)
Inductive OneState : Type := NeedGet (attempt : nat) | NeedWrite (attempt : nat) (req : WriteRequest).

Inductive OneNext : Type := Next (s : OneState) | Done (allowedTotal : Z) | Failed.

Definition maxAttempts : nat := 5.

Definition first_attempt : OneState := NeedGet 0.

(** The end of a loop iteration: [continue], or the error after the loop. *)
Definition next_attempt (attempt : nat) : OneNext :=
  if (S attempt <? maxAttempts)%nat then Next (NeedGet (S attempt)) else Failed.

Definition new_rollup (k : usageKey) (c : usageCounts) : UsageRollup :=
  {| Name := RollupName (prefix k) (day k); Namespace := namespace k;
     Labels := [("app.kubernetes.io/managed-by", "kipper"); ("kipper.run/api-key", prefix k)]%string;
     ResourceVersion := 0; KeyPrefix := prefix k; RollupDay := day k;
     Allowed := allowed c; DeniedRate := deniedRate c; DeniedQuota := deniedQuota c |}.

Definition bumped (r : UsageRollup) (c : usageCounts) : UsageRollup :=
  {| Name := Name r; Namespace := Namespace r; Labels := Labels r;
     ResourceVersion := ResourceVersion r; KeyPrefix := KeyPrefix r; RollupDay := RollupDay r;
     Allowed := Allowed r +! allowed c;
     DeniedRate := DeniedRate r +! deniedRate c;
     DeniedQuota := DeniedQuota r +! deniedQuota c |}.

Definition on_get (k : usageKey) (c : usageCounts) (attempt : nat) (got : GetResult) : OneNext :=
  match got with
  | GetNotFound => Next (NeedWrite attempt (Create (new_rollup k c)))
  | GetFailed => Failed
  | Got r => Next (NeedWrite attempt (Update (bumped r c)))
  end.

Definition on_write (attempt : nat) (req : WriteRequest) (wr : WriteResult) : OneNext :=
  match req, wr with
  | Create r, Written | Update r, Written => Done (Allowed r)
  | Create _, AlreadyExists => next_attempt attempt
  | Update _, Conflict => next_attempt attempt
  | _, _ => Failed
  end.

(** [flushOne] against the sequence of answers of the server, an answer pair
    per attempt. *)
Fixpoint flush_attempts (fuel : nat) (k : usageKey) (c : usageCounts)
    (answers : nat -> GetResult * WriteResult) (attempt : nat) : option OneNext :=
  match fuel with
  | O => None
  | S fuel' =>
      match on_get k c attempt (answers attempt).1 with
      | Next (NeedWrite _ req) =>
          match on_write attempt req (answers attempt).2 with
          | Next (NeedGet attempt') => flush_attempts fuel' k c answers attempt'
          | r => Some r
          end
      | r => Some r
      end
  end.

Definition flushOne (k : usageKey) (c : usageCounts) (answers : nat -> GetResult * WriteResult) :
    option OneNext :=
  flush_attempts maxAttempts k c answers 0.

(** ** Replicas, the API server and their interleaving. *)

(** [Flush] between its calls: the counts not yet looked at, the entry in
    flight, the entries that failed. *)
Record Flushing : Type := {
  todo : gmap usageKey usageCounts;
  current : option (usageKey * usageCounts * OneState);
  failed : gmap usageKey usageCounts
}.

(** [own] and [cutoff] are history variables: the requests this replica
    admitted since it started, and the latest bound [pruneFloors] was given. *)
Record Replica : Type := {
  buffer : UsageBuffer;
  flushing : option Flushing;
  own : usageKey -> Z;
  cutoff : Time
}.

Definition new_replica : Replica :=
  {| buffer := NewUsageBuffer; flushing := None; own := fun _ => 0; cutoff := zero_time |}.

(** The server's store and the replicas. The history variables count, per key
    and counter, the requests counted so far, those written although the
    server's answer was an error, and those gone with a crashed replica or a
    deleted rollup; [deleted] are the rollups deleted so far. *)
Record World : Type := {
  rollups : gmap (string * string) UsageRollup;
  revision : Z;
  replicas : list Replica;
  issued : usageKey -> Counter -> Z;
  duplicated : usageKey -> Counter -> Z;
  lost : usageKey -> Counter -> Z;
  deleted : list (string * string)
}.

Definition object_key (r : UsageRollup) : string * string := (Namespace r, Name r).

Definition rollup_key (k : usageKey) : string * string :=
  (namespace k, RollupName (prefix k) (day k)).

Definition with_version (v : Z) (r : UsageRollup) : UsageRollup :=
  {| Name := Name r; Namespace := Namespace r; Labels := Labels r; ResourceVersion := v;
     KeyPrefix := KeyPrefix r; RollupDay := RollupDay r; Allowed := Allowed r;
     DeniedRate := DeniedRate r; DeniedQuota := DeniedQuota r |}.

(** The API server's documented behaviour: a create fails when the object
    exists, an update fails unless it carries the stored resource version, and
    every write takes a new version. *)
Definition server_write (m : gmap (string * string) UsageRollup) (rev : Z) (req : WriteRequest) :
    gmap (string * string) UsageRollup * WriteResult :=
  match req with
  | Create r =>
      match m !! object_key r with
      | Some _ => (m, AlreadyExists)
      | None => (<[object_key r := with_version rev r]> m, Written)
      end
  | Update r =>
      match m !! object_key r with
      | Some r' =>
          if ResourceVersion r' =? ResourceVersion r
          then (<[object_key r := with_version rev r]> m, Written) else (m, Conflict)
      | None => (m, WriteFailed)
      end
  end.

Definition server_read (m : gmap (string * string) UsageRollup) (o : string * string) : GetResult :=
  match m !! o with Some r => Got r | None => GetNotFound end.

(** What goes wrong with a write: nothing, the request is lost, or the answer
    is lost after the write. *)
Inductive Fault : Type := NoFault | RequestLost | AnswerLost.

(** A key prefix as the ApiKey schema allows it: eight lower-case letters or
    digits. *)
Definition valid_prefix (p : string) : bool :=
  (String.length p =? 8)%nat && str_forall (fun c => is_digit c || is_lower c) p.

(** The years the layout prints with four digits. *)
Definition printable (t : Time) : bool := (0 <=? Year t) && (Year t <=? 9999).

Inductive Event : Type :=
| Request (i : nat) (ns pfx : string) (now : Time) (counter : Counter)
| StartFlush (i : nat) (now : Time)
| Pick (i : nat) (k : usageKey)
| DoGet (i : nat) (fails : bool)
| DoWrite (i : nat) (fault : Fault)
| EndFlush (i : nat)
| Crash (i : nat)
| Delete (o : string * string).

(** One entry ends: [flushOne] returned. *)
Definition entry_done (r : Replica) (f : Flushing) (k : usageKey) (c : usageCounts) (n : OneNext) :
    Replica :=
  match n with
  | Next s =>
      {| buffer := buffer r;
         flushing := Some {| todo := todo f; current := Some (k, c, s); failed := failed f |};
         own := own r; cutoff := cutoff r |}
  | Done total =>
      {| buffer := setFloor (buffer r) k total;
         flushing := Some {| todo := todo f; current := None; failed := failed f |};
         own := own r; cutoff := cutoff r |}
  | Failed =>
      {| buffer := buffer r;
         flushing := Some {| todo := todo f; current := None; failed := <[k := c]> (failed f) |};
         own := own r; cutoff := cutoff r |}
  end.

(** [Flush] up to its loop. *)
Definition start_flush (r : Replica) (now : Time) : Replica :=
  let before := GoStd.Add now (- floorRetention) in
  let '(m, b) := drain (pruneFloors (buffer r) before) in
  {| buffer := b;
     flushing := if decide (m = ∅) then None
                 else Some {| todo := m; current := None; failed := ∅ |};
     own := own r; cutoff := Z.max (cutoff r) before |}.

(** [Flush] after its loop. *)
Definition end_flush (r : Replica) (f : Flushing) : Replica :=
  {| buffer := if decide (failed f = ∅) then buffer r else restore (buffer r) (failed f);
     flushing := None; own := own r; cutoff := cutoff r |}.

Definition count_request (r : Replica) (k : usageKey) (counter : Counter) : Replica :=
  {| buffer := Add (buffer r) (namespace k) (prefix k) (day k) counter;
     flushing := flushing r;
     own := if decide (counter = CounterAllowed)
            then fun k' => if decide (k' = k) then own r k' + 1 else own r k' else own r;
     cutoff := cutoff r |}.

(** ** Accounting. *)

Definition cget (counter : Counter) (c : usageCounts) : Z :=
  match counter with
  | CounterAllowed => allowed c
  | CounterDeniedRate => deniedRate c
  | CounterDeniedQuota => deniedQuota c
  end.

Definition rget (counter : Counter) (r : UsageRollup) : Z :=
  match counter with
  | CounterAllowed => Allowed r
  | CounterDeniedRate => DeniedRate r
  | CounterDeniedQuota => DeniedQuota r
  end.

Definition held (m : gmap usageKey usageCounts) (k : usageKey) (counter : Counter) : Z :=
  match m !! k with Some c => cget counter c | None => 0 end.

(** What the store has recorded. *)
Definition recorded (m : gmap (string * string) UsageRollup) (k : usageKey) (counter : Counter) : Z :=
  match m !! rollup_key k with Some r => rget counter r | None => 0 end.

Definition in_flight (cur : option (usageKey * usageCounts * OneState)) (k : usageKey)
    (counter : Counter) : Z :=
  match cur with
  | Some (k', c, _) => if decide (k' = k) then cget counter c else 0
  | None => 0
  end.

(** What a replica holds: in its buffer, and in a flush that has not ended. *)
Definition pending_parts (r : Replica) (k : usageKey) (counter : Counter) : list Z :=
  held (counts (buffer r)) k counter ::
  match flushing r with
  | Some f => [held (todo f) k counter; in_flight (current f) k counter; held (failed f) k counter]
  | None => []
  end.

Definition pending (r : Replica) (k : usageKey) (counter : Counter) : Z :=
  sumZ (pending_parts r k counter).

Definition all_pending (w : World) (k : usageKey) (counter : Counter) : Z :=
  sumZ ((fun r => pending r k counter) <$> replicas w).

(** ** The step function. *)

Definition bump (f : usageKey -> Counter -> Z) (k : usageKey) (g : Counter -> Z) :
    usageKey -> Counter -> Z :=
  fun k' counter => if decide (k' = k) then f k' counter + g counter else f k' counter.

Definition set_replica (w : World) (i : nat) (r : Replica) : World :=
  {| rollups := rollups w; revision := revision w; replicas := <[i := r]> (replicas w);
     issued := issued w; duplicated := duplicated w; lost := lost w; deleted := deleted w |}.

Definition write_step (w : World) (i : nat) (r : Replica) (f : Flushing) (k : usageKey)
    (c : usageCounts) (attempt : nat) (req : WriteRequest) (fault : Fault) : World :=
  let '(m, answer) := server_write (rollups w) (revision w) req in
  let applied := match fault with RequestLost => rollups w | _ => m end in
  let seen := match fault with NoFault => answer | _ => WriteFailed end in
  {| rollups := applied;
     revision := revision w + 1;
     replicas := <[i := entry_done r f k c (on_write attempt req seen)]> (replicas w);
     issued := issued w;
     duplicated := match fault, answer with
                   | AnswerLost, Written => bump (duplicated w) k (fun counter => cget counter c)
                   | _, _ => duplicated w
                   end;
     lost := lost w;
     deleted := deleted w |}.

Definition step (w : World) (e : Event) : option World :=
  match e with
  | Request i ns pfx now counter =>
      r ← replicas w !! i;
      let k := UsageKey ns pfx (FormatDate now) in
      if valid_prefix pfx && printable now then
        let w' := set_replica w i (count_request r k counter) in
        Some {| rollups := rollups w'; revision := revision w'; replicas := replicas w';
                issued := bump (issued w) k (fun c' => if decide (c' = counter) then 1 else 0);
                duplicated := duplicated w; lost := lost w; deleted := deleted w |}
      else None
  | StartFlush i now =>
      r ← replicas w !! i;
      match flushing r with
      | None => Some (set_replica w i (start_flush r now))
      | Some _ => None
      end
  | Pick i k =>
      r ← replicas w !! i;
      f ← flushing r;
      match current f with
      | Some _ => None
      | None =>
          c ← todo f !! k;
          let f' := {| todo := delete k (todo f); current := None; failed := failed f |} in
          Some (set_replica w i (entry_done r f' k c (Next first_attempt)))
      end
  | DoGet i fails =>
      r ← replicas w !! i;
      f ← flushing r;
      match current f with
      | Some (k, c, NeedGet attempt) =>
          let got := if fails : bool then GetFailed else server_read (rollups w) (rollup_key k) in
          Some (set_replica w i (entry_done r f k c (on_get k c attempt got)))
      | _ => None
      end
  | DoWrite i fault =>
      r ← replicas w !! i;
      f ← flushing r;
      match current f with
      | Some (k, c, NeedWrite attempt req) => Some (write_step w i r f k c attempt req fault)
      | _ => None
      end
  | EndFlush i =>
      r ← replicas w !! i;
      f ← flushing r;
      match current f with
      | Some _ => None
      | None => if decide (todo f = ∅) then Some (set_replica w i (end_flush r f)) else None
      end
  | Crash i =>
      r ← replicas w !! i;
      let w' := set_replica w i new_replica in
      Some {| rollups := rollups w'; revision := revision w'; replicas := replicas w';
              issued := issued w; duplicated := duplicated w;
              lost := fun k counter => lost w k counter + pending r k counter;
              deleted := deleted w |}
  | Delete o =>
      Some {| rollups := delete o (rollups w); revision := revision w; replicas := replicas w;
              issued := issued w; duplicated := duplicated w;
              lost := fun k counter =>
                lost w k counter + (if decide (rollup_key k = o) then recorded (rollups w) k counter else 0);
              deleted := o :: deleted w |}
  end.

Fixpoint run (w : World) (es : list Event) : option World :=
  match es with
  | [] => Some w
  | e :: es' => w' ← step w e; run w' es'
  end.

(** [n] replicas starting against a store. *)
Definition initial (n : nat) (m : gmap (string * string) UsageRollup) (rev : Z) : World :=
  {| rollups := m; revision := rev; replicas := replicate n new_replica;
     issued := fun _ _ => 0; duplicated := fun _ _ => 0; lost := fun _ _ => 0; deleted := [] |}.
