(* ===== verification/UsageProps.v ===== *)
(** * Properties of the usage counters.

    No count is lost or invented by the flushers of any number of replicas,
    whatever the interleaving and the faults; and on a replica with no flush in
    progress the floors and the buffer cover everything it admitted. *)

From Stdlib Require Import Ascii.
From stdpp Require Import base tactics numbers countable list option strings gmap.
From S2P Require Import Prelude GoStd Calendar Usage.

(** ** Rollup names. *)

(** A key as [Authorize] builds it. *)
Definition wf_key (k : usageKey) : Prop :=
  valid_prefix (prefix k) = true /\
  exists t, printable t = true /\ day k = FormatDate t.

Lemma printable_year (t : Time) : printable t = true -> 0 <= Year t <= 9999.
Proof. unfold printable. intros H. bool_to_prop. lia. Qed.

Lemma dayCompact_app (a b : string) :
  dayCompact (String.append a b) = String.append (dayCompact a) (dayCompact b).
Proof. induction a as [|c a IH]; simpl; [done|]. destruct (Ascii.eqb c "-"); simpl; by rewrite IH. Qed.

Lemma dayCompact_digits (s : string) : str_forall is_digit s = true -> dayCompact s = s.
Proof.
  induction s as [|c s IH]; simpl; [done|]. intros H. bool_to_prop.
  destruct (Ascii.eqb_spec c "-"%char) as [->|Hne]; [done|]. by rewrite IH.
Qed.

Lemma dayCompact_inj (t t' : Time) :
  printable t = true -> printable t' = true ->
  dayCompact (FormatDate t) = dayCompact (FormatDate t') -> FormatDate t = FormatDate t'.
Proof.
  intros Ht Ht'. apply printable_year in Ht, Ht'.
  destruct (FormatDate_shape t Ht) as (y&m&d&E&Ly&Lm&Ld&Dy&Dm&Dd).
  destruct (FormatDate_shape t' Ht') as (y'&m'&d'&E'&Ly'&Lm'&Ld'&Dy'&Dm'&Dd').
  rewrite E, E'. repeat (rewrite dayCompact_app || cbn [dayCompact] || rewrite Ascii.eqb_refl).
  rewrite !dayCompact_digits by done. intros H.
  apply str_app_inv_length in H as [-> H]; [|congruence].
  apply str_app_inv_length in H as [-> ->]; [done|congruence].
Qed.

(** Distinct keys and days are counted in distinct rollups. *)
Lemma rollup_key_inj (k k' : usageKey) :
  wf_key k -> wf_key k' -> rollup_key k = rollup_key k' -> k = k'.
Proof.
  intros (Hp & t & Ht & Hd) (Hp' & t' & Ht' & Hd'). unfold rollup_key, RollupName.
  intros H. injection H as Hn H. unfold valid_prefix in *. bool_to_prop.
  repeat match goal with H : (_ =? _)%nat = true |- _ => apply Nat.eqb_eq in H end.
  apply str_app_inv_length in H as [Hpx H]; [|congruence].
  simpl in H. injection H as H. destruct k, k'; simpl in *; subst.
  f_equal. by apply dayCompact_inj.
Qed.

(** ** Structure of the reachable states. *)

Definition keys_wf {A : Type} (m : gmap usageKey A) : Prop := map_Forall (fun k _ => wf_key k) m.

(** The object of a pending update is what the store holds, if the store still
    holds that version. *)
Definition request_ok (m : gmap (string * string) UsageRollup) (rev : Z) (k : usageKey)
    (c : usageCounts) (s : OneState) : Prop :=
  match s with
  | NeedGet _ => True
  | NeedWrite _ (Create r) => r = new_rollup k c
  | NeedWrite _ (Update r) =>
      exists r0, r = bumped r0 c /\ object_key r0 = rollup_key k /\ ResourceVersion r0 < rev /\
        forall r', m !! rollup_key k = Some r' -> ResourceVersion r' = ResourceVersion r0 -> r' = r0
  end.

Record flushing_ok (m : gmap (string * string) UsageRollup) (rev : Z) (f : Flushing) : Prop := {
  todo_wf : keys_wf (todo f);
  failed_wf : keys_wf (failed f);
  todo_failed : forall k, is_Some (todo f !! k) -> failed f !! k = None;
  current_ok : forall k c s, current f = Some (k, c, s) ->
    wf_key k /\ todo f !! k = None /\ failed f !! k = None /\ request_ok m rev k c s
}.

Record replica_ok (m : gmap (string * string) UsageRollup) (rev : Z) (r : Replica) : Prop := {
  counts_wf : keys_wf (counts (buffer r));
  flush_ok : forall f, flushing r = Some f -> flushing_ok m rev f
}.

Definition store_ok (m : gmap (string * string) UsageRollup) (rev : Z) : Prop :=
  map_Forall (fun o r => object_key r = o /\ ResourceVersion r < rev) m.

Record world_ok (w : World) : Prop := {
  world_store : store_ok (rollups w) (revision w);
  world_replicas : Forall (replica_ok (rollups w) (revision w)) (replicas w)
}.

(** A store step: every object is either as it was, or carries the version
    that the step took. *)
Definition store_step (m m' : gmap (string * string) UsageRollup) (rev rev' : Z) : Prop :=
  rev <= rev' /\
  forall o r', m' !! o = Some r' -> m !! o = Some r' \/ rev <= ResourceVersion r'.

Lemma request_ok_step m m' rev rev' k c s :
  store_step m m' rev rev' -> request_ok m rev k c s -> request_ok m' rev' k c s.
Proof.
  intros [Hr Hm]. destruct s as [a|a [r|r]]; simpl; [done|done|].
  intros (r0 & -> & Ho & Hv & Heq). exists r0. split_and!; [done|done|lia|].
  intros r' Hl HV. destruct (Hm _ _ Hl) as [Hold|Hnew]; [auto|lia].
Qed.

Lemma flushing_ok_step m m' rev rev' f :
  store_step m m' rev rev' -> flushing_ok m rev f -> flushing_ok m' rev' f.
Proof.
  intros Hs [H1 H2 H3 H4]. constructor; [done|done|done|].
  intros k c s Hc. destruct (H4 k c s Hc) as (?&?&?&?). split_and!; try done.
  by eapply request_ok_step.
Qed.

Lemma replica_ok_step m m' rev rev' r :
  store_step m m' rev rev' -> replica_ok m rev r -> replica_ok m' rev' r.
Proof. intros Hs [H1 H2]. constructor; [done|]. intros f Hf. by eapply flushing_ok_step, H2. Qed.

Lemma store_step_refl m rev : store_step m m rev rev.
Proof. split; [lia|auto]. Qed.

(** The store step of a write and of a deletion. *)
Lemma server_write_step m rev req :
  store_step m (server_write m rev req).1 rev (rev + 1).
Proof.
  split; [lia|]. intros o r'. destruct req as [r|r]; simpl; repeat case_match; simpl; try by left.
  all: rewrite lookup_insert; case_decide; [intros [= <-]; right; simpl; lia|by left].
Qed.

Lemma server_write_store_ok m rev req :
  store_ok m rev -> store_ok (server_write m rev req).1 (rev + 1).
Proof.
  intros Hm. assert (Hm' : store_ok m (rev + 1)).
  { intros o r Ho. destruct (Hm o r Ho). split; [done|lia]. }
  destruct req as [r|r]; simpl; repeat case_match; simpl; try done.
  all: intros o r'; rewrite lookup_insert; case_decide; [intros [= <-]; subst; split; [done|simpl; lia]|auto].
Qed.

Lemma delete_store_step m rev o : store_step m (delete o m) rev rev.
Proof.
  split; [lia|]. intros o' r'. rewrite lookup_delete_Some. tauto.
Qed.

Lemma delete_store_ok m rev o : store_ok m rev -> store_ok (delete o m) rev.
Proof. intros Hm o' r'. rewrite lookup_delete_Some. intros [_ ?]. auto. Qed.

(** ** The buffer. *)

Lemma held_empty k counter : held ∅ k counter = 0.
Proof. unfold held. by rewrite lookup_empty. Qed.

Lemma counts_setFloor b k t : counts (setFloor b k t) = counts b.
Proof. unfold setFloor. by case_match. Qed.

Lemma keys_wf_insert {A : Type} (m : gmap usageKey A) k v : wf_key k -> keys_wf m -> keys_wf (<[k := v]> m).
Proof. intros Hk Hm. by apply map_Forall_insert_2. Qed.

Lemma keys_wf_restore b m : keys_wf (counts b) -> keys_wf m -> keys_wf (counts (restore b m)).
Proof.
  intros Hb Hm k c. simpl. rewrite lookup_union_with.
  destruct (counts b !! k) eqn:E1; [intros _; by eapply Hb|].
  destruct (m !! k) eqn:E2; simpl; [|done]. intros _. by eapply Hm.
Qed.

(** ** Every step keeps the structure. *)

Lemma entry_done_ok m rev r f k c n :
  replica_ok m rev r -> keys_wf (todo f) -> keys_wf (failed f) ->
  (forall k', is_Some (todo f !! k') -> failed f !! k' = None) ->
  wf_key k -> todo f !! k = None -> failed f !! k = None ->
  (forall s, n = Next s -> request_ok m rev k c s) ->
  replica_ok m rev (entry_done r f k c n).
Proof.
  intros [Hc _] Ht Hf Hd Hk Hkt Hkf Hn. destruct n as [s|t|]; constructor; cbn [buffer entry_done].
  - done.
  - intros f' [= <-]. constructor; cbn [todo failed current]; [done|done|done|].
    intros k' c' s' [= <- <- <-]. split_and!; auto.
  - by rewrite counts_setFloor.
  - intros f' [= <-]. by constructor.
  - done.
  - intros f' [= <-]. constructor; cbn [todo failed current]; [done| |  |done].
    + by apply keys_wf_insert.
    + intros k' Hk'. rewrite lookup_insert. case_decide; [|by auto].
      subst. rewrite Hkt in Hk'. by destruct Hk'.
Qed.

(** The entry in flight of a replica, and what it leaves. *)
Lemma entry_done_current m rev r f k c s n :
  replica_ok m rev r -> flushing r = Some f -> current f = Some (k, c, s) ->
  (forall s', n = Next s' -> request_ok m rev k c s') ->
  replica_ok m rev (entry_done r f k c n).
Proof.
  intros Hr Hf Hc Hn. destruct (flush_ok _ _ _ Hr f Hf) as [H1 H2 H3 H4].
  destruct (H4 k c s Hc) as (?&?&?&?). by apply entry_done_ok.
Qed.

Lemma set_replica_ok w i r :
  world_ok w -> replica_ok (rollups w) (revision w) r -> world_ok (set_replica w i r).
Proof. intros [Hs Hr] Hi. constructor; [done|]. simpl. by apply Forall_insert. Qed.

Lemma world_replica w i r :
  world_ok w -> replicas w !! i = Some r -> replica_ok (rollups w) (revision w) r.
Proof. intros [_ H]. rewrite Forall_lookup in H. apply H. Qed.

Lemma on_write_next attempt req wr s :
  on_write attempt req wr = Next s -> s = NeedGet (S attempt).
Proof. destruct req, wr; simpl; unfold next_attempt; intros; repeat case_match; congruence. Qed.

Lemma write_step_ok w i r f k c attempt req fault :
  world_ok w -> replicas w !! i = Some r -> flushing r = Some f ->
  current f = Some (k, c, NeedWrite attempt req) ->
  world_ok (write_step w i r f k c attempt req fault).
Proof.
  intros Hw Hi Hf Hc. pose proof (world_replica w i r Hw Hi) as Hr.
  pose proof (server_write_step (rollups w) (revision w) req) as Hs.
  pose proof (server_write_store_ok (rollups w) (revision w) req (world_store w Hw)) as Ho.
  assert (Hs0 : store_step (rollups w) (rollups w) (revision w) (revision w + 1)) by (split; [lia|auto]).
  assert (Ho0 : store_ok (rollups w) (revision w + 1)).
  { intros o x Hx. destruct (world_store w Hw o x Hx). split; [done|lia]. }
  unfold write_step. destruct (server_write (rollups w) (revision w) req) as [m answer]. simpl in *.
  set (m' := match fault with RequestLost => rollups w | _ => m end).
  assert (Hm' : store_step (rollups w) m' (revision w) (revision w + 1) /\ store_ok m' (revision w + 1))
    by (subst m'; by destruct fault).
  destruct Hm' as [Hm1 Hm2]. constructor; [done|]. apply Forall_insert.
  - eapply Forall_impl; [apply (world_replicas w Hw)|]. intros x Hx. by eapply replica_ok_step.
  - eapply entry_done_current; [by eapply replica_ok_step|done|done|].
    intros s Hn. apply on_write_next in Hn as ->. done.
Qed.

Lemma step_ok w e w' : world_ok w -> step w e = Some w' -> world_ok w'.
Proof.
  intros Hw. destruct e as [i ns pfx now counter|i now|i k|i fails|i fault|i|i|o]; simpl;
    try (destruct (replicas w !! i) as [r|] eqn:Hi; simpl; [|done];
         pose proof (world_replica w i r Hw Hi) as Hr).
  - destruct (valid_prefix pfx && printable now) eqn:Hv; [|done]. intros [= <-]. bool_to_prop.
    destruct Hw as [Hs Hrs]. constructor; simpl; [done|]. apply Forall_insert; [done|].
    destruct Hr as [Hc Hfl]. constructor; [|done]. apply keys_wf_insert; [|done]. split; [done|].
    by exists now.
  - destruct (flushing r) eqn:Hf; [done|]. intros [= <-]. apply set_replica_ok; [done|].
    destruct Hr as [Hc Hfl]. unfold start_flush. simpl. constructor; simpl.
    + intros ? ?. by rewrite lookup_empty.
    + case_decide; [done|]. intros f [= <-]. constructor; simpl; [done| | |done].
      * intros ? ?. by rewrite lookup_empty.
      * intros. apply lookup_empty.
  - destruct (flushing r) as [f|] eqn:Hf; simpl; [|done]. destruct (current f) eqn:Hcur; [done|].
    destruct (todo f !! k) as [c|] eqn:Hk; simpl; [|done]. intros [= <-]. apply set_replica_ok; [done|].
    destruct (flush_ok _ _ _ Hr f Hf) as [H1 H2 H3 H4].
    change (replica_ok (rollups w) (revision w) (entry_done r
      {| todo := delete k (todo f); current := None; failed := failed f |} k c (Next first_attempt))).
    apply entry_done_ok; cbn [todo failed]; try done.
    + by apply map_Forall_delete.
    + intros k' Hk'. apply H3. rewrite lookup_delete_is_Some in Hk'. tauto.
    + by eapply H1.
    + apply lookup_delete_eq.
    + apply H3. by eexists.
    + by intros s [= <-].
  - destruct (flushing r) as [f|] eqn:Hf; simpl; [|done].
    destruct (current f) as [[[k c] [a|a req]]|] eqn:Hcur; try done. intros [= <-].
    apply set_replica_ok; [done|]. eapply entry_done_current; [done|done|done|].
    intros s Hn. destruct fails; [done|]. unfold server_read in Hn.
    destruct (rollups w !! rollup_key k) as [r0|] eqn:Hl; simplify_eq/=; [|done].
    destruct (world_store w Hw _ _ Hl). exists r0. split_and!; [done|done|done|]. congruence.
  - destruct (flushing r) as [f|] eqn:Hf; simpl; [|done].
    destruct (current f) as [[[k c] [a|a req]]|] eqn:Hcur; try done. intros [= <-].
    by apply write_step_ok.
  - destruct (flushing r) as [f|] eqn:Hf; simpl; [|done].
    destruct (current f) eqn:Hcur; [done|]. case_decide; [|done]. intros [= <-].
    apply set_replica_ok; [done|]. destruct (flush_ok _ _ _ Hr f Hf) as [H1 H2 H3 H4].
    unfold end_flush. constructor; simpl; [|done].
    case_decide; [apply Hr|]. apply keys_wf_restore; [apply Hr|done].
  - intros [= <-]. destruct Hw as [Hs Hrs]. constructor; simpl; [done|]. apply Forall_insert; [done|].
    constructor; [|done]. intros ? ?. simpl. by rewrite lookup_empty.
  - intros [= <-]. destruct Hw as [Hs Hrs]. constructor; simpl; [by apply delete_store_ok|].
    eapply Forall_impl; [done|]. intros x Hx. eapply replica_ok_step; [apply delete_store_step|done].
Qed.

Lemma initial_ok n m rev : store_ok m rev -> world_ok (initial n m rev).
Proof.
  intros H. constructor; [done|]. simpl. apply Forall_replicate. constructor; [|done].
  intros ? ?. simpl. by rewrite lookup_empty.
Qed.

(** ** Accounting. *)

Definition nonneg (r : Replica) (k : usageKey) (counter : Counter) : Prop :=
  Forall (Z.le 0) (pending_parts r k counter).

(** The books of one key and counter balance: what was recorded at the start
    ([base]), plus the requests counted, plus what an unacknowledged write
    counted twice, is what is recorded, held or gone. *)
Record accounted (base : Z) (k : usageKey) (counter : Counter) (w : World) : Prop := {
  acc_recorded : 0 <= recorded (rollups w) k counter;
  acc_parts : Forall (fun r => nonneg r k counter) (replicas w);
  acc_lost : 0 <= lost w k counter;
  acc_sum : recorded (rollups w) k counter + all_pending w k counter + lost w k counter =
            base + issued w k counter + duplicated w k counter
}.

(** The counters fit in an [int64]. *)
Definition fits (base : Z) (k : usageKey) (counter : Counter) (w : World) : bool :=
  base + issued w k counter + duplicated w k counter <=? int64_max.

Lemma sumZ_fmap_insert {A : Type} (g : A -> Z) (l : list A) (i : nat) (x y : A) :
  l !! i = Some x -> sumZ (g <$> <[i := y]> l) = sumZ (g <$> l) - g x + g y.
Proof.
  revert i. induction l as [|z l IH]; intros [|i]; csimpl; try done.
  - intros [= ->]. lia.
  - intros H. rewrite (IH i H). lia.
Qed.

Lemma sumZ_fmap_nonneg {A : Type} (g : A -> Z) (l : list A) :
  Forall (fun x => 0 <= g x) l -> 0 <= sumZ (g <$> l).
Proof. intros H. apply sumZ_nonneg. by rewrite Forall_fmap. Qed.

Lemma sumZ_fmap_ge {A : Type} (g : A -> Z) (l : list A) (i : nat) (x : A) :
  Forall (fun x => 0 <= g x) l -> l !! i = Some x -> g x <= sumZ (g <$> l).
Proof.
  intros H. revert i. induction H as [|z l Hz Hl IH]; intros [|i]; csimpl; try done.
  - intros [= ->]. pose proof (sumZ_fmap_nonneg g l Hl). lia.
  - intros Hi. specialize (IH i Hi). lia.
Qed.

Lemma nonneg_pending r k counter : nonneg r k counter -> 0 <= pending r k counter.
Proof. apply sumZ_nonneg. Qed.

Lemma held_insert m k c k' counter :
  held (<[k := c]> m) k' counter = if decide (k = k') then cget counter c else held m k' counter.
Proof. unfold held. rewrite lookup_insert. by case_decide. Qed.

Lemma held_delete m k k' counter :
  held (delete k m) k' counter = if decide (k = k') then 0 else held m k' counter.
Proof. unfold held. rewrite lookup_delete. by case_decide. Qed.

Lemma held_None m k counter : m !! k = None -> held m k counter = 0.
Proof. unfold held. by intros ->. Qed.

Lemma held_Some m k c counter : m !! k = Some c -> held m k counter = cget counter c.
Proof. unfold held. by intros ->. Qed.

Lemma cget_increment counter' counter c :
  cget counter' (increment counter c) =
    if decide (counter' = counter) then wrap64 (cget counter' c + 1) else cget counter' c.
Proof. by destruct counter', counter. Qed.

Lemma cget_addCounts counter a c : cget counter (addCounts a c) = wrap64 (cget counter a + cget counter c).
Proof. by destruct counter. Qed.

Lemma rget_new counter k c : rget counter (new_rollup k c) = cget counter c.
Proof. by destruct counter. Qed.

Lemma rget_bumped counter r c : rget counter (bumped r c) = wrap64 (rget counter r + cget counter c).
Proof. by destruct counter. Qed.

Lemma rget_with_version counter v r : rget counter (with_version v r) = rget counter r.
Proof. by destruct counter. Qed.

Lemma wrap64_small (z : Z) : 0 <= z <= int64_max -> wrap64 z = z.
Proof. intros H. apply wrap64_id. unfold int64_range, int64_min. lia. Qed.

(** *** What an entry in flight contributes. *)

Definition rest_parts (r : Replica) (f : Flushing) (k : usageKey) (counter : Counter) : list Z :=
  [held (counts (buffer r)) k counter; held (todo f) k counter; held (failed f) k counter].

Definition entry_part (k : usageKey) (c : usageCounts) (k' : usageKey) (counter : Counter) : Z :=
  if decide (k = k') then cget counter c else 0.

Lemma pending_current r f k c s k' counter :
  flushing r = Some f -> current f = Some (k, c, s) ->
  pending r k' counter = sumZ (rest_parts r f k' counter) + entry_part k c k' counter.
Proof. intros Hf Hc. unfold pending, pending_parts. rewrite Hf, Hc. simpl. unfold entry_part. lia. Qed.

Lemma nonneg_current r f k c s k' counter :
  flushing r = Some f -> current f = Some (k, c, s) ->
  nonneg r k' counter <->
  Forall (Z.le 0) (rest_parts r f k' counter) /\ 0 <= entry_part k c k' counter.
Proof.
  intros Hf Hc. unfold nonneg, pending_parts, rest_parts. rewrite Hf, Hc.
  rewrite !Forall_cons, !Forall_nil. simpl. unfold entry_part. tauto.
Qed.

Definition is_done (n : OneNext) : bool := match n with Done _ => true | _ => false end.

Lemma pending_entry_done r f k c n k' counter :
  failed f !! k = None ->
  pending (entry_done r f k c n) k' counter =
    sumZ (rest_parts r f k' counter) + (if is_done n then 0 else entry_part k c k' counter).
Proof.
  intros Hk. pose proof (held_None _ _ counter Hk).
  destruct n as [s|t|]; unfold pending; simpl; rewrite ?counts_setFloor, ?held_insert;
    unfold entry_part; simpl; try case_decide; subst; simpl; lia.
Qed.

Lemma nonneg_entry_done r f k c n k' counter :
  failed f !! k = None -> Forall (Z.le 0) (rest_parts r f k' counter) ->
  0 <= entry_part k c k' counter -> nonneg (entry_done r f k c n) k' counter.
Proof.
  intros Hk. pose proof (held_None _ _ counter Hk). unfold rest_parts, entry_part, nonneg, pending_parts.
  rewrite !Forall_cons. intros (H1 & H2 & H3 & _) H4.
  destruct n as [s|t|]; simpl; rewrite ?counts_setFloor, ?held_insert; repeat constructor; try done;
    try lia; case_decide; subst; lia.
Qed.

(** *** Moving counts within a replica. *)

Lemma pending_start_flush r now k counter :
  flushing r = None -> pending (start_flush r now) k counter = pending r k counter /\
  (nonneg r k counter -> nonneg (start_flush r now) k counter).
Proof.
  intros Hf. unfold pending, nonneg, pending_parts, start_flush. rewrite Hf. simpl.
  rewrite held_empty. case_decide as Hm; simpl.
  - rewrite Hm, held_empty. split; [done|]. intros _. by repeat constructor.
  - rewrite held_empty. split; [lia|]. rewrite Forall_cons. intros [H1 _]. by repeat constructor.
Qed.

Lemma pending_end_flush r f k counter :
  flushing r = Some f -> current f = None -> todo f = ∅ ->
  nonneg r k counter -> pending r k counter <= int64_max ->
  pending (end_flush r f) k counter = pending r k counter /\ nonneg (end_flush r f) k counter.
Proof.
  intros Hf Hc Ht. unfold pending, nonneg, pending_parts, end_flush. rewrite Hf, Hc, Ht, held_empty. simpl.
  rewrite !Forall_cons. intros (H1 & _ & _ & H2 & _) Hmax.
  assert (Hb : held (counts (if decide (failed f = ∅) then buffer r else restore (buffer r) (failed f))) k counter
               = held (counts (buffer r)) k counter + held (failed f) k counter).
  { case_decide as He; [rewrite He, held_empty; lia|]. unfold held in *. simpl. rewrite lookup_union_with.
    destruct (counts (buffer r) !! k), (failed f !! k); simpl; rewrite ?cget_addCounts, ?wrap64_small; lia. }
  rewrite Hb. split; [lia|]. repeat constructor. lia.
Qed.

Lemma pending_count_request r k counter k' counter' :
  nonneg r k' counter' ->
  pending r k' counter' + (if decide (k' = k) then if decide (counter' = counter) then 1 else 0 else 0) <= int64_max ->
  pending (count_request r k counter) k' counter' =
    pending r k' counter' + (if decide (k' = k) then if decide (counter' = counter) then 1 else 0 else 0) /\
  nonneg (count_request r k counter) k' counter'.
Proof.
  unfold pending, nonneg, pending_parts. rewrite Forall_cons. cbn [count_request buffer flushing].
  generalize (match flushing r with
    | Some f => [held (todo f) k' counter'; in_flight (current f) k' counter'; held (failed f) k' counter']
    | None => []
    end) as flight. intros flight [H1 H2] Hmax.
  pose proof (sumZ_nonneg _ H2) as Hs.
  assert (Hcons : forall x, sumZ (x :: flight) = x + sumZ flight) by done. rewrite !Hcons in *.
  assert (Hb : held (counts (Add (buffer r) (namespace k) (prefix k) (day k) counter)) k' counter' =
    held (counts (buffer r)) k' counter' + (if decide (k' = k) then if decide (counter' = counter) then 1 else 0 else 0)).
  { replace (UsageKey (namespace k) (prefix k) (day k)) with k by (by destruct k). simpl.
    replace (UsageKey (namespace k) (prefix k) (day k)) with k by (by destruct k).
    rewrite held_insert. unfold held in *.
    destruct (decide (k = k')) as [->|Hne]; [|rewrite decide_False by congruence; lia].
    rewrite decide_True in * by done. rewrite cget_increment.
    revert Hmax. destruct (decide (counter' = counter)); intros Hmax;
      destruct (counts (buffer r) !! k') as [c|]; cbn [default id from_option] in *; try lia.
    - rewrite wrap64_small; lia.
    - by destruct counter'.
    - by destruct counter'. }
  rewrite Hb. split; [lia|]. constructor; [|done]. repeat case_decide; lia.
Qed.

(** *** What a write records. *)

Definition request_total (req : WriteRequest) : Z :=
  match req with Create r | Update r => Allowed r end.

Lemma recorded_insert m k r k' counter :
  wf_key k -> wf_key k' -> object_key r = rollup_key k ->
  recorded (<[object_key r := r]> m) k' counter =
    if decide (k = k') then rget counter r else recorded m k' counter.
Proof.
  intros Hk Hk' Ho. unfold recorded. rewrite Ho, lookup_insert.
  destruct (decide (k = k')) as [->|Hne]; [by rewrite decide_True|].
  rewrite decide_False; [done|]. intros He. by apply Hne, rollup_key_inj.
Qed.

Lemma object_key_with_version v r : object_key (with_version v r) = object_key r.
Proof. done. Qed.

(** A write of an entry either adds exactly its counts to its rollup, or
    changes nothing and is reported. *)
Lemma server_write_entry m rev k c a req k' counter :
  request_ok m rev k c (NeedWrite a req) -> wf_key k -> wf_key k' ->
  let '(m', answer) := server_write m rev req in
  (answer = Written /\
   (0 <= recorded m k' counter + entry_part k c k' counter <= int64_max ->
    recorded m' k' counter = recorded m k' counter + entry_part k c k' counter) /\
   request_total req = recorded m' k CounterAllowed) \/
  (answer <> Written /\ m' = m).
Proof.
  intros Hreq Hk Hk'. destruct req as [r|r]; simpl in *.
  - subst r. change (object_key (new_rollup k c)) with (rollup_key k).
    destruct (m !! rollup_key k) eqn:Hm; [by right|]. left. split; [done|].
    change (rollup_key k) with (object_key (with_version rev (new_rollup k c))).
    rewrite !(recorded_insert m k) by done. rewrite !rget_with_version, rget_new.
    rewrite (decide_True (P := k = k)) by done. split; [|done]. unfold entry_part. case_decide; [|lia].
    subst k'. unfold recorded. rewrite Hm. lia.
  - destruct Hreq as (r0 & -> & Ho & Hv & Heq). change (object_key (bumped r0 c)) with (object_key r0).
    rewrite Ho. destruct (m !! rollup_key k) as [r'|] eqn:Hm; [|by right].
    simpl. destruct (Z.eqb_spec (ResourceVersion r') (ResourceVersion r0)) as [HV|HV]; [|by right].
    rewrite (Heq r' eq_refl HV) in *. left. split; [done|]. rewrite <- Ho.
    change (object_key r0) with (object_key (with_version rev (bumped r0 c))).
    rewrite !(recorded_insert m k) by done. rewrite !rget_with_version.
    rewrite (decide_True (P := k = k)) by done. split; [|done]. unfold entry_part. case_decide; [|lia].
    subst k'. unfold recorded. rewrite Hm, rget_bumped. intros H. by apply wrap64_small.
Qed.

Lemma on_write_done a req answer :
  is_done (on_write a req answer) = bool_decide (answer = Written).
Proof. destruct req, answer; simpl; unfold next_attempt; try done; by case_match. Qed.

(** *** Every step keeps the books. *)

Lemma accounted_upd base k counter w w' i r r' :
  accounted base k counter w -> replicas w !! i = Some r -> replicas w' = <[i := r']> (replicas w) ->
  nonneg r' k counter -> 0 <= recorded (rollups w') k counter -> 0 <= lost w' k counter ->
  recorded (rollups w') k counter + pending r' k counter + lost w' k counter
    - issued w' k counter - duplicated w' k counter =
  recorded (rollups w) k counter + pending r k counter + lost w k counter
    - issued w k counter - duplicated w k counter ->
  accounted base k counter w'.
Proof.
  intros [H1 H2 H3 H4] Hi Hr Hn Hrec Hl Heq. constructor; try done.
  - rewrite Hr. by apply Forall_insert.
  - unfold all_pending in *. rewrite Hr, (sumZ_fmap_insert _ _ _ _ _ Hi). lia.
Qed.

Lemma accounted_replica base k counter w i r :
  accounted base k counter w -> replicas w !! i = Some r ->
  nonneg r k counter /\ 0 <= pending r k counter <= all_pending w k counter.
Proof.
  intros [_ H2 _ _] Hi. pose proof H2 as H2'. rewrite Forall_lookup in H2'. pose proof (H2' i r Hi) as Hn.
  split; [done|]. split; [by apply nonneg_pending|].
  apply (sumZ_fmap_ge (fun r => pending r k counter) _ i); [|done].
  eapply Forall_impl; [done|]. intros x. apply nonneg_pending.
Qed.

Lemma accounted_set base k counter w i r r' :
  accounted base k counter w -> replicas w !! i = Some r ->
  pending r' k counter = pending r k counter -> nonneg r' k counter ->
  accounted base k counter (set_replica w i r').
Proof.
  intros Ha Hi Hp Hn. destruct Ha as [H1 H2 H3 H4] eqn:E. eapply (accounted_upd _ _ _ w); try done.
  simpl. lia.
Qed.

Lemma write_step_accounted base k counter w i r f k0 c a req fault :
  world_ok w -> accounted base k counter w -> wf_key k ->
  replicas w !! i = Some r -> flushing r = Some f -> current f = Some (k0, c, NeedWrite a req) ->
  fits base k counter w = true ->
  accounted base k counter (write_step w i r f k0 c a req fault).
Proof.
  intros Hw Ha Hk Hi Hf Hc Hfits. unfold fits in Hfits. bool_to_prop.
  pose proof (world_replica w i r Hw Hi) as Hr. destruct (flush_ok _ _ _ Hr f Hf) as [_ _ _ Hcur].
  destruct (Hcur _ _ _ Hc) as (Hk0 & _ & Hfk & Hreq).
  destruct (accounted_replica _ _ _ _ _ _ Ha Hi) as [Hn Hp].
  pose proof (pending_current r f k0 c _ k counter Hf Hc) as HP.
  apply (nonneg_current r f k0 c _ k counter Hf Hc) in Hn as [Hrest Hent].
  pose proof (sumZ_nonneg _ Hrest) as Hsum. destruct Ha as [H1 H2 H3 H4] eqn:E.
  pose proof (server_write_entry (rollups w) (revision w) k0 c a req k counter Hreq Hk0 Hk) as Hwr.
  unfold write_step. destruct (server_write (rollups w) (revision w) req) as [m answer].
  assert (Hd : duplicated w k counter <= (bump (duplicated w) k0 (fun counter => cget counter c)) k counter /\
    (bump (duplicated w) k0 (fun counter => cget counter c)) k counter =
     duplicated w k counter + entry_part k0 c k counter).
  { unfold bump, entry_part in *. destruct (decide (k0 = k)) as [->|Hne];
      [rewrite decide_True by done|rewrite decide_False by congruence]; lia. }
  destruct Hwr as [(-> & Hrec & _)|[Hne ->]].
  - specialize (Hrec ltac:(lia)). eapply (accounted_upd _ _ _ w); try done; simpl.
    + by apply nonneg_entry_done.
    + destruct fault; rewrite ?Hrec; lia.
    + rewrite pending_entry_done by done. rewrite on_write_done.
      destruct fault; rewrite ?Hrec; case_bool_decide; try done; lia.
  - eapply (accounted_upd _ _ _ w); try done; simpl.
    + by apply nonneg_entry_done.
    + by destruct fault.
    + rewrite pending_entry_done by done. rewrite on_write_done.
      destruct fault, answer; try done; case_bool_decide; try done; lia.
Qed.

Lemma request_accounted base k counter w i r ns pfx now counter' w' :
  accounted base k counter w -> replicas w !! i = Some r ->
  step w (Request i ns pfx now counter') = Some w' -> fits base k counter w' = true ->
  accounted base k counter w'.
Proof.
  intros Ha Hi. simpl. rewrite Hi. simpl. case_match; [|done]. intros [= <-].
  unfold fits. cbn [issued duplicated]. intros Hf. bool_to_prop.
  destruct (accounted_replica _ _ _ _ _ _ Ha Hi) as [Hn Hp].
  set (k0 := UsageKey ns pfx (FormatDate now)) in *.
  assert (Hb : bump (issued w) k0 (fun c' => if decide (c' = counter') then 1 else 0) k counter =
    issued w k counter + (if decide (k = k0) then if decide (counter = counter') then 1 else 0 else 0)).
  { unfold bump. case_decide; lia. }
  rewrite Hb in Hf. pose proof (acc_sum _ _ _ _ Ha). pose proof (acc_recorded _ _ _ _ Ha).
  pose proof (acc_lost _ _ _ _ Ha).
  destruct (pending_count_request r k0 counter' k counter Hn) as [Hp' Hn']; [lia|].
  eapply (accounted_upd _ _ _ w); try done. cbn [rollups issued duplicated lost set_replica].
  rewrite Hb, Hp'. lia.
Qed.

Lemma step_accounted base k counter w e w' :
  world_ok w -> accounted base k counter w -> wf_key k ->
  step w e = Some w' -> fits base k counter w = true -> fits base k counter w' = true ->
  accounted base k counter w'.
Proof.
  intros Hw Ha Hk He Hf Hf'. destruct e as [i ns pfx now c'|i now|i k0|i fails|i fault|i|i|o];
    [destruct (replicas w !! i) as [r|] eqn:Hi; [by eapply request_accounted|simpl in He; by rewrite Hi in He]|..];
    simpl in He;
    try (destruct (replicas w !! i) as [r|] eqn:Hi; simpl in He; [|done];
         destruct (accounted_replica _ _ _ _ _ _ Ha Hi) as [Hn Hp];
         pose proof (world_replica w i r Hw Hi) as Hr).
  - destruct (flushing r) eqn:Hfl; [done|]. simplify_eq.
    destruct (pending_start_flush r now k counter Hfl) as [Hp' Hn']. eapply (accounted_set _ _ _ _ _ r); auto.
  - destruct (flushing r) as [f|] eqn:Hfl; simpl in He; [|done].
    destruct (current f) eqn:Hc; [done|]. destruct (todo f !! k0) as [c|] eqn:Ht; simplify_eq/=.
    assert (Hfk : failed f !! k0 = None) by (apply (todo_failed _ _ _ (flush_ok _ _ _ Hr f Hfl)); by eexists).
    set (f' := {| todo := delete k0 (todo f); current := None; failed := failed f |}).
    change (accounted base k counter (set_replica w i (entry_done r f' k0 c (Next first_attempt)))).
    unfold nonneg, pending_parts in Hn. rewrite Hfl, Hc, !Forall_cons in Hn. simpl in Hn.
    destruct Hn as (Hn1 & Hn2 & Hn3 & Hn4 & _).
    assert (Hsplit : held (todo f) k counter = held (delete k0 (todo f)) k counter + entry_part k0 c k counter /\
      0 <= held (delete k0 (todo f)) k counter /\ 0 <= entry_part k0 c k counter).
    { unfold entry_part. rewrite held_delete. case_decide; [|lia]. subst k0.
      rewrite (held_Some _ _ _ counter Ht) in *. lia. }
    eapply (accounted_set _ _ _ _ _ r); [done|done| |].
    + rewrite pending_entry_done by done. unfold pending, pending_parts. rewrite Hfl, Hc. simpl. lia.
    + apply nonneg_entry_done; [done| |lia]. repeat constructor; simpl; lia.
  - destruct (flushing r) as [f|] eqn:Hfl; simpl in He; [|done].
    destruct (current f) as [[[k0 c] [a|a req]]|] eqn:Hc; try done. simplify_eq.
    destruct (current_ok _ _ _ (flush_ok _ _ _ Hr f Hfl) _ _ _ Hc) as (_ & _ & Hfk & _).
    apply (nonneg_current r f k0 c _ k counter Hfl Hc) in Hn as [Hrest Hent].
    eapply (accounted_set _ _ _ _ _ r); [done|done| |by apply nonneg_entry_done].
    rewrite pending_entry_done, (pending_current r f k0 c _ k counter Hfl Hc) by done.
    destruct fails; [done|]. unfold server_read. by destruct (rollups w !! rollup_key k0).
  - destruct (flushing r) as [f|] eqn:Hfl; simpl in He; [|done].
    destruct (current f) as [[[k0 c] [a|a req]]|] eqn:Hc; try done. simplify_eq.
    by apply write_step_accounted.
  - destruct (flushing r) as [f|] eqn:Hfl; simpl in He; [|done].
    destruct (current f) eqn:Hc; [done|]. case_decide as Ht; [|done]. simplify_eq.
    unfold fits in Hf. bool_to_prop. pose proof (acc_sum _ _ _ _ Ha). pose proof (acc_recorded _ _ _ _ Ha).
    pose proof (acc_lost _ _ _ _ Ha).
    destruct (pending_end_flush r f k counter Hfl Hc Ht Hn) as [Hp' Hn']; [lia|].
    eapply (accounted_set _ _ _ _ _ r); auto.
  - simplify_eq. eapply (accounted_upd _ _ _ w); try done; simpl.
    + by repeat constructor; rewrite ?held_empty.
    + apply Ha.
    + pose proof (acc_lost _ _ _ _ Ha). lia.
    + unfold pending at 1. simpl. rewrite held_empty. lia.
  - simplify_eq. destruct Ha as [H1 H2 H3 H4]. constructor; simpl; try done.
    + unfold recorded in *. rewrite lookup_delete. by case_decide.
    + case_decide; lia.
    + unfold all_pending in *. simpl. unfold recorded in *. rewrite lookup_delete.
      destruct (decide (rollup_key k = o)) as [<-|Hne];
        [rewrite decide_True by done|rewrite decide_False by congruence]; lia.
Qed.

(** No counter overflows along a run. *)
Fixpoint within (base : Z) (k : usageKey) (counter : Counter) (w : World) (es : list Event) : bool :=
  fits base k counter w &&
  match es with
  | [] => true
  | e :: es' => match step w e with Some w' => within base k counter w' es' | None => true end
  end.

Lemma initial_accounted n m rev k counter :
  0 <= recorded m k counter ->
  accounted (recorded m k counter) k counter (initial n m rev).
Proof.
  intros H. constructor; simpl; try done.
  - apply Forall_replicate. by repeat constructor; rewrite ?held_empty.
  - unfold all_pending. simpl. rewrite fmap_replicate.
    assert (Hz : pending new_replica k counter = 0)
      by (unfold pending; simpl; by rewrite held_empty).
    rewrite Hz. assert (Hs : sumZ (replicate n 0) = 0) by (induction n; simpl; lia). lia.
Qed.

Lemma run_invariant base k counter w es w' :
  world_ok w -> accounted base k counter w -> wf_key k ->
  run w es = Some w' -> within base k counter w es = true ->
  world_ok w' /\ accounted base k counter w' /\ fits base k counter w' = true.
Proof.
  revert w. induction es as [|e es IH]; intros w Hw Ha Hk Hrun Hin; simpl in *; bool_to_prop.
  - by simplify_eq.
  - destruct (step w e) as [w1|] eqn:He; simpl in *; [|done].
    assert (Hf1 : fits base k counter w1 = true) by (destruct es; simpl in *; by bool_to_prop).
    apply (IH w1); [by eapply step_ok|by eapply step_accounted|done..].
Qed.

(** C22: usage is neither lost nor invented. Any number of replicas count
    requests and flush them to the rollups, interleaved in any way, with
    write conflicts, raced creates, failed reads and writes, and answers lost
    after the write. For every key, day and counter, what the rollup records
    plus what the replicas still hold is what it recorded at the start plus the
    requests counted, plus the entries written by a write whose answer was an
    error, less what crashed replicas and deleted rollups took away, as long
    as these sums fit in 64 bits along the run. In particular, without crashes
    and deletions it is never less than the requests made. *)
Theorem usage_conserved (n : nat) (m : gmap (string * string) UsageRollup) (rev : Z)
    (es : list Event) (w : World) (k : usageKey) (counter : Counter)
    (Hstore : store_ok m rev) (Hk : wf_key k) (Hbase : 0 <= recorded m k counter)
    (Hrun : run (initial n m rev) es = Some w)
    (Hfit : within (recorded m k counter) k counter (initial n m rev) es = true) :
  recorded (rollups w) k counter + all_pending w k counter + lost w k counter =
    recorded m k counter + issued w k counter + duplicated w k counter /\
  0 <= recorded (rollups w) k counter /\ 0 <= all_pending w k counter /\ 0 <= lost w k counter.
Proof.
  destruct (run_invariant _ k counter _ _ _ (initial_ok n m rev Hstore)
    (initial_accounted n m rev k counter Hbase) Hk Hrun Hfit) as (_ & [H1 H2 H3 H4] & _).
  split_and!; try done. apply sumZ_fmap_nonneg. eapply Forall_impl; [done|]. intros x. apply nonneg_pending.
Qed.

(** ** Floors. *)

Definition floor_of (r : Replica) (k : usageKey) : Z := default 0 (floors (buffer r) !! k).

(** The replica's floors of this day have not been pruned. *)
Definition unpruned (r : Replica) (k : usageKey) : bool := keep_floor (cutoff r) (k, 0).

Definition floor_ok (rec : Z) (r : Replica) (k : usageKey) : Prop :=
  floor_of r k <= rec /\
  (unpruned r k = true -> own r k <= floor_of r k + pending r k CounterAllowed).

Definition floors_ok (k : usageKey) (w : World) : Prop :=
  rollup_key k ∉ deleted w ->
  Forall (fun r => floor_ok (recorded (rollups w) k CounterAllowed) r k) (replicas w).

Lemma floor_ok_grows rec rec' r k : rec <= rec' -> floor_ok rec r k -> floor_ok rec' r k.
Proof. unfold floor_ok. intros Hle [H1 H2]. split; [lia|done]. Qed.

Lemma floors_upd k w w' i r' :
  floors_ok k w -> replicas w' = <[i := r']> (replicas w) -> deleted w' = deleted w ->
  recorded (rollups w) k CounterAllowed <= recorded (rollups w') k CounterAllowed ->
  (rollup_key k ∉ deleted w -> floor_ok (recorded (rollups w') k CounterAllowed) r' k) ->
  floors_ok k w'.
Proof.
  intros Hw Hr Hd Hle Hr' Hk. rewrite Hd in Hk. rewrite Hr. apply Forall_insert; [|by auto].
  eapply Forall_impl; [by apply Hw|]. intros x. by apply floor_ok_grows.
Qed.

(** A change of the replica that keeps its floors and its counts. *)
Lemma floor_ok_same rec r r' k :
  floor_of r' k = floor_of r k -> own r' k = own r k -> cutoff r' = cutoff r ->
  pending r' k CounterAllowed = pending r k CounterAllowed -> floor_ok rec r k -> floor_ok rec r' k.
Proof. unfold floor_ok, unpruned. intros -> -> -> ->. done. Qed.

Lemma floor_setFloor b k t k' :
  default 0 (floors (setFloor b k t) !! k') =
    if decide (k = k') then Z.max t (default 0 (floors b !! k')) else default 0 (floors b !! k').
Proof.
  unfold setFloor. destruct (Z.ltb_spec (default 0 (floors b !! k)) t); simpl.
  - rewrite lookup_insert. case_decide; subst; simpl; lia.
  - case_decide; subst; lia.
Qed.

Lemma floor_of_entry_done r f k c n k' :
  floor_of (entry_done r f k c n) k' =
    match n with
    | Done t => if decide (k = k') then Z.max t (floor_of r k') else floor_of r k'
    | _ => floor_of r k'
    end.
Proof. destruct n; simpl; [done| |done]. apply floor_setFloor. Qed.

Lemma own_entry_done r f k c n : own (entry_done r f k c n) = own r.
Proof. by destruct n. Qed.

Lemma cutoff_entry_done r f k c n : cutoff (entry_done r f k c n) = cutoff r.
Proof. by destruct n. Qed.

Lemma floor_ok_start_flush rec r now k :
  0 <= rec -> flushing r = None -> floor_ok rec r k -> floor_ok rec (start_flush r now) k.
Proof.
  intros Hrec Hf [H1 H2]. destruct (pending_start_flush r now k CounterAllowed Hf) as [Hp _].
  assert (Hfl : floor_of (start_flush r now) k = floor_of r k \/
    (floor_of (start_flush r now) k = 0 /\ unpruned (start_flush r now) k = false)).
  { unfold floor_of, start_flush, unpruned. simpl. rewrite map_lookup_filter.
    destruct (floors (buffer r) !! k) as [v|] eqn:E; simpl; [|by left].
    destruct (keep_floor (GoStd.Add now (- floorRetention)) (k, v)) eqn:Hk.
    - rewrite option_guard_True by done. by left.
    - rewrite option_guard_False by done. right. split; [done|].
      unfold keep_floor, Before in *. simpl in *. destruct (ParseDate (day k)); [|done].
      bool_to_prop. apply negb_false_iff, Z.ltb_lt. lia. }
  assert (Hun : unpruned (start_flush r now) k = true -> unpruned r k = true).
  { unfold unpruned, keep_floor, Before, start_flush. simpl. destruct (ParseDate (day k)); [|done].
    intros Hb. bool_to_prop. apply negb_true_iff, Z.ltb_ge. lia. }
  split; [destruct Hfl as [->|[-> _]]; done|].
  intros Hu. destruct Hfl as [->|[_ Hfl]]; [|congruence]. rewrite Hp. unfold start_flush at 1. simpl. auto.
Qed.

Lemma write_step_floors base k w i r f k0 c a req fault :
  world_ok w -> accounted base k CounterAllowed w -> wf_key k -> floors_ok k w ->
  replicas w !! i = Some r -> flushing r = Some f -> current f = Some (k0, c, NeedWrite a req) ->
  fits base k CounterAllowed w = true ->
  floors_ok k (write_step w i r f k0 c a req fault).
Proof.
  intros Hw Ha Hk Hfl Hi Hf Hc Hfits. unfold fits in Hfits. bool_to_prop.
  pose proof (world_replica w i r Hw Hi) as Hr. destruct (flush_ok _ _ _ Hr f Hf) as [_ _ _ Hcur].
  destruct (Hcur _ _ _ Hc) as (Hk0 & _ & Hfk & Hreq).
  destruct (accounted_replica _ _ _ _ _ _ Ha Hi) as [Hn Hp].
  pose proof (pending_current r f k0 c _ k CounterAllowed Hf Hc) as HP.
  apply (nonneg_current r f k0 c _ k CounterAllowed Hf Hc) in Hn as [Hrest Hent].
  pose proof (sumZ_nonneg _ Hrest) as Hsum. destruct Ha as [H1 H2 H3 H4] eqn:E.
  pose proof (server_write_entry (rollups w) (revision w) k0 c a req k CounterAllowed Hreq Hk0 Hk) as Hwr.
  assert (Hold : rollup_key k ∉ deleted w -> floor_ok (recorded (rollups w) k CounterAllowed) r k).
  { intros Hd. specialize (Hfl Hd). rewrite Forall_lookup in Hfl. by eapply Hfl. }
  unfold write_step. destruct (server_write (rollups w) (revision w) req) as [m answer].
  eapply (floors_upd k w _ i); simpl; try done.
  - destruct fault, Hwr as [(-> & Hrec & _)|[_ ->]]; try done; rewrite Hrec; lia.
  - intros Hd. specialize (Hold Hd) as [Ho1 Ho2]. unfold floor_ok, unpruned.
    rewrite floor_of_entry_done, own_entry_done, cutoff_entry_done, pending_entry_done by done.
    unfold unpruned in Ho2.
    destruct Hwr as [(-> & Hrec & Htot)|[Hne ->]].
    + specialize (Hrec ltac:(lia)).
      assert (HF : on_write a req WriteFailed = Failed) by (by destruct req).
      assert (HD : on_write a req Written = Done (request_total req)) by (by destruct req).
      destruct fault; rewrite ?HF, ?HD; cbn [is_done];
        try (split; [|intros Hu; specialize (Ho2 Hu)]; lia).
      destruct (decide (k0 = k)) as [->|Hne']; [rewrite Htot|assert (entry_part k0 c k CounterAllowed = 0)
        by (unfold entry_part; by rewrite decide_False)]; (split; [|intros Hu; specialize (Ho2 Hu)]; lia).
    + pose proof (on_write_done a req match fault with NoFault => answer | _ => WriteFailed end) as Hd'.
      rewrite bool_decide_eq_false_2 in Hd' by (by destruct fault).
      assert (Hm : match fault with RequestLost => rollups w | _ => rollups w end = rollups w) by (by destruct fault).
      rewrite Hd', Hm. destruct (on_write _ _ _); try done;
        (split; [|intros Hu; specialize (Ho2 Hu)]; lia).
Qed.

Lemma step_floors base k w e w' :
  world_ok w -> accounted base k CounterAllowed w -> wf_key k -> floors_ok k w ->
  step w e = Some w' -> fits base k CounterAllowed w = true -> fits base k CounterAllowed w' = true ->
  floors_ok k w'.
Proof.
  intros Hw Ha Hk Hfl He Hf Hf'.
  assert (Hold : forall i r, replicas w !! i = Some r -> rollup_key k ∉ deleted w ->
    floor_ok (recorded (rollups w) k CounterAllowed) r k).
  { intros i r Hi Hd. specialize (Hfl Hd). rewrite Forall_lookup in Hfl. by eapply Hfl. }
  unfold fits in Hf, Hf'. bool_to_prop. pose proof (acc_sum _ _ _ _ Ha). pose proof (acc_recorded _ _ _ _ Ha).
  pose proof (acc_lost _ _ _ _ Ha).
  destruct e as [i ns pfx now c'|i now|i k0|i fails|i fault|i|i|o]; simpl in He;
    try (destruct (replicas w !! i) as [r|] eqn:Hi; simpl in He; [|done];
         specialize (Hold i r Hi); destruct (accounted_replica _ _ _ _ _ _ Ha Hi) as [Hn Hp];
         pose proof (world_replica w i r Hw Hi) as Hr).
  - case_match; [|done]. simplify_eq. cbn [issued duplicated] in Hf'. unfold bump in Hf'.
    eapply (floors_upd k w _ i); try done. intros Hd. destruct (Hold Hd) as [Ho1 Ho2].
    set (k0 := UsageKey ns pfx (FormatDate now)) in *.
    destruct (pending_count_request r k0 c' k CounterAllowed Hn) as [Hp' _].
    { repeat case_decide; lia. }
    unfold floor_ok. rewrite Hp'. change (unpruned (count_request r k0 c') k) with (unpruned r k).
    change (floor_of (count_request r k0 c') k) with (floor_of r k). split; [done|]. intros Hu.
    specialize (Ho2 Hu). unfold count_request. cbn [own].
    destruct (decide (c' = CounterAllowed)) as [->|Hne]; repeat case_decide; try done; lia.
  - destruct (flushing r) eqn:Hflg; [done|]. simplify_eq. eapply (floors_upd k w _ i); try done.
    intros Hd. by apply floor_ok_start_flush, Hold.
  - destruct (flushing r) as [f|] eqn:Hflg; simpl in He; [|done].
    destruct (current f) eqn:Hc; [done|]. destruct (todo f !! k0) as [c|] eqn:Ht; simplify_eq/=.
    assert (Hfk : failed f !! k0 = None) by (apply (todo_failed _ _ _ (flush_ok _ _ _ Hr f Hflg)); by eexists).
    set (f' := {| todo := delete k0 (todo f); current := None; failed := failed f |}).
    change (floors_ok k (set_replica w i (entry_done r f' k0 c (Next first_attempt)))).
    eapply (floors_upd k w _ i); try done. intros Hd. eapply floor_ok_same; [..|by apply Hold]; try done.
    rewrite pending_entry_done by done. unfold pending, pending_parts. rewrite Hflg, Hc. simpl.
    unfold entry_part. rewrite held_delete. case_decide; [|lia]. subst.
    rewrite (held_Some _ _ _ CounterAllowed Ht). lia.
  - destruct (flushing r) as [f|] eqn:Hflg; simpl in He; [|done].
    destruct (current f) as [[[k0 c] [a|a req]]|] eqn:Hc; try done. simplify_eq.
    destruct (current_ok _ _ _ (flush_ok _ _ _ Hr f Hflg) _ _ _ Hc) as (_ & _ & Hfk & _).
    eapply (floors_upd k w _ i); try done. intros Hd.
    set (n := on_get k0 c a _). assert (Hnd : is_done n = false).
    { subst n. destruct fails; [done|]. unfold server_read. by destruct (rollups w !! rollup_key k0). }
    eapply floor_ok_same; [..|by apply Hold].
    + rewrite floor_of_entry_done. by destruct n.
    + by rewrite own_entry_done.
    + by rewrite cutoff_entry_done.
    + by rewrite pending_entry_done, Hnd, (pending_current r f k0 c _ k CounterAllowed Hflg Hc).
  - destruct (flushing r) as [f|] eqn:Hflg; simpl in He; [|done].
    destruct (current f) as [[[k0 c] [a|a req]]|] eqn:Hc; try done. simplify_eq.
    eapply write_step_floors; try done. unfold fits. by apply Z.leb_le.
  - destruct (flushing r) as [f|] eqn:Hflg; simpl in He; [|done].
    destruct (current f) eqn:Hc; [done|]. case_decide as Ht; [|done]. simplify_eq.
    destruct (pending_end_flush r f k CounterAllowed Hflg Hc Ht Hn) as [Hp' _]; [lia|].
    eapply (floors_upd k w _ i); try done. intros Hd. eapply floor_ok_same; [..|by apply Hold]; try done.
    unfold floor_of, end_flush. simpl. by case_decide.
  - simplify_eq. by eapply (floors_upd k w _ i).
  - simplify_eq. intros Hd. simpl in Hd. rewrite not_elem_of_cons in Hd. destruct Hd as [Hne Hd].
    simpl. unfold recorded. rewrite lookup_delete_ne by done. by apply Hfl.
Qed.

(** No reachable replica's floors fall behind. *)
Lemma run_floors base k w es w' :
  world_ok w -> accounted base k CounterAllowed w -> wf_key k -> floors_ok k w ->
  run w es = Some w' -> within base k CounterAllowed w es = true -> floors_ok k w'.
Proof.
  revert w. induction es as [|e es IH]; intros w Hw Ha Hk Hfl Hrun Hin; simpl in *; bool_to_prop.
  - by simplify_eq.
  - destruct (step w e) as [w1|] eqn:He; simpl in *; [|done].
    assert (Hf1 : fits base k CounterAllowed w1 = true) by (destruct es; simpl in *; by bool_to_prop).
    apply (IH w1); [by eapply step_ok|by eapply step_accounted|done|by eapply step_floors|done..].
Qed.

Lemma initial_floors n m rev k :
  0 <= recorded m k CounterAllowed -> floors_ok k (initial n m rev).
Proof. intros H _. simpl. by apply Forall_replicate. Qed.

(** A reachable replica with no flush in progress covers what it admitted. *)
Lemma floors_cover n m rev es w k i r :
  store_ok m rev -> wf_key k -> 0 <= recorded m k CounterAllowed ->
  run (initial n m rev) es = Some w ->
  within (recorded m k CounterAllowed) k CounterAllowed (initial n m rev) es = true ->
  rollup_key k ∉ deleted w -> replicas w !! i = Some r -> flushing r = None ->
  unpruned r k = true ->
  own r k <= floor_of r k + held (counts (buffer r)) k CounterAllowed.
Proof.
  intros Hm Hk Hb Hrun Hin Hd Hi Hf Hu.
  pose proof (run_floors _ k _ _ _ (initial_ok n m rev Hm) (initial_accounted n m rev k _ Hb) Hk
    (initial_floors n m rev k Hb) Hrun Hin Hd) as Hfl.
  rewrite Forall_lookup in Hfl. destruct (Hfl i r Hi) as [_ Ho]. specialize (Ho Hu).
  unfold pending, pending_parts in Ho. rewrite Hf in Ho. simpl in Ho. lia.
Qed.

(** ** A concrete run. *)

Module UsageDemo.

Definition noon : Time := Date 2026 7 8 + 12 * Hour.

Definition key : usageKey := UsageKey "shop" "ab12cd34" "2026-07-08".

(** A rollup with 40 admitted requests. *)
Definition store : gmap (string * string) UsageRollup :=
  {[ rollup_key key := with_version 7 (new_rollup key (UsageCounts 40 0 0)) ]}.

Definition request (i : nat) : Event := Request i "shop" "ab12cd34" noon CounterAllowed.

(** Two replicas flush at once: the second one meets a conflict, retries, and
    loses the answer of its write. *)
Definition events : list Event :=
  [request 0; request 0; request 1; StartFlush 0 noon; StartFlush 1 noon; Pick 0 key; Pick 1 key;
   DoGet 0 false; DoGet 1 false; DoWrite 0 NoFault; DoWrite 1 NoFault; DoGet 1 false; DoWrite 1 AnswerLost;
   EndFlush 0; EndFlush 1].

Definition world : World := default (initial 2 store 8) (run (initial 2 store 8) events).

End UsageDemo.

Lemma usage_conserved_witness :
  recorded (rollups UsageDemo.world) UsageDemo.key CounterAllowed = 43 /\
  all_pending UsageDemo.world UsageDemo.key CounterAllowed = 1 /\
  recorded (rollups UsageDemo.world) UsageDemo.key CounterAllowed +
    all_pending UsageDemo.world UsageDemo.key CounterAllowed +
    lost UsageDemo.world UsageDemo.key CounterAllowed =
  recorded UsageDemo.store UsageDemo.key CounterAllowed +
    issued UsageDemo.world UsageDemo.key CounterAllowed +
    duplicated UsageDemo.world UsageDemo.key CounterAllowed.
Proof.
  split; [vm_compute; reflexivity|]. split; [vm_compute; reflexivity|].
  eapply (usage_conserved 2 UsageDemo.store 8 UsageDemo.events UsageDemo.world UsageDemo.key CounterAllowed).
  - apply map_Forall_singleton. split; vm_compute; reflexivity.
  - split; [|exists UsageDemo.noon; split]; vm_compute; reflexivity.
  - vm_compute. discriminate.
  - vm_compute. reflexivity.
  - vm_compute. reflexivity.
Defined.
