(* ===== verification/Authz.v ===== *)
(** * The authorizer, [src/authz/authorizer.go] and the read side of
    [src/authz/freshness.go].

    One request is decided against the informer cache ([Reader]), the freshness
    clock, the token buckets and the usage buffer. The limiter of
    [golang.org/x/time/rate] and the cached client are parameters. *)

From Stdlib Require Import Ascii.
From stdpp Require Import base tactics numbers countable list option strings gmap.
From S2P Require Import Prelude GoStd Sha256 Calendar Usage.

#[local] Open Scope kipper_scope.

(** [strings.SplitN(s, sep, n)] for a one-byte separator and [n > 0]: at most
    [n] parts, the last one unsplit. *)
Fixpoint SplitN (s : string) (sep : Ascii.ascii) (n : nat) : list string :=
  match s with
  | EmptyString => [EmptyString]
  | String c s' =>
      match n with
      | O | 1%nat => [s]
      | S n' =>
          if Ascii.eqb c sep then EmptyString :: SplitN s' sep n'
          else match SplitN s' sep n with
               | [] => [String c EmptyString]
               | w :: ws => String c w :: ws
               end
      end
  end.

(** ** The custom resources, [console-api/api/v1alpha1/apigateway_types.go]. *)

Record PlanQuota : Type := { Requests : Z; Period : string }.

Record UsagePlan : Type := { PlanName : string; Rate : Z; Burst : Z; Quota : option PlanQuota }.

Record ApiKey : Type := {
  KeyNamespace : string;
  DisplayName : string;
  Plan : string;
  Enabled : option bool;
  Apps : list string;
  Prefix : string;
  HashSHA256 : string;
  ExpiresAt : option Time
}.

Definition IsEnabled (k : ApiKey) : bool := default true (Enabled k).

Definition IsExpired (k : ApiKey) (now : Time) : bool :=
  match ExpiresAt k with Some t => After now t | None => false end.

(** ** Freshness. *)

Record Freshness : Type := { synced : bool; lastFresh : Time; staleBound : Duration }.

Definition Fresh (f : Freshness) (now : Time) : bool :=
  if negb (synced f) then false
  else negb (IsZero (lastFresh f)) && (Sub now (lastFresh f) <? staleBound f).

(** Nanoseconds since the last successful probe, -1 before the first. *)
Definition Age (f : Freshness) (now : Time) : Z :=
  if IsZero (lastFresh f) then -1 else Sub now (lastFresh f).

(** ** The calendar periods of a quota. *)

Definition periodStart (now : Time) (period : string) : Time :=
  if (period =? "week")%string then
    let daysSinceMonday := (Weekday now + 6) mod 7 in
    Date (Year now) (Month now) (DayOf now - daysSinceMonday)
  else if (period =? "month")%string then Date (Year now) (Month now) 1
  else Date (Year now) (Month now) (DayOf now).

Definition periodNext (now : Time) (period : string) : Time :=
  let start := periodStart now period in
  if (period =? "week")%string then AddDate start 0 0 7
  else if (period =? "month")%string then AddDate start 0 1 0
  else AddDate start 0 0 1.

(** ** The presented key. *)

(** The lookup handle of a key of the form [kip_<prefix>_<secret>]. *)
Definition keyPrefix (rawKey : string) : option string :=
  match SplitN rawKey "_"%char 3 with
  | [kip; pfx; secret] =>
      if (kip =? "kip")%string && negb (pfx =? "")%string && negb (secret =? "")%string
      then Some pfx else None
  | _ => None
  end.

(** [subtle.ConstantTimeCompare] of two byte slices of the same length. *)
Definition hashMatches (rawKey storedHex : string) : bool :=
  let sum := Sum256 rawKey in
  match hex_decode storedHex with
  | Some stored => (length stored =? length sum)%nat && bool_decide (sum = stored)
  | None => false
  end.

Definition keyCoversApp (key : ApiKey) (app : string) : bool :=
  match Apps key with
  | [] => true
  | apps => existsb (fun a => (a =? app)%string) apps
  end.

(** ** The cached client. *)

(** What the informer cache answers to the three reads of a request; [None] is
    an error. *)
Record Reader : Type := {
  ListKeys : string -> string -> option (list ApiKey);
  GetPlan : string -> string -> option UsagePlan;
  ListRollups : string -> string -> option (list UsageRollup)
}.

(** A list restricted to a namespace and an index value returns only such
    objects. *)
Record ReaderLaws (rd : Reader) : Prop := {
  keys_indexed : forall ns pfx l,
    ListKeys rd ns pfx = Some l -> Forall (fun k => KeyNamespace k = ns /\ Prefix k = pfx) l;
  rollups_indexed : forall ns pfx l,
    ListRollups rd ns pfx = Some l -> Forall (fun r => Namespace r = ns /\ KeyPrefix r = pfx) l
}.

(** ** Usage in the period. *)

(** The loop over the cached rollups: [floors] loses the days it meets. *)
Fixpoint rollup_loop (start : Time) (items : list UsageRollup) (floors : gmap string Z) (total : Z) :
    Z * gmap string Z :=
  match items with
  | [] => (total, floors)
  | r :: rest =>
      match ParseDate (RollupDay r) with
      | None => rollup_loop start rest floors total
      | Some d =>
          if Before d start then rollup_loop start rest floors total
          else
            let '(used, floors') :=
              match floors !! RollupDay r with
              | Some floor =>
                  (if Allowed r <? floor then floor else Allowed r, delete (RollupDay r) floors)
              | None => (Allowed r, floors)
              end in
            rollup_loop start rest floors' (total +! used)
      end
  end.

(** What [periodUsage] returns for the cached rollups, the floors and the
    unflushed count. *)
Definition sum_period (start : Time) (items : list UsageRollup) (floors : gmap string Z) (unflushed : Z) : Z :=
  let '(total, floors) := rollup_loop start items floors 0 in
  foldr (fun df t => t +! df.2) total (map_to_list floors) +! unflushed.

Definition periodUsage (rd : Reader) (usage : UsageBuffer) (ns pfx period : string) (now : Time) :
    option Z :=
  items ← ListRollups rd ns pfx;
  let start := periodStart now period in
  Some (sum_period start items (AllowedFloors usage ns pfx start) (UnflushedAllowed usage ns pfx start)).

(** ** Decisions. *)

Inductive DecisionT : Type :=
| DecisionAllow
| DecisionDenyKey
| DecisionDenyRate
| DecisionDenyQuota
| DecisionUnavailable.

#[export] Instance DecisionT_eq_dec : EqDecision DecisionT.
Proof. solve_decision. Defined.

Record Result : Type := {
  Decision : DecisionT;
  RetryAfter : Duration;
  ResultPrefix : string;
  KeyName : string
}.

Definition deny (d : DecisionT) : Result :=
  {| Decision := d; RetryAfter := 0; ResultPrefix := ""; KeyName := "" |}.

(** The clock readings of one request: in [Fresh], in [Authorize], and in the
    limiter. *)
Record Clock : Type := { at_fresh : Time; at_check : Time; at_bucket : Time }.

Section Authorizer.

(** The token bucket of [golang.org/x/time/rate]. *)
Context {Limiter : Type}.

Variable NewLimiter : Z -> Z -> Limiter.

Variable Allow : Time -> Limiter -> Limiter * bool.

Record bucket : Type := { limiter : Limiter; rate : Z; burst : Z }.

Record Authorizer : Type := { usage : UsageBuffer; buckets : gmap string bucket }.

Definition NewAuthorizer (b : UsageBuffer) : Authorizer := {| usage := b; buckets := ∅ |}.

(** The bucket of a key, rebuilt when the plan's numbers changed. *)
Definition current_bucket (a : Authorizer) (key : string) (planRate planBurst : Z) : bucket :=
  match buckets a !! key with
  | Some b =>
      if negb (rate b =? planRate) || negb (burst b =? planBurst)
      then {| limiter := NewLimiter planRate planBurst; rate := planRate; burst := planBurst |}
      else b
  | None => {| limiter := NewLimiter planRate planBurst; rate := planRate; burst := planBurst |}
  end.

Definition takeToken (a : Authorizer) (key : string) (planRate planBurst : Z) (now : Time) :
    Authorizer * bool :=
  let b := current_bucket a key planRate planBurst in
  let '(l, ok) := Allow now (limiter b) in
  ({| usage := usage a;
      buckets := <[key := {| limiter := l; rate := rate b; burst := burst b |}]> (buckets a) |}, ok).

Definition add_usage (a : Authorizer) (ns pfx d : string) (counter : Counter) : Authorizer :=
  {| usage := Usage.Add (usage a) ns pfx d counter; buckets := buckets a |}.

(** The rate check that ends [Authorize]. *)
Definition authorize_rate (a : Authorizer) (ns pfx : string) (key : ApiKey) (plan : UsagePlan)
    (clock : Clock) : Authorizer * Result :=
  let d := FormatDate (at_check clock) in
  let '(a, ok) := takeToken a (String.append ns (String.append "/" pfx)) (Rate plan) (Burst plan)
                    (at_bucket clock) in
  if negb ok then
    (add_usage a ns pfx d CounterDeniedRate,
     {| Decision := DecisionDenyRate; RetryAfter := Second; ResultPrefix := ""; KeyName := "" |})
  else
    (add_usage a ns pfx d CounterAllowed,
     {| Decision := DecisionAllow; RetryAfter := 0; ResultPrefix := pfx; KeyName := DisplayName key |}).

(** The quota check before it. *)
Definition authorize_quota (a : Authorizer) (rd : Reader) (ns pfx : string) (key : ApiKey)
    (plan : UsagePlan) (clock : Clock) : Authorizer * Result :=
  let now := at_check clock in
  match Quota plan with
  | Some q =>
      match periodUsage rd (usage a) ns pfx (Period q) now with
      | None => (a, deny DecisionUnavailable)
      | Some used =>
          if Requests q <=? used then
            (add_usage a ns pfx (FormatDate now) CounterDeniedQuota,
             {| Decision := DecisionDenyQuota; RetryAfter := Sub (periodNext now (Period q)) now;
                ResultPrefix := ""; KeyName := "" |})
          else authorize_rate a ns pfx key plan clock
      end
  | None => authorize_rate a ns pfx key plan clock
  end.

(** One request with nothing in between: what [AuthzSteps.AuthorizeSteps] does
    by itself. *)
Definition Authorize (a : Authorizer) (f : Freshness) (rd : Reader) (clock : Clock)
    (ns app rawKey : string) : Authorizer * Result :=
  if negb (Fresh f (at_fresh clock)) then (a, deny DecisionUnavailable)
  else
  match keyPrefix rawKey with
  | None => (a, deny DecisionDenyKey)
  | Some pfx =>
      match ListKeys rd ns pfx with
      | None | Some [] => (a, deny DecisionDenyKey)
      | Some [key] =>
          if negb (hashMatches rawKey (HashSHA256 key)) then (a, deny DecisionDenyKey)
          else if negb (IsEnabled key) || IsExpired key (at_check clock) || negb (keyCoversApp key app)
          then (a, deny DecisionDenyKey)
          else
          match GetPlan rd ns (Plan key) with
          | None => (a, deny DecisionDenyKey)
          | Some plan => authorize_quota a rd ns pfx key plan clock
          end
      | Some (_ :: _ :: _) => (a, deny DecisionDenyKey)
      end
  end.

End Authorizer.

Arguments bucket : clear implicits.
Arguments Authorizer : clear implicits.
