(* ===== verification/AuthzSteps.v ===== *)
(** * A request of the authorizer among others, [src/authz/authorizer.go]

    [Authorize] takes a lock for each thing it asks: the floors, the unflushed
    counts, the map of buckets, a bucket's limiter, the counter. Here it is the
    program of these calls, between which other requests, flushes and other
    replicas act; each read of the cache may show another state of it. *)

From Stdlib Require Import Ascii.
From stdpp Require Import base tactics numbers countable list option strings gmap.
From S2P Require Import Prelude Calls GoStd Sha256 Calendar Usage Authz.

(** The calls of a request: reads of the cache, the clock, critical sections. *)
Inductive acall : Type -> Type :=
| IsFresh : acall bool
| CachedKeys (ns pfx : string) : acall (option (list ApiKey))
| ClockUTC : acall Time
| CachedPlan (ns name : string) : acall (option UsagePlan)
| CachedRollups (ns pfx : string) : acall (option (list UsageRollup))
| ReadFloors (ns pfx : string) (start : Time) : acall (gmap string Z)
| ReadUnflushed (ns pfx : string) (start : Time) : acall Z
| TakeBucket (key : string) (planRate planBurst : Z) : acall nat
| AllowNow (b : nat) : acall bool
| AddUsage (ns pfx : string) (now : Time) (counter : Counter) : acall unit.

(** ** The program. *)

Definition quota_denied (now : Time) (period : string) : Result :=
  {| Decision := DecisionDenyQuota; RetryAfter := Sub (periodNext now period) now; ResultPrefix := ""; KeyName := "" |}.

Definition rate_denied : Result :=
  {| Decision := DecisionDenyRate; RetryAfter := Second; ResultPrefix := ""; KeyName := "" |}.

Definition allow (pfx : string) (key : ApiKey) : Result :=
  {| Decision := DecisionAllow; RetryAfter := 0; ResultPrefix := pfx; KeyName := DisplayName key |}.

Definition periodUsageSteps (ns pfx period : string) (now : Time) : prog acall (option Z) :=
  cached ← call (CachedRollups ns pfx);
  match cached with
  | None => mret None
  | Some items =>
      let start := periodStart now period in
      floors ← call (ReadFloors ns pfx start);
      unflushed ← call (ReadUnflushed ns pfx start);
      mret (Some (sum_period start items floors unflushed))
  end.

Definition takeTokenSteps (key : string) (planRate planBurst : Z) : prog acall bool :=
  b ← call (TakeBucket key planRate planBurst); call (AllowNow b).

(** From the rate check on. *)
Definition rate_steps (ns pfx : string) (key : ApiKey) (plan : UsagePlan) (now : Time) : prog acall Result :=
  ok ← takeTokenSteps (String.append ns (String.append "/" pfx)) (Rate plan) (Burst plan);
  if negb ok then _ ← call (AddUsage ns pfx now CounterDeniedRate); mret rate_denied
  else _ ← call (AddUsage ns pfx now CounterAllowed); mret (allow pfx key).

(** From the quota check on. *)
Definition quota_steps (ns pfx : string) (key : ApiKey) (plan : UsagePlan) (now : Time) : prog acall Result :=
  match Quota plan with
  | None => rate_steps ns pfx key plan now
  | Some q =>
      used ← periodUsageSteps ns pfx (Period q) now;
      match used with
      | None => mret (deny DecisionUnavailable)
      | Some used =>
          if Requests q <=? used then _ ← call (AddUsage ns pfx now CounterDeniedQuota); mret (quota_denied now (Period q))
          else rate_steps ns pfx key plan now
      end
  end.

Definition AuthorizeSteps (ns app rawKey : string) : prog acall Result :=
  fresh ← call IsFresh;
  if negb fresh then mret (deny DecisionUnavailable)
  else
    match keyPrefix rawKey with
    | None => mret (deny DecisionDenyKey)
    | Some pfx =>
        keys ← call (CachedKeys ns pfx);
        match keys with
        | Some [key] =>
            if negb (hashMatches rawKey (HashSHA256 key)) then mret (deny DecisionDenyKey)
            else
              now ← call ClockUTC;
              if negb (IsEnabled key) || IsExpired key now || negb (keyCoversApp key app) then mret (deny DecisionDenyKey)
              else
                plan ← call (CachedPlan ns (Plan key));
                match plan with
                | None => mret (deny DecisionDenyKey)
                | Some plan => quota_steps ns pfx key plan now
                end
        | _ => mret (deny DecisionDenyKey)
        end
    end.

(** ** Where it runs. *)

(** The replicas and the server, the events so far, and the buckets of this
    replica: the object each key has, with the numbers it was made with. *)
Record Live (L : Type) := mkLive { world : World; past : list Event; table : gmap string (nat * Z * Z); limiters : list L }.

Arguments mkLive {L}.
Arguments world {L}.
Arguments past {L}.
Arguments table {L}.
Arguments limiters {L}.

(** What a call sees of the cache, the freshness and the clocks. *)
Record Seen := mkSeen { cache : Reader; freshness : Freshness; clock : Clock }.

Section Live.
Context {L : Type}.
Variable NewLimiter : Z -> Z -> L.
Variable Allow : Time -> L -> L * bool.
(** The replica. *)
Variable i : nat.

(** An event that is not possible does not happen. *)
Definition happens (e : Event) (s : Live L) : Live L :=
  match step (world s) e with
  | Some w => mkLive w (past s ++ [e]) (table s) (limiters s)
  | None => s
  end.

Definition buffer_at (s : Live L) : UsageBuffer := default NewUsageBuffer (buffer <$> replicas (world s) !! i).

(** A bucket is replaced when the plan's numbers changed. *)
Definition take_bucket (key : string) (planRate planBurst : Z) (s : Live L) : Live L * nat :=
  let new := length (limiters s) in
  let made := (mkLive (world s) (past s) (<[key := (new, planRate, planBurst)]> (table s)) (limiters s ++ [NewLimiter planRate planBurst]), new) in
  match table s !! key with
  | Some (b, r, c) => if negb (r =? planRate) || negb (c =? planBurst) then made else (s, b)
  | None => made
  end.

Definition allow_now (now : Time) (b : nat) (s : Live L) : Live L * bool :=
  match limiters s !! b with
  | Some l => let '(l', ok) := Allow now l in (mkLive (world s) (past s) (table s) (<[b := l']> (limiters s)), ok)
  | None => (s, false)
  end.

Definition handle (R : Type) (e : acall R) (v : Seen) (s : Live L) : Live L * R :=
  match e with
  | IsFresh => (s, Fresh (freshness v) (at_fresh (clock v)))
  | CachedKeys ns pfx => (s, ListKeys (cache v) ns pfx)
  | ClockUTC => (s, at_check (clock v))
  | CachedPlan ns name => (s, GetPlan (cache v) ns name)
  | CachedRollups ns pfx => (s, ListRollups (cache v) ns pfx)
  | ReadFloors ns pfx start => (s, AllowedFloors (buffer_at s) ns pfx start)
  | ReadUnflushed ns pfx start => (s, UnflushedAllowed (buffer_at s) ns pfx start)
  | TakeBucket key planRate planBurst => take_bucket key planRate planBurst s
  | AllowNow b => allow_now (at_bucket (clock v)) b s
  | AddUsage ns pfx now counter => (happens (Request i ns pfx now counter) s, tt)
  end.

(** ** By itself it is [Authorize]. *)

(** Every key has a bucket of its own. *)
Record tidy (s : Live L) : Prop := {
  tidy_there : forall k b r c, table s !! k = Some (b, r, c) -> is_Some (limiters s !! b);
  tidy_own : forall k k' b r c r' c', table s !! k = Some (b, r, c) -> table s !! k' = Some (b, r', c') -> k = k'
}.

(** The authorizer of the sequential definition is this state. *)
Record stands_for (s : Live L) (a : Authorizer L) : Prop := {
  same_usage : usage a = buffer_at s;
  same_buckets : forall k, buckets a !! k =
    p ← table s !! k; l ← limiters s !! p.1.1; Some {| limiter := l; rate := p.1.2; burst := p.2 |}
}.

Lemma take_bucket_spec key planRate planBurst s a :
  tidy s -> stands_for s a ->
  let '(s', b) := take_bucket key planRate planBurst s in
  let c := current_bucket NewLimiter a key planRate planBurst in
  tidy s' /\ world s' = world s /\ past s' = past s /\ limiters s' !! b = Some (limiter c) /\ table s' !! key = Some (b, rate c, burst c) /\
  stands_for s' {| usage := usage a; buckets := <[key := c]> (buckets a) |}.
Proof.
  intros [Ht Ho] [Hu Hb]. set (c := current_bucket _ _ _ _ _).
  assert (Hmade : c = {| limiter := NewLimiter planRate planBurst; rate := planRate; burst := planBurst |} ->
    let s' := mkLive (world s) (past s) (<[key := (length (limiters s), planRate, planBurst)]> (table s)) (limiters s ++ [NewLimiter planRate planBurst]) in
    tidy s' /\ limiters s' !! length (limiters s) = Some (limiter c) /\ table s' !! key = Some (length (limiters s), rate c, burst c) /\
    stands_for s' {| usage := usage a; buckets := <[key := c]> (buckets a) |}).
  { intros -> s'. assert (Hlt : forall k b r d, table s !! k = Some (b, r, d) -> (b < length (limiters s))%nat).
    { intros k b r d Hk. destruct (Ht _ _ _ _ Hk) as [l Hl]. by apply lookup_lt_Some in Hl. }
    split_and!; [split|by apply list_lookup_middle|by apply lookup_insert_eq|split; [done|]]; cbn.
    - intros k b r d [[_ [= <- _ _]]|[_ Hk]]%lookup_insert_Some; [eexists; by apply list_lookup_middle|].
      destruct (Ht _ _ _ _ Hk) as [l Hl]. exists l. by apply lookup_app_l_Some.
    - intros k k' b r d r' d' [[<- [= <- _ _]]|[Hne Hk]]%lookup_insert_Some [[<- He]|[Hne' Hk']]%lookup_insert_Some; [done| | |by eapply Ho].
      + apply Hlt in Hk'. lia.
      + injection He as <- _ _. apply Hlt in Hk. lia.
    - intros k. destruct (decide (key = k)) as [<-|Hne]; [rewrite !lookup_insert_eq; cbn; by rewrite list_lookup_middle|].
      rewrite !lookup_insert_ne by done. rewrite Hb. destruct (table s !! k) as [[[b r] d]|] eqn:Hk; [|done]. cbn.
      destruct (Ht _ _ _ _ Hk) as [l Hl]. by rewrite (lookup_app_l_Some _ _ _ _ Hl), Hl. }
  unfold take_bucket. unfold c, current_bucket in Hmade |- *. rewrite Hb in *.
  destruct (table s !! key) as [[[b r] d]|] eqn:Hk; cbn in *; [|destruct (Hmade eq_refl) as (? & ? & ? & ?); by split_and!].
  destruct (Ht _ _ _ _ Hk) as [l Hl]. rewrite Hl in *. cbn in *.
  destruct (negb (r =? planRate) || negb (d =? planBurst)); [destruct (Hmade eq_refl) as (? & ? & ? & ?); by split_and!|].
  split; [by split|]. split_and!; try done. split; [done|]. intros k. cbn.
  destruct (decide (key = k)) as [<-|Hne]; [by rewrite lookup_insert_eq, Hk; cbn; rewrite Hl|by rewrite lookup_insert_ne, Hb].
Qed.

Lemma takeToken_steps key planRate planBurst s a (v : Seen) :
  tidy s -> stands_for s a ->
  let '(s', ok) := alone handle v (takeTokenSteps key planRate planBurst) s in
  let '(a', ok') := takeToken NewLimiter Allow a key planRate planBurst (at_bucket (clock v)) in
  ok = ok' /\ tidy s' /\ stands_for s' a' /\ world s' = world s /\ past s' = past s.
Proof.
  intros Ht Hs. unfold takeTokenSteps, takeToken. cbn [mbind prog_MBind prog_bind call alone handle].
  pose proof (take_bucket_spec key planRate planBurst s a Ht Hs) as H. destruct (take_bucket _ _ _ s) as [s1 b]. cbv zeta in H.
  set (c := current_bucket _ _ _ _ _) in *. destruct H as ([Ht1 Ho1] & Hw & Hp & Hl & Hk & [Hu Hb]). cbn [mret prog_MRet alone handle].
  unfold allow_now. rewrite Hl. destruct (Allow _ (limiter c)) as [l' ok]. split; [done|]. split; [|split; [|by split]].
  - split; [|exact Ho1]. cbn. intros k b' r d Hk'. destruct (decide (b' = b)) as [->|Hne].
    + rewrite list_lookup_insert_eq by (by eapply lookup_lt_Some). done.
    + rewrite list_lookup_insert_ne by done. by eapply Ht1.
  - split; [cbn in *; by rewrite Hu; unfold buffer_at; rewrite ?Hw|]. intros k. cbn [buckets table limiters].
    cbn [buckets] in Hb. specialize (Hb k). destruct (decide (key = k)) as [<-|Hne].
    + rewrite lookup_insert_eq, Hk. cbn. rewrite list_lookup_insert_eq by (by eapply lookup_lt_Some). done.
    + rewrite lookup_insert_ne in Hb |- * by done. rewrite Hb. destruct (table s1 !! k) as [[[b' r] d]|] eqn:Hk'; [|done]. cbn.
      rewrite list_lookup_insert_ne; [done|]. intros ->. apply Hne. by eapply Ho1.
Qed.

Lemma count_steps ns pfx (v : Seen) (now : Time) counter s a :
  stands_for s a -> is_Some (replicas (world s) !! i) -> valid_prefix pfx = true -> printable now = true ->
  tidy s ->
  let s' := happens (Request i ns pfx now counter) s in
  tidy s' /\ stands_for s' {| usage := Usage.Add (usage a) ns pfx (FormatDate now) counter; buckets := buckets a |}.
Proof.
  intros [Hu Hb] [r Hr] Hp Hn [Ht Ho]. unfold happens, step. rewrite Hr. cbn [mbind option_bind]. rewrite Hp, Hn. cbn [andb].
  split; [by split|]. split; [|exact Hb]. unfold buffer_at in *. cbn. rewrite Hr in Hu. cbn in Hu.
  rewrite list_lookup_insert_eq by (by eapply lookup_lt_Some). cbn. by rewrite Hu.
Qed.

Lemma rate_alone ns pfx key plan (v : Seen) s a :
  tidy s -> stands_for s a -> is_Some (replicas (world s) !! i) -> valid_prefix pfx = true -> printable (at_check (clock v)) = true ->
  let '(s', res) := alone handle v (rate_steps ns pfx key plan (at_check (clock v))) s in
  let '(a', res') := authorize_rate NewLimiter Allow a ns pfx key plan (clock v) in
  res = res' /\ tidy s' /\ stands_for s' a'.
Proof.
  intros Ht Hs Hi Hp Hn. unfold rate_steps, authorize_rate. rewrite alone_bind.
  set (k := String.append ns (String.append "/" pfx)). pose proof (takeToken_steps k (Rate plan) (Burst plan) s a v Ht Hs) as H.
  destruct (alone _ v (takeTokenSteps _ _ _) s) as [s1 ok]. destruct (takeToken _ _ a k _ _ _) as [a1 ok1]. cbn [fst snd].
  destruct H as (-> & Ht1 & Hs1 & Hw & _). rewrite <- Hw in Hi.
  destruct ok1; cbn [negb]; cbn [mbind prog_MBind prog_bind call mret prog_MRet alone handle].
  - destruct (count_steps ns pfx v (at_check (clock v)) CounterAllowed s1 a1 Hs1 Hi Hp Hn Ht1). by split_and!.
  - destruct (count_steps ns pfx v (at_check (clock v)) CounterDeniedRate s1 a1 Hs1 Hi Hp Hn Ht1). by split_and!.
Qed.

(** A request whose calls come together is the sequential [Authorize]. *)
Theorem authorize_alone (v : Seen) s a ns app rawKey :
  tidy s -> stands_for s a -> is_Some (replicas (world s) !! i) ->
  (forall pfx, keyPrefix rawKey = Some pfx -> valid_prefix pfx = true) -> printable (at_check (clock v)) = true ->
  let '(s', res) := alone handle v (AuthorizeSteps ns app rawKey) s in
  let '(a', res') := Authorize NewLimiter Allow a (freshness v) (cache v) (clock v) ns app rawKey in
  res = res' /\ tidy s' /\ stands_for s' a'.
Proof.
  intros Ht Hs Hi Hp Hn. unfold AuthorizeSteps, Authorize. cbn [mbind prog_MBind prog_bind call alone handle].
  destruct (Fresh (freshness v) (at_fresh (clock v))); cbn [negb]; [|done]. destruct (keyPrefix rawKey) as [pfx|]; [|done].
  specialize (Hp pfx eq_refl). cbn [prog_bind call alone handle]. destruct (ListKeys (cache v) ns pfx) as [[|key [|? ?]]|]; try done.
  destruct (negb (hashMatches _ _)); [done|]. cbn [prog_bind call alone handle]. destruct (negb (IsEnabled key) || _ || _); [done|].
  cbn [prog_bind call alone handle]. destruct (GetPlan (cache v) ns (Plan key)) as [plan|]; [|done].
  unfold quota_steps, authorize_quota. destruct (Quota plan) as [q|]; [|by apply rate_alone].
  unfold periodUsageSteps, periodUsage. cbn [mbind prog_MBind prog_bind call alone handle].
  destruct (ListRollups (cache v) ns pfx) as [items|]; cbn [option_bind mbind prog_bind call mret prog_MRet alone handle]; [|done].
  destruct Hs as [Hu Hb]. rewrite <- Hu. destruct (Requests q <=? _); [|by apply rate_alone; [|split|..]].
  cbn [prog_bind call mret prog_MRet alone handle].
  destruct (count_steps ns pfx v (at_check (clock v)) CounterDeniedQuota s a) as [H1 H2]; [by split|done..|]. by split_and!.
Qed.

(** ** Among events. *)

(** What the log keeps of a call: what it read, and the state it met. *)
Inductive Entry :=
| ReadClock (now : Time) | ReadPlan (plan : option UsagePlan) | ReadRollups (items : option (list UsageRollup))
| MetFloors (s : Live L) | MetUnflushed (s : Live L) | Counted (s : Live L) (counter : Counter) | Quiet.

Definition note (R : Type) (e : acall R) : Live L -> R -> Entry :=
  match e in acall R return Live L -> R -> Entry with
  | ClockUTC => fun _ now => ReadClock now
  | CachedPlan _ _ => fun _ plan => ReadPlan plan
  | CachedRollups _ _ => fun _ items => ReadRollups items
  | ReadFloors _ _ _ => fun s _ => MetFloors s
  | ReadUnflushed _ _ _ => fun s _ => MetUnflushed s
  | AddUsage _ _ _ counter => fun s _ => Counted s counter
  | _ => fun _ _ => Quiet
  end.

(** The plan the request was given. *)
Fixpoint plan_read (log : list Entry) : option UsagePlan :=
  match log with ReadPlan plan :: _ => plan | _ :: log' => plan_read log' | [] => None end.

(** [s'] is [s] after some events. *)
Definition later (s s' : Live L) : Prop := exists es, past s' = (past s ++ es)%list /\ run (world s) es = Some (world s').

#[export] Instance later_preorder : PreOrder later.
Proof.
  split; [intros s; exists []; by rewrite app_nil_r|]. intros s1 s2 s3 (es & Hp & Hr) (es' & Hp' & Hr'). exists (es ++ es')%list.
  rewrite Hp', Hp, app_assoc. split; [done|]. clear Hp Hp'. revert Hr. generalize (world s1). induction es as [|e es IH]; cbn; intros w; [by intros [= ->]|].
  destruct (step w e); cbn; [apply IH|done].
Qed.

Lemma happens_later e s : later s (happens e s).
Proof. unfold happens. destruct (step (world s) e) as [w|] eqn:He; [|done]. exists [e]. split; [done|]. cbn. by rewrite He. Qed.

Lemma happened_later es s : later s (happened happens s es).
Proof. revert s. induction es as [|e es IH]; intros s; [done|]. etrans; [apply happens_later|apply IH]. Qed.

Lemma handle_later R (e : acall R) v s : later s (handle R e v s).1.
Proof.
  destruct e; cbn [handle fst]; try done; [| |apply happens_later].
  - unfold take_bucket. repeat case_match; try done; exists []; by rewrite app_nil_r.
  - unfold allow_now. destruct (limiters s !! b); [|done]. destruct (Allow _ _); exists []; by rewrite app_nil_r.
Qed.

Section Attended.
Variable fine : Seen.

Abbreviation attend := (Calls.attend handle happens fine note).

(** The next call of a program: what it met comes later, what is left later
    still. *)
Lemma attend_next {R A : Type} (e : acall R) (k : R -> prog acall A) s sc log s' rest a :
  attend (Call e k) s sc = (log, (s', rest), a) ->
  exists met v s1 log', later s met /\ later met s1 /\ log = note R e met (handle R e v met).2 :: log' /\
    s1 = (handle R e v met).1 /\ attend (k (handle R e v met).2) s1 (tail sc) = (log', (s', rest), a).
Proof.
  rewrite attend_call. cbv zeta. set (met := happened happens s (upcoming fine sc).1). set (v := (upcoming fine sc).2).
  pose proof (handle_later R e v met) as Hl. destruct (handle R e v met) as [s1 r] eqn:Hh.
  destruct (Calls.attend _ _ _ _ (k r) s1 (tail sc)) as [[log' [s2 sc2]] b] eqn:Ha. intros [= <- <- <- <-].
  exists met, v, s1, log'. rewrite Hh. split_and!; try done. apply happened_later.
Qed.

(** A request admitted under a quota, as its log shows it: it read the floors in
    [s1] and the unflushed counts in [s2], and was counted in [s3]. *)
Record checked (ns pfx : string) (log : list Entry) (now : Time) (items : list UsageRollup) (q : PlanQuota) (s1 s2 s3 : Live L) : Prop := {
  checked_log : exists plan, Quota plan = Some q /\
    log = [Quiet; Quiet; ReadClock now; ReadPlan (Some plan); ReadRollups (Some items); MetFloors s1; MetUnflushed s2; Quiet; Quiet; Counted s3 CounterAllowed];
  checked_sum : sum_period (periodStart now (Period q)) items (AllowedFloors (buffer_at s1) ns pfx (periodStart now (Period q)))
    (UnflushedAllowed (buffer_at s2) ns pfx (periodStart now (Period q))) < Requests q
}.

Lemma rate_admitted ns pfx key plan now s sc log rest res :
  attend (rate_steps ns pfx key plan now) s sc = (log, rest, res) -> Decision res = DecisionAllow ->
  exists s3, later s s3 /\ log = [Quiet; Quiet; Counted s3 CounterAllowed].
Proof.
  unfold rate_steps, takeTokenSteps. destruct rest as [s' sc']. cbn [mbind prog_MBind prog_bind call].
  intros (m1 & v1 & t1 & l1 & Hm1 & Ht1 & -> & -> & H)%attend_next. cbn [prog_bind] in H. revert H.
  intros (m2 & v2 & t2 & l2 & Hm2 & Ht2 & -> & -> & H)%attend_next. cbn [prog_bind] in H. revert H.
  set (ok := (handle bool _ v2 m2).2). destruct ok; cbn [negb prog_bind mbind prog_MBind call];
    intros (m3 & v3 & t3 & l3 & Hm3 & Ht3 & -> & -> & H)%attend_next; cbn in H; injection H as <- <- <- <-; [|done].
  intros _. exists m3. split; [|done]. by rewrite Hm1, Ht1, Hm2, Ht2, Hm3.
Qed.

Lemma quota_admitted ns pfx key plan now q s sc log rest res :
  Quota plan = Some q -> attend (quota_steps ns pfx key plan now) s sc = (log, rest, res) -> Decision res = DecisionAllow ->
  exists items s1 s2 s3, later s s1 /\ later s1 s2 /\ later s2 s3 /\
    log = [ReadRollups (Some items); MetFloors s1; MetUnflushed s2; Quiet; Quiet; Counted s3 CounterAllowed] /\
    sum_period (periodStart now (Period q)) items (AllowedFloors (buffer_at s1) ns pfx (periodStart now (Period q)))
      (UnflushedAllowed (buffer_at s2) ns pfx (periodStart now (Period q))) < Requests q.
Proof.
  intros Hq. unfold quota_steps. rewrite Hq. unfold periodUsageSteps. destruct rest as [s' sc']. cbn [mbind prog_MBind prog_bind call].
  intros (m1 & v1 & t1 & l1 & Hm1 & Ht1 & -> & -> & H)%attend_next. revert H. cbn [handle snd fst note].
  destruct (ListRollups (cache v1) ns pfx) as [items|]; cbn [prog_bind call]; [|intros [= <- <- <- <-]; done].
  intros (m2 & v2 & t2 & l2 & Hm2 & Ht2 & -> & -> & H)%attend_next. revert H. cbn [prog_bind call].
  intros (m3 & v3 & t3 & l3 & Hm3 & Ht3 & -> & -> & H)%attend_next. revert H. cbn [prog_bind call mret prog_MRet handle snd fst note].
  destruct (Z.leb_spec (Requests q) (sum_period (periodStart now (Period q)) items (AllowedFloors (buffer_at m2) ns pfx (periodStart now (Period q)))
    (UnflushedAllowed (buffer_at m3) ns pfx (periodStart now (Period q))))) as [Hle|Hlt]; cbn [prog_bind call].
  { intros (m4 & v4 & t4 & l4 & _ & _ & -> & -> & H)%attend_next. cbn in H. injection H as <- <- <- <-. done. }
  intros H Ha. destruct (rate_admitted _ _ _ _ _ _ _ _ _ _ H Ha) as (s3 & Hs3 & ->). exists items, m2, m3, s3.
  split_and!; try done. by rewrite Hm1, <- Hm2.
Qed.

(** An admitted request whose plan has a quota was checked against it. *)
Lemma admitted_checked ns app rawKey plan q s sc log rest res :
  attend (AuthorizeSteps ns app rawKey) s sc = (log, rest, res) -> Decision res = DecisionAllow ->
  plan_read log = Some plan -> Quota plan = Some q ->
  exists pfx now items s1 s2 s3, keyPrefix rawKey = Some pfx /\ checked ns pfx log now items q s1 s2 s3 /\
    later s s1 /\ later s1 s2 /\ later s2 s3.
Proof.
  unfold AuthorizeSteps. destruct rest as [s' sc']. cbn [mbind prog_MBind prog_bind call].
  intros (m1 & v1 & t1 & l1 & Hm1 & Ht1 & -> & -> & H)%attend_next. revert H. cbn [handle snd fst note].
  destruct (Fresh _ _); cbn [negb]; [|intros [= <- <- <- <-]; done]. destruct (keyPrefix rawKey) as [pfx|]; [|intros [= <- <- <- <-]; done].
  cbn [prog_bind call]. intros (m2 & v2 & t2 & l2 & Hm2 & Ht2 & -> & -> & H)%attend_next. revert H. cbn [handle snd fst note].
  destruct (ListKeys _ _ _) as [[|key [|? ?]]|]; try (intros [= <- <- <- <-]; done).
  destruct (negb (hashMatches _ _)); [intros [= <- <- <- <-]; done|]. cbn [prog_bind call].
  intros (m3 & v3 & t3 & l3 & Hm3 & Ht3 & -> & -> & H)%attend_next. revert H. cbn [handle snd fst note].
  destruct (negb (IsEnabled key) || _ || _); [intros [= <- <- <- <-]; done|]. cbn [prog_bind call].
  intros (m4 & v4 & t4 & l4 & Hm4 & Ht4 & -> & -> & H)%attend_next. revert H. cbn [handle snd fst note plan_read].
  destruct (GetPlan _ _ _) as [plan'|]; [|intros [= <- <- <- <-]; done]. intros H Ha [= ->] Hq.
  destruct (quota_admitted _ _ _ _ _ _ _ _ _ _ _ Hq H Ha) as (items & s1 & s2 & s3 & H1 & H2 & H3 & -> & Hsum).
  exists pfx, (at_check (clock v3)), items, s1, s2, s3. split_and!; try done; [split; [by eexists|done]|].
  etrans; [exact Hm1|]. etrans; [exact Ht1|]. etrans; [exact Hm2|]. etrans; [exact Ht2|]. etrans; [exact Hm3|]. etrans; [exact Ht3|].
  etrans; [exact Hm4|]. etrans; [exact Ht4|]. exact H1.
Qed.
End Attended.
End Live.
