(* ===== verification/AuthzProps.v ===== *)
(** * Properties of the authorizer: quota periods, admission, quota counting. *)

From Stdlib Require Import Ascii.
From stdpp Require Import base tactics numbers countable list option strings gmap.
From S2P Require Import Prelude GoStd Sha256 Calendar Usage UsageProps Authz.

(** ** Periods. *)

Lemma Day_mod (n : Z) : (Day * n) mod Day = 0.
Proof. rewrite Z.mul_comm. apply Z.mod_mul. pose proof Day_pos. lia. Qed.

Lemma days_since_mul (n : Z) : days_since (Day * n) = n.
Proof. rewrite <- (Z.add_0_r (Day * n)). apply days_since_Date. pose proof Day_pos. lia. Qed.

Lemma within_days (t a b : Z) : Day * a <= t < Day * b <-> a <= days_since t < b.
Proof. pose proof (day_start t). pose proof Day_pos. nia. Qed.

(** The day number at which a period starts, and the one of the next period. *)
Definition period_first (now : Time) (period : string) : Z :=
  let d := days_since now in
  if (period =? "week")%string then d - d mod 7
  else if (period =? "month")%string then day_number (Year now) (Month now) 1 else d.

Definition period_after (now : Time) (period : string) : Z :=
  let d := days_since now in
  if (period =? "week")%string then d - d mod 7 + 7
  else if (period =? "month")%string then year_days (Year now) + month_days (Year now) (Month now + 1)
  else d + 1.

Lemma periodStart_days (now : Time) (period : string) :
  periodStart now period = Day * period_first now period.
Proof.
  unfold periodStart, period_first. destruct (period =? "week")%string.
  - rewrite <- Z.add_opp_r, Date_shift_day, Date_civil.
    replace ((Weekday now + 6) mod 7) with (days_since now mod 7); [lia|].
    unfold Weekday. Z.to_euclidean_division_equations; lia.
  - destruct (period =? "month")%string; [|apply Date_civil].
    apply Date_in_range, Month_range.
Qed.

Lemma AddDate_days (n k : Z) : AddDate (Day * n) 0 0 k = Day * (n + k).
Proof.
  unfold AddDate. rewrite !Z.add_0_r, Date_shift_day, Date_civil, Day_mod, days_since_mul. lia.
Qed.

Lemma AddDate_month (y m : Z) :
  1 <= m <= 12 -> AddDate (Date y m 1) 0 1 0 = Day * (year_days y + month_days y (m + 1)).
Proof.
  intros Hm. pose proof (month_days_bounds y m Hm).
  destruct (Date_fields y m 1 Hm) as (HY & HM & HD); [lia|].
  unfold AddDate. rewrite HY, HM, HD, !Z.add_0_r, (Date_in_range y m 1 Hm), Day_mod.
  destruct (decide (m = 12)) as [->|Hne].
  - unfold Date, day_number. change ((12 + 1 - 1) / 12) with 1. change ((12 + 1 - 1) mod 12) with 0.
    rewrite leap_year_days. unfold month_days, month_start. simpl.
    destruct (leap y), (leap (y + 1)); simpl; lia.
  - rewrite Date_in_range by lia. unfold day_number. lia.
Qed.

Lemma periodNext_days (now : Time) (period : string) :
  periodNext now period = Day * period_after now period.
Proof.
  unfold periodNext, period_after. rewrite periodStart_days. unfold period_first.
  destruct (period =? "week")%string; [by rewrite AddDate_days|].
  destruct (period =? "month")%string; [|by rewrite AddDate_days].
  rewrite <- Date_in_range by apply Month_range. apply AddDate_month, Month_range.
Qed.

Lemma period_first_after (now : Time) (period : string) :
  period_first now period <= days_since now < period_after now period /\
  days_since now <= period_first now period + 30.
Proof.
  unfold period_first, period_after.
  destruct (period =? "week")%string; [Z.to_euclidean_division_equations; lia|].
  destruct (period =? "month")%string; [|lia].
  pose proof (civil_bounds now). pose proof (month_days_bounds (Year now) (Month now) (Month_range now)).
  unfold day_number. lia.
Qed.

(** Every instant of a period has the same period. *)
Lemma period_stable (now now' : Time) (period : string) :
  period_first now period <= days_since now' < period_after now period ->
  period_first now' period = period_first now period /\
  period_after now' period = period_after now period.
Proof.
  unfold period_first, period_after. destruct (period =? "week")%string.
  - Z.to_euclidean_division_equations; lia.
  - destruct (period =? "month")%string; [|lia]. intros H. pose proof (Month_range now) as Hm.
    pose proof (month_days_bounds (Year now) (Month now) Hm) as Hb. unfold day_number in *.
    assert (HY : Year now' = Year now).
    { unfold Year at 1. apply year_of_unique. rewrite leap_year_days. lia. }
    assert (HM : Month now' = Month now).
    { unfold Month at 1. rewrite HY. apply month_of_unique; [done|]. lia. }
    by rewrite HY, HM.
Qed.

(** The day after the last of month [m] is the first of the next month. *)
Lemma next_month_fields (y m : Z) :
  1 <= m <= 12 ->
  let t := Day * (year_days y + month_days y (m + 1)) in
  DayOf t = 1 /\ 12 * Year t + Month t = 12 * y + m + 1.
Proof.
  intros Hm t. destruct (decide (m = 12)) as [->|Hne].
  - assert (Ht : t = Date (y + 1) 1 1).
    { subst t. rewrite Date_in_range by lia. unfold day_number. rewrite leap_year_days.
      unfold month_days, month_start. simpl. destruct (leap y), (leap (y + 1)); simpl; lia. }
    pose proof (month_days_bounds (y + 1) 1 ltac:(lia)).
    destruct (Date_fields (y + 1) 1 1) as (HY & HM & HD); [lia|lia|].
    rewrite Ht, HY, HM, HD. lia.
  - assert (Ht : t = Date y (m + 1) 1).
    { subst t. rewrite Date_in_range by lia. unfold day_number. lia. }
    pose proof (month_days_bounds y (m + 1) ltac:(lia)).
    destruct (Date_fields y (m + 1) 1) as (HY & HM & HD); [lia|lia|].
    rewrite Ht, HY, HM, HD. lia.
Qed.

(** The quota window. A request's period starts at or before it and the
    next one starts after it, both at midnight UTC; the week starts on a Monday
    and lasts seven days, the month starts on its first day and the next one on
    the first of the next month, and every other period is the day. Every
    instant between the two bounds has the same window, so the windows
    partition time and a denial's Retry-After ends exactly where the next
    window begins. *)
Theorem period_contains_now (now : Time) (period : string) :
  let start := periodStart now period in
  let next := periodNext now period in
  start <= now < next /\ start mod Day = 0 /\ next mod Day = 0 /\
  (if (period =? "week")%string then Weekday start = 1 /\ next = start + 7 * Day
   else if (period =? "month")%string then
     Year start = Year now /\ Month start = Month now /\ DayOf start = 1 /\ DayOf next = 1 /\
     12 * Year next + Month next = 12 * Year start + Month start + 1
   else next = start + Day /\ days_since start = days_since now) /\
  (forall now', start <= now' < next -> periodStart now' period = start /\ periodNext now' period = next).
Proof.
  cbv zeta. pose proof (period_first_after now period) as Hfa.
  split; [rewrite periodStart_days, periodNext_days; apply within_days; lia|].
  rewrite periodStart_days, periodNext_days, !Day_mod. split; [done|]. split; [done|]. split.
  - unfold period_first, period_after. destruct (period =? "week")%string.
    { unfold Weekday. rewrite days_since_mul. split; [Z.to_euclidean_division_equations; lia|lia]. }
    destruct (period =? "month")%string; [|rewrite days_since_mul; split; [lia|done]].
    pose proof (Month_range now) as Hm. pose proof (month_days_bounds (Year now) (Month now) Hm).
    rewrite <- Date_in_range by done.
    destruct (Date_fields (Year now) (Month now) 1 Hm) as (HY & HM & HD); [lia|].
    rewrite HY, HM, HD. pose proof (next_month_fields (Year now) (Month now) Hm). naive_solver.
  - intros now'. rewrite periodStart_days, periodNext_days, within_days. intros H.
    destruct (period_stable now now' period H) as [-> ->]. done.
Qed.

(** ** Admission. *)

(** A cache that answers from lists of objects. *)
Definition CacheReader (keys : list ApiKey) (plans : list (string * UsagePlan))
    (items : list UsageRollup) : Reader :=
  {| ListKeys := fun ns pfx => Some (filter (fun k => KeyNamespace k = ns /\ Prefix k = pfx) keys);
     GetPlan := fun ns name =>
       snd <$> list_find (fun np => np.1 = ns /\ PlanName np.2 = name) plans ≫= fun p => Some p.2;
     ListRollups := fun ns pfx =>
       Some (filter (fun r => Namespace r = ns /\ KeyPrefix r = pfx) items) |}.

Lemma CacheReader_laws keys plans items : ReaderLaws (CacheReader keys plans items).
Proof.
  constructor; intros ns pfx l [= <-]; apply Forall_forall; intros x Hx;
    by apply list_elem_of_filter in Hx as [? _].
Qed.

Lemma hashMatches_spec (rawKey storedHex : string) :
  hashMatches rawKey storedHex = true <-> hex_decode storedHex = Some (Sum256 rawKey).
Proof.
  unfold hashMatches. destruct (hex_decode storedHex) as [l|]; [|done].
  rewrite andb_true_iff, Nat.eqb_eq, bool_decide_eq_true. split; [intros [_ <-]; done|intros [= ->]; done].
Qed.

Lemma keyCoversApp_spec (key : ApiKey) (app : string) :
  keyCoversApp key app = true <-> Apps key = [] \/ app ∈ Apps key.
Proof.
  unfold keyCoversApp. destruct (Apps key) as [|a apps]; [tauto|].
  rewrite existsb_exists. setoid_rewrite String.eqb_eq. setoid_rewrite <- list_elem_of_In.
  naive_solver.
Qed.

Section Admission.

Context {Limiter : Type}.

Variable NewLimiter : Z -> Z -> Limiter.

Variable Allow : Time -> Limiter -> Limiter * bool.

Abbreviation authorize := (Authorize NewLimiter Allow).

Abbreviation token := (takeToken NewLimiter Allow).

(** The conditions under which a request is admitted. *)
Definition admissible (a : Authorizer Limiter) (f : Freshness) (rd : Reader) (clock : Clock)
    (ns app rawKey : string) (pfx : string) (key : ApiKey) (plan : UsagePlan) : Prop :=
  Fresh f (at_fresh clock) = true /\
  keyPrefix rawKey = Some pfx /\ ListKeys rd ns pfx = Some [key] /\
  hex_decode (HashSHA256 key) = Some (Sum256 rawKey) /\
  IsEnabled key = true /\ IsExpired key (at_check clock) = false /\
  (Apps key = [] \/ app ∈ Apps key) /\
  GetPlan rd ns (Plan key) = Some plan /\
  (forall q, Quota plan = Some q -> exists used,
     periodUsage rd (usage a) ns pfx (Period q) (at_check clock) = Some used /\ used < Requests q) /\
  (token a (String.append ns (String.append "/" pfx)) (Rate plan) (Burst plan) (at_bucket clock)).2 = true.

Lemma authorize_rate_allow a ns pfx key plan clock :
  Decision (authorize_rate NewLimiter Allow a ns pfx key plan clock).2 = DecisionAllow <->
  (token a (String.append ns (String.append "/" pfx)) (Rate plan) (Burst plan) (at_bucket clock)).2 = true.
Proof. unfold authorize_rate. destruct (token _ _ _ _ _) as [a' []]; simpl; done. Qed.

Lemma authorize_quota_allow a rd ns pfx key plan clock :
  Decision (authorize_quota NewLimiter Allow a rd ns pfx key plan clock).2 = DecisionAllow <->
  (forall q, Quota plan = Some q -> exists used,
     periodUsage rd (usage a) ns pfx (Period q) (at_check clock) = Some used /\ used < Requests q) /\
  (token a (String.append ns (String.append "/" pfx)) (Rate plan) (Burst plan) (at_bucket clock)).2 = true.
Proof.
  rewrite <- (authorize_rate_allow a ns pfx key plan clock). unfold authorize_quota.
  destruct (Quota plan) as [q|]; [|naive_solver].
  destruct (periodUsage rd (usage a) ns pfx (Period q) (at_check clock)) as [used|] eqn:Hp.
  - destruct (Z.leb_spec (Requests q) used); simpl.
    + split; [done|]. intros [Hq _]. destruct (Hq q eq_refl) as (u & Hu & ?). rewrite Hp in Hu. simplify_eq. lia.
    + split; [|naive_solver]. intros ?. split; [|done]. intros q' [= <-]. eauto.
  - simpl. split; [done|]. intros [Hq _]. destruct (Hq q eq_refl) as (? & ? & _). congruence.
Qed.

Lemma Authorize_allow a f rd clock ns app rawKey :
  Decision (authorize a f rd clock ns app rawKey).2 = DecisionAllow <->
  exists pfx key plan, admissible a f rd clock ns app rawKey pfx key plan.
Proof.
  unfold Authorize, admissible. split.
  - destruct (Fresh f (at_fresh clock)); simpl; [|done].
    destruct (keyPrefix rawKey) as [pfx|] eqn:?; [|done].
    destruct (ListKeys rd ns pfx) as [[|key [|? ?]]|] eqn:?; try done.
    destruct (hashMatches rawKey (HashSHA256 key)) eqn:Hh; simpl; [|done]. apply hashMatches_spec in Hh.
    destruct (IsEnabled key) eqn:?; simpl; [|done]. destruct (IsExpired key _) eqn:?; simpl; [done|].
    destruct (keyCoversApp key app) eqn:Hc; simpl; [|done]. apply keyCoversApp_spec in Hc.
    destruct (GetPlan rd ns (Plan key)) as [plan|] eqn:?; [|done].
    rewrite authorize_quota_allow. intros [? ?]. exists pfx, key, plan. split_and!; auto.
  - intros (pfx & key & plan & -> & -> & -> & Hh & -> & -> & Hc & -> & Hrest).
    apply hashMatches_spec in Hh. apply keyCoversApp_spec in Hc. rewrite Hh, Hc. simpl.
    by apply authorize_quota_allow.
Qed.

(** The counter a decision bumps. *)
Definition counted (d : DecisionT) : option Counter :=
  match d with
  | DecisionAllow => Some CounterAllowed
  | DecisionDenyRate => Some CounterDeniedRate
  | DecisionDenyQuota => Some CounterDeniedQuota
  | DecisionDenyKey | DecisionUnavailable => None
  end.

Lemma takeToken_usage a key planRate planBurst now :
  usage (token a key planRate planBurst now).1 = usage a.
Proof. unfold takeToken. by destruct (Allow now _). Qed.

Lemma Authorize_counts a f rd clock ns app rawKey :
  let '(a', res) := authorize a f rd clock ns app rawKey in
  match counted (Decision res) with
  | Some counter => exists pfx, keyPrefix rawKey = Some pfx /\
      usage a' = Usage.Add (usage a) ns pfx (FormatDate (at_check clock)) counter /\
      (counter = CounterAllowed -> ResultPrefix res = pfx /\ RetryAfter res = 0)
  | None => a' = a /\ RetryAfter res = 0
  end.
Proof.
  unfold Authorize. destruct (Fresh f (at_fresh clock)); simpl; [|done].
  destruct (keyPrefix rawKey) as [pfx|]; [|done].
  destruct (ListKeys rd ns pfx) as [[|key [|? ?]]|]; try done.
  destruct (hashMatches rawKey (HashSHA256 key)); simpl; [|done].
  destruct (negb (IsEnabled key) || _ || _); [done|].
  destruct (GetPlan rd ns (Plan key)) as [plan|]; [|done].
  assert (Hrate : let '(a', res) := authorize_rate NewLimiter Allow a ns pfx key plan clock in
    match counted (Decision res) with
    | Some counter => exists pfx', Some pfx = Some pfx' /\
        usage a' = Usage.Add (usage a) ns pfx' (FormatDate (at_check clock)) counter /\
        (counter = CounterAllowed -> ResultPrefix res = pfx' /\ RetryAfter res = 0)
    | None => a' = a /\ RetryAfter res = 0
    end).
  { unfold authorize_rate.
    pose proof (takeToken_usage a (String.append ns (String.append "/" pfx)) (Rate plan) (Burst plan)
      (at_bucket clock)) as Hu.
    destruct (token _ _ _ _ _) as [a' []]; simpl in *; exists pfx; by rewrite Hu. }
  unfold authorize_quota. destruct (Quota plan) as [q|]; [|done].
  destruct (periodUsage _ _ _ _ _ _) as [used|]; [|done].
  destruct (Requests q <=? used); [|done]. simpl. by exists pfx.
Qed.

(** C21: admission fails closed and is exact. A request is admitted exactly when
    the replica's cache is fresh, the presented key has the issued form, its
    prefix names exactly one ApiKey of the namespace, the stored digest is the
    SHA-256 of the presented key, that key is enabled, unexpired and covers the
    app, its plan exists, the usage of the quota period could be read and is
    below the quota, and the token bucket gave a token. An admission, a rate
    denial and a quota denial each add one to exactly one counter of that key
    and of today; an invalid key and a gate that cannot decide change nothing
    at all, so they spend neither quota nor tokens. *)
Theorem authorize_exact (a : Authorizer Limiter) (f : Freshness) (rd : Reader) (clock : Clock)
    (ns app rawKey : string) (Hrd : ReaderLaws rd) :
  let '(a', res) := authorize a f rd clock ns app rawKey in
  (Decision res = DecisionAllow <->
     exists pfx key plan, admissible a f rd clock ns app rawKey pfx key plan /\
       KeyNamespace key = ns /\ Prefix key = pfx) /\
  match counted (Decision res) with
  | Some counter => exists pfx, keyPrefix rawKey = Some pfx /\
      usage a' = Usage.Add (usage a) ns pfx (FormatDate (at_check clock)) counter /\
      (counter = CounterAllowed -> ResultPrefix res = pfx /\ RetryAfter res = 0)
  | None => a' = a /\ RetryAfter res = 0
  end.
Proof.
  pose proof (Authorize_allow a f rd clock ns app rawKey) as HA.
  pose proof (Authorize_counts a f rd clock ns app rawKey) as HC.
  destruct (authorize a f rd clock ns app rawKey) as [a' res]. split; [|exact HC]. simpl in HA. rewrite HA.
  split; intros (pfx & key & plan & H); exists pfx, key, plan; [|by destruct H].
  split; [done|]. destruct H as (_ & _ & Hl & _). pose proof (keys_indexed _ Hrd _ _ _ Hl) as Hk.
  by rewrite Forall_singleton in Hk.
Qed.

End Admission.

(** ** Witness. *)

Module AdmissionDemo.

Definition Tokens (planRate planBurst : Z) : Z := planBurst.

Definition Take (now : Time) (tokens : Z) : Z * bool :=
  if 0 <? tokens then (tokens - 1, true) else (tokens, false).

Definition raw : string := "kip_ab12cd34_s3cr3t_with_underscores".

Definition key : ApiKey :=
  {| KeyNamespace := "shop"; DisplayName := "partner"; Plan := "basic"; Enabled := None; Apps := ["api"]%string;
     Prefix := "ab12cd34"; HashSHA256 := sha256_hex raw; ExpiresAt := None |}.

Definition plan : UsagePlan := {| PlanName := "basic"; Rate := 10; Burst := 1; Quota := None |}.

Definition cache : Reader := CacheReader [key] [("shop"%string, plan)] [].

Definition now : Time := Date 2026 7 8 + 12 * Hour.

Definition fresh : Freshness := {| synced := true; lastFresh := now; staleBound := 90 * Second |}.

Definition clock : Clock := {| at_fresh := now + Second; at_check := now + Second; at_bucket := now + Second |}.

Definition fresh_authorizer : Authorizer Z := NewAuthorizer NewUsageBuffer.

Definition first : Authorizer Z * Result :=
  Authorize Tokens Take fresh_authorizer fresh cache clock "shop" "api" raw.

Definition second : Authorizer Z * Result :=
  Authorize Tokens Take first.1 fresh cache clock "shop" "api" raw.

End AdmissionDemo.

(** A burst of one: the first request is admitted, the second is over the rate. *)
Lemma authorize_exact_witness :
  Decision AdmissionDemo.first.2 = DecisionAllow /\ Decision AdmissionDemo.second.2 = DecisionDenyRate /\
  (exists pfx key plan,
    admissible AdmissionDemo.Tokens AdmissionDemo.Take AdmissionDemo.fresh_authorizer AdmissionDemo.fresh
      AdmissionDemo.cache AdmissionDemo.clock "shop" "api" AdmissionDemo.raw pfx key plan /\
    KeyNamespace key = "shop"%string /\ Prefix key = pfx).
Proof.
  split; [vm_compute; reflexivity|]. split; [vm_compute; reflexivity|].
  pose proof (authorize_exact AdmissionDemo.Tokens AdmissionDemo.Take AdmissionDemo.fresh_authorizer
    AdmissionDemo.fresh AdmissionDemo.cache AdmissionDemo.clock "shop" "api" AdmissionDemo.raw
    (CacheReader_laws _ _ _)) as H.
  fold AdmissionDemo.first in H. destruct AdmissionDemo.first as [a' res] eqn:E.
  apply H. apply (f_equal (fun p => Decision p.2)) in E.
  change (Decision (a', res).2 = DecisionAllow). rewrite <- E. vm_compute. reflexivity.
Defined.

(** Noon of Wednesday, July 8, 2026: the week began on Monday, July 6. *)
Lemma period_contains_now_example :
  FormatDate (periodStart AdmissionDemo.now "week") = "2026-07-06"%string /\
  FormatDate (periodNext AdmissionDemo.now "week") = "2026-07-13"%string /\
  FormatDate (periodStart AdmissionDemo.now "month") = "2026-07-01"%string /\
  FormatDate (periodNext (Date 2026 12 31) "month") = "2027-01-01"%string /\
  FormatDate (periodStart (Date 2024 2 29) "day") = "2024-02-29"%string.
Proof. vm_compute. split_and!; reflexivity. Qed.
