(* ===== verification/AuthzQuota.v ===== *)
(** * What the quota check counts.

    The usage a request is checked against covers everything the replica itself
    had admitted in the period when it read the unflushed counts, whatever the
    cache shows, unless a flush is in progress; what is admitted after that
    read, and what a flush in progress holds, it does not cover. *)

From Stdlib Require Import Ascii.
From stdpp Require Import base tactics numbers countable list option strings gmap.
From S2P Require Import Prelude Calls GoStd Sha256 Calendar Usage UsageProps Authz AuthzProps AuthzSteps.

Lemma triple_eta {A B C : Type} (x : A * B * C) : x = (x.1.1, x.1.2, x.2).
Proof. by destruct x as [[? ?] ?]. Qed.

Lemma sumZ_fmap_le {A : Type} (f g : A -> Z) (l : list A) :
  Forall (fun x => f x <= g x) l -> sumZ (f <$> l) <= sumZ (g <$> l).
Proof. induction 1; csimpl; lia. Qed.

(** ** Sums over maps. *)

Definition msum (m : gmap string Z) : Z := sumZ (map_to_list m).*2.

Definition map_nonneg {K : Type} `{Countable K} (m : gmap K Z) : Prop := map_Forall (fun _ v => 0 <= v) m.

Lemma msum_insert m k v : m !! k = None -> msum (<[k := v]> m) = v + msum m.
Proof.
  intros H. unfold msum. rewrite (sumZ_perm _ (((k, v) :: map_to_list m).*2)); [done|].
  apply fmap_Permutation. by apply map_to_list_insert.
Qed.

Lemma msum_delete m k v : m !! k = Some v -> msum m = v + msum (delete k m).
Proof.
  intros H. rewrite <- (insert_id m k v) at 1 by done. rewrite <- insert_delete_eq.
  apply msum_insert, lookup_delete_eq.
Qed.

Lemma msum_nonneg m : map_nonneg m -> 0 <= msum m.
Proof.
  intros H. apply sumZ_nonneg. rewrite Forall_fmap, Forall_forall. intros [k v] Hkv.
  apply elem_of_map_to_list in Hkv. by eapply H.
Qed.

(** The entries of some distinct days are no more than all of them. *)
Lemma msum_ge m ds :
  map_nonneg m -> NoDup ds -> sumZ ((fun d => default 0 (m !! d)) <$> ds) <= msum m.
Proof.
  intros Hm Hds. revert m Hm. induction Hds as [|d ds Hd Hds IH]; intros m Hm; [by apply msum_nonneg|].
  csimpl. destruct (m !! d) as [v|] eqn:Hv; simpl; [|by apply IH].
  rewrite (msum_delete m d v Hv).
  assert (Heq : (fun d => default 0 (m !! d)) <$> ds = (fun d' => default 0 (delete d m !! d')) <$> ds).
  { apply list_fmap_ext. intros i x Hx. rewrite lookup_delete_ne; [done|]. intros ->.
    apply Hd. by eapply list_elem_of_lookup_2. }
  rewrite Heq. assert (Hdel : map_nonneg (delete d m)) by (by apply map_Forall_delete).
  specialize (IH _ Hdel). lia.
Qed.

Lemma wrap_fold (l : list (string * Z)) (total : Z) :
  0 <= total -> Forall (fun df => 0 <= df.2) l -> total + sumZ l.*2 <= int64_max ->
  foldr (fun df t => wrap64 (t + df.2)) total l = total + sumZ l.*2.
Proof.
  intros Ht Hl. induction Hl as [|x l Hx Hl IH]; csimpl; [lia|]. intros Hmax.
  assert (Hs : 0 <= sumZ l.*2) by (apply sumZ_nonneg; by rewrite Forall_fmap).
  rewrite IH, wrap64_small by lia. lia.
Qed.

(** ** The entries of one key in the window. *)

Section Window.

Context (ns pfx : string) (start : Time).

Definition day_map (l : list (usageKey * Z)) : gmap string Z :=
  foldr (fun kf out => if in_window ns pfx start kf.1 then <[day kf.1 := kf.2]> out else out) ∅ l.

Lemma in_window_key k : in_window ns pfx start k = true -> k = UsageKey ns pfx (day k).
Proof. unfold in_window. intros H. bool_to_prop. subst. by destruct k. Qed.

Lemma day_map_lookup l d v :
  NoDup l.*1 ->
  day_map l !! d = Some v <->
  (UsageKey ns pfx d, v) ∈ l /\ in_window ns pfx start (UsageKey ns pfx d) = true.
Proof.
  induction l as [|[k f] l IH]; csimpl; intros Hnd; [split; [done|intros [H _]; by apply elem_of_nil in H]|].
  apply NoDup_cons in Hnd as [Hk Hnd]. specialize (IH Hnd). rewrite elem_of_cons.
  destruct (in_window ns pfx start k) eqn:Hw; simpl.
  - pose proof (in_window_key k Hw) as Hkd. rewrite lookup_insert. case_decide as Hd.
    + subst d. rewrite <- Hkd. split; [intros [= ->]; auto|].
      intros [[H|H] _]; [congruence|]. exfalso. apply Hk. by apply list_elem_of_fmap_2' with (x := (k, v)).
    + rewrite IH. split; [tauto|]. intros [[H|H] ?]; [|done]. injection H as <- <-. done.
  - rewrite IH. split; [tauto|]. intros [[H|H] Hw']; [|done]. injection H as <- <-. congruence.
Qed.

Lemma day_map_fresh k l :
  in_window ns pfx start k = true -> NoDup (k :: l.*1) -> day_map l !! day k = None.
Proof.
  intros Hw Hnd. apply NoDup_cons in Hnd as [Hk Hnd]. destruct (day_map l !! day k) as [v|] eqn:E; [|done].
  apply day_map_lookup in E as [E _]; [|done]. rewrite <- in_window_key in E by done.
  exfalso. apply Hk. by apply list_elem_of_fmap_2' with (x := (k, v)).
Qed.

Lemma day_map_nonneg l : NoDup l.*1 -> Forall (fun kf => 0 <= kf.2) l -> map_nonneg (day_map l).
Proof.
  intros Hnd Hl d v Hv. apply day_map_lookup in Hv as [Hv _]; [|done].
  rewrite Forall_forall in Hl. apply (Hl _ Hv).
Qed.

(** The wrapping sum of the window is the sum of its days. *)
Lemma window_sum l :
  NoDup l.*1 -> Forall (fun kf => 0 <= kf.2) l -> sumZ l.*2 <= int64_max ->
  foldr (fun kf total => if in_window ns pfx start kf.1 then wrap64 (total + kf.2) else total) 0 l =
    msum (day_map l) /\ 0 <= msum (day_map l) <= sumZ l.*2.
Proof.
  induction l as [|[k f] l IH]; csimpl; intros Hnd Hl Hmax; [done|].
  pose proof Hl as Hl'. apply Forall_cons in Hl' as [Hf Hl']. pose proof Hnd as Hnd'.
  apply NoDup_cons in Hnd' as [_ Hnd']. simpl in Hf.
  destruct (IH Hnd' Hl') as [IH1 IH2]; [lia|].
  destruct (in_window ns pfx start k) eqn:Hw; [|simpl; lia]. simpl.
  rewrite msum_insert by (by apply day_map_fresh). rewrite IH1, wrap64_small by lia. lia.
Qed.

End Window.

(** ** The buffer's two contributions. *)

Definition allowed_counts (b : UsageBuffer) : gmap usageKey Z := allowed <$> counts b.

Definition total_of {K : Type} `{Countable K} (m : gmap K Z) : Z := sumZ (map_to_list m).*2.

Lemma map_list_facts {K : Type} `{Countable K} (m : gmap K Z) :
  map_nonneg m -> NoDup (map_to_list m).*1 /\ Forall (fun kf => 0 <= kf.2) (map_to_list m).
Proof.
  intros Hm. split; [apply NoDup_fst_map_to_list|]. rewrite Forall_forall. intros [k v] Hkv.
  apply elem_of_map_to_list in Hkv. by eapply Hm.
Qed.

Lemma UnflushedAllowed_sum b ns pfx start :
  map_nonneg (allowed_counts b) -> total_of (allowed_counts b) <= int64_max ->
  let m := day_map ns pfx start (map_to_list (allowed_counts b)) in
  UnflushedAllowed b ns pfx start = msum m /\ 0 <= msum m <= total_of (allowed_counts b).
Proof.
  intros Hm Hmax m. destruct (map_list_facts _ Hm) as [Hnd Hl].
  destruct (window_sum ns pfx start _ Hnd Hl Hmax) as [H1 H2]. split; [|done].
  unfold m. rewrite <- H1. unfold UnflushedAllowed, allowed_counts. rewrite map_to_list_fmap.
  induction (map_to_list (counts b)) as [|[k c] l IH]; csimpl; [done|]. by rewrite IH.
Qed.

Lemma day_map_total {m : gmap usageKey Z} ns pfx start d :
  in_window ns pfx start (UsageKey ns pfx d) = true ->
  default 0 (day_map ns pfx start (map_to_list m) !! d) = default 0 (m !! UsageKey ns pfx d).
Proof.
  intros Hw. pose proof (NoDup_fst_map_to_list m) as Hnd.
  destruct (m !! UsageKey ns pfx d) as [v|] eqn:E; simpl.
  - assert (H : day_map ns pfx start (map_to_list m) !! d = Some v).
    { apply day_map_lookup; [done|]. split; [by apply elem_of_map_to_list|done]. }
    by rewrite H.
  - destruct (day_map ns pfx start (map_to_list m) !! d) as [v|] eqn:E'; [|done].
    apply day_map_lookup in E' as [E' _]; [|done]. apply elem_of_map_to_list in E'. congruence.
Qed.

(** ** The rollups. *)

(** Whatever rollups the cache shows, the loop never drops a floor. *)
Lemma rollup_loop_floors start items : forall fl total total' fl',
  rollup_loop start items fl total = (total', fl') ->
  Forall (fun r => 0 <= Allowed r) items -> map_nonneg fl -> 0 <= total ->
  total + sumZ (Allowed <$> items) + msum fl <= int64_max ->
  0 <= total' /\ map_nonneg fl' /\ total + msum fl <= total' + msum fl' /\
  total' + msum fl' <= total + sumZ (Allowed <$> items) + msum fl.
Proof.
  induction items as [|r items IH]; intros fl total total' fl'; csimpl.
  - intros [= <- <-] _ Hfl Ht _. split_and!; try done; lia.
  - intros Hrun Hi Hfl Ht Hmax. apply Forall_cons in Hi as [Hr Hi].
    assert (Hs : 0 <= sumZ (Allowed <$> items)) by (apply sumZ_nonneg; by rewrite Forall_fmap).
    pose proof (msum_nonneg fl Hfl) as Hfs.
    assert (Hskip : rollup_loop start items fl total = (total', fl') ->
      0 <= total' /\ map_nonneg fl' /\ total + msum fl <= total' + msum fl' /\
      total' + msum fl' <= total + (Allowed r + sumZ (Allowed <$> items)) + msum fl).
    { intros Hr'. destruct (IH _ _ _ _ Hr' Hi Hfl Ht) as (?&?&?&?); [lia|]. split_and!; try done; lia. }
    destruct (ParseDate (RollupDay r)) as [d|]; [|auto]. destruct (Before d start); [by auto|].
    destruct (fl !! RollupDay r) as [floor|] eqn:Hf.
    + pose proof (msum_delete fl _ _ Hf) as Hd. pose proof (Hfl _ _ Hf) as Hfloor. simpl in Hfloor.
      assert (Hfl1 : map_nonneg (delete (RollupDay r) fl)) by (by apply map_Forall_delete).
      pose proof (msum_nonneg _ Hfl1) as Hfs1.
      rewrite wrap64_small in Hrun by (destruct (Z.ltb_spec (Allowed r) floor); lia).
      destruct (IH _ _ _ _ Hrun Hi Hfl1) as (?&?&?&?);
        destruct (Z.ltb_spec (Allowed r) floor); try lia; split_and!; try done; lia.
    + rewrite wrap64_small in Hrun by lia.
      destruct (IH _ _ _ _ Hrun Hi Hfl) as (?&?&?&?); try lia. split_and!; try done; lia.
Qed.

(** The usage of a period is at least the floors of one reading and the
    buffered counts of another, of any of its days. *)
Lemma sum_period_covers b1 b2 ns pfx start items ds :
  Forall (fun r => 0 <= Allowed r) items -> map_nonneg (floors b1) -> map_nonneg (allowed_counts b2) ->
  sumZ (Allowed <$> items) + total_of (floors b1) + total_of (allowed_counts b2) <= int64_max ->
  NoDup ds -> Forall (fun d => in_window ns pfx start (UsageKey ns pfx d) = true) ds ->
  sumZ ((fun d => default 0 (floors b1 !! UsageKey ns pfx d) +
                  held (counts b2) (UsageKey ns pfx d) CounterAllowed) <$> ds) <=
    sum_period start items (AllowedFloors b1 ns pfx start) (UnflushedAllowed b2 ns pfx start).
Proof.
  intros Hi Hf Hc Hmax Hnd Hds. unfold sum_period.
  change (AllowedFloors b1 ns pfx start) with (day_map ns pfx start (map_to_list (floors b1))).
  destruct (map_list_facts _ Hf) as [Hfn Hff]. destruct (map_list_facts _ Hc) as [Hcn Hcf].
  assert (Hs : 0 <= sumZ (Allowed <$> items)) by (apply sumZ_nonneg; by rewrite Forall_fmap).
  assert (Hc0 : 0 <= total_of (allowed_counts b2)) by (apply sumZ_nonneg; by rewrite Forall_fmap).
  assert (Hf0 : 0 <= total_of (floors b1)) by (apply sumZ_nonneg; by rewrite Forall_fmap).
  destruct (UnflushedAllowed_sum b2 ns pfx start Hc) as [HU HU']; [lia|].
  destruct (window_sum ns pfx start _ Hfn Hff) as [_ HF]; [unfold total_of in *; lia|].
  fold (total_of (floors b1)) in HF.
  set (fl := day_map ns pfx start (map_to_list (floors b1))) in *.
  set (cm := day_map ns pfx start (map_to_list (allowed_counts b2))) in *.
  pose proof (day_map_nonneg ns pfx start _ Hfn Hff : map_nonneg fl) as Hfl.
  pose proof (day_map_nonneg ns pfx start _ Hcn Hcf : map_nonneg cm) as Hcm.
  destruct (rollup_loop start items fl 0) as [total' fl'] eqn:Hloop.
  destruct (rollup_loop_floors start items fl 0 total' fl' Hloop Hi Hfl) as (Ht & Hfl' & Hlow & Hup);
    [lia|lia|].
  pose proof (msum_nonneg fl' Hfl'). destruct (map_list_facts _ Hfl') as [_ Hll].
  rewrite wrap_fold by (done || (unfold msum in *; lia)). fold (msum fl'). rewrite HU, wrap64_small by lia.
  pose proof (msum_ge fl ds Hfl Hnd) as Hg1. pose proof (msum_ge cm ds Hcm Hnd) as Hg2.
  assert (Heq : sumZ ((fun d => default 0 (floors b1 !! UsageKey ns pfx d) +
      held (counts b2) (UsageKey ns pfx d) CounterAllowed) <$> ds) =
    sumZ ((fun d => default 0 (fl !! d)) <$> ds) + sumZ ((fun d => default 0 (cm !! d)) <$> ds)).
  { clear -Hds. induction Hds as [|d ds Hd Hds IH]; csimpl; [done|]. rewrite IH. unfold fl, cm.
    rewrite !day_map_total by done. unfold held, allowed_counts. rewrite lookup_fmap.
    destruct (counts b2 !! UsageKey ns pfx d); simpl; lia. }
  lia.
Qed.

(** ** One replica through some events. *)

(** The event neither starts a flush of the replica nor ends its process. *)
Definition calm (i : nat) (e : Event) : bool :=
  match e with StartFlush j _ | Crash j => negb (j =? i)%nat | _ => true end.

(** The replica keeps running. *)
Definition alive (i : nat) (e : Event) : bool :=
  match e with Crash j => negb (j =? i)%nat | _ => true end.

(** The replica admits a request of the key. *)
Definition admits (i : nat) (ns pfx : string) (e : Event) : bool :=
  match e with
  | Request j ns' pfx' _ CounterAllowed => (j =? i)%nat && (ns' =? ns)%string && (pfx' =? pfx)%string
  | _ => false
  end.

Definition admitted (i : nat) (ns pfx : string) (es : list Event) : Z :=
  Z.of_nat (length (List.filter (admits i ns pfx) es)).

Lemma step_calm w e w' i r :
  step w e = Some w' -> calm i e = true -> replicas w !! i = Some r -> flushing r = None ->
  exists r', replicas w' !! i = Some r' /\ flushing r' = None /\ floors (buffer r') = floors (buffer r) /\ cutoff r' = cutoff r.
Proof.
  intros He Hc Hr Hf.
  assert (Hset : forall j x, (j = i -> flushing x = None /\ floors (buffer x) = floors (buffer r) /\ cutoff x = cutoff r) ->
    exists r', <[j := x]> (replicas w) !! i = Some r' /\ flushing r' = None /\ floors (buffer r') = floors (buffer r) /\ cutoff r' = cutoff r).
  { intros j x Hx. destruct (decide (j = i)) as [->|Hne].
    - rewrite list_lookup_insert_eq by (by eapply lookup_lt_Some). exists x. destruct (Hx eq_refl) as (? & ? & ?). by split_and!.
    - rewrite list_lookup_insert_ne by done. by exists r. }
  destruct e; cbn in He, Hc.
  all: try (destruct (replicas w !! i0) as [r0|] eqn:Hr0; cbn in He; [|done]).
  - destruct (valid_prefix pfx && printable now); [|done]. injection He as <-. apply Hset. intros ->. by simplify_eq.
  - destruct (flushing r0); [done|]. injection He as <-. apply Hset. intros ->. by rewrite Nat.eqb_refl in Hc.
  - destruct (flushing r0) as [f|] eqn:Hf0; cbn in He; [|done]. destruct (current f); [done|]. destruct (todo f !! k); cbn in He; [|done].
    injection He as <-. apply Hset. intros ->. by simplify_eq.
  - destruct (flushing r0) as [f|] eqn:Hf0; cbn in He; [|done]. destruct (current f) as [[[? ?] []]|]; try done.
    injection He as <-. apply Hset. intros ->. by simplify_eq.
  - destruct (flushing r0) as [f|] eqn:Hf0; cbn in He; [|done]. destruct (current f) as [[[? ?] []]|]; try done.
    injection He as <-. unfold write_step. destruct (server_write _ _ _). apply Hset. intros ->. by simplify_eq.
  - destruct (flushing r0) as [f|] eqn:Hf0; cbn in He; [|done]. destruct (current f); [done|]. case_decide; [|done].
    injection He as <-. apply Hset. intros ->. by simplify_eq.
  - injection He as <-. apply Hset. intros ->. by rewrite Nat.eqb_refl in Hc.
  - injection He as <-. by exists r.
Qed.

Lemma run_calm es w w' i r :
  run w es = Some w' -> forallb (calm i) es = true -> replicas w !! i = Some r -> flushing r = None ->
  exists r', replicas w' !! i = Some r' /\ flushing r' = None /\ floors (buffer r') = floors (buffer r) /\ cutoff r' = cutoff r.
Proof.
  revert w r. induction es as [|e es IH]; cbn; intros w r; [intros [= <-] _ ? ?; by exists r|].
  destruct (step w e) as [w1|] eqn:He; [|done]. cbn. intros Hrun [Hc Hcs]%andb_true_iff Hr Hf.
  destruct (step_calm w e w1 i r He Hc Hr Hf) as (r1 & Hr1 & Hf1 & <- & <-). by apply (IH w1 r1).
Qed.

(** The requests of some days the replica admitted itself. *)
Definition own_days (r : Replica) (ns pfx : string) (ds : list string) : Z :=
  sumZ ((fun d => own r (UsageKey ns pfx d)) <$> ds).

Lemma own_days_count r k counter ns pfx ds :
  NoDup ds ->
  own_days (count_request r k counter) ns pfx ds <=
    own_days r ns pfx ds +
    match counter with CounterAllowed => if (namespace k =? ns)%string && (prefix k =? pfx)%string then 1 else 0 | _ => 0 end.
Proof.
  intros Hnd. unfold own_days, count_request. cbn [own]. case_decide as Hc; [subst counter|destruct counter; done || lia].
  induction Hnd as [|d ds Hd Hnd IH]; csimpl; [case_match; lia|]. case_decide as Hk; [|lia]. subst k. cbn [namespace prefix].
  rewrite !String.eqb_refl. cbn [andb].
  assert (Heq : (fun d' => if decide (UsageKey ns pfx d' = UsageKey ns pfx d) then own r (UsageKey ns pfx d') + 1 else own r (UsageKey ns pfx d')) <$> ds
    = (fun d' => own r (UsageKey ns pfx d')) <$> ds).
  { apply list_fmap_ext. intros j x Hx. case_decide as He; [|done]. injection He as ->. destruct Hd. by eapply list_elem_of_lookup_2. }
  rewrite Heq. lia.
Qed.

Lemma step_own w e w' i r ns pfx ds :
  step w e = Some w' -> alive i e = true -> replicas w !! i = Some r -> NoDup ds ->
  exists r', replicas w' !! i = Some r' /\ own_days r' ns pfx ds <= own_days r ns pfx ds + if admits i ns pfx e then 1 else 0.
Proof.
  intros He Hc Hr Hnd.
  assert (Hset : forall j x c, 0 <= c -> (j = i -> own_days x ns pfx ds <= own_days r ns pfx ds + c) ->
    exists r', <[j := x]> (replicas w) !! i = Some r' /\ own_days r' ns pfx ds <= own_days r ns pfx ds + c).
  { intros j x c Hc0 Hx. destruct (decide (j = i)) as [->|Hne].
    - rewrite list_lookup_insert_eq by (by eapply lookup_lt_Some). exists x. by split; [|apply Hx].
    - rewrite list_lookup_insert_ne by done. exists r. split; [done|lia]. }
  destruct e; cbn in He, Hc |- *.
  all: try (destruct (replicas w !! i0) as [r0|] eqn:Hr0; cbn in He; [|done]).
  - destruct (valid_prefix pfx0 && printable now); [|done]. injection He as <-. cbn [replicas set_replica].
    apply Hset; [destruct counter; try done; by case_match|]. intros ->. rewrite Hr in Hr0. injection Hr0 as <-.
    pose proof (own_days_count r (UsageKey ns0 pfx0 (FormatDate now)) counter ns pfx ds Hnd) as Ho. cbn [namespace prefix] in Ho.
    rewrite Nat.eqb_refl. destruct counter; cbn [andb]; lia.
  - destruct (flushing r0); [done|]. injection He as <-. apply Hset; [done|]. intros ->. rewrite Hr in Hr0. injection Hr0 as <-. unfold start_flush, own_days. cbn. lia.
  - destruct (flushing r0) as [f|]; cbn in He; [|done]. destruct (current f); [done|]. destruct (todo f !! k); cbn in He; [|done].
    injection He as <-. apply Hset; [done|]. intros ->. rewrite Hr in Hr0. injection Hr0 as <-. unfold own_days. cbn. lia.
  - destruct (flushing r0) as [f|]; cbn in He; [|done]. destruct (current f) as [[[? ?] []]|]; try done.
    injection He as <-. apply Hset; [done|]. intros ->. rewrite Hr in Hr0. injection Hr0 as <-. unfold own_days, entry_done. case_match; cbn; lia.
  - destruct (flushing r0) as [f|]; cbn in He; [|done]. destruct (current f) as [[[? ?] []]|]; try done.
    injection He as <-. unfold write_step. destruct (server_write _ _ _). apply Hset; [done|]. intros ->. rewrite Hr in Hr0. injection Hr0 as <-. unfold own_days, entry_done. case_match; cbn; lia.
  - destruct (flushing r0) as [f|]; cbn in He; [|done]. destruct (current f); [done|]. case_decide; [|done].
    injection He as <-. apply Hset; [done|]. intros ->. rewrite Hr in Hr0. injection Hr0 as <-. unfold own_days. cbn. lia.
  - injection He as <-. apply Hset; [done|]. intros ->. by rewrite Nat.eqb_refl in Hc.
  - injection He as <-. exists r. split; [done|lia].
Qed.

Lemma run_own es w w' i r ns pfx ds :
  run w es = Some w' -> forallb (alive i) es = true -> replicas w !! i = Some r -> NoDup ds ->
  exists r', replicas w' !! i = Some r' /\ own_days r' ns pfx ds <= own_days r ns pfx ds + admitted i ns pfx es.
Proof.
  revert w r. induction es as [|e es IH]; cbn; intros w r; [intros [= <-] _ Hr _; exists r; split; [done|unfold admitted; cbn; lia]|].
  destruct (step w e) as [w1|] eqn:He; [|done]. cbn. intros Hrun [Hc Hcs]%andb_true_iff Hr Hnd.
  destruct (step_own w e w1 i r ns pfx ds He Hc Hr Hnd) as (r1 & Hr1 & H1). destruct (IH w1 r1 Hrun Hcs Hr1 Hnd) as (r2 & Hr2 & H2).
  exists r2. split; [done|]. unfold admitted in *. cbn. destruct (admits i ns pfx e); cbn [length]; lia.
Qed.

(** ** A replica between flushes respects the quota. *)

(** The cached rollups, the floors and the unflushed counts hold no overflowed counter, and their sum
    fits in an [int64]. *)
Definition quota_fits (items : list UsageRollup) (b1 b2 : UsageBuffer) : Prop :=
  Forall (fun r => 0 <= Allowed r) items /\ map_nonneg (floors b1) /\ map_nonneg (allowed_counts b2) /\
  sumZ (Allowed <$> items) + total_of (floors b1) + total_of (allowed_counts b2) <= int64_max.

(** A day of the window whose rollup was never deleted and whose counters
    never overflowed along the run. *)
Definition counted_day (m : gmap (string * string) UsageRollup) (rev : Z) (n : nat) (es : list Event)
    (w : World) (ns pfx : string) (start : Time) (d : string) : Prop :=
  let k := UsageKey ns pfx d in
  wf_key k /\ in_window ns pfx start k = true /\ (rollup_key k ∉ deleted w) /\
  0 <= recorded m k CounterAllowed /\
  within (recorded m k CounterAllowed) k CounterAllowed (initial n m rev) es = true.

Lemma window_unpruned r ns pfx period now d :
  in_window ns pfx (periodStart now period) (UsageKey ns pfx d) = true ->
  cutoff r <= GoStd.Add now (- floorRetention) -> unpruned r (UsageKey ns pfx d) = true.
Proof.
  unfold in_window, unpruned, keep_floor. simpl. intros H Hc. bool_to_prop.
  destruct (ParseDate d) as [t|]; [|done]. unfold Before in *. bool_to_prop.
  apply negb_true_iff, Z.ltb_ge. rewrite periodStart_days in *.
  pose proof (period_first_after now period) as Hp. pose proof (day_start now).
  unfold GoStd.Add, floorRetention, Day in *. unfold Hour, Minute, Second in *. lia.
Qed.

(** What happened after [s] and before [s']. *)
Definition between {L : Type} (s s' : Live L) : list Event := drop (length (past s)) (past s').

Lemma later_between {L : Type} (s s' : Live L) :
  later s s' -> past s' = (past s ++ between s s')%list /\ run (world s) (between s s') = Some (world s').
Proof. intros (es & Hp & Hr). unfold between. by rewrite Hp, drop_app_length. Qed.

(** The floors one request read and the counts it read later, when no flush of
    its replica was in progress in between, cover what the replica admitted. *)
Lemma calm_covers n m rev es es' w1 w2 i r1 k :
  store_ok m rev -> wf_key k -> 0 <= recorded m k CounterAllowed ->
  run (initial n m rev) es = Some w2 -> within (recorded m k CounterAllowed) k CounterAllowed (initial n m rev) es = true ->
  run w1 es' = Some w2 -> forallb (calm i) es' = true -> replicas w1 !! i = Some r1 -> flushing r1 = None ->
  rollup_key k ∉ deleted w2 ->
  exists r2, replicas w2 !! i = Some r2 /\ cutoff r2 = cutoff r1 /\ (unpruned r2 k = true -> own r2 k <= floor_of r1 k + held (counts (buffer r2)) k CounterAllowed).
Proof.
  intros Hst Hk Hb Hrun Hin Hrun' Hc Hr1 Hf1 Hd. destruct (run_calm _ _ _ _ _ Hrun' Hc Hr1 Hf1) as (r2 & Hr2 & Hf2 & Hfl & Hcut).
  exists r2. split; [done|]. split; [done|]. intros Hu. unfold floor_of. rewrite <- Hfl. by eapply floors_cover.
Qed.

(** C23: the quota holds within a replica, up to the requests it decides at the
    same time. An admitted request whose plan has a quota read the cached
    rollups, the floors, the unflushed counts, and was counted, in this order,
    with any events of the replicas and the server in between. When no flush of
    its replica was in progress from the floors to the unflushed counts, the
    requests the replica had itself admitted when it read the unflushed counts
    were fewer than the quota, and when the request was counted they were fewer
    than the quota and those of the key admitted since that read. This is over
    the days of the quota's period whose rollup was never deleted and whose
    counters never overflowed, when the counts it read fit in 64 bits, the
    replica runs throughout, and it has not flushed under a clock ahead of the
    request's. Neither a flush the cache has not shown nor a failed one is
    forgotten; one in progress is (flush_in_flight_forgotten). *)
Theorem idle_replica_respects_quota {L : Type} (NewLimiter : Z -> Z -> L) (Allow : Time -> L -> L * bool)
    (i : nat) (fine : Seen) (n : nat) (m : gmap (string * string) UsageRollup) (rev : Z)
    (table : gmap string (nat * Z * Z)) (limiters : list L) (sc : list (list Event * Seen))
    (ns app rawKey : string) (log : list (Entry (L := L))) (rest : Live L * list (list Event * Seen)) (res : Result)
    (plan : UsagePlan) (q : PlanQuota)
    (Hstore : store_ok m rev)
    (Hrun : attend (handle NewLimiter Allow i) happens fine note (AuthorizeSteps ns app rawKey)
              (mkLive (initial n m rev) [] table limiters) sc = (log, rest, res))
    (Hallow : Decision res = DecisionAllow) (Hplan : plan_read log = Some plan) (Hq : Quota plan = Some q) :
  exists pfx now items s1 s2 s3,
    keyPrefix rawKey = Some pfx /\ checked i ns pfx log now items q s1 s2 s3 /\ later s1 s2 /\ later s2 s3 /\
    forall r1 ds,
      replicas (world s1) !! i = Some r1 -> flushing r1 = None -> forallb (calm i) (between s1 s2) = true ->
      forallb (alive i) (between s2 s3) = true ->
      cutoff r1 <= GoStd.Add now (- floorRetention) -> quota_fits items (buffer_at i s1) (buffer_at i s2) -> NoDup ds ->
      Forall (counted_day m rev n (past s2) (world s2) ns pfx (periodStart now (Period q))) ds ->
      exists r2 r3, replicas (world s2) !! i = Some r2 /\ replicas (world s3) !! i = Some r3 /\
        own_days r2 ns pfx ds < Requests q /\ own_days r3 ns pfx ds < Requests q + admitted i ns pfx (between s2 s3).
Proof.
  destruct (admitted_checked _ _ _ _ _ _ _ _ _ _ _ _ _ _ Hrun Hallow Hplan Hq) as (pfx & now & items & s1 & s2 & s3 & Hp & Hck & H01 & H12 & H23).
  exists pfx, now, items, s1, s2, s3. split_and!; try done. destruct Hck as [_ Hsum].
  intros r1 ds Hr1 Hf1 Hcalm Halive Hcut (Hi & Hf & Hc & Hmax) Hds Hdays.
  destruct (later_between _ _ H12) as [_ Hrun12]. destruct (later_between _ _ H23) as [_ Hrun23].
  assert (H02 : run (initial n m rev) (past s2) = Some (world s2)).
  { destruct (transitivity H01 H12) as (es & Hpast & Hr). cbn in Hpast. by rewrite Hpast. }
  destruct (run_calm _ _ _ _ _ Hrun12 Hcalm Hr1 Hf1) as (r2 & Hr2 & _ & _ & Hcut2).
  destruct (run_own _ _ _ _ _ ns pfx ds Hrun23 Halive Hr2 Hds) as (r3 & Hr3 & Hown3).
  assert (Hwin : Forall (fun d => in_window ns pfx (periodStart now (Period q)) (UsageKey ns pfx d) = true) ds).
  { eapply Forall_impl; [done|]. intros d (_ & H & _). exact H. }
  pose proof (sum_period_covers _ _ ns pfx (periodStart now (Period q)) items ds Hi Hf Hc Hmax Hds Hwin) as Hcov.
  assert (Hown2 : own_days r2 ns pfx ds <= sumZ ((fun d => default 0 (floors (buffer_at i s1) !! UsageKey ns pfx d) +
      held (counts (buffer_at i s2)) (UsageKey ns pfx d) CounterAllowed) <$> ds)).
  { unfold own_days, buffer_at. rewrite Hr1, Hr2. cbn. apply sumZ_fmap_le. eapply Forall_impl; [exact Hdays|].
    intros d (Hwf & Hw & Hdel & Hb & Hin).
    destruct (calm_covers _ _ _ _ _ _ _ _ _ _ Hstore Hwf Hb H02 Hin Hrun12 Hcalm Hr1 Hf1 Hdel) as (r2' & Hr2' & _ & Hcv).
    rewrite Hr2 in Hr2'. injection Hr2' as <-. apply Hcv. eapply window_unpruned; [exact Hw|by rewrite Hcut2]. }
  exists r2, r3. split_and!; try done; lia.
Qed.

(** ** A concrete deployment. *)

Module Demo.

(** A limiter that never refuses, and one that counts tokens. *)
Definition NewTokens (planRate planBurst : Z) : Z := planBurst.

Definition TakeToken (now : Time) (tokens : Z) : Z * bool :=
  if 0 <? tokens then (tokens - 1, true) else (tokens, false).

Definition noon : Time := Date 2026 7 8 + 12 * Hour.

Definition raw : string := "kip_ab12cd34_s3cr3t".

Definition key : ApiKey :=
  {| KeyNamespace := "shop"; DisplayName := "partner"; Plan := "basic"; Enabled := None; Apps := ["api"]%string;
     Prefix := "ab12cd34"; HashSHA256 := sha256_hex raw; ExpiresAt := None |}.

Definition plan (requests : Z) : UsagePlan :=
  {| PlanName := "basic"; Rate := 10; Burst := 20;
     Quota := Some {| Requests := requests; Period := "day" |} |}.

(** The cache never sees a rollup. *)
Definition cache (requests : Z) : Reader := CacheReader [key] [("shop"%string, plan requests)] [].

Definition fresh : Freshness := {| synced := true; lastFresh := noon; staleBound := 90 * Second |}.

Definition clock : Clock :=
  {| at_fresh := noon + Second; at_check := noon + Second; at_bucket := noon + Second |}.

Definition usage_key : usageKey := UsageKey "shop" "ab12cd34" "2026-07-08".

Definition request : Event := Request 0 "shop" "ab12cd34" noon CounterAllowed.

(** A flush of the one entry, its write answered. *)
Definition flush : list Event :=
  [StartFlush 0 noon; Pick 0 usage_key; DoGet 0 false; DoWrite 0 NoFault; EndFlush 0].

Definition world (es : list Event) : World := default (initial 2 ∅ 1) (run (initial 2 ∅ 1) es).

Definition replica (es : list Event) : Replica := default new_replica (replicas (world es) !! 0%nat).

Definition decide_request (requests : Z) (es : list Event) : DecisionT :=
  Decision (Authorize NewTokens TakeToken (NewAuthorizer (buffer (replica es))) fresh (cache requests) clock
    "shop" "api" raw).2.

(** What every call of a request sees, and a script in which the replica
    admitted and flushed two requests before, and admits another one after the
    unflushed counts were read. *)
Definition seen (requests : Z) : Seen := mkSeen (cache requests) fresh clock.

Definition script (requests : Z) : list (list Event * Seen) :=
  [([request; request] ++ flush, seen requests)] ++ replicate 6 ([], seen requests) ++ [([request], seen requests)].

Definition start : Live Z := mkLive (initial 2 ∅ 1) [] ∅ [].

Definition attended (requests : Z) : list (Entry (L := Z)) * (Live Z * list (list Event * Seen)) * Result :=
  attend (handle NewTokens TakeToken 0) happens (seen requests) note (AuthorizeSteps "shop" "api" raw) start (script requests).

(** The states of the log. *)
Definition met (log : list (Entry (L := Z))) (k : nat) : Live Z :=
  match log !! k with Some (MetFloors s) | Some (MetUnflushed s) | Some (Counted s _) => s | _ => start end.

End Demo.

(** Two requests admitted and flushed where the cache does not see it; a request
    is admitted under a quota of three, and another one between its check and
    its count. *)
Lemma idle_replica_respects_quota_witness :
  let log := (Demo.attended 3).1.1 in
  exists r2 r3,
    replicas (world (Demo.met log 6)) !! 0%nat = Some r2 /\ replicas (world (Demo.met log 9)) !! 0%nat = Some r3 /\
    own_days r2 "shop" "ab12cd34" ["2026-07-08"%string] < 3 /\
    own_days r3 "shop" "ab12cd34" ["2026-07-08"%string] < 3 + admitted 0 "shop" "ab12cd34" (between (Demo.met log 6) (Demo.met log 9)) /\
    own_days r2 "shop" "ab12cd34" ["2026-07-08"%string] = 2 /\
    admitted 0 "shop" "ab12cd34" (between (Demo.met log 6) (Demo.met log 9)) = 1 /\
    own_days r3 "shop" "ab12cd34" ["2026-07-08"%string] = 3 /\
    Demo.decide_request 2 ([Demo.request; Demo.request] ++ Demo.flush) = DecisionDenyQuota.
Proof.
  intros log.
  destruct (idle_replica_respects_quota Demo.NewTokens Demo.TakeToken 0 (Demo.seen 3) 2 ∅ 1 ∅ [] (Demo.script 3) "shop" "api" Demo.raw
    (Demo.attended 3).1.1 (Demo.attended 3).1.2 (Demo.attended 3).2 (Demo.plan 3) {| Requests := 3; Period := "day" |})
    as (pfx & now & items & s1 & s2 & s3 & Hp & Hck & _ & _ & H).
  - apply map_Forall_empty.
  - exact (triple_eta (Demo.attended 3)).
  - vm_compute; reflexivity.
  - vm_compute; reflexivity.
  - reflexivity.
  - assert (Hpfx : pfx = "ab12cd34"%string) by (vm_compute in Hp; congruence). destruct Hck as [(plan & _ & Hlog) _].
    assert (Hnow : (Demo.attended 3).1.1 !! 2%nat = Some (ReadClock now)) by (by rewrite Hlog).
    assert (Hitems : (Demo.attended 3).1.1 !! 4%nat = Some (ReadRollups (Some items))) by (by rewrite Hlog).
    assert (H1 : s1 = Demo.met log 5) by (unfold log; by rewrite Hlog).
    assert (H2 : s2 = Demo.met log 6) by (unfold log; by rewrite Hlog).
    assert (H3 : s3 = Demo.met log 9) by (unfold log; by rewrite Hlog).
    assert (Hn : now = at_check Demo.clock) by (clear -Hnow; vm_compute in Hnow |- *; congruence).
    assert (Hi : items = []) by (clear -Hitems; vm_compute in Hitems; congruence). clear Hlog Hp Hnow Hitems. subst pfx now items s1 s2 s3.
    destruct (H (default new_replica (replicas (world (Demo.met log 5)) !! 0%nat)) ["2026-07-08"%string]) as (r2 & r3 & Hr2 & Hr3 & Ho2 & Ho3).
    + vm_compute; reflexivity.
    + vm_compute; reflexivity.
    + vm_compute; reflexivity.
    + vm_compute; reflexivity.
    + vm_compute. discriminate.
    + split; [apply Forall_nil_2|]. unfold map_nonneg.
      split; [apply (bool_decide_unpack _); vm_compute; exact I|].
      split; [apply (bool_decide_unpack _); vm_compute; exact I|]. vm_compute. discriminate.
    + apply NoDup_singleton.
    + apply Forall_singleton. split; [split; [|exists Demo.noon; split]; vm_compute; reflexivity|].
      split; [vm_compute; reflexivity|]. split; [vm_compute; intros Hin; by apply elem_of_nil in Hin|].
      split; vm_compute; [discriminate|reflexivity].
    + assert (Hown2 : own_days (default new_replica (replicas (world (Demo.met log 6)) !! 0%nat)) "shop" "ab12cd34" ["2026-07-08"%string] = 2) by (vm_compute; reflexivity).
      assert (Hown3 : own_days (default new_replica (replicas (world (Demo.met log 9)) !! 0%nat)) "shop" "ab12cd34" ["2026-07-08"%string] = 3) by (vm_compute; reflexivity).
      rewrite Hr2 in Hown2. rewrite Hr3 in Hown3. exists r2, r3.
      split; [exact Hr2|]. split; [exact Hr3|]. split; [exact Ho2|]. split; [exact Ho3|]. split; [exact Hown2|].
      split; [vm_compute; reflexivity|]. split; [exact Hown3|]. vm_compute; reflexivity.
Defined.

(** What a flush in progress hides. [drain] empties the buffer before
    [flushOne] has written and called [setFloor], so until then the drained
    counts are in neither: with a quota of one request a day, a replica that
    admitted one request and started a flush admits another one, before its
    read, before its write, and until the write is answered. Once the flush has
    ended the same request is denied. *)
Theorem flush_in_flight_forgotten :
  let es1 := [Demo.request; StartFlush 0 Demo.noon] in
  let es2 := es1 ++ [Pick 0 Demo.usage_key; DoGet 0 false] in
  own (Demo.replica es1) Demo.usage_key = 1 /\ own (Demo.replica es2) Demo.usage_key = 1 /\
  Demo.decide_request 1 [Demo.request] = DecisionDenyQuota /\
  Demo.decide_request 1 es1 = DecisionAllow /\
  Demo.decide_request 1 es2 = DecisionAllow /\
  Demo.decide_request 1 (es2 ++ [DoWrite 0 NoFault; EndFlush 0]) = DecisionDenyQuota.
Proof. vm_compute. split_and!; reflexivity. Qed.
