(* ===== verification/AuthzServer.v ===== *)
(** * The HTTP side of the authorizer and its freshness clock.

    [src/authz/server.go]: the forwardAuth handler, the denial contract, the
    forensics log. [src/authz/freshness.go]: the canary probes that advance the
    freshness clock. *)

From Stdlib Require Import Ascii.
From stdpp Require Import base tactics numbers countable list option strings gmap.
From S2P Require Import Prelude GoStd Calendar Usage Authz.

(** ** Requests and responses. *)

(** [http.Header] under canonical keys; [Get] is the first value or the empty
    string. *)
Abbreviation Header := (gmap string (list string)).

Definition Values (h : Header) (k : string) : list string := default [] (h !! k).

Definition HGet (h : Header) (k : string) : string :=
  match Values h k with v :: _ => v | [] => "" end.

Record HTTPRequest : Type := {
  query_namespace : string;
  query_app : string;
  header : Header;
  RemoteAddr : string
}.

(** A body: a denial's JSON object, or plain text. *)
Inductive Body : Type := NoBody | DenialBody (code message : string) | Text (s : string).

Record HTTPResponse : Type := {
  status : Z;
  headers : gmap string string;
  body : Body
}.

Definition StatusOK : Z := 200.
Definition StatusUnauthorized : Z := 401.
Definition StatusNotFound : Z := 404.
Definition StatusTooManyRequests : Z := 429.
Definition StatusInternalServerError : Z := 500.
Definition StatusServiceUnavailable : Z := 503.

(** [strconv.FormatInt(i, 10)]. *)
Definition FormatInt (i : Z) : string := appendInt i 0.

(** The seconds of a [Retry-After] header. *)
Definition retry_seconds (retryAfter : Duration) : Z :=
  Z.quot (wrap64 (wrap64 (retryAfter + Second) - 1)) Second.

Definition writeDenial (st : Z) (code message : string) (retryAfter : Duration) : HTTPResponse :=
  let h : gmap string string :=
    {[ "Content-Type" := "application/json"; "Access-Control-Allow-Origin" := "*";
       "Access-Control-Expose-Headers" := "Retry-After" ]}%string in
  {| status := st;
     headers := if 0 <? retryAfter then <["Retry-After"%string := FormatInt (retry_seconds retryAfter)]> h else h;
     body := DenialBody code message |}.

Definition gateUnavailableRetry : Duration := 10 * Second.

(** A response without a body. *)
Definition bare (st : Z) : HTTPResponse := {| status := st; headers := ∅; body := NoBody |}.

Definition handleDeny : HTTPResponse := bare StatusNotFound.

(** ** Forensics. *)

Definition allowLogSample : Z := 100.

Definition maxLoggedPrefix : nat := 16.

Definition maxLoggedForwardedFor : nat := 256.

(** [net.SplitHostPort], the host only; [None] is an error. *)
Definition SplitHost (hostport : string) : option string :=
  i ← LastIndexByte hostport ":"%char;
  if HasPrefix hostport "[" then
    e ← IndexByte hostport "]"%char;
    if (S e =? i)%nat && bool_decide (IndexByte (str_drop 1 hostport) "["%char = None)
       && bool_decide (IndexByte (str_drop (S e) hostport) "]"%char = None)
    then Some (str_drop 1 (str_take e hostport)) else None
  else
    let host := str_take i hostport in
    if bool_decide (IndexByte host ":"%char = None) && bool_decide (IndexByte hostport "["%char = None)
       && bool_decide (IndexByte hostport "]"%char = None)
    then Some host else None.

Definition clientIP (r : HTTPRequest) : string :=
  let xff := HGet (header r) "X-Forwarded-For" in
  if negb (xff =? "")%string then
    match IndexByte xff ","%char with
    | Some i => TrimSpace (str_take i xff)
    | None => TrimSpace xff
    end
  else default (RemoteAddr r) (SplitHost (RemoteAddr r)).

Definition forwardedChain (r : HTTPRequest) : string :=
  let chain := Join (Values (header r) "X-Forwarded-For") ", " in
  if (maxLoggedForwardedFor <? String.length chain)%nat then str_take maxLoggedForwardedFor chain else chain.

(** No rune of [unicode.IsControl]: U+0000 to U+001F and U+007F are bytes of
    their own, U+0080 to U+009F are the byte C2 and one of 80 to 9F. *)
Fixpoint headerSafe (v : string) : bool :=
  match v with
  | EmptyString => true
  | String c v' =>
      negb (byte_of c <? 32) && negb (byte_of c =? 127) &&
      negb ((byte_of c =? 194) &&
            match v' with String d _ => (128 <=? byte_of d) && (byte_of d <=? 159) | EmptyString => false end)
      && headerSafe v'
  end.

Definition decisionLabel (d : DecisionT) : string :=
  match d with
  | DecisionAllow => "allow"
  | DecisionDenyKey => "deny_key"
  | DecisionDenyRate => "deny_rate"
  | DecisionDenyQuota => "deny_quota"
  | DecisionUnavailable => "unavailable"
  end.

Record LogLine : Type := {
  warn : bool;
  log_namespace : string;
  log_app : string;
  key_prefix : string;
  reason : string;
  client_ip : string;
  forwarded_for : option string
}.

(** [allowSeen.Add(1)] on a [uint64]. *)
Definition next_seen (seen : Z) : Z := (seen + 1) mod 2 ^ 64.

(** The counter after the call, and the line, if one is written. *)
Definition logDecision (seen : Z) (r : HTTPRequest) (ns app : string) (d : DecisionT) :
    Z * option LogLine :=
  let seen' := if decide (d = DecisionAllow) then next_seen seen else seen in
  if bool_decide (d = DecisionAllow) && negb (seen' mod allowLogSample =? 0) then (seen', None)
  else
    let pfx := match keyPrefix (HGet (header r) "X-Api-Key") with
               | Some p => if (maxLoggedPrefix <? String.length p)%nat then "invalid"%string else p
               | None => "invalid"%string
               end in
    let chain := forwardedChain r in
    (seen', Some {| warn := negb (bool_decide (d = DecisionAllow)); log_namespace := ns; log_app := app;
                    key_prefix := pfx; reason := decisionLabel d; client_ip := clientIP r;
                    forwarded_for := if (chain =? "")%string then None else Some chain |}).

(** ** The handler. *)

Section Server.

Context {Limiter : Type}.

Variable NewLimiter : Z -> Z -> Limiter.

Variable Allow : Time -> Limiter -> Limiter * bool.

Record Server : Type := { authorizer : Authorizer Limiter; allowSeen : Z }.

(** The response to a decision. *)
Definition respond (res : Result) : HTTPResponse :=
  match Decision res with
  | DecisionAllow =>
      let h : gmap string string := {[ "X-Kipper-Key-Prefix"%string := ResultPrefix res ]} in
      {| status := StatusOK;
         headers := if negb (KeyName res =? "")%string && headerSafe (KeyName res)
                    then <["X-Kipper-Key-Name"%string := KeyName res]> h else h;
         body := NoBody |}
  | DecisionDenyRate =>
      writeDenial StatusTooManyRequests "rate_limited" "rate limit exceeded for this API key" (RetryAfter res)
  | DecisionDenyQuota =>
      writeDenial StatusTooManyRequests "quota_exhausted" "usage quota exhausted for this API key" (RetryAfter res)
  | DecisionUnavailable =>
      writeDenial StatusServiceUnavailable "gate_unavailable"
        "kipper-authz cannot verify API keys right now (cache stale or syncing, or usage history unreadable); this route fails closed"
        gateUnavailableRetry
  | DecisionDenyKey => writeDenial StatusUnauthorized "invalid_key" "invalid API key" 0
  end.

Definition is_preflight (r : HTTPRequest) : bool :=
  (HGet (header r) "X-Forwarded-Method" =? "OPTIONS")%string &&
  negb (HGet (header r) "Access-Control-Request-Method" =? "")%string.

Definition handleAuthorize (s : Server) (f : Freshness) (rd : Reader) (clock : Clock) (r : HTTPRequest) :
    Server * HTTPResponse * option LogLine :=
  let ns := query_namespace r in
  let app := query_app r in
  if (ns =? "")%string || (app =? "")%string then
    (s, writeDenial StatusInternalServerError "misconfigured"
          "authz middleware misconfigured: namespace and app are required" 0, None)
  else if is_preflight r then (s, bare StatusOK, None)
  else
    let '(a, res) := Authorize NewLimiter Allow (authorizer s) f rd clock ns app
                       (HGet (header r) "X-Api-Key") in
    let '(seen, line) := logDecision (allowSeen s) r ns app (Decision res) in
    ({| authorizer := a; allowSeen := seen |}, respond res, line).

Definition handleReady (f : Freshness) (now : Time) : HTTPResponse :=
  if negb (Fresh f now) then
    {| status := StatusServiceUnavailable;
       headers := {[ "Content-Type" := "text/plain; charset=utf-8"; "X-Content-Type-Options" := "nosniff" ]}%string;
       body := Text "authz cache not fresh (initial sync, a wedged watch, or a missing freshness canary). Check authz logs" |}
  else bare StatusOK.

End Server.

Arguments Server : clear implicits.

(** ** The freshness probe. *)

Definition canaryAnnotationPrefix : string := "authz.kipper.run/probe-".

Abbreviation Annotations := (gmap string string).

Section Probe.

(** [time.Parse(time.RFC3339Nano, s)]. *)
Variable ParseNano : string -> option Time.

Definition stale_probe (ownKey : string) (now : Time) (kv : string * string) : bool :=
  if (kv.1 =? ownKey)%string || negb (HasPrefix kv.1 canaryAnnotationPrefix) then false
  else match ParseNano kv.2 with
       | Some ts => Before ts (GoStd.Add now (- Hour))
       | None => true
       end.

Definition pruneStaleProbes (annotations : Annotations) (ownKey : string) (now : Time) : Annotations :=
  filter (fun kv => stale_probe ownKey now kv = false) annotations.

Inductive CanaryGet : Type := CanaryGot (anns : Annotations) | CanaryMissing | CanaryGetFailed.

Inductive CanaryUpdate : Type := CanaryWritten | CanaryConflict | CanaryUpdateFailed.

(** One attempt of [writeCanary]: the annotations it sends, unless the read
    failed. *)
Definition canary_request (annoKey value : string) (now : Time) (got : CanaryGet) : option Annotations :=
  match got with
  | CanaryGot anns => Some (pruneStaleProbes (<[annoKey := value]> anns) annoKey now)
  | CanaryMissing | CanaryGetFailed => None
  end.

(** [writeCanary] against the answers of its attempts; the result is what was
    written, [None] for [false]. *)
Fixpoint canary_attempts (fuel : nat) (annoKey value : string) (now : Time)
    (answers : list (CanaryGet * CanaryUpdate)) : option Annotations :=
  match fuel, answers with
  | S fuel', (got, upd) :: answers' =>
      match canary_request annoKey value now got with
      | None => None
      | Some anns =>
          match upd with
          | CanaryWritten => Some anns
          | CanaryConflict => canary_attempts fuel' annoKey value now answers'
          | CanaryUpdateFailed => None
          end
      end
  | _, _ => None
  end.

Definition writeCanary (annoKey value : string) (now : Time) (answers : list (CanaryGet * CanaryUpdate)) :
    option Annotations :=
  canary_attempts 3 annoKey value now answers.

(** One polling round: what the cache shows of each canary, and the clock. *)
Record Round : Type := {
  round_time : Time;
  shown : list (option Annotations);
  finished_at : Time;
  cancelled : bool
}.

Definition sees (annoKey value : string) (anns : option Annotations) : bool :=
  match anns with
  | Some m => (default ""%string (m !! annoKey) =? value)%string
  | None => false
  end.

Definition observe (annoKey value : string) (observed : list bool) (shown : list (option Annotations)) :
    list bool :=
  zip_with (fun o s => o || sees annoKey value s) observed shown.

(** The polling loop: the time of success, [None] when it gives up. *)
Fixpoint poll (annoKey value : string) (deadline : Time) (observed : list bool) (rounds : list Round) :
    option Time :=
  match rounds with
  | [] => None
  | r :: rest =>
      if Before (round_time r) deadline then
        let observed := observe annoKey value observed (shown r) in
        if forallb id observed then Some (finished_at r)
        else if cancelled r then None
        else poll annoKey value deadline observed rest
      else None
  end.

(** What one probe meets: its value, the answers to the write of each canary,
    the polling rounds. *)
Record ProbeRun : Type := {
  value : string;
  write_time : Time;
  writes : list (list (CanaryGet * CanaryUpdate));
  deadline_from : Time;
  rounds : list Round
}.

Definition all_written (annoKey : string) (p : ProbeRun) : bool :=
  forallb (fun answers => bool_decide (is_Some (writeCanary annoKey (value p) (write_time p) answers))) (writes p).

Definition probe (f : Freshness) (replicaID : string) (p : ProbeRun) : Freshness :=
  let annoKey := String.append canaryAnnotationPrefix replicaID in
  if negb (all_written annoKey p) then f
  else
    match poll annoKey (value p) (GoStd.Add (deadline_from p) (5 * Second))
            (replicate (length (writes p)) false) (rounds p) with
    | Some t => {| synced := synced f; lastFresh := t; staleBound := staleBound f |}
    | None => f
    end.

End Probe.
