(* ===== verification/AuthzServerProps.v ===== *)
(** * Properties of the forwardAuth handler and of the freshness clock. *)

From Stdlib Require Import Ascii.
From stdpp Require Import base tactics numbers countable list option strings gmap.
From S2P Require Import Prelude GoStd Sha256 Calendar Usage UsageProps Authz AuthzProps AuthzServer.

(** ** Denials. *)

(** The advice is the waiting time rounded up to whole seconds. *)
Lemma retry_seconds_spec (d : Duration) :
  0 < d <= 2 ^ 62 -> 1 <= retry_seconds d /\ (retry_seconds d - 1) * Second < d <= retry_seconds d * Second.
Proof.
  intros H. unfold retry_seconds.
  assert (HS : Second = 1000000000) by done.
  rewrite !wrap64_small by (unfold int64_max; rewrite ?wrap64_small; unfold int64_max; lia).
  rewrite Z.quot_div_nonneg by lia. rewrite HS. Z.to_euclidean_division_equations; lia.
Qed.

Lemma writeDenial_cors st code msg d :
  headers (writeDenial st code msg d) !! "Access-Control-Allow-Origin"%string = Some "*"%string.
Proof.
  unfold writeDenial. cbn [headers]. destruct (0 <? d); [rewrite lookup_insert_ne by done|]; by vm_compute.
Qed.

Lemma writeDenial_retry st code msg d :
  headers (writeDenial st code msg d) !! "Retry-After"%string =
    if 0 <? d then Some (FormatInt (retry_seconds d)) else None.
Proof.
  unfold writeDenial. cbn [headers]. destruct (0 <? d); [by rewrite lookup_insert_eq|]. by vm_compute.
Qed.

(** A period is at most 31 days. *)
Lemma period_length now period :
  0 < periodNext now period - now <= 31 * Day.
Proof.
  rewrite periodNext_days. pose proof (day_start now). pose proof (period_first_after now period) as [H1 _].
  assert (H2 : period_after now period <= days_since now + 31).
  { unfold period_after. destruct (period =? "week")%string; [Z.to_euclidean_division_equations; lia|].
    destruct (period =? "month")%string; [|lia]. pose proof (civil_bounds now).
    pose proof (month_days_bounds (Year now) (Month now) (Month_range now)). lia. }
  unfold Day, Hour, Minute, Second in *. lia.
Qed.

Lemma Sub_periodNext now period : Sub (periodNext now period) now = periodNext now period - now.
Proof.
  pose proof (period_length now period). apply Sub_exact. unfold int64_range, int64_min, int64_max.
  unfold Day, Hour, Minute, Second in *. lia.
Qed.

(** ** The handler. *)

Section Handler.

Context {Limiter : Type}.

Variable NewLimiter : Z -> Z -> Limiter.

Variable Allow : Time -> Limiter -> Limiter * bool.

Abbreviation authorize := (Authorize NewLimiter Allow).

Abbreviation handle := (handleAuthorize NewLimiter Allow).

(** What the retry advice of a denial is worth. *)
Definition advice_ok (rd : Reader) (clock : Clock) (res : Result) : Prop :=
  match Decision res with
  | DecisionDenyRate => RetryAfter res = Second
  | DecisionDenyQuota => exists q : PlanQuota,
      RetryAfter res = Sub (periodNext (at_check clock) (Period q)) (at_check clock)
  | _ => True
  end.

Lemma Authorize_advice a f rd clock ns app rawKey :
  advice_ok rd clock (authorize a f rd clock ns app rawKey).2.
Proof.
  unfold Authorize, advice_ok. destruct (Fresh f (at_fresh clock)); simpl; [|done].
  destruct (keyPrefix rawKey) as [pfx|]; [|done].
  destruct (ListKeys rd ns pfx) as [[|key [|? ?]]|]; try done.
  destruct (hashMatches rawKey (HashSHA256 key)); simpl; [|done].
  destruct (negb (IsEnabled key) || _ || _); [done|].
  destruct (GetPlan rd ns (Plan key)) as [plan|]; [|done].
  unfold authorize_quota, authorize_rate. destruct (Quota plan) as [q|].
  - destruct (periodUsage _ _ _ _ _ _) as [used|]; [|done].
    destruct (Requests q <=? used); simpl; [by exists q|].
    by destruct (takeToken _ _ _ _ _ _ _) as [? []].
  - by destruct (takeToken _ _ _ _ _ _ _) as [? []].
Qed.

Definition identified (r : HTTPRequest) : bool :=
  negb (query_namespace r =? "")%string && negb (query_app r =? "")%string.

(** The gate's responses. A request passes (200) exactly when its
    Middleware named the namespace and the app and either it is a CORS
    preflight or [Authorize] admitted it; a preflight and a missing identity
    leave the authorizer untouched. An admitted request carries the prefix of
    the presented key, and the key's name only when it is safe in a header.
    Every other response allows any origin. A 429 carries a Retry-After of at
    least one second, and for a quota denial the wait ends in the next period,
    less than a second after it starts. *)
Theorem gate_response (s : Server Limiter) (f : Freshness) (rd : Reader) (clock : Clock) (r : HTTPRequest) :
  let '(s', resp, line) := handle s f rd clock r in
  let res := (authorize (authorizer s) f rd clock (query_namespace r) (query_app r)
                (HGet (header r) "X-Api-Key")).2 in
  (status resp = StatusOK <->
     identified r = true /\ (is_preflight r = true \/ Decision res = DecisionAllow)) /\
  (identified r = false \/ is_preflight r = true -> s' = s /\ line = None) /\
  (status resp = StatusOK -> is_preflight r = false ->
     headers resp !! "X-Kipper-Key-Prefix"%string = keyPrefix (HGet (header r) "X-Api-Key") /\
     (forall name, headers resp !! "X-Kipper-Key-Name"%string = Some name -> headerSafe name = true)) /\
  (status resp <> StatusOK -> headers resp !! "Access-Control-Allow-Origin"%string = Some "*"%string) /\
  (status resp = StatusTooManyRequests -> exists secs,
     headers resp !! "Retry-After"%string = Some (FormatInt secs) /\ 1 <= secs /\
     (Decision res = DecisionDenyQuota -> exists period,
        periodNext (at_check clock) period <= at_check clock + secs * Second
          < periodNext (at_check clock) period + Second)).
Proof.
  unfold handleAuthorize, identified.
  destruct (query_namespace r =? "")%string eqn:Hns; cbn [negb orb andb].
  { rewrite writeDenial_cors. split_and!; try done; try (intros; tauto); naive_solver. }
  destruct (query_app r =? "")%string eqn:Happ; cbn [negb orb andb].
  { rewrite writeDenial_cors. split_and!; try done; naive_solver. }
  destruct (is_preflight r) eqn:Hp; cbn [negb orb andb].
  { split_and!; try done; naive_solver. }
  pose proof (Authorize_advice (authorizer s) f rd clock (query_namespace r) (query_app r)
    (HGet (header r) "X-Api-Key")) as Hadv.
  pose proof (Authorize_counts NewLimiter Allow (authorizer s) f rd clock (query_namespace r) (query_app r)
    (HGet (header r) "X-Api-Key")) as Hcnt.
  destruct (authorize _ f rd clock _ _ _) as [a res]. cbn [fst snd] in *. unfold advice_ok in Hadv.
  destruct (logDecision (allowSeen s) r _ _ (Decision res)) as [seen line].
  unfold respond. destruct (Decision res) eqn:Hd; cbn [status headers].
  - destruct Hcnt as (pfx & -> & _ & Hres). destruct (Hres eq_refl) as [-> _].
    split_and!; try done; try naive_solver.
    intros _ _. destruct (negb _ && headerSafe (KeyName res)) eqn:Hsafe.
    + rewrite lookup_insert_ne, lookup_singleton_eq by done. split; [done|]. intros name.
      rewrite lookup_insert_eq. intros [= <-]. by bool_to_prop.
    + rewrite lookup_singleton_eq. split; [done|]. intros name. by rewrite lookup_singleton_ne.
  - rewrite writeDenial_cors. split_and!; try done; naive_solver.
  - rewrite writeDenial_cors, writeDenial_retry, Hadv. split_and!; try done; try naive_solver.
  - rewrite writeDenial_cors, writeDenial_retry. destruct Hadv as [q Hq].
    split_and!; try done; try naive_solver.
    intros _. rewrite Hq, Sub_periodNext. pose proof (period_length (at_check clock) (Period q)) as Hl.
    destruct (Z.ltb_spec 0 (periodNext (at_check clock) (Period q) - at_check clock)); [|lia].
    destruct (retry_seconds_spec (periodNext (at_check clock) (Period q) - at_check clock)) as [H1 H2];
      [unfold Day, Hour, Minute, Second in *; lia|].
    eexists. split; [done|]. split; [done|]. intros _. exists (Period q). unfold Second in *. lia.
  - rewrite writeDenial_cors. split_and!; try done; naive_solver.
Qed.

End Handler.

(** ** Forensics. *)

(** [r] with another key presented. *)
Definition with_key (r : HTTPRequest) (rawKey : string) : HTTPRequest :=
  {| query_namespace := query_namespace r; query_app := query_app r;
     header := <["X-Api-Key"%string := [rawKey]]> (header r); RemoteAddr := RemoteAddr r |}.

Lemma HGet_with_key r rawKey : HGet (header (with_key r rawKey)) "X-Api-Key" = rawKey.
Proof. unfold HGet, Values, with_key. cbn [header]. by rewrite lookup_insert_eq. Qed.

Lemma Values_with_key r rawKey k :
  k <> "X-Api-Key"%string -> Values (header (with_key r rawKey)) k = Values (header r) k.
Proof. intros H. unfold Values, with_key. cbn [header]. by rewrite lookup_insert_ne. Qed.

Lemma clientIP_with_key r rawKey : clientIP (with_key r rawKey) = clientIP r.
Proof. unfold clientIP, HGet. by rewrite Values_with_key. Qed.

Lemma forwardedChain_with_key r rawKey : forwardedChain (with_key r rawKey) = forwardedChain r.
Proof. unfold forwardedChain. by rewrite Values_with_key. Qed.

Lemma forwardedChain_length r : (String.length (forwardedChain r) <= maxLoggedForwardedFor)%nat.
Proof.
  unfold forwardedChain. destruct (Nat.ltb_spec maxLoggedForwardedFor
    (String.length (Join (Values (header r) "X-Forwarded-For") ", "))); [|done].
  rewrite str_length_take. lia.
Qed.

(** The forensics log. Every denial is logged; an admission is logged
    exactly when the counter of admissions reaches a multiple of the sample
    rate. Whatever the client sends, the key prefix of a line has at most 16
    bytes and the forwarded chain at most 256. The line depends on the
    presented key only through its prefix, so the secret part never reaches the
    log: two keys with the same prefix give the same line. *)
Theorem forensics_bounded_and_secret_free (seen : Z) (r : HTTPRequest) (ns app rawKey : string) (d : DecisionT) :
  let '(seen', line) := logDecision seen (with_key r rawKey) ns app d in
  (is_Some line <-> d <> DecisionAllow \/ (seen + 1) mod 2 ^ 64 mod allowLogSample = 0) /\
  (forall l, line = Some l ->
     (String.length (key_prefix l) <= maxLoggedPrefix)%nat /\
     (forall chain, forwarded_for l = Some chain -> (String.length chain <= maxLoggedForwardedFor)%nat) /\
     warn l = negb (bool_decide (d = DecisionAllow))) /\
  (forall rawKey', keyPrefix rawKey' = keyPrefix rawKey ->
     logDecision seen (with_key r rawKey') ns app d = (seen', line)).
Proof.
  assert (Hline : forall l, (logDecision seen (with_key r rawKey) ns app d).2 = Some l ->
    (String.length (key_prefix l) <= maxLoggedPrefix)%nat /\
    (forall chain, forwarded_for l = Some chain -> (String.length chain <= maxLoggedForwardedFor)%nat) /\
    warn l = negb (bool_decide (d = DecisionAllow))).
  { intros l. unfold logDecision. destruct (_ && negb _); [done|]. cbn [snd]. intros [= <-].
    cbn [key_prefix forwarded_for warn]. split_and!; [| |done].
    - destruct (keyPrefix _) as [p|]; [|by vm_compute; lia].
      destruct (Nat.ltb_spec maxLoggedPrefix (String.length p)); [by vm_compute; lia|done].
    - intros chain. destruct (_ =? "")%string; [done|]. intros [= <-]. apply forwardedChain_length. }
  assert (Hfree : forall rawKey', keyPrefix rawKey' = keyPrefix rawKey ->
    logDecision seen (with_key r rawKey') ns app d = logDecision seen (with_key r rawKey) ns app d).
  { intros rawKey' H. unfold logDecision.
    rewrite !HGet_with_key, !clientIP_with_key, !forwardedChain_with_key, H. done. }
  destruct (logDecision seen (with_key r rawKey) ns app d) as [seen' line] eqn:E. split_and!; [|done|done].
  unfold logDecision, next_seen in E. destruct (decide (d = DecisionAllow)) as [Hd|Hd].
  - rewrite (bool_decide_eq_true_2 _ Hd) in E. cbn [andb negb] in E.
    destruct (Z.eqb_spec ((seen + 1) mod 2 ^ 64 mod allowLogSample) 0); cbn [negb] in E; simplify_eq.
    + split; [auto|by eexists].
    + split; [by intros [? ?]|]. by intros [?|?].
  - rewrite (bool_decide_eq_false_2 _ Hd) in E. cbn [andb negb] in E. simplify_eq.
    split; [auto|by eexists].
Qed.

(** ** Freshness. *)

Section ProbeHistory.

Variable ParseNano : string -> option Time.

Variable replicaID : string.

Definition annoKey : string := String.append canaryAnnotationPrefix replicaID.

Lemma canary_request_value value now got anns :
  canary_request ParseNano annoKey value now got = Some anns -> anns !! annoKey = Some value.
Proof.
  unfold canary_request. destruct got as [m| |]; try done. intros [= <-].
  apply map_lookup_filter_Some. split; [apply lookup_insert_eq|]. unfold stale_probe. simpl.
  by rewrite String.eqb_refl.
Qed.

(** A written canary carries this replica's value. *)
Lemma canary_attempts_value fuel value now answers anns :
  canary_attempts ParseNano fuel annoKey value now answers = Some anns -> anns !! annoKey = Some value.
Proof.
  revert answers. induction fuel as [|fuel IH]; intros [|[got upd] answers]; simpl; try done.
  destruct (canary_request _ _ _ _ _) as [m|] eqn:Hr; [|done]. destruct upd; try done.
  - intros [= <-]. by eapply canary_request_value.
  - apply IH.
Qed.

Lemma observe_length value obs shown :
  length shown = length obs -> length (observe annoKey value obs shown) = length obs.
Proof. intros H. unfold observe. rewrite length_zip_with. lia. Qed.

Lemma observe_true value obs shown i :
  length shown = length obs -> observe annoKey value obs shown !! i = Some true ->
  obs !! i = Some true \/ exists s, shown !! i = Some s /\ sees annoKey value s = true.
Proof.
  intros Hl. unfold observe. rewrite lookup_zip_with_Some. intros (o & s & Heq & Ho & Hs).
  destruct o; [by left|]. right. exists s. by destruct (sees annoKey value s).
Qed.

(** The canary [i] was shown with the probe's value before the deadline. *)
Definition shown_in_time (value : string) (deadline : Time) (rounds : list Round) (i : nat) : Prop :=
  exists r anns, r ∈ rounds /\ round_time r < deadline /\
    shown r !! i = Some (Some anns) /\ anns !! annoKey = Some value.

Lemma poll_success value deadline n : value <> ""%string -> forall rounds obs t,
  length obs = n -> Forall (fun r => length (shown r) = n) rounds ->
  poll annoKey value deadline obs rounds = Some t ->
  forall i, (i < n)%nat -> obs !! i = Some true \/ shown_in_time value deadline rounds i.
Proof.
  intros Hv. induction rounds as [|r rounds IH]; intros obs t Hobs Hsh; simpl; [done|].
  apply Forall_cons in Hsh as [Hr Hsh].
  destruct (Before (round_time r) deadline) eqn:Hb; [|done]. unfold Before in Hb. bool_to_prop.
  assert (Hone : forall i, observe annoKey value obs (shown r) !! i = Some true ->
    obs !! i = Some true \/ shown_in_time value deadline (r :: rounds) i).
  { intros i Hi. apply observe_true in Hi as [Hi|(s & Hs & Hsee)]; [by left| |lia].
    right. unfold sees in Hsee. destruct s as [anns|]; [|done]. apply String.eqb_eq in Hsee.
    exists r, anns. split_and!; [by left|done|done|].
    destruct (anns !! annoKey) as [v|]; simpl in Hsee; congruence. }
  assert (Hlen : length (observe annoKey value obs (shown r)) = n) by (rewrite observe_length; lia).
  destruct (forallb id _) eqn:Hall.
  - intros _ i Hi. apply Hone. rewrite forallb_forall in Hall.
    destruct (lookup_lt_is_Some_2 (observe annoKey value obs (shown r)) i) as [b Hbi]; [lia|].
    rewrite Hbi. f_equal. apply Hall. apply list_elem_of_In. by eapply list_elem_of_lookup_2.
  - destruct (cancelled r); [done|]. intros Hpoll i Hi.
    destruct (IH _ t Hlen Hsh Hpoll i Hi) as [Ho|(r' & anns & Hr' & Hrest)]; [by apply Hone|].
    right. exists r', anns. split; [by right|done].
Qed.

(** A probe's run: a value is a formatted time, and every round shows each
    canary once. *)
Definition probe_run_ok (p : ProbeRun) : Prop :=
  value p <> ""%string /\ Forall (fun r => length (shown r) = length (writes p)) (rounds p).

(** A probe that succeeded at time [t]. *)
Definition round_trip (p : ProbeRun) (t : Time) : Prop :=
  Forall (fun answers => exists anns,
    writeCanary ParseNano annoKey (value p) (write_time p) answers = Some anns /\
    anns !! annoKey = Some (value p)) (writes p) /\
  forall i, (i < length (writes p))%nat ->
    shown_in_time (value p) (GoStd.Add (deadline_from p) (5 * Second)) (rounds p) i.

Definition history (f : Freshness) (ps : list ProbeRun) : Freshness :=
  foldl (fun f p => probe ParseNano f replicaID p) f ps.

Lemma probe_outcome f p :
  probe_run_ok p ->
  probe ParseNano f replicaID p = f \/
  (exists t, lastFresh (probe ParseNano f replicaID p) = t /\ round_trip p t).
Proof.
  intros [Hv Hsh]. unfold probe. fold annoKey.
  destruct (all_written ParseNano annoKey p) eqn:Hw; simpl; [|by left].
  destruct (poll annoKey (value p) _ _ (rounds p)) as [t|] eqn:Hp; [|by left].
  right. exists t. split; [done|]. split.
  - unfold all_written in Hw. rewrite forallb_forall in Hw. apply Forall_forall. intros answers Ha.
    apply list_elem_of_In, Hw, bool_decide_eq_true in Ha as [anns Hanns]. exists anns. split; [done|].
    by eapply canary_attempts_value.
  - intros i Hi. destruct (poll_success (value p) _ (length (writes p)) Hv (rounds p) _ t
      (length_replicate _ _) Hsh Hp i Hi) as [H|H]; [|done].
    by apply lookup_replicate_1 in H as [? _].
Qed.

(** Freshness is earned. After any history of probes on a replica that
    started without one, if the replica calls itself fresh then some probe of
    that history wrote this replica's value to every canary, each of the
    watches (ApiKey, UsagePlan, UsageRollup) showed that very value through the
    cache before the probe's deadline, and that success is less than the stale
    bound ago. One wedged watch or one refused write is enough to stop the
    clock. *)
Theorem fresh_means_round_trip (f0 : Freshness) (ps : list ProbeRun) (now : Time)
    (Hstart : lastFresh f0 = zero_time) (Hok : Forall probe_run_ok ps)
    (Hfresh : Fresh (history f0 ps) now = true) :
  exists p, p ∈ ps /\ round_trip p (lastFresh (history f0 ps)) /\
    Sub now (lastFresh (history f0 ps)) < staleBound f0.
Proof.
  assert (Hinv : staleBound (history f0 ps) = staleBound f0 /\
    (lastFresh (history f0 ps) = zero_time \/ exists p, p ∈ ps /\ round_trip p (lastFresh (history f0 ps)))).
  { clear Hfresh. induction ps as [|p ps IH] using rev_ind; [auto|].
    apply Forall_app in Hok as [Hok Hp]. rewrite Forall_singleton in Hp. destruct (IH Hok) as [Hb Hl].
    unfold history in *. rewrite foldl_app. simpl. set (f := foldl _ f0 ps) in *.
    split. { unfold probe. repeat case_match; simpl; done. }
    destruct (probe_outcome f p Hp) as [->|(t & -> & Ht)].
    - destruct Hl as [Hl|(q & Hq & Ht)]; [by left|]. right. exists q. rewrite elem_of_app. auto.
    - right. exists p. rewrite elem_of_app, list_elem_of_singleton. auto. }
  destruct Hinv as [Hb [Hz|(p & Hp & Ht)]]; unfold Fresh in Hfresh.
  - rewrite Hz in Hfresh. by destruct (synced (history f0 ps)).
  - destruct (synced (history f0 ps)); simpl in Hfresh; [|done]. bool_to_prop. exists p.
    rewrite Hb in *. done.
Qed.

End ProbeHistory.

(** ** Concrete runs. *)

Module ProbeDemo.

Definition at0 : Time := Date 2026 7 8.

Definition stamp : string := "2026-07-08T00:00:00Z".

Definition parse (s : string) : option Time := ParseDate (str_take 10 s).

Definition start : Freshness := {| synced := true; lastFresh := zero_time; staleBound := 90 * Second |}.

(** Three canaries; the second write meets a conflict first. An annotation of
    a replica gone for days is pruned. *)
Definition stale : Annotations := {[ "authz.kipper.run/probe-gone"%string := "2026-07-01T00:00:00Z"%string ]}.

Definition seen : option Annotations := Some {[ "authz.kipper.run/probe-a"%string := stamp ]}.

Definition run (third : option Annotations) : ProbeRun :=
  {| value := stamp; write_time := at0;
     writes := [[(CanaryGot stale, CanaryWritten)];
                [(CanaryGot ∅, CanaryConflict); (CanaryGot ∅, CanaryWritten)];
                [(CanaryGot ∅, CanaryWritten)]];
     deadline_from := at0;
     rounds := [{| round_time := at0; shown := [seen; None; None]; finished_at := at0; cancelled := false |};
                {| round_time := at0 + Second; shown := [seen; seen; third]; finished_at := at0 + Second;
                   cancelled := false |}] |}.

End ProbeDemo.

Lemma fresh_means_round_trip_witness :
  Fresh (history ProbeDemo.parse "a" ProbeDemo.start [ProbeDemo.run None]) (ProbeDemo.at0 + Minute) = false /\
  exists p, p ∈ [ProbeDemo.run None; ProbeDemo.run ProbeDemo.seen] /\
    round_trip ProbeDemo.parse "a" p
      (lastFresh (history ProbeDemo.parse "a" ProbeDemo.start [ProbeDemo.run None; ProbeDemo.run ProbeDemo.seen])) /\
    Sub (ProbeDemo.at0 + Minute)
      (lastFresh (history ProbeDemo.parse "a" ProbeDemo.start [ProbeDemo.run None; ProbeDemo.run ProbeDemo.seen]))
      < staleBound ProbeDemo.start.
Proof.
  split; [vm_compute; reflexivity|].
  apply (fresh_means_round_trip ProbeDemo.parse "a" ProbeDemo.start
    [ProbeDemo.run None; ProbeDemo.run ProbeDemo.seen] (ProbeDemo.at0 + Minute)).
  - vm_compute; reflexivity.
  - repeat constructor; discriminate.
  - vm_compute; reflexivity.
Defined.
