(* ===== verification/FileTree.v ===== *)
(** * A file system with symbolic links

    The operations of package [os] the committer makes, on a tree of files,
    directories and links: how the kernel resolves a path, what each operation
    does, and which errors it gives. A schedule of faults says which operations
    fail before they take effect. *)

From Stdlib Require Import Ascii.
From stdpp Require Import base tactics numbers countable list option strings gmap sorting.
From S2P Require Import Prelude GoStd.

(** ** Trees. *)

Record Meta := mkMeta { m_mode : Z; m_uid : Z; m_gid : Z; m_mtime : Z }.

Inductive Node :=
| NFile (content : list Z) (m : Meta)
| NDir (m : Meta)
| NLink (target : string) (m : Meta).

(** Absolute paths, by component; the root directory is always there. *)
Abbreviation FPath := (list string).

Abbreviation Tree := (@gmap (list string) (@list_eq_dec string String.eq_dec)
  (@list_countable string String.eq_dec String.countable) Node).

Inductive errno := ENOENT | EEXIST | ENOTDIR | EISDIR | ENOTEMPTY | ELOOP | EIO | EREMOTEIO | EACCES.

#[export] Instance errno_eq_dec : EqDecision errno.
Proof. solve_decision. Defined.

(** An error that carries its number, an error formatted into a text with [%v],
    which loses it, and a cancelled context. *)
Inductive error := Errno (e : errno) | Text (msg : string) | Canceled.

(** [err.Error()], without the text of the cause. *)
Definition ErrorText (e : error) : string :=
  match e with Errno _ => "i/o error" | Text msg => msg | Canceled => "context canceled" end.

Definition IsNotExist (e : error) : bool := match e with Errno ENOENT => true | _ => false end.

(** ** Programs: the tree, the faults to come, a result. *)

Record World := mkWorld { tree : Tree; faults : list (option errno) }.

Definition M (A : Type) : Type := World -> World * result error A.

#[export] Instance M_ret : MRet M := fun A a w => (w, Ok a).

#[export] Instance M_bind : MBind M :=
  fun A B f m w => match m w with (w', Ok a) => f a w' | (w', Err e) => (w', Err e) end.

Definition throw {A : Type} (e : error) : M A := fun w => (w, Err e).

(** The result as a value: [if err := ...; err != nil]. *)
Definition attempt {A : Type} (m : M A) : M (result error A) := fun w => let '(w', r) := m w in (w', Ok r).

Definition with_error {A : Type} (msg : string) (m : M A) : M A :=
  fun w => match m w with (w', Ok a) => (w', Ok a) | (w', Err _) => (w', Err (Text msg)) end.

Definition next_fault : M (option errno) :=
  fun w => match faults w with
           | [] => (w, Ok None)
           | f :: fs => (mkWorld (tree w) fs, Ok f)
           end.

(** An operation of the kernel: it may fail, else it does its work. *)
Definition syscall {A : Type} (op : Tree -> Tree * result errno A) : M A :=
  f ← next_fault;
  match f with
  | Some e => throw (Errno e)
  | None => fun w => match op (tree w) with
                     | (t, Ok a) => (mkWorld t (faults w), Ok a)
                     | (t, Err e) => (mkWorld t (faults w), Err (Errno e))
                     end
  end.

(** [ctx.Err()]. *)
Definition ctx_err : M unit :=
  f ← next_fault; match f with Some _ => throw Canceled | None => mret tt end.

(** ** Path resolution. *)

(** From directory [cur], follow [todo]; links are followed on the way, and at
    the end if [follow]. The last component need not exist. *)
Fixpoint resolve (links : nat) (follow : bool) (t : Tree) (cur todo : FPath) {struct links} :
    result errno FPath :=
  (fix go (cur todo : FPath) {struct todo} : result errno FPath :=
     match todo with
     | [] => Ok cur
     | seg :: rest =>
         if (seg =? "")%string || (seg =? ".")%string then go cur rest
         else if (seg =? "..")%string then go (removelast cur) rest
         else
           let p := cur ++ [seg] in
           match t !! p with
           | None => match rest with [] => Ok p | _ => Err ENOENT end
           | Some (NDir _) => go p rest
           | Some (NFile _ _) => match rest with [] => Ok p | _ => Err ENOTDIR end
           | Some (NLink target _) =>
               if match rest with [] => negb follow | _ => false end then Ok p
               else match links with
                    | O => Err ELOOP
                    | S links' =>
                        resolve links' follow t (if HasPrefix target "/" then [] else cur)
                          (Split target "/"%char ++ rest)
                    end
           end
     end) cur todo.

(** The kernel follows forty links. *)
Definition max_links : nat := 40.

Definition lookup_path (follow : bool) (t : Tree) (p : FPath) : result errno FPath :=
  resolve max_links follow t [] p.

Definition parent (p : FPath) : FPath := removelast p.

Section Operations.
(** The time of a modification; who creates files; the mode left by the umask. *)
Variable now : Z.
Variable owner : Z * Z.
Variable umasked : Z -> Z.

Definition set_mtime (mtime : Z) (m : Meta) : Meta := mkMeta (m_mode m) (m_uid m) (m_gid m) mtime.

Definition on_meta (f : Meta -> Meta) (n : Node) : Node :=
  match n with
  | NFile c m => NFile c (f m)
  | NDir m => NDir (f m)
  | NLink target m => NLink target (f m)
  end.

(** Adding or removing an entry changes the time of its directory. *)
Definition touch (p : FPath) (t : Tree) : Tree := alter (on_meta (set_mtime now)) (parent p) t.

Definition new_meta (mode : Z) : Meta := mkMeta (umasked mode) owner.1 owner.2 now.

(** The names in a directory, sorted. *)
Definition children (t : Tree) (p : FPath) : list string :=
  Strings (omap (fun kv => match reverse kv.1 with
                           | seg :: up => if decide (reverse up = p) then Some seg else None
                           | [] => None
                           end) (map_to_list t)).

Definition at_path {A : Type} (follow : bool) (p : FPath) (op : FPath -> Tree -> Tree * result errno A)
    (t : Tree) : Tree * result errno A :=
  match lookup_path follow t p with
  | Ok q => op q t
  | Err e => (t, Err e)
  end.

Definition fails {A : Type} (e : errno) (t : Tree) : Tree * result errno A := (t, Err e).

Definition Lstat (p : FPath) : M Node :=
  syscall (at_path false p (fun q t => match t !! q with Some n => (t, Ok n) | None => fails ENOENT t end)).

Definition ReadDir (p : FPath) : M (list string) :=
  syscall (at_path true p (fun q t =>
    match t !! q with
    | Some (NDir _) => (t, Ok (children t q))
    | Some _ => fails ENOTDIR t
    | None => fails ENOENT t
    end)).

Definition Mkdir (p : FPath) (mode : Z) : M unit :=
  syscall (at_path false p (fun q t =>
    match t !! q with
    | Some _ => fails EEXIST t
    | None => (<[q := NDir (new_meta mode)]> (touch q t), Ok tt)
    end)).

Definition Remove (p : FPath) : M unit :=
  syscall (at_path false p (fun q t =>
    match t !! q with
    | None => fails ENOENT t
    | Some (NDir _) =>
        match children t q with
        | [] => (touch q (delete q t), Ok tt)
        | _ => fails ENOTEMPTY t
        end
    | Some _ => (touch q (delete q t), Ok tt)
    end)).

Definition RemoveAll (p : FPath) : M unit :=
  syscall (at_path false p (fun q t =>
    match t !! q with
    | None => (t, Ok tt)
    | Some _ => (touch q (filter (fun kv => ~ q `prefix_of` kv.1) t), Ok tt)
    end)).

Definition Symlink (target : string) (p : FPath) : M unit :=
  syscall (at_path false p (fun q t =>
    match t !! q with
    | Some _ => fails EEXIST t
    | None => (<[q := NLink target (new_meta 511)]> (touch q t), Ok tt)
    end)).

(** Renaming a file or a link; the committer renames nothing else. *)
Definition Rename (src dst : FPath) : M unit :=
  syscall (fun t =>
    match lookup_path false t src, lookup_path false t dst with
    | Ok q1, Ok q2 =>
        match t !! q1, t !! q2 with
        | None, _ => fails ENOENT t
        | Some (NDir _), _ => fails EISDIR t
        | Some _, Some (NDir _) => fails EISDIR t
        | Some n, _ => (<[q2 := n]> (touch q2 (touch q1 (delete q1 t))), Ok tt)
        end
    | Err e, _ => fails e t
    | _, Err e => fails e t
    end).

(** A change of metadata; only [Lchown] does not follow a link at the end. *)
Definition change_meta (follow : bool) (p : FPath) (f : Meta -> Meta) : M unit :=
  syscall (at_path follow p (fun q t =>
    match t !! q with
    | None => fails ENOENT t
    | Some n => (<[q := on_meta f n]> t, Ok tt)
    end)).

(** The mode [os.Chmod] gives the system for an [fs.FileMode]: the permission
    bits, and the set-user, set-group and sticky bits from their places. *)
Definition syscallMode (mode : Z) : Z :=
  Z.lor (Z.land mode 511)
    (Z.lor (if Z.testbit mode 23 then 2048 else 0)
       (Z.lor (if Z.testbit mode 22 then 1024 else 0) (if Z.testbit mode 20 then 512 else 0))).

Definition Chmod (p : FPath) (mode : Z) : M unit :=
  change_meta true p (fun m => mkMeta (syscallMode mode) (m_uid m) (m_gid m) (m_mtime m)).

Definition Chown (p : FPath) (uid gid : Z) : M unit :=
  change_meta true p (fun m => mkMeta (m_mode m) uid gid (m_mtime m)).

Definition Lchown (p : FPath) (uid gid : Z) : M unit :=
  change_meta false p (fun m => mkMeta (m_mode m) uid gid (m_mtime m)).

Definition Chtimes (p : FPath) (mtime : Z) : M unit := change_meta true p (set_mtime mtime).

(** Opening for writing, created if missing, truncated: where the file is. *)
Definition OpenFile (p : FPath) (mode : Z) : M FPath :=
  syscall (at_path true p (fun q t =>
    match t !! q with
    | Some (NDir _) => fails EISDIR t
    | Some (NFile _ m) => (<[q := NFile [] (set_mtime now m)]> t, Ok q)
    | Some (NLink _ _) => fails ELOOP t
    | None => (<[q := NFile [] (new_meta mode)]> (touch q t), Ok q)
    end)).

(** Writing an open file. *)
Definition WriteFile (q : FPath) (content : list Z) : M unit :=
  syscall (fun t =>
    match t !! q with
    | Some (NFile _ m) => (<[q := NFile content (set_mtime now m)]> t, Ok tt)
    | _ => fails ENOENT t
    end).

Definition ReadFile (p : FPath) : M (list Z) :=
  syscall (at_path true p (fun q t =>
    match t !! q with
    | Some (NFile c _) => (t, Ok c)
    | Some (NDir _) => fails EISDIR t
    | Some (NLink _ _) => fails ELOOP t
    | None => fails ENOENT t
    end)).
End Operations.
