(* ===== verification/FileTreeFacts.v ===== *)
(** * Reasoning about programs on a file tree: weakest preconditions over all
    schedules of faults, paths without links, and what an operation leaves as
    it was. *)

From Stdlib Require Import Ascii.
From stdpp Require Import base tactics numbers countable list option strings gmap sorting.
From S2P Require Import Prelude GoStd Manifest FileTree.

(** ** Weakest preconditions. *)

(** Whatever faults come, the result and the tree are in [Q]. *)
Definition wp {A : Type} (m : M A) (Q : Tree -> result error A -> Prop) (t : Tree) : Prop :=
  forall fs, Q (tree (m (mkWorld t fs)).1) (m (mkWorld t fs)).2.

Lemma wp_at {A : Type} (m : M A) Q w : wp m Q (tree w) -> Q (tree (m w).1) (m w).2.
Proof. destruct w as [t fs]. intros H. apply H. Qed.

Lemma wp_ret {A : Type} (a : A) Q t : Q t (Ok a) -> wp (mret a) Q t.
Proof. by intros H fs. Qed.

Lemma wp_throw {A : Type} (e : error) (Q : Tree -> result error A -> Prop) t : Q t (Err e) -> wp (throw e) Q t.
Proof. by intros H fs. Qed.

Lemma wp_bind {A B : Type} (m : M A) (f : A -> M B) Q t :
  wp m (fun t' r => match r with Ok a => wp (f a) Q t' | Err e => Q t' (Err e) end) t -> wp (m ≫= f) Q t.
Proof.
  intros H fs. specialize (H fs). unfold mbind, M_bind. destruct (m (mkWorld t fs)) as [w' [a|e]]; simpl in *.
  - by apply wp_at in H.
  - done.
Qed.

Lemma wp_mono {A : Type} (m : M A) (Q Q' : Tree -> result error A -> Prop) t :
  wp m Q t -> (forall t' r, Q t' r -> Q' t' r) -> wp m Q' t.
Proof. intros H HQ fs. apply HQ, H. Qed.

Lemma wp_attempt {A : Type} (m : M A) Q t : wp m (fun t' r => Q t' (Ok r)) t -> wp (attempt m) Q t.
Proof. intros H fs. specialize (H fs). unfold attempt. by destruct (m (mkWorld t fs)). Qed.

Lemma wp_with_error {A : Type} msg (m : M A) Q t :
  wp m (fun t' r => match r with Ok a => Q t' (Ok a) | Err _ => Q t' (Err (Text msg)) end) t ->
  wp (with_error msg m) Q t.
Proof. intros H fs. specialize (H fs). unfold with_error. by destruct (m (mkWorld t fs)) as [w' []]. Qed.

Lemma wp_next_fault Q t : (forall f, Q t (Ok f)) -> wp next_fault Q t.
Proof. intros H [|f fs]; apply H. Qed.

Lemma wp_ctx_err Q t : Q t (Ok tt) -> Q t (Err Canceled) -> wp ctx_err Q t.
Proof. intros H1 H2. apply wp_bind, wp_next_fault. intros [e|]; [by apply wp_throw|by apply wp_ret]. Qed.

(** An operation fails without an effect, or does its work. *)
Lemma wp_syscall {A : Type} (op : Tree -> Tree * result errno A) (Q : Tree -> result error A -> Prop) t :
  (forall e, Q t (Err (Errno e))) ->
  (match op t with (t', Ok a) => Q t' (Ok a) | (t', Err e) => Q t' (Err (Errno e)) end) ->
  wp (syscall op) Q t.
Proof.
  intros He Hop. apply wp_bind, wp_next_fault. intros [e|]; [by apply wp_throw|].
  intros fs. simpl. by destruct (op t) as [t' [a|e]].
Qed.

(** ** Nodes up to the times of directories. *)

Definition sim (n n' : option Node) : Prop :=
  match n, n' with
  | Some (NDir m), Some (NDir m') => set_mtime 0 m = set_mtime 0 m'
  | _, _ => n = n'
  end.

#[export] Instance sim_equiv : Equivalence sim.
Proof.
  split.
  - intros [[]|]; done.
  - intros [[]|] [[]|]; simpl; congruence.
  - intros [[]|] [[]|] [[]|]; simpl; congruence.
Qed.

Definition is_dir (t : Tree) (p : FPath) : Prop := exists m, t !! p = Some (NDir m).

Definition not_link (t : Tree) (p : FPath) : Prop := forall target m, t !! p <> Some (NLink target m).

(** No component before the last is anything but a directory. *)
Definition visible (t : Tree) (p : FPath) : Prop :=
  forall q seg rest, p = q ++ seg :: rest -> q <> [] -> is_dir t q.

Definition safe (p : FPath) : Prop := p <> [] /\ Forall safe_segment p.

Lemma sim_is_dir t t' p : sim (t !! p) (t' !! p) -> is_dir t p -> is_dir t' p.
Proof. intros H [m Hm]. unfold is_dir. rewrite Hm in H. destruct (t' !! p) as [[]|]; try done. by eexists. Qed.

Lemma sim_not_link t t' p : sim (t !! p) (t' !! p) -> not_link t p -> not_link t' p.
Proof.
  intros H Hn target m Hl. rewrite Hl in H. destruct (t !! p) as [[]|] eqn:Ht; try done.
  simpl in H. injection H as -> ->. by apply (Hn target m).
Qed.

Lemma is_dir_not_link t p : is_dir t p -> not_link t p.
Proof. intros [m Hm] target m' Hl. congruence. Qed.

Lemma visible_app t p q : visible t (p ++ q) -> visible t p.
Proof. intros H r seg rest -> Hr. apply (H r seg (rest ++ q)); [|done]. by rewrite <- app_assoc. Qed.

Lemma visible_parent t p seg q : p <> [] -> visible t (p ++ seg :: q) -> is_dir t p.
Proof. intros Hp H. by apply (H p seg q). Qed.

Lemma visible_snoc t p seg : visible t p -> (p <> [] -> is_dir t p) -> visible t (p ++ [seg]).
Proof.
  intros Hv Hd q s rest Heq Hq. induction rest as [|x l _] using rev_ind.
  - apply app_inj_tail in Heq as [<- _]. by apply Hd.
  - rewrite app_comm_cons, (assoc_L (++)) in Heq. apply app_inj_tail in Heq as [-> _]. by apply (Hv q s l).
Qed.

Lemma visible_snoc_inv t p seg : visible t (p ++ [seg]) -> visible t p /\ (p <> [] -> is_dir t p).
Proof. intros H. split; [by eapply visible_app|]. intros Hp. by apply (H p seg []). Qed.

(** ** Resolution. *)

Lemma resolve_cons links follow t cur seg rest :
  resolve links follow t cur (seg :: rest) =
  if (seg =? "")%string || (seg =? ".")%string then resolve links follow t cur rest
  else if (seg =? "..")%string then resolve links follow t (removelast cur) rest
  else match t !! (cur ++ [seg]) with
       | None => match rest with [] => Ok (cur ++ [seg]) | _ => Err ENOENT end
       | Some (NDir _) => resolve links follow t (cur ++ [seg]) rest
       | Some (NFile _ _) => match rest with [] => Ok (cur ++ [seg]) | _ => Err ENOTDIR end
       | Some (NLink target _) =>
           if match rest with [] => negb follow | _ => false end then Ok (cur ++ [seg])
           else match links with
                | O => Err ELOOP
                | S links' =>
                    resolve links' follow t (if HasPrefix target "/" then [] else cur)
                      (Split target "/"%char ++ rest)
                end
       end.
Proof. by destruct links. Qed.

Lemma resolve_nil links follow t cur : resolve links follow t cur [] = Ok cur.
Proof. by destruct links. Qed.

(** A visible path resolves to itself; a link at its end is not followed if
    there is none, or if the operation does not follow. *)
Lemma resolve_visible links follow t cur todo :
  Forall safe_segment todo ->
  (forall pre seg rest, todo = pre ++ seg :: rest -> pre <> [] -> is_dir t (cur ++ pre)) ->
  (follow = true -> not_link t (cur ++ todo)) ->
  resolve links follow t cur todo = Ok (cur ++ todo).
Proof.
  revert cur. induction todo as [|seg rest IH]; intros cur Hs Hd Hl.
  - by rewrite resolve_nil, app_nil_r.
  - apply Forall_cons in Hs as [(H1 & H2 & H3 & _) Hs]. rewrite resolve_cons.
    apply String.eqb_neq in H1, H2, H3. rewrite H1, H2, H3. cbn [orb].
    destruct rest as [|seg' rest].
    + destruct (t !! (cur ++ [seg])) as [[c m|m|target m]|] eqn:Hn; [done|by rewrite resolve_nil| |done].
      destruct follow; [|done]. by destruct (Hl eq_refl target m).
    + destruct (Hd [seg] seg' rest) as [m Hm]; [done|done|]. rewrite Hm, IH.
      * by rewrite <- (assoc_L (++)).
      * done.
      * intros pre s r Heq Hp. rewrite <- (assoc_L (++)). apply (Hd (seg :: pre) s r); [simpl; congruence|done].
      * intros Hf. rewrite <- (assoc_L (++)). by apply Hl.
Qed.

Lemma lookup_visible follow t p :
  safe p -> visible t p -> (follow = true -> not_link t p) -> lookup_path follow t p = Ok p.
Proof.
  intros [_ Hs] Hv Hl. unfold lookup_path. apply (resolve_visible _ follow t [] p); try done.
Qed.

(** ** Touching a directory. *)

Lemma set_mtime_twice a b m : set_mtime a (set_mtime b m) = set_mtime a m.
Proof. by destruct m. Qed.

Section Touch.
Variable now : Z.

Lemma touch_other p q t : parent p <> q -> touch now p t !! q = t !! q.
Proof. intros H. unfold touch. by apply lookup_alter_ne. Qed.

Lemma touch_sim p q t : is_dir t (parent p) \/ t !! parent p = None -> sim (t !! q) (touch now p t !! q).
Proof.
  intros H. destruct (decide (parent p = q)) as [<-|Hne]; [|by rewrite touch_other].
  unfold touch. rewrite lookup_alter_eq. destruct H as [[m ->]| ->]; [|done].
  simpl. by destruct m.
Qed.

Lemma touch_None p q t : touch now p t !! q = None <-> t !! q = None.
Proof.
  destruct (decide (parent p = q)) as [<-|Hne]; [|by rewrite touch_other].
  unfold touch. rewrite lookup_alter_eq. by destruct (t !! parent p).
Qed.
End Touch.

Lemma parent_snoc p seg : parent (p ++ [seg]) = p.
Proof. unfold parent. by rewrite removelast_last. Qed.

(** ** Children. *)

Lemma elem_of_children t p name : name ∈ children t p <-> is_Some (t !! (p ++ [name])).
Proof.
  unfold children. rewrite elem_of_Strings, list_elem_of_omap. split.
  - intros ([q n] & Hq & Hm). apply elem_of_map_to_list in Hq. cbn [fst] in Hm.
    destruct (reverse q) as [|seg up] eqn:Hr; [done|]. destruct (decide (reverse up = p)) as [<-|]; [|done].
    injection Hm as <-. apply (f_equal reverse) in Hr. rewrite reverse_involutive, reverse_cons in Hr.
    subst q. by exists n.
  - intros [n Hn]. exists (p ++ [name], n). split; [by apply elem_of_map_to_list|]. cbn [fst].
    rewrite reverse_snoc. by rewrite reverse_involutive, decide_True.
Qed.
