(* ===== verification/CommitFS.v ===== *)
(** * Committing a transfer into a directory tree
    ([src/datamover/internal/ingest/commit_fs.go]).

    The committer as a program over [FileTree]: every call of package [os] is
    one operation that may fail, and a call of [ctx.Err] is one that may find
    the context cancelled. The staged chunks are outside of the tree (the state
    directory is skipped by the deletion pass). Backoff sleeps are left out. *)

From Stdlib Require Import Ascii.
From stdpp Require Import base tactics numbers countable list option strings gmap sorting.
From S2P Require Import Prelude GoStd Sha256 Wire Manifest Chunk Staging Ingest FileTree.

(** ** Retries. *)

Definition ioRetryAttempts : nat := 5.

(** An error formatted with [%v] carries no number. *)
Definition isTransientIO (e : error) : bool :=
  match e with Errno EIO | Errno EREMOTEIO => true | _ => false end.

Fixpoint retry_loop {A : Type} (attempts : nat) (fn : M A) : M A :=
  match attempts with
  | O => throw (Text "no attempts")
  | S attempts' =>
      r ← attempt fn;
      match r with
      | Ok a => mret a
      | Err e =>
          if isTransientIO e then match attempts' with O => throw e | _ => retry_loop attempts' fn end
          else throw e
      end
  end.

Definition retryIO {A : Type} (fn : M A) : M A := retry_loop ioRetryAttempts fn.

Definition lstatRetry (p : FPath) : M Node := retryIO (Lstat p).

Definition readDirRetry (p : FPath) : M (list string) := retryIO (ReadDir p).

(** ** Paths. *)

(** The parent of a manifest path. *)
Definition parentDir (p : string) : string :=
  match LastIndexByte p "/"%char with Some i => str_take i p | None => "" end.

(** [filepath.Join(root, p)] of a clean relative path. *)
Definition join (root : FPath) (p : string) : FPath := root ++ Split p "/"%char.

(** [final + suffix]. *)
Definition with_suffix (p : FPath) (suffix : string) : FPath :=
  match reverse p with
  | [] => [suffix]
  | base :: up => reverse up ++ [String.append base suffix]
  end.

Section Committer.
Variable now : Z.
Variable owner : Z * Z.
Variable umasked : Z -> Z.
(** Whether the mover runs as root, and what a failed write leaves. *)
Variable geteuid0 : bool.
Variable torn : list Z -> list Z.
(** The transfer: its state, the disk with the staged chunks, the root and the
    name of the state directory in it. *)
Variable st : State.
Variable staged : Disk.
Variable root : FPath.
Variable stateDir : FPath.

Definition mkdirRetry (p : FPath) : M unit := retryIO (Mkdir now owner umasked p 493).

(** One component of [ensureRealDir]. *)
Definition ensure_component (current : FPath) : M unit :=
  r ← attempt (lstatRetry current);
  match r with
  | Err e =>
      if IsNotExist e then with_error "creating directory" (mkdirRetry current)
      else throw (Text "stating path component")
  | Ok (NDir _) => mret tt
  | Ok _ =>
      _ ← with_error "replacing stale entry" (retryIO (Remove now current));
      with_error "creating directory" (mkdirRetry current)
  end.

Fixpoint ensure_loop (current : FPath) (segs : list string) : M unit :=
  match segs with
  | [] => mret tt
  | seg :: segs' => _ ← ensure_component (current ++ [seg]); ensure_loop (current ++ [seg]) segs'
  end.

Definition ensureRealDir (relDir : string) : M unit :=
  if (relDir =? ".")%string || (relDir =? "")%string then mret tt
  else ensure_loop root (Split relDir "/"%char).

Definition chown_if_root (msg : string) (m : M unit) : M unit :=
  if geteuid0 then with_error msg (retryIO m) else mret tt.

(** ** Entries. *)

Definition commitDir (e : Entry) : M FileResult :=
  r ← attempt (ensureRealDir (Path e));
  match r with
  | Err err => mret (mkFileResult (Path e) "" false (ErrorText err))
  | Ok _ =>
      let final := join root (Path e) in
      m ← attempt (with_error "applying mode" (retryIO (Chmod final (Mode e))));
      match m with
      | Err err => mret (mkFileResult (Path e) "" true (ErrorText err))
      | Ok _ =>
          o ← attempt (chown_if_root "applying ownership" (Chown final (UID e) (GID e)));
          mret (mkFileResult (Path e) "" true (match o with Err err => ErrorText err | Ok _ => "" end))
      end
  end.

(** The content is assembled from the staged chunks; a failed write leaves a
    torn file. *)
Definition assembleTo (i : nat) (part : FPath) : M unit :=
  f ← with_error "creating assembly file" (OpenFile now owner umasked part 384);
  r ← attempt
        (match AssembleEntry st staged i with
         | Some (Ok c) =>
             w ← attempt (WriteFile now f c);
             match w with
             | Ok _ => mret tt
             | Err err => _ ← attempt (fun w => (mkWorld
                   (match tree w !! f with Some (NFile _ m) => <[f := NFile (torn c) m]> (tree w) | _ => tree w end)
                   (faults w), Ok tt));
                 throw err
             end
         | _ => throw (Text "chunk")
         end);
  match r with
  | Ok _ => mret tt
  | Err _ => _ ← attempt (Remove now part); throw (Text "assembling")
  end.

Definition hashFile (p : FPath) : M string :=
  c ← with_error "opening assembled file" (ReadFile p);
  mret (hex_encode (Sum256_bytes c)).

Definition replaceIfDir (final : FPath) : M unit :=
  r ← attempt (lstatRetry final);
  match r with
  | Err e => if IsNotExist e then mret tt else throw (Text "stating target path")
  | Ok (NDir _) => with_error "removing stale directory" (retryIO (RemoveAll now final))
  | Ok _ => mret tt
  end.

Definition applyAndRename (e : Entry) (part final : FPath) : M unit :=
  _ ← with_error "applying mode" (retryIO (Chmod part (Mode e)));
  _ ← chown_if_root "applying ownership" (Chown part (UID e) (GID e));
  _ ← with_error "applying mtime" (retryIO (Chtimes part (MtimeUnixNano e)));
  _ ← replaceIfDir final;
  with_error "renaming into place" (retryIO (Rename now part final)).

Definition commitFile (i : nat) (e : Entry) : M FileResult :=
  r ← attempt (ensureRealDir (parentDir (Path e)));
  match r with
  | Err err => mret (mkFileResult (Path e) "" false (ErrorText err))
  | Ok _ =>
      let final := join root (Path e) in
      let part := with_suffix final ".kipper-part" in
      a ← attempt (retryIO (assembleTo i part));
      match a with
      | Err err => mret (mkFileResult (Path e) "" false (ErrorText err))
      | Ok _ =>
          h ← attempt (retryIO (hashFile part));
          match h with
          | Err err => mret (mkFileResult (Path e) "" false (ErrorText err))
          | Ok sum =>
              if negb (sum =? SHA256 e)%string then
                _ ← attempt (Remove now part);
                mret (mkFileResult (Path e) sum false "sha256 mismatch after assembly")
              else
                m ← attempt (applyAndRename e part final);
                mret (mkFileResult (Path e) sum true (match m with Err err => ErrorText err | Ok _ => "" end))
          end
      end
  end.

Definition commit_link (e : Entry) : M unit :=
  _ ← ensureRealDir (parentDir (Path e));
  let final := join root (Path e) in
  _ ← replaceIfDir final;
  let tmp := with_suffix final ".kipper-link" in
  r ← attempt (retryIO (Remove now tmp));
  _ ← match r with
      | Err err => if IsNotExist err then mret tt else throw (Text "clearing temp link")
      | Ok _ => mret tt
      end;
  _ ← with_error "creating symlink" (retryIO (Symlink now owner umasked (LinkTarget e) tmp));
  _ ← chown_if_root "applying link ownership" (Lchown tmp (UID e) (GID e));
  with_error "renaming link into place" (retryIO (Rename now tmp final)).

Definition commitSymlink (e : Entry) : M FileResult :=
  r ← attempt (commit_link e);
  mret match r with
       | Ok _ => mkFileResult (Path e) "" true ""
       | Err err => mkFileResult (Path e) "" false (ErrorText err)
       end.

(** ** The deletion pass. *)

Definition kept (es : list Entry) : gset string := list_to_set (Path <$> es).

(** [path.Join(rel, name)]. *)
Definition rel_join (rel name : string) : string :=
  if (rel =? "")%string then name else String.append rel (String.append "/" name).

(** The state of a walk: what was deleted, and the directories to prune. *)
Definition Walked : Type := list string * list (string * FPath).

Fixpoint walk_entries (walk : FPath -> string -> Walked -> M Walked) (keep : gset string)
    (dir : FPath) (rel : string) (names : list string) (acc : Walked) : M Walked :=
  match names with
  | [] => mret acc
  | name :: names' =>
      _ ← ctx_err;
      let child := dir ++ [name] in
      if decide (child = stateDir) then walk_entries walk keep dir rel names' acc
      else
        let childRel := rel_join rel name in
        info ← with_error "deletion pass: stat" (lstatRetry child);
        match info with
        | NDir _ =>
            acc' ← walk child childRel acc;
            walk_entries walk keep dir rel names'
              (acc'.1, if decide (childRel ∈ keep) then acc'.2 else acc'.2 ++ [(childRel, child)])
        | _ =>
            if decide (childRel ∈ keep) then walk_entries walk keep dir rel names' acc
            else
              _ ← with_error "deletion pass: removing stray" (retryIO (Remove now child));
              walk_entries walk keep dir rel names' (acc.1 ++ [childRel], acc.2)
        end
  end.

(** The recursion into directories, [fuel] deep. *)
Fixpoint walk (fuel : nat) (keep : gset string) (dir : FPath) (rel : string) (acc : Walked) : M Walked :=
  match fuel with
  | O => throw (Text "deletion pass: too deep")
  | S fuel' =>
      _ ← ctx_err;
      names ← with_error "deletion pass: reading" (readDirRetry dir);
      walk_entries (walk fuel' keep) keep dir rel names acc
  end.

(** Longer than any path of the tree. *)
Definition tree_depth (t : Tree) : nat := S (max_list (length <$> (map_to_list t).*1)).

(** Deepest first: longer names first. *)
Definition longer (a b : string * FPath) : Prop := (String.length b.1 <= String.length a.1)%nat.

#[export] Instance longer_dec : RelDecision longer.
Proof. intros a b. unfold longer. apply _. Defined.

Fixpoint prune (dirs : list (string * FPath)) : M unit :=
  match dirs with
  | [] => mret tt
  | (_, dir) :: dirs' =>
      names ← with_error "deletion pass: reading" (readDirRetry dir);
      _ ← match names with
          | [] => _ ← attempt (retryIO (Remove now dir)); mret tt
          | _ => mret tt
          end;
      prune dirs'
  end.

Definition deletionPass (m : Manifest) : M (list string) :=
  fuel ← (fun w => (w, Ok (tree_depth (tree w))));
  acc ← walk fuel (kept (Entries m)) root "" ([], []);
  _ ← prune (merge_sort longer acc.2);
  mret acc.1.

(** ** The commit. *)

Fixpoint commit_files (i : nat) (es : list Entry) (results : gmap string FileResult) :
    M (gmap string FileResult) :=
  match es with
  | [] => mret results
  | e :: es' =>
      _ ← ctx_err;
      if (Type_ e =? TypeDir)%string then
        r ← commitDir e; commit_files (S i) es' (<[Path e := r]> results)
      else if (Type_ e =? TypeFile)%string then
        r ← commitFile i e; commit_files (S i) es' (<[Path e := r]> results)
      else commit_files (S i) es' results
  end.

Fixpoint commit_links (es : list Entry) (results : gmap string FileResult) : M (gmap string FileResult) :=
  match es with
  | [] => mret results
  | e :: es' =>
      if (Type_ e =? TypeSymlink)%string then
        r ← commitSymlink e; commit_links es' (<[Path e := r]> results)
      else commit_links es' results
  end.

(** The zero value a missing key of the result map yields. *)
Definition no_result : FileResult := mkFileResult "" "" false "".

Definition result_of (results : gmap string FileResult) (e : Entry) : FileResult :=
  default no_result (results !! Path e).

Definition longer_path (a b : Entry) : Prop := (String.length (Path b) <= String.length (Path a))%nat.

#[export] Instance longer_path_dec : RelDecision longer_path.
Proof. intros a b. unfold longer_path. apply _. Defined.

Fixpoint apply_times (dirs : list Entry) (results : gmap string FileResult) : M (gmap string FileResult) :=
  match dirs with
  | [] => mret results
  | e :: dirs' =>
      r ← attempt (with_error "applying mtime" (retryIO (Chtimes (join root (Path e)) (MtimeUnixNano e))));
      apply_times dirs'
        match r with
        | Ok _ => results
        | Err err => let res := result_of results e in
            <[Path e := mkFileResult (FR_Path res) (FR_SHA256 res) (Match res) (ErrorText err)]> results
        end
  end.

Definition applyDirTimes (results : gmap string FileResult) : M (gmap string FileResult) :=
  apply_times (merge_sort longer_path
    (filter (fun e => Type_ e = TypeDir /\ Match (result_of results e) = true) (Entries (Man st)))) results.

Definition Commit : M Report :=
  results1 ← commit_files 0 (Entries (Man st)) ∅;
  results2 ← commit_links (Entries (Man st)) results1;
  deleted ← deletionPass (Man st);
  results3 ← applyDirTimes results2;
  mret (mkReport (result_of results3 <$> Entries (Man st)) deleted).
End Committer.
