(* ===== verification/CommitFSFacts.v ===== *)
(** * What each part of the file-tree committer changes

    Weakest preconditions of the committer's operations on paths without links,
    and of the parts of a commit: creating directories, replacing what stands
    in the way, metadata, the deletion pass. *)

From Stdlib Require Import Ascii.
From stdpp Require Import base tactics numbers countable list option strings gmap sorting.
From S2P Require Import Prelude GoStd Sha256 Wire Manifest Chunk Staging Ingest FileTree FileTreeFacts CommitFS.

(** ** Retries. *)

Lemma wp_retry {A : Type} (m : M A) (Q : Tree -> result error A -> Prop) (t : Tree) (J : Tree -> Prop) :
  J t ->
  (forall t, J t -> wp m (fun t' r => match r with Ok a => Q t' (Ok a) | Err e => J t' /\ Q t' (Err e) end) t) ->
  wp (retryIO m) Q t.
Proof.
  intros HJ Hm. unfold retryIO, ioRetryAttempts. generalize 4%nat. intros n. revert t HJ.
  induction n as [|n IH]; intros t HJ; apply wp_bind, wp_attempt; (eapply wp_mono; [by apply Hm|]);
    intros t' [a|e] H; try (by apply wp_ret); destruct H as [HJ' HQ]; destruct (isTransientIO e);
    try (by apply wp_throw). by apply IH.
Qed.

(** An operation of the kernel on a path that resolves to itself, retried. *)
Lemma wp_retry_op {A : Type} follow p (op : FPath -> Tree -> Tree * result errno A)
    (Q : Tree -> result error A -> Prop) (t : Tree) :
  lookup_path follow t p = Ok p ->
  (forall t' e, op p t = (t', Err e) -> t' = t) ->
  (forall e, Q t (Err (Errno e))) ->
  (forall t' a, op p t = (t', Ok a) -> Q t' (Ok a)) ->
  wp (retryIO (syscall (at_path follow p op))) Q t.
Proof.
  intros Hp Hq He Ha. apply (wp_retry _ _ _ (fun t' => t' = t)); [done|]. intros ? ->.
  apply wp_syscall; [done|]. unfold at_path. rewrite Hp.
  destruct (op p t) as [t' [a|e]] eqn:Hop; [by apply Ha|]. rewrite (Hq t' e eq_refl). done.
Qed.

Lemma wp_op {A : Type} follow p (op : FPath -> Tree -> Tree * result errno A)
    (Q : Tree -> result error A -> Prop) (t : Tree) :
  lookup_path follow t p = Ok p ->
  (forall t' e, op p t = (t', Err e) -> t' = t) ->
  (forall e, Q t (Err (Errno e))) ->
  (forall t' a, op p t = (t', Ok a) -> Q t' (Ok a)) ->
  wp (syscall (at_path follow p op)) Q t.
Proof.
  intros Hp Hq He Ha. apply wp_syscall; [done|]. unfold at_path. rewrite Hp.
  destruct (op p t) as [t' [a|e]] eqn:Hop; [by apply Ha|]. rewrite (Hq t' e eq_refl). done.
Qed.

(** Solve the side condition that a failed operation leaves the tree alone. *)
Ltac quiet := unfold fails; intros ? ? ?; repeat case_match; simplify_eq; done.

Section Facts.
Variable now : Z.
Variable owner : Z * Z.
Variable umasked : Z -> Z.
Variable geteuid0 : bool.
Variable torn : list Z -> list Z.
Variable root : FPath.
Hypothesis root_safe : safe root.

(** ** Steps. *)

Definition tree_ok (t : Tree) : Prop := forall p n, t !! p = Some n -> Forall safe_segment p.

(** Up to the times of directories, only paths in [own] change; nothing
    outside of the root does; the names stay names. *)
Record step (own : FPath -> Prop) (t t' : Tree) : Prop := {
  step_sim : forall q, ~ own q -> sim (t !! q) (t' !! q);
  step_outside : forall q, ~ root `prefix_of` q -> t' !! q = t !! q;
  step_ok : tree_ok t -> tree_ok t'
}.

Lemma step_refl own t : step own t t.
Proof. by split. Qed.

Lemma step_trans own t1 t2 t3 : step own t1 t2 -> step own t2 t3 -> step own t1 t3.
Proof.
  intros [H1 H2 H3] [H4 H5 H6]. split.
  - intros q Hq. etrans; [by apply H1|by apply H4].
  - intros q Hq. by rewrite H5, H2.
  - auto.
Qed.

Lemma step_mono (own own' : FPath -> Prop) t t' :
  (forall q, own q -> own' q) -> step own t t' -> step own' t t'.
Proof. intros H [H1 H2 H3]. split; auto. Qed.

Lemma step_is_dir own t t' p : step own t t' -> ~ own p -> is_dir t p -> is_dir t' p.
Proof. intros Hs Hp. apply sim_is_dir. by apply (step_sim _ _ _ Hs). Qed.

(** A path below the root. *)
Definition below (p : FPath) : Prop := exists cur seg, p = cur ++ [seg] /\ root `prefix_of` cur.

(** A path an operation can be given: below the root, no link on the way. *)
Record reachable (t : Tree) (p : FPath) : Prop := {
  reach_safe : safe p;
  reach_visible : visible t p;
  reach_below : below p
}.

Lemma reach_parent t p : reachable t p -> is_dir t (parent p) /\ root `prefix_of` parent p /\ parent p <> p.
Proof.
  intros [_ Hv (cur & seg & -> & Hr)]. rewrite parent_snoc. split_and!; [|done|].
  - apply visible_snoc_inv in Hv as [_ Hd]. apply Hd. intros ->. destruct root_safe as [Hne _].
    by apply prefix_nil_inv in Hr.
  - intros Heq. apply (f_equal length) in Heq. rewrite length_app in Heq. simpl in Heq. lia.
Qed.

Lemma reach_inside t p : reachable t p -> root `prefix_of` p.
Proof. intros [_ _ (cur & seg & -> & Hr)]. by apply prefix_app_r. Qed.

Lemma reach_lookup follow t p :
  reachable t p -> (follow = true -> not_link t p) -> lookup_path follow t p = Ok p.
Proof. intros [Hs Hv _] Hl. by apply lookup_visible. Qed.

Lemma step_visible own t t' p :
  step own t t' -> (forall q, own q -> q `prefix_of` p -> q <> p -> q <> [] -> ~ is_dir t q) ->
  visible t p -> visible t' p.
Proof.
  intros Hs Hown Hv q seg rest -> Hq. destruct (Hv q seg rest eq_refl Hq) as [m Hm].
  apply (sim_is_dir t); [|by exists m]. apply (step_sim _ _ _ Hs). intros Ho.
  apply (Hown q Ho); [by apply prefix_app_r| |done|by exists m].
  intros Heq. apply (f_equal length) in Heq. rewrite length_app in Heq. simpl in Heq. lia.
Qed.

(** The three ways an operation changes a tree. *)
Lemma step_insert t p n : reachable t p -> step (eq p) t (<[p := n]> t).
Proof.
  intros Hr. split.
  - intros q Hq. by rewrite lookup_insert_ne.
  - intros q Hq. rewrite lookup_insert_ne; [done|]. intros <-. by apply Hq, (reach_inside t).
  - intros Hok q n'. destruct (decide (p = q)) as [<-|Hne].
    + intros _. apply Hr.
    + rewrite lookup_insert_ne by done. apply Hok.
Qed.

Lemma step_touch t p : reachable t p -> step (fun _ => False) t (touch now p t).
Proof.
  intros Hr. destruct (reach_parent t p Hr) as (Hd & Hin & _). split.
  - intros q _. apply touch_sim. by left.
  - intros q Hq. apply touch_other. by intros <-.
  - intros Hok q n Hn. destruct (t !! q) as [n'|] eqn:Ht; [by apply (Hok q n')|].
    apply (touch_None now p) in Ht. congruence.
Qed.

Lemma step_delete t p : reachable t p -> step (eq p) t (delete p t).
Proof.
  intros Hr. split.
  - intros q Hq. by rewrite lookup_delete_ne.
  - intros q Hq. rewrite lookup_delete_ne; [done|]. intros <-. by apply Hq, (reach_inside t).
  - intros Hok q n. rewrite lookup_delete_Some. intros [_ Hn]. by apply (Hok q n).
Qed.

Lemma step_delete_all t p :
  reachable t p -> step (fun q => p `prefix_of` q) t (filter (fun kv => ~ p `prefix_of` kv.1) t).
Proof.
  intros Hr. assert (Hl : forall q, ~ p `prefix_of` q ->
    filter (fun kv : FPath * Node => ~ p `prefix_of` kv.1) t !! q = t !! q).
  { intros q Hq. rewrite map_lookup_filter. destruct (t !! q) as [n|]; [|done]. simpl.
    by rewrite option_guard_True. }
  split.
  - intros q Hq. by rewrite Hl.
  - intros q Hq. apply Hl. intros Hp. apply Hq. etrans; [by apply (reach_inside t)|done].
  - intros Hok q n. rewrite map_lookup_filter_Some. intros [Hn _]. by apply (Hok q n).
Qed.

Lemma reach_step own t t' p :
  step own t t' -> (forall q, own q -> q `prefix_of` p -> q <> p -> ~ is_dir t q) ->
  reachable t p -> reachable t' p.
Proof. intros Hs Ho [H1 H2 H3]. split; [done| |done]. eapply step_visible; [done| |done]. eauto. Qed.

#[local] Instance is_dir_dec t p : Decision (is_dir t p).
Proof. unfold is_dir. destruct (t !! p) as [[]|]; [right|left|right|right]; try (by intros [? ?]); by eexists. Defined.

Lemma step_insert_touch t p n : reachable t p -> step (eq p) t (<[p := n]> (touch now p t)).
Proof.
  intros Hr. apply (step_trans _ _ (touch now p t)).
  - apply (step_mono (fun _ => False)); [done|by apply step_touch].
  - apply step_insert. eapply reach_step; [by apply step_touch|done|done].
Qed.

Lemma step_touch_delete t p : reachable t p -> step (eq p) t (touch now p (delete p t)).
Proof.
  intros Hr. apply (step_trans _ _ (delete p t)); [by apply step_delete|].
  apply (step_mono (fun _ => False)); [done|]. apply step_touch.
  eapply reach_step; [by apply step_delete| |done]. by intros q <- _ Hq.
Qed.

Lemma touch_self p t : parent p <> p -> touch now p t !! p = t !! p.
Proof. apply touch_other. Qed.

(** ** Operations on reachable paths. *)

Section Ops.
Context {t : Tree} {p : FPath} (Hr : reachable t p).

Lemma wp_Lstat Q :
  (forall e, Q t (Err e)) -> (forall n, t !! p = Some n -> Q t (Ok n)) -> wp (lstatRetry p) Q t.
Proof using root_safe Hr.
  intros He Ho. apply wp_retry_op; [by apply reach_lookup|quiet|done|].
  intros t' n H. destruct (t !! p) eqn:Hp; simplify_eq. by apply Ho.
Qed.

Lemma wp_Mkdir Q :
  (forall e, Q t (Err e)) ->
  (forall t' m, t !! p = None -> step (eq p) t t' -> t' !! p = Some (NDir m) -> Q t' (Ok tt)) ->
  wp (mkdirRetry now owner umasked p) Q t.
Proof using root_safe Hr.
  intros He Ho. apply wp_retry_op; [by apply reach_lookup|quiet|done|].
  intros t' [] H. destruct (t !! p) eqn:Hp; simplify_eq. eapply Ho; [done|by apply step_insert_touch|].
  by rewrite lookup_insert_eq.
Qed.

(** What a removal did. *)
Definition removed (t' : Tree) : Prop :=
  step (eq p) t t' /\ t' !! p = None /\ is_Some (t !! p) /\ (is_dir t p -> children t p = []).

Lemma remove_op t' :
  match t !! p with
  | None => fails ENOENT t
  | Some (NDir _) => match children t p with [] => (touch now p (delete p t), Ok tt) | _ => fails ENOTEMPTY t end
  | Some _ => (touch now p (delete p t), Ok tt)
  end = (t', Ok tt) -> removed t'.
Proof using root_safe Hr.
  intros H. assert (Hd : t' = touch now p (delete p t) /\ is_Some (t !! p) /\ (is_dir t p -> children t p = [])).
  { unfold is_dir. destruct (t !! p) as [[]|] eqn:Hp; try destruct (children t p) eqn:Hc; simplify_eq;
      (split_and!; [done|done|]); try done; by intros [m' ?]. }
  destruct Hd as (-> & Hs & Hc). split_and!; [by apply step_touch_delete| |done|done].
  rewrite touch_self by (by destruct (reach_parent t p Hr) as (_ & _ & ?)). by rewrite lookup_delete_eq.
Qed.

Lemma wp_Remove Q :
  (forall e, Q t (Err e)) -> (forall t', removed t' -> Q t' (Ok tt)) -> wp (retryIO (Remove now p)) Q t.
Proof using root_safe Hr.
  intros He Ho. apply wp_retry_op; [by apply reach_lookup|quiet|done|].
  intros t' [] H. by apply Ho, remove_op.
Qed.

Lemma wp_Remove_once Q :
  (forall e, Q t (Err e)) -> (forall t', removed t' -> Q t' (Ok tt)) -> wp (Remove now p) Q t.
Proof using root_safe Hr.
  intros He Ho. apply wp_op; [by apply reach_lookup|quiet|done|].
  intros t' [] H. by apply Ho, remove_op.
Qed.

Lemma wp_RemoveAll Q :
  (forall e, Q t (Err e)) ->
  (forall t', step (fun q => p `prefix_of` q) t t' -> t' !! p = None -> Q t' (Ok tt)) ->
  wp (retryIO (RemoveAll now p)) Q t.
Proof using root_safe Hr.
  intros He Ho. apply wp_retry_op; [by apply reach_lookup|quiet|done|].
  intros t' [] H. destruct (t !! p) eqn:Hp; simplify_eq; [|by apply Ho; [apply step_refl|]].
  set (t1 := filter _ t). assert (Hs : step (fun q => p `prefix_of` q) t t1) by (by apply step_delete_all).
  destruct (reach_parent t p Hr) as (_ & _ & Hpar). apply Ho.
  - apply (step_trans _ _ t1); [done|]. apply (step_mono (fun _ => False)); [done|]. apply step_touch.
    eapply reach_step; [done| |done]. intros q Hq Hq' Hne. destruct Hne. by apply (anti_symm prefix).
  - rewrite touch_self by done. unfold t1. apply map_lookup_filter_None. right.
    intros x _ Hx. by apply Hx.
Qed.

Lemma wp_Symlink target Q :
  (forall e, Q t (Err e)) ->
  (forall t' m, step (eq p) t t' -> t' !! p = Some (NLink target m) -> Q t' (Ok tt)) ->
  wp (retryIO (Symlink now owner umasked target p)) Q t.
Proof using root_safe Hr.
  intros He Ho. apply wp_retry_op; [by apply reach_lookup|quiet|done|].
  intros t' [] H. destruct (t !! p) eqn:Hp; simplify_eq. eapply Ho; [by apply step_insert_touch|].
  by rewrite lookup_insert_eq.
Qed.

Lemma wp_change_meta follow f Q :
  (follow = true -> not_link t p) ->
  (forall e, Q t (Err e)) ->
  (forall n, t !! p = Some n -> step (eq p) t (<[p := on_meta f n]> t) -> Q (<[p := on_meta f n]> t) (Ok tt)) ->
  wp (retryIO (change_meta follow p f)) Q t.
Proof using root_safe Hr.
  intros Hl He Ho. apply wp_retry_op; [by apply reach_lookup|quiet|done|].
  intros t' [] H. destruct (t !! p) as [n|] eqn:Hp; simplify_eq. apply Ho; [done|by apply step_insert].
Qed.

Lemma wp_OpenFile mode Q :
  not_link t p ->
  (forall e, Q t (Err e)) ->
  (forall t' m, step (eq p) t t' -> t' !! p = Some (NFile [] m) -> Q t' (Ok p)) ->
  wp (OpenFile now owner umasked p mode) Q t.
Proof using root_safe Hr.
  intros Hl He Ho. apply wp_op; [by apply reach_lookup|quiet|done|].
  intros t' q H. destruct (t !! p) as [[c m| |]|] eqn:Hp; simplify_eq.
  - eapply Ho; [by apply step_insert|by rewrite lookup_insert_eq].
  - eapply Ho; [by apply step_insert_touch|by rewrite lookup_insert_eq].
Qed.

Lemma wp_ReadFile Q :
  not_link t p ->
  (forall e, Q t (Err e)) -> (forall c m, t !! p = Some (NFile c m) -> Q t (Ok c)) -> wp (ReadFile p) Q t.
Proof using root_safe Hr.
  intros Hl He Ho. apply wp_op; [by apply reach_lookup|quiet|done|].
  intros t' c H. destruct (t !! p) as [[]|] eqn:Hp; simplify_eq. by eapply Ho.
Qed.
End Ops.

Lemma wp_Rename t src dst Q :
  reachable t src -> reachable t dst -> src <> dst ->
  (forall e, Q t (Err e)) ->
  (forall t' n, t !! src = Some n -> (forall m, n <> NDir m) -> ~ is_dir t dst ->
     step (fun q => q = src \/ q = dst) t t' -> t' !! dst = Some n -> t' !! src = None -> Q t' (Ok tt)) ->
  wp (retryIO (Rename now src dst)) Q t.
Proof.
  intros Hs Hd Hne He Ho. apply (wp_retry _ _ _ (fun t' => t' = t)); [done|]. intros ? ->.
  apply wp_syscall; [done|]. rewrite (reach_lookup false t src), (reach_lookup false t dst) by done.
  destruct (t !! src) as [n|] eqn:Hsrc; [|done].
  destruct (decide (is_dir t src)) as [[m Hm]|Hnd]; [by simplify_eq|].
  set (t1 := touch now src (delete src t)). set (t2 := <[dst := n]> (touch now dst t1)).
  assert (H1 : step (eq src) t t1) by (by apply step_touch_delete).
  assert (H2 : reachable t1 dst) by (eapply reach_step; [done| |done]; by intros q <- _ _).
  assert (H3 : step (eq dst) t1 t2) by (by apply step_insert_touch).
  assert (Hdone : (forall m, n <> NDir m) -> ~ is_dir t dst -> Q t2 (Ok tt)).
  { intros Hn Hdd. apply (Ho t2 n); try done.
    - apply (step_trans _ _ t1); (eapply step_mono; [|done]); simpl; auto.
    - unfold t2. by rewrite lookup_insert_eq.
    - unfold t2. rewrite lookup_insert_ne, touch_None by done. unfold t1.
      by rewrite touch_None, lookup_delete_eq. }
  destruct n as [c m|m|target m]; [|by destruct Hnd; exists m|];
    destruct (t !! dst) as [[]|] eqn:Hdst; try done; apply Hdone; try done; intros [m' Hm']; congruence.
Qed.

(** ** Directories. *)

(** The paths on the way to [p] that are not directories yet. *)
Definition missing_on (t : Tree) (p q : FPath) : Prop := q `prefix_of` p /\ ~ is_dir t q.

Lemma wp_ensure_component t p :
  reachable t p ->
  wp (ensure_component now owner umasked p)
    (fun t' r => step (fun q => q = p /\ ~ is_dir t p) t t' /\ (r = Ok tt -> is_dir t' p)) t.
Proof using root_safe.
  intros Hr.
  assert (Hmk : forall t0, step (fun q => q = p /\ ~ is_dir t p) t t0 -> reachable t0 p ->
    wp (with_error "creating directory" (mkdirRetry now owner umasked p))
      (fun t' r => step (fun q => q = p /\ ~ is_dir t p) t t' /\ (r = Ok tt -> is_dir t' p)) t0).
  { intros t0 H0 Hr0. apply wp_with_error, (wp_Mkdir Hr0); [done|]. intros t' m Hnone Hs Hp. split; [|by exists m].
    apply (step_trans _ _ t0); [done|]. eapply step_mono; [|done]. simpl. intros q <-. split; [done|].
    intros Hd. apply (step_is_dir _ _ _ _ H0) in Hd; [|by intros [_ ?]]. destruct Hd as [m' ?]. congruence. }
  apply wp_bind, wp_attempt, (wp_Lstat Hr).
  - intros e. destruct (IsNotExist e); [by apply Hmk; [apply step_refl|]|].
    apply wp_throw. split; [apply step_refl|done].
  - intros n Hn.
    assert (Hrep : (forall m, n <> NDir m) ->
      wp (_ ← with_error "replacing stale entry" (retryIO (Remove now p));
          with_error "creating directory" (mkdirRetry now owner umasked p))
        (fun t' r => step (fun q => q = p /\ ~ is_dir t p) t t' /\ (r = Ok tt -> is_dir t' p)) t).
    { intros Hnd. assert (Hnot : ~ is_dir t p) by (intros [m Hm]; simplify_eq; by apply (Hnd m)).
      apply wp_bind, wp_with_error, (wp_Remove Hr); [intros e; split; [apply step_refl|done]|].
      intros t1 (Hs & Hnone & _ & _). apply Hmk.
      - eapply step_mono; [|done]. by intros q <-.
      - eapply reach_step; [done| |done]. by intros q <- _ _. }
    destruct n as [c m|m|target m]; [by apply Hrep| |by apply Hrep].
    apply wp_ret. split; [apply step_refl|]. intros _. by exists m.
Qed.

Lemma wp_ensure_loop t current segs :
  Forall safe_segment segs -> safe current -> visible t current -> is_dir t current -> root `prefix_of` current ->
  wp (ensure_loop now owner umasked current segs)
    (fun t' r => step (missing_on t (current ++ segs)) t t' /\
       (r = Ok tt -> visible t' (current ++ segs) /\ is_dir t' (current ++ segs))) t.
Proof using root_safe.
  revert t current. induction segs as [|seg segs IH]; intros t current Hs Hc Hv Hd Hp; cbn [ensure_loop].
  - rewrite app_nil_r. apply wp_ret. split; [apply step_refl|done].
  - apply Forall_cons in Hs as [Hseg Hs].
    assert (Hr : reachable t (current ++ [seg])).
    { destruct Hc as [Hne Hc]. split; [|by apply visible_snoc|by exists current, seg].
      split; [by destruct current|]. apply Forall_app_2; [done|]. by constructor. }
    assert (Hassoc : current ++ seg :: segs = (current ++ [seg]) ++ segs) by (by rewrite <- (assoc_L (++))).
    assert (Hmono : forall q, q = current ++ [seg] /\ ~ is_dir t (current ++ [seg]) ->
      missing_on t ((current ++ [seg]) ++ segs) q).
    { intros q [-> Hn]. split; [|done]. by apply prefix_app_r. }
    rewrite Hassoc. clear Hassoc. apply wp_bind. eapply wp_mono; [by apply wp_ensure_component|]. intros t1 [[]|e] [H1 H2].
    + specialize (H2 eq_refl).
      eapply wp_mono; [apply IH; try done|].
      * apply Hr.
      * eapply step_visible; [done| |apply Hr]. by intros q [-> Hn].
      * by apply prefix_app_r.
      * intros t2 r [H3 H4]. split; [|done]. apply (step_trans _ _ t1); [by apply (step_mono _ _ _ _ Hmono)|].
        eapply step_mono; [|done]. intros q [Hq Hn]. split; [done|]. intros Hd'. apply Hn.
        eapply step_is_dir; [done| |done]. intros [-> Hnd]. done.
    + split; [by apply (step_mono _ _ _ _ Hmono)|done].
Qed.

(** The directory a relative path names. *)
Definition dir_of (relDir : string) : FPath := if (relDir =? "")%string then root else join root relDir.

Definition base_ok (t : Tree) : Prop := visible t root /\ is_dir t root /\ tree_ok t.

Lemma base_step own t t' :
  step own t t' -> (forall q, own q -> q `prefix_of` root -> ~ is_dir t q) -> base_ok t -> base_ok t'.
Proof.
  intros Hs Ho (Hv & Hd & Hok). split_and!.
  - eapply step_visible; [done| |done]. eauto.
  - eapply step_is_dir; [done| |done]. intros Hown. by apply (Ho root Hown).
  - by apply (step_ok _ _ _ Hs).
Qed.

Lemma wp_ensureRealDir t relDir :
  base_ok t -> relDir <> "."%string -> relDir = ""%string \/ Forall safe_segment (Split relDir "/"%char) ->
  wp (ensureRealDir now owner umasked root relDir)
    (fun t' r => step (missing_on t (dir_of relDir)) t t' /\
       (r = Ok tt -> visible t' (dir_of relDir) /\ is_dir t' (dir_of relDir))) t.
Proof using root_safe.
  intros (Hv & Hd & Hok) Hdot Hseg. unfold ensureRealDir, dir_of. apply String.eqb_neq in Hdot. rewrite Hdot.
  cbn [orb]. destruct (String.eqb_spec relDir "") as [->|Hne].
  - apply wp_ret. split; [apply step_refl|done].
  - destruct Hseg as [|Hseg]; [done|]. by apply wp_ensure_loop.
Qed.

(** ** Replacing a directory. *)

Lemma wp_replaceIfDir t p :
  reachable t p ->
  wp (replaceIfDir now p)
    (fun t' r => step (fun q => p `prefix_of` q) t t' /\ (forall e, r = Err e -> ErrorText e <> ""%string)) t.
Proof using root_safe.
  intros Hr. apply wp_bind, wp_attempt, (wp_Lstat Hr).
  - intros e. destruct (IsNotExist e); [apply wp_ret|apply wp_throw];
      (split; [apply step_refl|by intros ? [= <-]]).
  - intros [c m|m|target m] Hn; try (apply wp_ret; split; [apply step_refl|by intros ? [=]]).
    apply wp_with_error, (wp_RemoveAll Hr); [intros; split; [apply step_refl|by intros ? [= <-]]|].
    intros t' Hs _. split; [done|by intros ? [=]].
Qed.

(** ** Temporary names. *)

Lemma with_suffix_snoc (d : FPath) base suffix :
  with_suffix (d ++ [base]) suffix = d ++ [String.append base suffix].
Proof. unfold with_suffix. rewrite reverse_snoc. by rewrite reverse_involutive. Qed.

Lemma safe_segment_suffix base suffix :
  safe_segment base -> suffix <> ""%string -> no_byte "/"%char suffix -> (3 <= String.length suffix)%nat ->
  safe_segment (String.append base suffix).
Proof.
  intros (H1 & H2 & H3 & H4) Hs Hn Hl. pose proof (str_length_app base suffix) as Hlen. split_and!.
  - intros [_ ?]%str_app_eq_nil. done.
  - intros Heq. rewrite Heq in Hlen. simpl in Hlen. lia.
  - intros Heq. rewrite Heq in Hlen. simpl in Hlen. lia.
  - unfold no_byte in *. by rewrite str_forall_app, H4, Hn.
Qed.

Lemma append_longer base suffix : suffix <> ""%string -> String.append base suffix <> base.
Proof.
  intros Hs Heq. apply Hs. apply (str_app_inv_l base). by rewrite str_app_nil_r.
Qed.

(** Two names in one directory. *)
Section Pair.
Context {t : Tree} {d : FPath} {base other : string}.
Hypothesis (Hfinal : reachable t (d ++ [base])) (Hother : safe_segment other) (Hne : other <> base).

Lemma pair_reach : reachable t (d ++ [other]).
Proof using Hfinal Hother.
  destruct Hfinal as [[Hs1 Hs2] Hv (cur & seg & Heq & Hp)]. apply app_inj_tail in Heq as [<- <-].
  apply Forall_app in Hs2 as [Hs2 _]. split.
  - split; [by destruct d|]. apply Forall_app_2; [done|]. by constructor.
  - apply visible_snoc_inv in Hv as [Hv Hd]. by apply visible_snoc.
  - by exists d, other.
Qed.
End Pair.

Lemma sibling_not_prefix (d : FPath) a b : a <> b -> ~ (d ++ [a]) `prefix_of` (d ++ [b]).
Proof. intros Hne Hp. apply prefix_app_inv, prefix_cons_inv_1 in Hp. done. Qed.

(** ** Files. *)

Section File.
Variable st : State.
Variable staged : Disk.
Context {d : FPath} {base part : string}.
Hypothesis (Hpart : safe_segment part) (Hne : part <> base).

Lemma wp_assembleTo i t :
  reachable t (d ++ [part]) -> not_link t (d ++ [part]) ->
  wp (retryIO (assembleTo now owner umasked torn st staged i (d ++ [part])))
    (fun t' r => step (eq (d ++ [part])) t t' /\
       (r = Ok tt -> exists c m, t' !! (d ++ [part]) = Some (NFile c m) /\ AssembleEntry st staged i = Some (Ok c))) t.
Proof using root_safe.
  set (p := d ++ [part]). intros Hr Hl.
  apply (wp_retry _ _ _ (fun t' => step (eq p) t t' /\ not_link t' p)); [by split; [apply step_refl|]|].
  clear Hl. intros t1 [H1 Hl].
  assert (Hr1 : reachable t1 p) by (eapply reach_step; [done| |done]; by intros q <- _ ?).
  apply wp_bind, wp_with_error, (wp_OpenFile Hr1); [done|by split; [split|]|].
  intros t2 m H2 Hp2. assert (H12 : step (eq p) t t2) by (by apply (step_trans _ _ t1)).
  assert (Hfail : forall t3, step (eq p) t t3 -> not_link t3 p ->
    wp (_ ← attempt (Remove now p); (throw (Text "assembling") : M unit))
      (fun t' r => match r with
        | Ok a => step (eq p) t t' /\ ((Ok a : result error unit) = Ok tt -> exists c m, t' !! p = Some (NFile c m) /\
            AssembleEntry st staged i = Some (Ok c))
        | Err e => (step (eq p) t t' /\ not_link t' p) /\ step (eq p) t t' /\ ((Err e : result error unit) = Ok tt ->
            exists c m, t' !! p = Some (NFile c m) /\ AssembleEntry st staged i = Some (Ok c))
        end) t3).
  { intros t3 H3 Hl3. assert (Hr3 : reachable t3 p) by (eapply reach_step; [done| |done]; by intros q <- _ ?).
    apply wp_bind, wp_attempt, (wp_Remove_once Hr3); [by intros e; apply wp_throw|].
    intros t4 (H4 & Hnone & _). assert (H34 : step (eq p) t t4) by (by apply (step_trans _ _ t3)).
    apply wp_throw. split_and!; try done. intros target m'. congruence. }
  assert (Hfile : forall t3 c m, t3 !! p = Some (NFile c m) -> not_link t3 p) by (intros t3 c m' Hx target m'' Hy; congruence).
  apply wp_bind, wp_attempt. destruct (AssembleEntry st staged i) as [[c|e]|] eqn:Ha.
  - apply wp_bind, wp_attempt, wp_syscall.
    + intros e. apply wp_bind, wp_attempt. intros fs. cbn [fst snd tree]. rewrite Hp2.
      apply wp_throw, Hfail; [|by eapply Hfile; rewrite lookup_insert_eq].
      apply (step_trans _ _ t2); [done|]. apply step_insert.
      eapply reach_step; [done| |done]. by intros q <- _ ?.
    + rewrite Hp2. apply wp_ret, wp_ret. split; [|intros _; eexists _, _; by rewrite lookup_insert_eq].
      apply (step_trans _ _ t2); [done|]. apply step_insert.
      eapply reach_step; [done| |done]. by intros q <- _ ?.
  - apply wp_throw, Hfail; [done|by eapply Hfile].
  - apply wp_throw, Hfail; [done|by eapply Hfile].
Qed.

(** The metadata a file of the manifest ends with. *)
Definition file_meta (e : Entry) (m : Meta) : Prop :=
  m_mode m = syscallMode (Mode e) /\ m_mtime m = MtimeUnixNano e /\
  (geteuid0 = true -> m_uid m = UID e /\ m_gid m = GID e).

Definition own_final (q : FPath) : Prop := q = d ++ [part] \/ (d ++ [base]) `prefix_of` q.

Lemma own_part_reach own t t' q :
  step own t t' -> (forall q', own q' -> q' = d ++ [part]) -> reachable t (d ++ [part]) ->
  q = d ++ [base] \/ q = d ++ [part] -> reachable t q -> reachable t' q.
Proof using Hne.
  intros Hs Ho Hr Hq Hrq. eapply reach_step; [done| |done]. intros q' Hq' Hp Hneq.
  rewrite (Ho q' Hq') in *. destruct Hq as [-> | ->]; [|done]. by apply sibling_not_prefix in Hp.
Qed.

Lemma wp_chown_if_root msg p uid gid follow (Q : Tree -> result error unit -> Prop) t c m :
  reachable t p -> not_link t p -> t !! p = Some (NFile c m) ->
  (Q t (Err (Text msg))) ->
  (forall t' m', step (eq p) t t' -> t' !! p = Some (NFile c m') -> m_mode m' = m_mode m ->
     m_mtime m' = m_mtime m -> (geteuid0 = true -> m_uid m' = uid /\ m_gid m' = gid) -> Q t' (Ok tt)) ->
  wp (chown_if_root geteuid0 msg
        (change_meta follow p (fun m => mkMeta (m_mode m) uid gid (m_mtime m)))) Q t.
Proof using root_safe.
  intros Hr Hl Hp He Ho. unfold chown_if_root. destruct geteuid0.
  - apply wp_with_error, (wp_change_meta Hr); [done|done|]. intros n Hn Hs. rewrite Hp in Hn. injection Hn as <-.
    eapply Ho; [done|by rewrite lookup_insert_eq|done|done|done].
  - apply wp_ret. eapply Ho; [apply step_refl|done|done|done|done].
Qed.

Lemma wp_applyAndRename e t c m0 :
  reachable t (d ++ [base]) -> t !! (d ++ [part]) = Some (NFile c m0) ->
  wp (applyAndRename now geteuid0 e (d ++ [part]) (d ++ [base]))
    (fun t' r => step own_final t t' /\ (forall e', r = Err e' -> ErrorText e' <> ""%string) /\
       (r = Ok tt -> exists m, t' !! (d ++ [base]) = Some (NFile c m) /\ file_meta e m)) t.
Proof using Hpart Hne root_safe.
  intros Hrf Hp. set (p := d ++ [part]) in *. set (final := d ++ [base]) in *.
  assert (Hrp : reachable t p) by (by apply (pair_reach Hrf)).
  assert (Hdiff : p <> final) by (intros Heq; apply app_inj_tail in Heq as [_ ?]; congruence).
  assert (Hown : forall q, p = q -> own_final q) by (intros q <-; by left).
  assert (Hfile : forall t3 c m, t3 !! p = Some (NFile c m) -> not_link t3 p)
    by (intros t3 c' m' Hx target m'' Hy; congruence).
  assert (Herr : forall t' msg, msg <> ""%string -> step (eq p) t t' ->
    step own_final t t' /\ (forall e', (Err (Text msg) : result error unit) = Err e' -> ErrorText e' <> ""%string) /\
    ((Err (Text msg) : result error unit) = Ok tt -> exists m, t' !! final = Some (NFile c m) /\ file_meta e m))
    by (intros t' msg Hm Hs; split_and!; [by apply (step_mono _ _ _ _ Hown)|by intros e' [= <-]|done]).
  assert (Hkeep : forall t' q, step (eq p) t t' -> q = final \/ q = p -> reachable t q -> reachable t' q)
    by (intros t' q Hs Hq; by apply (own_part_reach (eq p) t t' q)).
  apply wp_bind, wp_with_error, (wp_change_meta Hrp); [by intros _; eapply Hfile|intros; apply Herr; [done|apply step_refl]|].
  intros n Hn H1. rewrite Hp in Hn. injection Hn as <-. set (t1 := <[p := _]> t) in *.
  assert (Hp1 : t1 !! p = Some (NFile c (mkMeta (syscallMode (Mode e)) (m_uid m0) (m_gid m0) (m_mtime m0))))
    by (unfold t1; by rewrite lookup_insert_eq).
  apply wp_bind. eapply (wp_chown_if_root _ p (UID e) (GID e) true); [by apply (Hkeep t1); auto|by eapply Hfile|done| |].
  { by apply Herr. }
  intros t2 m2 H2 Hp2 Hmode _ Huid. assert (H02 : step (eq p) t t2) by (by apply (step_trans _ _ t1)).
  assert (Hr2 : reachable t2 p) by (by apply (Hkeep t2); auto).
  apply wp_bind, wp_with_error, (wp_change_meta Hr2); [by intros _; eapply Hfile|by intros; apply Herr|].
  intros n Hn H3. rewrite Hp2 in Hn. injection Hn as <-. set (t3 := <[p := _]> t2) in *.
  assert (H03 : step (eq p) t t3) by (by apply (step_trans _ _ t2)).
  assert (Hp3 : t3 !! p = Some (NFile c (set_mtime (MtimeUnixNano e) m2))) by (unfold t3; by rewrite lookup_insert_eq).
  assert (Hf3 : reachable t3 final) by (by apply (Hkeep t3); auto).
  apply wp_bind. eapply wp_mono; [by apply wp_replaceIfDir|]. intros t4 r4 [H4 Hmsg].
  assert (H04 : step own_final t t4).
  { apply (step_trans _ _ t3); [by apply (step_mono _ _ _ _ Hown)|]. eapply step_mono; [|done]. intros q Hq. by right. }
  assert (Hp4 : t4 !! p = Some (NFile c (set_mtime (MtimeUnixNano e) m2))).
  { assert (Hsim : sim (t3 !! p) (t4 !! p)) by (apply (step_sim _ _ _ H4); by apply sibling_not_prefix).
    rewrite Hp3 in Hsim. destruct (t4 !! p) as [[]|]; simpl in Hsim; congruence. }
  assert (Hf4 : reachable t4 final).
  { eapply reach_step; [exact H4| |exact Hf3]. intros q Hq Hq' Hneq. destruct Hneq. by apply (anti_symm prefix). }
  destruct r4 as [[]|e4]; [|split_and!; [done|intros e' [= <-]; by apply Hmsg|done]].
  apply wp_with_error, wp_Rename; [by apply (pair_reach Hf4)|done|done|
    intros e'; split_and!; [done|by intros ? [= <-]|done]|].
  intros t5 n Hn _ _ H5 Hf5 _. rewrite Hp4 in Hn. injection Hn as <-. split_and!; [|by intros ? [=]|].
  - apply (step_trans _ _ t4); [done|]. eapply step_mono; [|done]. intros q [->| ->]; [by left|by right].
  - intros _. eexists. split; [done|]. split_and!; [exact Hmode|done|done].
Qed.
End File.
End Facts.
