(* ===== verification/CommitFSDelete.v ===== *)
(** * The deletion pass: only paths the manifest does not list go, and no other
    file or link is left *)

From Stdlib Require Import Ascii.
From stdpp Require Import base tactics numbers countable list option strings gmap sorting.
From S2P Require Import Prelude GoStd Wire Manifest Ingest FileTree FileTreeFacts CommitFS CommitFSFacts.

Section Delete.
Variable now : Z.
Variable root : FPath.
Variable stateDir : FPath.
Hypothesis root_safe : safe root.
Variable keep : gset string.

Abbreviation reachable := (CommitFSFacts.reachable root).
Abbreviation base_ok := (CommitFSFacts.base_ok root).

(** ** Names. *)

Lemma join_inj a b : join root a = join root b -> a = b.
Proof.
  unfold join. intros H%app_inv_head. apply (f_equal (fun l => Join l "/")) in H.
  change "/"%string with (String "/"%char EmptyString) in H. by rewrite !Join_Split in H.
Qed.

Lemma rel_join_join rel name :
  safe_segment name -> join root (rel_join rel name) = dir_of root rel ++ [name] /\ rel_join rel name <> ""%string.
Proof.
  intros (H1 & _ & _ & H2). unfold join, rel_join, dir_of. destruct (String.eqb_spec rel "") as [->|Hr].
  - by rewrite Split_no_byte_id.
  - change (String.append "/" name) with (String "/"%char name).
    rewrite Split_app, (Split_no_byte_id name) by done. split; [by rewrite (assoc_L (++))|by destruct rel].
Qed.

(** A path the manifest lists. *)
Definition kept_path (p : FPath) : Prop := exists k, k ∈ keep /\ p = join root k.

(** ** What a pass of removals does. *)

Record shrink (t t' : Tree) : Prop := {
  shrink_sim : forall q, t' !! q = None \/ sim (t !! q) (t' !! q);
  shrink_leaf : forall q x, is_dir t q -> t' !! q = None -> t' !! (q ++ [x]) = None;
  shrink_kept : forall q, is_Some (t !! q) -> t' !! q = None -> ~ kept_path q /\ root `prefix_of` q /\ q <> root;
  shrink_outside : forall q, ~ root `prefix_of` q -> t' !! q = t !! q;
  shrink_ok : tree_ok t -> tree_ok t'
}.

Lemma sim_present (n n' : option Node) : sim n n' -> is_Some n -> is_Some n'.
Proof. intros H [x ->]. destruct n'; [done|]. by destruct x. Qed.

Lemma shrink_refl t : shrink t t.
Proof. split; try done; [by right|by intros q x [m Hm]; congruence|]. intros q [n Hn]. congruence. Qed.

Lemma shrink_back t t' q : shrink t t' -> is_Some (t' !! q) -> sim (t !! q) (t' !! q).
Proof. intros Hs [n Hn]. destruct (shrink_sim _ _ Hs q) as [?|?]; [congruence|done]. Qed.

Lemma shrink_trans t1 t2 t3 : shrink t1 t2 -> shrink t2 t3 -> shrink t1 t3.
Proof.
  intros H1 H2. split.
  - intros q. destruct (shrink_sim _ _ H2 q) as [?|Hs]; [by left|].
    destruct (shrink_sim _ _ H1 q) as [Hn|Hs']; [|right; by etrans].
    left. rewrite Hn in Hs. by destruct (t3 !! q).
  - intros q x Hd Hn. destruct (t2 !! q) as [n|] eqn:Hq.
    + apply (shrink_leaf _ _ H2); [|done]. apply (sim_is_dir t1); [|done].
      apply (shrink_back _ _ _ H1). by rewrite Hq.
    + assert (H : t2 !! (q ++ [x]) = None) by (by apply (shrink_leaf _ _ H1)).
      destruct (shrink_sim _ _ H2 (q ++ [x])) as [?|Hs]; [done|]. rewrite H in Hs. by destruct (t3 !! (q ++ [x])).
  - intros q Hq Hn. destruct (t2 !! q) as [n|] eqn:Hq2; [by apply (shrink_kept _ _ H2)|by apply (shrink_kept _ _ H1)].
  - intros q Hq. by rewrite (shrink_outside _ _ H2), (shrink_outside _ _ H1).
  - intros H. by apply (shrink_ok _ _ H2), (shrink_ok _ _ H1).
Qed.

(** What is still there is still reached the same way. *)
Lemma shrink_visible t t' p : shrink t t' -> is_Some (t' !! p) -> visible t p -> visible t' p.
Proof.
  intros Hs. induction p as [|x d IH] using rev_ind; intros Hp Hv; [intros [|? ?] ? ?; done|].
  apply visible_snoc_inv in Hv as [Hv Hd]. destruct (decide (d = [])) as [->|Hne].
  { apply visible_snoc; [|done]. intros [|? ?] ? ?; done. }
  specialize (Hd Hne). assert (Hd' : is_Some (t' !! d)).
  { destruct (t' !! d) as [n|] eqn:Hn; [done|]. rewrite (shrink_leaf _ _ Hs d x) in Hp by done. by destruct Hp. }
  apply visible_snoc; [by apply IH|]. intros _. apply (sim_is_dir t); [by apply shrink_back|done].
Qed.

Lemma is_dir_back t t' q : shrink t t' -> is_dir t' q -> is_dir t q.
Proof.
  intros Hs [m Hm]. assert (H : sim (t !! q) (t' !! q)) by (apply shrink_back; [done|by rewrite Hm]).
  apply (sim_is_dir t'); [by symmetry|by exists m].
Qed.

Lemma visible_back t t' p : shrink t t' -> visible t' p -> visible t p.
Proof. intros Hs Hv q seg rest -> Hq. eapply is_dir_back; [done|]. by apply (Hv q seg rest). Qed.

Lemma shrink_base t t' : shrink t t' -> base_ok t -> base_ok t'.
Proof.
  intros Hs (Hv & Hd & Hok). assert (Hroot : is_Some (t' !! root)).
  { destruct (t' !! root) as [n|] eqn:Hn; [done|]. destruct Hd as [m Hm].
    destruct (shrink_kept _ _ Hs root) as (_ & _ & ?); [by rewrite Hm|done|done]. }
  split_and!; [by eapply shrink_visible| |by apply (shrink_ok _ _ Hs)].
  apply (sim_is_dir t); [by apply shrink_back|done].
Qed.

Lemma removed_shrink t t' p : reachable t p -> ~ kept_path p -> removed root (t := t) (p := p) t' -> shrink t t'.
Proof using root_safe.
  intros Hr Hk (Hs & Hnone & Hsome & Hchild).
  assert (Hq : forall q, is_Some (t !! q) -> t' !! q = None -> q = p).
  { intros q Hq Hn. destruct (decide (p = q)) as [->|Hne]; [done|].
    apply (sim_present _ (t' !! q)) in Hq; [|by apply (step_sim _ _ _ _ Hs)]. rewrite Hn in Hq. by destruct Hq. }
  split.
  - intros q. destruct (decide (p = q)) as [<-|Hne]; [by left|]. right. by apply (step_sim _ _ _ _ Hs).
  - intros q x Hd Hn. assert (q = p) as -> by (apply Hq; [destruct Hd as [m ->]; done|done]).
    assert (Hx : t !! (p ++ [x]) = None).
    { destruct (t !! (p ++ [x])) as [n|] eqn:Hx; [|done]. assert (Hin : x ∈ children t p) by (apply elem_of_children; by rewrite Hx).
      rewrite (Hchild Hd) in Hin. by apply not_elem_of_nil in Hin. }
    assert (Hsim : sim (t !! (p ++ [x])) (t' !! (p ++ [x]))).
    { apply (step_sim _ _ _ _ Hs). intros Heq. apply (f_equal length) in Heq. rewrite length_app in Heq. simpl in Heq. lia. }
    rewrite Hx in Hsim. by destruct (t' !! (p ++ [x])).
  - intros q Hs' Hn. assert (q = p) as -> by (by apply Hq). split_and!; [done|by apply (reach_inside root t)|].
    intros ->. destruct (reach_below _ _ _ Hr) as (cur & seg & Heq & Hp). apply prefix_length in Hp.
    apply (f_equal length) in Heq. rewrite length_app in Heq. simpl in Heq. lia.
  - intros q Hq'. by apply (step_outside _ _ _ _ Hs).
  - apply (step_ok _ _ _ _ Hs).
Qed.

(** ** Nothing stray below a path. *)

Definition settled (t : Tree) (p0 : FPath) : Prop :=
  forall p n, p0 `prefix_of` p -> visible t p -> t !! p = Some n -> ~ is_dir t p ->
    kept_path p \/ stateDir `prefix_of` p.

Lemma settled_shrink t t' p0 : shrink t t' -> settled t p0 -> settled t' p0.
Proof.
  intros Hs H p n Hp Hv Hn Hd. assert (Hsim : sim (t !! p) (t' !! p)) by (apply shrink_back; [done|by rewrite Hn]).
  destruct (sim_present (t' !! p) (t !! p)) as [n' Hn']; [by symmetry|by rewrite Hn|].
  apply (H p n'); [done|by eapply visible_back|done|]. intros Hd'. apply Hd. by eapply sim_is_dir.
Qed.

(** A directory to prune: not listed, and no link on the way to it. *)
Definition candidate (t : Tree) (x : string * FPath) : Prop :=
  x.2 = join root x.1 /\ (x.1 ∉ keep) /\ safe x.2 /\ below root x.2 /\ forall q, q <> [] -> q `prefix_of` x.2 -> not_link t q.

Lemma candidate_shrink t t' x : shrink t t' -> candidate t x -> candidate t' x.
Proof.
  intros Hs (H1 & H2 & H3 & H4 & H5). split_and!; try done. intros q Hne Hq.
  destruct (shrink_sim _ _ Hs q) as [Hn|Hsim]; [intros ? ? ?; congruence|]. by eapply sim_not_link; [|apply H5].
Qed.

Lemma visible_linkless t p q : visible t p -> q `prefix_of` p -> q <> p -> q <> [] -> not_link t q.
Proof.
  intros Hv [[|seg rest] ->] Hne Hq; [by rewrite app_nil_r in Hne|].
  apply is_dir_not_link. by apply (Hv q seg rest).
Qed.

(** ** The walk. *)

(** The walk removes files and links only. *)
Definition walked (t t' : Tree) : Prop := shrink t t' /\ forall q, is_dir t q -> is_dir t' q.

Lemma walked_refl t : walked t t.
Proof. split; [apply shrink_refl|done]. Qed.

Lemma walked_trans t1 t2 t3 : walked t1 t2 -> walked t2 t3 -> walked t1 t3.
Proof. intros [H1 H2] [H3 H4]. split; [by eapply shrink_trans|auto]. Qed.

Definition collected (t' : Tree) (acc acc' : Walked) : Prop :=
  forall x, x ∈ acc'.2 -> x ∈ acc.2 \/ candidate t' x.

Lemma collected_refl t acc : collected t acc acc.
Proof. intros x Hx. by left. Qed.

Lemma collected_trans t t' acc1 acc2 acc3 :
  shrink t t' -> collected t acc1 acc2 -> collected t' acc2 acc3 -> collected t' acc1 acc3.
Proof.
  intros Hs H1 H2 x [Hx|Hx]%H2; [|by right]. destruct (H1 x Hx) as [?|Hc]; [by left|right].
  by eapply candidate_shrink.
Qed.

(** A directory the walk is in. *)
Record walking (t : Tree) (dir : FPath) (rel : string) (fuel : nat) : Prop := {
  walking_base : base_ok t;
  walking_rel : dir = dir_of root rel;
  walking_root : root `prefix_of` dir;
  walking_safe : safe dir;
  walking_visible : visible t dir;
  walking_dir : is_dir t dir;
  walking_fuel : forall q, is_Some (t !! q) -> dir `prefix_of` q -> (length q < length dir + fuel)%nat
}.

Lemma walking_walked t t' dir rel fuel : walked t t' -> walking t dir rel fuel -> walking t' dir rel fuel.
Proof.
  intros [Hs Hd] [H1 H2 H3 H4 H5 H6 H7]. split; try done.
  - by eapply shrink_base.
  - eapply shrink_visible; [done| |done]. destruct (Hd dir H6) as [m ->]. done.
  - by apply Hd.
  - intros q Hq. apply H7. eapply sim_present; [symmetry; by apply (shrink_back _ _ _ Hs)|done].
Qed.

Lemma walking_reach t dir rel fuel name :
  walking t dir rel fuel -> safe_segment name -> reachable t (dir ++ [name]).
Proof.
  intros H Hn. destruct (walking_safe _ _ _ _ H) as [Hne Hs]. split.
  - split; [by destruct dir|]. apply Forall_app_2; [done|]. by constructor.
  - apply visible_snoc; [apply H|]. intros _. apply H.
  - exists dir, name. split; [done|apply H].
Qed.

Lemma walking_child t dir rel fuel name m :
  walking t dir rel (S fuel) -> safe_segment name -> t !! (dir ++ [name]) = Some (NDir m) ->
  walking t (dir ++ [name]) (rel_join rel name) fuel.
Proof.
  intros H Hn Hm. destruct (rel_join_join rel name Hn) as [Hj Hne].
  pose proof (walking_reach _ _ _ _ _ H Hn) as [Hs Hv _]. split; try done.
  - apply H.
  - unfold dir_of. apply String.eqb_neq in Hne. by rewrite Hne, Hj, <- (walking_rel _ _ _ _ H).
  - apply prefix_app_r, H.
  - by exists m.
  - intros q Hq Hp. assert (Hd : dir `prefix_of` q) by (etrans; [|exact Hp]; by apply prefix_app_r).
    pose proof (walking_fuel _ _ _ _ H q Hq Hd). rewrite length_app. simpl. lia.
Qed.

Lemma walking_name t dir rel fuel name :
  walking t dir rel fuel -> safe_segment name -> dir ++ [name] = join root (rel_join rel name).
Proof. intros H Hn. destruct (rel_join_join rel name Hn) as [-> _]. by rewrite <- (walking_rel _ _ _ _ H). Qed.

Definition walk_post (t : Tree) (acc : Walked) (done : Tree -> Prop) (t' : Tree) (r : result error Walked) : Prop :=
  walked t t' /\ forall acc', r = Ok acc' -> done t' /\ collected t' acc acc'.

Lemma walk_post_err t acc done t' e : walked t t' -> walk_post t acc done t' (Err e).
Proof. by split. Qed.

(** The step of a walk through the names of a directory, after the name
    itself has been dealt with. *)
Lemma walk_post_next t t1 acc acc1 child (names : list string) dir t' r :
  walked t t1 -> collected t1 acc acc1 -> settled t1 child ->
  walk_post t1 acc1 (fun t' => forall name, name ∈ names -> settled t' (dir ++ [name])) t' r ->
  walk_post t acc (fun t' => settled t' child /\ forall name, name ∈ names -> settled t' (dir ++ [name])) t' r.
Proof.
  intros Hw Hc Hs [Hw' H]. split; [by eapply walked_trans|]. intros acc' Hr. destruct (H acc' Hr) as [H1 H2].
  destruct Hw' as [Hsh Hd]. split; [split; [by eapply settled_shrink|done]|]. by eapply collected_trans.
Qed.

(** A path that is no directory has nothing below it. *)
Lemma settled_leaf t p :
  p <> [] -> ~ is_dir t p -> (is_Some (t !! p) -> kept_path p \/ stateDir `prefix_of` p) -> settled t p.
Proof.
  intros Hne Hd Hk q n [[|x l] ->] Hv Hn Hd'; [rewrite app_nil_r in *; apply Hk; by rewrite Hn|].
  destruct Hd. by apply (Hv p x l).
Qed.

Lemma settled_state t p : stateDir `prefix_of` p -> settled t p.
Proof. intros Hp q n Hq _ _ _. right. by etrans. Qed.

(** What the recursive call of a walk must do. *)
Definition walk_spec (fuel : nat) (w : FPath -> string -> Walked -> M Walked) : Prop :=
  forall t dir rel acc, walking t dir rel fuel ->
    wp (w dir rel acc) (walk_post t acc (fun t' => settled t' dir)) t.

Lemma wp_walk_entries w fuel dir rel names t acc :
  walk_spec fuel w -> walking t dir rel (S fuel) -> Forall safe_segment names ->
  wp (walk_entries now stateDir w keep dir rel names acc)
    (walk_post t acc (fun t' => forall name, name ∈ names -> settled t' (dir ++ [name]))) t.
Proof using root_safe.
  intros Hw. revert t acc. induction names as [|name names IH]; intros t acc Hwalk Hsafe; cbn [walk_entries].
  { apply wp_ret. split; [apply walked_refl|]. intros acc' [= <-]. split; [set_solver|apply collected_refl]. }
  apply Forall_cons in Hsafe as [Hn Hsafe]. set (child := dir ++ [name]).
  pose proof (walking_reach _ _ _ _ _ Hwalk Hn) as Hr. fold child in Hr.
  pose proof (walking_name _ _ _ _ _ Hwalk Hn) as Hchild. fold child in Hchild.
  assert (Hcne : child <> []) by (intros H; by apply app_cons_not_nil in H || by destruct dir).
  assert (Hrest : forall t1 acc1, walked t t1 -> collected t1 acc acc1 -> settled t1 child ->
    wp (walk_entries now stateDir w keep dir rel names acc1)
      (walk_post t acc (fun t' => forall name', name' ∈ name :: names -> settled t' (dir ++ [name']))) t1).
  { intros t1 acc1 Ht1 Hc1 Hs1. eapply wp_mono; [by apply IH; [by eapply walking_walked|]|].
    intros t' r Hpost. destruct (walk_post_next t t1 acc acc1 child names dir t' r Ht1 Hc1 Hs1 Hpost) as [H1 H2].
    split; [done|]. intros acc' Hacc. destruct (H2 acc' Hacc) as [[H3 H4] H5]. split; [|done].
    intros name' [->|Hin]%elem_of_cons; [done|by apply H4]. }
  apply wp_bind, wp_ctx_err; [|by apply walk_post_err, walked_refl].
  destruct (decide (child = stateDir)) as [Hst|Hst].
  { apply Hrest; [apply walked_refl|apply collected_refl|]. apply settled_state. by rewrite <- Hst. }
  apply wp_bind, wp_with_error, (wp_Lstat root root_safe Hr); [intros; by apply walk_post_err, walked_refl|].
  intros n Hnode. destruct (is_dir_dec t child) as [[m Hm]|Hnd].
  - assert (n = NDir m) as -> by congruence. apply wp_bind.
    eapply wp_mono; [apply Hw; by eapply walking_child|].
    intros t1 [acc1|e] [Hwd Hpost]; [|by apply walk_post_err]. destruct (Hpost acc1 eq_refl) as [Hset Hcol].
    apply Hrest; [done| |done]. intros x. cbn [snd]. destruct (decide (rel_join rel name ∈ keep)) as [|Hk]; [apply Hcol|].
    rewrite elem_of_app, list_elem_of_singleton. intros [Hx| ->]; [by apply Hcol|]. right.
    apply (candidate_shrink t); [apply Hwd|]. split_and!; cbn [fst snd]; try done; [apply Hr|apply Hr|].
    intros q Hq0 Hq. destruct (decide (q = child)) as [->|Hne]; [apply is_dir_not_link; by exists m|].
    by eapply visible_linkless; [apply Hr| | |].
  - assert (Hleaf : kept_path child -> settled t child) by (intros; apply settled_leaf; auto).
    match goal with |- wp (match n with NFile _ _ => ?k | NDir _ => _ | NLink _ _ => _ end) ?P ?t =>
      assert (Hcont : wp k P t); [|destruct n; [exact Hcont|by destruct Hnd; eexists|exact Hcont]] end.
    destruct (decide (rel_join rel name ∈ keep)) as [Hk|Hk].
    + apply Hrest; [apply walked_refl|apply collected_refl|]. apply Hleaf. by exists (rel_join rel name).
    + apply wp_bind, wp_with_error, (wp_Remove now root root_safe Hr); [intros; by apply walk_post_err, walked_refl|].
      intros t1 Hrem. assert (Hsh : shrink t t1).
      { apply (removed_shrink t t1 child); [done| |done]. intros (k & Hk' & Heq). apply Hk.
        by rewrite Hchild in Heq; apply join_inj in Heq as ->. }
      destruct Hrem as (Hs & Hnone & _). apply Hrest.
      * split; [done|]. intros q [m Hm]. apply (sim_is_dir t); [|by exists m].
        apply (step_sim _ _ _ _ Hs). intros <-. destruct Hnd. by exists m.
      * intros x Hx. by left.
      * apply settled_leaf; [done|intros [m Hm]; congruence|]. rewrite Hnone. by intros [? ?].
Qed.

Lemma wp_walk fuel : walk_spec fuel (walk now stateDir fuel keep).
Proof using root_safe.
  induction fuel as [|fuel IH]; intros t dir rel acc Hwalk.
  { pose proof (walking_fuel _ _ _ _ Hwalk dir) as Hlt. destruct (walking_dir _ _ _ _ Hwalk) as [m Hm].
    rewrite Hm in Hlt. specialize (Hlt (mk_is_Some _ _ eq_refl) (reflexivity dir)). lia. }
  cbn [walk]. apply wp_bind, wp_ctx_err; [|by apply walk_post_err, walked_refl].
  destruct (walking_dir _ _ _ _ Hwalk) as [m Hm].
  apply wp_bind, wp_with_error, wp_retry_op.
  - apply lookup_visible; [apply Hwalk|apply Hwalk|]. intros _. apply is_dir_not_link. by exists m.
  - quiet.
  - intros e. by apply walk_post_err, walked_refl.
  - intros t1 names Hop. rewrite Hm in Hop. injection Hop as <- <-.
    assert (Hsafe : Forall safe_segment (children t dir)).
    { apply Forall_forall. intros name Hin. apply elem_of_children in Hin as [n Hn].
      destruct (walking_base _ _ _ _ Hwalk) as (_ & _ & Hok). specialize (Hok _ _ Hn).
      by apply Forall_app in Hok as [_ [Hok _]%Forall_cons]. }
    eapply wp_mono; [by apply (wp_walk_entries _ fuel)|]. intros t' r [Hw Hpost]. split; [done|].
    intros acc' Hr. destruct (Hpost acc' Hr) as [Hset Hcol]. split; [|done].
    intros p n [l ->] Hv Hn Hd. destruct Hw as [Hsh Hdirs]. destruct l as [|x l].
    { destruct Hd. rewrite app_nil_r in *. apply Hdirs. by exists m. }
    assert (Hx : is_Some (t' !! (dir ++ [x]))).
    { destruct l as [|y l]; [by rewrite Hn|].
      destruct (Hv (dir ++ [x]) y l) as [m' ->]; [by rewrite <- (assoc_L (++))|by destruct dir|done]. }
    apply (Hset x) with n; [|by exists l; rewrite <- (assoc_L (++))|done|done|done].
    apply elem_of_children. eapply sim_present; [symmetry; by apply (shrink_back _ _ _ Hsh)|done].
Qed.

(** ** Pruning. *)

(** Without links on the way a path is reached, or the operation fails. *)
Lemma resolve_linkless links follow t cur todo :
  Forall safe_segment todo ->
  (forall pre, pre <> [] -> pre `prefix_of` todo -> not_link t (cur ++ pre)) ->
  (resolve links follow t cur todo = Ok (cur ++ todo) /\
   forall pre seg rest, todo = pre ++ seg :: rest -> pre <> [] -> is_dir t (cur ++ pre)) \/
  exists e, resolve links follow t cur todo = Err e.
Proof.
  revert cur. induction todo as [|seg rest IH]; intros cur Hs Hl.
  - left. rewrite resolve_nil, app_nil_r. split; [done|]. intros [|? ?] ? ? ?; done.
  - apply Forall_cons in Hs as [(H1 & H2 & H3 & _) Hs]. rewrite resolve_cons.
    apply String.eqb_neq in H1, H2, H3. rewrite H1, H2, H3. cbn [orb].
    assert (Hsingle : rest = [] -> forall pre s r, seg :: rest = pre ++ s :: r -> pre <> [] -> is_dir t (cur ++ pre)).
    { intros -> [|y [|z pre]] s' r' [=]; done. }
    destruct (t !! (cur ++ [seg])) as [[c m|m|target m]|] eqn:Hn.
    + destruct rest as [|seg' rest]; [left; split; [done|by apply Hsingle]|right; by eexists].
    + destruct (IH (cur ++ [seg]) Hs) as [[Hr Hd]|He]; [| |by right].
      * intros pre Hne Hp. rewrite <- (assoc_L (++)). apply Hl; [done|]. by apply prefix_cons.
      * left. rewrite Hr, <- (assoc_L (++)). split; [done|].
        intros [|y pre] s r [= -> Heq] Hne; [done|]. destruct (decide (pre = [])) as [->|Hpre]; [by exists m|].
        specialize (Hd pre s r Heq Hpre). by rewrite <- (assoc_L (++)) in Hd.
    + destruct (Hl [seg] (ltac:(done)) (prefix_cons seg [] rest (prefix_nil rest)) target m Hn).
    + destruct rest as [|seg' rest]; [left; split; [done|by apply Hsingle]|right; by eexists].
Qed.

Lemma candidate_lookup follow t x :
  candidate t x ->
  (reachable t x.2 /\ lookup_path follow t x.2 = Ok x.2) \/ exists e, lookup_path follow t x.2 = Err e.
Proof.
  intros (H1 & H2 & [Hne Hs] & H4 & H5).
  destruct (resolve_linkless max_links follow t [] x.2 Hs) as [[Hr Hd]|He]; [by intros pre; apply H5| |by right].
  left. split; [|done]. split; [done| |done]. intros q seg rest Heq Hq. by apply (Hd q seg rest).
Qed.

Lemma wp_lost {A : Type} follow p (op : FPath -> Tree -> Tree * result errno A)
    (Q : Tree -> result error A -> Prop) t e :
  lookup_path follow t p = Err e -> (forall e', Q t (Err e')) -> wp (retryIO (syscall (at_path follow p op))) Q t.
Proof.
  intros Hp He. apply (wp_retry _ _ _ (fun t' => t' = t)); [done|]. intros ? ->.
  apply wp_syscall; [done|]. unfold at_path. rewrite Hp. done.
Qed.

Lemma wp_prune dirs t :
  Forall (candidate t) dirs -> wp (prune now dirs) (fun t' _ => shrink t t') t.
Proof using root_safe.
  revert t. induction dirs as [|[rel dir] dirs IH]; intros t Hc; cbn [prune]; [apply wp_ret, shrink_refl|].
  apply Forall_cons in Hc as [Hx Hc].
  assert (Hnext : forall t1, shrink t t1 -> wp (prune now dirs) (fun t' _ => shrink t t') t1).
  { intros t1 H1. eapply wp_mono; [apply IH; eapply Forall_impl; [exact Hc|]; intros x; by apply candidate_shrink|].
    intros t' r Hs. by eapply shrink_trans. }
  apply wp_bind, wp_with_error.
  destruct (candidate_lookup true t (rel, dir) Hx) as [[Hr Hl]|[e He]];
    [|by eapply wp_lost; [done|intros; apply shrink_refl]].
  apply wp_retry_op; [done|quiet|intros; apply shrink_refl|].
  intros t1 names Hop. assert (t1 = t) as -> by (unfold fails in Hop; repeat case_match; simplify_eq; done). clear Hop.
  apply wp_bind. destruct names as [|name names]; [|by apply wp_ret, Hnext, shrink_refl].
  apply wp_bind, wp_attempt, (wp_Remove now root root_safe Hr);
    [intros; apply wp_ret, Hnext, shrink_refl|].
  intros t1 Hrem. apply wp_ret, Hnext. apply (removed_shrink t t1 dir); [done| |done].
  destruct Hx as (Hj & Hk & _). cbn [fst snd] in *. intros (k & Hk' & Heq). rewrite Hj in Heq.
  apply join_inj in Heq as <-. done.
Qed.

Lemma tree_depth_bound t q : is_Some (t !! q) -> (length q < tree_depth t)%nat.
Proof.
  intros [n Hn]. unfold tree_depth. apply Nat.lt_succ_r, max_list_elem_of_le, list_elem_of_fmap. exists q.
  split; [done|]. apply list_elem_of_fmap. exists (q, n). split; [done|]. by apply elem_of_map_to_list.
Qed.
End Delete.

(** The whole pass: what it removes was not listed, and if it ends no other file
    or link is left below the root, outside of the state directory. *)
Lemma wp_deletionPass now root stateDir (m : Manifest) t :
  safe root -> base_ok root t ->
  wp (deletionPass now root stateDir m)
    (fun t' r => shrink root (kept (Entries m)) t t' /\
       (is_ok r = true -> settled root stateDir (kept (Entries m)) t' root)) t.
Proof.
  intros Hroot Hb. set (keep := kept (Entries m)). apply wp_bind. intros fs. cbn [fst snd tree].
  clear fs.
  apply wp_bind. eapply wp_mono; [apply (wp_walk now root stateDir Hroot keep); split; try done|].
  - apply Hb.
  - apply Hb.
  - intros q Hq _. pose proof (tree_depth_bound t q Hq). lia.
  - intros t1 [acc|e] [[Hsh _] Hpost]; [|done]. destruct (Hpost acc eq_refl) as [Hset Hcol].
    apply wp_bind. eapply wp_mono; [apply (wp_prune now root Hroot keep)|].
    + rewrite merge_sort_Permutation. apply Forall_forall. intros x [Hx|Hx]%Hcol; [by apply not_elem_of_nil in Hx|done].
    + intros t2 [[]|e] H2; [|by split; [eapply shrink_trans|]].
      apply wp_ret. split; [by eapply shrink_trans|]. intros _. by eapply settled_shrink.
Qed.
