(* ===== verification/CommitFSProps.v ===== *)
(** * What a commit into a directory tree guarantees *)

From Stdlib Require Import Ascii.
From stdpp Require Import base tactics numbers countable list option strings gmap sorting.
From S2P Require Import Prelude GoStd Sha256 Wire Manifest Chunk Staging Ingest FileTree FileTreeFacts CommitFS CommitFSFacts.
From S2P Require Import CommitFSDelete.

Section Props.
Variable now : Z.
Variable owner : Z * Z.
Variable umasked : Z -> Z.
Variable geteuid0 : bool.
Variable torn : list Z -> list Z.
Variable st : State.
Variable staged : Disk.
Variable root : FPath.
Variable stateDir : FPath.
Hypothesis root_safe : safe root.

Abbreviation step := (CommitFSFacts.step root).
Abbreviation reachable := (CommitFSFacts.reachable root).
Abbreviation base_ok := (CommitFSFacts.base_ok root).
Abbreviation file_meta := (CommitFSFacts.file_meta geteuid0).

Definition final (e : Entry) : FPath := join root (Path e).

(** The temporary path an entry is prepared under. *)
Definition temp (e : Entry) : option FPath :=
  if (Type_ e =? TypeFile)%string then Some (with_suffix (final e) ".kipper-part")
  else if (Type_ e =? TypeSymlink)%string then Some (with_suffix (final e) ".kipper-link")
  else None.

(** The parent directory of an entry and its name in it. *)
Lemma entry_path e :
  safe_path (Path e) ->
  exists base, final e = dir_of root (parentDir (Path e)) ++ [base] /\ safe_segment base /\
    parentDir (Path e) <> "."%string /\
    (parentDir (Path e) = ""%string \/ Forall safe_segment (Split (parentDir (Path e)) "/"%char)).
Proof.
  intros (segs & Hne & Hs & Hp). assert (Hsplit : Split (Path e) "/"%char = segs).
  { rewrite Hp. apply Split_Join; [done|]. eapply Forall_impl; [done|]. by intros x (_ & _ & _ & ?). }
  assert (Hse : Forall safe_segment (Split (Path e) "/"%char)) by (by rewrite Hsplit).
  unfold final, join, dir_of, parentDir. clear Hp Hsplit Hs segs Hne.
  destruct (LastIndexByte (Path e) "/"%char) as [i|] eqn:Hi.
  - apply LastIndexByte_Some in Hi as (base & Heq & Hno). exists base. set (up := str_take i (Path e)) in *.
    rewrite Heq, Split_app, (Split_no_byte_id base) in * by done.
    apply Forall_app in Hse as [Hup Hb]. apply Forall_cons in Hb as [Hb _].
    assert (Hne : up <> ""%string) by (intros Hup0; rewrite Hup0 in Hup; apply Forall_cons in Hup as [(? & _) _]; done).
    assert (Hdot : up <> "."%string)
      by (intros Hup0; rewrite Hup0 in Hup; apply Forall_cons in Hup as [(_ & ? & _) _]; done).
    apply String.eqb_neq in Hne as ->. split_and!; try done; [by rewrite (assoc_L (++))|by right].
  - apply LastIndexByte_None in Hi. rewrite (Split_no_byte_id _ _ Hi) in *.
    apply Forall_cons in Hse as [Hb _]. exists (Path e). split_and!; try done. by left.
Qed.

(** What committing one entry may change. *)
Definition own_entry (t : Tree) (e : Entry) (q : FPath) : Prop :=
  missing_on t (final e) q \/
  (if (Type_ e =? TypeDir)%string then q = final e else final e `prefix_of` q) \/
  temp e = Some q.

Definition clean (r : FileResult) : Prop := Match r = true /\ Error r = ""%string.

(** A file as the manifest describes it, with the content that was staged. *)
Definition file_ok (i : nat) (e : Entry) (n : option Node) : Prop :=
  exists c m, n = Some (NFile c m) /\ AssembleEntry st staged i = Some (Ok c) /\
    hex_encode (Sum256_bytes c) = SHA256 e /\ file_meta e m.

Lemma missing_on_prefix t (d : FPath) seg q : missing_on t d q -> missing_on t (d ++ [seg]) q.
Proof. intros [H1 H2]. split; [by apply prefix_app_r|done]. Qed.

Lemma reach_final t e base :
  safe_segment base -> visible t (dir_of root (parentDir (Path e))) -> is_dir t (dir_of root (parentDir (Path e))) ->
  Forall safe_segment (dir_of root (parentDir (Path e))) -> root `prefix_of` dir_of root (parentDir (Path e)) ->
  reachable t (dir_of root (parentDir (Path e)) ++ [base]).
Proof.
  intros Hb Hv Hd Hs Hp. split; [|by apply visible_snoc|by eexists _, _].
  split; [by destruct (dir_of _ _)|]. apply Forall_app_2; [done|]. by constructor.
Qed.

Lemma dir_of_safe rel :
  rel = ""%string \/ Forall safe_segment (Split rel "/"%char) ->
  Forall safe_segment (dir_of root rel) /\ root `prefix_of` dir_of root rel.
Proof using root_safe.
  destruct root_safe as [_ Hroot]. unfold dir_of, join. intros [->|Hr]; [done|].
  destruct (rel =? "")%string; [done|]. split; [by apply Forall_app_2|by apply prefix_app_r].
Qed.

(** Results of an entry. *)
Definition committed (e : Entry) (good : Tree -> FileResult -> Prop) (t t' : Tree) (r : result error FileResult) : Prop :=
  step (own_entry t e) t t' /\ exists fr, r = Ok fr /\ FR_Path fr = Path e /\ good t' fr.

Lemma wp_commitFile i e t :
  Type_ e = TypeFile -> safe_path (Path e) -> base_ok t ->
  (forall p, temp e = Some p -> not_link t p) ->
  wp (commitFile now owner umasked geteuid0 torn st staged root i e)
    (committed e (fun t' fr => clean fr -> visible t' (final e) /\ file_ok i e (t' !! final e)) t) t.
Proof using root_safe.
  intros Hf Hs Hb Hl. destruct (entry_path e Hs) as (base & Hfin & Hbase & Hdot & Hrel).
  set (dir := dir_of root (parentDir (Path e))) in *. set (part := String.append base ".kipper-part").
  assert (Hpart : safe_segment part) by (apply safe_segment_suffix; [done|done|reflexivity|simpl; lia]).
  assert (Hneq : part <> base) by (by apply append_longer).
  assert (Htemp : with_suffix (final e) ".kipper-part" = dir ++ [part]) by (rewrite Hfin; apply with_suffix_snoc).
  assert (Hte : temp e = Some (dir ++ [part])) by (unfold temp; by rewrite Hf, Htemp).
  assert (Hown1 : forall q, missing_on t dir q -> own_entry t e q)
    by (intros q Hq; left; rewrite Hfin; by apply missing_on_prefix).
  assert (Hown2 : forall q, dir ++ [part] = q -> own_entry t e q) by (intros q <-; by right; right).
  assert (Hown3 : forall q, own_final (d := dir) (base := base) (part := part) q -> own_entry t e q).
  { intros q [->|Hq]; [by apply Hown2|]. right. left. by rewrite Hf, Hfin. }
  assert (Herr : forall t' fr, step (own_entry t e) t t' -> FR_Path fr = Path e -> Match fr = false \/ Error fr <> ""%string ->
    committed e (fun t' fr => clean fr -> visible t' (final e) /\ file_ok i e (t' !! final e)) t t' (Ok fr)).
  { intros t' fr Ht Hp Hbad. split; [done|]. exists fr. split_and!; [done|done|].
    intros [Hm He]. destruct Hbad; congruence. }
  unfold commitFile. cbv zeta. fold (final e). rewrite Htemp, Hfin. rewrite Hfin in Herr.
  apply wp_bind, wp_attempt. eapply wp_mono; [by apply wp_ensureRealDir|].
  intros t1 [[]|err] [H1 Hok]; [|by apply wp_ret, Herr; [apply (step_mono root _ _ _ _ Hown1)| |left]].
  destruct (Hok eq_refl) as [Hv1 Hd1]. clear Hok. fold dir in H1, Hv1, Hd1.
  destruct (dir_of_safe _ Hrel) as [Hsafe Hpre].
  assert (Hr1 : reachable t1 (dir ++ [base])) by (by apply reach_final).
  assert (Hrp1 : reachable t1 (dir ++ [part])) by (by apply (pair_reach root Hr1)).
  assert (H01 : step (own_entry t e) t t1) by (by apply (step_mono root _ _ _ _ Hown1)).
  assert (Hl1 : not_link t1 (dir ++ [part])).
  { apply (sim_not_link t); [|by apply Hl]. apply (step_sim _ _ _ _ H1). intros [Hp _].
    apply prefix_length in Hp. rewrite length_app in Hp. simpl in Hp. lia. }
  apply wp_bind, wp_attempt. eapply wp_mono; [by apply wp_assembleTo|].
  intros t2 [[]|err] [H2 Hasm]; [|apply wp_ret, Herr; [|done|by left]].
  2:{ apply (step_trans _ _ _ t1); [done|by apply (step_mono root _ _ _ _ Hown2)]. }
  destruct (Hasm eq_refl) as (c & m0 & Hp2 & Hcontent). clear Hasm.
  assert (H02 : step (own_entry t e) t t2)
    by (apply (step_trans _ _ _ t1); [done|by apply (step_mono root _ _ _ _ Hown2)]).
  assert (Hr2 : reachable t2 (dir ++ [base])).
  { eapply reach_step; [exact H2| |exact Hr1]. intros q <- Hp. by apply sibling_not_prefix in Hp. }
  assert (Hrp2 : reachable t2 (dir ++ [part])) by (by apply (pair_reach root Hr2)).
  assert (Hlp2 : not_link t2 (dir ++ [part])) by (intros target m Hn; congruence).
  apply wp_bind, wp_attempt. apply (wp_retry _ _ _ (fun t' => t' = t2)); [done|]. intros ? ->.
  apply wp_bind, wp_with_error, (wp_ReadFile root root_safe Hrp2); [done| |].
  { intros err. split; [done|]. by apply wp_ret, Herr; [| |left]. }
  intros c' m' Hp2'. rewrite Hp2 in Hp2'. injection Hp2' as <- <-. apply wp_ret.
  destruct (String.eqb_spec (hex_encode (Sum256_bytes c)) (SHA256 e)) as [Hsum|Hsum]; cbn [negb].
  - apply wp_bind, wp_attempt. eapply wp_mono; [by apply (wp_applyAndRename _ _ _ root_safe Hpart Hneq e t2 c m0)|].
    intros t3 r3 (H3 & Hmsg & Hgood). apply wp_ret.
    assert (H03 : step (own_entry t e) t t3)
      by (apply (step_trans _ _ _ t2); [done|by apply (step_mono root _ _ _ _ Hown3)]).
    split; [done|]. eexists. split_and!; [done|done|]. intros [_ He].
    destruct r3 as [[]|e3]; [|by destruct (Hmsg e3)].
    destruct (Hgood eq_refl) as (m & Hm & Hmeta). split; [|by exists c, m].
    apply (reach_visible root). eapply reach_step; [exact H3| |exact Hr2]. intros q [->|Hq] Hp Hn.
    + by apply sibling_not_prefix in Hp.
    + destruct Hn. by apply (anti_symm prefix).
  - apply wp_bind, wp_attempt, (wp_Remove_once _ _ root_safe Hrp2).
    + intros err. by apply wp_ret, Herr; [| |left].
    + intros t3 (H3 & _). apply wp_ret, Herr; [|done|by left].
      apply (step_trans _ _ _ t2); [done|by apply (step_mono root _ _ _ _ Hown2)].
Qed.

(** ** Directories. *)

Definition dir_ok (e : Entry) (n : option Node) : Prop :=
  exists m, n = Some (NDir m) /\ m_mode m = syscallMode (Mode e) /\
    (geteuid0 = true -> m_uid m = UID e /\ m_gid m = GID e).

Lemma final_dir_of e :
  safe_path (Path e) ->
  dir_of root (Path e) = final e /\ Path e <> "."%string /\ Forall safe_segment (Split (Path e) "/"%char) /\
  exists d base, final e = d ++ [base] /\ root `prefix_of` d /\ safe (final e).
Proof using root_safe.
  intros Hs. destruct (entry_path e Hs) as (base & Hfin & Hbase & _ & Hrel).
  destruct (dir_of_safe _ Hrel) as [Hsafe Hpre]. destruct Hs as (segs & Hne & Hs & Hp).
  assert (Hsplit : Split (Path e) "/"%char = segs).
  { rewrite Hp. apply Split_Join; [done|]. eapply Forall_impl; [done|]. by intros x (_ & _ & _ & ?). }
  assert (Hse : Forall safe_segment (Split (Path e) "/"%char)) by (by rewrite Hsplit). split_and!.
  - unfold dir_of. destruct (String.eqb_spec (Path e) "") as [Heq|]; [|done].
    rewrite Heq in Hse. apply Forall_cons in Hse as [(? & _) _]. done.
  - intros Heq. rewrite Heq in Hse. apply Forall_cons in Hse as [(_ & ? & _) _]. done.
  - done.
  - eexists _, base. split_and!; [done|done|]. rewrite Hfin. split; [by destruct (dir_of _ _)|].
    apply Forall_app_2; [done|]. by constructor.
Qed.

Lemma wp_commitDir e t :
  Type_ e = TypeDir -> safe_path (Path e) -> base_ok t ->
  wp (commitDir now owner umasked geteuid0 root e)
    (committed e (fun t' fr =>
       (is_dir t (final e) -> is_dir t' (final e)) /\
       (Match fr = true -> visible t' (final e) /\ is_dir t' (final e)) /\
       (clean fr -> dir_ok e (t' !! final e))) t) t.
Proof using root_safe.
  intros Hd Hs Hb. destruct (final_dir_of e Hs) as (Hdir & Hdot & Hse & d & base & Hfin & Hpre & Hsafe).
  assert (Hown1 : forall q, missing_on t (final e) q -> own_entry t e q) by (intros q Hq; by left).
  assert (Hown2 : forall q, final e = q -> own_entry t e q) by (intros q <-; right; left; by rewrite Hd).
  unfold commitDir. cbv zeta. fold (final e).
  apply wp_bind, wp_attempt. eapply wp_mono; [by apply wp_ensureRealDir; [| | |right]|].
  rewrite Hdir. intros t1 [[]|err] [H1 Hok].
  2:{ apply wp_ret. split; [by apply (step_mono root _ _ _ _ Hown1)|]. eexists. split_and!; try done; [|by intros [? ?]].
      intros Hd0. apply (step_is_dir _ _ _ _ _ H1); [by intros [_ ?]|done]. }
  destruct (Hok eq_refl) as [Hv1 Hd1]. clear Hok.
  assert (Hr1 : reachable t1 (final e)) by (split; [done|done|by exists d, base]).
  assert (H01 : step (own_entry t e) t t1) by (by apply (step_mono root _ _ _ _ Hown1)).
  assert (Hkeep : forall t', step (eq (final e)) t1 t' -> is_dir t' (final e) -> step (own_entry t e) t t' /\
    reachable t' (final e) /\ (true = true -> visible t' (final e) /\ is_dir t' (final e))).
  { intros t' Ht Hd'. assert (Hr' : reachable t' (final e)) by (eapply reach_step; [exact Ht| |done]; by intros q <- _ ?).
    split_and!; [|done|split; [apply Hr'|done]]. apply (step_trans _ _ _ t1); [done|].
    by apply (step_mono root _ _ _ _ Hown2). }
  destruct Hd1 as [m1 Hm1].
  apply wp_bind, wp_attempt, wp_with_error, (wp_change_meta root root_safe Hr1);
    [intros _; apply is_dir_not_link; by exists m1| |].
  { intros err. apply wp_ret. split; [done|]. eexists.
    split_and!; [done|done|by exists m1|by split; [apply Hr1|exists m1]|]. by intros [? ?]. }
  intros n Hn H2. rewrite Hm1 in Hn. injection Hn as <-. set (t2 := <[final e := _]> t1) in *.
  set (m2 := mkMeta (syscallMode (Mode e)) (m_uid m1) (m_gid m1) (m_mtime m1)).
  assert (Hm2 : t2 !! final e = Some (NDir m2)) by (unfold t2; by rewrite lookup_insert_eq).
  destruct (Hkeep t2 H2) as (H02 & Hr2 & Hmade2); [by exists m2|].
  apply wp_bind, wp_attempt. unfold chown_if_root. destruct geteuid0 eqn:Heuid.
  - apply wp_with_error, (wp_change_meta root root_safe Hr2);
      [intros _; apply is_dir_not_link; by exists m2| |].
    { intros err. apply wp_ret. split; [done|]. eexists.
      split_and!; [done|done|by exists m2|done|]. by intros [? ?]. }
    intros n Hn H3. rewrite Hm2 in Hn. injection Hn as <-. set (t3 := <[final e := _]> t2) in *.
    assert (Hm3 : t3 !! final e = Some (NDir (mkMeta (syscallMode (Mode e)) (UID e) (GID e) (m_mtime m1))))
      by (unfold t3; by rewrite lookup_insert_eq).
    destruct (Hkeep t3) as (H03 & Hr3 & Hmade3); [by apply (step_trans _ _ _ t2)|by eexists|].
    apply wp_ret. split; [done|]. eexists. split_and!; [done|done|by eexists|done|].
    intros _. eexists. split_and!; [done|done|]. done.
  - apply wp_ret, wp_ret. split; [done|]. eexists. split_and!; [done|done|by exists m2|done|].
    intros _. eexists. split_and!; [done|done|]. by rewrite Heuid.
Qed.

(** ** Links. *)

Definition link_ok (e : Entry) (n : option Node) : Prop :=
  exists m, n = Some (NLink (LinkTarget e) m) /\
    (geteuid0 = true -> m_uid m = UID e /\ m_gid m = GID e).

Lemma wp_commit_link e t :
  Type_ e = TypeSymlink -> safe_path (Path e) -> base_ok t ->
  wp (commit_link now owner umasked geteuid0 root e)
    (fun t' r => step (own_entry t e) t t' /\
       (r = Ok tt -> visible t' (final e) /\ link_ok e (t' !! final e))) t.
Proof using root_safe.
  intros Hl Hs Hb. destruct (entry_path e Hs) as (base & Hfin & Hbase & Hdot & Hrel).
  set (dir := dir_of root (parentDir (Path e))) in *. set (name := String.append base ".kipper-link").
  assert (Hname : safe_segment name) by (apply safe_segment_suffix; [done|done|reflexivity|simpl; lia]).
  assert (Hneq : name <> base) by (by apply append_longer).
  assert (Htemp : with_suffix (final e) ".kipper-link" = dir ++ [name]) by (rewrite Hfin; apply with_suffix_snoc).
  assert (Hte : temp e = Some (dir ++ [name])) by (unfold temp; by rewrite Hl, Htemp).
  set (tmp := dir ++ [name]) in *.
  assert (Hdiff : tmp <> dir ++ [base]) by (intros Heq; apply app_inj_tail in Heq as [_ ?]; congruence).
  assert (Hown1 : forall q, missing_on t dir q -> own_entry t e q)
    by (intros q Hq; left; rewrite Hfin; by apply missing_on_prefix).
  assert (Hown2 : forall q, tmp = q -> own_entry t e q) by (intros q <-; by right; right).
  assert (Hown3 : forall q, (dir ++ [base]) `prefix_of` q -> own_entry t e q)
    by (intros q Hq; right; left; by rewrite Hl, Hfin).
  unfold commit_link. cbv zeta. fold (final e). rewrite Htemp, Hfin.
  assert (Herr : forall t' err, step (own_entry t e) t t' -> step (own_entry t e) t t' /\
    ((Err err : result error unit) = Ok tt -> visible t' (dir ++ [base]) /\ link_ok e (t' !! (dir ++ [base])))) by done.
  apply wp_bind. eapply wp_mono; [by apply wp_ensureRealDir|]. fold dir.
  intros t1 [[]|err] [H1 Hok]; [|by apply Herr, (step_mono root _ _ _ _ Hown1)].
  destruct (Hok eq_refl) as [Hv1 Hd1]. clear Hok.
  destruct (dir_of_safe _ Hrel) as [Hsafe Hpre]. fold dir in Hsafe, Hpre.
  assert (Hr1 : reachable t1 (dir ++ [base])) by (by apply reach_final).
  assert (H01 : step (own_entry t e) t t1) by (by apply (step_mono root _ _ _ _ Hown1)).
  apply wp_bind. eapply wp_mono; [by apply wp_replaceIfDir|].
  intros t2 r2 [H2 _]. assert (H02 : step (own_entry t e) t t2)
    by (apply (step_trans _ _ _ t1); [done|by apply (step_mono root _ _ _ _ Hown3)]).
  destruct r2 as [[]|err]; [|by apply Herr].
  assert (Hr2 : reachable t2 (dir ++ [base])).
  { eapply reach_step; [exact H2| |exact Hr1]. intros q Hq Hp Hn. destruct Hn. by apply (anti_symm prefix). }
  (* From here on only the temporary path changes until the rename. *)
  assert (Hnext : forall ta tb, step (own_entry t e) t ta -> reachable ta (dir ++ [base]) -> step (eq tmp) ta tb ->
    step (own_entry t e) t tb /\ reachable tb (dir ++ [base])).
  { intros ta tb Ha Hra Hb'. split.
    - apply (step_trans _ _ _ ta); [done|by apply (step_mono root _ _ _ _ Hown2)].
    - eapply reach_step; [exact Hb'| |exact Hra]. intros q <- Hp. by apply sibling_not_prefix in Hp. }
  assert (Hrest : forall t3, step (own_entry t e) t t3 -> reachable t3 (dir ++ [base]) ->
    wp (_ ← with_error "creating symlink" (retryIO (Symlink now owner umasked (LinkTarget e) tmp));
        _ ← chown_if_root geteuid0 "applying link ownership" (Lchown tmp (UID e) (GID e));
        with_error "renaming link into place" (retryIO (Rename now tmp (dir ++ [base]))))
      (fun t' r => step (own_entry t e) t t' /\
         (r = Ok tt -> visible t' (dir ++ [base]) /\ link_ok e (t' !! (dir ++ [base])))) t3).
  { intros t3 H03 Hr3. assert (Hrt3 : reachable t3 tmp) by (by apply (pair_reach root Hr3)).
    apply wp_bind, wp_with_error, (wp_Symlink now owner umasked root root_safe Hrt3); [by intros; apply Herr|].
    intros t4 m H4 Hm. destruct (Hnext t3 t4 H03 Hr3 H4) as [H04 Hr4].
    assert (Hrename : forall t5 m5, step (own_entry t e) t t5 -> reachable t5 (dir ++ [base]) ->
      t5 !! tmp = Some (NLink (LinkTarget e) m5) -> (geteuid0 = true -> m_uid m5 = UID e /\ m_gid m5 = GID e) ->
      wp (with_error "renaming link into place" (retryIO (Rename now tmp (dir ++ [base]))))
        (fun t' r => step (own_entry t e) t t' /\
           (r = Ok tt -> visible t' (dir ++ [base]) /\ link_ok e (t' !! (dir ++ [base])))) t5).
    { intros t5 m5 H05 Hr5 Hm5 Hmeta. apply wp_with_error, (wp_Rename now root root_safe);
        [by apply (pair_reach root Hr5)|done|done|by intros; apply Herr|].
      intros t6 n Hn _ _ H6 Hf6 _. rewrite Hm5 in Hn. injection Hn as <-. split.
      - apply (step_trans _ _ _ t5); [done|]. eapply step_mono; [|exact H6].
        intros q [->| ->]; [by apply Hown2|by apply Hown3].
      - intros _. split; [|by exists m5]. apply (reach_visible root). eapply reach_step; [exact H6| |exact Hr5].
        intros q [->| ->] Hp Hn; [by apply sibling_not_prefix in Hp|done]. }
    apply wp_bind. unfold chown_if_root. destruct geteuid0.
    - assert (Hrt4 : reachable t4 tmp) by (by apply (pair_reach root Hr4)).
      apply wp_with_error, (wp_change_meta root root_safe Hrt4); [done|by intros; apply Herr|].
      intros n Hn H5. rewrite Hm in Hn. injection Hn as <-. set (t5 := <[tmp := _]> t4) in *.
      destruct (Hnext t4 t5 H04 Hr4 H5) as [H05 Hr5].
      eapply Hrename; [done|done|unfold t5; by rewrite lookup_insert_eq|done].
    - apply wp_ret. by eapply Hrename. }
  assert (Hrt2 : reachable t2 tmp) by (by apply (pair_reach root Hr2)).
  apply wp_bind, wp_attempt, (wp_Remove now root root_safe Hrt2).
  - intros err. apply wp_bind. destruct (IsNotExist err); [by apply wp_ret, Hrest|by apply wp_throw, Herr].
  - intros t3 (H3 & _). destruct (Hnext t2 t3 H02 Hr2 H3) as [H03 Hr3].
    by apply wp_bind, wp_ret, Hrest.
Qed.

Lemma wp_commitSymlink e t :
  Type_ e = TypeSymlink -> safe_path (Path e) -> base_ok t ->
  wp (commitSymlink now owner umasked geteuid0 root e)
    (committed e (fun t' fr => clean fr -> visible t' (final e) /\ link_ok e (t' !! final e)) t) t.
Proof using root_safe.
  intros Hl Hs Hb. apply wp_bind, wp_attempt. eapply wp_mono; [by apply wp_commit_link|].
  intros t' [[]|err] [H1 Hok]; apply wp_ret; (split; [done|]); eexists; split_and!; try done; [by intros _; apply Hok|].
  by intros [? _].
Qed.

(** ** The entries together. *)

(** A manifest the committer can reproduce: only directories have entries below
    them, and no entry lives at or below a temporary path or in the state
    directory. *)
Record well_shaped (es : list Entry) : Prop := {
  shape_valid : Forall entry_ok es;
  shape_distinct : NoDup (Path <$> es);
  shape_tree : forall e1 e2, e1 ∈ es -> e2 ∈ es -> e1 <> e2 -> final e1 `prefix_of` final e2 -> Type_ e1 = TypeDir;
  shape_temp : forall e1 e2 p, e1 ∈ es -> e2 ∈ es -> temp e1 = Some p -> ~ p `prefix_of` final e2;
  shape_state : forall e, e ∈ es -> ~ stateDir `prefix_of` final e
}.

(** What a result says about its entry. *)
Definition entry_state (t : Tree) (i : nat) (e : Entry) (r : FileResult) : Prop :=
  (Type_ e = TypeDir ->
     (Match r = true -> visible t (final e) /\ is_dir t (final e)) /\ (clean r -> dir_ok e (t !! final e))) /\
  (Type_ e = TypeFile -> clean r -> visible t (final e) /\ file_ok i e (t !! final e)) /\
  (Type_ e = TypeSymlink -> clean r -> visible t (final e) /\ link_ok e (t !! final e)).

Lemma dir_ok_sim e n n' : sim n n' -> dir_ok e n -> dir_ok e n'.
Proof.
  intros Hs (m & -> & H1 & H2). destruct n' as [[c m'|m'|target m']|]; simpl in Hs; try done.
  injection Hs as Ha Hb Hc. exists m'. split; [done|]. by rewrite <- Ha, <- Hb, <- Hc.
Qed.

Lemma file_ok_sim i e n n' : sim n n' -> file_ok i e n -> file_ok i e n'.
Proof. intros Hs (c & m & -> & H). destruct n' as [[]|]; simpl in Hs; try done. injection Hs as <- <-. by exists c, m. Qed.

Lemma link_ok_sim e n n' : sim n n' -> link_ok e n -> link_ok e n'.
Proof. intros Hs (m & -> & H). destruct n' as [[]|]; simpl in Hs; try done. injection Hs as <- <-. by exists m. Qed.

(** Directories on the way to [p] stay directories. *)
Definition keeps_dirs (t t' : Tree) (p : FPath) : Prop := forall q, q `prefix_of` p -> is_dir t q -> is_dir t' q.

Lemma keeps_visible t t' p : keeps_dirs t t' p -> visible t p -> visible t' p.
Proof. intros Hk Hv q seg rest -> Hq. apply Hk; [by apply prefix_app_r|by apply (Hv q seg rest)]. Qed.

Lemma entry_state_keep t t' i e r :
  keeps_dirs t t' (final e) ->
  (Type_ e <> TypeDir \/ is_dir t (final e) -> sim (t !! final e) (t' !! final e)) ->
  entry_state t i e r -> entry_state t' i e r.
Proof.
  intros Hk Hs (Hd & Hf & Hl). split_and!.
  - intros Ht. destruct (Hd Ht) as [H1 H2]. split.
    + intros Hm. destruct (H1 Hm) as [H3 H4]. split; [by eapply keeps_visible|by apply Hk].
    + intros Hc. apply (dir_ok_sim e (t !! final e)); [|by apply H2]. apply Hs. right. by apply H1, Hc.
  - intros Ht Hc. destruct (Hf Ht Hc) as [H1 H2]. split; [by eapply keeps_visible|].
    apply (file_ok_sim i e (t !! final e)); [|done]. apply Hs. left. by rewrite Ht.
  - intros Ht Hc. destruct (Hl Ht Hc) as [H1 H2]. split; [by eapply keeps_visible|].
    apply (link_ok_sim e (t !! final e)); [|done]. apply Hs. left. by rewrite Ht.
Qed.

Lemma final_inj e1 e2 : final e1 = final e2 -> Path e1 = Path e2.
Proof.
  unfold final, join. intros H%app_inv_head. apply (f_equal (fun l => Join l "/")) in H.
  change "/"%string with (String "/"%char EmptyString) in H. by rewrite !Join_Split in H.
Qed.

Section Shaped.
Variable es : list Entry.
Hypothesis Hshape : well_shaped es.

Lemma shape_entry i e : es !! i = Some e -> e ∈ es /\ safe_path (Path e).
Proof using Hshape.
  intros He. apply list_elem_of_lookup_2 in He as Hin. split; [done|].
  pose proof (shape_valid es Hshape) as Hv. rewrite Forall_forall in Hv. by destruct (Hv e Hin).
Qed.

Lemma shape_path e1 e2 : e1 ∈ es -> e2 ∈ es -> Path e1 = Path e2 -> e1 = e2.
Proof using Hshape.
  intros H1 H2 Hp. apply list_elem_of_lookup in H1 as [i Hi], H2 as [j Hj].
  pose proof (shape_distinct es Hshape) as Hnd.
  assert (i = j); [|congruence]. eapply (NoDup_lookup (Path <$> es)); [done| |];
    rewrite list_lookup_fmap; [by rewrite Hi|rewrite Hj]. simpl. by rewrite Hp.
Qed.

Lemma prefix_snoc_cases (p d : FPath) x : p `prefix_of` d ++ [x] -> p = d ++ [x] \/ p `prefix_of` d.
Proof.
  intros [k Hk]. induction k as [|y k _] using rev_ind; [left; by rewrite app_nil_r in Hk|].
  rewrite (assoc_L (++)) in Hk. apply app_inj_tail in Hk as [-> _]. right. by apply prefix_app_r.
Qed.

Lemma temp_Some e p :
  safe_path (Path e) -> temp e = Some p ->
  exists d base suffix, final e = d ++ [base] /\ p = d ++ [String.append base suffix] /\
    Type_ e <> TypeDir /\ suffix = (if (Type_ e =? TypeFile)%string then ".kipper-part" else ".kipper-link")%string.
Proof.
  intros Hs. destruct (entry_path e Hs) as (base & Hfin & _). unfold temp.
  destruct (String.eqb_spec (Type_ e) TypeFile) as [->|]; [|destruct (String.eqb_spec (Type_ e) TypeSymlink) as [->|]; [|done]];
    intros [= <-]; rewrite Hfin, with_suffix_snoc; eexists _, base, _; done.
Qed.

(** Committing one entry spares the others. *)
Lemma other_keeps t t' e1 e2 :
  e1 ∈ es -> e2 ∈ es -> e1 <> e2 -> safe_path (Path e1) ->
  step (own_entry t e1) t t' -> (Type_ e1 = TypeDir -> is_dir t (final e1) -> is_dir t' (final e1)) ->
  keeps_dirs t t' (final e2) /\ (Type_ e2 <> TypeDir \/ is_dir t (final e2) -> sim (t !! final e2) (t' !! final e2)).
Proof using Hshape.
  intros H1 H2 Hne Hs Hstep Hdir.
  assert (Hfne : final e1 <> final e2) by (intros Hf; by apply Hne, shape_path, final_inj).
  assert (Hcases : forall q, q `prefix_of` final e2 -> own_entry t e1 q ->
    missing_on t (final e1) q \/ Type_ e1 = TypeDir /\ q = final e1).
  { intros q Hq [Hm|[Hf|Ht]]; [by left| |by destruct (shape_temp es Hshape e1 e2 q H1 H2 Ht)]. right.
    destruct (String.eqb_spec (Type_ e1) TypeDir) as [Hd|Hd]; [done|]. destruct Hd.
    apply (shape_tree es Hshape e1 e2); [done..|]. by etrans. }
  split.
  - intros q Hq Hd. destruct (decide (q = final e1)) as [->|Hneq].
    + destruct (decide (Type_ e1 = TypeDir)) as [Ht|Ht]; [by apply Hdir|].
      destruct Ht. by apply (shape_tree es Hshape e1 e2).
    + apply (step_is_dir _ _ _ _ _ Hstep); [|done]. intros Ho.
      destruct (Hcases q Hq Ho) as [[_ Hn]|[_ ?]]; done.
  - intros Hor. apply (step_sim _ _ _ _ Hstep). intros Ho.
    destruct (Hcases (final e2)) as [[Hp Hn]|[_ ?]]; [done|done| |by apply Hfne].
    destruct Hor as [Ht|Hd]; [|by apply Hn]. apply Ht. by apply (shape_tree es Hshape e2 e1).
Qed.

(** Nor does it touch the temporary path of another file. *)
Lemma other_temp t e1 e2 p :
  e1 ∈ es -> e2 ∈ es -> e1 <> e2 -> safe_path (Path e1) -> safe_path (Path e2) ->
  Type_ e1 <> TypeSymlink -> Type_ e2 = TypeFile -> temp e2 = Some p -> ~ own_entry t e1 p.
Proof using Hshape.
  intros H1 H2 Hne Hs1 Hs2 Hnl Hf Ht. destruct (temp_Some e2 p Hs2 Ht) as (d & base & suffix & Hfin & Hp & _ & Hsuf).
  intros [[Hm _]|[Ho|Ht1]].
  - by apply (shape_temp es Hshape e2 e1 p).
  - destruct (String.eqb_spec (Type_ e1) TypeDir) as [Hd|Hd].
    + apply (shape_temp es Hshape e2 e1 p); [done..|]. by rewrite Ho.
    + rewrite Hp in Ho. apply prefix_snoc_cases in Ho as [Ho|Ho].
      * apply (shape_temp es Hshape e2 e1 p); [done..|]. by rewrite Hp, Ho.
      * apply Hd. apply (shape_tree es Hshape e1 e2); [done..|]. rewrite Hfin. by apply prefix_app_r.
  - destruct (temp_Some e1 p Hs1 Ht1) as (d1 & base1 & suffix1 & Hfin1 & Hp1 & Hnd & Hsuf1).
    rewrite Hp in Hp1. apply app_inj_tail in Hp1 as [<- Hb]. rewrite Hf in Hsuf. simpl in Hsuf.
    assert (Hf1 : suffix1 = ".kipper-part"%string).
    { rewrite Hsuf1. destruct (String.eqb_spec (Type_ e1) TypeFile); [done|]. exfalso.
      pose proof (shape_valid es Hshape) as Hv. rewrite Forall_forall in Hv.
      destruct (Hv e1 H1) as [_ [(? & _)|[(? & _)|(? & _)]]]; done. }
    rewrite Hsuf, Hf1 in Hb. apply Hne, shape_path, final_inj; [done..|]. rewrite Hfin, Hfin1.
    assert (Hlen : String.length base = String.length base1).
    { apply (f_equal String.length) in Hb. rewrite !str_length_app in Hb. simpl in Hb. lia. }
    by apply str_app_inv_length in Hb as [-> _].
Qed.

(** ** The two loops. *)

Variable t0 : Tree.

Record progress (t : Tree) (results : gmap string FileResult) : Prop := {
  prog_base : base_ok t;
  prog_outside : forall q, ~ root `prefix_of` q -> t !! q = t0 !! q;
  prog_entries : forall i e r, es !! i = Some e -> results !! Path e = Some r ->
    FR_Path r = Path e /\ entry_state t i e r
}.

(** No file still to be committed would be written through a link. *)
Definition temps_free (t : Tree) (results : gmap string FileResult) : Prop :=
  forall e p, e ∈ es -> Type_ e = TypeFile -> results !! Path e = None -> temp e = Some p -> not_link t p.

Lemma own_base t e q : safe_path (Path e) -> own_entry t e q -> q `prefix_of` root -> ~ is_dir t q.
Proof using root_safe.
  intros Hs Ho Hq. destruct (final_dir_of e Hs) as (_ & _ & _ & d & base & Hfin & Hpre & _).
  assert (Hlong : forall x, ~ d ++ [x] `prefix_of` root).
  { intros x Hx. apply prefix_length in Hx, Hpre. rewrite length_app in Hx. simpl in Hx. lia. }
  destruct Ho as [[_ Hn]|[Ho|Ht]]; [done| |].
  - destruct (Type_ e =? TypeDir)%string; [rewrite Ho, Hfin in Hq; by apply Hlong in Hq|].
    assert (Hf : final e `prefix_of` root) by (by etrans). rewrite Hfin in Hf. by apply Hlong in Hf.
  - destruct (temp_Some e q Hs Ht) as (d' & b & s & Hfin' & Hp & _). rewrite Hfin in Hfin'.
    apply app_inj_tail in Hfin' as [<- _]. rewrite Hp in Hq. by apply Hlong in Hq.
Qed.

Lemma progress_commit t t' results i e fr :
  progress t results -> es !! i = Some e -> step (own_entry t e) t t' -> FR_Path fr = Path e ->
  (Type_ e = TypeDir -> is_dir t (final e) -> is_dir t' (final e)) -> entry_state t' i e fr ->
  progress t' (<[Path e := fr]> results).
Proof using root_safe Hshape.
  intros [Hb Ho He] Hi Hs Hp Hd Hst. destruct (shape_entry i e Hi) as [Hin Hsafe]. split.
  - eapply base_step; [exact Hs| |done]. intros q. by apply own_base.
  - intros q Hq. rewrite (step_outside _ _ _ _ Hs) by done. by apply Ho.
  - intros j e' r Hj Hr. destruct (shape_entry j e' Hj) as [Hin' _].
    destruct (decide (Path e' = Path e)) as [Heq|Hne].
    + assert (e' = e) as -> by (by apply shape_path). rewrite lookup_insert_eq in Hr. injection Hr as <-.
      split; [done|]. assert (j = i) as ->; [|done].
      eapply (NoDup_lookup (Path <$> es)); [apply Hshape| |]; rewrite list_lookup_fmap;
        [by rewrite Hj|by rewrite Hi].
    + rewrite lookup_insert_ne in Hr by congruence. destruct (He j e' r Hj Hr) as [H1 H2]. split; [done|].
      destruct (other_keeps t t' e e') as [H3 H4]; try done; [by intros ->|].
      by apply (entry_state_keep t).
Qed.

Lemma temps_commit t t' results e fr :
  temps_free t results -> e ∈ es -> safe_path (Path e) -> Type_ e <> TypeSymlink -> step (own_entry t e) t t' ->
  temps_free t' (<[Path e := fr]> results).
Proof using Hshape.
  intros Hf Hin Hs Hnl Hstep e2 p Hin2 Hf2 Hr Hp.
  destruct (decide (Path e = Path e2)) as [Hpe|Hpne]; [by rewrite Hpe, lookup_insert_eq in Hr|].
  assert (Hne : e <> e2) by (by intros ->).
  rewrite lookup_insert_ne in Hr by done. apply (sim_not_link t); [|by apply (Hf e2)].
  apply list_elem_of_lookup in Hin2 as [j Hj]. destruct (shape_entry j e2 Hj) as [Hin2 Hs2].
  apply (step_sim _ _ _ _ Hstep). by apply (other_temp t e e2 p).
Qed.

(** A loop of the commit: whatever happens nothing outside of the root
    changes; if it ends every result tells the truth. *)
Definition loop_post (t' : Tree) (r : result error (gmap string FileResult)) : Prop :=
  (forall q, ~ root `prefix_of` q -> t' !! q = t0 !! q) /\
  forall results', r = Ok results' -> progress t' results'.

Lemma types_differ : TypeDir <> TypeFile /\ TypeDir <> TypeSymlink /\ TypeFile <> TypeSymlink.
Proof. done. Qed.

(** The entries still to come have no result yet. *)
Definition pending (rest : list Entry) (results : gmap string FileResult) : Prop :=
  forall e, e ∈ rest -> results !! Path e = None.

Lemma pending_cons pre e rest results fr :
  es = pre ++ e :: rest -> pending (e :: rest) results -> pending rest (<[Path e := fr]> results).
Proof using Hshape.
  intros Hes Hp e' He'. pose proof (shape_distinct es Hshape) as Hnd.
  rewrite Hes, fmap_app, fmap_cons in Hnd. apply NoDup_app in Hnd as (_ & _ & Hnd). apply NoDup_cons in Hnd as [Hn _].
  rewrite lookup_insert_ne; [by apply Hp; right|]. intros Heq. apply Hn. rewrite Heq. by apply list_elem_of_fmap_2.
Qed.

Lemma wp_commit_files i pre rest t results :
  es = pre ++ rest -> i = length pre -> progress t results -> temps_free t results -> pending rest results ->
  wp (commit_files now owner umasked geteuid0 torn st staged root i rest results)
    loop_post t.
Proof using root_safe Hshape.
  destruct types_differ as (D1 & D2 & D3).
  revert i pre t results. induction rest as [|e rest IH]; intros i pre t results Hes Hi Hp Ht Hpend; cbn [commit_files].
  - apply wp_ret. split; [apply Hp|]. by intros results' [= <-].
  - assert (Hei : es !! i = Some e) by (rewrite Hes, Hi; by apply list_lookup_middle).
    destruct (shape_entry i e Hei) as [Hin Hsafe].
    apply wp_bind, wp_ctx_err; [|split; [apply Hp|done]].
    assert (Hes' : es = (pre ++ [e]) ++ rest) by (rewrite Hes; by rewrite <- (assoc_L (++))).
    assert (Hi' : S i = length (pre ++ [e])) by (rewrite length_app, Hi; simpl; lia).
    assert (Hnext : forall t' fr, progress t' (<[Path e := fr]> results) -> temps_free t' (<[Path e := fr]> results) ->
      wp (commit_files now owner umasked geteuid0 torn st staged root (S i) rest (<[Path e := fr]> results))
        loop_post t').
    { intros t' fr Hp' Ht'. apply (IH (S i) (pre ++ [e]) t'); try done. by eapply pending_cons. }
    destruct (String.eqb_spec (Type_ e) TypeDir) as [Hd|Hd];
      [|destruct (String.eqb_spec (Type_ e) TypeFile) as [Hf|Hf]].
    + apply wp_bind. eapply wp_mono; [apply wp_commitDir; [done|done|apply Hp]|].
      intros t' r (Hs & fr & -> & Hpath & Hkeep & Hmade & Hclean). apply Hnext.
      * apply (progress_commit t _ _ i); try done. split_and!; [done|congruence|congruence].
      * apply (temps_commit t); try done. congruence.
    + apply wp_bind. eapply wp_mono; [apply (wp_commitFile i); [done|done|apply Hp|]|].
      * intros p Htemp. apply (Ht e); try done. by apply Hpend; left.
      * intros t' r (Hs & fr & -> & Hpath & Hclean). apply Hnext.
        -- apply (progress_commit t _ _ i); try done. split_and!; [congruence|done|congruence].
        -- apply (temps_commit t); try done. congruence.
    + apply (IH (S i) (pre ++ [e]) t); try done. intros e' He'. by apply Hpend; right.
Qed.

Lemma wp_commit_links pre rest t results :
  es = pre ++ rest -> progress t results ->
  wp (commit_links now owner umasked geteuid0 root rest results)
    loop_post t.
Proof using root_safe Hshape.
  destruct types_differ as (D1 & D2 & D3).
  revert pre t results. induction rest as [|e rest IH]; intros pre t results Hes Hp; cbn [commit_links].
  - apply wp_ret. split; [apply Hp|]. by intros results' [= <-].
  - assert (Hei : es !! length pre = Some e) by (rewrite Hes; by apply list_lookup_middle).
    destruct (shape_entry _ e Hei) as [Hin Hsafe].
    assert (Hes' : es = (pre ++ [e]) ++ rest) by (rewrite Hes; by rewrite <- (assoc_L (++))).
    destruct (String.eqb_spec (Type_ e) TypeSymlink) as [Hl|Hl].
    + apply wp_bind. eapply wp_mono; [apply wp_commitSymlink; [done|done|apply Hp]|].
      intros t' r (Hs & fr & -> & Hpath & Hclean).
      apply (IH (pre ++ [e]) t'); [done|].
      apply (progress_commit t _ _ (length pre)); try done; [congruence|]. split_and!; [congruence|congruence|done].
    + by apply (IH (pre ++ [e]) t).
Qed.

(** ** After the loops. *)

Lemma kept_final e : e ∈ es -> kept_path root (CommitFS.kept es) (final e).
Proof.
  intros He. exists (Path e). split; [|done]. unfold CommitFS.kept. apply elem_of_list_to_set. by apply list_elem_of_fmap_2.
Qed.

Lemma entry_state_shrink t t' i e r :
  e ∈ es -> shrink root (CommitFS.kept es) t t' -> entry_state t i e r -> entry_state t' i e r.
Proof.
  intros He Hs (Hd & Hf & Hl).
  assert (Hstay : is_Some (t !! final e) -> is_Some (t' !! final e)).
  { intros Hp. destruct (t' !! final e) as [n|] eqn:Hn; [done|].
    destruct (shrink_kept _ _ _ _ Hs (final e) Hp Hn) as [Hk _]. destruct Hk. by apply kept_final. }
  assert (Hall : is_Some (t !! final e) -> visible t (final e) ->
    visible t' (final e) /\ sim (t !! final e) (t' !! final e)).
  { intros Hp Hv. apply Hstay in Hp. split; [by eapply shrink_visible|by eapply shrink_back]. }
  split_and!.
  - intros Ht. destruct (Hd Ht) as [H1 H2].
    assert (Hm : Match r = true -> visible t' (final e) /\ sim (t !! final e) (t' !! final e)).
    { intros Hm. destruct (H1 Hm) as [Hv [m Hn]]. apply Hall; [by rewrite Hn|done]. }
    split.
    + intros Hr. destruct (Hm Hr) as [Hv Hsim]. split; [done|]. by apply (sim_is_dir t), H1.
    + intros Hr. destruct (Hm (proj1 Hr)) as [_ Hsim]. by eapply dir_ok_sim; [|apply H2].
  - intros Ht Hr. destruct (Hf Ht Hr) as [Hv Hok]. pose proof Hok as (c & m & Hn & _).
    destruct Hall as [Hv' Hsim]; [by rewrite Hn|done|]. split; [done|by eapply file_ok_sim].
  - intros Ht Hr. destruct (Hl Ht Hr) as [Hv Hok]. pose proof Hok as (m & Hn & _).
    destruct Hall as [Hv' Hsim]; [by rewrite Hn|done|]. split; [done|by eapply link_ok_sim].
Qed.

(** The entries whose times are restored. *)
Definition restorable (t : Tree) (e : Entry) : Prop := e ∈ es /\ visible t (final e) /\ is_dir t (final e).

Lemma result_of_insert_ne results e e' r :
  Path e <> Path e' -> result_of (<[Path e := r]> results) e' = result_of results e'.
Proof. intros Hne. unfold result_of. by rewrite lookup_insert_ne. Qed.

Lemma result_of_insert_eq results e r : result_of (<[Path e := r]> results) e = r.
Proof. unfold result_of. by rewrite lookup_insert_eq. Qed.

Definition times_post (ds : list Entry) (results : gmap string FileResult) (t t' : Tree)
    (r : result error (gmap string FileResult)) : Prop :=
  step (fun _ => False) t t' /\ (forall q, (forall e, e ∈ ds -> q <> final e) -> t' !! q = t !! q) /\
  exists results', r = Ok results' /\
    (forall e, Path e ∉ (Path <$> ds) -> result_of results' e = result_of results e) /\
    (forall e, e ∈ ds -> Match (result_of results' e) = Match (result_of results e) /\
       (Error (result_of results' e) = ""%string ->
          result_of results' e = result_of results e /\
          exists m, t' !! final e = Some (NDir m) /\ m_mtime m = MtimeUnixNano e)).

Lemma wp_apply_times ds results t :
  NoDup (Path <$> ds) -> Forall (restorable t) ds ->
  wp (apply_times root ds results) (times_post ds results t) t.
Proof using root_safe Hshape.
  revert results t. induction ds as [|e ds IH]; intros results t Hnd Hr; cbn [apply_times].
  { apply wp_ret. split_and!; [apply step_refl|done|]. exists results. split_and!; [done|done|]. intros e He. by apply not_elem_of_nil in He. }
  rewrite fmap_cons in Hnd. apply NoDup_cons in Hnd as [Hne Hnd]. apply Forall_cons in Hr as [(Hin & Hv & Hd) Hr].
  destruct (proj1 (list_elem_of_lookup es e) Hin) as [i Hi]. destruct (shape_entry i e Hi) as [_ Hs].
  destruct (final_dir_of e Hs) as (_ & _ & _ & d & base & Hfin & Hpre & Hsafe).
  assert (Hre : reachable t (final e)) by (split; [done|done|by exists d, base]).
  assert (Hfne : forall e', e' ∈ ds -> final e <> final e').
  { intros e' He' Hf. apply Hne. rewrite (final_inj e e' Hf). by apply list_elem_of_fmap_2. }
  assert (Hnext : forall t1 results1, step (fun _ => False) t t1 -> (forall q, q <> final e -> t1 !! q = t !! q) ->
    (forall e', Path e' <> Path e -> result_of results1 e' = result_of results e') ->
    Match (result_of results1 e) = Match (result_of results e) ->
    (Error (result_of results1 e) = ""%string -> result_of results1 e = result_of results e /\
       exists m, t1 !! final e = Some (NDir m) /\ m_mtime m = MtimeUnixNano e) ->
    wp (apply_times root ds results1) (times_post (e :: ds) results t) t1).
  { intros t1 results1 H1 Hother Hres Hmatch Herr. eapply wp_mono; [apply (IH results1 t1 Hnd)|].
    - eapply Forall_impl; [exact Hr|]. intros e' (H2 & H3 & H4). split_and!; [done| |].
      + by eapply (step_visible _ _ _ _ _ H1).
      + apply (step_is_dir _ _ _ _ _ H1); [by intros []|done].
    - intros t2 r (H2 & H3 & results2 & -> & H4 & H5). split_and!.
      + by eapply step_trans.
      + intros q Hq. rewrite H3, Hother; [done|by apply Hq; left|intros e' He'; by apply Hq; right].
      + exists results2. split_and!; [done| |].
        * intros e' He'. rewrite fmap_cons, not_elem_of_cons in He'. destruct He' as [Ha Hb]. by rewrite H4, Hres.
        * intros e' [->|He']%elem_of_cons.
          -- rewrite H4 by done. split; [done|]. intros He. destruct (Herr He) as [Heq (m & Hm & Ht)].
             split; [done|]. exists m. split; [|done]. rewrite H3; [done|]. intros e' He'. by apply Hfne.
          -- assert (Hpe : Path e' <> Path e) by (intros Heq; apply Hne; rewrite <- Heq; by apply list_elem_of_fmap_2).
             destruct (H5 e' He') as [H6 H7]. by rewrite <- (Hres e' Hpe). }
  destruct Hd as [m Hm]. apply wp_bind, wp_attempt, wp_with_error, (wp_change_meta root root_safe Hre);
    [intros _; apply is_dir_not_link; by exists m| |].
  - intros err. apply Hnext; [apply step_refl|done| | |].
    + intros e' Hpe. by apply result_of_insert_ne.
    + by rewrite result_of_insert_eq.
    + rewrite result_of_insert_eq. done.
  - intros n Hn H1. rewrite Hm in Hn. injection Hn as <-. apply Hnext; try done.
    + destruct H1 as [H1 H2 H3]. split; [|done|done]. intros q _. destruct (decide (final e = q)) as [<-|Hq]; [|by apply H1].
      rewrite lookup_insert_eq, Hm. simpl. by destruct m.
    + intros q Hq. by rewrite lookup_insert_ne.
    + intros _. split; [done|]. eexists. by rewrite lookup_insert_eq.
Qed.

(** ** The commit. *)

(** An entry of the manifest, in place. *)
Definition in_place (i : nat) (e : Entry) (t : Tree) : Prop :=
  visible t (final e) /\
  (Type_ e = TypeDir -> dir_ok e (t !! final e) /\
     exists m, t !! final e = Some (NDir m) /\ m_mtime m = MtimeUnixNano e) /\
  (Type_ e = TypeFile -> file_ok i e (t !! final e)) /\
  (Type_ e = TypeSymlink -> link_ok e (t !! final e)).

Definition commit_post (t' : Tree) (r : result error Report) : Prop :=
  (forall q, ~ root `prefix_of` q -> t' !! q = t0 !! q) /\
  forall rep, r = Ok rep -> reportClean rep = true ->
    (forall i e, es !! i = Some e -> in_place i e t') /\
    settled root stateDir (CommitFS.kept es) t' root.

Lemma result_of_clean results e : clean (result_of results e) -> results !! Path e = Some (result_of results e).
Proof. unfold result_of. destruct (results !! Path e); [done|]. by intros [? _]. Qed.

Lemma wp_applyDirTimes results t :
  (forall i e r, es !! i = Some e -> results !! Path e = Some r -> entry_state t i e r) ->
  wp (apply_times root (merge_sort longer_path
       (filter (fun e => Type_ e = TypeDir /\ Match (result_of results e) = true) es)) results)
    (fun t' r => (forall q, ~ root `prefix_of` q -> t' !! q = t !! q) /\ (forall q, sim (t !! q) (t' !! q)) /\
       exists results', r = Ok results' /\
         forall i e, es !! i = Some e -> clean (result_of results' e) ->
           results !! Path e = Some (result_of results' e) /\
           (Type_ e = TypeDir -> exists m, t' !! final e = Some (NDir m) /\ m_mtime m = MtimeUnixNano e)) t.
Proof using root_safe Hshape.
  intros He. set (ds := filter _ es).
  assert (Hds : forall e, e ∈ ds <-> (Type_ e = TypeDir /\ Match (result_of results e) = true) /\ e ∈ es)
    by (intros e; unfold ds; by rewrite list_elem_of_filter).
  eapply wp_mono; [apply wp_apply_times|].
  - rewrite merge_sort_Permutation. unfold ds. apply (sublist_NoDup _ (Path <$> es)); [apply Hshape|apply fmap_sublist, sublist_filter].
  - rewrite merge_sort_Permutation. apply Forall_forall. intros e [[Hd Hm] Hin]%Hds.
    destruct (proj1 (list_elem_of_lookup es e) Hin) as [i Hi].
    destruct (results !! Path e) as [r|] eqn:Hr; unfold result_of in Hm; rewrite Hr in Hm; [|done].
    destruct (He i e r Hi Hr) as (Hdir & _). destruct (Hdir Hd) as [Hmade _]. by destruct (Hmade Hm).
  - intros t' r (H1 & _ & results' & -> & H2 & H3). split_and!.
    + apply (step_outside _ _ _ _ H1).
    + intros q. apply (step_sim _ _ _ _ H1). by intros [].
    + exists results'. split; [done|]. intros i e Hi [Hm Herr].
      apply list_elem_of_lookup_2 in Hi as Hin.
      destruct (decide (Type_ e = TypeDir /\ Match (result_of results e) = true)) as [Hc|Hc].
      * destruct (H3 e) as [H4 H5]; [rewrite merge_sort_Permutation; by apply Hds|]. destruct (H5 Herr) as [Heq Ht].
        split; [|done]. rewrite Heq. apply result_of_clean. by rewrite <- Heq.
      * assert (Heq : result_of results' e = result_of results e).
        { apply H2. rewrite merge_sort_Permutation. intros (e' & Hp & [[Hd Hm'] Hin']%Hds)%list_elem_of_fmap.
          apply Hc. by rewrite (shape_path e e' Hin Hin' Hp). }
        rewrite Heq in *. split; [by apply result_of_clean|]. intros Hd. by destruct Hc.
Qed.
End Shaped.

Lemma wp_Commit t0 :
  well_shaped (Entries (Man st)) -> base_ok t0 ->
  (forall e p, e ∈ Entries (Man st) -> Type_ e = TypeFile -> temp e = Some p -> not_link t0 p) ->
  wp (Commit now owner umasked geteuid0 torn st staged root stateDir)
    (commit_post (Entries (Man st)) t0) t0.
Proof using root_safe.
  set (es := Entries (Man st)). intros Hshape Hb Hl.
  apply wp_bind. eapply wp_mono.
  { apply (wp_commit_files es Hshape t0 0 [] es t0 ∅); try done. intros e p He Hf _ Hp. by apply (Hl e p). }
  intros t1 [results1|e] [Ho1 Hp1]; [|done]. specialize (Hp1 _ eq_refl).
  apply wp_bind. eapply wp_mono; [by apply (wp_commit_links es Hshape t0 [] es t1)|].
  intros t2 [results2|e] [Ho2 Hp2]; [|done]. specialize (Hp2 _ eq_refl).
  apply wp_bind. eapply wp_mono; [apply wp_deletionPass; [done|apply Hp2]|].
  intros t3 r3 [Hsh Hset].
  assert (Ho3 : forall q, ~ root `prefix_of` q -> t3 !! q = t0 !! q).
  { intros q Hq. rewrite (shrink_outside _ _ _ _ Hsh) by done. by apply Ho2. }
  destruct r3 as [deleted|e]; [|done]. specialize (Hset eq_refl).
  assert (Hst3 : forall i e r, es !! i = Some e -> results2 !! Path e = Some r -> entry_state t3 i e r).
  { intros i e r Hi Hr. apply (entry_state_shrink es t2); [by eapply list_elem_of_lookup_2|done|].
    by apply (prog_entries _ _ _ _ Hp2). }
  apply wp_bind. eapply wp_mono; [by apply (wp_applyDirTimes es Hshape results2)|].
  intros t4 r4 (Ho4 & Hsim & results4 & -> & Hres). apply wp_ret.
  split; [intros q Hq; by rewrite Ho4, Ho3|]. intros rep [= <-] Hclean.
  apply reportClean_spec in Hclean. cbn [Files] in Hclean. rewrite Forall_fmap, Forall_forall in Hclean.
  assert (Hdirs : forall q, is_dir t3 q -> is_dir t4 q) by (intros q; by apply sim_is_dir).
  assert (Hdirs' : forall q, is_dir t4 q -> is_dir t3 q) by (intros q; apply sim_is_dir; by symmetry).
  split.
  - intros i e Hi. apply list_elem_of_lookup_2 in Hi as Hin. destruct (Hres i e Hi (Hclean e Hin)) as [Hr Hmt].
    destruct (entry_state_keep t3 t4 i e (result_of results4 e)) as (Hd & Hf & Hln);
      [by intros q _; apply Hdirs|done|by apply Hst3|].
    specialize (Hclean e Hin). cbn in Hclean.
    pose proof (shape_valid es Hshape) as Hvalid. rewrite Forall_forall in Hvalid. destruct (Hvalid e Hin) as [_ Hty].
    split_and!.
    + destruct Hty as [(Ht & _)|[(Ht & _)|(Ht & _)]]; [by apply Hf|apply (Hd Ht); apply Hclean|by apply Hln].
    + intros Ht. destruct (Hd Ht) as [_ Hok]. split; [by apply Hok|by apply Hmt].
    + intros Ht. by apply Hf.
    + intros Ht. by apply Hln.
  - intros p n Hp Hv Hn Hd. assert (Hs : sim (t3 !! p) (t4 !! p)) by done.
    destruct (sim_present (t4 !! p) (t3 !! p)) as [n' Hn']; [by symmetry|by rewrite Hn|].
    apply (Hset p n'); [done| |done|by intros ?%Hdirs]. intros q seg rest Heq Hq. by apply Hdirs', (Hv q seg rest).
Qed.
End Props.
