(* ===== verification/CommitFSTheorems.v ===== *)
(** * The file-tree committer: theorems

    Confinement and exactness of a commit for every schedule of faults, the
    budget of retries, and the cases outside of the shape the exactness theorem
    asks for. *)

From Stdlib Require Import Ascii.
From stdpp Require Import base tactics numbers countable list option strings gmap sorting.
From S2P Require Import Prelude GoStd Sha256 Wire Manifest Chunk Staging Ingest FileTree FileTreeFacts.
From S2P Require Import CommitFS CommitFSFacts CommitFSDelete CommitFSProps.

(** What a transfer starts from: a real root directory with proper names in it,
    and no link where a file is going to be assembled. *)
Record ready (root : FPath) (es : list Entry) (t : Tree) : Prop := {
  ready_root : safe root;
  ready_base : base_ok root t;
  ready_temps : forall e p, e ∈ es -> Type_ e = TypeFile -> temp root e = Some p -> not_link t p
}.

Section Theorems.
Variable now : Z.
Variable owner : Z * Z.
Variable umasked : Z -> Z.
Variable geteuid0 : bool.
Variable torn : list Z -> list Z.

(** ** Retries. *)

Definition transient (e : errno) : bool := isTransientIO (Errno e).

Lemma syscall_fails {A : Type} (op : Tree -> Tree * result errno A) t e rest :
  syscall op (mkWorld t (Some e :: rest)) = (mkWorld t rest, Err (Errno e)).
Proof. done. Qed.

Lemma syscall_works {A : Type} (op : Tree -> Tree * result errno A) t t' a rest :
  op t = (t', Ok a) -> syscall op (mkWorld t (None :: rest)) = (mkWorld t' rest, Ok a).
Proof. intros H. unfold syscall, mbind, M_bind, next_fault. simpl. by rewrite H. Qed.

Lemma retry_loop_step {A : Type} n (m : M A) w :
  retry_loop (S n) m w =
  match m w with
  | (w', Ok a) => (w', Ok a)
  | (w', Err e) => if isTransientIO e then match n with O => (w', Err e) | _ => retry_loop n m w' end else (w', Err e)
  end.
Proof.
  cbn [retry_loop]. unfold mbind, M_bind, attempt. destruct (m w) as [w' [a|e]]; [done|].
  destruct (isTransientIO e); [by destruct n|done].
Qed.

Lemma retry_transients {A : Type} (op : Tree -> Tree * result errno A) t es rest n :
  Forall (fun e => transient e = true) es -> (length es <= n)%nat ->
  retry_loop (S n) (syscall op) (mkWorld t ((Some <$> es) ++ rest)) =
  retry_loop (S (n - length es)) (syscall op) (mkWorld t rest).
Proof.
  intros Hes. revert n. induction Hes as [|e es He Hes IH]; intros n Hn; [by rewrite Nat.sub_0_r|].
  destruct n as [|n]; [simpl in Hn; lia|]. cbn [length]. rewrite Nat.sub_succ. rewrite <- (IH n) by (simpl in Hn; lia).
  rewrite retry_loop_step. cbn [fmap list_fmap app]. rewrite syscall_fails. unfold transient in He. by rewrite He.
Qed.

(** C31: the retry budget. An operation of the kernel is tried at most five
    times: up to four transient errors (EIO, EREMOTEIO) in a row are absorbed,
    the outcome is that of the operation; the fifth is returned, and nothing
    more is tried; any other error is returned at once. *)
Theorem retry_budget {A : Type} (op : Tree -> Tree * result errno A) (t : Tree) (es : list errno)
    (e : errno) (rest : list (option errno)) (Hes : Forall (fun e => transient e = true) es)
    (Hlen : (length es <= 4)%nat) :
  (transient e = false \/ length es = 4%nat ->
     retryIO (syscall op) (mkWorld t ((Some <$> es) ++ Some e :: rest)) = (mkWorld t rest, Err (Errno e))) /\
  (forall t' a, op t = (t', Ok a) ->
     retryIO (syscall op) (mkWorld t ((Some <$> es) ++ None :: rest)) = (mkWorld t' rest, Ok a)).
Proof.
  unfold retryIO, ioRetryAttempts. split.
  - intros He. rewrite retry_transients, retry_loop_step, syscall_fails by done. unfold transient in He.
    destruct He as [-> | ->]; [done|]. by destruct (isTransientIO (Errno e)).
  - intros t' a Hop. rewrite retry_transients, retry_loop_step by done. by rewrite (syscall_works _ _ _ _ _ Hop).
Qed.

(** Assembly is not retried. The loops around [assembleTo] and [hashFile]
    look for the error's number, which formatting it with [%v] has dropped: a
    single transient error on opening the assembly file, or on reading it back,
    fails the entry although the retry budget is untouched. *)
Theorem assembly_not_retried (st : State) (staged : Disk) (i : nat) (part : FPath) (t : Tree) (e : errno)
    (rest : list (option errno)) :
  retryIO (assembleTo now owner umasked torn st staged i part) (mkWorld t (Some e :: rest)) =
    (mkWorld t rest, Err (Text "creating assembly file")) /\
  retryIO (hashFile part) (mkWorld t (Some e :: rest)) =
    (mkWorld t rest, Err (Text "opening assembled file")).
Proof. done. Qed.
End Theorems.

(** ** A concrete transfer. *)

Definition demo_link_manifest : Manifest :=
  mkManifest 4
    [mkEntry "a" TypeFile 6 420 1000 1000 7 (sha256_hex "abcdef") "";
     mkEntry "d" TypeDir 0 493 1000 1000 8 "" "";
     mkEntry "d/b" TypeFile 5 384 1000 1000 9 (sha256_hex "ghijk") "";
     mkEntry "d/l" TypeSymlink 0 511 1000 1000 0 "" "/etc"].

Definition demo_transfer : State := mkState "t1" [] demo_link_manifest (NewPlan demo_link_manifest) [7].

Definition demo_owned (mode : Z) : Meta := mkMeta mode 0 0 1.

(** A volume with a secret beside it, a directory where a file belongs, a link
    out of the volume where a directory belongs, and a stale file. *)
Definition demo_tree : Tree :=
  list_to_map
    [(["vol"], NDir (demo_owned 493));
     (["vol"; StateDirName], NDir (demo_owned 448));
     (["vol"; StateDirName; "state"], NFile [1] (demo_owned 384));
     (["vol"; "a"], NDir (demo_owned 493));
     (["vol"; "a"; "inner"], NFile [2] (demo_owned 420));
     (["vol"; "d"], NLink "/outside" (demo_owned 511));
     (["vol"; "old"], NFile [3] (demo_owned 420));
     (["outside"], NDir (demo_owned 448));
     (["outside"; "secret"], NFile [4] (demo_owned 384))].

Definition demo_Commit (t : Tree) (faults : list (option errno)) : World * result error Report :=
  Commit 100 (0, 0) (fun mode => mode) true (fun _ => []) demo_transfer demo_all_staged
    ["vol"] ["vol"; StateDirName] (mkWorld t faults).

(** Three transient errors on the way. *)
Definition demo_faults : list (option errno) :=
  replicate 6 None ++ [Some EIO; Some EREMOTEIO] ++ replicate 21 None ++ [Some EIO].


Definition proper_name (seg : string) : bool :=
  bool_decide (seg ∉ [""; "."; ".."]) && str_forall (fun d => negb (Ascii.eqb d "/"%char)) seg.

Lemma proper_names (segs : list string) : forallb proper_name segs = true -> Forall safe_segment segs.
Proof.
  intros H. apply Forall_forall. intros seg Hs. apply list_elem_of_In, (proj1 (forallb_forall _ _) H) in Hs.
  apply andb_true_iff in Hs as [Hb Hf]. apply bool_decide_eq_true in Hb.
  split_and!; try (by intros ->; apply Hb; repeat constructor). exact Hf.
Qed.

Lemma tree_names (t : Tree) :
  forallb (fun pn => forallb proper_name pn.1) (map_to_list t) = true -> tree_ok t.
Proof.
  intros H p n Hn. apply elem_of_map_to_list in Hn. apply proper_names.
  apply (proj1 (forallb_forall _ _) H (p, n)). by apply list_elem_of_In.
Qed.

Lemma demo_safe : safe ["vol"].
Proof. split; [done|]. repeat constructor; done. Qed.

Lemma demo_shape : well_shaped ["vol"] ["vol"; StateDirName] (Entries demo_link_manifest).
Proof.
  assert (Hpairs : forall (Q : Entry -> Entry -> Prop), Forall (fun e1 => Forall (Q e1) (Entries demo_link_manifest))
    (Entries demo_link_manifest) ->
    forall e1 e2, e1 ∈ Entries demo_link_manifest -> e2 ∈ Entries demo_link_manifest -> Q e1 e2).
  { intros Q H e1 e2 H1 H2. exact (proj1 (Forall_forall _ _) (proj1 (Forall_forall _ _) H e1 H1) e2 H2). }
  split.
  - assert (Hs : forall segs, segs <> [] -> Forall safe_segment segs -> safe_path (Join segs "/")) by (intros segs; by exists segs).
    repeat apply Forall_cons_2; [split; [apply (Hs ["a"])|left]|split; [apply (Hs ["d"])|right; left]
      |split; [apply (Hs ["d"; "b"])|left]|split; [apply (Hs ["d"; "l"])|right; right]|apply Forall_nil_2];
      try done; try (split_and!; by vm_compute); by apply proper_names.
  - apply (bool_decide_unpack _). vm_compute. exact I.
  - apply (Hpairs (fun e1 e2 => e1 <> e2 -> final ["vol"] e1 `prefix_of` final ["vol"] e2 -> Type_ e1 = TypeDir)).
    cbn [Entries demo_link_manifest]. repeat first [apply Forall_cons_2|apply Forall_nil_2]; intros Hne Hp; try done;
      apply (bool_decide_pack _) in Hp; vm_compute in Hp; by destruct Hp.
  - intros e1 e2 p H1 H2. revert p. apply (Hpairs (fun e1 e2 => forall p, temp ["vol"] e1 = Some p -> ~ p `prefix_of` final ["vol"] e2)); [|done|done].
    cbn [Entries demo_link_manifest]. repeat first [apply Forall_cons_2|apply Forall_nil_2]; intros p Ht Hp; vm_compute in Ht; simplify_eq;
      apply (bool_decide_pack _) in Hp; vm_compute in Hp; by destruct Hp.
  - apply Forall_forall. cbn [Entries demo_link_manifest]. repeat first [apply Forall_cons_2|apply Forall_nil_2]; intros Hp; apply (bool_decide_pack _) in Hp; vm_compute in Hp; by destruct Hp.
Qed.

Lemma demo_ready : ready ["vol"] (Entries demo_link_manifest) demo_tree.
Proof.
  split; [apply demo_safe| |].
  - split_and!.
    + intros q seg rest Hq Hne. destruct q as [|x [|y q]]; [done|done|done].
    + eexists. vm_compute. reflexivity.
    + apply tree_names. by vm_compute.
  - intros e p He _ Hp target m. revert p Hp. revert e He.
    apply (proj1 (Forall_forall (fun e => forall p, temp ["vol"] e = Some p -> demo_tree !! p <> Some (NLink target m)) _)).
    cbn [Entries demo_link_manifest]. repeat first [apply Forall_cons_2|apply Forall_nil_2];
      intros p Hp; vm_compute in Hp; simplify_eq; vm_compute; done.
Qed.

(** What the run leaves: the volume holds the manifest, the rest is untouched. *)
Definition demo_outcome (r : World * result error Report) : Prop :=
  match r with
  | (w, Ok rep) =>
      reportClean rep = true /\ Deleted rep = ["old"%string] /\
      tree w !! ["vol"] = Some (NDir (mkMeta 493 0 0 100)) /\
      tree w !! ["vol"; "a"] = Some (NFile (bytes_of "abcdef") (mkMeta 420 1000 1000 7)) /\
      tree w !! ["vol"; "d"] = Some (NDir (mkMeta 493 1000 1000 8)) /\
      tree w !! ["vol"; "d"; "l"] = Some (NLink "/etc" (mkMeta 511 1000 1000 100)) /\
      tree w !! ["vol"; "old"] = None
  | (_, Err _) => False
  end.

Definition stat_volume : Tree -> Tree * result errno Node :=
  at_path false ["vol"] (fun q t => match t !! q with Some n => (t, Ok n) | None => fails ENOENT t end).

Lemma retry_budget_witness :
  lstatRetry ["vol"] = retryIO (syscall stat_volume) /\
  retryIO (syscall stat_volume) (mkWorld demo_tree [Some EIO; Some EREMOTEIO; None]) =
    (mkWorld demo_tree [], Ok (NDir (demo_owned 493))) /\
  retryIO (syscall stat_volume) (mkWorld demo_tree [Some EIO; Some EIO; Some EIO; Some EIO; Some EIO; None]) =
    (mkWorld demo_tree [None], Err (Errno EIO)).
Proof.
  assert (Hp : lookup_path false demo_tree ["vol"] = Ok ["vol"]) by (vm_compute; reflexivity).
  assert (Hn : demo_tree !! ["vol"] = Some (NDir (demo_owned 493))) by (vm_compute; reflexivity).
  split; [reflexivity|]. revert Hp Hn. generalize demo_tree. intros t Hp Hn.
  assert (Hstat : stat_volume t = (t, Ok (NDir (demo_owned 493)))) by (unfold stat_volume, at_path; by rewrite Hp, Hn).
  split.
  - apply (proj2 (retry_budget stat_volume t [EIO; EREMOTEIO] EIO [] ltac:(repeat constructor) ltac:(simpl; lia)) _ _ Hstat).
  - apply (proj1 (retry_budget stat_volume t [EIO; EIO; EIO; EIO] EIO [None] ltac:(repeat constructor) ltac:(simpl; lia))).
    by right.
Defined.

(** ** Outside of the shape. *)

Definition empty_sum : string := sha256_hex "".

Definition plain_commit (es : list Entry) (t : Tree) : World * result error Report :=
  let m := mkManifest 4 es in
  Commit 100 (0, 0) (fun mode => mode) true (fun _ => []) (mkState "t1" [] m (NewPlan m) []) demo_empty
    ["vol"] ["vol"; StateDirName] (mkWorld t []).

Definition plain_tree : Tree :=
  list_to_map [(["vol"], NDir (demo_owned 493)); (["outside"], NDir (demo_owned 448));
               (["outside"; "secret"], NFile [4] (demo_owned 384))].

(** The outcome of a commit, if its report is clean. *)
Definition clean_tree (r : World * result error Report) : option Tree :=
  match r with
  | (w, Ok rep) => if reportClean rep then Some (tree w) else None
  | (_, Err _) => None
  end.

(** A file and a link named like its temporary file. *)
Definition part_link : list Entry :=
  [mkEntry "f" TypeFile 0 420 1000 1000 7 empty_sum "";
   mkEntry "f.kipper-part" TypeSymlink 0 511 1000 1000 0 "" "/outside/secret"].

(** A link, and a file named like its temporary link. *)
Definition link_file : list Entry :=
  [mkEntry "x" TypeSymlink 0 511 1000 1000 0 "" "y";
   mkEntry "x.kipper-link" TypeFile 0 420 1000 1000 7 empty_sum ""].

(** A directory below a link. *)
Definition dir_below_link : list Entry :=
  [mkEntry "a" TypeSymlink 0 511 1000 1000 0 "" "/outside";
   mkEntry "a/b" TypeDir 0 493 1000 1000 8 "" ""].

(** An assembly follows a link at its temporary path. A manifest that passes
    validation has a file and a link to a file outside of the root named like
    the file's temporary path. Committed twice, with a clean report each time,
    it makes the file outside of the root empty, readable and owned by the
    transfer's user. *)
Theorem assembly_follows_link :
  Validate (mkManifest 4 part_link) = Ok tt /\
  exists t1 t2,
    clean_tree (plain_commit part_link plain_tree) = Some t1 /\
    clean_tree (plain_commit part_link t1) = Some t2 /\
    t1 !! ["outside"; "secret"] = Some (NFile [4] (demo_owned 384)) /\
    t2 !! ["outside"; "secret"] = Some (NFile [] (mkMeta 420 1000 1000 7)).
Proof.
  split; [vm_compute; reflexivity|].
  assert (H : match clean_tree (plain_commit part_link plain_tree) with
    | Some t1 => match clean_tree (plain_commit part_link t1) with
        | Some t2 => t1 !! ["outside"; "secret"] = Some (NFile [4] (demo_owned 384)) /\
                     t2 !! ["outside"; "secret"] = Some (NFile [] (mkMeta 420 1000 1000 7))
        | None => False
        end
    | None => False
    end) by (vm_compute; split; reflexivity).
  destruct (clean_tree (plain_commit part_link plain_tree)) as [t1|]; [|done].
  destruct (clean_tree (plain_commit part_link t1)) as [t2|] eqn:H2; [|done]. by exists t1, t2.
Qed.

(** Committing a link clears its temporary path, which may be a file of the
    manifest, committed before: the report says it matches, and it is gone. *)
Theorem temporary_link_removes_file :
  Validate (mkManifest 4 link_file) = Ok tt /\
  exists t, clean_tree (plain_commit link_file plain_tree) = Some t /\ t !! ["vol"; "x.kipper-link"] = None.
Proof.
  split; [vm_compute; reflexivity|].
  assert (H : match clean_tree (plain_commit link_file plain_tree) with
    | Some t => t !! ["vol"; "x.kipper-link"] = None | None => False end) by (vm_compute; reflexivity).
  destruct (clean_tree (plain_commit link_file plain_tree)) as [t|]; [by exists t|done].
Qed.

(** Directory times are set through links: a directory of the manifest below a
    link of the manifest makes the pass change a directory outside of the root,
    and the entry matches although it is not there. *)
Theorem directory_times_follow_link :
  Validate (mkManifest 4 dir_below_link) = Ok tt /\
  exists t, clean_tree (plain_commit dir_below_link (<[["outside"; "b"] := NDir (demo_owned 448)]> plain_tree)) = Some t /\
    t !! ["outside"; "b"] = Some (NDir (mkMeta 448 0 0 8)) /\ t !! ["vol"; "a"; "b"] = None.
Proof.
  split; [vm_compute; reflexivity|]. set (t0 := <[_ := _]> plain_tree).
  assert (H : match clean_tree (plain_commit dir_below_link t0) with
    | Some t => t !! ["outside"; "b"] = Some (NDir (mkMeta 448 0 0 8)) /\ t !! ["vol"; "a"; "b"] = None
    | None => False end) by (vm_compute; split; reflexivity).
  destruct (clean_tree (plain_commit dir_below_link t0)) as [t|]; [by exists t|done].
Qed.

(** ** What holds, and what the conditions exclude. *)

(** C28: a commit stays below its root, unless a link is at one of its working
    paths. Assume the root is a real directory and no link is where a file of
    the manifest is assembled (its path with .kipper-part), and the manifest is
    [well_shaped]: valid, only directories have entries below them, and no
    entry is at or below the temporary path of another (.kipper-part,
    .kipper-link) or in the state directory. Then whatever else the target
    holds, links included, whichever operations fail and wherever the commit
    stops, every path outside of the root keeps its content and metadata. The
    conditions are needed, although ensureRealDir promises that no write
    traverses a link out of the root: one valid manifest with a link at a
    temporary path, committed twice, truncates a file outside and hands it
    over; another, with a directory below a link, changes a directory
    outside, all with clean reports. *)
Theorem commit_confined :
  (forall (now : Z) (owner : Z * Z) (umasked : Z -> Z) (geteuid0 : bool) (torn : list Z -> list Z)
      (st : State) (staged : Disk) (root stateDir : FPath) (t : Tree) (faults : list (option errno)) (q : FPath),
     ready root (Entries (Man st)) t -> well_shaped root stateDir (Entries (Man st)) -> ~ root `prefix_of` q ->
     tree (Commit now owner umasked geteuid0 torn st staged root stateDir (mkWorld t faults)).1 !! q = t !! q) /\
  (Validate (mkManifest 4 part_link) = Ok tt /\
   exists t1 t2,
     clean_tree (plain_commit part_link plain_tree) = Some t1 /\
     clean_tree (plain_commit part_link t1) = Some t2 /\
     t1 !! ["outside"; "secret"] = Some (NFile [4] (demo_owned 384)) /\
     t2 !! ["outside"; "secret"] = Some (NFile [] (mkMeta 420 1000 1000 7))) /\
  (Validate (mkManifest 4 dir_below_link) = Ok tt /\
   exists t, clean_tree (plain_commit dir_below_link (<[["outside"; "b"] := NDir (demo_owned 448)]> plain_tree)) = Some t /\
     t !! ["outside"; "b"] = Some (NDir (mkMeta 448 0 0 8)) /\ t !! ["vol"; "a"; "b"] = None).
Proof.
  split; [|exact (conj assembly_follows_link directory_times_follow_link)].
  intros now owner umasked geteuid0 torn st staged root stateDir t faults q [H1 H2 H3] Hshape.
  apply (wp_Commit now owner umasked geteuid0 torn st staged root stateDir H1 t Hshape H2 H3 faults).
Qed.


Lemma commit_confined_witness :
  demo_outcome (demo_Commit demo_tree demo_faults) /\
  forall q, q ∈ [["outside"]; ["outside"; "secret"]; []] ->
    tree (demo_Commit demo_tree demo_faults).1 !! q = demo_tree !! q.
Proof.
  split; [vm_compute; split_and!; reflexivity|]. intros q Hq.
  apply (proj1 commit_confined 100 (0, 0) (fun mode => mode) true (fun _ => []) demo_transfer demo_all_staged
    ["vol"] ["vol"; StateDirName] demo_tree demo_faults q demo_ready demo_shape).
  revert q Hq. apply Forall_forall. repeat first [apply Forall_cons_2|apply Forall_nil_2];
    intros Hp; apply (bool_decide_pack _) in Hp; vm_compute in Hp; by destruct Hp.
Defined.

