(* ===== verification/EnvTemplate.v ===== *)
(** * References in environment values
    ([src/controller/pkg/envtemplate/envtemplate.go]).

    One walk over a value decides what is literal text and what is a reference;
    rendering, previews, credential warnings and the list of names all use it.
    The callbacks of [walk] are the list of the calls it makes, in order. A map
    is a function from names; the order of a Go map does not show in the
    results, which are sorted. *)

From Stdlib Require Import Ascii.
From stdpp Require Import base tactics numbers list option strings gmap sorting.
From S2P Require Import Prelude GoStd.

(** ** The grammar. *)

Record reference : Type := { name : string; urlencode : bool; width : nat }.

Definition is_name_start (c : Ascii.ascii) : bool := is_lower c || is_upper c || Ascii.eqb c "_"%char.

Definition is_name_byte (c : Ascii.ascii) : bool := is_name_start c || is_digit c.

Definition validName (s : string) : bool :=
  match s with
  | EmptyString => false
  | String c s' => is_name_start c && str_forall is_name_byte s'
  end.

Definition parsePlaceholder (s : string) : option reference :=
  if (String.length s <? 4)%nat || negb (HasPrefix s "${") then None
  else
    close ← IndexByte s "}"%char;
    let body := str_take (close - 2) (str_drop 2 s) in
    match IndexByte body ":"%char with
    | None => if validName body then Some {| name := body; urlencode := false; width := S close |} else None
    | Some colon =>
        let nm := str_take colon body in
        let modifier := str_drop (S colon) body in
        if negb (validName nm) then None
        else if (modifier =? "urlencode")%string
        then Some {| name := nm; urlencode := true; width := S close |} else None
    end.

(** A call of [literal] or of [ref]. *)
Inductive piece : Type := Literal (text : string) | Ref (r : reference) (raw : string).

Fixpoint walk_loop (fuel : nat) (value : string) : list piece :=
  match fuel, value with
  | O, _ | _, EmptyString => []
  | S fuel', String c rest =>
      if negb (Ascii.eqb c "$"%char) then Literal (String c EmptyString) :: walk_loop fuel' rest
      else
        if HasPrefix rest "$" then
          match parsePlaceholder rest with
          | Some r => Literal (str_take (width r) rest) :: walk_loop fuel' (str_drop (width r) rest)
          | None => Literal "$$" :: walk_loop fuel' (str_drop 1 rest)
          end
        else
          match parsePlaceholder value with
          | None => Literal "$" :: walk_loop fuel' rest
          | Some r => Ref r (str_take (width r) value) :: walk_loop fuel' (str_drop (width r) value)
          end
  end.

(** Every iteration consumes a byte. *)
Definition walk (value : string) : list piece := walk_loop (String.length value) value.

(** ** Percent-encoding. *)

Definition is_unreserved (c : Ascii.ascii) : bool :=
  is_lower c || is_upper c || is_digit c || Ascii.eqb c "-"%char || Ascii.eqb c "."%char ||
  Ascii.eqb c "_"%char || Ascii.eqb c "~"%char.

Definition upper_hex (n : Z) : Ascii.ascii :=
  if n <? 10 then Ascii.ascii_of_N (Z.to_N (48 + n)) else Ascii.ascii_of_N (Z.to_N (55 + n)).

Fixpoint urlEncodeComponent (s : string) : string :=
  match s with
  | EmptyString => EmptyString
  | String c s' =>
      if is_unreserved c then String c (urlEncodeComponent s')
      else String "%"%char
             (String (upper_hex (Z.shiftr (byte_of c) 4))
               (String (upper_hex (Z.land (byte_of c) 15)) (urlEncodeComponent s')))
  end.

(** ** Rendering. *)

Record Value : Type := { Text : string; Secret : bool }.

Definition MaskedLookup : Type := string -> option Value.

Definition Lookup : Type := string -> option string.

(** Eight bullets, U+2022, in UTF-8. *)
Definition Mask : string :=
  concat_strings (replicate 8 (string_of [226; 128; 162])).

Definition render_piece (lookup : MaskedLookup) (p : piece) : string :=
  match p with
  | Literal text => text
  | Ref r raw =>
      match lookup (name r) with
      | None => raw
      | Some v =>
          if Secret v then Mask
          else if urlencode r then urlEncodeComponent (Text v) else Text v
      end
  end.

(** The names a list of pieces asks for and does not find. *)
Definition missing_piece (lookup : MaskedLookup) (p : piece) : option string :=
  match p with
  | Literal _ => None
  | Ref r _ => match lookup (name r) with None => Some (name r) | Some _ => None end
  end.

(** The keys of a Go map used as a set, sorted. *)
Definition sorted_keys (l : list string) : list string := Strings (remove_dups l).

Definition resolve (value : string) (lookup : MaskedLookup) : string * list string :=
  (concat_strings (render_piece lookup <$> walk value),
   sorted_keys (omap (missing_piece lookup) (walk value))).

Definition Resolve (value : string) (lookup : Lookup) : string * list string :=
  resolve value (fun n => (fun text => {| Text := text; Secret := false |}) <$> lookup n).

Definition ResolveMasked (value : string) (lookup : MaskedLookup) : string * list string :=
  resolve value lookup.

Definition ResolveAll (values : gmap string string) (lookup : Lookup) :
    gmap string string * list string :=
  ((fun v => (Resolve v lookup).1) <$> values,
   sorted_keys (concat ((fun kv => (Resolve kv.2 lookup).2) <$> map_to_list values))).

Definition StripPlaceholders (value : string) : string :=
  concat_strings (omap (fun p => match p with Literal text => Some text | Ref _ _ => None end) (walk value)).

(** First appearances, in order. *)
Fixpoint first_seen (seen : list string) (l : list string) : list string :=
  match l with
  | [] => []
  | x :: l' => if decide (x ∈ seen) then first_seen seen l' else x :: first_seen (x :: seen) l'
  end.

Definition referenced (value : string) : list string :=
  omap (fun p => match p with Literal _ => None | Ref r _ => Some (name r) end) (walk value).

Definition Names (value : string) : list string := first_seen [] (referenced value).

(** The loop of [ShellStyleRefs]: it stops three bytes before the end. *)
Fixpoint shell_loop (fuel : nat) (seen : list string) (value : string) : list string :=
  match fuel with
  | O => []
  | S fuel' =>
      if (String.length value <=? 3)%nat then []
      else if negb (HasPrefix value "$(") then shell_loop fuel' seen (str_drop 1 value)
      else match IndexByte value ")"%char with
      | None => []
      | Some close =>
          let nm := str_take (close - 2) (str_drop 2 value) in
          if negb (validName nm) then shell_loop fuel' seen (str_drop 1 value)
          else if decide (nm ∈ seen) then shell_loop fuel' seen (str_drop (S close) value)
          else nm :: shell_loop fuel' (nm :: seen) (str_drop (S close) value)
      end
  end.

Definition ShellStyleRefs (value : string) : list string := shell_loop (String.length value) [] value.

Example template : (Resolve "postgres://u:${PW:urlencode}@h/${DB}?x=$${PW}&y=$$${DB}&z=$5"
  (fun n => if (n =? "PW")%string then Some "p@ss ${DB}"%string else None)) =
  ("postgres://u:p%40ss%20%24%7BDB%7D@h/${DB}?x=${PW}&y=$$${DB}&z=$5", ["DB"])%string.
Proof. vm_compute. reflexivity. Qed.
