(* ===== verification/EnvTemplateProps.v ===== *)
(** * Properties of environment templates. *)

From Stdlib Require Import Ascii.
From stdpp Require Import base tactics numbers list option strings gmap sorting.
From S2P Require Import Prelude GoStd EnvTemplate.

(** ** Placeholders. *)

Lemma IndexByte_take (s : string) (c : Ascii.ascii) (i n : nat) :
  IndexByte s c = Some i -> (i < n)%nat -> IndexByte (str_take n s) c = Some i.
Proof.
  revert i n. induction s as [|d s IH]; intros i [|n]; simpl; try done; try lia.
  destruct (Ascii.eqb d c); [done|]. intros H Hn. apply fmap_Some in H as (j & Hj & ->).
  rewrite (IH j n Hj) by lia. done.
Qed.

Lemma str_take_take (n m : nat) (s : string) : str_take n (str_take m s) = str_take (Nat.min n m) s.
Proof. revert n m. induction s as [|c s IH]; intros [|n] [|m]; simpl; try done. by rewrite IH. Qed.

Lemma str_drop_take (n m : nat) (s : string) : str_drop n (str_take m s) = str_take (m - n) (str_drop n s).
Proof.
  revert n m. induction s as [|c s IH]; intros [|n] [|m]; simpl; try done.
  by destruct (m - n)%nat.
Qed.

Lemma validName_nonempty (s : string) : validName s = true -> (1 <= String.length s)%nat.
Proof. destruct s; simpl; [done|lia]. Qed.

(** What a placeholder is: two opening bytes, a body without the closing one,
    the closing one. *)
Lemma parsePlaceholder_inv (s : string) (r : reference) :
  parsePlaceholder s = Some r ->
  HasPrefix s "${" = true /\ IndexByte s "}"%char = Some (width r - 1)%nat /\
  (4 <= width r <= String.length s)%nat /\ validName (name r) = true /\
  (str_take (width r - 1 - 2) (str_drop 2 s) = name r \/
   exists colon, IndexByte (str_take (width r - 1 - 2) (str_drop 2 s)) ":"%char = Some colon).
Proof.
  unfold parsePlaceholder. destruct (_ || _) eqn:Hg; [done|]. bool_to_prop.
  destruct (IndexByte s "}") as [close|] eqn:Hc; cbn [mbind option_bind]; cbn zeta; [|done].
  pose proof (IndexByte_lt _ _ _ Hc) as Hlt.
  set (body := str_take (close - 2) (str_drop 2 s)). fold body.
  assert (Hbody : (String.length body <= close - 2)%nat)
    by (unfold body; rewrite str_length_take; lia).
  destruct (IndexByte body ":") as [colon|] eqn:Hcol.
  - destruct (validName _) eqn:Hv; simpl; [|done]. destruct (_ =? "urlencode")%string; [|done].
    intros [= <-]. cbn [width name]. replace (S close - 1)%nat with close by lia. fold body.
    apply validName_nonempty in Hv as Hne. rewrite str_length_take in Hne.
    pose proof (IndexByte_lt _ _ _ Hcol). split_and!; try done; try lia. right. by exists colon.
  - destruct (validName body) eqn:Hv; [|done]. intros [= <-]. cbn [width name].
    replace (S close - 1)%nat with close by lia. fold body.
    apply validName_nonempty in Hv as Hne. split_and!; try done; try lia. by left.
Qed.

(** A placeholder is recognised from its own bytes. *)
Lemma parsePlaceholder_raw (s : string) (r : reference) :
  parsePlaceholder s = Some r ->
  parsePlaceholder (str_take (width r) s) = Some r /\ String.length (str_take (width r) s) = width r.
Proof.
  intros H. destruct (parsePlaceholder_inv s r H) as (Hp & Hc & Hw & _ & _).
  rewrite str_length_take, Nat.min_l by lia. split; [|done].
  rewrite <- H. unfold parsePlaceholder. rewrite str_length_take, Nat.min_l by lia.
  assert (HP : HasPrefix (str_take (width r) s) "${" = true).
  { apply HasPrefix_spec in Hp as [rest ->]. destruct (width r) as [|[|w]]; [lia|lia|]. done. }
  rewrite HP, Hp. destruct (Nat.ltb_spec (width r) 4); [lia|].
  destruct (Nat.ltb_spec (String.length s) 4); [lia|]. cbn [orb negb].
  rewrite (IndexByte_take s _ (width r - 1)), Hc by (done || lia). cbn [mbind option_bind].
  rewrite str_drop_take, str_take_take, Nat.min_l by lia. done.
Qed.

(** ** The walk tiles its value. *)

(** The text a piece was read from: an escaped placeholder had one more
    dollar. *)
Definition source (p : piece) : string :=
  match p with
  | Literal text => if (4 <=? String.length text)%nat then String "$"%char text else text
  | Ref _ raw => raw
  end.

(** A reference carries its own text; a literal is one byte, a dollar pair or
    an escaped placeholder. *)
Definition piece_ok (p : piece) : Prop :=
  match p with
  | Literal text => (String.length text <= 2)%nat \/ exists r, parsePlaceholder text = Some r
  | Ref r raw => parsePlaceholder raw = Some r /\ String.length raw = width r
  end.

Lemma length_drop_fuel (n m : nat) (s : string) (fuel : nat) :
  (String.length s <= S fuel)%nat -> (1 <= n)%nat -> (String.length (str_drop n s) <= fuel)%nat.
Proof. intros H Hn. rewrite str_length_drop. lia. Qed.

Lemma tile_cons (p : piece) (ps : list piece) :
  concat_strings (source <$> p :: ps) = String.append (source p) (concat_strings (source <$> ps)).
Proof. done. Qed.

Lemma walk_loop_tiles (fuel : nat) (value : string) :
  (String.length value <= fuel)%nat ->
  concat_strings (source <$> walk_loop fuel value) = value /\ Forall piece_ok (walk_loop fuel value).
Proof.
  revert value. induction fuel as [|fuel IH]; intros [|c rest] Hlen; simpl in *; try done; try lia.
  destruct (Ascii.eqb_spec c "$"%char) as [->|Hc]; cbn [negb].
  - destruct (HasPrefix rest "$") eqn:Hp.
    + apply HasPrefix_spec in Hp as [rest' ->]. cbn [String.append] in *.
      destruct (parsePlaceholder _) as [r|] eqn:Hr.
      * destruct (parsePlaceholder_raw _ _ Hr) as [Hraw Hlr].
        destruct (parsePlaceholder_inv _ _ Hr) as (_ & _ & Hw & _ & _).
        destruct (IH (str_drop (width r) (String "$" rest'))) as [IH1 IH2];
          [rewrite str_length_drop; lia|].
        split; [|constructor; [right; by exists r|done]].
        rewrite tile_cons. rewrite IH1. cbn [source]. rewrite Hlr. destruct (Nat.leb_spec 4 (width r)); [|lia].
        simpl. by rewrite str_take_drop.
      * destruct (IH rest') as [IH1 IH2]; [simpl in Hlen; lia|]. rewrite tile_cons.
        split; [by rewrite IH1|]. constructor; [left; simpl; lia|done].
    + destruct (parsePlaceholder (String "$" rest)) as [r|] eqn:Hr.
      * destruct (parsePlaceholder_raw _ _ Hr) as [Hraw Hlr].
        destruct (parsePlaceholder_inv _ _ Hr) as (_ & _ & Hw & _ & _).
        destruct (IH (str_drop (width r) (String "$" rest))) as [IH1 IH2];
          [rewrite str_length_drop; simpl; lia|].
        rewrite tile_cons. rewrite IH1. cbn [source]. rewrite str_take_drop. split; [done|]. by constructor.
      * destruct (IH rest) as [IH1 IH2]; [lia|]. rewrite tile_cons. rewrite IH1.
        split; [done|]. constructor; [left; simpl; lia|done].
  - destruct (IH rest) as [IH1 IH2]; [lia|]. rewrite tile_cons. rewrite IH1.
    split; [done|]. constructor; [left; simpl; lia|done].
Qed.

Lemma walk_tiles (value : string) : concat_strings (source <$> walk value) = value.
Proof. by apply walk_loop_tiles. Qed.

Lemma walk_ok (value : string) : Forall piece_ok (walk value).
Proof. by apply walk_loop_tiles. Qed.

(** ** Lookups up to what a reader may see. *)

(** Two lookups that find the same names, agree on which are secret, and agree
    on every text that is not. *)
Definition same_view (l1 l2 : MaskedLookup) : Prop :=
  forall n, match l1 n, l2 n with
            | None, None => True
            | Some v1, Some v2 => Secret v1 = Secret v2 /\ (Secret v1 = false -> Text v1 = Text v2)
            | _, _ => False
            end.

#[export] Instance same_view_equiv : Equivalence same_view.
Proof.
  split.
  - intros l n. by destruct (l n).
  - intros l1 l2 H n. specialize (H n). destruct (l1 n), (l2 n); try done.
    destruct H as [H1 H2]. split; [done|]. intros H3. symmetry. apply H2. congruence.
  - intros l1 l2 l3 H H' n. specialize (H n). specialize (H' n).
    destruct (l1 n), (l2 n), (l3 n); try done. destruct H as [H1 H2], H' as [H3 H4].
    split; [congruence|]. intros H5. rewrite H2, H4 by congruence. done.
Qed.

#[export] Instance render_piece_proper : Proper (same_view ==> eq ==> eq) render_piece.
Proof.
  intros l1 l2 H p ? <-. destruct p as [text|r raw]; simpl; [done|]. specialize (H (name r)).
  destruct (l1 (name r)) as [v1|], (l2 (name r)) as [v2|]; try done. destruct H as [HS HT].
  rewrite <- HS. destruct (Secret v1); [done|]. by rewrite HT.
Qed.

#[export] Instance missing_piece_proper : Proper (same_view ==> eq ==> eq) missing_piece.
Proof.
  intros l1 l2 H p ? <-. destruct p as [text|r raw]; simpl; [done|]. specialize (H (name r)).
  by destruct (l1 (name r)), (l2 (name r)).
Qed.

#[export] Instance resolve_proper : Proper (eq ==> same_view ==> eq) resolve.
Proof.
  intros value ? <- l1 l2 H. unfold resolve. f_equal.
  - f_equal. apply list_fmap_ext. intros i p _. by rewrite H.
  - f_equal. induction (walk value) as [|p ps IH]; csimpl; [done|]. by rewrite IH, H.
Qed.

(** C29: a preview leaks nothing. What [ResolveMasked] returns depends on a
    secret value only through the fact that it exists: two readers' views that
    find the same names and agree on the texts that are not secret give the
    same text and the same unresolved names, whatever the secrets are and
    however long they are, with or without the percent-encoding modifier. *)
Theorem preview_leaks_nothing (value : string) (l1 l2 : MaskedLookup) (H : same_view l1 l2) :
  ResolveMasked value l1 = ResolveMasked value l2.
Proof. unfold ResolveMasked. by rewrite H. Qed.

(** Two databases' passwords of different lengths under one template. *)
Definition demo_view (password : string) : MaskedLookup := fun n =>
  if (n =? "PW")%string then Some {| Text := password; Secret := true |}
  else if (n =? "DB")%string then Some {| Text := "shop"; Secret := false |} else None.

Lemma preview_leaks_nothing_witness :
  (ResolveMasked "u:${PW}@${HOST}/${DB}" (demo_view "a")).2 = ["HOST"%string] /\
  ResolveMasked "u:${PW:urlencode}@${HOST}/${DB}" (demo_view "a") =
  ResolveMasked "u:${PW:urlencode}@${HOST}/${DB}" (demo_view "a much longer p@ssword").
Proof.
  split; [vm_compute; reflexivity|]. apply (preview_leaks_nothing _ (demo_view "a")).
  intros n. unfold demo_view. destruct (n =? "PW")%string; [split; [reflexivity|discriminate]|].
  by destruct (n =? "DB")%string.
Defined.

(** ** One grammar. *)

Lemma first_seen_spec (l seen : list string) :
  NoDup (first_seen seen l) /\
  (forall x, x ∈ first_seen seen l <-> x ∈ l /\ x ∉ seen).
Proof.
  revert seen. induction l as [|y l IH]; intros seen; simpl; [split; [constructor|set_solver]|].
  destruct (decide (y ∈ seen)) as [Hy|Hy].
  - destruct (IH seen) as [IH1 IH2]. split; [done|]. set_solver.
  - destruct (IH (y :: seen)) as [IH1 IH2]. split.
    + constructor; [|done]. rewrite IH2. set_solver.
    + intros x. rewrite elem_of_cons, IH2, !elem_of_cons. destruct (decide (x = y)) as [->|]; tauto.
Qed.

Lemma elem_of_Names (value : string) (n : string) :
  n ∈ Names value <-> exists r raw, Ref r raw ∈ walk value /\ name r = n.
Proof.
  unfold Names. destruct (first_seen_spec (referenced value) []) as [_ ->].
  unfold referenced. rewrite list_elem_of_omap. split.
  - intros [(p & Hp & Hn) _]. destruct p as [|r raw]; [done|]. injection Hn as <-. by exists r, raw.
  - intros (r & raw & Hp & <-). split; [by exists (Ref r raw)|set_solver].
Qed.

Lemma sorted_keys_spec (l : list string) :
  Sorted str_le (sorted_keys l) /\ NoDup (sorted_keys l) /\ (forall x, x ∈ sorted_keys l <-> x ∈ l).
Proof.
  unfold sorted_keys. split_and!.
  - apply Strings_sorted.
  - rewrite Strings_perm. apply NoDup_remove_dups.
  - intros x. rewrite elem_of_Strings. apply elem_of_remove_dups.
Qed.

Lemma elem_of_missing (value : string) (lookup : MaskedLookup) (n : string) :
  n ∈ (resolve value lookup).2 <-> n ∈ Names value /\ lookup n = None.
Proof.
  unfold resolve. cbn [snd].
  destruct (sorted_keys_spec (omap (missing_piece lookup) (walk value))) as (_ & _ & ->).
  rewrite list_elem_of_omap, elem_of_Names. split.
  - intros (p & Hp & Hm). destruct p as [text|r raw]; [done|]. cbn [missing_piece] in Hm.
    destruct (lookup (name r)) eqn:Hl; [done|]. injection Hm as <-. split; [by exists r, raw|done].
  - intros [(r & raw & Hp & <-) Hl]. exists (Ref r raw). split; [done|]. cbn [missing_piece]. by rewrite Hl.
Qed.

(** The piece a preview, a rendering and a warning agree on. *)
Lemma strip_is_render_empty (value : string) :
  StripPlaceholders value = (Resolve value (fun _ => Some ""%string)).1.
Proof.
  unfold StripPlaceholders, Resolve, resolve, concat_strings. cbn [fst].
  induction (walk value) as [|p ps IH]; csimpl; [done|]. destruct p as [text|r raw]; csimpl.
  - by rewrite IH.
  - rewrite IH. by destruct (urlencode r).
Qed.

(** One grammar. Rendering, the list of names and the credential warnings
    agree on which parts of a value are references: the unresolved names are,
    sorted and once each, the referenced names the lookup does not find; the
    text a warning inspects is the value rendered with every name empty; two
    lookups that agree on the referenced names render the same text, so a value
    without a reference ignores the lookup; over a map of values the unresolved
    names are the union. *)
Theorem one_grammar (value : string) (lookup : Lookup) (values : gmap string string) :
  NoDup (Names value) /\
  (Sorted str_le (Resolve value lookup).2 /\ NoDup (Resolve value lookup).2 /\
   forall n, n ∈ (Resolve value lookup).2 <-> n ∈ Names value /\ lookup n = None) /\
  StripPlaceholders value = (Resolve value (fun _ => Some ""%string)).1 /\
  (forall lookup', (forall n, n ∈ Names value -> lookup n = lookup' n) ->
     Resolve value lookup = Resolve value lookup') /\
  (Sorted str_le (ResolveAll values lookup).2 /\ NoDup (ResolveAll values lookup).2 /\
   forall n, n ∈ (ResolveAll values lookup).2 <->
     exists k v, values !! k = Some v /\ n ∈ Names v /\ lookup n = None).
Proof.
  assert (Hres : forall v n, n ∈ (Resolve v lookup).2 <-> n ∈ Names v /\ lookup n = None).
  { intros v n. unfold Resolve. by rewrite elem_of_missing, fmap_None. }
  split_and!; try apply first_seen_spec; try apply sorted_keys_spec; try apply Hres.
  - apply strip_is_render_empty.
  - intros lookup' H. unfold Resolve, resolve.
    assert (Hl : forall r raw, Ref r raw ∈ walk value -> lookup (name r) = lookup' (name r))
      by (intros r raw Hr; apply H, elem_of_Names; eauto).
    clear H. f_equal; f_equal.
    + apply list_fmap_ext. intros i p Hp. apply list_elem_of_lookup_2 in Hp.
      destruct p as [|r raw]; [done|]. simpl. by rewrite (Hl r raw Hp).
    + induction (walk value) as [|p ps IH]; csimpl; [done|]. rewrite IH by set_solver.
      destruct p as [|r raw]; csimpl; [done|]. by rewrite (Hl r raw) by set_solver.
  - intros n. destruct (sorted_keys_spec (concat ((fun kv => (Resolve kv.2 lookup).2) <$>
      map_to_list values))) as (_ & _ & Hel).
    unfold ResolveAll. cbn [snd]. rewrite Hel, list_elem_of_In, in_concat. split.
    + intros (l & Hl & Hn). rewrite <- list_elem_of_In in Hl. apply list_elem_of_fmap in Hl as ([k v] & -> & Hkv).
      apply elem_of_map_to_list in Hkv. exists k, v. split; [done|]. apply Hres. by apply list_elem_of_In.
    + intros (k & v & Hkv & Hn). exists (Resolve v lookup).2. split.
      * apply list_elem_of_In, list_elem_of_fmap. exists (k, v). split; [done|]. by apply elem_of_map_to_list.
      * by apply list_elem_of_In, Hres.
Qed.

(** ** Percent-encoding. *)

Definition upper_hex_value (c : Ascii.ascii) : option Z :=
  if is_digit c then Some (byte_of c - 48)
  else if (65 <=? byte_of c) && (byte_of c <=? 70) then Some (byte_of c - 55) else None.

(** The reference decoder: percent and two upper-case digits are a byte, any
    other byte is itself. *)
Fixpoint pct_decode (s : string) : option string :=
  match s with
  | EmptyString => Some EmptyString
  | String c s' =>
      if Ascii.eqb c "%"%char then
        match s' with
        | String h (String l s'') =>
            hi ← upper_hex_value h; lo ← upper_hex_value l; rest ← pct_decode s'';
            Some (String (Ascii.ascii_of_N (Z.to_N (16 * hi + lo))) rest)
        | _ => None
        end
      else String c <$> pct_decode s'
  end.

Lemma encoded_byte (c : Ascii.ascii) :
  upper_hex_value (upper_hex (Z.shiftr (byte_of c) 4)) = Some (Z.shiftr (byte_of c) 4) /\
  upper_hex_value (upper_hex (Z.land (byte_of c) 15)) = Some (Z.land (byte_of c) 15) /\
  Ascii.ascii_of_N (Z.to_N (16 * Z.shiftr (byte_of c) 4 + Z.land (byte_of c) 15)) = c.
Proof. destruct c as [[] [] [] [] [] [] [] []]; vm_compute; done. Qed.

(** The bytes an encoded component is made of. *)
Definition component_byte (c : Ascii.ascii) : bool := is_unreserved c || Ascii.eqb c "%"%char.

Lemma upper_hex_component (c : Ascii.ascii) :
  component_byte (upper_hex (Z.shiftr (byte_of c) 4)) &&
  component_byte (upper_hex (Z.land (byte_of c) 15)) = true.
Proof. destruct c as [[] [] [] [] [] [] [] []]; vm_compute; done. Qed.

(** An encoded component survives the URL around it. Percent-decoding
    gives back every value, byte for byte, so two values never encode alike;
    and what is written between the delimiters is unreserved bytes and percent
    signs only, never one of the delimiters of a URL. *)
Theorem urlEncodeComponent_roundtrip (s : string) :
  pct_decode (urlEncodeComponent s) = Some s /\
  str_forall component_byte (urlEncodeComponent s) = true /\
  (forall t, urlEncodeComponent s = urlEncodeComponent t -> s = t).
Proof.
  assert (Hrt : forall t, pct_decode (urlEncodeComponent t) = Some t).
  { induction t as [|c t IH]; [done|]. cbn [urlEncodeComponent].
    destruct (is_unreserved c) eqn:Hc; cbn [pct_decode].
    - rewrite IH. by destruct (Ascii.eqb_spec c "%"%char) as [->|].
    - destruct (encoded_byte c) as (-> & -> & Hb). rewrite IH. cbn [mbind option_bind Ascii.eqb].
      by rewrite Hb. }
  split_and!; [done| |].
  - clear Hrt. induction s as [|c s IH]; [done|]. cbn [urlEncodeComponent].
    pose proof (upper_hex_component c) as Hh. apply andb_prop in Hh as [Hh Hl].
    destruct (is_unreserved c) eqn:Hc; cbn [str_forall]; rewrite IH.
    + unfold component_byte. by rewrite Hc.
    + by rewrite Hh, Hl.
  - intros t H. apply (f_equal pct_decode) in H. rewrite !Hrt in H. by injection H.
Qed.
