(* ===== verification/WorkloadName.v ===== *)
(** * Workload name reservations
    ([src/console-api/internal/workloadname], [src/controller/pkg/workload],
    [src/console-api/controllers/workload_claim.go] and
    [workloadname_controller.go], the create handlers).

    An app, a function and a job of one namespace may not share a name. The
    model is about one name: the server keeps at most one workload of each kind
    and at most one reservation under it. Handlers, controllers and the
    reclaiming reconciler are programs over API calls, in the code's order; the
    server's answers are those the API documents. A cached read answers
    anything the reservation has ever been. *)

From stdpp Require Import base tactics numbers list option functions.
From S2P Require Import Prelude Calls GoStd.

(** ** Kinds and incumbency ([workload/name.go]). *)

Inductive Kind : Type := app | function | job.

#[export] Instance Kind_eq_dec : EqDecision Kind.
Proof. solve_decision. Defined.

Definition Kinds : list Kind := [app; function; job].

(** The position in [Kinds]; an unknown kind comes last. *)
Definition kindOrder (kind : Kind) : nat :=
  default (length Kinds) (fst <$> list_find (fun k => k = kind) Kinds).

Definition Incumbent (other : Kind) (theirs : Time) (mineKind : Kind) (mine : Time) : bool :=
  (theirs <? mine) || ((theirs =? mine) && (kindOrder other <? kindOrder mineKind)%nat).

(** ** What the server keeps. *)

Record Workload : Type := { work_uid : nat; work_created : Time }.

Record OwnerRef : Type := { owner_kind : Kind; owner_uid : nat }.

Record WorkloadName : Type := {
  claim_uid : nat;
  claim_version : nat;
  claim_kind : Kind;
  claim_owner : option OwnerRef;
  claim_created : Time
}.

Record Cluster : Type := {
  claim : option WorkloadName;
  works : Kind -> option Workload;
  (** Every value the reservation has had, for the caches. *)
  past : list WorkloadName;
  next : nat;
  clock : Time;
  (** Whether the cluster has the WorkloadName resource. *)
  has_names : bool
}.

Inductive ApiError : Type := NotFound | AlreadyExists | Conflict | NoMatch | ServerError.

#[export] Instance ApiError_eq_dec : EqDecision ApiError.
Proof. solve_decision. Defined.

(** ** The calls. *)

Inductive api : Type -> Type :=
| GetWork (kind : Kind) : api (result ApiError Workload)
| GetName : api (result ApiError WorkloadName)
| GetNameCached : api (result ApiError WorkloadName)
| CreateName (kind : Kind) (owner : option OwnerRef) : api (result ApiError nat)
| UpdateName (name : WorkloadName) : api (result ApiError unit)
| DeleteName (uid : nat) (version : option nat) : api (result ApiError unit)
| CreateWork (kind : Kind) : api (result ApiError unit)
| TimeNow : api Time.

(** A call is answered, fails before it takes effect, or takes effect and the
    answer is lost; a cached read answers the [n]-th past value, or nothing. *)
Inductive fault : Type := Fine | Fails | Loses | Stale (n : nat).

(** Creation times are kept to the second. *)
Definition stamp (t : Time) : Time := t / Second * Second.

Definition set_claim (c : option WorkloadName) (s : Cluster) : Cluster :=
  {| claim := c; works := works s; past := option_list c ++ past s; next := S (next s);
     clock := clock s; has_names := has_names s |}.

Definition set_work (kind : Kind) (s : Cluster) : Cluster :=
  {| claim := claim s; works := <[kind := Some {| work_uid := next s; work_created := stamp (clock s) |}]> (works s);
     past := past s; next := S (next s); clock := clock s; has_names := has_names s |}.

(** The API server's answer to a call it receives. *)
Definition serve {R : Type} (e : api R) (s : Cluster) : Cluster * R :=
  match e with
  | GetWork kind =>
      (s, match works s kind with Some w => Ok w | None => Err NotFound end)
  | GetName | GetNameCached =>
      (s, if negb (has_names s) then Err NoMatch
          else match claim s with Some c => Ok c | None => Err NotFound end)
  | CreateName kind owner =>
      if negb (has_names s) then (s, Err NoMatch)
      else match claim s with
           | Some _ => (s, Err AlreadyExists)
           | None =>
               (set_claim (Some {| claim_uid := next s; claim_version := next s; claim_kind := kind;
                                   claim_owner := owner; claim_created := stamp (clock s) |}) s, Ok (next s))
           end
  | UpdateName c' =>
      match claim s with
      | None => (s, Err NotFound)
      | Some c =>
          if (claim_uid c =? claim_uid c')%nat && (claim_version c =? claim_version c')%nat
          then (set_claim (Some {| claim_uid := claim_uid c; claim_version := next s;
                                   claim_kind := claim_kind c'; claim_owner := claim_owner c';
                                   claim_created := claim_created c |}) s, Ok tt)
          else (s, Err Conflict)
      end
  | DeleteName uid version =>
      match claim s with
      | None => (s, Err NotFound)
      | Some c =>
          if (claim_uid c =? uid)%nat && default true ((fun v => (claim_version c =? v)%nat) <$> version)
          then (set_claim None s, Ok tt)
          else (s, Err Conflict)
      end
  | CreateWork kind =>
      match works s kind with
      | Some _ => (s, Err AlreadyExists)
      | None => (set_work kind s, Ok tt)
      end
  | TimeNow => (s, clock s)
  end.

(** The answer a caller gets when the server's is lost. *)
Definition fail {R : Type} (e : api R) (s : Cluster) : R :=
  match e with
  | GetWork _ => Err ServerError
  | GetName => Err ServerError
  | GetNameCached => Err ServerError
  | CreateName _ _ => Err ServerError
  | UpdateName _ => Err ServerError
  | DeleteName _ _ => Err ServerError
  | CreateWork _ => Err ServerError
  | TimeNow => clock s
  end.

Definition cached {R : Type} (n : nat) (e : api R) (s : Cluster) : R -> R :=
  match e with
  | GetNameCached => fun _ => match past s !! n with Some c => Ok c | None => Err NotFound end
  | _ => fun r => r
  end.

Definition handle (R : Type) (e : api R) (f : fault) (s : Cluster) : Cluster * R :=
  match f with
  | Fine => serve e s
  | Fails => (s, fail e s)
  | Loses => ((serve e s).1, fail e s)
  | Stale n => ((serve e s).1, cached n e s (serve e s).2)
  end.

(** Between calls, time passes. *)
Definition tick (d : N) (s : Cluster) : Cluster :=
  {| claim := claim s; works := works s; past := past s; next := next s;
     clock := clock s + Z.of_N d; has_names := has_names s |}.

(** ** Errors ([workload/name.go]). *)

Inductive NameError : Type :=
| NameTakenError (kind : Kind)
| ClaimUnavailableError (e : ApiError)
| Wrapped (e : ApiError).

Definition isClaimUnavailable (e : NameError) : bool :=
  match e with ClaimUnavailableError _ => true | _ => false end.

(** ** Reserving a name ([workloadname.go]). *)

Definition heldBySameKind (creating : Kind) : prog api (result NameError bool) :=
  r ← call (GetWork creating);
  mret match r with
       | Ok _ => Ok true
       | Err NotFound => Ok false
       | Err e => Err (Wrapped e)
       end.

Fixpoint ensure_others (creating : Kind) (mine : option Workload) (kinds : list Kind) :
    prog api (result NameError unit) :=
  match kinds with
  | [] => mret (Ok tt)
  | kind :: kinds' =>
      if decide (kind = creating) then ensure_others creating mine kinds'
      else
        r ← call (GetWork kind);
        match r with
        | Err NotFound => ensure_others creating mine kinds'
        | Err e => mret (Err (Wrapped e))
        | Ok other =>
            match mine with
            | Some m =>
                if Incumbent kind (work_created other) creating (work_created m)
                then mret (Err (NameTakenError kind))
                else ensure_others creating mine kinds'
            | None => mret (Err (NameTakenError kind))
            end
        end
  end.

Definition EnsureFree (creating : Kind) : prog api (result NameError unit) :=
  r ← call (GetWork creating);
  match r with
  | Ok m => ensure_others creating (Some m) Kinds
  | Err NotFound => ensure_others creating None Kinds
  | Err e => mret (Err (Wrapped e))
  end.

(** Whether the claim was already held by this kind, and its uid. *)
Definition Claim (creating : Kind) : prog api (result NameError (bool * nat)) :=
  r ← call (CreateName creating None);
  match r with
  | Ok uid => mret (Ok (false, uid))
  | Err NoMatch => mret (Err (ClaimUnavailableError NoMatch))
  | Err NotFound => mret (Err (ClaimUnavailableError NotFound))
  | Err AlreadyExists =>
      existing ← call GetName;
      mret match existing with
           | Err e => Err (Wrapped e)
           | Ok c =>
               if decide (claim_kind c = creating) then Ok (true, claim_uid c)
               else Err (NameTakenError (claim_kind c))
           end
  | Err e => mret (Err (Wrapped e))
  end.

Definition Release (uid : nat) : prog api unit :=
  _ ← call (DeleteName uid None); mret tt.

(** The function [Reserve] returns: the uid it releases, or nothing to do. *)
Definition run_release (release : option nat) : prog api unit :=
  match release with Some uid => Release uid | None => mret tt end.

Definition Reserve (creating : Kind) : prog api (result NameError (option nat)) :=
  h ← heldBySameKind creating;
  match h with
  | Err e => mret (Err e)
  | Ok held =>
      free ← EnsureFree creating;
      match free with
      | Err e => mret (Err e)
      | Ok _ =>
          c ← Claim creating;
          mret match c with
               | Ok (mine, uid) => Ok (if (mine || held : bool) then None else Some uid)
               | Err e => if isClaimUnavailable e then Ok None else Err e
               end
      end
  end.

(** ** The create handlers. *)

Inductive Response : Type := StatusOK | StatusConflict | StatusInternalServerError.

Definition respondWorkloadNameError (e : NameError) : Response :=
  match e with NameTakenError _ => StatusConflict | _ => StatusInternalServerError end.

(** The tail the handlers share: the create, and the roll-back of the
    reservation when it did not find the workload there. *)
Definition create_reserved (kind : Kind) (release : option nat) : prog api Response :=
  r ← call (CreateWork kind);
  match r with
  | Ok _ => mret StatusOK
  | Err AlreadyExists => mret StatusConflict
  | Err _ => _ ← run_release release; mret StatusInternalServerError
  end.

(** Creating a function (inline or not) or a job. *)
Definition Create (kind : Kind) : prog api Response :=
  res ← Reserve kind;
  match res with
  | Err e => mret (respondWorkloadNameError e)
  | Ok release => create_reserved kind release
  end.

(** Creating an app: an app that is already there is reported before its
    credentials could be touched. *)
Definition Apps_Create : prog api Response :=
  res ← Reserve app;
  match res with
  | Err e => mret (respondWorkloadNameError e)
  | Ok release =>
      live ← call (GetWork app);
      match live with
      | Ok _ => mret StatusConflict
      | Err NotFound => create_reserved app release
      | Err _ => _ ← run_release release; mret StatusInternalServerError
      end
  end.

(** ** The controllers' side ([workload_claim.go]). *)

Fixpoint older_loop (kind : Kind) (mine : Time) (kinds : list Kind) : prog api (result ApiError (option Kind)) :=
  match kinds with
  | [] => mret (Ok None)
  | other :: kinds' =>
      if decide (other = kind) then older_loop kind mine kinds'
      else
        r ← call (GetWork other);
        match r with
        | Err NotFound => older_loop kind mine kinds'
        | Err e => mret (Err e)
        | Ok w =>
            if Incumbent other (work_created w) kind mine then mret (Ok (Some other))
            else older_loop kind mine kinds'
        end
  end.

Definition olderHolder (kind : Kind) (mine : Time) : prog api (result ApiError (option Kind)) :=
  older_loop kind mine Kinds.

Section Controllers.
(** The library's owner references: the reference an object gets, unless
    another controller owns it, and whether one is an object's own. *)
Variable SetControllerReference : OwnerRef -> option OwnerRef -> option OwnerRef.
Variable IsControlledBy : OwnerRef -> option OwnerRef -> bool.

Inductive ClaimError : Type := ApiFailed (e : ApiError) | OwnedByAnother.

Definition create_claim (kind : Kind) (owner : OwnerRef) : prog api (result ClaimError (option Kind)) :=
  match SetControllerReference owner None with
  | None => mret (Err OwnedByAnother)
  | Some ref =>
      r ← call (CreateName kind (Some ref));
      match r with
      | Ok _ | Err NoMatch => mret (Ok None)
      | Err AlreadyExists =>
          winner ← call GetName;
          mret match winner with
               | Err e => Err (ApiFailed e)
               | Ok c => Ok (if decide (claim_kind c = kind) then None else Some (claim_kind c))
               end
      | Err e => mret (Err (ApiFailed e))
      end
  end.

Definition adopt_claim (c : WorkloadName) (owner : OwnerRef) : prog api (result ClaimError (option Kind)) :=
  if IsControlledBy owner (claim_owner c) then mret (Ok None)
  else match SetControllerReference owner (claim_owner c) with
       | None => mret (Err OwnedByAnother)
       | Some ref =>
           r ← call (UpdateName {| claim_uid := claim_uid c; claim_version := claim_version c;
                                   claim_kind := claim_kind c; claim_owner := Some ref;
                                   claim_created := claim_created c |});
           mret match r with Ok _ => Ok None | Err e => Err (ApiFailed e) end
       end.

(** [Ok None] lets the workload build its children. *)
Definition reconcileNameClaim (kind : Kind) (w : Workload) : prog api (result ClaimError (option Kind)) :=
  let owner := {| owner_kind := kind; owner_uid := work_uid w |} in
  r ← call GetNameCached;
  match r with
  | Err NoMatch => mret (Ok None)
  | Err NotFound =>
      h ← olderHolder kind (work_created w);
      match h with
      | Err e => mret (Err (ApiFailed e))
      | Ok (Some holder) => mret (Ok (Some holder))
      | Ok None => create_claim kind owner
      end
  | Err e => mret (Err (ApiFailed e))
  | Ok c =>
      if decide (claim_kind c = kind) then adopt_claim c owner
      else mret (Ok (Some (claim_kind c)))
  end.
End Controllers.

(** ** Reclaiming reservations ([workloadname_controller.go]). *)

Definition claimGrace : Duration := 5 * Minute.

(** Whether to come back later, and when. *)
Definition Reconcile : prog api (result ApiError (option Duration)) :=
  r ← call GetNameCached;
  match r with
  | Err NotFound => mret (Ok None)
  | Err e => mret (Err e)
  | Ok c =>
      match claim_owner c with
      | Some _ => mret (Ok None)
      | None =>
          now ← call TimeNow;
          let held := Sub now (claim_created c) in
          if held <? claimGrace then mret (Ok (Some (claimGrace - held)))
          else
            w ← call (GetWork (claim_kind c));
            match w with
            | Ok _ => mret (Ok None)
            | Err NotFound =>
                d ← call (DeleteName (claim_uid c) (Some (claim_version c)));
                mret match d with
                     | Ok _ | Err NotFound | Err Conflict => Ok None
                     | Err e => Err e
                     end
            | Err e => mret (Err e)
            end
      end
  end.
