(* ===== verification/WorkloadNameProps.v ===== *)
(** * One kind of workload per name: the reservation protocol under any
    interleaving of create requests and reconcile passes. *)

From stdpp Require Import base tactics numbers list option functions sets.
From S2P Require Import Prelude Calls GoStd WorkloadName.

(** ** The threads that share a name. *)

(** A create request, or one reconcile pass over a workload. *)
Inductive thread : Type :=
| Creator (kind : Kind)
| AppCreator
| Controller (kind : Kind) (w : Workload).

Inductive Outcome : Type :=
| Answered (r : Response)
| Reconciled (r : result ClaimError (option Kind)).

(** The kind of workload a thread creates. *)
Definition creates (t : thread) : option Kind :=
  match t with Creator kind => Some kind | AppCreator => Some app | Controller _ _ => None end.

(** The reply to a workload create is not lost. *)
Definition create_replies (R : Type) (e : api R) (f : fault) (_ : Cluster) : bool :=
  match e, f with CreateWork _, Loses => false | _, _ => true end.

(** ** What the server keeps true. *)

(** The reservations the server ever held have distinct versions, older than
    the next one. *)
Definition coherent (s : Cluster) : Prop :=
  (forall c, claim s = Some c -> c ∈ past s) /\
  (forall c, c ∈ past s -> (claim_version c < next s)%nat) /\
  (forall c c', c ∈ past s -> c' ∈ past s -> claim_version c = claim_version c' -> c = c').

(** A workload holds the reservation of its name. *)
Definition reserved (s : Cluster) (kind : Kind) : Prop :=
  exists c, claim s = Some c /\ claim_kind c = kind.

Definition names_ok (s : Cluster) : Prop :=
  has_names s = true /\ coherent s /\ forall kind w, works s kind = Some w -> reserved s kind.

(** ** What a thread knows. *)

Inductive ghost : Type :=
| Nothing
| Absent (kind : Kind)
| Joined (kind : Kind)
| Owning (kind : Kind) (uid : nat)
| Made (kind : Kind)
| Seen (c : WorkloadName).

Definition holds (g : ghost) (s : Cluster) : Prop :=
  match g with
  | Nothing => True
  | Absent kind => works s kind = None
  | Joined kind => reserved s kind
  | Owning kind uid =>
      works s kind = None /\ exists c, claim s = Some c /\ claim_kind c = kind /\ claim_uid c = uid
  | Made kind => works s kind <> None
  | Seen c => c ∈ past s
  end.

(** The kind a ghost value depends on. *)
Definition about (g : ghost) : option Kind :=
  match g with Absent k | Joined k | Owning k _ => Some k | _ => None end.

Section Invariant.
Variable ths : list thread.
(** No two requests create the same kind of workload under the name. *)
Variable distinct : forall i j t u kind,
  ths !! i = Some t -> ths !! j = Some u -> creates t = Some kind -> creates u = Some kind -> i = j.

Definition inv (s : Cluster) (gs : list ghost) : Prop :=
  names_ok s /\
  forall i g, gs !! i = Some g ->
    holds g s /\ (forall kind, about g = Some kind -> exists t, ths !! i = Some t /\ creates t = Some kind).

Lemma inv_about s gs i j g g' kind :
  inv s gs -> gs !! i = Some g -> gs !! j = Some g' -> about g = Some kind -> about g' = Some kind -> i = j.
Proof.
  intros [_ H] Hi Hj Ha Ha'. destruct (H i g Hi) as [_ (t & Ht & Hc)%(fun f => f kind Ha)].
  destruct (H j g' Hj) as [_ (u & Hu & Hd)%(fun f => f kind Ha')]. by eapply distinct.
Qed.

(** The state changes, the other threads' knowledge survives. *)
Lemma inv_update s s' gs i g' :
  inv s gs -> names_ok s' -> holds g' s' ->
  (forall kind, about g' = Some kind -> exists t, ths !! i = Some t /\ creates t = Some kind) ->
  (forall j g, j <> i -> gs !! j = Some g -> holds g s -> holds g s') ->
  inv s' (<[i := g']> gs).
Proof.
  intros [_ Hall] Hn Hg' Ha Hothers. split; [done|]. intros j g Hj.
  apply list_lookup_insert_Some in Hj as [(-> & <- & _)|[Hne Hj]]; [done|].
  destruct (Hall j g Hj) as [Hg Hab]. split; [|done]. by apply (Hothers j g).
Qed.

Lemma inv_tick d s gs : inv s gs -> inv (tick d s) gs.
Proof.
  intros [Hn Hall]. split; [done|]. intros i g Hg. destruct (Hall i g Hg) as [Hh Ha].
  split; [|done]. by destruct g.
Qed.

(** *** Reads. *)

Definition reads {R : Type} (e : api R) : Prop := forall f s, (handle R e f s).1 = s.

Lemma read_spec {R : Type} (e : api R) i g (Q : ghost -> R -> Prop) :
  reads e ->
  (forall f s gs, inv s gs -> gs !! i = Some g -> exists g',
     holds g' s /\ (forall kind, about g' = Some kind -> exists t, ths !! i = Some t /\ creates t = Some kind) /\
     Q g' (handle R e f s).2) ->
  safe handle create_replies inv i g (call e) Q.
Proof.
  intros Hr H. apply safe_call. intros s gs f HI Hg _. rewrite Hr.
  destruct (H f s gs HI Hg) as (g' & Hh & Ha & HQ). exists g'. split; [|done].
  apply (inv_update s); try done. apply HI.
Qed.

Lemma reads_GetWork kind : reads (GetWork kind).
Proof. by intros []. Qed.

Lemma reads_GetName : reads GetName.
Proof. by intros []. Qed.

Lemma reads_GetNameCached : reads GetNameCached.
Proof. by intros []. Qed.

(** A read that teaches nothing. *)
Lemma read_any {R : Type} (e : api R) i g (Q : ghost -> R -> Prop) :
  reads e -> (forall r, Q g r) -> safe handle create_replies inv i g (call e) Q.
Proof.
  intros Hr H. apply read_spec; [done|]. intros f s gs [_ Hall] Hg.
  destruct (Hall i g Hg) as [Hh Ha]. by exists g.
Qed.

(** *** Writes. *)

Lemma coherent_set_claim s c :
  coherent s -> claim_version c = next s -> coherent (set_claim (Some c) s).
Proof.
  intros (H1 & H2 & H3) Hv. split_and!; simpl.
  - intros c' [= <-]. set_solver.
  - intros c' [->|Hc]%elem_of_cons; [lia|]. specialize (H2 c' Hc). lia.
  - intros c1 c2 [->|Hc1]%elem_of_cons [->|Hc2]%elem_of_cons Heq; try done.
    + specialize (H2 c2 Hc2). lia.
    + specialize (H2 c1 Hc1). lia.
    + by apply H3.
Qed.

Lemma coherent_no_claim s : coherent s -> coherent (set_claim None s).
Proof. intros (H1 & H2 & H3). split_and!; simpl; try done. intros c Hc. specialize (H2 c Hc). lia. Qed.

Lemma coherent_set_work kind s : coherent s -> coherent (set_work kind s).
Proof. intros (H1 & H2 & H3). split_and!; simpl; try done. intros c Hc. specialize (H2 c Hc). lia. Qed.

(** The claim is created only where there is none, hence no workload. *)
Lemma inv_create_name s gs i g' c :
  inv s gs -> claim s = None -> claim_version c = next s -> holds g' (set_claim (Some c) s) ->
  (forall kind, about g' = Some kind -> exists t, ths !! i = Some t /\ creates t = Some kind) ->
  inv (set_claim (Some c) s) (<[i := g']> gs).
Proof.
  intros HI Hc Hv Hg Ha. pose proof HI as [(Hn & Hco & Hw) _]. apply (inv_update s); try done.
  - split_and!; [done|by apply coherent_set_claim|]. intros kind w Hk. simpl in Hk.
    destruct (Hw kind w Hk) as (? & ? & ?). congruence.
  - intros j [ | | | | |c'] _ _; simpl; try done.
    + intros (? & ? & ?). congruence.
    + intros (_ & ? & ? & ?). congruence.
    + set_solver.
Qed.

Lemma inv_update_name s gs i g' c c' :
  inv s gs -> claim s = Some c -> claim_kind c' = claim_kind c -> claim_uid c' = claim_uid c ->
  claim_version c' = next s -> holds g' (set_claim (Some c') s) ->
  (forall kind, about g' = Some kind -> exists t, ths !! i = Some t /\ creates t = Some kind) ->
  inv (set_claim (Some c') s) (<[i := g']> gs).
Proof.
  intros HI Hc Hk Hu Hv Hg Ha. pose proof HI as [(Hn & Hco & Hw) _]. apply (inv_update s); try done.
  - split_and!; [done|by apply coherent_set_claim|]. intros kind w Hw'. simpl in Hw'.
    destruct (Hw kind w Hw') as (c0 & Hc0 & Hk0). exists c'. simpl. split; [done|]. congruence.
  - intros j [ |k|k|k u|k|c1] _ _; simpl; try done.
    + intros (c0 & Hc0 & Hk0). exists c'. simpl. split; [done|]. congruence.
    + intros (Hwk & c0 & Hc0 & Hk0 & Hu0). split; [done|]. exists c'. split_and!; [done| |]; congruence.
    + set_solver.
Qed.

(** Only the thread that made the claim deletes it, before its workload
    exists. *)
Lemma inv_delete_name s gs i kind uid :
  inv s gs -> gs !! i = Some (Owning kind uid) -> inv (set_claim None s) (<[i := Absent kind]> gs).
Proof.
  intros HI Hg. pose proof HI as [(Hn & Hco & Hw) Hall]. destruct (Hall i _ Hg) as [Hh Ha].
  destruct Hh as (Hwk & c & Hc & Hk & Hu). apply (inv_update s); try done.
  - split_and!; [done|by apply coherent_no_claim|]. intros k w Hkw. simpl in Hkw.
    destruct (Hw k w Hkw) as (c0 & Hc0 & Hk0). congruence.
  - intros j g Hj Hgj. destruct g as [ |k|k|k u|k|c1]; simpl; try done.
    + intros (c0 & Hc0 & Hk0). destruct Hj. apply (inv_about s gs j i (Joined k) (Owning kind uid) kind); simpl; congruence.
    + intros (_ & c0 & Hc0 & Hk0 & _). destruct Hj.
      apply (inv_about s gs j i (Owning k u) (Owning kind uid) kind); simpl; congruence.
Qed.

Lemma inv_create_work s gs i g kind :
  inv s gs -> gs !! i = Some g -> about g = Some kind -> reserved s kind -> works s kind = None ->
  inv (set_work kind s) (<[i := Made kind]> gs).
Proof.
  intros HI Hg Hab Hres Hnone. pose proof HI as [(Hn & Hco & Hw) _]. apply (inv_update s); try done.
  - split_and!; [done|by apply coherent_set_work|]. intros k w. simpl.
    destruct (decide (k = kind)) as [->|Hne]; [done|]. rewrite fn_lookup_insert_ne by done. apply Hw.
  - simpl. by rewrite fn_lookup_insert.
  - intros j g0 Hj Hgj. assert (Hother : forall k, about g0 = Some k -> k <> kind).
    { intros k Hk ->. destruct Hj. by apply (inv_about s gs j i g0 g kind). }
    destruct g0 as [ |k|k|k u|k|c1]; simpl; try done.
    + by rewrite fn_lookup_insert_ne by (symmetry; by apply Hother).
    + intros [Hk Hc]. by rewrite fn_lookup_insert_ne by (symmetry; by apply Hother).
    + destruct (decide (k = kind)) as [->|]; [by rewrite fn_lookup_insert|by rewrite fn_lookup_insert_ne].
Qed.

(** ** The programs. *)

Abbreviation safe_at i g p Q := (safe handle create_replies inv i g p Q).

Definition creator (i : nat) (kind : Kind) : Prop :=
  exists t, ths !! i = Some t /\ creates t = Some kind.

Lemma safe_heldBySameKind i kind :
  creator i kind ->
  safe_at i Nothing (heldBySameKind kind) (fun g r =>
    match r with Ok true => g = Joined kind | Ok false => g = Absent kind | Err _ => True end).
Proof.
  intros Hc. apply safe_bind, read_spec; [apply reads_GetWork|]. intros f s gs [(_ & _ & Hw) Hall] Hg.
  assert (Herr : exists g', holds g' s /\ (forall k, about g' = Some k -> creator i k) /\
    safe_at i g' (mret (Err (Wrapped ServerError)) : prog api (result NameError bool))
      (fun g r => match r with Ok true => g = Joined kind | Ok false => g = Absent kind | Err _ => True end))
    by (exists Nothing; done).
  assert (Hserve : exists g', holds g' s /\ (forall k, about g' = Some k -> creator i k) /\
    match works s kind with Some _ => g' = Joined kind | None => g' = Absent kind end).
  { destruct (works s kind) as [w|] eqn:Hk.
    - exists (Joined kind). split; [by apply (Hw kind w)|]. split; [intros k [= <-]; done|done].
    - exists (Absent kind). split; [done|]. split; [intros k [= <-]; done|done]. }
  destruct Hserve as (g' & H1 & H2 & H3).
  destruct f; try exact Herr; exists g'; (split; [exact H1|split; [exact H2|]]); cbn;
    by destruct (works s kind).
Qed.

Lemma safe_ensure_others i g kind mine kinds :
  safe_at i g (ensure_others kind mine kinds) (fun g' _ => g' = g).
Proof.
  induction kinds as [|other kinds IH]; cbn [ensure_others]; [done|].
  destruct (decide (other = kind)); [done|]. apply safe_bind, read_any; [apply reads_GetWork|].
  intros [w|[]]; try done. destruct mine as [m|]; [|done]. by destruct (Incumbent _ _ _ _).
Qed.

Lemma safe_EnsureFree i g kind : safe_at i g (EnsureFree kind) (fun g' _ => g' = g).
Proof.
  apply safe_bind, read_any; [apply reads_GetWork|].
  intros [w|[]]; try done; apply safe_ensure_others.
Qed.

(** What a claim leaves behind: a claim just made is the thread's own only if
    the workload was not there. *)
Definition claimed (kind : Kind) (g g' : ghost) (r : result NameError (bool * nat)) : Prop :=
  match r with
  | Ok (true, _) => g' = Joined kind
  | Ok (false, uid) => g = Absent kind /\ g' = Owning kind uid
  | Err e => isClaimUnavailable e = false
  end.

Lemma safe_read_holder i g g0 kind :
  creator i kind ->
  safe_at i g (existing ← call GetName;
    mret match existing with
         | Err e => Err (Wrapped e)
         | Ok c => if decide (claim_kind c = kind) then Ok (true, claim_uid c)
                   else Err (NameTakenError (claim_kind c))
         end) (claimed kind g0).
Proof.
  intros Hc. apply safe_bind, read_spec; [apply reads_GetName|]. intros f s gs [(Hn & _ & _) Hall] Hg.
  assert (Hserve : exists g', holds g' s /\ (forall k, about g' = Some k -> creator i k) /\
    (forall c, claim s = Some c -> claim_kind c = kind -> g' = Joined kind)).
  { destruct (claim s) as [c|] eqn:Hcl; [|by exists Nothing].
    destruct (decide (claim_kind c = kind)) as [Hk|Hk].
    - exists (Joined kind). split_and!; [by exists c|intros k [= <-]; done|done].
    - exists Nothing. split_and!; [done|done|]. intros c' [= <-] Hk'. done. }
  destruct Hserve as (g' & H1 & H2 & H3).
  destruct f; exists g'; (split; [exact H1|split; [exact H2|]]); cbn; try done;
    rewrite Hn; cbn; destruct (claim s) as [c|]; cbn; try done;
    destruct (decide (claim_kind c = kind)) as [Hk|Hk]; cbn; try done; by apply (H3 c).
Qed.

Lemma safe_Claim i g kind :
  creator i kind -> g = Absent kind \/ g = Joined kind -> safe_at i g (Claim kind) (claimed kind g).
Proof.
  intros Hc Hgk. apply safe_bind, safe_call. intros s gs f HI Hg _.
  pose proof HI as [(Hn & Hco & Hw) Hall]. destruct (Hall i g Hg) as [Hh Ha].
  assert (Hkeep : forall e, e <> NoMatch -> e <> NotFound -> exists g',
    inv s (<[i := g']> gs) /\
    safe_at i g' (match Err e with
      | Ok uid => mret (Ok (false, uid))
      | Err NoMatch => mret (Err (ClaimUnavailableError NoMatch))
      | Err NotFound => mret (Err (ClaimUnavailableError NotFound))
      | Err AlreadyExists => existing ← call GetName;
          mret match existing with
               | Err e => Err (Wrapped e)
               | Ok c => if decide (claim_kind c = kind) then Ok (true, claim_uid c)
                         else Err (NameTakenError (claim_kind c))
               end
      | Err e => mret (Err (Wrapped e)) end) (claimed kind g)).
  { intros e Hm Hf. exists g. split; [by apply (inv_update s)|].
    destruct e; try done. by apply safe_read_holder. }
  cbn. destruct (claim s) as [c|] eqn:Hcl.
  { destruct f; cbn; rewrite ?Hn, ?Hcl; cbn;
      first [by apply (Hkeep AlreadyExists) | by apply (Hkeep ServerError)]. }
  assert (Habs : g = Absent kind).
  { destruct Hgk as [->| ->]; [done|]. destruct Hh as (c & Hc' & _). congruence. }
  subst g. set (c := {| claim_uid := next s; claim_version := next s; claim_kind := kind;
                        claim_owner := None; claim_created := stamp (clock s) |}).
  assert (Hmade : inv (set_claim (Some c) s) (<[i := Owning kind (next s)]> gs)).
  { apply (inv_create_name s gs i (Owning kind (next s)) c); try done.
    split; [done|]. by exists c. }
  destruct f; cbn; rewrite ?Hn, ?Hcl; cbn.
  - exists (Owning kind (next s)). by split.
  - by apply (Hkeep ServerError).
  - exists (Owning kind (next s)). by split.
  - exists (Owning kind (next s)). by split.
Qed.

(** A thread that holds the name, and what it would give back. *)
Definition holding (kind : Kind) (release : option nat) (g : ghost) : Prop :=
  match release with None => g = Joined kind | Some uid => g = Owning kind uid end.

Lemma safe_run_release i g kind release (Q : ghost -> unit -> Prop) :
  holding kind release g -> (forall g', Q g' tt) -> safe_at i g (run_release release) Q.
Proof.
  intros Hh HQ. destruct release as [uid|]; [|apply HQ]. simpl in Hh. subst g.
  apply safe_bind, safe_call. intros s gs f HI Hg _.
  pose proof HI as [(Hn & Hco & Hw) Hall]. destruct (Hall i _ Hg) as [(Hwk & c & Hc & Hk & Hu) Ha].
  assert (Hdel : (serve (DeleteName uid None) s).1 = set_claim None s).
  { cbn. rewrite Hc, Hu, Nat.eqb_refl. done. }
  destruct f; cbn [handle fst]; rewrite ?Hdel.
  - exists (Absent kind). split; [by apply (inv_delete_name s gs i kind uid)|apply HQ].
  - exists (Owning kind uid). split; [|apply HQ]. by rewrite list_insert_id.
  - exists (Absent kind). split; [by apply (inv_delete_name s gs i kind uid)|apply HQ].
  - exists (Absent kind). split; [by apply (inv_delete_name s gs i kind uid)|apply HQ].
Qed.

Definition answered (kind : Kind) (g : ghost) (r : Response) : Prop := r = StatusOK -> g = Made kind.

Lemma safe_create_reserved i g kind release :
  creator i kind -> holding kind release g ->
  safe_at i g (create_reserved kind release) (answered kind).
Proof.
  intros Hc Hh. apply safe_bind, safe_call. intros s gs f HI Hg Hl.
  pose proof HI as [(Hn & Hco & Hw) Hall]. destruct (Hall i _ Hg) as [Hg' Ha].
  assert (Hres : reserved s kind).
  { destruct release; simpl in Hh; subst g; [|done]. destruct Hg' as (_ & c & H1 & H2 & _). by exists c. }
  assert (Hab : about g = Some kind) by (destruct release; simpl in Hh; by subst g).
  assert (Hback : safe_at i g (_ ← run_release release; mret StatusInternalServerError) (answered kind)).
  { apply safe_bind. eapply safe_run_release; [done|]. done. }
  destruct f; try done; cbn; destruct (works s kind) as [w|] eqn:Hk; cbn;
    first [ by exists g; split; [rewrite list_insert_id|]
          | exists (Made kind); split; [|done]; by apply (inv_create_work s gs i g kind) ].
Qed.

Lemma safe_Reserve i kind :
  creator i kind ->
  safe_at i Nothing (Reserve kind) (fun g r =>
    match r with Ok release => holding kind release g | Err _ => True end).
Proof.
  intros Hc. apply safe_bind. eapply safe_mono; [by apply safe_heldBySameKind|].
  intros g [[]|e] Hg; cbv beta iota in Hg |- *; try done; subst g;
    (apply safe_bind; eapply safe_mono; [apply safe_EnsureFree|]; intros g [u|e] ->; [|done];
     apply safe_bind; eapply safe_mono; [apply safe_Claim; [done|auto]|]).
  - intros g [[[] uid]|e] Hcl; cbn in Hcl |- *; [done| |by rewrite Hcl]. by destruct Hcl.
  - intros g [[[] uid]|e] Hcl; cbn in Hcl |- *; [done| |by rewrite Hcl]. by destruct Hcl as [_ ->].
Qed.

Lemma safe_Create i kind : creator i kind -> safe_at i Nothing (Create kind) (answered kind).
Proof.
  intros Hc. apply safe_bind. eapply safe_mono; [by apply safe_Reserve|]. intros g [release|e] Hg.
  - by apply safe_create_reserved.
  - by destruct e.
Qed.

Lemma safe_Apps_Create i : creator i app -> safe_at i Nothing Apps_Create (answered app).
Proof.
  intros Hc. apply safe_bind. eapply safe_mono; [by apply safe_Reserve|]. intros g [release|e] Hg.
  - apply safe_bind, read_any; [apply reads_GetWork|].
    assert (Hback : safe_at i g (_ ← run_release release; mret StatusInternalServerError) (answered app)).
    { apply safe_bind. by eapply safe_run_release. }
    intros [w|[]]; try done. by apply safe_create_reserved.
  - by destruct e.
Qed.

(** *** The controllers. *)

Variable SetControllerReference : OwnerRef -> option OwnerRef -> option OwnerRef.
Variable IsControlledBy : OwnerRef -> option OwnerRef -> bool.

Lemma safe_older_loop i g kind mine kinds : safe_at i g (older_loop kind mine kinds) (fun g' _ => g' = g).
Proof.
  induction kinds as [|other kinds IH]; cbn [older_loop]; [done|].
  destruct (decide (other = kind)); [done|]. apply safe_bind, read_any; [apply reads_GetWork|].
  intros [w|[]]; try done. by destruct (Incumbent _ _ _ _).
Qed.

(** A claim created by anybody: the state is consistent, nothing is owned. *)
Lemma safe_CreateName_any i g kind owner :
  safe_at i g (call (CreateName kind owner)) (fun _ _ => True).
Proof.
  apply safe_call. intros s gs f HI Hg _. pose proof HI as [(Hn & Hco & Hw) Hall].
  assert (Hserve : exists g', inv (serve (CreateName kind owner) s).1 (<[i := g']> gs)).
  { cbn. rewrite Hn. cbn. destruct (claim s) as [c|] eqn:Hcl; [exists g; by rewrite list_insert_id|].
    exists Nothing. by apply inv_create_name. }
  destruct Hserve as [g' Hg']. destruct f; cbn [handle fst]; try by exists g'.
  exists g. by rewrite list_insert_id.
Qed.

Lemma safe_create_claim i g kind owner :
  safe_at i g (create_claim SetControllerReference kind owner) (fun _ _ => True).
Proof.
  unfold create_claim. destruct (SetControllerReference owner None) as [ref|]; [|done].
  apply safe_bind. eapply safe_mono; [apply safe_CreateName_any|]. intros g' [uid|[]] _; try done.
  by apply safe_bind, read_any; [apply reads_GetName|].
Qed.

(** Adopting a reservation changes its owner only: the version the update
    carries is the version of the one value it was read from. *)
Lemma safe_adopt_claim i c owner :
  safe_at i (Seen c) (adopt_claim SetControllerReference IsControlledBy c owner) (fun _ _ => True).
Proof.
  unfold adopt_claim. destruct (IsControlledBy _ _); [done|].
  destruct (SetControllerReference _ _) as [ref|]; [|done].
  apply safe_bind, safe_call. intros s gs f HI Hg _.
  pose proof HI as [(Hn & (Hp & Hlt & Hinj) & Hw) Hall]. destruct (Hall i _ Hg) as [Hseen Ha]. simpl in Hseen.
  set (c' := {| claim_uid := claim_uid c; claim_version := claim_version c; claim_kind := claim_kind c;
                claim_owner := Some ref; claim_created := claim_created c |}).
  assert (Hsame : inv s (<[i := Seen c]> gs)) by (by rewrite list_insert_id).
  assert (Hserve : inv (serve (UpdateName c') s).1 (<[i := Seen c]> gs)).
  { cbn. destruct (claim s) as [c0|] eqn:Hcl; [|done].
    destruct ((claim_uid c0 =? claim_uid c)%nat && (claim_version c0 =? claim_version c)%nat) eqn:Heq; [|done].
    apply andb_true_iff in Heq as [Hu%Nat.eqb_eq Hv%Nat.eqb_eq].
    assert (c0 = c) as -> by (apply Hinj; [by apply Hp|done|done]).
    apply (inv_update_name s gs i (Seen c) c); try done. simpl. set_solver. }
  exists (Seen c). split; [by destruct f|]. by destruct (handle _ _ _ _).2.
Qed.

(** A cached read answers a value the reservation has had. *)
Lemma safe_cached_read i :
  safe_at i Nothing (call GetNameCached) (fun g r => match r with Ok c => g = Seen c | Err _ => True end).
Proof.
  apply read_spec; [apply reads_GetNameCached|]. intros f s gs [(Hn & (Hp & _ & _) & _) _] Hg.
  assert (Hans : forall r, (forall c, r = Ok c -> c ∈ past s) -> exists g', holds g' s /\
    (forall k, about g' = Some k -> creator i k) /\
    match r : result ApiError WorkloadName with Ok c => g' = Seen c | Err _ => True end).
  { intros [c|e] Hr; [exists (Seen c)|by exists Nothing]. split_and!; [by apply Hr|done|done]. }
  apply Hans. intros c. destruct f; cbn; rewrite ?Hn; cbn; try done.
  - destruct (claim s) as [c0|] eqn:Hc; [|done]. intros [= <-]. by apply Hp.
  - destruct (past s !! n) eqn:Hpn; [|done]. intros [= <-]. by eapply list_elem_of_lookup_2.
Qed.

Lemma safe_reconcileNameClaim i kind w :
  safe_at i Nothing (reconcileNameClaim SetControllerReference IsControlledBy kind w) (fun _ _ => True).
Proof.
  apply safe_bind. eapply safe_mono; [apply safe_cached_read|]. intros g [c|e] Hg.
  - simpl in Hg. subst g. destruct (decide _); [apply safe_adopt_claim|done].
  - destruct e; try done. apply safe_bind. eapply safe_mono; [apply safe_older_loop|].
    intros g' [[holder|]|e] ->; try done. apply safe_create_claim.
Qed.

Definition thread_prog (t : thread) : prog api Outcome :=
  match t with
  | Creator kind => r ← Create kind; mret (Answered r)
  | AppCreator => r ← Apps_Create; mret (Answered r)
  | Controller kind w =>
      r ← reconcileNameClaim SetControllerReference IsControlledBy kind w; mret (Reconciled r)
  end.

(** What a thread's outcome says. *)
Definition outcome_ok (i : nat) (g : ghost) (o : Outcome) : Prop :=
  forall t kind, ths !! i = Some t -> creates t = Some kind -> o = Answered StatusOK -> g = Made kind.

Lemma safe_thread i t : ths !! i = Some t -> safe_at i Nothing (thread_prog t) (outcome_ok i).
Proof.
  intros Ht. destruct t as [kind| |kind w]; apply safe_bind.
  - eapply safe_mono; [apply safe_Create; by exists (Creator kind)|].
    intros g r Hr t k Ht' Hk [= ->]. rewrite Ht in Ht'. injection Ht' as <-. injection Hk as <-. by apply Hr.
  - eapply safe_mono; [apply safe_Apps_Create; by exists AppCreator|].
    intros g r Hr t k Ht' Hk [= ->]. rewrite Ht in Ht'. injection Ht' as <-. injection Hk as <-. by apply Hr.
  - eapply safe_mono; [apply safe_reconcileNameClaim|]. intros g r _ t k Ht' Hk [=].
Qed.

Lemma pool_start s :
  names_ok s ->
  pool_safe handle create_replies inv outcome_ok (s, thread_prog <$> ths) (replicate (length ths) Nothing).
Proof.
  intros Hn. split.
  - split; [done|]. intros i g [-> _]%lookup_replicate. done.
  - intros i p. simpl. rewrite list_lookup_fmap. intros (t & Ht & ->)%fmap_Some. exists Nothing.
    split; [apply lookup_replicate; split; [done|by eapply lookup_lt_Some]|by apply safe_thread].
Qed.
End Invariant.

(** *** One request of each kind, the controllers, and time. *)

Definition set_reference (o : OwnerRef) (refs : option OwnerRef) : option OwnerRef :=
  match refs with
  | Some r => if decide (owner_kind r = owner_kind o) then Some o else None
  | None => Some o
  end.

Definition controlled_by (o : OwnerRef) (refs : option OwnerRef) : bool :=
  match refs with Some r => (owner_uid r =? owner_uid o)%nat | None => false end.

(** A name nobody has, on a cluster with reservations. *)
Definition free_name : Cluster :=
  {| claim := None; works := fun _ => None; past := []; next := 0; clock := 0; has_names := true |}.

Definition demo_pool (ths : list thread) : list (prog api Outcome) :=
  thread_prog set_reference controlled_by <$> ths.

(** The function wins the reservation between the app's lookup and its claim. *)
Definition demo_schedule : list (turn (Fault := fault) (Env := N)) :=
  replicate 4 (Run 0 Fine) ++ replicate 6 (Run 1 Fine) ++ [Outside 1%N] ++
  [Run 0 Fine; Run 3 (Stale 5); Run 2 Fails; Run 0 Fine] ++ replicate 4 (Run 3 Fine).

Definition demo_threads : list thread :=
  [AppCreator; Creator function; Creator job; Controller function {| work_uid := 1; work_created := 0 |}].

(** ** What a joined reservation does not protect. *)

(** The state in which both requests were answered with success. *)
Definition both_created (c : option (Cluster * list (prog api Outcome))) (i j : nat) : bool :=
  match c with
  | Some (s, ps) =>
      match works s app, works s function, ps !! i, ps !! j with
      | Some _, Some _, Some (Ret (Answered StatusOK)), Some (Ret (Answered StatusOK)) => true
      | _, _, _, _ => false
      end
  | None => false
  end.

(** An app request makes the claim, a second one joins it, a function request
    looks the name up; the first create fails and gives the claim back; the
    second app is created, then the function claims and is created. *)
Definition joined_schedule : list (turn (Fault := fault) (Env := N)) :=
  replicate 5 (Run 0 Fine) ++ replicate 7 (Run 1 Fine) ++ replicate 4 (Run 2 Fine) ++
  [Run 0 Fine; Run 0 Fails; Run 0 Fine] ++ [Run 1 Fine] ++ replicate 2 (Run 2 Fine).

(** A reservation left by a client that died is six minutes old; the reclaiming
    pass finds no app; an app request joins the reservation, the pass deletes
    it, the app is created, and a function request that had looked the name up
    before claims it. No call fails. *)
Definition reclaimed_name : Cluster :=
  tick 360000000000 (serve (CreateName app None) free_name).1.

Definition reclaimed_schedule : list (turn (Fault := fault) (Env := N)) :=
  replicate 3 (Run 0 Fine) ++ replicate 7 (Run 1 Fine) ++ replicate 4 (Run 2 Fine) ++
  [Run 0 Fine; Run 1 Fine] ++ replicate 2 (Run 2 Fine).

(** A reservation joined is a reservation that may be gone. [Claim] takes a
    claim its own kind already holds as its own without recording that somebody
    relies on it, so the request that made it, or the reclaiming pass, can
    delete it under the request that joined it; then an app and a function of
    one name are both created and both answered with success. The first run
    needs one failed call, the second none. *)
Theorem joined_reservation_lost (SetControllerReference : OwnerRef -> option OwnerRef -> option OwnerRef)
    (IsControlledBy : OwnerRef -> option OwnerRef -> bool) :
  let thread := thread_prog SetControllerReference IsControlledBy in
  both_created (run handle tick create_replies joined_schedule
    (free_name, thread <$> [AppCreator; AppCreator; Creator function])) 1 2 = true /\
  both_created (run handle tick create_replies reclaimed_schedule
    (reclaimed_name, (_ ← Reconcile; mret (Answered StatusConflict)) ::
                     (thread <$> [AppCreator; Creator function]))) 1 2 = true.
Proof. split; vm_compute; reflexivity. Qed.

(** A function request looks the name up and finds it free; an app request
    creates the app, the answer is lost and the reservation released; then the
    function request reserves the name. *)
Definition lost_reply_schedule : list (turn (Fault := fault) (Env := N)) :=
  replicate 4 (Run 1 Fine) ++ replicate 6 (Run 0 Fine) ++ [Run 0 Loses; Run 0 Fine] ++ replicate 2 (Run 1 Fine).

Definition any_fault (R : Type) (e : api R) (f : fault) (_ : Cluster) : bool := true.

Theorem lost_reply_releases (SetControllerReference : OwnerRef -> option OwnerRef -> option OwnerRef)
    (IsControlledBy : OwnerRef -> option OwnerRef -> bool) :
  exists s ps,
    run handle tick any_fault lost_reply_schedule
      (free_name, thread_prog SetControllerReference IsControlledBy <$> [AppCreator; Creator function]) = Some (s, ps) /\
    is_Some (works s app) /\ is_Some (works s function) /\ reserved s function /\
    ps = [Ret (Answered StatusInternalServerError); Ret (Answered StatusOK)].
Proof. eexists _, _. split; [vm_compute; reflexivity|]. split_and!; by eexists. Qed.

(** C30: a name is one kind's, as long as no answer of a workload create is
    lost. On a cluster with reservations where every workload under the name
    holds its one: whatever create requests for an app, a function and a job
    (at most one each) and whatever reconcile passes of the three controllers
    run, call by call in any order, with calls that fail, answers of every
    other call lost, controllers reading any past value of the reservation
    from their cache and threads that stop for ever, no two kinds ever have a
    workload under the name, the kind that has one holds the reservation, and
    a request answered with success made its workload. The conditions are
    needed: after a lost answer of the app's create its handler releases the
    name, and a function request that had looked the name up before creates a
    function beside the app; so it does when two requests of one kind share
    the reservation, and when the reclaiming pass, not among the passes above,
    deletes it under a request. *)
Theorem racing_creates_one_kind :
  (forall (SetControllerReference : OwnerRef -> option OwnerRef -> option OwnerRef)
      (IsControlledBy : OwnerRef -> option OwnerRef -> bool) (ths : list thread) (ts : list (turn (Fault := fault)))
      (s s' : Cluster) (ps : list (prog api Outcome)),
     (forall i j t u kind, ths !! i = Some t -> ths !! j = Some u ->
        creates t = Some kind -> creates u = Some kind -> i = j) ->
     names_ok s ->
     run handle tick create_replies ts (s, thread_prog SetControllerReference IsControlledBy <$> ths) = Some (s', ps) ->
     (forall k1 k2 w1 w2, works s' k1 = Some w1 -> works s' k2 = Some w2 -> k1 = k2) /\
     (forall kind w, works s' kind = Some w -> reserved s' kind) /\
     (forall i t kind, ths !! i = Some t -> creates t = Some kind ->
        ps !! i = Some (Ret (Answered StatusOK)) -> exists w, works s' kind = Some w)) /\
  (forall (SetControllerReference : OwnerRef -> option OwnerRef -> option OwnerRef) (IsControlledBy : OwnerRef -> option OwnerRef -> bool),
     let thread := thread_prog SetControllerReference IsControlledBy in
     (exists s ps, run handle tick any_fault lost_reply_schedule (free_name, thread <$> [AppCreator; Creator function]) = Some (s, ps) /\
        is_Some (works s app) /\ is_Some (works s function) /\ reserved s function /\
        ps = [Ret (Answered StatusInternalServerError); Ret (Answered StatusOK)]) /\
     both_created (run handle tick create_replies joined_schedule
       (free_name, thread <$> [AppCreator; AppCreator; Creator function])) 1 2 = true /\
     both_created (run handle tick create_replies reclaimed_schedule
       (reclaimed_name, (_ ← Reconcile; mret (Answered StatusConflict)) :: (thread <$> [AppCreator; Creator function]))) 1 2 = true).
Proof.
  split; [|intros Sr Ic; split; [apply lost_reply_releases|apply joined_reservation_lost]].
  intros Sr Ic ths ts s s' ps Hdistinct Hstart Hrun.
  destruct (pool_safe_run handle tick create_replies (inv ths) (outcome_ok ths) ts _ _ _
    (inv_tick ths) (pool_start ths Hdistinct Sr Ic s Hstart) Hrun)
    as (gs & [(Hn & Hco & Hw) Hall] & Hps).
  split_and!; [|done|].
  - intros k1 k2 w1 w2 (c1 & Hc1 & <-)%Hw (c2 & Hc2 & <-)%Hw. congruence.
  - intros i t kind Ht Hk Hi. destruct (Hps i _ Hi) as (g & Hg & Ho).
    specialize (Ho t kind Ht Hk eq_refl). subst g. destruct (Hall i _ Hg) as [Hm _]. simpl in Hm.
    destruct (works s' kind) as [w|]; [by exists w|done].
Qed.

Lemma racing_creates_one_kind_witness :
  match run handle tick create_replies demo_schedule (free_name, demo_pool demo_threads) with
  | Some (s', ps) =>
      works s' function = Some {| work_uid := 1; work_created := 0 |} /\ works s' app = None /\
      ps !! 0%nat = Some (Ret (Answered StatusConflict)) /\ ps !! 1%nat = Some (Ret (Answered StatusOK)) /\
      ps !! 3%nat = Some (Ret (Reconciled (Ok None))) /\
      (forall k1 k2 w1 w2, works s' k1 = Some w1 -> works s' k2 = Some w2 -> k1 = k2)
  | None => False
  end.
Proof.
  assert (Hd : forall i j t u kind, demo_threads !! i = Some t -> demo_threads !! j = Some u ->
    creates t = Some kind -> creates u = Some kind -> i = j)
    by (intros [|[|[|[|[]]]]] [|[|[|[|[]]]]] t u kind [= <-] [= <-] [= <-] [=]; done).
  assert (Hs : names_ok free_name) by (split_and!; [reflexivity|split_and!; [done|set_solver|set_solver]|done]).
  destruct (run handle tick create_replies demo_schedule _) as [[s' ps]|] eqn:Hrun.
  - pose proof (proj1 racing_creates_one_kind set_reference controlled_by demo_threads demo_schedule
      free_name s' ps Hd Hs Hrun) as (Hone & _).
    assert (Hc : match run handle tick create_replies demo_schedule (free_name, demo_pool demo_threads) with
      | Some (s', ps) =>
          works s' function = Some {| work_uid := 1; work_created := 0 |} /\ works s' app = None /\
          ps !! 0%nat = Some (Ret (Answered StatusConflict)) /\ ps !! 1%nat = Some (Ret (Answered StatusOK)) /\
          ps !! 3%nat = Some (Ret (Reconciled (Ok None)))
      | None => False end) by (vm_compute; split_and!; reflexivity).
    rewrite Hrun in Hc. split_and!; try apply Hc. exact Hone.
  - exfalso. assert (Hc : is_Some (run handle tick create_replies demo_schedule (free_name, demo_pool demo_threads)))
      by (vm_compute; by eexists). rewrite Hrun in Hc. by destruct Hc.
Defined.

(** ** Incumbency. *)

Lemma kindOrder_inj k1 k2 : kindOrder k1 = kindOrder k2 -> k1 = k2.
Proof. destruct k1, k2; vm_compute; done. Qed.

Lemma Incumbent_spec k1 t1 k2 t2 :
  Incumbent k1 t1 k2 t2 = true <-> t1 < t2 \/ t1 = t2 /\ (kindOrder k1 < kindOrder k2)%nat.
Proof.
  unfold Incumbent. rewrite orb_true_iff, andb_true_iff, Z.ltb_lt, Z.eqb_eq, Nat.ltb_lt. done.
Qed.

Lemma Incumbent_total k1 t1 k2 t2 :
  k1 <> k2 -> Incumbent k1 t1 k2 t2 = negb (Incumbent k2 t2 k1 t1).
Proof.
  intros Hk. assert (Ho : kindOrder k1 <> kindOrder k2) by (by intros ?%kindOrder_inj).
  destruct (Incumbent k2 t2 k1 t1) eqn:H2; cbn.
  - apply not_true_is_false. rewrite Incumbent_spec in *. lia.
  - apply Incumbent_spec. apply not_true_iff_false in H2. rewrite Incumbent_spec in H2. lia.
Qed.

Lemma Incumbent_trans k1 t1 k2 t2 k3 t3 :
  Incumbent k1 t1 k2 t2 = true -> Incumbent k2 t2 k3 t3 = true -> Incumbent k1 t1 k3 t3 = true.
Proof. rewrite !Incumbent_spec. lia. Qed.

(** The first kind, in order, whose workload beats one created at [mine]. *)
Fixpoint better (s : Cluster) (kind : Kind) (mine : Time) (kinds : list Kind) : option Kind :=
  match kinds with
  | [] => None
  | other :: kinds' =>
      match works s other with
      | Some w =>
          if negb (bool_decide (other = kind)) && Incumbent other (work_created w) kind mine
          then Some other else better s kind mine kinds'
      | None => better s kind mine kinds'
      end
  end.

Lemma alone_call {R : Type} (e : api R) s : alone handle Fine (call e) s = serve e s.
Proof. unfold call. cbn [alone handle]. by destruct (serve e s). Qed.

Lemma alone_older_loop s kind mine kinds :
  alone handle Fine (older_loop kind mine kinds) s = (s, Ok (better s kind mine kinds)).
Proof.
  induction kinds as [|other kinds IH]; [done|]. cbn [older_loop better].
  destruct (decide (other = kind)) as [->|Hne].
  - rewrite IH. rewrite bool_decide_true by done. cbn. by destruct (works s kind).
  - rewrite alone_bind, bool_decide_false by done. cbn. destruct (works s other) as [w|]; [|apply IH].
    destruct (Incumbent _ _ _ _); [done|apply IH].
Qed.

Lemma alone_ensure_others s kind m kinds :
  alone handle Fine (ensure_others kind (Some m) kinds) s =
  (s, match better s kind (work_created m) kinds with Some h => Err (NameTakenError h) | None => Ok tt end).
Proof.
  induction kinds as [|other kinds IH]; [done|]. cbn [ensure_others better].
  destruct (decide (other = kind)) as [->|Hne].
  - rewrite IH. rewrite bool_decide_true by done. cbn. by destruct (works s kind).
  - rewrite alone_bind, bool_decide_false by done. cbn. destruct (works s other) as [w|]; [|apply IH].
    destruct (Incumbent _ _ _ _); [done|apply IH].
Qed.

Lemma better_spec s kind mine kinds :
  (forall h, better s kind mine kinds = Some h ->
     h <> kind /\ exists w, works s h = Some w /\ Incumbent h (work_created w) kind mine = true) /\
  (better s kind mine kinds = None ->
     forall k w, k ∈ kinds -> k <> kind -> works s k = Some w -> Incumbent k (work_created w) kind mine = false).
Proof.
  induction kinds as [|other kinds [IH1 IH2]]; cbn [better]; [split; [done|set_solver]|].
  destruct (works s other) as [w|] eqn:Hw; cbn.
  - destruct (bool_decide_reflect (other = kind)) as [->|Hne]; cbn.
    + split; [done|]. intros Hb k w' [->|Hk]%elem_of_cons Hne Hk'; [done|]. by apply IH2.
    + destruct (Incumbent _ _ _ _) eqn:Hi.
      * split; [|done]. intros h [= <-]. split; [done|]. by exists w.
      * split; [done|]. intros Hb k w' [->|Hk]%elem_of_cons Hne' Hk'; [congruence|]. by apply IH2.
  - split; [done|]. intros Hb k w' [->|Hk]%elem_of_cons Hne' Hk'; [congruence|]. by apply IH2.
Qed.

(** The kind the name belongs to on a cluster without reservations. *)
Definition incumbent (s : Cluster) (kind : Kind) : Prop :=
  exists w, works s kind = Some w /\
    forall k v, k <> kind -> works s k = Some v -> Incumbent kind (work_created w) k (work_created v) = true.

Lemma elem_of_Kinds k : k ∈ Kinds.
Proof. destruct k; set_solver. Qed.

Lemma incumbent_better s kind w :
  works s kind = Some w -> incumbent s kind <-> better s kind (work_created w) Kinds = None.
Proof.
  intros Hw. destruct (better_spec s kind (work_created w) Kinds) as [Hs Hn]. split.
  - intros (w' & Hw' & Hbest). assert (w' = w) as -> by congruence.
    destruct (better s kind (work_created w) Kinds) as [h|]; [|done].
    destruct (Hs h eq_refl) as (Hne & v & Hv & Hi). specialize (Hbest h v Hne Hv).
    rewrite (Incumbent_total h (work_created v) kind) in Hi by done. by rewrite Hbest in Hi.
  - intros Hnone. exists w. split; [done|]. intros k v Hne Hv.
    rewrite (Incumbent_total kind (work_created w) k) by done.
    by rewrite (Hn Hnone k v (elem_of_Kinds k) Hne Hv).
Qed.

Lemma incumbent_unique s k1 k2 : incumbent s k1 -> incumbent s k2 -> k1 = k2.
Proof.
  intros (w1 & Hw1 & H1) (w2 & Hw2 & H2). destruct (decide (k1 = k2)) as [|Hne]; [done|].
  specialize (H1 k2 w2 (not_eq_sym Hne) Hw2). specialize (H2 k1 w1 Hne Hw1).
  rewrite (Incumbent_total k1 (work_created w1) k2) in H1 by done. by rewrite H2 in H1.
Qed.

(** The least of the workloads present, along a list of kinds. *)
Lemma incumbent_among s (kinds : list Kind) k w :
  works s k = Some w ->
  exists kind v, works s kind = Some v /\
    (kind = k \/ Incumbent kind (work_created v) k (work_created w) = true) /\
    forall k' v', k' ∈ kinds -> k' <> kind -> works s k' = Some v' ->
      Incumbent kind (work_created v) k' (work_created v') = true.
Proof.
  revert k w. induction kinds as [|k0 kinds IH]; intros k w Hw; [exists k, w; set_solver|].
  destruct (IH k w Hw) as (kind & v & Hv & Hk & Hbest).
  destruct (works s k0) as [v0|] eqn:Hk0.
  2:{ exists kind, v. split_and!; try done. intros k' v' [->|?]%elem_of_cons; [congruence|by apply Hbest]. }
  destruct (decide (k0 = kind)) as [->|Hne].
  { exists kind, v. split_and!; try done. intros k' v' [->|?]%elem_of_cons; [done|by apply Hbest]. }
  destruct (Incumbent kind (work_created v) k0 (work_created v0)) eqn:Hi.
  { exists kind, v. split_and!; try done. intros k' v' [->|?]%elem_of_cons ? Hv'; [congruence|by apply Hbest]. }
  assert (Hi' : Incumbent k0 (work_created v0) kind (work_created v) = true)
    by (rewrite Incumbent_total, Hi by done; done).
  exists k0, v0. split_and!; [done| |].
  - right. destruct Hk as [->|Hk]; [congruence|]. by eapply Incumbent_trans.
  - intros k' v' [->|Hin]%elem_of_cons Hne' Hv'; [done|].
    destruct (decide (k' = kind)) as [->|Hne2]; [congruence|].
    eapply Incumbent_trans; [exact Hi'|]. by apply Hbest.
Qed.

Lemma incumbent_exists s k w : works s k = Some w -> exists kind, incumbent s kind.
Proof.
  intros Hw. destruct (incumbent_among s Kinds k w Hw) as (kind & v & Hv & _ & Hbest).
  exists kind, v. split; [done|]. intros k' v' Hne Hv'. apply Hbest; [apply elem_of_Kinds|done|done].
Qed.

(** ** Reconcile passes on an upgraded cluster. *)

Section Upgrade.
Variable SetControllerReference : OwnerRef -> option OwnerRef -> option OwnerRef.
Variable IsControlledBy : OwnerRef -> option OwnerRef -> bool.
(** An object without a controller takes the reference; a reference that was
    just set is the owner's. *)
Hypothesis set_fresh : forall o, SetControllerReference o None = Some o.
Hypothesis controls_own : forall o, IsControlledBy o (Some o) = true.

(** One pass of the controller of [kind], over its workload if there is
    one. *)
Definition pass (kind : Kind) (s : Cluster) : Cluster * result ClaimError (option Kind) :=
  match works s kind with
  | Some w => alone handle Fine (reconcileNameClaim SetControllerReference IsControlledBy kind w) s
  | None => (s, Ok None)
  end.

(** Nobody holds the name, or its incumbent does and owns the reservation. *)
Definition settling (best : Kind) (w : Workload) (s : Cluster) : Prop :=
  has_names s = true /\ works s best = Some w /\ incumbent s best /\
  (forall c, claim s = Some c -> claim_kind c = best /\
     claim_owner c = Some {| owner_kind := best; owner_uid := work_uid w |}).

Lemma pass_spec best w kind v s :
  settling best w s -> works s kind = Some v ->
  settling best w (pass kind s).1 /\ works (pass kind s).1 = works s /\
  (kind = best -> (pass kind s).2 = Ok None /\ reserved (pass kind s).1 best) /\
  (kind <> best -> (exists holder, (pass kind s).2 = Ok (Some holder)) /\ (pass kind s).1 = s).
Proof.
  intros Hs Hv. pose proof Hs as (Hn & Hw & Hbest & Hcl). unfold pass. rewrite Hv. unfold reconcileNameClaim.
  rewrite alone_bind, alone_call. cbn [serve fst snd]. rewrite Hn. cbn [negb].
  destruct (claim s) as [c|] eqn:Hc.
  - destruct (Hcl c eq_refl) as [Hk Ho]. destruct (decide (claim_kind c = kind)) as [Hkk|Hkk].
    + assert (kind = best) as -> by congruence. assert (v = w) as -> by congruence.
      unfold adopt_claim. rewrite Ho, controls_own. cbn. split_and!; try done.
      intros _. split; [done|]. by exists c.
    + cbn. split_and!; try done.
      * intros ->. congruence.
      * intros _. split; [by eexists|done].
  - rewrite alone_bind. unfold olderHolder. rewrite alone_older_loop. cbn [fst snd].
    destruct (better s kind (work_created v) Kinds) as [h|] eqn:Hb.
    + assert (Hne : kind <> best) by (intros ->; apply (incumbent_better s best v Hv) in Hbest; congruence).
      cbn. split_and!; try done. intros _. split; [by eexists|done].
    + assert (kind = best) as -> by (apply (incumbent_unique s); [by apply (incumbent_better s kind v Hv)|done]).
      assert (v = w) as -> by congruence. unfold create_claim. rewrite set_fresh, alone_bind, alone_call.
      cbn [serve fst snd]. rewrite Hn, Hc. cbn. split_and!; try done.
      * split_and!; try done. intros c' [= <-]. done.
      * intros _. split; [done|]. by eexists.
Qed.

Definition passes (kinds : list Kind) (s : Cluster) : Cluster := foldl (fun s kind => (pass kind s).1) s kinds.

Lemma passes_settling best w kinds s :
  settling best w s ->
  settling best w (passes kinds s) /\ works (passes kinds s) = works s /\
  (best ∈ kinds \/ reserved s best -> reserved (passes kinds s) best).
Proof.
  revert s. induction kinds as [|k kinds IH]; intros s Hs; simpl; [set_solver|].
  assert (Hp : settling best w (pass k s).1 /\ works (pass k s).1 = works s /\
               (k = best \/ reserved s best -> reserved (pass k s).1 best)).
  { destruct (works s k) as [v|] eqn:Hk.
    - destruct (pass_spec best w k v s Hs Hk) as (H1 & H2 & H3 & H4). split_and!; [done|done|].
      intros Hor. destruct (decide (k = best)) as [->|Hne]; [by apply H3|].
      destruct (H4 Hne) as [_ ->]. by destruct Hor.
    - unfold pass. rewrite Hk. cbn. split_and!; try done. intros [->|]; [|done].
      destruct Hs as (_ & Hw & _). congruence. }
  destruct Hp as (H1 & H2 & H3). destruct (IH _ H1) as (H4 & H5 & H6). split_and!; [done|congruence|].
  intros Hor. apply H6. set_solver.
Qed.
End Upgrade.

(** An existing collision is settled the same way everywhere. Incumbency
    is a strict order, so of the workloads that share a name when a cluster
    without reservations is upgraded exactly one is incumbent, the oldest;
    [EnsureFree] lets a re-apply of a workload through exactly when
    [olderHolder] lets its controller through, and both name the same holder;
    whichever reconcile passes run, in whatever order and however often, the
    reservation only ever goes to the incumbent, whose controller proceeds,
    while the controllers of the others are refused. *)
Theorem collision_settled (SetControllerReference : OwnerRef -> option OwnerRef -> option OwnerRef)
    (IsControlledBy : OwnerRef -> option OwnerRef -> bool) (s : Cluster) (kinds : list Kind) (k0 : Kind) (w0 : Workload)
    (Hset : forall o, SetControllerReference o None = Some o)
    (Hown : forall o, IsControlledBy o (Some o) = true)
    (Hn : has_names s = true) (Hc : claim s = None) (Hw0 : works s k0 = Some w0) :
  let after := passes SetControllerReference IsControlledBy kinds s in
  (forall kind w, works s kind = Some w ->
     (alone handle Fine (EnsureFree kind) s).2 =
       match (alone handle Fine (olderHolder kind (work_created w)) s).2 with
       | Ok None => Ok tt
       | Ok (Some holder) => Err (NameTakenError holder)
       | Err e => Err (Wrapped e)
       end) /\
  exists best,
    (forall kind w, works s kind = Some w ->
       (alone handle Fine (olderHolder kind (work_created w)) s).2 = Ok None <-> kind = best) /\
    (forall c, claim after = Some c -> claim_kind c = best) /\
    (best ∈ kinds -> reserved after best) /\
    (forall kind w, works s kind = Some w ->
       (pass SetControllerReference IsControlledBy kind after).2 = Ok None <-> kind = best).
Proof.
  intros after.
  assert (Holder : forall kind w, works s kind = Some w ->
    (alone handle Fine (olderHolder kind (work_created w)) s).2 = Ok (better s kind (work_created w) Kinds))
    by (intros kind w _; unfold olderHolder; by rewrite alone_older_loop).
  split.
  { intros kind w Hw. rewrite (Holder kind w Hw). unfold EnsureFree.
    rewrite alone_bind, alone_call. cbn [serve fst snd]. rewrite Hw, alone_ensure_others. cbn [snd]. by destruct (better _ _ _ _). }
  destruct (incumbent_exists s k0 w0 Hw0) as [best Hbest]. exists best.
  pose proof Hbest as (wb & Hwb & _).
  destruct (passes_settling _ IsControlledBy Hset Hown best wb kinds s) as (Hs & Hworks & Hres).
  { split_and!; try done. intros c. by rewrite Hc. }
  split_and!.
  - intros kind w Hw. rewrite (Holder kind w Hw). split.
    + intros [= Hb]. apply (incumbent_unique s); [|done]. by apply (incumbent_better s kind w).
    + intros ->. f_equal. by apply (incumbent_better s best w).
  - intros c Hcl. by apply Hs.
  - intros Hin. by apply Hres; left.
  - intros kind w Hw. assert (Hw' : works after kind = Some w) by (unfold after; by rewrite Hworks).
    destruct (pass_spec _ IsControlledBy Hset Hown best wb kind w after Hs Hw') as (_ & _ & H1 & H2). split.
    + intros Hok. destruct (decide (kind = best)) as [|Hne]; [done|]. destruct (H2 Hne) as [[h Hh] _]. congruence.
    + intros ->. by apply H1.
Qed.

(** A job and an app of one second: the app comes first in [Kinds]. *)
Definition collision : Cluster :=
  {| claim := None; past := []; next := 3; clock := 0; has_names := true;
     works := fun k => match k with
                       | app => Some {| work_uid := 1; work_created := 7 |}
                       | job => Some {| work_uid := 2; work_created := 7 |}
                       | function => None
                       end |}.

Lemma collision_settled_witness :
  (pass set_reference controlled_by job collision).2 = Ok (Some app) /\
  reserved (passes set_reference controlled_by [job; app; job] collision) app /\
  exists best, forall kind w, works collision kind = Some w ->
    (alone handle Fine (olderHolder kind (work_created w)) collision).2 = Ok None <-> kind = best.
Proof.
  split; [vm_compute; reflexivity|].
  destruct (collision_settled set_reference controlled_by collision [job; app; job] app
    {| work_uid := 1; work_created := 7 |}) as (_ & best & H1 & _ & H2 & _);
    [reflexivity| |reflexivity|reflexivity|reflexivity|].
  - intros o. simpl. apply Nat.eqb_refl.
  - assert (best = app) as ->; [|split; [apply H2; set_solver|by exists app]].
    symmetry. eapply H1; reflexivity.
Defined.
