(* ===== verification/Scan.v ===== *)
(** * Loops and searches of the Go text scanners

    A [for] loop as an iterated step, with one rule for its invariant, its
    measure and its result; the searches of package [strings] the scanners use;
    slices of a string. *)

From Stdlib Require Import Ascii.
From stdpp Require Import base tactics numbers list option strings.
From S2P Require Import Prelude GoStd.

(** ** Loops. *)

(** A loop whose body either goes on with a new state or returns. *)
Fixpoint iterate {S R : Type} (fuel : nat) (body : S -> S + R) (s : S) : option R :=
  match fuel with
  | O => None
  | Datatypes.S fuel' =>
      match body s with
      | inl s' => iterate fuel' body s'
      | inr r => Some r
      end
  end.

(** A loop with an invariant and a decreasing measure returns, and its result
    satisfies what the body's returns do. *)
Lemma iterate_returns {S R : Type} (I : S -> Prop) (measure : S -> nat) (Q : R -> Prop) (body : S -> S + R)
    (fuel : nat) (s : S) :
  (forall s, I s -> match body s with inl s' => I s' /\ (measure s' < measure s)%nat | inr r => Q r end) ->
  I s -> (measure s < fuel)%nat ->
  exists r, iterate fuel body s = Some r /\ Q r.
Proof.
  intros Hbody. revert s. induction fuel as [|fuel IH]; intros s HI Hm; [lia|]. simpl.
  specialize (Hbody s HI). destruct (body s) as [s'|r]; [|by exists r].
  destruct Hbody as [HI' Hlt]. apply IH; [done|lia].
Qed.

(** ** Searches. *)

Local Open Scope string_scope.

(** [strings.Index(s, sub)]. *)
Fixpoint Index (s sub : string) : option nat :=
  if HasPrefix s sub then Some 0%nat
  else match s with
       | "" => None
       | String _ s' => S <$> Index s' sub
       end.

(** Whether a byte is one of [chars]. *)
Definition one_of (chars : string) (c : Ascii.ascii) : bool := bool_decide (is_Some (IndexByte chars c)).

(** [strings.IndexAny(s, chars)] and [strings.ContainsAny(s, chars)], of bytes. *)
Fixpoint IndexAny (s chars : string) : option nat :=
  match s with
  | "" => None
  | String c s' => if one_of chars c then Some 0%nat else S <$> IndexAny s' chars
  end.

Definition ContainsAny (s chars : string) : bool := bool_decide (is_Some (IndexAny s chars)).

(** [s[i:j]]. *)
Definition slice (s : string) (i j : nat) : string := str_take (j - i) (str_drop i s).

(** [s[len(s)-1]]. *)
Definition last_byte (s : string) : option Ascii.ascii :=
  match String.length s with
  | O => None
  | S n => String.get n s
  end.

(** [s[0]]. *)
Definition first_byte (s : string) : option Ascii.ascii := String.get 0 s.

(** ** Lemmas. *)

Lemma HasPrefix_append (sub s : string) : HasPrefix s sub = true -> s = sub ++ str_drop (String.length sub) s.
Proof. rewrite HasPrefix_spec. intros [rest ->]. f_equal. by induction sub. Qed.

Lemma str_drop_append (a b : string) : str_drop (String.length a) (a ++ b) = b.
Proof. by induction a. Qed.

Lemma Index_Some (s sub : string) (k : nat) :
  Index s sub = Some k -> s = str_take k s ++ sub ++ str_drop (k + String.length sub) s.
Proof.
  revert k. induction s as [|c s IH]; intros k; cbn [Index];
    (destruct (HasPrefix _ sub) eqn:Hp; [intros [= <-]; by apply HasPrefix_append|]); [done|].
  destruct (Index s sub) as [j|] eqn:Hj; [|done]. intros [= <-]. simpl. f_equal. by apply IH.
Qed.

Lemma Index_le (s sub : string) (k : nat) : Index s sub = Some k -> (k + String.length sub <= String.length s)%nat.
Proof.
  revert k. induction s as [|c s IH]; intros k; cbn [Index];
    (destruct (HasPrefix _ sub) eqn:Hp;
      [intros [= <-]; apply HasPrefix_append in Hp; rewrite Hp, str_length_app; lia|]); [done|].
  destruct (Index s sub) as [j|] eqn:Hj; [|done]. intros [= <-]. specialize (IH j eq_refl). simpl. lia.
Qed.

Lemma IndexAny_lt (s chars : string) (k : nat) : IndexAny s chars = Some k -> (k < String.length s)%nat.
Proof.
  revert k. induction s as [|c s IH]; intros k; [done|]. simpl. destruct (one_of chars c); [intros [= <-]; lia|].
  destruct (IndexAny s chars) as [j|]; [|done]. intros [= <-]. specialize (IH j eq_refl). lia.
Qed.

(** A cursor that goes from [i] to [j] passes the slice between them. *)
Lemma slice_drop (s : string) (i j : nat) : (i <= j)%nat -> str_drop i s = slice s i j ++ str_drop j s.
Proof.
  intros Hij. unfold slice. rewrite <- (str_take_drop (j - i) (str_drop i s)) at 1. f_equal.
  rewrite str_drop_drop. f_equal. lia.
Qed.

(** What a cursor passes, if the lengths fit. *)
Lemma slice_app (s a b : string) (i : nat) :
  str_drop i s = a ++ b -> slice s i (i + String.length a) = a /\ str_drop (i + String.length a) s = b.
Proof.
  intros H. unfold slice. replace (i + String.length a - i)%nat with (String.length a) by lia.
  rewrite <- str_drop_drop, H. split; [|by apply str_drop_append]. clear H. by induction a as [|c a IH]; [destruct b|simpl; rewrite IH].
Qed.

Lemma str_drop_nil (s : string) (i : nat) : str_drop i s = "" -> (String.length s <= i)%nat.
Proof. intros H. pose proof (str_length_drop i s) as Hl. rewrite H in Hl. simpl in Hl. lia. Qed.

Lemma str_drop_cons (s : string) (i : nat) (c : ascii) (rest : string) :
  str_drop i s = String c rest -> (i < String.length s)%nat /\ str_drop (i + 1) s = rest.
Proof.
  intros H. pose proof (str_length_drop i s) as Hl. rewrite H in Hl. simpl in Hl. split; [lia|].
  by apply (slice_app s (String c "") rest i) in H as [_ H].
Qed.

(** Induction on the length of what is left to read. *)
Lemma shorter_ind (P : string -> Prop) :
  (forall s, (forall t, (String.length t < String.length s)%nat -> P t) -> P s) -> forall s, P s.
Proof.
  intros H s. remember (String.length s) as n eqn:Hn. revert s Hn.
  induction n as [n IH] using lt_wf_ind. intros s ->. apply H. intros t Ht. by eapply IH.
Qed.
