(* ===== verification/MarkDone.v ===== *)
(** * Mark-done templates of the poller ([src/kipper-poll/markdone.go])

    A template is one SQL statement with placeholders for the columns of a row.
    It is cut into pieces once; for each row the pieces become a query text with
    parameter markers and the list of the values bound to them. *)

From Stdlib Require Import Ascii.
From stdpp Require Import base tactics numbers countable list option strings gmap pretty.
From S2P Require Import Prelude GoStd Scan.

Local Open Scope string_scope.

(** ** Bytes. *)

Definition isSpace (c : ascii) : bool := one_of (String " " (String "009" (String "010" (String "013" "")))) c.

Definition isDigit (c : ascii) : bool := is_digit c.

Definition isIdentByte (c : ascii) : bool :=
  Ascii.eqb c "_" || isDigit c || ((97 <=? Z.lor (byte_of c) 32)%Z && (Z.lor (byte_of c) 32 <=? 122)%Z).

Definition quote : ascii := "'".
Definition double_quote : ascii := "034".
Definition backtick : ascii := "`".
Definition backslash : ascii := "\".
Definition newline : ascii := "010".

(** ** Templates. *)

Inductive literalPart :=
| PartText (text : string)
| PartColumn (column : string).

Inductive markDonePiece :=
| Text (text : string)
| Value (column : string) (quoted : bool)
| Literal (parts : list literalPart).

Record markDoneTemplate := mkTemplate { driver : string; pieces : list markDonePiece }.

Inductive ParseError :=
| NotOneStatement
| AdjacentLiterals
| InPrefixedString (raw : string)
| InDoubleQuoted (raw : string)
| InIdentifier (raw : string)
| InComment (raw : string)
| InDollarQuoted (raw : string)
| UnterminatedComment
| UnterminatedDollar
| UnterminatedLiteral
| UnterminatedQuoted (q : ascii)
| NativeDollar
| NativeQuestion.

Definition hasColumn (parts : list literalPart) : bool :=
  existsb (fun p => match p with PartColumn _ => true | PartText _ => false end) parts.

(** ** Scanners. *)

Definition placeholderAt (s : string) (i : nat) : option (string * nat) :=
  close ← Index (str_drop (i + 2) s) "}}";
  let column := slice s (i + 2) (i + 2 + close) in
  if (column =? "") || ContainsAny column (String double_quote "{}'`") then None
  else Some (column, i + 2 + close + 2)%nat.

(** The tag after a dollar sign at [i], from [j] on. *)
Fixpoint tag_loop (s : string) (i j : nat) (rest : string) : option string :=
  match rest with
  | "" => None
  | String c rest' =>
      if Ascii.eqb c "$" then Some (slice s i (j + 1))
      else if negb (isIdentByte c) ||
              match String.get (i + 1) s with Some d => isDigit d | None => false end then None
      else tag_loop s i (j + 1) rest'
  end.

Definition ident_before (s : string) (i : nat) : bool :=
  match i with
  | O => false
  | S k => match String.get k s with Some c => isIdentByte c | None => false end
  end.

Definition dollarTagAt (s : string) (i : nat) : option string :=
  if ident_before s i then None else tag_loop s i (i + 1) (str_drop (i + 1) s).

Fixpoint prefix_start (s : string) (start : nat) : nat :=
  match start with
  | O => O
  | S k => if ident_before s start then prefix_start s k else start
  end.

Definition stringPrefix (s : string) (i : nat) : string := ToLower (slice s (prefix_start s i) i).

Definition hasStringPrefix (s : string) (i : nat) (mysqlDialect : bool) : bool :=
  let unicode :=
    match i with
    | S (S k) =>
        match String.get (S k) s, String.get k s with
        | Some a, Some u => Ascii.eqb a "&" && (Z.lor (byte_of u) 32 =? byte_of "u")%Z && negb (ident_before s k)
        | _, _ => false
        end
    | _ => false
    end in
  if negb mysqlDialect && unicode then true
  else
    let word := stringPrefix s i in
    if word =? "" then false
    else if mysqlDialect && HasPrefix word "_" then true
    else if (word =? "b") || (word =? "x") || (word =? "n") then true
    else (word =? "e") && negb mysqlDialect.

(** The body of [scanLiteral]'s loop: the index, the parts, the text. *)
Definition literal_body (s : string) (backslashEscapes : bool) (st : nat * list literalPart * string) :
    (nat * list literalPart * string) + result ParseError (nat * list literalPart) :=
  let '(i, parts, text) := st in
  let flushed := if text =? "" then parts else (parts ++ [PartText text])%list in
  match str_drop i s with
  | "" => inr (Err UnterminatedLiteral)
  | String c rest =>
      if Ascii.eqb c quote && HasPrefix rest "'" then inl (i + 2, parts, String.append text "''")%nat
      else if Ascii.eqb c quote then inr (Ok (i + 1, flushed)%nat)
      else if backslashEscapes && Ascii.eqb c backslash && negb (rest =? "") then
        inl (i + 2, parts, String.append text (slice s i (i + 2)))%nat
      else if HasPrefix (String c rest) "{{" then
        match placeholderAt s i with
        | None => inl (i + 1, parts, String.append text (String c ""))%nat
        | Some (column, next) => inl (next, (flushed ++ [PartColumn column])%list, "")
        end
      else inl (i + 1, parts, String.append text (String c ""))%nat
  end.

(** [None] if the fuel ran out. *)
Definition scanLiteral (s : string) (start : nat) (backslashEscapes : bool) :
    option (result ParseError (nat * list literalPart)) :=
  iterate (S (String.length s)) (literal_body s backslashEscapes) (start + 1, [], "")%nat.

(** [scanQuoted] from index [i] on. *)
Fixpoint quoted_loop (q : ascii) (mysqlDialect : bool) (i : nat) (rest : string) : result ParseError nat :=
  match rest with
  | "" => Err (UnterminatedQuoted q)
  | String c rest' =>
      if Ascii.eqb c q then
        match rest' with
        | String d rest'' => if Ascii.eqb d q then quoted_loop q mysqlDialect (i + 2) rest'' else Ok (i + 1)%nat
        | "" => Ok (i + 1)%nat
        end
      else if mysqlDialect && Ascii.eqb q double_quote && Ascii.eqb c backslash then
        match rest' with
        | String _ rest'' => quoted_loop q mysqlDialect (i + 2) rest''
        | "" => Err (UnterminatedQuoted q)
        end
      else quoted_loop q mysqlDialect (i + 1) rest'
  end.

Definition scanQuoted (s : string) (start : nat) (q : ascii) (mysqlDialect : bool) : result ParseError nat :=
  quoted_loop q mysqlDialect (start + 1) (str_drop (start + 1) s).

(** [blockCommentEnd] from index [j] on. *)
Fixpoint comment_loop (nested : bool) (depth : Z) (j : nat) (rest : string) : option nat :=
  match rest with
  | String c ((String d rest'') as rest') =>
      if Ascii.eqb c "/" && Ascii.eqb d "*" && (nested || (depth =? 0)%Z) then
        comment_loop nested (depth + 1) (j + 2) rest''
      else if Ascii.eqb c "*" && Ascii.eqb d "/" then
        if (depth - 1 =? 0)%Z then Some (j + 2)%nat else comment_loop nested (depth - 1) (j + 2) rest''
      else comment_loop nested depth (j + 1) rest'
  | _ => None
  end.

Definition blockCommentEnd (s : string) (i : nat) (nested : bool) : option nat :=
  comment_loop nested 0 i (str_drop i s).

Definition startsLineComment (s : string) (mysqlDialect : bool) : bool :=
  if negb mysqlDialect then HasPrefix s "--"
  else HasPrefix s "#" ||
       (HasPrefix s "--" &&
        match String.get 2 s with
        | None => true
        | Some c => (byte_of c <=? byte_of " ")%Z || (byte_of c =? 127)%Z
        end).

Definition startsComment (s : string) (mysqlDialect : bool) : bool :=
  HasPrefix s "--" || HasPrefix s "/*" || (mysqlDialect && HasPrefix s "#").

Definition sql_spaces : string :=
  String " " (String "009" (String "010" (String "013" (String "012" (String "011" ""))))).

Definition line_ends (mysqlDialect : bool) : string :=
  if mysqlDialect then String newline "" else String newline (String "013" "").

Definition gap_body (gap : string) (mysqlDialect : bool) (i : nat) : nat + bool :=
  match str_drop i gap with
  | "" => inr (mysqlDialect || ContainsAny gap (line_ends false))
  | String c _ as rest =>
      if one_of sql_spaces c then inl (i + 1)%nat
      else if startsLineComment rest mysqlDialect then
        match IndexAny rest (line_ends mysqlDialect) with
        | None => inr false
        | Some e => inl (i + e)%nat
        end
      else if mysqlDialect && HasPrefix rest "/*" && negb (HasPrefix rest "/*!") then
        match blockCommentEnd gap i false with
        | None => inr false
        | Some e => inl e
        end
      else inr false
  end.

Definition continuesLiteral (s : string) (prevEnd : option nat) (start : nat) (mysqlDialect : bool) : option bool :=
  match prevEnd with
  | None => Some false
  | Some e => let gap := slice s e start in iterate (S (String.length gap)) (gap_body gap mysqlDialect) 0%nat
  end.

Definition commentHasNoPlaceholder (comment : string) : result ParseError unit :=
  if Contains comment "{{" then Err (InComment comment) else Ok tt.

(** ** The parser. *)

Record Scanning := mkScanning {
  at_ : nat;
  done_ : list markDonePiece;
  text_ : string;
  ended : bool;
  lastLiteralEnd : option nat;
  lastLiteralBinds : bool;
}.

(** Copy [raw] and go on at [next]. *)
Definition copy (raw : string) (next : nat) (st : Scanning) : Scanning :=
  mkScanning next (done_ st) (String.append (text_ st) raw) (ended st) (lastLiteralEnd st) (lastLiteralBinds st).

Definition flushed (st : Scanning) : list markDonePiece :=
  if text_ st =? "" then done_ st else (done_ st ++ [Text (text_ st)])%list.

(** Flush the text, add a piece, go on at [next]. *)
Definition push (p : markDonePiece) (next : nat) (st : Scanning) : Scanning :=
  mkScanning next (flushed st ++ [p])%list "" (ended st) (lastLiteralEnd st) (lastLiteralBinds st).

Definition saw_literal (end_ : nat) (binds : bool) (st : Scanning) : Scanning :=
  mkScanning (at_ st) (done_ st) (text_ st) (ended st) (Some end_) binds.

Definition end_statement (st : Scanning) : Scanning :=
  mkScanning (at_ st) (done_ st) (text_ st) true (lastLiteralEnd st) (lastLiteralBinds st).

(** A single-quoted string at [i]. *)
Definition literal_step (mysqlDialect : bool) (template : string) (st : Scanning) :
    option (result ParseError Scanning) :=
  let i := at_ st in
  r ← scanLiteral template i (mysqlDialect || (stringPrefix template i =? "e"));
  match r with
  | Err e => Some (Err e)
  | Ok (end_, parts) =>
      let raw := slice template i end_ in
      let binds := hasColumn parts in
      adjacent ← (if binds || lastLiteralBinds st then continuesLiteral template (lastLiteralEnd st) i mysqlDialect
                  else Some false);
      if (adjacent : bool) then Some (Err AdjacentLiterals)
      else
        let st := saw_literal end_ binds st in
        if negb binds then Some (Ok (copy raw end_ st))
        else if hasStringPrefix template i mysqlDialect then Some (Err (InPrefixedString raw))
        else match parts with
             | [PartColumn column] => Some (Ok (push (Value column true) end_ st))
             | _ => Some (Ok (push (Literal parts) end_ st))
             end
  end.

(** A quoted identifier, or a double-quoted string, at [i]. *)
Definition quoted_step (mysqlDialect : bool) (template : string) (c : ascii) (st : Scanning) :
    result ParseError Scanning :=
  let i := at_ st in
  end_ ← scanQuoted template i c mysqlDialect;
  let raw := slice template i end_ in
  if Contains raw "{{" then
    Err (if Ascii.eqb c double_quote && mysqlDialect then InDoubleQuoted raw else InIdentifier raw)
  else Ok (copy raw end_ st).

Definition line_comment_step (template : string) (st : Scanning) : result ParseError Scanning :=
  let i := at_ st in
  let end_ := match IndexByte (str_drop i template) newline with
              | None => String.length template
              | Some e => (e + i)%nat
              end in
  let raw := slice template i end_ in
  _ ← commentHasNoPlaceholder raw; Ok (copy raw end_ st).

Definition block_comment_step (mysqlDialect : bool) (template : string) (st : Scanning) :
    result ParseError Scanning :=
  let i := at_ st in
  match blockCommentEnd template i (negb mysqlDialect) with
  | None => Err UnterminatedComment
  | Some end_ => let raw := slice template i end_ in _ ← commentHasNoPlaceholder raw; Ok (copy raw end_ st)
  end.

(** A dollar sign, on PostgreSQL. *)
Definition dollar_step (template : string) (st : Scanning) : result ParseError Scanning :=
  let i := at_ st in
  if match String.get (i + 1) template with Some d => isDigit d | None => false end && negb (ident_before template i)
  then Err NativeDollar
  else match dollarTagAt template i with
       | Some tag =>
           match Index (str_drop (i + String.length tag) template) tag with
           | None => Err UnterminatedDollar
           | Some e =>
               let end_ := (e + (i + 2 * String.length tag))%nat in
               let raw := slice template i end_ in
               if Contains raw "{{" then Err (InDollarQuoted raw) else Ok (copy raw end_ st)
           end
       | None => Ok (copy "$" (i + 1) st)
       end.

(** The body of [parseMarkDone]'s loop at a byte. *)
Definition parse_step (mysqlDialect : bool) (template : string) (st : Scanning) (c : ascii) (rest : string) :
    option (result ParseError Scanning) :=
  let i := at_ st in
  if ended st && negb (isSpace c) && negb (startsComment rest mysqlDialect) then Some (Err NotOneStatement)
  else if HasPrefix rest "{{" then
    match placeholderAt template i with
    | None => Some (Ok (copy (String c "") (i + 1) st))
    | Some (column, next) => Some (Ok (push (Value column false) next st))
    end
  else if Ascii.eqb c quote then literal_step mysqlDialect template st
  else if Ascii.eqb c double_quote || Ascii.eqb c backtick then Some (quoted_step mysqlDialect template c st)
  else if HasPrefix rest "--" || (mysqlDialect && Ascii.eqb c "#") then Some (line_comment_step template st)
  else if HasPrefix rest "/*" then Some (block_comment_step mysqlDialect template st)
  else if Ascii.eqb c "$" && negb mysqlDialect then Some (dollar_step template st)
  else if Ascii.eqb c "?" && mysqlDialect then Some (Err NativeQuestion)
  else if Ascii.eqb c ";" then Some (Ok (end_statement (copy (String c "") (i + 1) st)))
  else Some (Ok (copy (String c "") (i + 1) st)).

Definition parse_body (mysqlDialect : bool) (template : string) (st : Scanning) :
    Scanning + option (result ParseError (list markDonePiece)) :=
  match str_drop (at_ st) template with
  | "" => inr (Some (Ok (flushed st)))
  | String c _ as rest =>
      match parse_step mysqlDialect template st c rest with
      | None => inr None
      | Some (Err e) => inr (Some (Err e))
      | Some (Ok st') => inl st'
      end
  end.

Definition start_scanning : Scanning := mkScanning 0 [] "" false None false.

(** [None] if the fuel ran out. *)
Definition parseMarkDone (driver template : string) : option (result ParseError markDoneTemplate) :=
  r ← iterate (S (String.length template)) (parse_body (driver =? "mysql") template) start_scanning;
  r ← r;
  Some (ps ← r; Ok (mkTemplate driver ps)).

(** ** Binding. *)

Section Binding.
Context {V : Type}.

Definition is_mysql (t : markDoneTemplate) : bool := driver t =? "mysql".

(** Keep a marker from joining what precedes it. *)
Definition separate (query : string) : string :=
  match last_byte query with
  | Some c => if isIdentByte c || Ascii.eqb c "$" then String.append query " " else query
  | None => query
  end.

(** The marker of the [n]th argument, from 1. *)
Definition marker (mysqlDialect : bool) (n : nat) : string :=
  if mysqlDialect then "?" else String "$" (pretty n).

Definition param (mysqlDialect : bool) (args : list V) (value : V) : string * list V :=
  let args := (args ++ [value])%list in (marker mysqlDialect (length args), args).

Definition placeholder (column : string) : string := String.append "{{" (String.append column "}}").

Definition quoted_text (text : string) : string := String quote (String.append text (String quote "")).

(** The state of [concat]'s loop: the terms, the pending text, the arguments. *)
Fixpoint concat_loop (mysqlDialect : bool) (event : gmap string V) (parts : list literalPart)
    (terms : list string) (pending : string) (args : list V) : list string * list V :=
  let flush := if pending =? "" then terms else (terms ++ [quoted_text pending])%list in
  match parts with
  | [] => (flush, args)
  | PartText text :: parts' => concat_loop mysqlDialect event parts' terms (String.append pending text) args
  | PartColumn column :: parts' =>
      match event !! column with
      | None => concat_loop mysqlDialect event parts' terms (String.append pending (placeholder column)) args
      | Some value =>
          let '(m, args') := param mysqlDialect args value in
          concat_loop mysqlDialect event parts' (flush ++ [m])%list "" args'
      end
  end.

Definition concat (mysqlDialect : bool) (event : gmap string V) (parts : list literalPart) (args : list V) :
    string * list V :=
  let '(terms, args') := concat_loop mysqlDialect event parts [] "" args in
  (match terms with
   | [term] => term
   | _ => if mysqlDialect then String.append "CONCAT(" (String.append (Join terms ", ") ")")
          else String.append "(" (String.append (Join terms " || ") ")")
   end, args').

(** One piece: the query so far, its arguments, whether a marker ends it. *)
Definition bind_piece (mysqlDialect : bool) (event : gmap string V) (st : string * list V * bool)
    (p : markDonePiece) : string * list V * bool :=
  let '(query, args, afterMarker) := st in
  let query :=
    match p with
    | Text text =>
        match first_byte text with
        | Some c => if afterMarker && isIdentByte c then String.append query " " else query
        | None => query
        end
    | _ => query
    end in
  match p with
  | Literal parts =>
      let '(s, args') := concat mysqlDialect event parts args in
      (String.append (separate query) s, args', false)
  | Value column quoted =>
      match event !! column with
      | Some value => let '(m, args') := param mysqlDialect args value in
          (String.append (separate query) m, args', true)
      | None =>
          (String.append query (if quoted then quoted_text (placeholder column) else placeholder column), args, false)
      end
  | Text text => (String.append query text, args, false)
  end.

Definition bind (t : markDoneTemplate) (event : gmap string V) : string * list V :=
  (foldl (bind_piece (is_mysql t) event) ("", [], false) (pieces t)).1.
End Binding.
