(* ===== verification/MarkDoneProps.v ===== *)
(** * Mark-done templates: theorems

    The pieces of a template tile it, the scan always ends, row values never
    reach the text of the query, and every marker is a token of its own. *)

From Stdlib Require Import Ascii.
From stdpp Require Import base tactics numbers countable list option strings gmap pretty.
From S2P Require Import Prelude GoStd Scan MarkDone.

Local Open Scope string_scope.

(** ** The text a piece was cut from. *)

Definition raw_part (p : literalPart) : string :=
  match p with PartText text => text | PartColumn column => placeholder column end.

Definition raw_parts (parts : list literalPart) : string := concat_strings (raw_part <$> parts).

Definition raw_piece (p : markDonePiece) : string :=
  match p with
  | Text text => text
  | Value column quoted => if quoted then quoted_text (placeholder column) else placeholder column
  | Literal parts => quoted_text (raw_parts parts)
  end.

Definition raw_pieces (ps : list markDonePiece) : string := concat_strings (raw_piece <$> ps).

(** Texts are never empty, and a literal has a placeholder and something else. *)
Definition part_ok (p : literalPart) : Prop :=
  match p with PartText text => text <> "" | PartColumn column => column <> "" end.

Definition piece_ok (p : markDonePiece) : Prop :=
  match p with
  | Text text => text <> ""
  | Value column _ => column <> ""
  | Literal parts => Forall part_ok parts /\ (2 <= length parts)%nat
  end.

Lemma raw_parts_snoc parts p : raw_parts (parts ++ [p]) = raw_parts parts ++ raw_part p.
Proof. unfold raw_parts. rewrite fmap_app, concat_strings_app. simpl. by rewrite str_app_nil_r. Qed.

Lemma raw_pieces_snoc ps p : raw_pieces (ps ++ [p]) = raw_pieces ps ++ raw_piece p.
Proof. unfold raw_pieces. rewrite fmap_app, concat_strings_app. simpl. by rewrite str_app_nil_r. Qed.

(** ** Cursors. *)

Definition passes (s : string) (i j : nat) (raw : string) : Prop :=
  (i <= j <= String.length s)%nat /\ slice s i j = raw.

Lemma passes_drop s i j raw : passes s i j raw -> str_drop i s = raw ++ str_drop j s.
Proof. intros [Hij <-]. apply slice_drop. lia. Qed.

Lemma passes_app s i a b : (i <= String.length s)%nat -> str_drop i s = a ++ b -> passes s i (i + String.length a) a.
Proof.
  intros Hi H. destruct (slice_app s a b i H) as [Hs _]. split; [|done].
  pose proof (str_length_drop i s) as Hl. rewrite H, str_length_app in Hl. lia.
Qed.

Lemma passes_trans s i j k a b : passes s i j a -> passes s j k b -> passes s i k (a ++ b).
Proof.
  intros Ha Hb. pose proof (passes_drop _ _ _ _ Ha) as Hd. rewrite (passes_drop _ _ _ _ Hb), <- str_app_assoc in Hd.
  destruct Ha as [Hij Ha], Hb as [Hjk Hb]. split; [lia|].
  apply slice_app in Hd as [Hs _]. rewrite <- Hs. f_equal.
  subst a b. rewrite str_length_app. unfold slice. rewrite !str_length_take, !str_length_drop. lia.
Qed.

Lemma passes_refl s i : (i <= String.length s)%nat -> passes s i i "".
Proof. intros Hi. split; [lia|]. unfold slice. by rewrite Nat.sub_diag. Qed.

Lemma passes_slice s i j : (i <= j <= String.length s)%nat -> passes s i j (slice s i j).
Proof. done. Qed.

Lemma passes_byte s i c rest : str_drop i s = String c rest -> passes s i (i + 1) (String c "").
Proof.
  intros H. apply (passes_app s i (String c "") rest); [|done]. apply str_drop_cons in H as [? _]. lia.
Qed.

(** ** Scanners. *)

Lemma placeholderAt_passes s i column next :
  HasPrefix (str_drop i s) "{{" = true -> placeholderAt s i = Some (column, next) ->
  passes s i next (placeholder column) /\ (i < next)%nat /\ column <> "".
Proof.
  intros Hp%HasPrefix_append. simpl String.length in Hp. rewrite str_drop_drop in Hp. unfold placeholderAt.
  destruct (Index (str_drop (i + 2) s) "}}") as [close|] eqn:Hc; [|done]. cbn [mbind option_bind].
  destruct (slice s (i + 2) (i + 2 + close) =? "") eqn:Hne; [done|]. cbn [orb].
  destruct (ContainsAny _ _); [done|]. intros [= <- <-].
  apply Index_Some in Hc as Hd. simpl String.length in Hd. rewrite str_drop_drop in Hd.
  apply Index_le in Hc. rewrite str_length_drop in Hc. simpl in Hc.
  apply String.eqb_neq in Hne. split; [|split; [lia|done]].
  assert (Hs : slice s (i + 2) (i + 2 + close) = str_take close (str_drop (i + 2) s)).
  { unfold slice. f_equal. lia. }
  rewrite Hs. clear Hs Hne. set (column := str_take close _) in *.
  assert (Hl : String.length column = close) by (unfold column; rewrite str_length_take, str_length_drop; lia).
  assert (Hi : (i <= String.length s)%nat) by lia.
  replace (i + 2 + close + 2)%nat with (i + String.length (placeholder column))%nat.
  - apply (passes_app s i _ (str_drop (i + 2 + (close + 2)) s)); [done|]. rewrite Hp, Hd. unfold placeholder.
    by rewrite !str_app_assoc.
  - unfold placeholder. rewrite !str_length_app, Hl. simpl. lia.
Qed.

Lemma hasColumn_nonempty parts : hasColumn parts = true -> parts <> [].
Proof. by destruct parts. Qed.

(** What [scanLiteral] returns. *)
Definition literal_post (s : string) (start : nat) (r : result ParseError (nat * list literalPart)) : Prop :=
  match r with
  | Ok (end_, parts) => passes s start end_ (quoted_text (raw_parts parts)) /\ (start < end_)%nat /\ Forall part_ok parts
  | Err _ => True
  end.

Definition literal_inv (s : string) (start : nat) (st : nat * list literalPart * string) : Prop :=
  let '(i, parts, text) := st in
  passes s start i (String quote (raw_parts parts ++ text)) /\ (start < i)%nat /\ Forall part_ok parts.

Lemma literal_inv_text s start i j parts text raw :
  literal_inv s start (i, parts, text) -> passes s i j raw -> literal_inv s start (j, parts, text ++ raw).
Proof.
  intros (H1 & H2 & H3) Hp. split_and!; [|destruct Hp; lia|done].
  rewrite <- str_app_assoc. by apply (passes_trans s start i j (String quote (raw_parts parts ++ text)) raw).
Qed.

Lemma flushed_parts parts text :
  Forall part_ok parts ->
  let ps := if text =? "" then parts else (parts ++ [PartText text])%list in
  raw_parts ps = raw_parts parts ++ text /\ Forall part_ok ps.
Proof.
  intros Hp. destruct (String.eqb_spec text "") as [->|Hne]; cbv zeta; [by rewrite str_app_nil_r|].
  split; [apply raw_parts_snoc|]. apply Forall_app. split; [done|]. by apply Forall_singleton.
Qed.

Lemma literal_body_ok s esc start st :
  literal_inv s start st ->
  match literal_body s esc st with
  | inl st' => literal_inv s start st' /\ (String.length s - st'.1.1 < String.length s - st.1.1)%nat
  | inr r => literal_post s start r
  end.
Proof.
  destruct st as [[i parts] text]. intros Hinv. unfold literal_body. cbn [fst].
  destruct Hinv as (H1 & H2 & H3) eqn:Heq. clear Heq.
  destruct (str_drop i s) as [|c rest] eqn:Hd; [done|].
  destruct (str_drop_cons _ _ _ _ Hd) as [Hlt Hr].
  destruct (Ascii.eqb_spec c quote) as [->|Hq]; cbn [andb].
  - destruct (HasPrefix rest "'") eqn:Hp.
    + apply HasPrefix_append in Hp. set (rest' := str_drop _ rest) in Hp.
      assert (Hpass : passes s i (i + 2) "''").
      { apply (passes_app s i "''" rest'); [lia|]. by rewrite Hd, Hp. }
      split; [by apply (literal_inv_text _ _ i)|]. cbn [fst]. lia.
    + unfold literal_post. destruct (flushed_parts parts text H3) as [Hraw Hok]. split_and!; [|lia|done].
      rewrite Hraw. apply (passes_trans s start i (i + 1) (String quote (raw_parts parts ++ text))); [done|].
      by eapply passes_byte.
  - destruct (esc && Ascii.eqb c backslash && negb (rest =? "")) eqn:Hesc.
    + apply andb_true_iff in Hesc as [_ Hne]. apply negb_true_iff, String.eqb_neq in Hne.
      destruct rest as [|d rest]; [done|]. apply str_drop_cons in Hr as [Hlt' _].
      split; [|cbn [fst]; lia]. apply (literal_inv_text _ _ i); [done|]. apply passes_slice. lia.
    + destruct (HasPrefix (String c rest) "{{") eqn:Hp.
      * destruct (placeholderAt s i) as [[column next]|] eqn:Hph.
        -- rewrite <- Hd in Hp. destruct (placeholderAt_passes s i column next Hp Hph) as (Hpass & Hnext & Hne).
           destruct (flushed_parts parts text H3) as [Hraw Hok]. split; [split_and!|cbn [fst]; destruct Hpass; lia].
           ++ rewrite raw_parts_snoc, str_app_nil_r, Hraw.
              by apply (passes_trans s start i next (String quote (raw_parts parts ++ text))).
           ++ lia.
           ++ apply Forall_app. split; [done|]. by apply Forall_singleton.
        -- split; [|cbn [fst]; lia]. apply (literal_inv_text _ _ i); [done|]. by eapply passes_byte.
      * split; [|cbn [fst]; lia]. apply (literal_inv_text _ _ i); [done|]. by eapply passes_byte.
Qed.

Lemma scanLiteral_ok s start esc :
  passes s start (start + 1) "'" -> exists r, scanLiteral s start esc = Some r /\ literal_post s start r.
Proof.
  intros Hp. apply (iterate_returns (literal_inv s start) (fun st => (String.length s - st.1.1)%nat)).
  - intros st Hst. by apply (literal_body_ok s esc start st).
  - split_and!; [done|lia|done].
  - cbn [fst]. lia.
Qed.

Lemma quoted_loop_ok q my rest i end_ :
  quoted_loop q my i rest = Ok end_ -> (i < end_ <= i + String.length rest)%nat.
Proof.
  revert i. induction rest as [rest IH] using shorter_ind. intros i.
  destruct rest as [|c rest]; [done|]. cbn [String.length] in *.
  assert (Hnext : forall k t, (k <= 2)%nat -> (String.length t <= String.length rest)%nat ->
    (k + String.length t <= S (String.length rest))%nat -> (0 < k)%nat ->
    quoted_loop q my (i + k) t = Ok end_ -> (i < end_ <= i + S (String.length rest))%nat).
  { intros k t Hk Ht Hkt H0 H. apply IH in H; lia. }
  assert (H1 : quoted_loop q my (i + 1) rest = Ok end_ -> (i < end_ <= i + S (String.length rest))%nat)
    by (apply Hnext; lia).
  unfold quoted_loop. fold quoted_loop. destruct rest as [|d rest].
  - destruct (Ascii.eqb c q); [intros [= <-]; lia|]. by destruct (_ && _).
  - assert (H2 : quoted_loop q my (i + 2) rest = Ok end_ -> (i < end_ <= i + S (String.length (String d rest)))%nat)
      by (apply Hnext; simpl; lia).
    destruct (Ascii.eqb c q); [destruct (Ascii.eqb d q); [done|intros [= <-]; lia]|].
    destruct (_ && _); [done|]. exact H1.
Qed.

Lemma scanQuoted_ok s i q my end_ :
  (i < String.length s)%nat -> scanQuoted s i q my = Ok end_ -> (i < end_ <= String.length s)%nat.
Proof. intros Hi H%quoted_loop_ok. rewrite str_length_drop in H. lia. Qed.

Lemma comment_loop_ok nested rest depth j end_ :
  comment_loop nested depth j rest = Some end_ -> (j + 2 <= end_ <= j + String.length rest)%nat.
Proof.
  revert depth j. induction rest as [rest IH] using shorter_ind. intros depth j.
  destruct rest as [|c [|d rest]]; [done|done|].
  assert (H1 : comment_loop nested depth (j + 1) (String d rest) = Some end_ ->
    (j + 2 <= end_ <= j + String.length (String c (String d rest)))%nat)
    by (intros H; apply IH in H; simpl in *; lia).
  assert (H2 : forall depth', comment_loop nested depth' (j + 2) rest = Some end_ ->
    (j + 2 <= end_ <= j + String.length (String c (String d rest)))%nat)
    by (intros depth' H; apply IH in H; simpl in *; lia).
  unfold comment_loop. fold comment_loop.
  destruct (_ && _); [apply H2|]. destruct (_ && _); [|exact H1].
  destruct (_ =? 0)%Z; [intros [= <-]; simpl; lia|apply H2].
Qed.

Lemma blockCommentEnd_ok s i nested end_ :
  blockCommentEnd s i nested = Some end_ -> (i + 2 <= end_)%nat /\ ((i <= String.length s)%nat -> (end_ <= String.length s)%nat).
Proof. intros H%comment_loop_ok. rewrite str_length_drop in H. lia. Qed.

Lemma tag_loop_ok s i rest j tag :
  tag_loop s i j rest = Some tag -> (i < j)%nat -> exists e, tag = slice s i e /\ (j < e)%nat.
Proof.
  revert j. induction rest as [|c rest IH]; intros j; cbn [tag_loop]; [done|].
  destruct (Ascii.eqb c "$"); [intros [= <-] Hj; exists (j + 1)%nat; split; [done|lia]|].
  destruct (_ || _); [done|]. intros H Hj. destruct (IH _ H) as (e & -> & He); [lia|]. exists e. split; [done|lia].
Qed.

Lemma gap_body_ok gap my i :
  (i <= String.length gap)%nat ->
  match gap_body gap my i with
  | inl i' => (i' <= String.length gap)%nat /\ (String.length gap - i' < String.length gap - i)%nat
  | inr _ => True
  end.
Proof.
  intros Hi. unfold gap_body. destruct (str_drop i gap) as [|c rest] eqn:Hd; [done|].
  destruct (str_drop_cons _ _ _ _ Hd) as [Hlt _]. pose proof (str_length_drop i gap) as Hl. rewrite Hd in Hl.
  destruct (one_of sql_spaces c); [lia|]. destruct (startsLineComment _ _) eqn:Hs.
  - destruct (IndexAny _ _) as [e|] eqn:He; [|done]. apply IndexAny_lt in He as Hlt'.
    assert (e <> 0)%nat; [|lia]. intros ->. cbn [IndexAny] in He.
    assert (Hc : c = "-"%char \/ c = "#"%char).
    { unfold startsLineComment in Hs. destruct my; cbn [negb] in Hs; simpl in Hs.
      - apply orb_true_iff in Hs as [Hs|Hs]; [right|left]; repeat (apply andb_true_iff in Hs as [Hs ?]);
          symmetry; by apply Ascii.eqb_eq.
      - left. apply andb_true_iff in Hs as [Hs _]. symmetry. by apply Ascii.eqb_eq. }
    assert (Hno : one_of (line_ends my) c = false) by (by destruct my, Hc as [-> | ->]).
    rewrite Hno in He. by destruct (IndexAny rest _).
  - destruct (_ && _); [|done]. destruct (blockCommentEnd gap i false) as [e|] eqn:He; [|done].
    apply blockCommentEnd_ok in He. lia.
Qed.

Lemma continuesLiteral_total s prevEnd start my : exists b, continuesLiteral s prevEnd start my = Some b.
Proof.
  unfold continuesLiteral. destruct prevEnd as [e|]; [|by eexists]. set (gap := slice s e start).
  destruct (iterate_returns (fun i => i <= String.length gap)%nat (fun i => String.length gap - i)%nat
    (fun _ : bool => True) (gap_body gap my) (S (String.length gap)) 0%nat) as (b & Hb & _);
    [by apply gap_body_ok|lia|lia|by exists b].
Qed.

(** ** The parser. *)

Definition scanning_ok (template : string) (st : Scanning) : Prop :=
  passes template 0 (at_ st) (raw_pieces (done_ st) ++ text_ st) /\ Forall piece_ok (done_ st).

(** One step: a consistent state further on, or an error. *)
Definition step_ok (template : string) (i : nat) (r : result ParseError Scanning) : Prop :=
  match r with
  | Ok st' => scanning_ok template st' /\ (i < at_ st')%nat
  | Err _ => True
  end.

Lemma copy_ok template st raw next :
  scanning_ok template st -> passes template (at_ st) next raw -> (at_ st < next)%nat ->
  step_ok template (at_ st) (Ok (copy raw next st)).
Proof.
  intros [H1 H2] Hp Hlt. split; [|done]. split; [|done]. cbn [copy at_ done_ text_].
  rewrite <- str_app_assoc. by apply (passes_trans template 0 (at_ st) next).
Qed.

Lemma flushed_ok st :
  Forall piece_ok (done_ st) ->
  raw_pieces (flushed st) = raw_pieces (done_ st) ++ text_ st /\ Forall piece_ok (flushed st).
Proof.
  intros H. unfold flushed. destruct (String.eqb_spec (text_ st) "") as [->|Hne]; [by rewrite str_app_nil_r|].
  split; [apply raw_pieces_snoc|]. apply Forall_app. split; [done|]. by apply Forall_singleton.
Qed.

Lemma push_ok template st p next :
  scanning_ok template st -> passes template (at_ st) next (raw_piece p) -> (at_ st < next)%nat -> piece_ok p ->
  step_ok template (at_ st) (Ok (push p next st)).
Proof.
  intros [H1 H2] Hp Hlt Hok. destruct (flushed_ok st H2) as [Hraw Hf]. split; [|done].
  split; cbn [push at_ done_ text_].
  - rewrite raw_pieces_snoc, str_app_nil_r, Hraw. by apply (passes_trans template 0 (at_ st) next).
  - apply Forall_app. split; [done|]. by apply Forall_singleton.
Qed.

Lemma literal_step_ok my template st rest :
  scanning_ok template st -> str_drop (at_ st) template = String quote rest ->
  exists r, literal_step my template st = Some r /\ step_ok template (at_ st) r.
Proof.
  intros Hst Hd. unfold literal_step. set (i := at_ st) in *.
  destruct (scanLiteral_ok template i (my || (stringPrefix template i =? "e"))) as (r & -> & Hr);
    [by eapply passes_byte|]. cbn [mbind option_bind].
  destruct r as [[end_ parts]|e]; [|by eexists]. destruct Hr as (Hp & Hlt & Hparts).
  destruct (continuesLiteral_total template (lastLiteralEnd st) i my) as [b Hb].
  assert (Ha : exists b, (if hasColumn parts || lastLiteralBinds st
    then continuesLiteral template (lastLiteralEnd st) i my else Some false) = Some b)
    by (destruct (_ || _); [by exists b|by eexists]).
  destruct Ha as [[] ->]; cbn [mbind option_bind]; [by eexists|].
  assert (Hsl : slice template i end_ = quoted_text (raw_parts parts)) by apply Hp.
  destruct (hasColumn parts) eqn:Hc; cbn [negb].
  - destruct (hasStringPrefix template i my); [by eexists|].
    assert (Hlit : (2 <= length parts)%nat -> step_ok template i
      (Ok (push (Literal parts) end_ (saw_literal end_ true st)))) by (intros Hl; by apply (push_ok template (saw_literal end_ true st))).
    destruct parts as [|[text|column] [|p parts]]; try done;
      (eexists; split; [done|]); try (apply Hlit; simpl; lia).
    apply (push_ok template (saw_literal end_ true st)); try done.
    + change (passes template i end_ (quoted_text (placeholder column))).
      unfold raw_parts in Hp. simpl in Hp. by rewrite str_app_nil_r in Hp.
    + exact (Forall_inv Hparts).
  - eexists. split; [done|]. rewrite Hsl. by apply (copy_ok template (saw_literal end_ false st)).
Qed.

Lemma quoted_step_ok my template st c rest :
  scanning_ok template st -> str_drop (at_ st) template = String c rest ->
  step_ok template (at_ st) (quoted_step my template c st).
Proof.
  intros Hst Hd. apply str_drop_cons in Hd as [Hlt _]. unfold quoted_step.
  destruct (scanQuoted _ _ _ _) as [end_|] eqn:Hs; [|done]. apply scanQuoted_ok in Hs; [|done].
  cbn [mbind result_bind]. destruct (Contains _ _); [done|]. apply copy_ok; [done| |lia]. apply passes_slice. lia.
Qed.

Lemma line_comment_step_ok template st c rest :
  scanning_ok template st -> str_drop (at_ st) template = String c rest -> Ascii.eqb c newline = false ->
  step_ok template (at_ st) (line_comment_step template st).
Proof.
  intros Hst Hd Hc. pose proof (str_drop_cons _ _ _ _ Hd) as [Hlt _]. unfold line_comment_step.
  set (end_ := match IndexByte (str_drop (at_ st) template) newline with
    | None => String.length template | Some e => (e + at_ st)%nat end).
  assert (He : (at_ st < end_ <= String.length template)%nat).
  { unfold end_. destruct (IndexByte _ _) as [e|] eqn:Hi; [|lia]. pose proof (IndexByte_lt _ _ _ Hi) as Hl.
    rewrite str_length_drop in Hl. rewrite Hd in Hi. cbn [IndexByte] in Hi. rewrite Hc in Hi.
    destruct (IndexByte rest newline); [|done]. injection Hi as <-. lia. }
  destruct (commentHasNoPlaceholder _); [|done]. apply copy_ok; [done| |lia]. apply passes_slice. lia.
Qed.

Lemma block_comment_step_ok my template st c rest :
  scanning_ok template st -> str_drop (at_ st) template = String c rest ->
  step_ok template (at_ st) (block_comment_step my template st).
Proof.
  intros Hst Hd. apply str_drop_cons in Hd as [Hlt _]. unfold block_comment_step.
  destruct (blockCommentEnd _ _ _) as [end_|] eqn:He; [|done]. apply blockCommentEnd_ok in He.
  destruct (commentHasNoPlaceholder _); [|done]. apply copy_ok; [done| |lia]. apply passes_slice. lia.
Qed.

Lemma dollar_step_ok template st rest :
  scanning_ok template st -> str_drop (at_ st) template = String "$" rest ->
  step_ok template (at_ st) (dollar_step template st).
Proof.
  intros Hst Hd. pose proof (str_drop_cons _ _ _ _ Hd) as [Hlt _]. unfold dollar_step.
  destruct (_ && _); [done|]. destruct (dollarTagAt template (at_ st)) as [tag|] eqn:Ht.
  - destruct (Index _ tag) as [e|] eqn:He; [|done]. apply Index_le in He. rewrite str_length_drop in He.
    destruct (Contains _ _); [done|].
    assert (Htag : (0 < String.length tag)%nat).
    { unfold dollarTagAt in Ht. destruct (ident_before _ _); [done|]. apply tag_loop_ok in Ht as (k & -> & Hk); [|lia].
      unfold slice. rewrite str_length_take, str_length_drop. lia. }
    apply copy_ok; [done| |lia]. apply passes_slice. lia.
  - apply copy_ok; [done|by eapply passes_byte|lia].
Qed.

Lemma parse_step_ok my template st c rest :
  scanning_ok template st -> str_drop (at_ st) template = String c rest ->
  exists r, parse_step my template st c (String c rest) = Some r /\ step_ok template (at_ st) r.
Proof.
  intros Hst Hd. unfold parse_step.
  assert (Hbyte : step_ok template (at_ st) (Ok (copy (String c "") (at_ st + 1) st)))
    by (apply copy_ok; [done|by eapply passes_byte|lia]).
  destruct (_ && _ && _); [by eexists|]. destruct (HasPrefix (String c rest) "{{") eqn:Hp.
  { rewrite <- Hd in Hp. destruct (placeholderAt template (at_ st)) as [[column next]|] eqn:Hph; eexists; (split; [done|]); [|done].
    destruct (placeholderAt_passes _ _ _ _ Hp Hph) as (H1 & H2 & H3). by apply push_ok. }
  destruct (Ascii.eqb_spec c quote) as [->|Hq]; [by eapply literal_step_ok|].
  destruct (_ || _); [eexists; split; [done|by eapply quoted_step_ok]|].
  destruct (HasPrefix (String c rest) "--" || (my && Ascii.eqb c "#")) eqn:Hl.
  { eexists. split; [done|]. eapply line_comment_step_ok; [done|done|].
    apply orb_true_iff in Hl as [Hl|Hl].
    - cbn [HasPrefix] in Hl. apply andb_true_iff in Hl as [Hl _]. by apply Ascii.eqb_eq in Hl as <-.
    - apply andb_true_iff in Hl as [_ Hl]. by apply Ascii.eqb_eq in Hl as ->. }
  destruct (HasPrefix (String c rest) "/*"); [eexists; split; [done|by eapply block_comment_step_ok]|].
  destruct (Ascii.eqb_spec c "$") as [->|Hne]; cbn [andb].
  - destruct my; cbn [negb]; [|eexists; split; [done|by eapply dollar_step_ok]].
    eexists. split; [reflexivity|]. exact Hbyte.
  - destruct (Ascii.eqb c "?" && my); [eexists; split; [reflexivity|exact I]|].
    destruct (Ascii.eqb c ";"); eexists; (split; [reflexivity|]); exact Hbyte.
Qed.

(** The scan ends, and the pieces tile the template. *)
Lemma parse_ok driver template :
  exists r, parseMarkDone driver template = Some r /\
    match r with
    | Ok t => MarkDone.driver t = driver /\ raw_pieces (pieces t) = template /\ Forall piece_ok (pieces t)
    | Err _ => True
    end.
Proof.
  set (my := driver =? "mysql").
  destruct (iterate_returns (scanning_ok template) (fun st => String.length template - at_ st)%nat
    (fun r => exists r', r = Some r' /\ match r' with
       | Ok ps => raw_pieces ps = template /\ Forall piece_ok ps | Err _ => True end)
    (parse_body my template) (S (String.length template)) start_scanning) as (r & Hr & r' & -> & Hpost).
  - intros st Hst. unfold parse_body. destruct (str_drop (at_ st) template) as [|c rest] eqn:Hd.
    + eexists. split; [done|]. destruct Hst as [H1 H2]. destruct (flushed_ok st H2) as [Hraw Hf]. split; [|done].
      rewrite Hraw. apply passes_drop in H1. rewrite Hd, str_app_nil_r in H1. done.
    + destruct (parse_step_ok my template st c rest Hst Hd) as (r & -> & Hr). destruct r as [st'|e]; [|by eexists].
      destruct Hr as [Hst' Hlt]. split; [done|]. destruct Hst' as [[Hle _] _]. lia.
  - split; [|by apply Forall_nil]. apply (passes_refl template 0). lia.
  - simpl. lia.
  - unfold parseMarkDone. fold my. rewrite Hr. cbn [mbind option_bind]. destruct r' as [ps|e]; eexists; (split; [done|]); done.
Qed.

(** ** Arguments. *)

Definition part_column (p : literalPart) : option string :=
  match p with PartText _ => None | PartColumn column => Some column end.

Definition piece_columns (p : markDonePiece) : list string :=
  match p with
  | Text _ => []
  | Value column _ => [column]
  | Literal parts => omap part_column parts
  end.

(** The placeholders of a template, in order. *)
Definition columns (ps : list markDonePiece) : list string := ps ≫= piece_columns.

Section Arguments.
Context {V : Type}.
Variable my : bool.
Variable event : gmap string V.

Definition values (cs : list string) : list V := omap (fun c => event !! c) cs.

Lemma concat_loop_args parts terms pending args :
  (concat_loop my event parts terms pending args).2 = (args ++ values (omap part_column parts))%list.
Proof.
  revert terms pending args. induction parts as [|[text|column] parts IH]; intros terms pending args.
  - by rewrite app_nil_r.
  - apply IH.
  - cbn [concat_loop omap list_omap part_column]. unfold values in *. cbn [omap list_omap].
    destruct (event !! column) as [v|] eqn:Hv; [|by rewrite IH]. cbn [param]. rewrite IH, <- (assoc_L (++)%list). done.
Qed.

Lemma bind_piece_args query args b p :
  (bind_piece my event (query, args, b) p).1.2 = (args ++ values (piece_columns p))%list.
Proof.
  destruct p as [text|column quoted|parts]; cbn [bind_piece piece_columns].
  - by rewrite app_nil_r.
  - unfold values. cbn [omap list_omap]. destruct (event !! column); [done|]. cbn [fst snd]. by rewrite app_nil_r.
  - unfold concat. pose proof (concat_loop_args parts [] "" args) as H.
    destruct (concat_loop _ _ _ _ _ _) as [terms args']. cbn [fst snd] in *. done.
Qed.

Lemma bind_pieces_args ps st :
  (foldl (bind_piece my event) st ps).1.2 = (st.1.2 ++ values (columns ps))%list.
Proof.
  revert st. induction ps as [|p ps IH]; intros [[query args] b]; [by rewrite app_nil_r|].
  cbn [foldl]. rewrite IH, bind_piece_args. unfold columns, values. cbn [mbind list_bind].
  by rewrite omap_app, <- (assoc_L (++)%list).
Qed.
End Arguments.

(** ** The query does not depend on the values. *)

Section Independence.
Context {V W : Type}.
Variable my : bool.
Variable e1 : gmap string V.
Variable e2 : gmap string W.
Hypothesis same_columns : forall c, is_Some (e1 !! c) <-> is_Some (e2 !! c).

Lemma same_lookup c :
  (exists v w, e1 !! c = Some v /\ e2 !! c = Some w) \/ (e1 !! c = None /\ e2 !! c = None).
Proof using same_columns.
  specialize (same_columns c). destruct (e1 !! c) as [v|], (e2 !! c) as [w|].
  - left. by exists v, w.
  - destruct same_columns as [H _]. by destruct H.
  - destruct same_columns as [_ H]. by destruct H.
  - by right.
Qed.

Lemma concat_loop_same parts terms pending a1 a2 :
  length a1 = length a2 ->
  (concat_loop my e1 parts terms pending a1).1 = (concat_loop my e2 parts terms pending a2).1 /\
  length (concat_loop my e1 parts terms pending a1).2 = length (concat_loop my e2 parts terms pending a2).2.
Proof using same_columns.
  revert terms pending a1 a2. induction parts as [|[text|column] parts IH]; intros terms pending a1 a2 Hl;
    cbn [concat_loop]; [done|by apply IH|].
  destruct (same_lookup column) as [(v & w & -> & ->)|[-> ->]]; [|by apply IH].
  cbn [param]. rewrite !length_app, Hl. apply IH. by rewrite !length_app, Hl.
Qed.

(** What binding keeps equal: the query, the number of arguments, the flag. *)
Definition same_bound (s1 : string * list V * bool) (s2 : string * list W * bool) : Prop :=
  s1.1.1 = s2.1.1 /\ length s1.1.2 = length s2.1.2 /\ s1.2 = s2.2.

Lemma bind_piece_same s1 s2 p :
  same_bound s1 s2 -> same_bound (bind_piece my e1 s1 p) (bind_piece my e2 s2 p).
Proof using same_columns.
  destruct s1 as [[q1 a1] b1], s2 as [[q2 a2] b2]. intros (Hq & Ha & Hb). cbn [fst snd] in Hq, Ha, Hb. subst q2 b2.
  destruct p as [text|column quoted|parts]; cbn [bind_piece]; [done| |].
  - destruct (same_lookup column) as [(v & w & -> & ->)|[-> ->]]; [|done].
    unfold same_bound. cbn [param fst snd]. by rewrite !length_app, Ha.
  - unfold concat. pose proof (concat_loop_same parts [] "" a1 a2 Ha) as [H1 H2].
    destruct (concat_loop my e1 _ _ _ _) as [terms1 a1'], (concat_loop my e2 _ _ _ _) as [terms2 a2'].
    cbn [fst snd] in H1, H2. by subst.
Qed.

Lemma bind_pieces_same ps s1 s2 :
  same_bound s1 s2 -> same_bound (foldl (bind_piece my e1) s1 ps) (foldl (bind_piece my e2) s2 ps).
Proof using same_columns. revert s1 s2. induction ps as [|p ps IH]; [done|]. intros s1 s2 H. by apply IH, bind_piece_same. Qed.
End Independence.

(** Row values stay out of the query. The text of a bound query depends on
    which columns the row has and on nothing else of it: two rows, of any types
    of values, that have the same columns give the same text, so no value can
    change the statement. The values go into the argument list: one for each
    placeholder whose column the row has, in the order of the placeholders. *)
Theorem row_values_stay_out {V W : Type} (t : markDoneTemplate) (e1 : gmap string V) (e2 : gmap string W)
    (Hsame : forall c, is_Some (e1 !! c) <-> is_Some (e2 !! c)) :
  (bind t e1).1 = (bind t e2).1 /\ (bind t e1).2 = omap (fun c => e1 !! c) (columns (pieces t)).
Proof.
  split.
  - by apply (bind_pieces_same (is_mysql t) e1 e2 Hsame (pieces t) ("", [], false) ("", [], false)).
  - unfold bind. by rewrite bind_pieces_args.
Qed.

(** ** Rows without the columns. *)

Lemma raw_parts_nonempty parts : Forall part_ok parts -> parts <> [] -> raw_parts parts <> "".
Proof.
  intros H Hne. destruct H as [|p parts Hp _]; [done|]. unfold raw_parts. cbn [fmap list_fmap concat_strings foldr].
  intros Heq. apply str_app_eq_nil in Heq as [Heq _]. destruct p as [text|column]; [done|]. by destruct column.
Qed.

Section Unbound.
Context {V : Type}.
Variable my : bool.
Variable event : gmap string V.

Lemma concat_loop_unbound parts pending args :
  Forall (fun c => event !! c = None) (omap part_column parts) -> raw_parts parts <> "" \/ pending <> "" ->
  concat_loop my event parts [] pending args = ([quoted_text (pending ++ raw_parts parts)], args).
Proof.
  revert pending. induction parts as [|[text|column] parts IH]; intros pending Hc Hne.
  - destruct Hne as [|Hne]; [done|]. cbn [concat_loop]. apply String.eqb_neq in Hne. rewrite Hne. simpl. by rewrite str_app_nil_r.
  - cbn [concat_loop]. unfold raw_parts. cbn [fmap list_fmap concat_strings foldr raw_part].
    fold (raw_parts parts). rewrite <- str_app_assoc.
    destruct (decide (raw_parts parts = "")) as [He|He]; [|apply IH; [done|by left]].
    destruct (decide (pending ++ text = "")) as [Hp|Hp]; [|apply IH; [done|by right]].
    apply str_app_eq_nil in Hp as [-> ->]. destruct Hne as [Hne|]; [|done]. destruct Hne.
    unfold raw_parts. cbn [fmap list_fmap concat_strings foldr raw_part]. by fold (raw_parts parts).
  - cbn [omap list_omap part_column] in Hc. apply Forall_cons in Hc as [Hv Hc].
    cbn [concat_loop]. rewrite Hv. unfold raw_parts. cbn [fmap list_fmap concat_strings foldr raw_part].
    fold (raw_parts parts). rewrite <- str_app_assoc. apply IH; [done|]. right.
    intros H. apply str_app_eq_nil in H as [_ H]. done.
Qed.

Lemma bind_piece_unbound query args p :
  piece_ok p -> Forall (fun c => event !! c = None) (piece_columns p) ->
  ((exists parts, p = Literal parts) -> separate query = query) ->
  bind_piece my event (query, args, false) p = (query ++ raw_piece p, args, false).
Proof.
  intros Hok Hc Hs. destruct p as [text|column quoted|parts]; cbn [bind_piece].
  - by destruct (first_byte text).
  - apply Forall_cons in Hc as [-> _]. done.
  - destruct Hok as [Hp Hl]. unfold concat. rewrite concat_loop_unbound; [|done|].
    + rewrite Hs by (by exists parts). done.
    + left. apply raw_parts_nonempty; [done|]. destruct parts; [simpl in Hl; lia|done].
Qed.

Lemma bind_pieces_unbound ps query args :
  Forall piece_ok ps -> Forall (fun c => event !! c = None) (columns ps) ->
  (forall before parts after, ps = (before ++ Literal parts :: after)%list ->
     separate (query ++ raw_pieces before) = query ++ raw_pieces before) ->
  foldl (bind_piece my event) (query, args, false) ps = (query ++ raw_pieces ps, args, false).
Proof.
  intros Hok. revert query. induction Hok as [|p ps Hp Hok IH]; intros query Hc Hs.
  - unfold raw_pieces. simpl. by rewrite str_app_nil_r.
  - unfold columns in Hc. cbn [mbind list_bind] in Hc. apply Forall_app in Hc as [Hc1 Hc2]. cbn [foldl].
    assert (Hraw : forall l, raw_pieces (p :: l) = raw_piece p ++ raw_pieces l) by done.
    rewrite bind_piece_unbound; [|done|done|].
    + rewrite IH; [by rewrite str_app_assoc|done|]. intros before parts after ->.
      rewrite str_app_assoc, <- Hraw. by apply (Hs (p :: before) parts after).
    + intros [parts ->]. pose proof (Hs [] parts ps eq_refl) as H. unfold raw_pieces in H. simpl in H.
      by rewrite str_app_nil_r in H.
Qed.
End Unbound.

(** A template is scanned completely and given back unchanged. Parsing ends
    for every template; if it succeeds the pieces tile the template, byte for
    byte; and for a row with none of the columns the query is the template
    itself, without arguments (but for the space that keeps a literal with
    placeholders from joining a word before it). *)
Theorem template_reproduced (driver template : string) :
  exists r, parseMarkDone driver template = Some r /\
    forall t, r = Ok t ->
      raw_pieces (pieces t) = template /\
      forall (V : Type) (event : gmap string V),
        (forall c, c ∈ columns (pieces t) -> event !! c = None) ->
        (forall before parts after, pieces t = (before ++ Literal parts :: after)%list ->
           separate (raw_pieces before) = raw_pieces before) ->
        bind t event = (template, []).
Proof.
  destruct (parse_ok driver template) as (r & -> & Hr). exists r. split; [done|]. intros t ->.
  destruct Hr as (_ & Hraw & Hok). split; [done|]. intros V event Hc Hs. unfold bind.
  rewrite bind_pieces_unbound; [by rewrite <- Hraw|done|by apply Forall_forall|done].
Qed.

(** ** Markers. *)

(** Bytes that would make a marker part of the token before or after it. *)
Definition ends_token (s : string) : Prop :=
  forall c, last_byte s = Some c -> isIdentByte c = false /\ c <> "$"%char.

Definition starts_token (s : string) : Prop := forall c, first_byte s = Some c -> isIdentByte c = false.

(** A query with [n] markers, numbered in order, each a token of its own; [b]
    if it ends with one. *)
Inductive woven (my : bool) : string -> nat -> bool -> Prop :=
| woven_start text : woven my text 0 false
| woven_marker query n b :
    woven my query n b -> ends_token query -> woven my (query ++ marker my (S n)) (S n) true
| woven_text query n b text :
    woven my query n b -> text <> "" -> (b = true -> my = false -> starts_token text) -> woven my (query ++ text) n false.

Lemma last_byte_append s c : last_byte (s ++ String c "") = Some c.
Proof. unfold last_byte. rewrite str_length_app. simpl. rewrite Nat.add_1_r. by induction s. Qed.

Lemma last_byte_app s t : t <> "" -> last_byte (s ++ t) = last_byte t.
Proof.
  intros Ht. unfold last_byte. rewrite str_length_app. destruct t as [|c t]; [done|].
  replace (String.length s + String.length (String c t))%nat with (S (String.length s + String.length t)) by (simpl; lia).
  cbn [String.length]. clear Ht. induction s as [|d s IH]; [done|]. simpl. exact IH.
Qed.

Lemma separate_ends_token s : ends_token (separate s).
Proof.
  unfold separate, ends_token. destruct (last_byte s) as [c|] eqn:Hl.
  - destruct (isIdentByte c || Ascii.eqb c "$") eqn:Hc.
    + intros d. rewrite last_byte_append. intros [= <-]. by split.
    + intros d. rewrite Hl. intros [= <-]. apply orb_false_iff in Hc as [Hc Hd]. split; [done|].
      by apply Ascii.eqb_neq.
  - intros c. by rewrite Hl.
Qed.

Lemma woven_separate my query n b : woven my query n b -> exists b', woven my (separate query) n b'.
Proof.
  intros H. unfold separate. destruct (last_byte query) as [c|]; [|by exists b].
  destruct (_ || _); [|by exists b]. exists false. eapply woven_text; [done|done|]. intros _ _ d [= <-]. done.
Qed.

(** The terms of a concatenation, with the markers from [n] to [m]. *)
Inductive terms_of (my : bool) (n : nat) : list string -> nat -> Prop :=
| terms_nil : terms_of my n [] n
| terms_text ts m text : terms_of my n ts m -> terms_of my n (ts ++ [quoted_text text]) m
| terms_marker ts m : terms_of my n ts m -> terms_of my n (ts ++ [marker my (S m)]) (S m).

Lemma Join_snoc ts t sep : Join (ts ++ [t])%list sep = match ts with [] => t | _ => Join ts sep ++ sep ++ t end.
Proof.
  induction ts as [|a ts IH]; [done|]. destruct ts as [|b ts]; [done|].
  change (Join ((a :: b :: ts) ++ [t])%list sep) with (a ++ sep ++ Join ((b :: ts) ++ [t])%list sep).
  rewrite IH. change (Join (a :: b :: ts) sep) with (a ++ sep ++ Join (b :: ts) sep). by rewrite !str_app_assoc.
Qed.

Lemma starts_token_cons c s : isIdentByte c = false -> starts_token (String c s).
Proof. intros H d [= <-]. done. Qed.

Lemma woven_terms my query n ts m c rest :
  let sep := String c rest in
  terms_of my n ts m -> woven my query n false -> ends_token query -> isIdentByte c = false -> ends_token sep ->
  exists b, woven my (query ++ Join ts sep) m b.
Proof.
  intros sep Ht Hq Hend Hc Hsend.
  assert (Hst : forall s, starts_token (sep ++ s)) by (intros s; by apply starts_token_cons).
  assert (Hgap : forall ts m b, woven my (query ++ Join ts sep) m b ->
    exists b', woven my (query ++ match ts with [] => "" | _ => Join ts sep ++ sep end) m b' /\
      ends_token (query ++ match ts with [] => "" | _ => Join ts sep ++ sep end)).
  { intros ts' m' b Hw. destruct ts' as [|t ts'].
    - exists b. simpl in *. by rewrite str_app_nil_r in *.
    - exists false. rewrite <- str_app_assoc. split; [eapply woven_text; [done|done|]|].
      + intros _ _. rewrite <- (str_app_nil_r sep). apply Hst.
      + intros d. rewrite last_byte_app by done. apply Hsend. }
  assert (Hsnoc : forall ts t, query ++ Join (ts ++ [t])%list sep =
    (query ++ match ts with [] => "" | _ => Join ts sep ++ sep end) ++ t).
  { intros ts' t. rewrite Join_snoc. destruct ts'; [by rewrite str_app_nil_r|]. by rewrite !str_app_assoc. }
  induction Ht as [|ts m text Ht [b IH]|ts m Ht [b IH]].
  - exists false. simpl. by rewrite str_app_nil_r.
  - rewrite Hsnoc. destruct (Hgap ts m b IH) as (b' & Hw & _). exists false. eapply woven_text; [done|done|].
    intros _ _. by apply starts_token_cons.
  - rewrite Hsnoc. destruct (Hgap ts m b IH) as (b' & Hw & He). exists true. by eapply woven_marker.
Qed.

Section Weaving.
Context {V : Type}.
Variable my : bool.
Variable event : gmap string V.

Lemma flush_terms n terms m pending :
  terms_of my n terms m -> terms_of my n (if pending =? "" then terms else (terms ++ [quoted_text pending])%list) m.
Proof. intros H. destruct (pending =? ""); [done|by constructor]. Qed.

Lemma concat_loop_terms n parts terms pending args :
  terms_of my n terms (length args) ->
  let r := concat_loop my event parts terms pending args in terms_of my n r.1 (length r.2).
Proof.
  revert terms pending args. induction parts as [|[text|column] parts IH]; intros terms pending args Ht; cbn [concat_loop].
  - by apply flush_terms.
  - by apply IH.
  - destruct (event !! column) as [v|]; [|by apply IH]. cbn [param]. apply IH.
    rewrite length_app, Nat.add_1_r. constructor. by apply flush_terms.
Qed.

(** Every part leaves a term, unless it is still pending. *)
Lemma concat_loop_grows parts terms pending args :
  Forall part_ok parts ->
  (length terms + (if decide (pending = "" /\ parts = []) then 0 else 1) <=
   length (concat_loop my event parts terms pending args).1)%nat.
Proof.
  intros Hok. revert terms pending args. induction Hok as [|p parts Hp _ IH]; intros terms pending args.
  - cbn [concat_loop fst]. destruct (String.eqb_spec pending "") as [->|Hne].
    + rewrite decide_True by done. lia.
    + rewrite decide_False by (by intros [? _]). rewrite length_app. simpl. lia.
  - rewrite decide_False by (by intros [_ ?]). destruct p as [text|column]; cbn [concat_loop].
    + pose proof (IH terms (pending ++ text) args) as H. rewrite decide_False in H; [done|].
      intros [He _]. by apply str_app_eq_nil in He as [_ He].
    + destruct (event !! column) as [v|]; cbn [param].
      * etransitivity; [|apply IH]. rewrite length_app. destruct (pending =? ""); rewrite ?length_app; simpl; lia.
      * pose proof (IH terms (pending ++ placeholder column) args) as H. rewrite decide_False in H; [done|].
        intros [He _]. apply str_app_eq_nil in He as [_ He]. done.
Qed.

(** A literal with two parts or more is one text, or at least two terms. *)
Lemma concat_loop_terms_two parts pending args :
  Forall part_ok parts -> (pending <> "" /\ parts <> [] \/ (2 <= length parts)%nat) ->
  let r := concat_loop my event parts [] pending args in
  (exists text, r.1 = [quoted_text text] /\ r.2 = args) \/ (2 <= length r.1)%nat.
Proof.
  intros Hok. revert pending args. induction Hok as [|p parts Hp Hok IH]; intros pending args Hl; cbv zeta.
  { destruct Hl as [[_ Hl]|Hl]; [done|simpl in Hl; lia]. }
  assert (Hlast : forall text, text <> "" -> parts = [] ->
    (exists t, (concat_loop my event parts [] text args).1 = [quoted_text t] /\
       (concat_loop my event parts [] text args).2 = args)).
  { intros text Hne ->. exists text. cbn [concat_loop fst snd]. by apply String.eqb_neq in Hne as ->. }
  assert (Htext : forall text, text <> "" ->
    (exists t, (concat_loop my event parts [] text args).1 = [quoted_text t] /\
       (concat_loop my event parts [] text args).2 = args) \/
    (2 <= length (concat_loop my event parts [] text args).1)%nat).
  { intros text Hne. destruct (decide (parts = [])) as [He|He]; [left; by apply Hlast|]. apply IH. by left. }
  destruct p as [text|column]; cbn [concat_loop].
  - apply Htext. intros He. by apply str_app_eq_nil in He as [_ He].
  - destruct (event !! column) as [v|]; cbn [param].
    + right. etransitivity; [|by apply concat_loop_grows]. rewrite length_app. cbn [length].
      destruct Hl as [[Hne _]|Hl].
      * apply String.eqb_neq in Hne. rewrite Hne. simpl. lia.
      * rewrite decide_False; [simpl; lia|]. intros [_ ->]. simpl in Hl. lia.
    + apply Htext. intros He. by apply str_app_eq_nil in He as [_ He].
Qed.

Lemma concat_woven query n b parts (args : list V) :
  woven my query n b -> length args = n -> piece_ok (Literal parts) ->
  let r := concat my event parts args in
  woven my (separate query ++ r.1) (length r.2) false.
Proof.
  intros Hq <- [Hok Hl]. destruct (woven_separate _ _ _ _ Hq) as [b' Hs]. unfold concat.
  assert (Hterms := concat_loop_terms (length args) parts [] "" args (terms_nil my _)).
  destruct (concat_loop_terms_two parts "" args Hok (or_intror Hl)) as [(text & Ht & Ha)|Htwo];
    destruct (concat_loop my event parts [] "" args) as [terms args']; cbn [fst snd] in *.
  - subst. eapply woven_text; [done|done|]. intros _ _. by apply starts_token_cons.
  - assert (Hwrap : forall open c rest, open <> "" -> (my = false -> starts_token open) -> ends_token open -> isIdentByte c = false ->
        ends_token (String c rest) ->
        woven my (separate query ++ open ++ Join terms (String c rest) ++ ")") (length args') false).
    { intros open c rest Hne Ho He Hc Hsep.
      assert (Hopen : woven my (separate query ++ open) (length args) false) by (eapply woven_text; [done|done|by intros _]).
      destruct (woven_terms my (separate query ++ open) (length args) terms (length args') c rest) as [b2 Hw]; try done.
      { intros d. rewrite last_byte_app by done. apply He. }
      rewrite (str_app_assoc _ open) in Hw. rewrite <- (str_app_assoc open), <- (str_app_assoc (separate query)).
      eapply woven_text; [exact Hw|done|]. intros _ _. by apply starts_token_cons. }
    destruct terms as [|t1 [|t2 ts]]; [simpl in Htwo; lia|simpl in Htwo; lia|].
    destruct my; apply Hwrap; try done; intros; try (intros d [= <-]; by split).
Qed.

Lemma bind_piece_woven query args b p :
  piece_ok p -> woven my query (length args) b ->
  let r := bind_piece my event (query, args, b) p in woven my r.1.1 (length r.1.2) r.2.
Proof.
  intros Hok Hw. destruct p as [text|column quoted|parts]; cbn [bind_piece].
  - simpl in Hok. destruct text as [|c text]; [done|]. cbn [first_byte String.get fst snd].
    destruct (b && isIdentByte c) eqn:Hb.
    + apply (woven_text my _ _ false); [|done|done]. eapply woven_text; [done|done|]. intros _ _. by apply starts_token_cons.
    + eapply woven_text; [done|done|]. intros -> _. by apply starts_token_cons.
  - destruct (event !! column) as [v|]; cbn [param fst snd].
    + destruct (woven_separate _ _ _ _ Hw) as [b' Hs]. rewrite length_app, Nat.add_1_r.
      apply (woven_marker my (separate query) (length args) b'); [done|apply separate_ends_token].
    + eapply woven_text; [done|by destruct quoted|]. intros _ _. destruct quoted; by apply starts_token_cons.
  - pose proof (concat_woven query (length args) b parts args Hw eq_refl Hok) as H.
    destruct (concat my event parts args). exact H.
Qed.

Lemma bind_pieces_woven ps st :
  Forall piece_ok ps -> woven my st.1.1 (length st.1.2) st.2 ->
  let r := foldl (bind_piece my event) st ps in woven my r.1.1 (length r.1.2) r.2.
Proof.
  intros Hok. revert st. induction Hok as [|p ps Hp _ IH]; intros [[query args] b] Hw; [done|].
  cbn [foldl]. by apply IH, bind_piece_woven.
Qed.
End Weaving.

(** Every marker stands alone. For a template that parses and any row, the
    query is text and markers, as many as there are arguments and numbered in
    their order; no marker follows an identifier byte or a dollar sign, and on
    PostgreSQL none is followed by an identifier byte, the marker of another
    argument included: a marker never joins what the template has beside it. *)
Theorem markers_stand_alone {V : Type} (driver template : string) (t : markDoneTemplate) (event : gmap string V)
    (Hparse : parseMarkDone driver template = Some (Ok t)) :
  exists b, woven (is_mysql t) (bind t event).1 (length (bind t event).2) b.
Proof.
  destruct (parse_ok driver template) as (r & Hr & Hok). rewrite Hparse in Hr. injection Hr as <-.
  destruct Hok as (_ & _ & Hok).
  pose proof (bind_pieces_woven (is_mysql t) event (pieces t) ("", [], false) Hok (woven_start _ "")) as Hw.
  unfold bind. by exists (foldl (bind_piece (is_mysql t) event) ("", [], false) (pieces t)).2.
Qed.

(** ** Concrete templates. *)

Definition demo_template : string :=
  "UPDATE t SET note = 'it''s {{id}}' WHERE name LIKE'{{name}}'AND id={{id}}; -- done".

Definition demo_row : gmap string nat := {[ "id" := 42; "name" := 7 ]}%nat.

Definition demo_parsed : markDoneTemplate :=
  match parseMarkDone "postgres" demo_template with Some (Ok t) => t | _ => mkTemplate "" [] end.

Example demo_bound :
  bind demo_parsed demo_row =
  ("UPDATE t SET note = ('it''s ' || $1) WHERE name LIKE $2 AND id=$3; -- done", [42; 7; 42]%nat).
Proof. vm_compute. reflexivity. Qed.

(** A second statement, and a placeholder that cannot be bound. *)
Example demo_refused :
  parseMarkDone "postgres" "UPDATE t SET a = 1; DELETE FROM t" = Some (Err NotOneStatement) /\
  parseMarkDone "mysql" "UPDATE t SET a = _utf8mb4'{{id}}'" = Some (Err (InPrefixedString "'{{id}}'")) /\
  parseMarkDone "postgres" "UPDATE t SET a = $$ {{id}} $$" = Some (Err (InDollarQuoted "$$ {{id}} $$")).
Proof. vm_compute. done. Qed.

Lemma row_values_stay_out_witness :
  (bind demo_parsed demo_row).1 =
    (bind demo_parsed ({[ "name" := "'; DROP TABLE t; --"; "id" := "1 OR 1=1" ]} : gmap string string)).1 /\
  (bind demo_parsed demo_row).2 = [42; 7; 42]%nat.
Proof.
  destruct (row_values_stay_out demo_parsed demo_row
    ({[ "name" := "'; DROP TABLE t; --"; "id" := "1 OR 1=1" ]} : gmap string string)) as [H1 H2].
  - intros c. unfold demo_row. rewrite !lookup_insert_is_Some, !lookup_singleton_is_Some. naive_solver.
  - split; [exact H1|]. rewrite H2. vm_compute. reflexivity.
Defined.

Lemma markers_stand_alone_witness :
  exists b, woven false "UPDATE t SET note = ('it''s ' || $1) WHERE name LIKE $2 AND id=$3; -- done" 3 b.
Proof.
  assert (Hp : parseMarkDone "postgres" demo_template = Some (Ok demo_parsed)) by (vm_compute; reflexivity).
  destruct (markers_stand_alone "postgres" demo_template demo_parsed demo_row Hp) as [b Hb].
  rewrite demo_bound in Hb. exists b. exact Hb.
Defined.
