(* ===== verification/Quantity.v ===== *)
(** * Kubernetes quantities

    The operations of [resource.Quantity] the resource code uses, as an
    interface, with the documented laws it relies on: every quantity stands for
    an amount, comparison is that of the amounts, printing and parsing keep the
    amount. Two quantities with one amount ("1", "1000m") need not be equal, so
    equivalence is coarser than equality. *)

From Stdlib Require Import Ascii DecimalString DecimalZ.
From stdpp Require Import base tactics numbers option strings.
From S2P Require Import Prelude GoStd.

Class Quantities (Q : Type) := {
  zero_quantity : Q;
  Cmp : Q -> Q -> comparison;
  IsZero : Q -> bool;
  ParseQuantity : string -> option Q;
  QString : Q -> string;
  MilliValue : Q -> Z;
  (** [NewMilliQuantity(value, q.Format)]. *)
  NewMilliQuantity : Z -> Q -> Q;
  QValue : Q -> Z;
  (** [NewQuantity(value, BinarySI)] and [NewMilliQuantity(value, DecimalSI)]. *)
  BinaryQuantity : Z -> Q;
  DecimalMilli : Z -> Q;
}.

(** The number of units of size [unit] in [n], rounded up. *)
Definition ceil_div (n unit : Z) : Z := (n + unit - 1) / unit.

(** The amounts are counted in units small enough for every quantity; a
    thousandth is [milli_unit] of them. Reading a quantity as an integer rounds
    up, and is exact while the result fits in 64 bits. *)
Class QuantityLaws (Q : Type) `{Quantities Q} := {
  amount : Q -> Z;
  milli_unit : Z;
  milli_unit_pos : 0 < milli_unit;
  amount_zero : amount zero_quantity = 0;
  Cmp_amount : forall a b, Cmp a b = (amount a ?= amount b);
  IsZero_amount : forall a, IsZero a = (amount a =? 0);
  Parse_String : forall a, exists b, ParseQuantity (QString a) = Some b /\ amount b = amount a /\ QString b = QString a;
  QString_nonempty : forall a, QString a <> ""%string;
  MilliValue_up : forall a, 0 <= amount a <= int64_max * milli_unit ->
    MilliValue a = ceil_div (amount a) milli_unit;
  QValue_up : forall a, 0 <= amount a <= int64_max * (1000 * milli_unit) ->
    QValue a = ceil_div (amount a) (1000 * milli_unit);
  amount_NewMilli : forall z q, amount (NewMilliQuantity z q) = z * milli_unit;
  amount_Binary : forall z, amount (BinaryQuantity z) = z * (1000 * milli_unit);
  amount_DecimalMilli : forall z, amount (DecimalMilli z) = z * milli_unit;
}.

Lemma ceil_div_mul (z unit : Z) : 0 < unit -> ceil_div (z * unit) unit = z.
Proof. intros Hu. unfold ceil_div. replace (z * unit + unit - 1) with (unit - 1 + z * unit) by lia. rewrite Z.div_add by lia. rewrite Z.div_small by lia. lia. Qed.

Lemma ceil_div_spec (n unit : Z) : 0 < unit -> (ceil_div n unit - 1) * unit < n <= ceil_div n unit * unit.
Proof.
  intros Hu. unfold ceil_div. pose proof (Z.div_mod (n + unit - 1) unit ltac:(lia)).
  pose proof (Z.mod_pos_bound (n + unit - 1) unit Hu). nia.
Qed.

Lemma ceil_div_mono (n m unit : Z) : 0 < unit -> n <= m -> ceil_div n unit <= ceil_div m unit.
Proof. intros Hu Hle. apply Z.div_le_mono; lia. Qed.

Section Order.
Context {Q : Type} `{QuantityLaws Q}.

(** [a.Cmp(b) < 0], [== 0], [> 0], [>= 0]. *)
Definition below (a b : Q) : bool := match Cmp a b with Lt => true | _ => false end.
Definition same (a b : Q) : bool := match Cmp a b with Eq => true | _ => false end.
Definition above (a b : Q) : bool := match Cmp a b with Gt => true | _ => false end.
Definition at_least (a b : Q) : bool := negb (below a b).

Definition same_amount (a b : Q) : Prop := amount a = amount b.

#[export] Instance same_amount_equiv : Equivalence same_amount.
Proof. split; unfold same_amount; [by intros a|by intros a b|intros a b c; congruence]. Qed.

Lemma below_spec a b : below a b = (amount a <? amount b).
Proof. unfold below. rewrite Cmp_amount. done. Qed.

Lemma same_spec a b : same a b = (amount a =? amount b).
Proof.
  unfold same. rewrite Cmp_amount. destruct (Z.compare_spec (amount a) (amount b)); symmetry;
    [by apply Z.eqb_eq|apply Z.eqb_neq; lia|apply Z.eqb_neq; lia].
Qed.

Lemma above_spec a b : above a b = (amount b <? amount a).
Proof. unfold above. rewrite Cmp_amount, Z.compare_antisym. unfold Z.ltb. by destruct (amount b ?= amount a). Qed.

Lemma MilliValue_zero : MilliValue zero_quantity = 0.
Proof.
  pose proof milli_unit_pos. rewrite MilliValue_up by (rewrite amount_zero; unfold int64_max; lia).
  rewrite amount_zero. apply (ceil_div_mul 0). done.
Qed.

Lemma QValue_zero : QValue zero_quantity = 0.
Proof.
  pose proof milli_unit_pos. rewrite QValue_up by (rewrite amount_zero; unfold int64_max; lia).
  rewrite amount_zero. apply (ceil_div_mul 0). lia.
Qed.

Lemma QValue_Binary z : 0 <= z <= int64_max -> QValue (BinaryQuantity z) = z.
Proof.
  pose proof milli_unit_pos. intros Hz. rewrite QValue_up; rewrite amount_Binary; [|nia]. apply ceil_div_mul. lia.
Qed.

Lemma MilliValue_Decimal z : 0 <= z <= int64_max -> MilliValue (DecimalMilli z) = z.
Proof.
  pose proof milli_unit_pos. intros Hz. rewrite MilliValue_up; rewrite amount_DecimalMilli; [|nia]. by apply ceil_div_mul.
Qed.

#[export] Instance below_proper : Proper (same_amount ==> same_amount ==> (=)) below.
Proof. intros a a' Ha b b' Hb. rewrite !below_spec. unfold same_amount in *. by rewrite Ha, Hb. Qed.

#[export] Instance same_proper : Proper (same_amount ==> same_amount ==> (=)) same.
Proof. intros a a' Ha b b' Hb. rewrite !same_spec. unfold same_amount in *. by rewrite Ha, Hb. Qed.

#[export] Instance above_proper : Proper (same_amount ==> same_amount ==> (=)) above.
Proof. intros a a' Ha b b' Hb. rewrite !above_spec. unfold same_amount in *. by rewrite Ha, Hb. Qed.
End Order.

(** Reduce comparisons of quantities to linear arithmetic. *)
Ltac quantities :=
  unfold at_least, same_amount in *;
  rewrite ?below_spec, ?same_spec, ?above_spec, ?IsZero_amount in *;
  repeat match goal with
  | H : context [Z.ltb ?a ?b] |- _ => destruct (Z.ltb_spec a b)
  | |- context [Z.ltb ?a ?b] => destruct (Z.ltb_spec a b)
  | H : context [Z.eqb ?a ?b] |- _ => destruct (Z.eqb_spec a b)
  | |- context [Z.eqb ?a ?b] => destruct (Z.eqb_spec a b)
  end; cbn [negb andb orb] in *; try congruence; try lia.

(** ** Thousandths, as a concrete instance. *)

Definition Milli : Type := Z.

Definition parse_decimal (s : string) : option Z := Z.of_int <$> NilEmpty.int_of_string s.

(** Plain numbers, thousandths and binary multiples. *)
Definition parse_milli (s : string) : option Z :=
  if (s =? "")%string then None
  else match CutSuffix s "m", CutSuffix s "Mi", CutSuffix s "Gi" with
       | Some d, _, _ => parse_decimal d
       | _, Some d, _ => (fun n => 1000 * (n * 2 ^ 20)) <$> parse_decimal d
       | _, _, Some d => (fun n => 1000 * (n * 2 ^ 30)) <$> parse_decimal d
       | _, _, _ => (fun n => 1000 * n) <$> parse_decimal s
       end.

#[export] Instance milli_quantities : Quantities Milli := {
  zero_quantity := 0;
  Cmp := Z.compare;
  IsZero := fun a => a =? 0;
  ParseQuantity := parse_milli;
  QString := fun a => String.append (NilEmpty.string_of_int (Z.to_int a)) "m";
  MilliValue := fun a => a;
  NewMilliQuantity := fun z _ => z;
  QValue := fun a => ceil_div a 1000;
  BinaryQuantity := fun z => z * 1000;
  DecimalMilli := fun z => z;
}.

Lemma CutSuffix_append (s suffix : string) : CutSuffix (String.append s suffix) suffix = Some s.
Proof.
  induction s as [|c s IH].
  - cbn [String.append]. destruct suffix as [|d suffix]; [done|]. unfold CutSuffix. by rewrite String.eqb_refl.
  - change (String.append (String c s) suffix) with (String c (String.append s suffix)).
    unfold CutSuffix. fold CutSuffix. rewrite IH.
    destruct (String.eqb_spec (String c (String.append s suffix)) suffix) as [Heq|_]; [|done].
    apply (f_equal String.length) in Heq. simpl in Heq. rewrite str_length_app in Heq. lia.
Qed.

#[export] Instance milli_laws : QuantityLaws Milli.
Proof.
  refine {| amount := fun a => a; milli_unit := 1 |}; try done.
  - intros a. exists a. split; [|done]. unfold ParseQuantity, QString, milli_quantities, parse_milli.
    destruct (String.eqb_spec (String.append (NilEmpty.string_of_int (Z.to_int a)) "m") "") as [He|_].
    + apply (f_equal String.length) in He. rewrite str_length_app in He. simpl in He. lia.
    + rewrite CutSuffix_append. unfold parse_decimal. rewrite NilEmpty.isi. simpl. by rewrite DecimalZ.of_to.
  - intros a. simpl. intros He. apply (f_equal String.length) in He. rewrite str_length_app in He. simpl in He. lia.
  - intros a _. unfold MilliValue, milli_quantities, ceil_div. rewrite Z.div_1_r. lia.
  - intros z q. unfold NewMilliQuantity, milli_quantities. lia.
  - intros z. unfold DecimalMilli, milli_quantities. lia.
Defined.
