(* ===== verification/Capacity.v ===== *)
(** * Replica bounds and autoscaling policies ([src/controller/pkg/capacity])

    A policy keeps omitted fields apart from explicit zeros: an omitted field is
    [None]. Counts are 32-bit integers, which nothing here adds or multiplies. *)

From stdpp Require Import base tactics numbers list option.
From S2P Require Import Prelude.

Record Policy := mkPolicy {
  Enabled : bool;
  MinReplicas : option Z;
  MaxReplicas : option Z;
  CPUTarget : option Z;
  MemoryTarget : option Z
}.

Inductive PolicyError :=
| MinBelowOne
| MaxBelowOne
| MaxRequired
| MinWithoutMax
| MinAboveMax (lo hi : Z)
| NegativeCPUTarget
| NegativeMemoryTarget
| NoTarget.

(** What [Validate] returns: the joined errors of the policy, or the replica
    count that is out of its bounds. *)
Inductive ValidateError :=
| PolicyInvalid (errs : list PolicyError)
| ReplicasOutside (n lo hi : Z).

Definition Bounds (p : option Policy) : option (Z * Z) :=
  p ← p; hi ← MaxReplicas p;
  if hi <? 1 then None else Some (default 1 (MinReplicas p), hi).

Definition positive (v : option Z) : bool := match v with Some n => 0 <? n | None => false end.

Definition below_one (v : option Z) : bool := match v with Some n => n <? 1 | None => false end.

Definition negative (v : option Z) : bool := match v with Some n => n <? 0 | None => false end.

Definition is_set (v : option Z) : bool := match v with Some _ => true | None => false end.

Definition reported (b : bool) (e : PolicyError) : list PolicyError := if b then [e] else [].

Definition policy_errors (p : Policy) : list PolicyError :=
  reported (below_one (MinReplicas p)) MinBelowOne ++
  reported (below_one (MaxReplicas p)) MaxBelowOne ++
  reported (Enabled p && negb (is_set (MaxReplicas p))) MaxRequired ++
  reported (negb (Enabled p) && negb (is_set (MaxReplicas p)) &&
            match MinReplicas p with Some lo => 1 <? lo | None => false end) MinWithoutMax ++
  match MinReplicas p, MaxReplicas p with
  | Some lo, Some hi => reported ((1 <=? hi) && (hi <? lo)) (MinAboveMax lo hi)
  | _, _ => []
  end ++
  if Enabled p then
    reported (negative (CPUTarget p)) NegativeCPUTarget ++
    reported (negative (MemoryTarget p)) NegativeMemoryTarget ++
    reported (negb (positive (CPUTarget p)) && negb (positive (MemoryTarget p))) NoTarget
  else [].

Definition Validate (p : option Policy) (replicas : option Z) : option ValidateError :=
  match p with
  | None => None
  | Some pol =>
      match policy_errors pol with
      | e :: errs => Some (PolicyInvalid (e :: errs))
      | [] =>
          match Bounds p, replicas with
          | Some (lo, hi), Some n => if (n <? lo) || (hi <? n) then Some (ReplicasOutside n lo hi) else None
          | _, _ => None
          end
      end
  end.

Definition valid (p : option Policy) (replicas : option Z) : bool :=
  match Validate p replicas with None => true | Some _ => false end.

Definition Usable (p : option Policy) : bool :=
  match p with Some pol => Enabled pol && valid p None | None => false end.

Definition IntoBounds (p : option Policy) (n : Z) : Z * bool :=
  match Bounds p with
  | None => (n, false)
  | Some (lo, hi) => let moved := Z.min (Z.max n lo) hi in (moved, negb (moved =? n))
  end.

(** ** Switching a policy off. *)

Record SwitchOff := mkSwitchOff {
  AlreadyOff : bool;
  Replicas : Z;
  Stopped : bool;
  CountUnknown : bool;
  Live : Z;
  InvalidBounds : bool
}.

Definition WritesReplicas (s : SwitchOff) : bool := negb (AlreadyOff s) && negb (Stopped s) && negb (CountUnknown s).

Definition Clamped (s : SwitchOff) : bool := WritesReplicas s && negb (Live s =? Replicas s).

Definition switched_off (p : Policy) : Policy :=
  mkPolicy false (MinReplicas p) (MaxReplicas p) (CPUTarget p) (MemoryTarget p).

(** [readLive] is the count of the Deployment, [None] when it cannot be read. *)
Definition PlanSwitchOff (p : option Policy) (stored : Z) (stopped : bool) (readLive : option Z) : SwitchOff :=
  match p with
  | None => mkSwitchOff true stored false false 0 false
  | Some pol =>
      if negb (Enabled pol) then mkSwitchOff true stored false false 0 false
      else if stopped then mkSwitchOff false stored true false 0 false
      else
        match readLive with
        | None => mkSwitchOff false stored false true 0 false
        | Some live =>
            let off := switched_off pol in
            if negb (valid (Some off) None) then mkSwitchOff false live false false live true
            else mkSwitchOff false (IntoBounds (Some off) live).1 false false live false
        end
  end.

(** ** Properties. *)

Lemma reported_nil (b : bool) (e : PolicyError) : reported b e = [] <-> b = false.
Proof. by destruct b. Qed.

Lemma Bounds_Some (pol : Policy) (lo hi : Z) :
  Bounds (Some pol) = Some (lo, hi) <-> MaxReplicas pol = Some hi /\ 1 <= hi /\ lo = default 1 (MinReplicas pol).
Proof.
  unfold Bounds. cbn [mbind option_bind]. destruct (MaxReplicas pol) as [m|]; cbn [mbind option_bind].
  - destruct (Z.ltb_spec m 1); split; intros Hb; try done.
    + destruct Hb as ([= ->] & ? & _). lia.
    + by injection Hb as <- <-.
    + by destruct Hb as ([= ->] & _ & ->).
  - split; [done|]. by intros (? & _).
Qed.

(** A valid policy's bounds are ordered. *)
Lemma valid_bounds_ordered (pol : Policy) (lo hi : Z) :
  policy_errors pol = [] -> Bounds (Some pol) = Some (lo, hi) -> 1 <= lo <= hi.
Proof.
  intros He (Hm & Hhi & ->)%Bounds_Some. unfold policy_errors in He.
  apply app_nil in He as [H1 [_ [_ [_ [H5 _]%app_nil]%app_nil]%app_nil]%app_nil].
  rewrite Hm in H5. apply reported_nil in H1.
  destruct (MinReplicas pol) as [m|]; cbn [default]; [|lia]. unfold id.
  cbn [below_one] in H1. apply Z.ltb_ge in H1. apply reported_nil, andb_false_iff in H5 as [H5|H5].
  - apply Z.leb_gt in H5. lia.
  - apply Z.ltb_ge in H5. lia.
Qed.

(** Moving a count into a valid policy's bounds makes the pair valid, and does
    not move a count that was already inside. *)
Lemma into_bounds_validates (pol : Policy) (n : Z) :
  policy_errors pol = [] ->
  valid (Some pol) (Some (IntoBounds (Some pol) n).1) = true /\
  (valid (Some pol) (Some n) = true <-> IntoBounds (Some pol) n = (n, false)).
Proof.
  intros He. unfold valid, Validate, IntoBounds. rewrite He.
  destruct (Bounds (Some pol)) as [[lo hi]|] eqn:Hb; [|done]. apply valid_bounds_ordered in Hb as Ho; [|done].
  cbn [fst]. split.
  - rewrite (proj2 (Z.ltb_ge _ lo)) by lia. by rewrite (proj2 (Z.ltb_ge hi _)) by lia.
  - destruct (Z.ltb_spec n lo); cbn [orb]; [split; [done|intros [= Hm _]; lia]|].
    destruct (Z.ltb_spec hi n); cbn [orb]; [split; [done|intros [= Hm _]; lia]|].
    split; [intros _|done]. rewrite Z.max_l, Z.min_l by lia. by rewrite Z.eqb_refl.
Qed.

(** Switching autoscaling off leaves an app that can be saved, at the size
    it runs. For a policy that is on and whose bounds are valid: the count
    written is the Deployment's when it is inside of the bounds, else the nearest
    bound; it passes validation against the policy that is then off, which is the
    check of the next save; and [Clamped] says exactly whether it moved. An app
    that is stopped, whose count cannot be read, or whose policy is off already
    keeps its stored count. *)
Theorem switch_off_saves (pol : Policy) (stored : Z) (stopped : bool) (readLive : option Z)
    (Hvalid : valid (Some (switched_off pol)) None = true) :
  let s := PlanSwitchOff (Some pol) stored stopped readLive in
  (WritesReplicas s = true <-> Enabled pol = true /\ stopped = false /\ is_Some readLive) /\
  (WritesReplicas s = false -> Replicas s = stored) /\
  (WritesReplicas s = true ->
     readLive = Some (Live s) /\
     valid (Some (switched_off pol)) (Some (Replicas s)) = true /\
     (Clamped s = false <-> valid (Some (switched_off pol)) (Some (Live s)) = true) /\
     forall n, valid (Some (switched_off pol)) (Some n) = true -> Z.abs (Live s - Replicas s) <= Z.abs (Live s - n)).
Proof.
  cbv zeta. unfold PlanSwitchOff.
  assert (He : policy_errors (switched_off pol) = []).
  { unfold valid, Validate in Hvalid. by destruct (policy_errors (switched_off pol)). }
  destruct (Enabled pol); cbn [negb]; [|split_and!; [split; [done|by intros (? & _)]|done|done]].
  destruct stopped; [split_and!; [split; [done|by intros (_ & ? & _)]|done|done]|].
  destruct readLive as [live|]; [|split_and!; [split; [done|by intros (_ & _ & [? ?])]|done|done]].
  rewrite Hvalid. cbn [negb]. destruct (into_bounds_validates (switched_off pol) live He) as [Hv Hsame].
  split_and!; [|done|intros _].
  { split; [|done]. intros _. by split_and!. }
  cbn [Replicas Live WritesReplicas Clamped AlreadyOff Stopped CountUnknown negb andb].
  split_and!; [done|done|..].
  - unfold Clamped. cbn [WritesReplicas AlreadyOff Stopped CountUnknown Live Replicas negb andb].
    unfold WritesReplicas. cbn [AlreadyOff Stopped CountUnknown negb andb]. rewrite negb_false_iff, Z.eqb_eq, Hsame.
    unfold IntoBounds. destruct (Bounds (Some (switched_off pol))) as [[lo hi]|]; [|done]. cbn [fst].
    split; intros Hm; [|by injection Hm].
    rewrite <- Hm. by rewrite Z.eqb_refl.
  - intros n Hn. apply (into_bounds_validates (switched_off pol) n He) in Hn. unfold IntoBounds in Hn |- *.
    destruct (Bounds (Some (switched_off pol))) as [[lo hi]|] eqn:Hb; cbn [fst]; [|lia].
    apply valid_bounds_ordered in Hb; [|done]. injection Hn as Hn _. lia.
Qed.

Lemma switch_off_saves_witness :
  let pol := mkPolicy true (Some 2) (Some 5) (Some 80) None in
  let s := PlanSwitchOff (Some pol) 1 false (Some 9) in
  Replicas s = 5 /\ Clamped s = true /\ valid (Some (switched_off pol)) (Some (Replicas s)) = true.
Proof.
  cbv zeta. split; [reflexivity|]. split; [reflexivity|].
  destruct (switch_off_saves (mkPolicy true (Some 2) (Some 5) (Some 80) None) 1 false (Some 9)) as (_ & _ & H).
  - reflexivity.
  - destruct H as (_ & H & _); [reflexivity|]. exact H.
Defined.

(** Only a usable policy has an autoscaler, and its bounds are then a range. *)
Lemma Usable_bounds (p : option Policy) :
  Usable p = true -> exists lo hi, Bounds p = Some (lo, hi) /\ 1 <= lo <= hi.
Proof.
  destruct p as [pol|]; [|done]. unfold Usable. intros [He Hv]%andb_true_iff.
  unfold valid, Validate in Hv. destruct (policy_errors pol) eqn:Hp; [|done].
  assert (Hmax : exists hi, MaxReplicas pol = Some hi /\ 1 <= hi).
  { unfold policy_errors in Hp. rewrite He in Hp.
    apply app_nil in Hp as [_ [H2 [H3 _]%app_nil]%app_nil]. apply reported_nil in H2, H3.
    destruct (MaxReplicas pol) as [m|]; [|done]. exists m. split; [done|]. cbn in H2. by apply Z.ltb_ge in H2. }
  destruct Hmax as (hi & Hm & Hhi). exists (default 1 (MinReplicas pol)), hi.
  assert (Hb : Bounds (Some pol) = Some (default 1 (MinReplicas pol), hi)) by (by apply Bounds_Some).
  split; [done|]. by apply (valid_bounds_ordered pol).
Qed.
