(* ===== verification/Float64.v ===== *)
(** * float64

    IEEE 754 double precision as the language uses it, on the Standard Library's
    executable specification: conversion from and to int64, the comparisons,
    [math.Ceil] and the format %.0f. *)

From Stdlib Require Import Ascii SpecFloat.
From stdpp Require Import base tactics numbers strings.
From S2P Require Import Prelude GoStd Calendar Quantity.

Definition float64 : Type := spec_float.

Definition of_int64 (z : Z) : float64 := binary_normalize 53 1024 z 0 false.

Definition fmul (a b : float64) : float64 := SFmul 53 1024 a b.

Definition fdiv (a b : float64) : float64 := SFdiv 53 1024 a b.

(** [a < b], [a <= b]: false on NaN. *)
Definition flt (a b : float64) : bool := SFltb a b.

Definition fle (a b : float64) : bool := SFleb a b.

(** The constants 1.5 and 0.5. *)
Definition three_halves : float64 := binary_normalize 53 1024 3 (-1) false.

Definition one_half : float64 := binary_normalize 53 1024 1 (-1) false.

(** [math.Ceil]. *)
Definition Ceil (f : float64) : float64 :=
  match f with
  | S754_finite s m e =>
      if 0 <=? e then f
      else if s then
        match Zpos m / 2 ^ (- e) with
        | 0 => S754_zero true
        | n => binary_normalize 53 1024 (- n) 0 true
        end
      else binary_normalize 53 1024 (- (- Zpos m / 2 ^ (- e))) 0 false
  | _ => f
  end.

(** The integer part of a finite number. *)
Definition truncated (f : float64) : option Z :=
  match f with
  | S754_zero _ => Some 0
  | S754_finite s m e =>
      let n := if 0 <=? e then Zpos m * 2 ^ e else Zpos m / 2 ^ (- e) in
      Some (if s then - n else n)
  | _ => None
  end.

(** [int64(f)]. Out of range the language leaves the result to the machine; this
    is what amd64 computes. *)
Definition to_int64 (f : float64) : Z :=
  match truncated f with
  | Some n => if (int64_min <=? n) && (n <=? int64_max) then n else int64_min
  | None => int64_min
  end.

(** [fmt.Sprintf("%.0f", f)]: rounded to the nearest integer, ties to even. *)
Definition Format0 (f : float64) : string :=
  match f with
  | S754_nan => "NaN"
  | S754_infinity s => if s then "-Inf" else "+Inf"
  | S754_zero s => if s then "-0" else "0"
  | S754_finite s m e =>
      let n :=
        if 0 <=? e then Zpos m * 2 ^ e
        else
          let d := 2 ^ (- e) in
          let q := Zpos m / d in
          let r := 2 * (Zpos m mod d) in
          if (r <? d) || ((r =? d) && Z.even q) then q else q + 1 in
      String.append (if s then "-" else "")%string (decimal 400 n)
  end.

Example three_halves_up : to_int64 (Ceil (fmul (of_int64 101) three_halves)) = 152.
Proof. vm_compute. reflexivity. Qed.

Example usage_percent : Format0 (fmul (fdiv (of_int64 1) (of_int64 3)) (of_int64 100)) = "33"%string.
Proof. vm_compute. reflexivity. Qed.

(** ** Exact results.

    Small integers convert exactly, and scaling one by 1.5 or 0.5 rounds
    nothing: the product has more zero bits than are dropped. *)

Section Exact.
Let prec := 53.

Let emax := 1024.

Lemma iter_pos_nat {A : Type} (f : A -> A) (n : positive) (x : A) : SpecFloat.iter_pos f n x = Nat.iter (Pos.to_nat n) f x.
Proof.
  revert x. induction n as [n IH|n IH|]; intros x; cbn [SpecFloat.iter_pos]; [| |done].
  - rewrite !IH, Pos2Nat.inj_xI, Nat.iter_succ_r. rewrite <- Nat.iter_add. f_equal. lia.
  - rewrite !IH, Pos2Nat.inj_xO. rewrite <- Nat.iter_add. f_equal. lia.
Qed.

Lemma shr_1_double (m : positive) : shr_1 (Build_shr_record (Zpos m~0) false false) = Build_shr_record (Zpos m) false false.
Proof. done. Qed.

Lemma shr_exact (m : Z) (k : nat) (e : Z) :
  0 < m -> shr (Build_shr_record (m * 2 ^ Z.of_nat k) false false) e (Z.of_nat k) =
    (Build_shr_record m false false, e + Z.of_nat k).
Proof.
  intros Hm. destruct (decide (k = 0%nat)) as [->|Hk].
  - simpl. by rewrite Z.mul_1_r, Z.add_0_r.
  - destruct (Z.of_nat k) as [|p|p] eqn:Hp; [lia| |lia]. cbn [shr]. f_equal. rewrite iter_pos_nat.
    assert (Hk' : Pos.to_nat p = k) by lia. rewrite Hk'. rewrite <- Hp. clear p Hp Hk' Hk.
    induction k as [|k IH]; [by rewrite Z.mul_1_r|].
    rewrite Nat.iter_succ_r. rewrite <- IH. f_equal.
    destruct m as [|p|p]; [lia| |lia].
    replace (Z.pos p * 2 ^ Z.of_nat (S k)) with (2 * (Z.pos p * 2 ^ Z.of_nat k)) by (rewrite Nat2Z.inj_succ, Z.pow_succ_r by lia; lia).
    destruct (Z.pos p * 2 ^ Z.of_nat k) as [|q|q] eqn:Hq; [nia|done|nia].
Qed.

Lemma digits2_pos_bounds (p : positive) : 2 ^ (Zpos (digits2_pos p) - 1) <= Zpos p < 2 ^ Zpos (digits2_pos p).
Proof.
  induction p as [p IH|p IH|]; cbn [digits2_pos]; [| |done];
    rewrite Pos2Z.inj_succ; replace (Z.succ (Z.pos (digits2_pos p)) - 1) with (Z.succ (Z.pos (digits2_pos p) - 1)) by lia;
    rewrite !Z.pow_succ_r by lia; lia.
Qed.

Lemma digits_unique (m d : Z) : 0 < d -> 2 ^ (d - 1) <= m < 2 ^ d -> Zdigits2 m = d.
Proof.
  intros Hd [Hlo Hhi]. destruct m as [|p|p]; [|cbn [Zdigits2]|]; [pose proof (Z.pow_pos_nonneg 2 (d - 1)); lia| |pose proof (Z.pow_pos_nonneg 2 (d - 1)); lia].
  pose proof (digits2_pos_bounds p) as [H1 H2].
  assert (H3 : 2 ^ (d - 1) < 2 ^ Z.pos (digits2_pos p)) by lia. apply Z.pow_lt_mono_r_iff in H3; [|lia|lia].
  assert (H4 : 2 ^ (Z.pos (digits2_pos p) - 1) < 2 ^ d) by lia. apply Z.pow_lt_mono_r_iff in H4; [|lia|lia]. lia.
Qed.

Lemma digits_shift (m k : Z) : 0 < m -> 0 <= k -> Zdigits2 (m * 2 ^ k) = Zdigits2 m + k.
Proof.
  intros Hm Hk. destruct m as [|p|p]; [lia| |lia]. pose proof (digits2_pos_bounds p) as [H1 H2].
  apply digits_unique; cbn [Zdigits2]; [lia|]. replace (Z.pos (digits2_pos p) + k - 1) with (Z.pos (digits2_pos p) - 1 + k) by lia.
  rewrite !Z.pow_add_r by lia. pose proof (Z.pow_pos_nonneg 2 k). nia.
Qed.

(** Rounding a mantissa that ends in enough zeros: it is moved, not changed. *)
Lemma round_exact (m : positive) (k : nat) (e : Z) :
  Zdigits2 (Zpos m) = prec -> -1074 <= e + Z.of_nat k <= 971 ->
  binary_round_aux prec emax false (Zpos m * 2 ^ Z.of_nat k) e loc_Exact = S754_finite false m (e + Z.of_nat k).
Proof.
  intros Hd He. unfold binary_round_aux, shr_fexp. rewrite digits_shift by lia. rewrite Hd.
  assert (Hf : forall x, -1074 <= x -> fexp prec emax (prec + x) = x)
    by (intros x Hx; unfold fexp, emin, prec, emax; change (3 - 1024 - 53) with (-1074); lia).
  replace (prec + Z.of_nat k + e) with (prec + (e + Z.of_nat k)) by lia. rewrite Hf by lia.
  replace (e + Z.of_nat k - e) with (Z.of_nat k) by lia.
  cbn [shr_record_of_loc]. rewrite (shr_exact (Z.pos m)) by lia. cbn [shr_m loc_of_shr_record round_nearest_even]. rewrite Hd, Hf by lia.
  rewrite Z.sub_diag. cbn [shr shr_record_of_loc shr_m].
  rewrite (proj2 (Z.leb_le _ _)); [done|]. unfold prec, emax. lia.
Qed.

Lemma shift_left (p k : positive) : Zpos (Pos.iter xO p k) = Zpos p * 2 ^ Zpos k.
Proof.
  induction k as [|k IH] using Pos.peano_ind; [simpl; lia|].
  rewrite Pos.iter_succ, Pos2Z.inj_succ, Z.pow_succ_r by lia. rewrite Pos2Z.inj_xO, IH. lia.
Qed.

(** A positive integer of at most 53 bits, as a mantissa of 53. *)
Lemma of_int64_exact (z : Z) :
  0 < z < 2 ^ 53 -> exists (m : positive) (k : nat), Z.of_nat k <= 52 /\ Zpos m = z * 2 ^ Z.of_nat k /\
    Zdigits2 (Zpos m) = prec /\ Zdigits2 z = prec - Z.of_nat k /\ of_int64 z = S754_finite false m (- Z.of_nat k).
Proof.
  intros Hz. destruct z as [|p|p]; [lia| |lia].
  pose proof (digits2_pos_bounds p) as [H1 H2]. set (d := Z.pos (digits2_pos p)) in *.
  assert (Hd : 1 <= d <= 53).
  { split; [lia|]. assert (2 ^ (d - 1) < 2 ^ 53) as Hlt by lia. apply Z.pow_lt_mono_r_iff in Hlt; lia. }
  unfold of_int64, binary_normalize, binary_round. fold d.
  assert (Hf : fexp 53 1024 (d + 0) = d - 53) by (unfold fexp, emin; lia). rewrite Hf. unfold shl_align.
  rewrite Z.sub_0_r. destruct (d - 53) as [|q|q] eqn:Hq; [|lia|].
  - exists p, 0%nat. split_and!; [lia|simpl; lia|unfold prec; cbn [Zdigits2]; lia|unfold prec; cbn [Zdigits2]; lia|].
    pose proof (round_exact p 0 0) as Hr. cbn [Z.of_nat] in Hr. rewrite Z.mul_1_r, Z.add_0_r in Hr. apply Hr; [cbn [Zdigits2]; unfold prec; lia|lia].
  - set (m := Pos.iter xO p q). exists m, (Pos.to_nat q).
    assert (Hm : Z.pos m = Z.pos p * 2 ^ Z.of_nat (Pos.to_nat q)) by (unfold m; rewrite shift_left, positive_nat_Z; done).
    assert (Hdm : Zdigits2 (Zpos m) = prec).
    { rewrite Hm, digits_shift by lia. cbn [Zdigits2]. unfold prec. fold d. lia. }
    split_and!; [lia|done|done|cbn [Zdigits2]; unfold prec; fold d; lia|].
    pose proof (round_exact m 0 (- Z.of_nat (Pos.to_nat q)) Hdm) as Hr. cbn [Z.of_nat] in Hr. rewrite Z.mul_1_r, Z.add_0_r in Hr.
    replace (Z.neg q) with (- Z.of_nat (Pos.to_nat q)) by lia. apply Hr. lia.
Qed.

Lemma to_int64_of_int64 (z : Z) : 0 < z < 2 ^ 53 -> to_int64 (of_int64 z) = z.
Proof.
  intros Hz. destruct (of_int64_exact z Hz) as (m & k & Hk & Hm & _ & _ & ->). unfold to_int64, truncated.
  assert (Hn : (if 0 <=? - Z.of_nat k then Z.pos m * 2 ^ (- Z.of_nat k) else Z.pos m / 2 ^ (- - Z.of_nat k)) = z).
  { rewrite Z.opp_involutive, Hm. destruct (Z.leb_spec 0 (- Z.of_nat k)).
    - replace (Z.of_nat k) with 0 by lia. simpl. lia.
    - apply Z.div_mul. pose proof (Z.pow_pos_nonneg 2 (Z.of_nat k)). lia. }
  rewrite Hn. unfold int64_min, int64_max. by rewrite !(proj2 (Z.leb_le _ _)) by lia.
Qed.

(** The ceiling of a positive value with a fraction below 2^52. *)
Lemma Ceil_exact (m : positive) (k : nat) (n : Z) :
  (0 < k)%nat -> n = ceil_div (Zpos m) (2 ^ Z.of_nat k) -> n < 2 ^ 53 ->
  to_int64 (Ceil (S754_finite false m (- Z.of_nat k))) = n.
Proof.
  intros Hk Hn Hmax. unfold Ceil. rewrite (proj2 (Z.leb_gt _ _)) by lia. rewrite Z.opp_involutive.
  pose proof (Z.pow_pos_nonneg 2 (Z.of_nat k)) as Hpow.
  assert (Hc : - (- Z.pos m / 2 ^ Z.of_nat k) = n).
  { pose proof (ceil_div_spec (Z.pos m) (2 ^ Z.of_nat k)) as Hs. rewrite <- Hn in Hs.
    assert (- Z.pos m / 2 ^ Z.of_nat k = - n); [|lia]. symmetry. apply (Z.div_unique_pos _ _ _ (n * 2 ^ Z.of_nat k - Z.pos m)); lia. }
  rewrite Hc. apply to_int64_of_int64. pose proof (ceil_div_spec (Z.pos m) (2 ^ Z.of_nat k)). nia.
Qed.

(** Scaling by a factor [c / 2], [c] being 1 or 3. *)
Lemma scaled_exact (z c : Z) (f : float64) :
  (c = 1 /\ f = one_half) \/ (c = 3 /\ f = three_halves) -> 0 < z <= 2 ^ 50 ->
  to_int64 (Ceil (fmul (of_int64 z) f)) = ceil_div (c * z) 2.
Proof.
  intros Hc Hz. destruct (of_int64_exact z) as (m & k & Hk & Hm & Hdm & Hdz & ->); [lia|].
  assert (Hf : exists (j : nat) (w : positive), f = S754_finite false w (- Z.of_nat j - 1) /\ Z.pos w = c * 2 ^ Z.of_nat j /\ Z.of_nat j <= 52).
  { destruct Hc as [[-> ->]|[-> ->]]; [exists 52%nat|exists 51%nat]; eexists; split_and!; (vm_compute; reflexivity) || lia || idtac. }
  destruct Hf as (j & w & -> & Hw & Hj).
  assert (Hk2 : 2 <= Z.of_nat k).
  { assert (Zdigits2 z <= 51); [|unfold prec in *; lia]. destruct z as [|p|p]; [lia| |lia]. cbn [Zdigits2].
    pose proof (digits2_pos_bounds p) as [H1 _]. assert (Hlt : 2 ^ (Z.pos (digits2_pos p) - 1) < 2 ^ 51) by lia.
    apply Z.pow_lt_mono_r_iff in Hlt; lia. }
  assert (Hrange : 2 ^ 52 <= Z.pos m < 2 ^ 53).
  { cbn [Zdigits2] in Hdm. unfold prec in Hdm. pose proof (digits2_pos_bounds m) as Hb. by rewrite Hdm in Hb. }
  assert (Hs : exists s : nat, (s <= 2)%nat /\ 2 ^ 52 * 2 ^ Z.of_nat s <= c * Z.pos m < 2 ^ 53 * 2 ^ Z.of_nat s).
  { destruct Hc as [[-> _]|[-> _]]; [exists 0%nat; simpl; lia|].
    destruct (Z.lt_ge_cases (3 * Z.pos m) (2 ^ 54)); [exists 1%nat|exists 2%nat]; simpl; lia. }
  destruct Hs as (s & Hs & Hps).
  set (M := c * z * 2 ^ (Z.of_nat k - Z.of_nat s)).
  assert (HM : c * Z.pos m = M * 2 ^ Z.of_nat s).
  { unfold M. rewrite Hm. rewrite <- Z.mul_assoc, <- Z.pow_add_r by lia. replace (Z.of_nat k - Z.of_nat s + Z.of_nat s) with (Z.of_nat k) by lia. lia. }
  pose proof (Z.pow_pos_nonneg 2 (Z.of_nat s)) as Hpos.
  assert (HMr : 2 ^ 52 <= M < 2 ^ 53) by nia. clearbody M.
  revert M HM HMr. intros [|M|M] HM HMr; [lia| |lia].
  assert (HdM : Zdigits2 (Z.pos M) = prec) by (apply digits_unique; unfold prec; simpl in *; lia).
  unfold fmul, SFmul. cbn [xorb].
  replace (Z.pos (m * w)) with (Z.pos M * 2 ^ Z.of_nat (s + j))
    by (rewrite Pos2Z.inj_mul, Hw, Nat2Z.inj_add, Z.pow_add_r by lia; nia).
  rewrite (round_exact M (s + j)) by (done || lia).
  replace (- Z.of_nat k + (- Z.of_nat j - 1) + Z.of_nat (s + j)) with (- Z.of_nat (k + 1 - s)) by lia.
  apply Ceil_exact; [lia| |].
  - assert (Hcz : Z.pos M * 2 = c * z * 2 ^ Z.of_nat (k + 1 - s)).
    { apply (Z.mul_reg_r _ _ (2 ^ Z.of_nat s)); [lia|]. rewrite <- (Z.mul_assoc (c * z)), <- Z.pow_add_r by lia.
      replace (Z.of_nat (k + 1 - s) + Z.of_nat s) with (Z.of_nat k + 1) by lia. rewrite Z.pow_add_r by lia.
      replace (Z.pos M * 2 * 2 ^ Z.of_nat s) with (2 * (c * Z.pos m)) by (rewrite HM; lia). rewrite Hm. lia. }
    pose proof (Z.pow_pos_nonneg 2 (Z.of_nat (k + 1 - s))) as Hp2.
    pose proof (ceil_div_spec (Z.pos M) (2 ^ Z.of_nat (k + 1 - s))) as H1. pose proof (ceil_div_spec (c * z) 2) as H2. nia.
  - pose proof (ceil_div_spec (c * z) 2). destruct Hc as [[-> _]|[-> _]]; lia.
Qed.

(** [int64(math.Ceil(float64(z) * 1.5))] and the same with 0.5, up to a pebi. *)
Lemma scale_up_exact (z : Z) : 0 < z <= 2 ^ 50 -> to_int64 (Ceil (fmul (of_int64 z) three_halves)) = ceil_div (3 * z) 2.
Proof. apply scaled_exact. by right. Qed.

Lemma scale_down_exact (z : Z) : 0 < z <= 2 ^ 50 -> to_int64 (Ceil (fmul (of_int64 z) one_half)) = ceil_div z 2.
Proof. rewrite <- (Z.mul_1_l z) at 4. apply scaled_exact. by left. Qed.
End Exact.
