(* ===== verification/Bounds.v ===== *)
(** * Who set a resource value, and what the container gets

    [src/controller/pkg/provenance], [src/controller/pkg/fieldowners] and
    [src/console-api/internal/resourcebounds]: the owner of each quantity of a
    workload's spec from the object's managed fields, the way a resource is
    sized, and the request and limit that result. *)

From Stdlib Require Import Ascii.
From stdpp Require Import base tactics numbers countable list option strings gmap sorting.
From S2P Require Import Prelude GoStd Quantity Capacity.

Local Open Scope string_scope.

(** ** Field owners. *)

(** A decoded JSON value: objects matter, anything else does not. *)
Inductive json :=
| JObject (members : list (string * json))
| JOther.

(** The member of a decoded object; a later duplicate wins. *)
Fixpoint member (name : string) (members : list (string * json)) : option json :=
  match members with
  | [] => None
  | (k, v) :: rest => match member name rest with
                      | Some w => Some w
                      | None => if k =? name then Some v else None
                      end
  end.

Record ManagedFieldsEntry := mkEntry { Manager : string; FieldsV1 : option string }.

Fixpoint ownsLeaf (node : list (string * json)) (path : list string) : bool :=
  match path with
  | [] => match node with [] => true | _ => false end
  | name :: path' =>
      match member (String.append "f:" name) node with
      | Some (JObject child) => ownsLeaf child path'
      | _ => false
      end
  end.

Section Sizing.
(** [json.Unmarshal] into a map. *)
Variable Unmarshal : string -> option (list (string * json)).

Definition owner_of (path : list string) (entry : ManagedFieldsEntry) : option string :=
  raw ← FieldsV1 entry;
  fields ← Unmarshal raw;
  if ownsLeaf fields path then Some (Manager entry) else None.

Definition Owners (entries : list ManagedFieldsEntry) (path : list string) : list string :=
  Compact (Strings (omap (owner_of path) entries)).

(** ** Provenance. *)

Inductive Source := Unset | User | Automatic | Held.

#[export] Instance Source_eq_dec : EqDecision Source.
Proof. solve_decision. Defined.

Definition Source_String (s : Source) : string :=
  match s with Unset => "unset" | User => "user" | Automatic => "automatic" | Held => "held" end.

Definition automaticManager : string := "console-api".

Definition HeldManager : string := "kipper-held".

Definition provenanceManagers : list string := ["before-first-apply"; "velero"; HeldManager].

Fixpoint classify_owners (owners : list string) (automatic provenance : bool) : Source :=
  match owners with
  | [] => if automatic && negb provenance then Automatic else Held
  | owner :: owners' =>
      if owner =? automaticManager then classify_owners owners' true provenance
      else if bool_decide (owner ∈ provenanceManagers) then classify_owners owners' automatic true
      else User
  end.

Definition ClassifyApp (value : string) (managedFields : list ManagedFieldsEntry) (field : string) : Source :=
  if value =? "" then Unset
  else classify_owners (Owners managedFields ["spec"; "resources"; field]) false false.

Definition ClassifyOwned (value : string) : Source := if value =? "" then Unset else User.

Inductive Mode := ModeAutomatic | ModeBounded | ModeFixed | ModeHeld.

#[export] Instance Mode_eq_dec : EqDecision Mode.
Proof. solve_decision. Defined.

Definition Mode_String (m : Mode) : string :=
  match m with ModeAutomatic => "automatic" | ModeBounded => "bounded" | ModeFixed => "fixed" | ModeHeld => "held" end.

Definition is_user (s : Source) : bool := bool_decide (s = User).

Definition sizing_mode (request limit : Source) (requestBelowLimit : bool) : Mode :=
  if bool_decide (request = Held \/ limit = Held) then ModeHeld
  else if is_user request && is_user limit && requestBelowLimit then ModeBounded
  else if is_user request || is_user limit then ModeFixed
  else ModeAutomatic.

(** ** Quantities of a spec. *)

Context {Q : Type} `{Quantities Q}.

Record Quantity := mkQuantity { Value : Q; QSource : Source }.

Record Pair := mkPair { Request : Q; Limit : Q }.

Record AutoRange := mkRange { Floor : Q; LimitFloor : Q; Ceiling : Q }.

Definition forLimit (a : AutoRange) : AutoRange :=
  if above (LimitFloor a) (Floor a) then mkRange (LimitFloor a) (LimitFloor a) (Ceiling a) else a.

(** [AutoRange{}]. *)
Definition no_range : AutoRange := mkRange zero_quantity zero_quantity zero_quantity.

Definition ModeOf (request limit : Quantity) : Mode :=
  sizing_mode (QSource request) (QSource limit) (below (Value request) (Value limit)).

Definition mirrored (request limit : Quantity) : Pair :=
  match QSource request, QSource limit with
  | Unset, _ => mkPair (Value limit) (Value limit)
  | _, Unset => mkPair (Value request) (Value request)
  | _, _ => mkPair (Value request) (Value limit)
  end.

Definition clamp (v lo hi : Q) : Q := if below v lo then lo else if above v hi then hi else v.

Definition withinAuto (v : Q) (auto : AutoRange) : Q :=
  let v := if below v (Floor auto) then Floor auto else v in
  if negb (IsZero (Ceiling auto)) && above v (Ceiling auto) then Ceiling auto else v.

Definition Resolve (request limit : Quantity) (recommended : option Pair) (fallback : Pair) (auto : AutoRange) :
    Pair * Mode :=
  let mode := ModeOf request limit in
  match mode with
  | ModeHeld => (mirrored request limit, mode)
  | ModeFixed =>
      (if is_user (QSource limit) then mkPair (Value limit) (Value limit)
       else mkPair (Value request) (Value request), mode)
  | ModeBounded =>
      let wanted := match recommended with Some r => Request r | None => Request fallback end in
      (mkPair (clamp wanted (Value request) (Value limit)) (Value limit), mode)
  | ModeAutomatic =>
      let p := default fallback recommended in
      let request' := withinAuto (Request p) auto in
      let limit' := withinAuto (Limit p) (forLimit auto) in
      (mkPair request' (if below limit' request' then request' else limit'), ModeAutomatic)
  end.

(** ** Specs. *)

Record Spec := mkSpec { CPURequest : Quantity; CPULimit : Quantity; MemoryRequest : Quantity; MemoryLimit : Quantity }.

Record AppResources := mkResources {
  Profile : string; cpuRequest : string; cpuLimit : string; memoryRequest : string; memoryLimit : string
}.

Record App := mkApp { Resources : AppResources; ManagedFields : list ManagedFieldsEntry }.

(** A value that does not parse. *)
Record QuantityError := mkQuantityError { error_field : string; error_value : string }.

Definition parseQuantity (value field : string) (source : Source) : result QuantityError Quantity :=
  match source with
  | Unset => Ok (mkQuantity zero_quantity Unset)
  | _ => match ParseQuantity value with
         | None => Err (mkQuantityError field value)
         | Some v => Ok (mkQuantity v source)
         end
  end.

Definition buildSpec (classify : string -> string -> result QuantityError Quantity)
    (cpuReq cpuLim memReq memLim : string) : result QuantityError Spec :=
  cr ← classify cpuReq "cpuRequest";
  cl ← classify cpuLim "cpuLimit";
  mr ← classify memReq "memoryRequest";
  ml ← classify memLim "memoryLimit";
  Ok (mkSpec cr cl mr ml).

Definition AppSpec (app : App) : result QuantityError Spec :=
  let r := Resources app in
  buildSpec (fun value field => parseQuantity value field (ClassifyApp value (ManagedFields app) field))
    (cpuRequest r) (cpuLimit r) (memoryRequest r) (memoryLimit r).

Definition OwnedSpec (cpuReq cpuLim memReq memLim : string) : result QuantityError Spec :=
  buildSpec (fun value field => parseQuantity value field (ClassifyOwned value)) cpuReq cpuLim memReq memLim.

(** ** Containers. *)

(** The lists of a container; [None] is a nil map. *)
Abbreviation ResourceList := (@gmap string String.eq_dec String.countable Q).

Record ResourceRequirements := mkRequirements { Requests : option ResourceList; Limits : option ResourceList }.

Definition ResourceCPU : string := "cpu".

Definition ResourceMemory : string := "memory".

(** Reading a nil map finds nothing. *)
Definition get (l : option ResourceList) (name : string) : option Q := m ← l; m !! name.

Definition PairOf (r : option ResourceRequirements) (name : string) : option Pair :=
  r ← r;
  match get (Requests r) name, get (Limits r) name with
  | Some req, Some lim => Some (mkPair req lim)
  | Some req, None => Some (mkPair req req)
  | None, Some lim => Some (mkPair lim lim)
  | None, None => None
  end.

Record TunedResources := mkTuned {
  tCPURequest : string; tCPULimit : string; tMemoryRequest : string; tMemoryLimit : string
}.

Definition recommendedPair (request limit : string) : option Pair :=
  if request =? "" then None
  else
    req ← ParseQuantity request;
    if limit =? "" then Some (mkPair req req)
    else lim ← ParseQuantity limit; Some (mkPair req lim).

Definition applyDimension (desired : ResourceRequirements) (name : string) (request limit : Quantity)
    (rec : option Pair) (live : option ResourceRequirements) : ResourceRequirements :=
  let fallback := match PairOf live name with Some p => Some p | None => PairOf (Some desired) name end in
  match fallback, rec, QSource request, QSource limit with
  | None, None, Unset, Unset => desired
  | _, _, _, _ =>
      let p := (Resolve request limit rec (default (mkPair zero_quantity zero_quantity) fallback) no_range).1 in
      mkRequirements (Some (<[name := Request p]> (default ∅ (Requests desired))))
        (Some (<[name := Limit p]> (default ∅ (Limits desired))))
  end.

Definition Apply (desired : ResourceRequirements) (spec : Spec) (rec : option TunedResources)
    (live : option ResourceRequirements) : ResourceRequirements :=
  let desired := mkRequirements (Some (default ∅ (Requests desired))) (Some (default ∅ (Limits desired))) in
  let cpuRec := r ← rec; recommendedPair (tCPURequest r) (tCPULimit r) in
  let memRec := r ← rec; recommendedPair (tMemoryRequest r) (tMemoryLimit r) in
  let desired := applyDimension desired ResourceCPU (CPURequest spec) (CPULimit spec) cpuRec live in
  applyDimension desired ResourceMemory (MemoryRequest spec) (MemoryLimit spec) memRec live.

(** ** Changed requests. *)

Definition sameQuantity (s : string) (q : Q) : bool :=
  match ParseQuantity s with Some v => same v q | None => false end.

Definition changed (request limit : Quantity) (under : string) : bool :=
  bool_decide (ModeOf request limit = ModeBounded) && negb (sameQuantity under (Value request)).

Definition changedRequests (spec : Spec) (under : option TunedResources) : bool * bool :=
  match under with
  | None => (false, false)
  | Some u => (changed (CPURequest spec) (CPULimit spec) (tCPURequest u),
               changed (MemoryRequest spec) (MemoryLimit spec) (tMemoryRequest u))
  end.

Definition WithChangedRequests (rec : TunedResources) (spec : Spec) (under : option TunedResources) : TunedResources :=
  let '(cpu, memory) := changedRequests spec under in
  mkTuned
    (if cpu then QString (Value (CPURequest spec)) else tCPURequest rec)
    (if cpu then QString (Value (CPULimit spec)) else tCPULimit rec)
    (if memory then QString (Value (MemoryRequest spec)) else tMemoryRequest rec)
    (if memory then QString (Value (MemoryLimit spec)) else tMemoryLimit rec).

Definition runsRequest (live : option ResourceRequirements) (name : string) (request : Q) : bool :=
  match live with
  | None => false
  | Some l => match get (Requests l) name with Some have => same have request | None => false end
  end.

Definition PendingRequests (spec : Spec) (under : option TunedResources) (live : option ResourceRequirements) :
    bool * bool :=
  let '(cpu, memory) := changedRequests spec under in
  (cpu && negb (runsRequest live ResourceCPU (Value (CPURequest spec))),
   memory && negb (runsRequest live ResourceMemory (Value (MemoryRequest spec)))).

Definition user_request (q : Quantity) : string := if is_user (QSource q) then QString (Value q) else "".

Definition NextRecommendedUnder (spec : Spec) (under : option TunedResources) (live : option ResourceRequirements) :
    TunedResources :=
  let '(cpu, memory) := PendingRequests spec under live in
  let u := default (mkTuned "" "" "" "") under in
  mkTuned (if cpu then tCPURequest u else user_request (CPURequest spec)) ""
    (if memory then tMemoryRequest u else user_request (MemoryRequest spec)) "".

(** ** Tracked metrics. *)

Record Tracked := mkTracked { CPU : bool; Memory : bool }.

(** The metrics of an autoscaler, seen as the resources it reads; other kinds of
    metric are [None]. *)
Definition AutoscalerMetrics (hpa : option (list (option string))) : Tracked :=
  match hpa with
  | None => mkTracked false false
  | Some metrics =>
      foldl (fun t m =>
        match m with
        | Some name =>
            if name =? ResourceCPU then mkTracked true (Memory t)
            else if name =? ResourceMemory then mkTracked (CPU t) true else t
        | None => t
        end) (mkTracked false false) metrics
  end.

Definition TrackedMetrics (autoscale : option Policy) (hpa : option (list (option string))) : Tracked :=
  match autoscale with
  | None => mkTracked false false
  | Some a =>
      if negb (Enabled a) then mkTracked false false
      else if Usable autoscale then
        mkTracked (0 <? default 0 (CPUTarget a))%Z (0 <? default 0 (MemoryTarget a))%Z
      else AutoscalerMetrics hpa
  end.

Record OOMRecord := mkOOMRecord { Identity : string; At : Time; Alerted : bool }.

Record ResourceTuningStatus := mkStatus {
  Recommendation_ : TunedResources;
  RecommendedUnder : option TunedResources;
  RecommendedAt : option Time;
  DecreaseBlockedUntil : option Time;
  LastOOM : option OOMRecord;
  MemoryCause : string
}.

Definition MemoryCauseOOMKill : string := "OOMKill".

Definition Recommendation (t : Tracked) (status : ResourceTuningStatus) : TunedResources :=
  let rec := Recommendation_ status in
  let dropMemory := Memory t && negb (MemoryCause status =? MemoryCauseOOMKill) in
  mkTuned (if CPU t then "" else tCPURequest rec) (if CPU t then "" else tCPULimit rec)
    (if dropMemory then "" else tMemoryRequest rec) (if dropMemory then "" else tMemoryLimit rec).

(** ** Copy and migration. *)

(** What one quantity carries, and whether it is to be claimed. *)
Definition carry (app : App) (field value : string) : string * option string :=
  match ClassifyApp value (ManagedFields app) field with
  | User => (value, Some value)
  | Held => (value, None)
  | _ => ("", None)
  end.

Definition CarriedQuantities (app : App) : AppResources * gmap string string :=
  let r := Resources app in
  let c1 := carry app "cpuRequest" (cpuRequest r) in
  let c2 := carry app "cpuLimit" (cpuLimit r) in
  let c3 := carry app "memoryRequest" (memoryRequest r) in
  let c4 := carry app "memoryLimit" (memoryLimit r) in
  let claim (field : string) (c : string * option string) (m : gmap string string) :=
    match c.2 with Some v => <[field := v]> m | None => m end in
  (mkResources (Profile r) c1.1 c2.1 c3.1 c4.1,
   claim "memoryLimit" c4 (claim "memoryRequest" c3 (claim "cpuLimit" c2 (claim "cpuRequest" c1 ∅)))).
End Sizing.
