(* ===== verification/BoundsProps.v ===== *)
(** * Resource bounds: theorems

    What a person set is respected: the classification of values, the sizes that
    result, the fixpoint of reconciling, and the life of an edited request. *)

From Stdlib Require Import Ascii.
From stdpp Require Import base tactics numbers countable list option strings gmap sorting.
From S2P Require Import Prelude GoStd Quantity Capacity Bounds.

Local Open Scope string_scope.

(** ** Owners. *)

Section Classification.
Variable Unmarshal : string -> option (list (string * json)).

(** A manager owns a field of an object. *)
Definition owns (entries : list ManagedFieldsEntry) (path : list string) (manager : string) : Prop :=
  exists entry, entry ∈ entries /\ owner_of Unmarshal path entry = Some manager.

Lemma elem_of_Owners entries path manager : manager ∈ Owners Unmarshal entries path <-> owns entries path manager.
Proof. unfold Owners. rewrite elem_of_Compact, elem_of_Strings, list_elem_of_omap. done. Qed.

(** A manager that stands for a person's choice, and one that carries values. *)
Definition personal (m : string) : Prop := m <> automaticManager /\ m ∉ provenanceManagers.

Definition carrier (m : string) : Prop := m ∈ provenanceManagers.

#[local] Instance personal_dec m : Decision (personal m).
Proof. unfold personal. apply _. Defined.

#[local] Instance carrier_dec m : Decision (carrier m).
Proof. unfold carrier. apply _. Defined.

Lemma Exists_skip {A : Type} (P : A -> Prop) a l : ~ P a -> (Exists P (a :: l) <-> Exists P l).
Proof. intros Ha. rewrite Exists_cons. tauto. Qed.

Lemma automatic_no_carrier : ~ carrier automaticManager.
Proof. unfold carrier. apply (bool_decide_unpack _). exact I. Qed.

Lemma classify_owners_spec owners automatic provenance :
  classify_owners owners automatic provenance =
  if decide (Exists personal owners) then User
  else if (automatic || bool_decide (automaticManager ∈ owners)) &&
          negb (provenance || bool_decide (Exists carrier owners)) then Automatic
  else Held.
Proof.
  revert automatic provenance. induction owners as [|o owners IH]; intros automatic provenance; cbn [classify_owners].
  - rewrite decide_False by (intros He; inversion He). rewrite (bool_decide_eq_false_2 (automaticManager ∈ [])) by (intros He; inversion He).
    rewrite (bool_decide_eq_false_2 (Exists _ [])) by (intros He; inversion He). by rewrite !orb_false_r.
  - destruct (String.eqb_spec o automaticManager) as [->|Hne]; [|destruct (bool_decide (o ∈ provenanceManagers)) eqn:Hp].
    + rewrite IH. rewrite (bool_decide_eq_true_2 (automaticManager ∈ automaticManager :: owners)) by left.
      rewrite orb_true_l, orb_true_r.
      rewrite (decide_ext _ _ _ _ (Exists_skip personal automaticManager owners (fun H => proj1 H eq_refl))).
      by rewrite (bool_decide_ext _ _ (Exists_skip carrier automaticManager owners automatic_no_carrier)).
    + apply bool_decide_eq_true in Hp. rewrite IH.
      rewrite (decide_ext _ _ _ _ (Exists_skip personal o owners (fun H => proj2 H Hp))).
      rewrite (bool_decide_eq_true_2 (Exists carrier (o :: owners))) by (by left).
      by rewrite !orb_true_l, orb_true_r, !andb_false_r.
    + apply bool_decide_eq_false in Hp. rewrite decide_True by (by left). done.
Qed.

(** A value a person set is never taken for an automatic one. For a value
    that is set: it is the user's exactly when some manager other than the old
    auto-sizer and those that only carry values owns the field; it is automatic
    exactly when the old auto-sizer owns it and nobody else does; it is held, and
    left alone, in every other case, objects without managed fields included. *)
Theorem classification_exact (value : string) (entries : list ManagedFieldsEntry) (field : string)
    (Hset : value <> "") :
  let path := ["spec"; "resources"; field] in
  let source := ClassifyApp Unmarshal value entries field in
  (source = User <-> exists m, owns entries path m /\ m <> automaticManager /\ m ∉ provenanceManagers) /\
  (source = Automatic <-> owns entries path automaticManager /\ forall m, owns entries path m -> m = automaticManager) /\
  source <> Unset.
Proof.
  cbv zeta. unfold ClassifyApp. apply String.eqb_neq in Hset. rewrite Hset, classify_owners_spec.
  set (owners := Owners Unmarshal entries _). cbn [orb].
  assert (Ho : forall m, m ∈ owners <-> owns entries ["spec"; "resources"; field] m) by (intros m; apply elem_of_Owners).
  destruct (decide (Exists personal owners)) as [He|He].
  - split_and!; [|split; [done|]|done].
    + split; [intros _|done]. apply Exists_exists in He as (m & Hm & Hne). exists m. by rewrite <- Ho.
    + intros [_ Hall]. apply Exists_exists in He as (m & Hm & Hne & _). destruct Hne. by apply Hall, Ho.
  - assert (Hno : forall m, m ∈ owners -> m = automaticManager \/ m ∈ provenanceManagers).
    { intros m Hm. destruct (decide (m = automaticManager)) as [|Hne]; [by left|].
      destruct (decide (m ∈ provenanceManagers)) as [|Hnp]; [by right|]. destruct He. apply Exists_exists. by exists m. }
    pose proof automatic_no_carrier as Hpa.
    destruct (bool_decide (automaticManager ∈ owners)) eqn:Ha; cbn [andb].
    + apply bool_decide_eq_true in Ha. destruct (bool_decide (Exists carrier owners)) eqn:Hp; cbn [negb].
      * apply bool_decide_eq_true, Exists_exists in Hp as (m & Hm & Hmp).
        split_and!; [split; [done|]|split; [done|]|done].
        -- intros (m' & Hm' & Hne & Hnp). apply Ho, Hno in Hm' as [|]; done.
        -- intros [_ Hall]. apply Ho, Hall in Hm as ->. done.
      * apply bool_decide_eq_false in Hp. split_and!; [split; [done|]|split; [intros _|done]|done].
        -- intros (m' & Hm' & Hne & Hnp). apply Ho, Hno in Hm' as [|]; done.
        -- split; [by apply Ho|]. intros m Hm. apply Ho in Hm as Hin. destruct (Hno m Hin) as [|Hmp]; [done|].
           destruct Hp. apply Exists_exists. by exists m.
    + apply bool_decide_eq_false in Ha. split_and!; [split; [done|]|split; [done|]|done].
      * intros (m' & Hm' & Hne & Hnp). apply Ho, Hno in Hm' as [|]; done.
      * intros [Hin _]. by apply Ho in Hin.
Qed.
End Classification.

(** ** Sizes. *)

Section Sizes.
Context {Q : Type} `{QuantityLaws Q}.

Implicit Types (rq lm : Quantity (Q := Q)) (p : Pair (Q := Q)) (auto : AutoRange (Q := Q)).

Lemma is_user_spec s : is_user s = true <-> s = User.
Proof. apply bool_decide_eq_true. Qed.

(** What the mode says of the sources. *)
Lemma ModeOf_spec rq lm :
  match ModeOf rq lm with
  | ModeHeld => QSource rq = Held \/ QSource lm = Held
  | ModeBounded => QSource rq = User /\ QSource lm = User /\ amount (Value rq) < amount (Value lm)
  | ModeFixed => (QSource rq = User \/ QSource lm = User) /\ QSource rq <> Held /\ QSource lm <> Held
  | ModeAutomatic => QSource rq <> User /\ QSource lm <> User /\ QSource rq <> Held /\ QSource lm <> Held
  end.
Proof.
  unfold ModeOf, sizing_mode. destruct (bool_decide_reflect (QSource rq = Held \/ QSource lm = Held)) as [Hh|Hh]; [done|].
  unfold is_user. destruct (bool_decide_reflect (QSource rq = User)) as [Hr|Hr],
    (bool_decide_reflect (QSource lm = User)) as [Hl|Hl]; cbn [andb orb]; try tauto.
  destruct (below (Value rq) (Value lm)) eqn:Hb; [|tauto]. rewrite below_spec in Hb. apply Z.ltb_lt in Hb. done.
Qed.

Lemma clamp_spec v lo hi :
  amount lo <= amount hi ->
  amount lo <= amount (clamp v lo hi) <= amount hi /\
  (amount lo <= amount v <= amount hi -> clamp v lo hi = v).
Proof. intros Hle. unfold clamp. quantities; split; try done; lia. Qed.

Lemma withinAuto_spec v auto :
  let w := withinAuto v auto in
  (amount (Ceiling auto) <> 0 -> amount w <= amount (Ceiling auto)) /\
  (amount (Ceiling auto) = 0 \/ amount (Floor auto) <= amount (Ceiling auto) -> amount (Floor auto) <= amount w) /\
  (amount (Floor auto) <= amount v -> amount (Ceiling auto) = 0 \/ amount v <= amount (Ceiling auto) -> w = v).
Proof.
  cbv zeta. unfold withinAuto. quantities; split_and!; try done; try lia; intros; try lia; by destruct_or?.
Qed.

(** Automatic sizes stay in the range, the limit above the request. *)
Lemma Resolve_automatic rq lm (recommended : option (Pair (Q := Q))) (fallback : Pair (Q := Q)) auto :
  ModeOf rq lm = ModeAutomatic ->
  let p := (Resolve rq lm recommended fallback auto).1 in
  amount (Request p) <= amount (Limit p) /\
  (amount (Ceiling auto) <> 0 -> amount (Limit p) <= amount (Ceiling auto)) /\
  (amount (Ceiling auto) = 0 \/ amount (Floor auto) <= amount (Ceiling auto) ->
     amount (Floor auto) <= amount (Request p)) /\
  (amount (Ceiling auto) = 0 \/ Z.max (amount (Floor auto)) (amount (LimitFloor auto)) <= amount (Ceiling auto) ->
     amount (LimitFloor auto) <= amount (Limit p)).
Proof.
  intros Hm. cbv zeta. unfold Resolve. rewrite Hm. cbn [fst].
  set (w := default fallback recommended); set (r := withinAuto (Request w) auto);
    set (l := withinAuto (Limit w) (forLimit auto));
    pose proof (withinAuto_spec (Request w) auto) as (Hr1 & Hr2 & _);
    pose proof (withinAuto_spec (Limit w) (forLimit auto)) as (Hl1 & Hl2 & _);
    fold r in Hr1, Hr2; fold l in Hl1, Hl2; unfold forLimit in Hl1, Hl2; cbn [Request Limit] in *.
  destruct (above (LimitFloor auto) (Floor auto)) eqn:Ha; cbn [Floor Ceiling] in Hl1, Hl2;
    rewrite above_spec in Ha; destruct (below l r) eqn:Hb; rewrite below_spec in Hb;
    try apply Z.ltb_lt in Ha; try apply Z.ltb_ge in Ha; try apply Z.ltb_lt in Hb; try apply Z.ltb_ge in Hb; lia.
Qed.

(** Between two user values only the request moves. *)
Lemma Resolve_bounded rq lm (recommended : option (Pair (Q := Q))) (fallback : Pair (Q := Q)) auto :
  ModeOf rq lm = ModeBounded ->
  let p := (Resolve rq lm recommended fallback auto).1 in
  let wanted := Request (default fallback recommended) in
  Limit p = Value lm /\ amount (Value rq) <= amount (Request p) <= amount (Value lm) /\
  (amount (Value rq) <= amount wanted <= amount (Value lm) -> Request p = wanted).
Proof.
  intros Hm. cbv zeta. pose proof (ModeOf_spec rq lm) as Hs. rewrite Hm in Hs. destruct Hs as (_ & _ & Hlt).
  unfold Resolve. rewrite Hm. cbn [fst Request Limit].
  assert (Hw : match recommended with Some r => Request r | None => Request fallback end =
    Request (default fallback recommended)) by (by destruct recommended).
  rewrite Hw. destruct (clamp_spec (Request (default fallback recommended)) (Value rq) (Value lm)) as [Hc Hid]; [lia|].
  split_and!; try done; lia.
Qed.

Lemma Resolve_mode rq lm (recommended : option (Pair (Q := Q))) (fallback : Pair (Q := Q)) auto :
  (Resolve rq lm recommended fallback auto).2 = ModeOf rq lm.
Proof. unfold Resolve. by destruct (ModeOf rq lm). Qed.

(** Bounds are respected. Whatever usage recommends and whatever is
    running: held values are kept as they are; a single user value, or a user
    pair that leaves no room, is the size, exactly; between a user's request and
    limit only the request moves, it stays between them, the limit is the user's,
    and a wanted request inside of the bounds is granted as it is; without user
    values the request never exceeds the limit and both stay in the automatic
    range. *)
Theorem resolve_respects_bounds rq lm (recommended : option (Pair (Q := Q))) (fallback : Pair (Q := Q)) auto :
  let wanted := default fallback recommended in
  let '(p, mode) := Resolve rq lm recommended fallback auto in
  mode = ModeOf rq lm /\
  match mode with
  | ModeHeld => p = mirrored rq lm
  | ModeFixed =>
      Request p = Limit p /\
      ((QSource lm = User /\ Limit p = Value lm) \/ (QSource lm <> User /\ QSource rq = User /\ Limit p = Value rq))
  | ModeBounded =>
      QSource rq = User /\ QSource lm = User /\ Limit p = Value lm /\
      amount (Value rq) <= amount (Request p) <= amount (Value lm) /\
      (amount (Value rq) <= amount (Request wanted) <= amount (Value lm) -> Request p = Request wanted)
  | ModeAutomatic =>
      QSource rq <> User /\ QSource lm <> User /\
      amount (Request p) <= amount (Limit p) /\
      (amount (Ceiling auto) <> 0 -> amount (Limit p) <= amount (Ceiling auto)) /\
      (amount (Ceiling auto) = 0 \/ amount (Floor auto) <= amount (Ceiling auto) ->
         amount (Floor auto) <= amount (Request p)) /\
      (amount (Ceiling auto) = 0 \/ Z.max (amount (Floor auto)) (amount (LimitFloor auto)) <= amount (Ceiling auto) ->
         amount (LimitFloor auto) <= amount (Limit p))
  end.
Proof.
  cbv zeta. pose proof (Resolve_mode rq lm recommended fallback auto) as Hmode.
  pose proof (Resolve_automatic rq lm recommended fallback auto) as Hauto.
  pose proof (Resolve_bounded rq lm recommended fallback auto) as Hbounded. cbv zeta in *.
  pose proof (ModeOf_spec rq lm) as Hm.
  destruct (Resolve rq lm recommended fallback auto) as [p mode] eqn:Hr. cbn [fst snd] in *. split; [done|]. subst mode.
  unfold Resolve in Hr. destruct (ModeOf rq lm).
  - destruct Hm as (H1 & H2 & _). destruct (Hauto eq_refl) as (H3 & H4 & H5 & H6). split_and!; (done || assumption || apply H4 || apply H5 || lia).
  - destruct Hm as (H1 & H2 & _). destruct (Hbounded eq_refl) as (H3 & H4 & H5). split_and!; (done || assumption || apply H4 || apply H5 || lia).
  - destruct Hm as (H1 & _). injection Hr as <-. destruct (is_user (QSource lm)) eqn:Hu; cbn [Request Limit]; (split; [done|]).
    + left. split; [by apply is_user_spec|done].
    + right. assert (Hn : QSource lm <> User) by (intros Hl; apply is_user_spec in Hl; congruence).
      split_and!; [done|by destruct H1|done].
  - by injection Hr as <-.
Qed.

(** ** Reconciling. *)

Lemma Resolve_fixpoint rq lm rec (fallback : Pair (Q := Q)) :
  let p := (Resolve rq lm rec fallback no_range).1 in (Resolve rq lm rec p no_range).1 = p.
Proof.
  cbv zeta. unfold Resolve. pose proof (ModeOf_spec rq lm) as Hm. destruct (ModeOf rq lm); cbn [fst]; [| |done|done].
  - destruct rec as [r|]; [done|]. cbn [default Request Limit]. unfold forLimit, no_range, withinAuto.
    cbn [Floor LimitFloor Ceiling Request Limit]. quantities; rewrite ?amount_zero in *; cbn [Floor LimitFloor Ceiling] in *;
      quantities; rewrite ?amount_zero in *; try lia.
  - destruct rec as [r|]; [done|]. cbn [Request]. f_equal. destruct Hm as (_ & _ & Hlt).
    destruct (clamp_spec (Request fallback) (Value rq) (Value lm)) as [Hc _]; [lia|].
    by apply (clamp_spec _ (Value rq) (Value lm)); [lia|].
Qed.

Implicit Types (d : ResourceRequirements (Q := Q)) (live : option (ResourceRequirements (Q := Q))).

Lemma get_insert_other (l : option (gmap string Q)) (name other : string) (v : Q) :
  name <> other -> get (Some (<[name := v]> (default ∅ l))) other = get l other.
Proof. intros Hne. unfold get. cbn [mbind option_bind]. rewrite lookup_insert_ne by done. by destruct l. Qed.

(** What one dimension sets. *)
Lemma applyDimension_spec d name rq lm rec live :
  let fallback := match PairOf live name with Some p => Some p | None => PairOf (Some d) name end in
  (applyDimension d name rq lm rec live = d /\ fallback = None /\ rec = None /\ QSource rq = Unset /\ QSource lm = Unset) \/
  (exists p, p = (Resolve rq lm rec (default (mkPair zero_quantity zero_quantity) fallback) no_range).1 /\
     (fallback <> None \/ rec <> None \/ QSource rq <> Unset \/ QSource lm <> Unset) /\
     applyDimension d name rq lm rec live =
       mkRequirements (Some (<[name := Request p]> (default ∅ (Requests d))))
         (Some (<[name := Limit p]> (default ∅ (Limits d))))).
Proof.
  cbv zeta. unfold applyDimension. set (fb := match PairOf live name with Some p => Some p | None => _ end).
  destruct fb as [p|], rec as [r|], (QSource rq) eqn:Hr, (QSource lm) eqn:Hl;
    first [by left | right; eexists; split; [reflexivity|split; [|reflexivity]]; solve [by left | by (right; left) | by (right; right; left) | by (right; right; right)]].
Qed.

Lemma applyDimension_other d name other rq lm rec live :
  name <> other -> PairOf (Some (applyDimension d name rq lm rec live)) other = PairOf (Some d) other.
Proof.
  intros Hne. destruct (applyDimension_spec d name rq lm rec live) as [[-> _]|(p & _ & _ & ->)]; [done|].
  unfold PairOf. cbn [mbind option_bind Requests Limits]. by rewrite !get_insert_other.
Qed.

(** A dimension computed again over its own result. *)
Lemma applyDimension_again d name rq lm rec live live' :
  PairOf live' name = PairOf (Some (applyDimension d name rq lm rec live)) name ->
  applyDimension d name rq lm rec live' = applyDimension d name rq lm rec live.
Proof.
  intros Hlive. destruct (applyDimension_spec d name rq lm rec live) as [(Hd & Hfb & -> & Hr & Hl)|(p & Hp & Hset & Hd)];
    rewrite Hd in Hlive.
  - rewrite Hd. unfold applyDimension. rewrite Hlive, Hr, Hl.
    destruct (PairOf live name); [done|]. by rewrite Hfb.
  - assert (Hpair : PairOf live' name = Some p).
    { rewrite Hlive. unfold PairOf, get. cbn [mbind option_bind Requests Limits].
      rewrite !lookup_insert_eq. by destruct p. }
    rewrite Hd. unfold applyDimension. rewrite Hpair. cbv beta iota zeta. cbn [default]. unfold id.
    assert (Hfix : (Resolve rq lm rec p no_range).1 = p) by (rewrite Hp; apply Resolve_fixpoint). by rewrite Hfix.
Qed.

(** Reconciling reaches a fixpoint at once. Applying a spec and a
    recommendation to what a first application made the container run changes
    nothing, for any defaults, any recommendation and any live resources: the
    reconciler does not roll a workload twice for one decision. *)
Theorem reconcile_idempotent d (spec : Spec (Q := Q)) (rec : option TunedResources) live :
  Apply d spec rec (Some (Apply d spec rec live)) = Apply d spec rec live.
Proof.
  unfold Apply. set (d0 := mkRequirements _ _). set (cr := mbind _ rec). set (mr := mbind _ rec).
  set (dc := applyDimension d0 ResourceCPU (CPURequest spec) (CPULimit spec) cr live).
  set (d1 := applyDimension dc ResourceMemory (MemoryRequest spec) (MemoryLimit spec) mr live).
  assert (Hc : applyDimension d0 ResourceCPU (CPURequest spec) (CPULimit spec) cr (Some d1) = dc).
  { apply applyDimension_again. unfold d1. by rewrite applyDimension_other. }
  rewrite Hc. by apply applyDimension_again.
Qed.

(** ** Edited requests. *)

(** The auto-sizer's passes over a workload, with what runs at each. *)
Definition passes_over (spec : Spec (Q := Q)) (under : TunedResources) (lives : list (option (ResourceRequirements (Q := Q)))) :
    TunedResources :=
  foldl (fun u live => NextRecommendedUnder spec (Some u) live) under lives.

Lemma sameQuantity_QString (q : Q) : sameQuantity (QString q) q = true.
Proof.
  unfold sameQuantity. destruct (Parse_String q) as (b & -> & Hb & _). rewrite same_spec, Hb. by apply Z.eqb_refl.
Qed.

(** One pass, seen on one resource. *)
Lemma next_under rq lm under (runs : bool) :
  let next := if changed rq lm under && negb runs then under else user_request rq in
  (changed rq lm under = true -> runs = false -> next = under) /\
  (changed rq lm under = false \/ runs = true -> changed rq lm next = false).
Proof.
  cbv zeta. split; [intros -> ->; done|]. intros Hc.
  assert (Hn : changed rq lm under && negb runs = false) by (destruct Hc as [-> | ->]; [done|by rewrite andb_false_r]).
  rewrite Hn. unfold changed. pose proof (ModeOf_spec rq lm) as Hm.
  destruct (bool_decide_reflect (ModeOf rq lm = ModeBounded)) as [Hb|]; [|done]. rewrite Hb in Hm.
  unfold user_request. rewrite (proj2 (is_user_spec _)) by apply Hm. by rewrite sameQuantity_QString.
Qed.

(** One resource of a spec, a recommendation or an answer for both. *)
Inductive dimension := CPUDimension | MemoryDimension.

Definition resource_of (dim : dimension) : string :=
  match dim with CPUDimension => ResourceCPU | MemoryDimension => ResourceMemory end.

Definition request_of (dim : dimension) (spec : Spec (Q := Q)) : Quantity :=
  match dim with CPUDimension => CPURequest spec | MemoryDimension => MemoryRequest spec end.

Definition limit_of (dim : dimension) (spec : Spec (Q := Q)) : Quantity :=
  match dim with CPUDimension => CPULimit spec | MemoryDimension => MemoryLimit spec end.

Definition tuned_of (dim : dimension) (t : TunedResources) : string * string :=
  match dim with
  | CPUDimension => (tCPURequest t, tCPULimit t)
  | MemoryDimension => (tMemoryRequest t, tMemoryLimit t)
  end.

Definition answer_of (dim : dimension) (answers : bool * bool) : bool :=
  match dim with CPUDimension => answers.1 | MemoryDimension => answers.2 end.

(** An edited request is not lost. Once a user changes a bounded request,
    every pass of the auto-sizer over a workload that does not run it yet, however
    many there are, leaves the change detectable: the recommendation handed to
    the reconciler carries the user's request and limit, so that automatic values
    computed for the old size are not applied. The first pass that finds the
    request running ends the edit. *)
Theorem edit_held_until_adopted (dim : dimension) (spec : Spec (Q := Q)) (under rec : TunedResources)
    (lives : list (option (ResourceRequirements (Q := Q)))) (adopted : option (ResourceRequirements (Q := Q)))
    (Hedit : changed (request_of dim spec) (limit_of dim spec) (tuned_of dim under).1 = true)
    (Hwait : Forall (fun live => runsRequest live (resource_of dim) (Value (request_of dim spec)) = false) lives)
    (Hadopted : runsRequest adopted (resource_of dim) (Value (request_of dim spec)) = true) :
  let waiting := passes_over spec under lives in
  answer_of dim (PendingRequests spec (Some waiting) (last lives ≫= id)) = true /\
  tuned_of dim (WithChangedRequests rec spec (Some waiting)) =
    (QString (Value (request_of dim spec)), QString (Value (limit_of dim spec))) /\
  let ended := NextRecommendedUnder spec (Some waiting) adopted in
  answer_of dim (changedRequests spec (Some ended)) = false /\
  tuned_of dim (WithChangedRequests rec spec (Some ended)) = tuned_of dim rec.
Proof.
  cbv zeta. set (waiting := passes_over spec under lives).
  assert (Hstep : forall u live, (tuned_of dim (NextRecommendedUnder spec (Some u) live)).1 =
    (if changed (request_of dim spec) (limit_of dim spec) (tuned_of dim u).1 &&
        negb (runsRequest live (resource_of dim) (Value (request_of dim spec))) then (tuned_of dim u).1
     else user_request (request_of dim spec))) by (by destruct dim).
  assert (Hw : (tuned_of dim waiting).1 = (tuned_of dim under).1).
  { unfold waiting, passes_over. revert under Hedit waiting. induction Hwait as [|live lives Hl _ IH]; intros under Hedit waiting; [done|].
    cbn [foldl]. rewrite IH; rewrite Hstep, Hedit, Hl; done. }
  assert (Hlast : runsRequest (last lives ≫= id) (resource_of dim) (Value (request_of dim spec)) = false).
  { destruct (last lives) as [live|] eqn:Hl; [|done]. apply last_Some in Hl as [l ->].
    apply Forall_app in Hwait as [_ Hwait]. exact (Forall_inv Hwait). }
  assert (Hch : changed (request_of dim spec) (limit_of dim spec) (tuned_of dim waiting).1 = true) by (by rewrite Hw).
  assert (Hend : changed (request_of dim spec) (limit_of dim spec)
    (tuned_of dim (NextRecommendedUnder spec (Some waiting) adopted)).1 = false) by (rewrite Hstep; apply next_under; by right).
  unfold PendingRequests, WithChangedRequests, changedRequests.
  destruct dim; cbn [tuned_of request_of limit_of resource_of answer_of fst snd] in *; by rewrite Hch, Hend, Hlast.
Qed.
End Sizes.

(** ** Concrete sizes. *)

Definition user (milli : Z) : Quantity (Q := Milli) := mkQuantity milli User.

Definition demo_spec : Spec (Q := Milli) := mkSpec (user 200) (user 1000) (mkQuantity 512 Automatic) (mkQuantity 512 Automatic).

Definition running (cpu : Z) : option (ResourceRequirements (Q := Milli)) :=
  Some (mkRequirements (Some {[ ResourceCPU := cpu ]}) None).

Definition demo_live : ResourceRequirements (Q := Milli) :=
  mkRequirements (Some {[ ResourceCPU := (100 : Milli); ResourceMemory := (2000 : Milli) ]}) None.

Definition demo_tuned : TunedResources := mkTuned "1500m" "1500m" "" "".

(** The user allows 200m to 1000m: a recommendation of 1500m is cut to 1000m. *)
Lemma reconcile_idempotent_witness :
  let applied := Apply (Q := Milli) (mkRequirements None None) demo_spec (Some demo_tuned) (Some demo_live) in
  get (Requests applied) ResourceCPU = Some 1000 /\ get (Requests applied) ResourceMemory = Some 2000 /\
  Apply (mkRequirements None None) demo_spec (Some demo_tuned) (Some applied) = applied.
Proof.
  split_and!; [vm_compute; reflexivity|vm_compute; reflexivity|]. apply reconcile_idempotent.
Defined.

Lemma resolve_respects_bounds_witness :
  let '(p, mode) := Resolve (Q := Milli) (user 200) (user 1000) None (mkPair 1500 1500) no_range in
  mode = ModeBounded /\ Request p = 1000 /\ 200 <= Request p <= 1000.
Proof.
  pose proof (resolve_respects_bounds (Q := Milli) (user 200) (user 1000) None (mkPair 1500 1500) no_range) as H.
  destruct (Resolve (Q := Milli) (user 200) (user 1000) None (mkPair 1500 1500) no_range) as [p mode] eqn:Hr.
  destruct H as [Hm H]. assert (Hb : mode = ModeBounded) by (rewrite Hm; reflexivity). rewrite Hb in H.
  destruct H as (_ & _ & _ & H & _). split_and!; [exact Hb| |exact (proj1 H)|exact (proj2 H)].
  injection Hr as <- _. reflexivity.
Defined.

Definition demo_fields (raw : string) : option (list (string * json)) :=
  if (raw =? "cpu")%string
  then Some [("f:spec", JObject [(".", JObject []); ("f:resources", JObject [("f:cpuLimit", JObject [])])])]
  else None.

Definition demo_managed : list ManagedFieldsEntry :=
  [mkEntry "console-api" (Some "cpu"); mkEntry "kip" (Some "unreadable")].

Lemma classification_exact_witness :
  "500m" <> "" /\ ClassifyApp demo_fields "500m" demo_managed "cpuLimit" = Automatic /\
  ~ (exists m, owns demo_fields demo_managed ["spec"; "resources"; "cpuLimit"] m /\
       m <> automaticManager /\ m ∉ provenanceManagers).
Proof.
  split; [discriminate|]. split; [vm_compute; reflexivity|].
  destruct (classification_exact demo_fields "500m" demo_managed "cpuLimit" ltac:(discriminate)) as (H & _ & _).
  intros Hm. apply H in Hm. assert (Hc : ClassifyApp demo_fields "500m" demo_managed "cpuLimit" = Automatic)
    by (vm_compute; reflexivity). rewrite Hc in Hm. discriminate.
Defined.

Lemma edit_held_until_adopted_witness :
  let under := mkTuned "100m" "" "" "" in
  changed (CPURequest demo_spec) (CPULimit demo_spec) "100m" = true /\
  answer_of CPUDimension (PendingRequests demo_spec (Some (passes_over demo_spec under [running 100; None; running 150])) (running 150)) = true /\
  answer_of CPUDimension (changedRequests demo_spec
    (Some (NextRecommendedUnder demo_spec (Some (passes_over demo_spec under [running 100; None; running 150])) (running 200)))) = false.
Proof.
  cbv zeta. split; [vm_compute; reflexivity|].
  destruct (edit_held_until_adopted (Q := Milli) CPUDimension demo_spec (mkTuned "100m" "" "" "") demo_tuned
    [running 100; None; running 150] (running 200)) as (H1 & _ & H2 & _).
  - vm_compute. reflexivity.
  - repeat constructor.
  - vm_compute. reflexivity.
  - split; [exact H1|exact H2].
Defined.
