(* ===== verification/Quota.v ===== *)
(** * The project quota projection ([src/console-api/quota/quota.go])

    Whether a change of a workload's resources fits the namespace quota, once
    all pods are replaced and at the peak of the rollout. *)

From Stdlib Require Import Ascii.
From stdpp Require Import base tactics numbers countable list option strings gmap sorting.
From S2P Require Import Prelude GoStd Quantity Bounds.

Local Open Scope string_scope.

Definition MaxInt32 : Z := 2 ^ 31 - 1.

Inductive IntOrString := FromInt (n : Z) | FromString (s : string).

(** The update strategy of a Deployment. *)
Record Strategy := mkStrategy { IsRecreate : bool; MaxSurge : option IntOrString }.

(** What reading an object of the cluster may give. *)
Inductive GetError := NotFound | GetFailed.

Section Quota.
Context {Q : Type} `{Quantities Q}.
(** [intstr.GetScaledValueFromIntOrPercent(v, total, true)]. *)
Variable GetScaledValue : IntOrString -> Z -> option Z.

Record PodSpec := mkPodSpec { Containers : list (ResourceRequirements (Q := Q)); InitContainers : list (ResourceRequirements (Q := Q)) }.

Record ResourceQuota := mkQuota { Hard : gmap string Q; Used : gmap string Q }.

Definition WithContainerResources (podSpec : option PodSpec) (res : ResourceRequirements) : option PodSpec :=
  match podSpec with
  | Some (mkPodSpec (_ :: cs) inits) => Some (mkPodSpec (res :: cs) inits)
  | _ => podSpec
  end.

(** Indexing a list of a container: the zero quantity if it is missing. *)
Definition at_name (l : option (gmap string Q)) (name : string) : Q := default zero_quantity (get l name).

Definition container_milli (name : string) (limits : bool) (c : ResourceRequirements) : Z :=
  match get (if limits then Limits c else Requests c) name with
  | Some v => MilliValue v
  | None => 0
  end.

Definition podSpecEffectiveMilli (spec : PodSpec) (name : string) (limits : bool) : Z :=
  let sum := foldl (fun sum c => wrap64 (sum + container_milli name limits c)) 0 (Containers spec) in
  let initMax := foldl (fun m c => Z.max m (container_milli name limits c)) 0 (InitContainers spec) in
  if (sum <? initMax)%Z then initMax else sum.

Record Dimension := mkDimension { dim_name : string; hardKey : string; resName : string; limits : bool }.

Definition dimensions : list Dimension :=
  [mkDimension "requests.cpu" "requests.cpu" ResourceCPU false;
   mkDimension "requests.memory" "requests.memory" ResourceMemory false;
   mkDimension "limits.cpu" "limits.cpu" ResourceCPU true;
   mkDimension "limits.memory" "limits.memory" ResourceMemory true].

(** The usage a change leads to in one dimension. *)
Definition projectedMilli (dim : Dimension) (used : Q) (before after : ResourceRequirements) (replicas surgePods : Z)
    (podSpec : option PodSpec) : Z :=
  let old := at_name (if limits dim then Limits before else Requests before) (resName dim) in
  let new := at_name (if limits dim then Limits after else Requests after) (resName dim) in
  let perPodDelta := wrap64 (MilliValue new - MilliValue old) in
  let steady := wrap64 (MilliValue used + wrap64 (perPodDelta * replicas)) in
  match podSpec with
  | Some spec =>
      if (0 <? surgePods)%Z then
        let oldPodEff := wrap64 (podSpecEffectiveMilli spec (resName dim) (limits dim) - perPodDelta) in
        let oldPodEff := if (oldPodEff <? 0)%Z then 0 else oldPodEff in
        let peak := wrap64 (steady + wrap64 (oldPodEff * surgePods)) in
        if (steady <? peak)%Z then peak else steady
      else steady
  | None => steady
  end.

Fixpoint fits_loop (dims : list Dimension) (quota : ResourceQuota) (before after : ResourceRequirements)
    (replicas surgePods : Z) (podSpec : option PodSpec) : string * string * string * bool :=
  match dims with
  | [] => ("", "", "", true)
  | dim :: dims' =>
      match Hard quota !! hardKey dim with
      | None => fits_loop dims' quota before after replicas surgePods podSpec
      | Some hardQty =>
          let used := default zero_quantity (Used quota !! hardKey dim) in
          let projected := projectedMilli dim used before after replicas surgePods podSpec in
          if (MilliValue used <? projected)%Z && (MilliValue hardQty <? projected)%Z then
            (dim_name dim, QString (NewMilliQuantity projected hardQty), QString hardQty, false)
          else fits_loop dims' quota before after replicas surgePods podSpec
      end
  end.

Definition Fits (quota : ResourceQuota) (before after : ResourceRequirements) (replicas surgePods : Z)
    (podSpec : option PodSpec) : string * string * string * bool :=
  fits_loop dimensions quota before after (if (replicas <? 1)%Z then 1 else replicas) surgePods podSpec.

Definition DeploymentSurgePods (strategy : Strategy) (replicas : Z) : Z :=
  if IsRecreate strategy then 0
  else
    match GetScaledValue (default (FromString "25%") (MaxSurge strategy)) replicas with
    | None => 1
    | Some surge => if (surge <=? 0)%Z then 0 else Z.min surge MaxInt32
    end.

(** ** Preflight. *)

Record Change := mkChange { chCPURequest : string; chCPULimit : string; chMemoryRequest : string; chMemoryLimit : string }.

Record PreflightResult := mkPreflight { FitsQuota : bool; Dim : string; Projected : string; HardCap : string }.

Definition fits_result : PreflightResult := mkPreflight true "" "" "".

Definition set_quantity (raw key : string) (list : gmap string Q) : gmap string Q :=
  if raw =? "" then list
  else match ParseQuantity raw with Some q => <[key := q]> list | None => list end.

Definition overlay (base : ResourceRequirements) (ch : Change) : ResourceRequirements :=
  mkRequirements
    (Some (set_quantity (chMemoryRequest ch) ResourceMemory
             (set_quantity (chCPURequest ch) ResourceCPU (default ∅ (Requests base)))))
    (Some (set_quantity (chMemoryLimit ch) ResourceMemory
             (set_quantity (chCPULimit ch) ResourceCPU (default ∅ (Limits base))))).

(** The result, and the error if the quota could not be read. *)
Definition projected (quota : result GetError ResourceQuota) (before after : ResourceRequirements)
    (replicas surgePods : Z) (podSpec : option PodSpec) : PreflightResult * option GetError :=
  match quota with
  | Err NotFound => (fits_result, None)
  | Err e => (fits_result, Some e)
  | Ok rq =>
      let '(dim, proj, hard, fits) := Fits rq before after replicas surgePods podSpec in
      (mkPreflight fits dim proj hard, None)
  end.

Record Deployment := mkDeployment { Replicas : option Z; DeployStrategy : Strategy; Template : PodSpec }.

Definition PreflightDeployment (deploy : result GetError Deployment) (quota : result GetError ResourceQuota)
    (ch : Change) : PreflightResult * option GetError :=
  match deploy with
  | Err NotFound => (fits_result, None)
  | Err e => (fits_result, Some e)
  | Ok deploy =>
      match Containers (Template deploy) with
      | [] => (fits_result, None)
      | before :: cs =>
          let replicas := default 1 (Replicas deploy) in
          let after := overlay before ch in
          projected quota before after replicas (DeploymentSurgePods (DeployStrategy deploy) replicas)
            (Some (mkPodSpec (after :: cs) (InitContainers (Template deploy))))
      end
  end.

Definition PreflightStatefulSet (sts : result GetError Deployment) (quota : result GetError ResourceQuota)
    (ch : Change) : PreflightResult * option GetError :=
  match sts with
  | Err NotFound => (fits_result, None)
  | Err e => (fits_result, Some e)
  | Ok sts =>
      match Containers (Template sts) with
      | [] => (fits_result, None)
      | before :: _ => projected quota before (overlay before ch) (default 1 (Replicas sts)) 0 None
      end
  end.
End Quota.
