(* ===== verification/QuotaProps.v ===== *)
(** * The quota projection: theorems

    What the projection computes when nothing overflows, and what it promises:
    no step of a rollout that grows the pods exceeds the cap. *)

From Stdlib Require Import Ascii.
From stdpp Require Import base tactics numbers countable list option strings gmap sorting.
From S2P Require Import Prelude GoStd Quantity Bounds Quota.

(** Amounts up to 2^50 thousandths (a tebibyte of memory), and at most 1024
    replicas and surge pods: nothing wraps around in 64 bits. *)
Definition small (z : Z) : Prop := 0 <= z <= 2 ^ 50.

Definition few (z : Z) : Prop := 0 <= z <= 2 ^ 10.

Section Projection.
Context {Q : Type} `{QuantityLaws Q}.

(** One pod, priced without wrap-around. *)
Definition pod_milli (spec : PodSpec (Q := Q)) (name : string) (limits : bool) : Z :=
  Z.max (sumZ (container_milli name limits <$> Containers spec))
    (foldr Z.max 0 (container_milli name limits <$> InitContainers spec)).

Definition side (dim : Dimension) (r : ResourceRequirements (Q := Q)) : Z :=
  MilliValue (at_name (if limits dim then Limits r else Requests r) (resName dim)).

(** What one pod grows by, and what an old pod is priced at. *)
Definition delta (dim : Dimension) (before after : ResourceRequirements (Q := Q)) : Z := side dim after - side dim before.

Definition old_pod (dim : Dimension) (before after : ResourceRequirements (Q := Q)) (spec : PodSpec (Q := Q)) : Z :=
  Z.max 0 (pod_milli spec (resName dim) (limits dim) - delta dim before after).

Definition surge_pods (surgePods : Z) (podSpec : option (PodSpec (Q := Q))) : Z :=
  match podSpec with Some _ => Z.max 0 surgePods | None => 0 end.

(** The projection: every new pod, and the old pods that linger. *)
Definition projection (dim : Dimension) (used : Q) (before after : ResourceRequirements (Q := Q))
    (replicas surgePods : Z) (podSpec : option (PodSpec (Q := Q))) : Z :=
  MilliValue used + delta dim before after * replicas +
  match podSpec with Some spec => old_pod dim before after spec * Z.max 0 surgePods | None => 0 end.

Record small_inputs (dim : Dimension) (used : Q) (before after : ResourceRequirements (Q := Q))
    (podSpec : option (PodSpec (Q := Q))) : Prop := {
  small_used : small (MilliValue used);
  small_before : small (side dim before);
  small_after : small (side dim after);
  small_containers : forall spec c, podSpec = Some spec -> c ∈ Containers spec ++ InitContainers spec ->
    0 <= container_milli (resName dim) (limits dim) c;
  small_pod : forall spec, podSpec = Some spec -> small (pod_milli spec (resName dim) (limits dim))
}.

Lemma wrapped_sum (l : list Z) (acc : Z) :
  0 <= acc -> Forall (fun z => 0 <= z) l -> acc + sumZ l <= int64_max ->
  foldl (fun s z => wrap64 (s + z)) acc l = acc + sumZ l.
Proof.
  intros Hacc Hl. revert acc Hacc. induction Hl as [|z l Hz Hl IH]; intros acc Hacc Hmax; unfold sumZ in *; cbn [foldl foldr] in *; [lia|].
  assert (0 <= foldr Z.add 0 l) by (clear -Hl; induction Hl; simpl; lia).
  rewrite wrap64_id by (unfold int64_range, int64_min, int64_max in *; lia). rewrite IH; lia.
Qed.

Lemma fold_max (l : list Z) (acc : Z) : foldl Z.max acc l = Z.max acc (foldr Z.max acc l).
Proof. revert acc. induction l as [|z l IH]; intros acc; cbn [foldl foldr]; [lia|]. rewrite IH. clear. revert acc z. induction l as [|y l IH]; intros; cbn [foldr]; [lia|]. specialize (IH acc z). lia. Qed.

Lemma foldr_max_nonneg (l : list Z) : 0 <= foldr Z.max 0 l.
Proof. induction l; cbn [foldr]; lia. Qed.

Lemma foldl_over_fmap {A B C : Type} (f : C -> B -> C) (g : A -> B) (l : list A) (z : C) :
  foldl (fun s a => f s (g a)) z l = foldl f z (g <$> l).
Proof. revert z. induction l as [|a l IH]; intros z; [done|]. apply IH. Qed.

Lemma podSpecEffectiveMilli_exact spec name lims :
  (forall c, c ∈ Containers spec ++ InitContainers spec -> 0 <= container_milli name lims c) ->
  small (pod_milli spec name lims) ->
  podSpecEffectiveMilli spec name lims = pod_milli spec name lims.
Proof.
  intros Hc Hs. unfold podSpecEffectiveMilli, pod_milli in *.
  assert (Hsum : foldl (fun s c => wrap64 (s + container_milli name lims c)) 0 (Containers spec) =
    sumZ (container_milli name lims <$> Containers spec)).
  { transitivity (foldl (fun s z => wrap64 (s + z)) 0 (container_milli name lims <$> Containers spec)); [|rewrite wrapped_sum].
    - apply (foldl_over_fmap (fun s z => wrap64 (s + z))).
    - lia.
    - done.
    - apply Forall_fmap, Forall_forall. intros c Hin. apply Hc, elem_of_app. by left.
    - unfold small, int64_max in *. lia. }
  assert (Hmax : foldl (fun m c => Z.max m (container_milli name lims c)) 0 (InitContainers spec) =
    foldr Z.max 0 (container_milli name lims <$> InitContainers spec)).
  { transitivity (foldl Z.max 0 (container_milli name lims <$> InitContainers spec)).
    - apply (foldl_over_fmap Z.max).
    - rewrite fold_max. pose proof (foldr_max_nonneg (container_milli name lims <$> InitContainers spec)). lia. }
  rewrite Hsum, Hmax. destruct (Z.ltb_spec (sumZ (container_milli name lims <$> Containers spec))
    (foldr Z.max 0 (container_milli name lims <$> InitContainers spec))); lia.
Qed.

Lemma projectedMilli_exact dim used before after replicas surgePods podSpec :
  small_inputs dim used before after podSpec -> few replicas -> few surgePods ->
  projectedMilli dim used before after replicas surgePods podSpec =
  projection dim used before after replicas surgePods podSpec.
Proof.
  intros [Hu Hb Ha Hc Hp] Hr Hs. unfold projectedMilli, projection.
  change (MilliValue (at_name (if limits dim then Limits after else Requests after) (resName dim))) with (side dim after).
  change (MilliValue (at_name (if limits dim then Limits before else Requests before) (resName dim))) with (side dim before).
  set (d := side dim after - side dim before). change (delta dim before after) with d.
  assert (Hd : - 2 ^ 50 <= d <= 2 ^ 50) by (unfold small in *; lia).
  unfold few, small in *. rewrite (wrap64_id d) by (unfold int64_range, int64_min, int64_max; lia).
  assert (Hm : - 2 ^ 60 <= d * replicas <= 2 ^ 60) by nia.
  rewrite (wrap64_id (d * replicas)) by (unfold int64_range, int64_min, int64_max; lia).
  rewrite (wrap64_id (_ + _)) by (unfold int64_range, int64_min, int64_max; lia).
  destruct podSpec as [spec|]; [|lia].
  assert (He : podSpecEffectiveMilli spec (resName dim) (limits dim) = pod_milli spec (resName dim) (limits dim)).
  { apply podSpecEffectiveMilli_exact; [intros c; by apply Hc|by apply Hp]. }
  specialize (Hp spec eq_refl). rewrite He.
  unfold old_pod. change (delta dim before after) with d. set (pm := pod_milli _ _ _) in *.
  destruct (Z.ltb_spec 0 surgePods); [|rewrite (Z.max_l 0 surgePods) by lia; lia].
  rewrite (wrap64_id (pm - d)) by (unfold int64_range, int64_min, int64_max; lia).
  assert (Ho : (if pm - d <? 0 then 0 else pm - d) = Z.max 0 (pm - d)) by (destruct (Z.ltb_spec (pm - d) 0); lia).
  rewrite Ho, (Z.max_r 0 surgePods) by lia. set (o := Z.max 0 (pm - d)). assert (0 <= o <= 2 ^ 51) by lia.
  assert (0 <= o * surgePods <= 2 ^ 61) by nia.
  rewrite (wrap64_id (o * surgePods)) by (unfold int64_range, int64_min, int64_max; lia).
  rewrite (wrap64_id (_ + _)) by (unfold int64_range, int64_min, int64_max; lia).
  destruct (Z.ltb_spec (MilliValue used + d * replicas) (MilliValue used + d * replicas + o * surgePods)); lia.
Qed.

(** ** What [Fits] decides. *)

Definition used_of (quota : ResourceQuota (Q := Q)) (dim : Dimension) : Q := default zero_quantity (Used quota !! hardKey dim).

(** A dimension in which the change goes over the cap and above the usage. *)
Definition exceeds (quota : ResourceQuota (Q := Q)) (before after : ResourceRequirements (Q := Q)) (replicas surgePods : Z)
    (podSpec : option (PodSpec (Q := Q))) (dim : Dimension) : Prop :=
  exists hard, Hard quota !! hardKey dim = Some hard /\
    MilliValue (used_of quota dim) < projection dim (used_of quota dim) before after replicas surgePods podSpec /\
    MilliValue hard < projection dim (used_of quota dim) before after replicas surgePods podSpec.

Lemma fits_loop_exact dims quota before after replicas surgePods podSpec :
  (forall dim, dim ∈ dims -> small_inputs dim (used_of quota dim) before after podSpec) -> few replicas -> few surgePods ->
  let r := fits_loop dims quota before after replicas surgePods podSpec in
  (r.2 = true /\ Forall (fun dim => ~ exceeds quota before after replicas surgePods podSpec dim) dims) \/
  (r.2 = false /\ exists dims1 dim dims2, dims = dims1 ++ dim :: dims2 /\ r.1.1.1 = dim_name dim /\
     exceeds quota before after replicas surgePods podSpec dim /\
     Forall (fun dim => ~ exceeds quota before after replicas surgePods podSpec dim) dims1).
Proof.
  intros Hs Hr Hp. cbv zeta. induction dims as [|dim dims IH]; [by left|].
  assert (Hnext : ~ exceeds quota before after replicas surgePods podSpec dim ->
    let r := fits_loop dims quota before after replicas surgePods podSpec in
    (r.2 = true /\ Forall (fun dim => ~ exceeds quota before after replicas surgePods podSpec dim) (dim :: dims)) \/
    (r.2 = false /\ exists dims1 dim' dims2, dim :: dims = dims1 ++ dim' :: dims2 /\ r.1.1.1 = dim_name dim' /\
       exceeds quota before after replicas surgePods podSpec dim' /\
       Forall (fun dim => ~ exceeds quota before after replicas surgePods podSpec dim) dims1)).
  { intros Hn. destruct IH as [[H1 H2]|(H1 & dims1 & dim' & dims2 & -> & H2 & H3 & H4)].
    - intros d Hd. apply Hs. by right.
    - left. split; [done|by constructor].
    - right. split; [done|]. exists (dim :: dims1), dim', dims2. split_and!; [done|done|done|by constructor]. }
  cbn [fits_loop]. destruct (Hard quota !! hardKey dim) as [hard|] eqn:Hh; [|apply Hnext; intros (h & Hh' & _); congruence].
  fold (used_of quota dim). rewrite projectedMilli_exact by (try done; apply Hs; by left).
  destruct (_ && _) eqn:Hb.
  - right. split; [done|]. apply andb_true_iff in Hb as [Hb1%Z.ltb_lt Hb2%Z.ltb_lt].
    exists [], dim, dims. split_and!; [done|done|by exists hard|done].
  - apply Hnext. intros (h & Hh' & Hx1 & Hx2). rewrite Hh in Hh'. injection Hh' as <-.
    apply andb_false_iff in Hb as [Hb%Z.ltb_ge|Hb%Z.ltb_ge]; lia.
Qed.

(** The projection refuses exactly the changes that go over a cap. When
    nothing overflows, [Fits] accepts a change exactly when in no capped dimension
    the usage it leads to (every pod at its new size, and the surge pods at their
    old one) would be above both the cap and the present usage; otherwise it
    names the first dimension in which it would. *)
Theorem fits_exact (quota : ResourceQuota (Q := Q)) (before after : ResourceRequirements (Q := Q))
    (replicas surgePods : Z) (podSpec : option (PodSpec (Q := Q)))
    (Hsmall : forall dim, dim ∈ dimensions -> small_inputs dim (used_of quota dim) before after podSpec)
    (Hreplicas : 1 <= replicas <= 2 ^ 10) (Hsurge : few surgePods) :
  let r := Fits quota before after replicas surgePods podSpec in
  (r.2 = true <-> forall dim, dim ∈ dimensions -> ~ exceeds quota before after replicas surgePods podSpec dim) /\
  (r.2 = false -> exists dim, dim ∈ dimensions /\ r.1.1.1 = dim_name dim /\
     exceeds quota before after replicas surgePods podSpec dim).
Proof.
  cbv zeta. unfold Fits. rewrite (proj2 (Z.ltb_ge replicas 1)) by lia.
  destruct (fits_loop_exact dimensions quota before after replicas surgePods podSpec Hsmall)
    as [[H1 H2]|(H1 & dims1 & dim & dims2 & Hd & H2 & H3 & _)]; [unfold few; lia|done| |].
  - rewrite H1. split; [|done]. split; [intros _|done]. by apply Forall_forall.
  - rewrite H1. assert (Hin : dim ∈ dimensions) by (rewrite Hd; apply elem_of_app; right; left).
    split; [|by exists dim]. split; [done|]. intros Hall. by destruct (Hall dim Hin).
Qed.

(** ** Rollouts. *)

(** The pods a rolling update may have at one moment. *)
Definition rollout_state (replicas surge new old : Z) : Prop :=
  0 <= new <= replicas /\ 0 <= old <= replicas /\ new + old <= replicas + surge.
End Projection.

(** ** Concrete rollouts. *)

Definition cpu_only (request : Z) : ResourceRequirements (Q := Milli) :=
  mkRequirements (Some {[ResourceCPU := (request : Milli)]}) None.

Definition cpu_quota (hard used : Z) : ResourceQuota (Q := Milli) :=
  mkQuota {["requests.cpu"%string := (hard : Milli)]} {["requests.cpu"%string := (used : Milli)]}.

Definition demo_pod (request : Z) : PodSpec (Q := Milli) := mkPodSpec [cpu_only request] [].

Lemma demo_small (hard : Z) (dim : Dimension) :
  dim ∈ dimensions ->
  small_inputs dim (used_of (cpu_quota hard 400) dim) (cpu_only 200) (cpu_only 400) (Some (demo_pod 400)).
Proof.
  intros Hdim.
  assert (Hc : forall spec c, Some (demo_pod 400) = Some spec -> c ∈ Containers spec ++ InitContainers spec -> c = cpu_only 400).
  { intros spec c [= <-] Hin. cbn in Hin. by apply list_elem_of_singleton in Hin. }
  repeat (apply elem_of_cons in Hdim as [->|Hdim]); [| | | |by apply elem_of_nil in Hdim];
    (split; [| | |intros spec c Hs Hin; rewrite (Hc spec c Hs Hin)|intros spec [= <-]]);
    (split; vm_compute; discriminate) || (vm_compute; discriminate).
Qed.

Lemma fits_exact_witness :
  (Fits (cpu_quota 1000 400) (cpu_only 200) (cpu_only 400) 2 1 (Some (demo_pod 400))).2 = true /\
  (Fits (cpu_quota 900 400) (cpu_only 200) (cpu_only 400) 2 1 (Some (demo_pod 400))).2 = false.
Proof.
  split.
  - destruct (fits_exact (cpu_quota 1000 400) (cpu_only 200) (cpu_only 400) 2 1 (Some (demo_pod 400))) as [H _].
    + intros dim Hdim. by apply demo_small.
    + lia.
    + unfold few; lia.
    + apply H. intros dim Hdim (hard & Hh & _ & Hx).
      repeat (apply elem_of_cons in Hdim as [->|Hdim]); [| | | |by apply elem_of_nil in Hdim];
        vm_compute in Hh; [injection Hh as <-; by vm_compute in Hx|done..].
  - vm_compute. reflexivity.
Defined.

Definition cpu_requests : Dimension := mkDimension "requests.cpu" "requests.cpu" ResourceCPU false.

(** A change that shrinks the pods is accepted though the first surge pod is
    over the cap: two pods of 400 with 800 of 900 used, shrunk to 200 each, with
    one surge pod. Steady state plus one old pod is 800, but admission first sees
    800 in use plus the new pod of 200. *)
Lemma shrinking_rollout_above_cap :
  (Fits (cpu_quota 900 800) (cpu_only 400) (cpu_only 200) 2 1 (Some (demo_pod 200))).2 = true /\ 900 < 800 + 200.
Proof. split; [vm_compute; reflexivity|lia]. Qed.

(** A Recreate rollout over a lowered cap: two pods of 400 with 800 of 600 used,
    and no change of the cpu. It is accepted, and the second new pod is refused. *)
Lemma unchanged_rollout_over_cap :
  (Fits (cpu_quota 600 800) (cpu_only 400) (cpu_only 400) 2 0 (Some (demo_pod 400))).2 = true /\
  delta cpu_requests (cpu_only 400) (cpu_only 400) = 0 /\ old_pod cpu_requests (cpu_only 400) (cpu_only 400) (demo_pod 400) = 400 /\
  rollout_state 2 0 2 0 /\ 600 < 800 - 2 * 400 + 2 * 400.
Proof. split_and!; try (vm_compute; reflexivity). all: unfold rollout_state; lia. Qed.

(** C39: a change that fits stays below the caps all along. With amounts up to
    2^50 thousandths (1 TiB of memory) and at most 1024 replicas and surge pods:
    if [Fits] accepts a change that does not shrink a pod in a capped dimension,
    then at every moment of the rolling update, however many old pods have been
    replaced, the usage is at most the larger of the cap and the usage there was
    before; so when the usage was within the cap it stays there, and the rollout
    cannot wedge on the quota half way. Where the usage is over the cap, because
    the quota was lowered, and where the change shrinks the pods, it can: a
    Recreate rollout over the cap that changes nothing in the dimension is
    accepted and ends above the cap, and a shrinking change is accepted although
    its first surge pod goes above it. *)
Theorem accepted_rollout_within_caps :
  (forall (Q : Type) (QQ : Quantities Q) (QL : QuantityLaws Q) (quota : ResourceQuota (Q := Q)) (before after : ResourceRequirements (Q := Q))
      (replicas surgePods new old : Z) (spec : PodSpec (Q := Q)) (dim : Dimension) (hard : Q),
     (forall dim, dim ∈ dimensions -> small_inputs dim (used_of quota dim) before after (Some spec)) ->
     1 <= replicas <= 2 ^ 10 -> few surgePods ->
     (Fits quota before after replicas surgePods (Some spec)).2 = true ->
     dim ∈ dimensions -> Hard quota !! hardKey dim = Some hard ->
     0 <= delta dim before after -> rollout_state replicas surgePods new old ->
     let price := old_pod dim before after spec in
     let usage := MilliValue (used_of quota dim) - replicas * price + new * (price + delta dim before after) + old * price in
     usage <= Z.max (MilliValue hard) (MilliValue (used_of quota dim)) /\
     (MilliValue (used_of quota dim) <= MilliValue hard -> usage <= MilliValue hard)) /\
  ((Fits (cpu_quota 600 800) (cpu_only 400) (cpu_only 400) 2 0 (Some (demo_pod 400))).2 = true /\
   delta cpu_requests (cpu_only 400) (cpu_only 400) = 0 /\ old_pod cpu_requests (cpu_only 400) (cpu_only 400) (demo_pod 400) = 400 /\
   rollout_state 2 0 2 0 /\ 600 < 800 - 2 * 400 + 2 * 400) /\
  ((Fits (cpu_quota 900 800) (cpu_only 400) (cpu_only 200) 2 1 (Some (demo_pod 200))).2 = true /\ 900 < 800 + 200).
Proof.
  split; [|exact (conj unchanged_rollout_over_cap shrinking_rollout_above_cap)].
  intros Q QQ QL quota before after replicas surgePods new old spec dim hard Hsmall Hreplicas Hsurge Hfits Hdim Hhard Hgrows Hstate. cbv zeta.
  destruct (fits_exact quota before after replicas surgePods (Some spec) Hsmall Hreplicas Hsurge) as [Hexact _].
  apply Hexact with (dim := dim) in Hfits; [|done]. unfold exceeds in Hfits.
  assert (Hproj : projection dim (used_of quota dim) before after replicas surgePods (Some spec) <=
    Z.max (MilliValue hard) (MilliValue (used_of quota dim))).
  { apply Z.le_ngt. intros Hgt. apply Hfits. exists hard. split_and!; [done|lia|lia]. }
  unfold projection in Hproj. destruct Hstate as (Hn & Ho & Hsum).
  assert (0 <= old_pod dim before after spec) by (unfold old_pod; lia).
  rewrite (Z.max_r 0 surgePods) in Hproj by (unfold few in Hsurge; lia).
  set (p := old_pod _ _ _ _) in *. set (d := delta _ _ _) in *. set (u := MilliValue (used_of quota dim)) in *.
  assert (Hle : u - replicas * p + new * (p + d) + old * p <= u + d * replicas + p * surgePods) by nia.
  split; lia.
Qed.

Lemma accepted_rollout_within_caps_witness :
  let price := old_pod cpu_requests (cpu_only 200) (cpu_only 400) (demo_pod 400) in
  price = 200 /\
  MilliValue (used_of (cpu_quota 1000 400) cpu_requests) - 2 * price +
    2 * (price + delta cpu_requests (cpu_only 200) (cpu_only 400)) + 1 * price <= MilliValue (1000 : Milli).
Proof.
  split; [vm_compute; reflexivity|].
  apply (proj1 accepted_rollout_within_caps Milli _ _ (cpu_quota 1000 400) (cpu_only 200) (cpu_only 400) 2 1 2 1 (demo_pod 400)
    cpu_requests (1000 : Milli)).
  - intros dim Hdim. by apply demo_small.
  - lia.
  - unfold few; lia.
  - vm_compute. reflexivity.
  - unfold dimensions, cpu_requests. left.
  - vm_compute. reflexivity.
  - vm_compute. discriminate.
  - unfold rollout_state. lia.
  - vm_compute. discriminate.
Defined.
