(* ===== verification/Rollout.v ===== *)
(** * Rollouts of Deployments ([src/controller/pkg/rollout])

    Readiness and progress of a Deployment, and the explanation of one that has
    not finished: the first problem that applies, in the order scheduling,
    admission, startup, readiness, deadline. *)

From Stdlib Require Import Ascii.
From stdpp Require Import base tactics numbers list option strings.
From S2P Require Import Prelude GoStd Calendar.

Local Open Scope string_scope.

(** ** [time.Duration.String]. *)

Fixpoint frac_digits (prec : nat) (v : Z) (print : bool) (acc : string) : string :=
  match prec with
  | O => if print then String "."%char acc else acc
  | S prec' =>
      let d := (v mod 10)%Z in
      let print := print || negb (d =? 0)%Z in
      frac_digits prec' (v / 10)%Z print (if print then digit d ++ acc else acc)
  end.

Definition int_string (n : Z) : string := (if (n <? 0)%Z then "-" else "") ++ decimal 20 (Z.abs n).

Definition micro : string := String "194"%char (String "181"%char "s").

Definition Duration_String (d : Duration) : string :=
  let u := Z.abs d in
  let body :=
    if (u =? 0)%Z then "0s"
    else if (u <? 1000)%Z then int_string u ++ "ns"
    else if (u <? 1000000)%Z then int_string (u / 1000) ++ frac_digits 3 u false "" ++ micro
    else if (u <? Second)%Z then int_string (u / 1000000) ++ frac_digits 6 u false "" ++ "ms"
    else
      let secs := (u / Second)%Z in
      let mins := (secs / 60)%Z in
      (if (0 <? mins / 60)%Z then int_string (mins / 60) ++ "h" else "") ++
      (if (0 <? mins)%Z then int_string (mins mod 60) ++ "m" else "") ++
      int_string (secs mod 60) ++ frac_digits 9 u false "" ++ "s" in
  (if (d <? 0)%Z then "-" else "") ++ body.

Example startup_budget : Duration_String (5 * Minute + 1500 * 1000000) = "5m1.5s".
Proof. vm_compute. reflexivity. Qed.

(** ** Deployments, ReplicaSets and Pods. *)

Record DeploymentCondition := mkDeployCondition {
  dcType : string; dcStatus : string; dcReason : string; dcMessage : string; LastUpdateTime : Time
}.

Record Deployment := mkDeploy {
  depUID : string;
  Replicas : option Z;
  Generation : Z;
  ObservedGeneration : Z;
  UpdatedReplicas : Z;
  AvailableReplicas : Z;
  UnavailableReplicas : Z;
  StatusReplicas : Z;
  Conditions : list DeploymentCondition
}.

(** [rsRevision] is the revision annotation, empty when missing. *)
Record ReplicaSet := mkReplicaSet { rsUID : string; rsOwners : list string; rsRevision : string }.

Record Terminated := mkTerminated { ExitCode : Z; tReason : string }.

Record ContainerStatus := mkContainerStatus {
  csName : string; Waiting : option (string * string); Running : bool; csTerminated : option Terminated;
  LastTerminated : option Terminated; RestartCount : Z
}.

Record PodCondition := mkPodCondition { pcType : string; pcStatus : string; pcReason : string; pcMessage : string }.

Record Pod := mkPod {
  podController : option string;
  CreationTimestamp : Time;
  DeletionTimestamp : option Time;
  Phase : string;
  podConditions : list PodCondition;
  InitContainerStatuses : list ContainerStatus;
  ContainerStatuses : list ContainerStatus;
  StartTime : option Time
}.

(** ** Readiness. *)

Definition want (dep : Deployment) : Z := default 1 (Replicas dep).

(** A Deployment that is there, current, and has its replicas. *)
Definition Ready (dep : option Deployment) : bool :=
  match dep with
  | None => false
  | Some d =>
      (Generation d <=? ObservedGeneration d)%Z && (UpdatedReplicas d =? want d)%Z &&
      (AvailableReplicas d =? want d)%Z && (UnavailableReplicas d =? 0)%Z
  end.

Definition Settled (dep : option Deployment) : bool :=
  match dep with
  | None => false
  | Some d => Ready dep && (StatusReplicas d =? want d)%Z
  end.

Definition find_type (t : string) (l : list DeploymentCondition) : option DeploymentCondition :=
  List.find (fun c => dcType c =? t) l.

Definition Finished (dep : option Deployment) : bool :=
  Settled dep ||
  match dep with
  | None => false
  | Some d =>
      if (ObservedGeneration d <? Generation d)%Z then false
      else if negb (UpdatedReplicas d =? want d)%Z || negb (StatusReplicas d =? want d)%Z then false
      else match find_type "Progressing" (Conditions d) with
           | Some c => dcReason c =? "NewReplicaSetAvailable"
           | None => false
           end
  end.

Definition Failed (dep : option Deployment) : bool :=
  match dep with
  | None => false
  | Some d => existsb (fun c => (dcType c =? "Progressing") && (dcStatus c =? "False") &&
                                (dcReason c =? "ProgressDeadlineExceeded")) (Conditions d)
  end.

Definition Message (dep : option Deployment) : string :=
  match dep with
  | None => ""
  | Some d => match find_type "Progressing" (Conditions d) with Some c => dcMessage c | None => "" end
  end.

(** ** Problems of pods. *)

Inductive Reason :=
| Complete | Unschedulable | QuotaExceeded | PodsRefused | PodsNotStarting | NotBecomingReady | DeadlineExceeded
| InProgress | Stopping | Stopped.

#[export] Instance Reason_eq_dec : EqDecision Reason.
Proof. solve_decision. Defined.

Definition podCondition (p : Pod) (t : string) : option PodCondition := List.find (fun c => pcType c =? t) (podConditions p).

Definition replicaFailure (dep : option Deployment) : option DeploymentCondition :=
  match dep with
  | None => None
  | Some d => List.find (fun c => (dcType c =? "ReplicaFailure") && (dcStatus c =? "True")) (Conditions d)
  end.

Definition quotaRefusal (c : DeploymentCondition) : bool := Contains (dcMessage c) "exceeded quota".

Definition QuotaBlocked (dep : option Deployment) : bool :=
  match replicaFailure dep with Some c => quotaRefusal c | None => false end.

Definition stuckWaitingReasons : list string :=
  ["ImagePullBackOff"; "InvalidImageName"; "CreateContainerConfigError"; "CreateContainerError"; "RunContainerError";
   "CrashLoopBackOff"].

Definition crash_detail (cs : ContainerStatus) : string :=
  "container " ++ csName cs ++ " keeps crashing" ++
  match LastTerminated cs with
  | None => ""
  | Some t => " (last exit " ++ int_string (ExitCode t) ++ (if tReason t =? "" then "" else ", " ++ tReason t) ++ ")"
  end ++ ".".

(** What is wrong with one container, if it cannot start. *)
Definition stuck_container (cs : ContainerStatus) : option string :=
  match Waiting cs with
  | None => None
  | Some (reason, message) =>
      if negb (bool_decide (reason ∈ stuckWaitingReasons)) then None
      else if reason =? "CrashLoopBackOff" then if (RestartCount cs <? 2)%Z then None else Some (crash_detail cs)
      else
        let detail := "container " ++ csName cs ++ " is in " ++ reason ++ (if message =? "" then "" else ": " ++ message) in
        Some (TrimSuffix detail "." ++ ".")
  end.

Definition all_statuses (p : Pod) : list ContainerStatus := (InitContainerStatuses p ++ ContainerStatuses p)%list.

Fixpoint first_some {A B : Type} (f : A -> option B) (l : list A) : option B :=
  match l with
  | [] => None
  | a :: l' => match f a with Some b => Some b | None => first_some f l' end
  end.

Definition cannotStart (p : Pod) : option string := first_some stuck_container (all_statuses p).

Definition has_run (cs : ContainerStatus) : bool :=
  (0 <? RestartCount cs)%Z || Running cs ||
  match csTerminated cs with Some _ => true | None => false end ||
  match LastTerminated cs with Some _ => true | None => false end.

Definition neverRan (p : Pod) : bool := negb (existsb has_run (all_statuses p)).

Definition finishedTime (dep : option Deployment) : Time :=
  match dep with
  | None => zero_time
  | Some d =>
      match List.find (fun c => (dcType c =? "Progressing") && (dcReason c =? "NewReplicaSetAvailable")) (Conditions d) with
      | Some c => LastUpdateTime c
      | None => zero_time
      end
  end.

Definition active (p : Pod) : bool :=
  match DeletionTimestamp p with
  | Some _ => false
  | None => negb ((Phase p =? "Failed") || (Phase p =? "Succeeded"))
  end.

Definition activePods (pods : list Pod) : list Pod := List.filter active pods.

Definition podSince (p : Pod) : Time :=
  if negb (IsZero (CreationTimestamp p)) then CreationTimestamp p else default zero_time (StartTime p).

(** ** The newest ReplicaSet and its pods. *)

Definition ownedBy (rs : ReplicaSet) (dep : Deployment) : bool := existsb (fun uid => uid =? depUID dep) (rsOwners rs).

Definition newest_step (dep : Deployment) (acc : Z * option ReplicaSet) (rs : ReplicaSet) : Z * option ReplicaSet :=
  if negb (ownedBy rs dep) then acc
  else match Atoi (rsRevision rs) with
       | None => acc
       | Some rev => if (acc.1 <? rev)%Z then (rev, Some rs) else acc
       end.

Definition NewestReplicaSet (dep : Deployment) (sets : list ReplicaSet) : option ReplicaSet :=
  (foldl (newest_step dep) (-1, None) sets).2.

Definition PodsOf (rs : option ReplicaSet) (pods : list Pod) : list Pod :=
  match rs with
  | None => []
  | Some rs => List.filter (fun p => match podController p with Some uid => uid =? rsUID rs | None => false end) pods
  end.

(** ** The explanation. *)

Definition keepServing : string := "Any healthy current pods continue serving.".

Definition unschedulable (p : Pod) : option PodCondition :=
  match podCondition p "PodScheduled" with
  | Some c => if (pcStatus c =? "False") && (pcReason c =? "Unschedulable") then Some c else None
  | None => None
  end.

(** A pod that has not become ready in its time. *)
Definition late (budget : Duration) (now : Time) (p : Pod) : bool :=
  match podCondition p "Ready" with Some c => negb (pcStatus c =? "True") | None => true end &&
  negb (IsZero (podSince p)) && (budget <? Sub now (podSince p))%Z.

(** After completion, only newer pods of which no container ever ran count. *)
Definition stuck_after (finishedAt : Time) (p : Pod) : option string :=
  if negb (After (CreationTimestamp p) finishedAt) then None
  else match cannotStart p with
       | Some detail => if neverRan p then Some detail else None
       | None => None
       end.

Definition starting_problem (detail : string) : Reason * string :=
  (PodsNotStarting, "A new pod cannot start: " ++ detail ++ " " ++ keepServing).

Definition Explain (d : Deployment) (newPods : list Pod) (budget : Duration) (now : Time) : Reason * string :=
  let dep := Some d in
  if Settled dep then (Complete, "")
  else
    match first_some unschedulable newPods with
    | Some c => (Unschedulable, "A new pod cannot be placed: " ++ pcMessage c ++ " Lower the CPU or memory request, or add capacity. " ++ keepServing)
    | None =>
        match replicaFailure dep with
        | Some c =>
            if quotaRefusal c
            then (QuotaExceeded, "The project quota prevents new pods from being created: " ++ dcMessage c ++ " " ++ keepServing)
            else (PodsRefused, "The cluster rejected new pods: " ++ dcMessage c ++ " " ++ keepServing)
        | None =>
            let newPods := activePods newPods in
            if Finished dep then
              match first_some (stuck_after (finishedTime dep)) newPods with
              | Some detail => starting_problem detail
              | None => (Complete, "")
              end
            else
              match first_some cannotStart newPods with
              | Some detail => starting_problem detail
              | None =>
                  match List.find (late budget now) newPods with
                  | Some p =>
                      if negb (Phase p =? "Running")
                      then (PodsNotStarting, "A new pod has not started running within " ++ Duration_String budget ++ ". Its phase is " ++
                             Phase p ++ "; check the pod status and events for details. " ++ keepServing)
                      else (NotBecomingReady, "New pods have not become ready within " ++ Duration_String budget ++ ". " ++ keepServing)
                  | None =>
                      if Failed dep then (DeadlineExceeded, "The rollout stopped making progress: " ++ Message dep ++ " " ++ keepServing)
                      else
                        let n := want d in
                        let updated := UpdatedReplicas d in
                        (InProgress,
                         if (n <? updated)%Z then "Scaling to " ++ int_string n ++ " pod(s)."
                         else "Replacing pods: " ++ int_string updated ++ " of " ++ int_string n ++ " updated.")
                  end
              end
        end
    end.

(** ** Properties. *)

Lemma first_some_spec {A B : Type} (f : A -> option B) (l : list A) :
  match first_some f l with
  | Some b => exists l1 a l2, l = (l1 ++ a :: l2)%list /\ f a = Some b /\ Forall (fun x => f x = None) l1
  | None => Forall (fun x => f x = None) l
  end.
Proof.
  induction l as [|a l IH]; cbn [first_some]; [constructor|]. destruct (f a) as [b|] eqn:Ha.
  - by exists [], a, l.
  - destruct (first_some f l) as [b|].
    + destruct IH as (l1 & a' & l2 & -> & Hf & H1). exists (a :: l1), a', l2. by repeat constructor.
    + by constructor.
Qed.

Lemma find_spec {A : Type} (p : A -> bool) (l : list A) :
  match List.find p l with
  | Some a => a ∈ l /\ p a = true
  | None => forall a, a ∈ l -> p a = false
  end.
Proof.
  destruct (List.find p l) as [a|] eqn:Hf.
  - apply List.find_some in Hf as [Hin Hp]. split; [by apply list_elem_of_In|done].
  - intros a Ha. apply (List.find_none p l Hf). by apply list_elem_of_In.
Qed.

(** A pod of the rollout that cannot be placed, and one that cannot start. *)
Definition unplaceable (pods : list Pod) : Prop := exists p c, p ∈ pods /\ unschedulable p = Some c.

Definition cannot_start (pods : list Pod) : Prop := exists p detail, p ∈ pods /\ active p = true /\ cannotStart p = Some detail.

(** One created after the rollout completed, of which no container ever ran. *)
Definition cannot_start_after (t : Time) (pods : list Pod) : Prop :=
  exists p detail, p ∈ pods /\ active p = true /\ cannotStart p = Some detail /\ neverRan p = true /\ t < CreationTimestamp p.

Lemma exists_first {A B : Type} (f : A -> option B) (l : list A) :
  (exists a b, a ∈ l /\ f a = Some b) <-> is_Some (first_some f l).
Proof.
  pose proof (first_some_spec f l) as Hs. destruct (first_some f l) as [b|].
  - split; [by eauto|]. intros _. destruct Hs as (l1 & a & l2 & -> & Hf & _). exists a, b. split; [|done]. apply elem_of_app. right. left.
  - split; [|by intros [? ?]]. intros (a & b & Ha & Hf). rewrite Forall_forall in Hs. apply Hs in Ha. congruence.
Qed.

Lemma elem_of_activePods (pods : list Pod) (p : Pod) : p ∈ activePods pods <-> p ∈ pods /\ active p = true.
Proof. unfold activePods. rewrite !list_elem_of_In. apply List.filter_In. Qed.

Lemma unplaceable_first (pods : list Pod) : unplaceable pods <-> is_Some (first_some unschedulable pods).
Proof. apply exists_first. Qed.

Lemma cannot_start_first (pods : list Pod) : cannot_start pods <-> is_Some (first_some cannotStart (activePods pods)).
Proof.
  rewrite <- exists_first. unfold cannot_start. setoid_rewrite elem_of_activePods. split.
  - intros (p & d & H1 & H2 & H3). by exists p, d.
  - intros (p & d & [H1 H2] & H3). by exists p, d.
Qed.

Lemma stuck_after_Some (t : Time) (p : Pod) (detail : string) :
  stuck_after t p = Some detail <-> cannotStart p = Some detail /\ neverRan p = true /\ t < CreationTimestamp p.
Proof.
  unfold stuck_after, After. destruct (Z.ltb_spec t (CreationTimestamp p)); cbn [negb]; [|split; [done|lia]].
  destruct (cannotStart p) as [d|]; [|by split; [|intros (? & _)]].
  destruct (neverRan p); [|by split; [|intros (_ & ? & _)]]. split; [by intros [= ->]|by intros (? & _)].
Qed.

Lemma cannot_start_after_first (t : Time) (pods : list Pod) :
  cannot_start_after t pods <-> is_Some (first_some (stuck_after t) (activePods pods)).
Proof.
  rewrite <- exists_first. unfold cannot_start_after. setoid_rewrite elem_of_activePods. setoid_rewrite stuck_after_Some. split.
  - intros (p & d & H1 & H2 & H3 & H4 & H5). by exists p, d.
  - intros (p & d & [H1 H2] & H3 & H4 & H5). by exists p, d.
Qed.

(** An explanation is the first problem that applies. A Deployment that has
    settled is complete. Otherwise a new pod that cannot be placed comes before
    one the cluster refuses to create, whatever else is wrong; a quota refusal is
    told apart from another. Without those, a rollout that finished is complete
    unless a pod made since then never ran and cannot start, so that a pod that
    breaks later does not reopen it; and one that has not finished is reported as
    starting, not ready, stopped or in progress in that order. *)
Theorem explain_exact (d : Deployment) (pods : list Pod) (budget : Duration) (now : Time) :
  let reason := (Explain d pods budget now).1 in
  let failure := replicaFailure (Some d) in
  let open_ := Settled (Some d) = false in
  let admitted := open_ /\ ~ unplaceable pods /\ failure = None in
  (reason = Complete <->
     Settled (Some d) = true \/
     (admitted /\ Finished (Some d) = true /\ ~ cannot_start_after (finishedTime (Some d)) pods)) /\
  (reason = Unschedulable <-> open_ /\ unplaceable pods) /\
  (reason = QuotaExceeded <-> open_ /\ ~ unplaceable pods /\ QuotaBlocked (Some d) = true) /\
  (reason = PodsRefused <-> open_ /\ ~ unplaceable pods /\ failure <> None /\ QuotaBlocked (Some d) = false) /\
  (reason = DeadlineExceeded \/ reason = InProgress ->
     admitted /\ Finished (Some d) = false /\ ~ cannot_start pods /\
     (forall p, p ∈ pods -> active p = true -> late budget now p = false) /\
     (reason = DeadlineExceeded <-> Failed (Some d) = true)).
Proof.
  cbv zeta. rewrite unplaceable_first, cannot_start_first, cannot_start_after_first. unfold Explain, QuotaBlocked.
  destruct (Settled (Some d)); [split_and!; naive_solver|].
  destruct (first_some unschedulable pods) as [c|]; [split_and!; naive_solver|].
  assert (Hnone : ~ is_Some (@None PodCondition)) by (by intros [? ?]).
  destruct (replicaFailure (Some d)) as [c|]; [destruct (quotaRefusal c); split_and!; naive_solver|].
  destruct (Finished (Some d)).
  - destruct (first_some (stuck_after (finishedTime (Some d))) (activePods pods)) as [detail|]; split_and!; naive_solver.
  - destruct (first_some cannotStart (activePods pods)) as [detail|]; [split_and!; naive_solver|].
    pose proof (find_spec (late budget now) (activePods pods)) as Hlate.
    destruct (List.find (late budget now) (activePods pods)) as [p|].
    + destruct (negb (Phase p =? "Running")); split_and!; naive_solver.
    + assert (Hl : forall p, p ∈ pods -> active p = true -> late budget now p = false)
        by (intros p Hp Ha; by apply Hlate, elem_of_activePods).
      assert (Hns : ~ is_Some (@None string)) by (by intros [? ?]).
      destruct (Failed (Some d)); cbn [fst]; split_and!; try naive_solver.
Qed.

(** The newest ReplicaSet is the owned one with the highest revision, the first
    of those with that revision. *)
Lemma newest_replica_set (dep : Deployment) (sets : list ReplicaSet) :
  match NewestReplicaSet dep sets with
  | Some rs =>
      rs ∈ sets /\ ownedBy rs dep = true /\
      exists rev, Atoi (rsRevision rs) = Some rev /\
        forall rs' rev', rs' ∈ sets -> ownedBy rs' dep = true -> Atoi (rsRevision rs') = Some rev' -> rev' <= rev
  | None => forall rs rev, rs ∈ sets -> ownedBy rs dep = true -> Atoi (rsRevision rs) = Some rev -> rev <= -1
  end.
Proof.
  unfold NewestReplicaSet. induction sets as [|rs sets IH] using rev_ind; [intros ? ? H; inversion H|].
  rewrite foldl_app. cbn [foldl].
  assert (Hacc : forall acc, acc = foldl (newest_step dep) (-1, None) sets ->
    match acc.2 with Some rs => Atoi (rsRevision rs) = Some acc.1 | None => acc.1 = -1 end).
  { intros ? ->. clear. induction sets as [|rs sets IH] using rev_ind; [done|]. rewrite foldl_app. cbn [foldl].
    set (acc := foldl _ _ sets) in *. unfold newest_step. destruct (negb _); [done|].
    destruct (Atoi (rsRevision rs)) eqn:Hr; [|done]. by destruct (acc.1 <? z)%Z. }
  set (acc := foldl (newest_step dep) (-1, None) sets) in *. specialize (Hacc acc eq_refl). unfold newest_step.
  destruct (ownedBy rs dep) eqn:Ho; cbn [negb]; [destruct (Atoi (rsRevision rs)) as [rev|] eqn:Hr; [destruct (Z.ltb_spec acc.1 rev)|]|].
  2,3,4: destruct (acc.2) as [best|].
  2,4,6: destruct IH as (H1 & H2 & rev' & H3 & H4); split_and!; [apply elem_of_app; by left|done|exists rev'; split; [done|]];
    intros rs1 rev1 [Hin|Hin]%elem_of_app H5 H6; [by eapply H4|]; apply list_elem_of_singleton in Hin; subst rs1;
    first [congruence|assert (rev' = acc.1) by congruence; assert (rev1 = rev) by congruence; lia].
  2,3,4: intros rs1 rev1 [Hin|Hin]%elem_of_app H5 H6; [by eapply IH|]; apply list_elem_of_singleton in Hin; subst rs1;
    first [congruence|assert (rev1 = rev) by congruence; lia].
  cbn [snd]. split_and!; [apply elem_of_app; right; left|done|]. exists rev. split; [done|].
  intros rs1 rev1 [Hin|Hin]%elem_of_app H5 H6; [|apply list_elem_of_singleton in Hin; subst rs1; assert (rev1 = rev) by congruence; lia].
  destruct (acc.2) as [best|].
  - destruct IH as (_ & _ & rev' & H3 & H4). rewrite H3 in Hacc. injection Hacc as ->. pose proof (H4 _ _ Hin H5 H6). lia.
  - pose proof (IH _ _ Hin H5 H6). lia.
Qed.
