(* ===== verification/Sizing.v ===== *)
(** * The auto-sizer's evaluation of one workload
    ([evaluate] in [src/console-api/controller/resource_controller.go])

    From the metrics of a workload's pods to the resources proposed for its
    container: defaults, the raise after an OOM kill, the CPU saturation shortcut,
    and the adjustments with hysteresis. What the controller remembers between
    ticks is a record that is passed along. *)

From Stdlib Require Import Ascii.
From stdpp Require Import base tactics numbers countable list option strings gmap sorting.
From S2P Require Import Prelude GoStd Calendar Quantity Float64 Capacity Bounds Quota.

Local Open Scope string_scope.

(** ** State of the controller. *)

Record usageObservation := mkObservation {
  obsCPUMillis : Z; obsMemoryBytes : Z; obsOOMKilled : bool; StuckPodName : string
}.

Record pinnedWindow := mkWindow { since : Time; lastHot : Time }.

Record podMetricsEntry := mkPod {
  pmNamespace : string; PodName : string; CPUMillis : Z; MemoryBytes : Z; Labels : gmap string string;
  OOMKilled : bool; OOMAt : Time; StuckMinutes : float64; Age : Duration; Synthetic : bool
}.

(** [Time] stands for the formatted time of the entry. *)
Record ResourceLogEntry := mkLog {
  logTime : Time; logApp : string; logNamespace : string; Action : string; From : string; To : string;
  Reason : string; Severity : string; Quiet : bool
}.

Record pendingOOMMark := mkMark { mark_key : string; mark_at : Time }.

(** An acknowledgement that waits for this tick's alerts to be stored. *)
Record ack := mkAck {
  ackNamespace : string; ackKind : string; ackName : string; ackUID : string; ackKey : string; ackIdentity : string; ackAt : Time
}.

(** The part of the controller's state that sizing reads and writes. *)
Record ResourceController := mkController {
  history : gmap (string * string) (list usageObservation);
  historySize : gmap (string * string) string;
  skippedLogged : gmap string bool;
  stagedAcks : list ack;
  changeTimestamps : gmap string (list Time);
  oomHandledAt : gmap string Time;
  quotaBlockAlert : gmap string Time;
  updateFailAlert : gmap string Time;
  cpuPinned : gmap string pinnedWindow;
  oomCapBytes : Z
}.

Definition NewResourceController : ResourceController := mkController ∅ ∅ ∅ [] ∅ ∅ ∅ ∅ ∅ 0.

(** Assignments to one field. *)
Definition set_history (rc : ResourceController) h :=
  mkController h (historySize rc) (skippedLogged rc) (stagedAcks rc) (changeTimestamps rc) (oomHandledAt rc)
    (quotaBlockAlert rc) (updateFailAlert rc) (cpuPinned rc) (oomCapBytes rc).

Definition set_historySize (rc : ResourceController) h :=
  mkController (history rc) h (skippedLogged rc) (stagedAcks rc) (changeTimestamps rc) (oomHandledAt rc)
    (quotaBlockAlert rc) (updateFailAlert rc) (cpuPinned rc) (oomCapBytes rc).

Definition set_skipped (rc : ResourceController) h :=
  mkController (history rc) (historySize rc) h (stagedAcks rc) (changeTimestamps rc) (oomHandledAt rc)
    (quotaBlockAlert rc) (updateFailAlert rc) (cpuPinned rc) (oomCapBytes rc).

Definition set_acks (rc : ResourceController) a :=
  mkController (history rc) (historySize rc) (skippedLogged rc) a (changeTimestamps rc) (oomHandledAt rc)
    (quotaBlockAlert rc) (updateFailAlert rc) (cpuPinned rc) (oomCapBytes rc).

Definition set_changes (rc : ResourceController) c :=
  mkController (history rc) (historySize rc) (skippedLogged rc) (stagedAcks rc) c (oomHandledAt rc)
    (quotaBlockAlert rc) (updateFailAlert rc) (cpuPinned rc) (oomCapBytes rc).

Definition set_handled (rc : ResourceController) h :=
  mkController (history rc) (historySize rc) (skippedLogged rc) (stagedAcks rc) (changeTimestamps rc) h
    (quotaBlockAlert rc) (updateFailAlert rc) (cpuPinned rc) (oomCapBytes rc).

Definition set_quotaBlock (rc : ResourceController) h :=
  mkController (history rc) (historySize rc) (skippedLogged rc) (stagedAcks rc) (changeTimestamps rc) (oomHandledAt rc)
    h (updateFailAlert rc) (cpuPinned rc) (oomCapBytes rc).

Definition set_updateFail (rc : ResourceController) h :=
  mkController (history rc) (historySize rc) (skippedLogged rc) (stagedAcks rc) (changeTimestamps rc) (oomHandledAt rc)
    (quotaBlockAlert rc) h (cpuPinned rc) (oomCapBytes rc).

Definition set_pinned (rc : ResourceController) h :=
  mkController (history rc) (historySize rc) (skippedLogged rc) (stagedAcks rc) (changeTimestamps rc) (oomHandledAt rc)
    (quotaBlockAlert rc) (updateFailAlert rc) h (oomCapBytes rc).

Definition set_cap (rc : ResourceController) c :=
  mkController (history rc) (historySize rc) (skippedLogged rc) (stagedAcks rc) (changeTimestamps rc) (oomHandledAt rc)
    (quotaBlockAlert rc) (updateFailAlert rc) (cpuPinned rc) c.

(** ** Constants. *)

Definition defaultOOMCapBytes : Z := 8 * 1024 * 1024 * 1024.

Definition oomActionableWindow : Duration := 30 * Minute.

Definition startupGracePeriod : Duration := 5 * Minute.

Definition minTimeBetweenSaturationBumps : Duration := 50 * Second.

Definition saturationWarmup : Duration := 2 * Minute.

Definition statefulSetSaturationWindow : Duration := 90 * Second.

Definition maxSaturationGap : Duration := 150 * Second.

Definition thrashingWindow : Duration := 10 * Minute.

(** Percentages as floats: 80, 20, 95 and 100. *)
Definition pct (n : Z) : float64 := of_int64 n.

Definition cpuSaturationPct : float64 := pct 95.

(** [float64(a) / float64(b) * 100]. *)
Definition usage_pct (used reserved : Z) : float64 := fmul (fdiv (of_int64 used) (of_int64 reserved)) (pct 100).

Definition slash (a b : string) : string := a ++ "/" ++ b.

(** A missing time is the zero time. *)
Definition handled_at (m : gmap string Time) (key : string) : Time := default zero_time (m !! key).

(** ** Rounding and profiles. *)

Section Sizing.
Context {Q : Type} `{Quantities Q}.

(** [resource.MustParse] of the constants below, which all parse. *)
Definition MustParse (s : string) : Q := default zero_quantity (ParseQuantity s).

Definition roundMemory (bytes : Z) : Q :=
  let mib := 64 * 1024 * 1024 in
  BinaryQuantity (wrap64 (Z.quot (wrap64 (bytes + mib - 1)) mib * mib)).

Definition roundCPU (millis : Z) : Q := DecimalMilli (wrap64 (Z.quot (wrap64 (millis + 49)) 50 * 50)).

Record profileDefaults_ := mkProfile { pname : string; pcpu : string; minCPULimit : string; pmemory : string }.

Definition cpuLimit_of (p : profileDefaults_) : string := if minCPULimit p =? "" then pcpu p else minCPULimit p.

Definition profileDefaults (profile : string) : profileDefaults_ :=
  let p := ToLower profile in
  if p =? "lightweight" then mkProfile "lightweight" "50m" "" "64Mi"
  else if p =? "standard" then mkProfile "standard" "100m" "" "128Mi"
  else if p =? "compute-heavy" then mkProfile "compute-heavy" "500m" "" "256Mi"
  else if p =? "memory-heavy" then mkProfile "memory-heavy" "100m" "" "512Mi"
  else if p =? "jvm" then mkProfile "jvm" "100m" "500m" "2Gi"
  else if p =? "database" then mkProfile "database" "500m" "" "1Gi"
  else mkProfile "standard" "100m" "" "128Mi".

(** ** Containers. *)

Record Container := mkContainer { cName : string; cResources : ResourceRequirements (Q := Q) }.

(** Assigning a resource, the maps being made if they were nil. *)
Definition set_request (r : ResourceRequirements (Q := Q)) (name : string) (q : Q) : ResourceRequirements :=
  mkRequirements (Some (<[name := q]> (default ∅ (Requests r)))) (Limits r).

Definition set_limit (r : ResourceRequirements (Q := Q)) (name : string) (q : Q) : ResourceRequirements :=
  mkRequirements (Requests r) (Some (<[name := q]> (default ∅ (Limits r)))).

Definition with_maps (r : ResourceRequirements (Q := Q)) : ResourceRequirements :=
  mkRequirements (Some (default ∅ (Requests r))) (Some (default ∅ (Limits r))).

(** ** Observations. *)

Definition consistentHighMemory (h : list usageObservation) (reqBytes : Z) : bool :=
  forallb (fun obs => negb (fle (usage_pct (obsMemoryBytes obs) reqBytes) (pct 80))) h.

Definition consistentLowMemory (h : list usageObservation) (reqBytes : Z) : bool :=
  forallb (fun obs => negb (fle (pct 20) (usage_pct (obsMemoryBytes obs) reqBytes))) h.

Definition consistentHighCPU (h : list usageObservation) (reqMillis : Z) : bool :=
  forallb (fun obs => negb (fle (usage_pct (obsCPUMillis obs) reqMillis) (pct 80))) h.

Definition consistentLowCPU (h : list usageObservation) (reqMillis : Z) : bool :=
  forallb (fun obs => negb (fle (pct 20) (usage_pct (obsCPUMillis obs) reqMillis))) h.

Definition withoutSynthetic (entries : list podMetricsEntry) : list podMetricsEntry :=
  List.filter (fun e => negb (Synthetic e)) entries.

(** The latest OOM of the entries, the zero time if there is none. *)
Definition newestOOM (entries : list podMetricsEntry) : Time :=
  foldl (fun t pe => if After (OOMAt pe) t then OOMAt pe else t) zero_time entries.

Definition recentlyChanged (rc : ResourceController) (key : string) (now : Time) (within : Duration) : bool :=
  match last (default [] (changeTimestamps rc !! key)) with
  | None => false
  | Some t => (Sub now t <? within)%Z
  end.

Definition recordChange (rc : ResourceController) (namespace appName : string) (now : Time) : ResourceController :=
  let key := slash namespace appName in
  set_changes rc (<[key := (default [] (changeTimestamps rc !! key) ++ [now])%list]> (changeTimestamps rc)).

Definition startHistoryOverIfResized (signature : ResourceRequirements (Q := Q) -> string) (rc : ResourceController)
    (namespace appName : string) (res : ResourceRequirements (Q := Q)) : ResourceController :=
  let wk := (namespace, appName) in
  let sig := signature res in
  let rc := match historySize rc !! wk with
            | Some prev => if prev =? sig then rc else set_history rc (delete wk (history rc))
            | None => rc
            end in
  set_historySize rc (<[wk := sig]> (historySize rc)).

(** The last three observations. *)
Definition last3 {A : Type} (l : list A) : list A := drop (length l - 3) l.

Definition observe (rc : ResourceController) (namespace appName : string) (avgCPU avgMem : Z) : ResourceController :=
  let wk := (namespace, appName) in
  let h := (default [] (history rc !! wk) ++ [mkObservation avgCPU avgMem false ""])%list in
  set_history rc (<[wk := last3 h]> (history rc)).

(** ** The raise after an OOM kill. *)

Definition isNewOOM (rc : ResourceController) (oomKey : string) (oomAt : Time) : bool :=
  negb (GoStd.IsZero oomAt) && After oomAt (handled_at (oomHandledAt rc) oomKey).

Definition oomCap (rc : ResourceController) : Z := if (oomCapBytes rc =? 0)%Z then defaultOOMCapBytes else oomCapBytes rc.

(** The size an OOM kill is answered with, and the size it is doubled from. *)
Definition oom_base (r : ResourceRequirements (Q := Q)) : Z :=
  let base := QValue (at_name (Requests r) ResourceMemory) in
  let limit := QValue (at_name (Limits r) ResourceMemory) in
  let base := if (base <? limit)%Z then limit else base in
  if (base =? 0)%Z then 128 * 1024 * 1024 else base.

Definition oom_size (rc : ResourceController) (base : Z) : Q :=
  let newBytes := wrap64 (base * 2) in
  roundMemory (if (oomCap rc <? newBytes)%Z then oomCap rc else newBytes).

Definition raise_after_oom (rc : ResourceController) (namespace appName : string) (container : Container) (now : Time) :
    Container * ResourceLogEntry :=
  let r := with_maps (cResources container) in
  let base := oom_base r in
  let oldVal := QString (at_name (Requests r) ResourceMemory) in
  let newQty := oom_size rc base in
  if (QValue newQty <=? base)%Z then
    (mkContainer (cName container) r,
     mkLog now appName namespace "OOMKilled at memory cap" oldVal oldVal
       ("container was OOMKilled but already at cap (" ++ QString newQty ++ "). Increase manually or check for memory leaks") "" false)
  else
    (mkContainer (cName container) (set_limit (set_request r ResourceMemory newQty) ResourceMemory newQty),
     mkLog now appName namespace "doubled memory (OOMKilled)" oldVal (QString newQty)
       "container was OOMKilled: doubling memory" "" false).

(** ** CPU saturation. *)

Definition peakMillis (entries : list podMetricsEntry) : Z :=
  foldl (fun peak pe =>
    if (Age pe <? saturationWarmup)%Z then peak else if (peak <? CPUMillis pe)%Z then CPUMillis pe else peak) 0 entries.

Definition maybeBumpForSaturation (rc : ResourceController) (namespace appName : string) (container : Container)
    (podEntries : list podMetricsEntry) (sustainFor : Duration) (now : Time) :
    ResourceController * Container * option ResourceLogEntry :=
  match get (Limits (cResources container)) ResourceCPU with
  | None => (rc, container, None)
  | Some cpuLim =>
      let limMillis := MilliValue cpuLim in
      if (limMillis =? 0)%Z then (rc, container, None)
      else
        let peak := peakMillis podEntries in
        let key := slash namespace appName in
        let usagePct := usage_pct peak limMillis in
        if (peak =? 0)%Z || flt usagePct cpuSaturationPct then
          (set_pinned rc (delete key (cpuPinned rc)), container, None)
        else
          let w := match cpuPinned rc !! key with
                   | Some w => if (maxSaturationGap <? Sub now (lastHot w))%Z then mkWindow now now else mkWindow (since w) now
                   | None => mkWindow now now
                   end in
          let rc := set_pinned rc (<[key := w]> (cpuPinned rc)) in
          if negb (sustainFor <=? Sub now (since w))%Z then (rc, container, None)
          else if recentlyChanged rc key now minTimeBetweenSaturationBumps then (rc, container, None)
          else
            let newQty := roundCPU (to_int64 (Ceil (fmul (of_int64 limMillis) three_halves))) in
            if (MilliValue newQty <=? limMillis)%Z then (rc, container, None)
            else
              let r := set_limit (cResources container) ResourceCPU newQty in
              let r := mkRequirements (Some (default ∅ (Requests r))) (Limits r) in
              let r := match get (Requests r) ResourceCPU with
                       | Some reqQty => if (MilliValue reqQty =? 0)%Z then set_request r ResourceCPU newQty else r
                       | None => set_request r ResourceCPU newQty
                       end in
              (set_pinned rc (delete key (cpuPinned rc)), mkContainer (cName container) r,
               Some (mkLog now appName namespace "increased CPU (saturated)" (QString cpuLim) (QString newQty)
                 ("pod at " ++ Format0 usagePct ++ "% of CPU limit, bypassing startup grace") "" false))
  end.

(** ** Adjustments from usage. *)

Definition usage_reason (usagePct : float64) : string := "usage at " ++ Format0 usagePct ++ "%".

(** Raising a limit only when the new request would exceed it. *)
Definition limit_at_least (r : ResourceRequirements (Q := Q)) (name : string) (q : Q) : ResourceRequirements :=
  match get (Limits r) name with
  | Some curLim => if above q curLim then set_limit r name q else r
  | None => set_limit r name q
  end.

Definition adjustMemory (namespace appName : string) (r : ResourceRequirements (Q := Q)) (hist : list usageObservation)
    (avgMem : Z) (profile : string) (replicas : Z) (blockDecrease : bool) (minHot : Z) (now : Time) :
    ResourceRequirements (Q := Q) * list ResourceLogEntry :=
  match get (Requests r) ResourceMemory with
  | None => (r, [])
  | Some memReq =>
      let reqBytes := QValue memReq in
      if (reqBytes <=? 0)%Z then (r, [])
      else
        let usagePct := usage_pct avgMem reqBytes in
        let n := Z.of_nat (length hist) in
        if flt (pct 80) usagePct && (minHot <=? n)%Z && consistentHighMemory hist reqBytes then
          let newQty := roundMemory (to_int64 (Ceil (fmul (of_int64 reqBytes) three_halves))) in
          (limit_at_least (set_request r ResourceMemory newQty) ResourceMemory newQty,
           [mkLog now appName namespace "increased memory" (QString memReq) (QString newQty) (usage_reason usagePct) "" false])
        else if flt usagePct (pct 20) && (3 <=? n)%Z && consistentLowMemory hist reqBytes && (2 <=? replicas)%Z &&
                negb blockDecrease then
          let minBytes := QValue (MustParse (pmemory (profileDefaults profile))) in
          let newBytes := to_int64 (Ceil (fmul (of_int64 reqBytes) one_half)) in
          let newQty := roundMemory (if (newBytes <? minBytes)%Z then minBytes else newBytes) in
          if (QValue newQty <? reqBytes)%Z then
            (set_limit (set_request r ResourceMemory newQty) ResourceMemory newQty,
             [mkLog now appName namespace "decreased memory" (QString memReq) (QString newQty)
                (usage_reason usagePct ++ " for 3+ checks") "" false])
          else (r, [])
        else (r, [])
  end.

Definition adjustCPU (namespace appName : string) (r : ResourceRequirements (Q := Q)) (hist : list usageObservation)
    (avgCPU : Z) (profile : string) (replicas : Z) (blockDecrease : bool) (minHot : Z) (now : Time) :
    ResourceRequirements (Q := Q) * list ResourceLogEntry :=
  match get (Requests r) ResourceCPU with
  | None => (r, [])
  | Some cpuReq =>
      let reqMillis := MilliValue cpuReq in
      if (reqMillis <=? 0)%Z then (r, [])
      else
        let usagePct := usage_pct avgCPU reqMillis in
        let n := Z.of_nat (length hist) in
        if flt (pct 80) usagePct && (minHot <=? n)%Z && consistentHighCPU hist reqMillis then
          let newQty := roundCPU (to_int64 (Ceil (fmul (of_int64 reqMillis) three_halves))) in
          (limit_at_least (set_request r ResourceCPU newQty) ResourceCPU newQty,
           [mkLog now appName namespace "increased CPU" (QString cpuReq) (QString newQty) (usage_reason usagePct) "" false])
        else if flt usagePct (pct 20) && (3 <=? n)%Z && consistentLowCPU hist reqMillis && (2 <=? replicas)%Z &&
                negb blockDecrease then
          let profileMin := profileDefaults profile in
          let minMillis := MilliValue (MustParse (pcpu profileMin)) in
          let newMillis := to_int64 (Ceil (fmul (of_int64 reqMillis) one_half)) in
          let newQty := roundCPU (if (newMillis <? minMillis)%Z then minMillis else newMillis) in
          if (MilliValue newQty <? reqMillis)%Z then
            let minLimit := MustParse (cpuLimit_of profileMin) in
            (set_limit (set_request r ResourceCPU newQty) ResourceCPU (if below newQty minLimit then minLimit else newQty),
             [mkLog now appName namespace "decreased CPU" (QString cpuReq) (QString newQty)
                (usage_reason usagePct ++ " for 3+ checks") "" false])
          else (r, [])
        else (r, [])
  end.

(** ** The evaluation. *)

Definition default_resources (profile : string) : ResourceRequirements (Q := Q) :=
  let d := profileDefaults profile in
  mkRequirements
    (Some (<[ResourceMemory := MustParse (pmemory d)]> {[ResourceCPU := MustParse (pcpu d)]}))
    (Some (<[ResourceMemory := MustParse (pmemory d)]> {[ResourceCPU := MustParse (cpuLimit_of d)]})).

(** Averages over the mature pods, in 64-bit arithmetic. *)
Definition average (f : podMetricsEntry -> Z) (pods : list podMetricsEntry) : Z :=
  Z.quot (foldl (fun total pe => wrap64 (total + f pe)) 0 pods) (Z.of_nat (length pods)).

Definition mature (podEntries : list podMetricsEntry) : list podMetricsEntry :=
  List.filter (fun pe => startupGracePeriod <=? Age pe)%Z podEntries.

(** Neither requests nor limits. *)
Definition no_resources (r : ResourceRequirements (Q := Q)) : bool :=
  match Requests r, Limits r with None, None => true | _, _ => false end.

(** One reading of the clock stands for those of one evaluation. *)
Definition evaluate (rc : ResourceController) (namespace appName : string) (container : Container)
    (podEntries : list podMetricsEntry) (profile : string) (replicas : Z) (blockDecrease : bool)
    (sustainSaturationFor : Duration) (cpuLimitMovable : bool) (now : Time) :
    ResourceController * Container * list ResourceLogEntry * option pendingOOMMark :=
  if no_resources (cResources container) then
    let d := profileDefaults profile in
    (rc, mkContainer (cName container) (default_resources profile),
     [mkLog now appName namespace "applied default resources" "none" (pcpu d ++ " CPU, " ++ pmemory d ++ " memory")
        ("no resources set, using " ++ pname d ++ " profile") "" false], None)
  else
    let oomAt := newestOOM podEntries in
    let oomKey := slash (slash namespace appName) (cName container) in
    if isNewOOM rc oomKey oomAt && (Sub now oomAt <? oomActionableWindow)%Z then
      let '(container, entry) := raise_after_oom rc namespace appName container now in
      (rc, container, [entry], Some (mkMark oomKey oomAt))
    else
      match withoutSynthetic podEntries with
      | [] => (rc, container, [], None)
      | podEntries =>
          let '(rc, container, bump) :=
            if cpuLimitMovable then maybeBumpForSaturation rc namespace appName container podEntries sustainSaturationFor now
            else (rc, container, None) in
          match bump with
          | Some entry => (rc, container, [entry], None)
          | None =>
              match mature podEntries with
              | [] => (rc, container, [], None)
              | maturePods =>
                  let avgCPU := average CPUMillis maturePods in
                  let avgMem := average MemoryBytes maturePods in
                  let rc := observe rc namespace appName avgCPU avgMem in
                  let hist := default [] (history rc !! (namespace, appName)) in
                  let r := with_maps (cResources container) in
                  let minHot := if (0 <? sustainSaturationFor)%Z then 2 else 1 in
                  let '(r, memEntries) :=
                    adjustMemory namespace appName r hist avgMem profile replicas blockDecrease minHot now in
                  let '(r, cpuEntries) :=
                    adjustCPU namespace appName r hist avgCPU profile replicas blockDecrease minHot now in
                  (rc, mkContainer (cName container) r, (memEntries ++ cpuEntries)%list, None)
              end
          end
      end.
End Sizing.
