(* ===== verification/Tuning.v ===== *)
(** * The auto-sizer's tuning records
    ([src/console-api/controller/tuning.go] and the parts of
    [resource_controller.go] it uses)

    One pass over a workload: load the owner's tuning record, evaluate the pods'
    metrics, keep the result inside the user's bounds and the quota, save the
    record, and only then remember what was handled. Every call to the API server
    may fail before or after it took effect. *)

From Stdlib Require Import Ascii.
From stdpp Require Import base tactics numbers countable list option strings gmap sorting.
From S2P Require Import Prelude GoStd Calendar Quantity Float64 Capacity Bounds Quota Sizing.

Local Open Scope string_scope.

Definition decreaseCooldownAfterOOM : Duration := 24 * Hour.

Definition quotaBlockCooldown : Duration := 30 * Minute.

Definition updateFailCooldown : Duration := 30 * Minute.

(** ** Owners and records. *)

(** The controlling owner reference of an object. *)
Record OwnerReference := mkOwnerRef { refAPIVersion : string; refKind : string; refName : string; refUID : string }.

Record workloadOwner := mkOwner { oKind : string; oName : string; oUID : string }.

Definition Group : string := "kipper.run".

Definition ownerOf (ref : option OwnerReference) : option workloadOwner :=
  match ref with
  | None => None
  | Some ref =>
      if negb (HasPrefix (refAPIVersion ref) (Group ++ "/")) then None
      else if (refKind ref =? "App") || (refKind ref =? "Service") || (refKind ref =? "Function")
      then Some (mkOwner (refKind ref) (refName ref) (refUID ref))
      else None
  end.

Definition TuningName (kind name : string) : string := ToLower kind ++ "-" ++ name.

Definition tuningName (owner : workloadOwner) : string := TuningName (oKind owner) (oName owner).

(** A record as the API server has it: the UID of its controller, its status. *)
Record ResourceTuning := mkTuning { controllerUID : option string; rtStatus : ResourceTuningStatus }.

Abbreviation Records := (@gmap (string * string) prod_eq_dec prod_countable ResourceTuning).

Definition no_tuned : TunedResources := mkTuned "" "" "" "".

Definition no_status : ResourceTuningStatus := mkStatus no_tuned None None None None "".

(** Times are stored in whole seconds. *)
Definition stored_time (t : Time) : Time := t - t mod Second.

Definition stored (s : ResourceTuningStatus) : ResourceTuningStatus :=
  mkStatus (Recommendation_ s) (RecommendedUnder s) (stored_time <$> RecommendedAt s)
    (stored_time <$> DecreaseBlockedUntil s)
    ((fun o => mkOOMRecord (Identity o) (stored_time (At o)) (Alerted o)) <$> LastOOM s) (MemoryCause s).

(** What becomes of a write: done, refused, or done with the answer lost. *)
Inductive Outcome := Done | Refused | Lost.

Definition took_effect (o : Outcome) : bool := match o with Refused => false | _ => true end.

Definition succeeded (o : Outcome) : bool := match o with Done => true | _ => false end.

(** The outcomes of the calls of one pass. *)
Record Faults := mkFaults { readsRecord : bool; deletes : Outcome; creates : Outcome; updates : Outcome }.

Definition no_faults : Faults := mkFaults true Done Done Done.

(** The record, and whether it is new. *)
Definition loadTuning (faults : Faults) (api : Records) (namespace : string) (owner : workloadOwner) :
    Records * option (ResourceTuning * bool) :=
  let key := (namespace, tuningName owner) in
  let fresh := (mkTuning (Some (oUID owner)) no_status, true) in
  if negb (readsRecord faults) then (api, None)
  else
    match api !! key with
    | None => (api, Some fresh)
    | Some rt =>
        match controllerUID rt with
        | None =>
            ((if took_effect (deletes faults) then delete key api else api),
             if succeeded (deletes faults) then Some fresh else None)
        | Some uid => (api, if uid =? oUID owner then Some (rt, false) else None)
        end
    end.

(** Creating a record drops its status, which has its own write. *)
Definition saveTuning (faults : Faults) (api : Records) (key : string * string) (rt : ResourceTuning) (isNew : bool) :
    Records * bool :=
  let update (api : Records) :=
    match api !! key with
    | None => (api, false)
    | Some old =>
        ((if took_effect (updates faults) then <[key := mkTuning (controllerUID old) (stored (rtStatus rt))]> api else api),
         succeeded (updates faults))
    end in
  if isNew then
    match api !! key with
    | Some _ => (api, false)
    | None =>
        let api := if took_effect (creates faults) then <[key := mkTuning (controllerUID rt) no_status]> api else api in
        if succeeded (creates faults) then update api else (api, false)
    end
  else update api.

Definition timesEqual (a b : option Time) : bool :=
  match a, b with Some a, Some b => (a =? b)%Z | None, None => true | _, _ => false end.

Definition tuned_eqb (a b : TunedResources) : bool :=
  (tCPURequest a =? tCPURequest b) && (tCPULimit a =? tCPULimit b) &&
  (tMemoryRequest a =? tMemoryRequest b) && (tMemoryLimit a =? tMemoryLimit b).

Definition statusEqual (a b : ResourceTuningStatus) : bool :=
  tuned_eqb (Recommendation_ a) (Recommendation_ b) && (MemoryCause a =? MemoryCause b) &&
  match RecommendedUnder a, RecommendedUnder b with
  | Some x, Some y => tuned_eqb x y
  | None, None => true
  | _, _ => false
  end &&
  timesEqual (DecreaseBlockedUntil a) (DecreaseBlockedUntil b) &&
  match LastOOM a, LastOOM b with
  | Some x, Some y => Identity x =? Identity y
  | None, None => true
  | _, _ => false
  end.

Section Tuning.
Context {Q : Type} `{Quantities Q}.
(** [json.Unmarshal] of managed fields, [ResourceRequirements.String], and the
    layout RFC 3339 with nanoseconds. *)
Variable Unmarshal : string -> option (list (string * json)).
Variable signature : ResourceRequirements (Q := Q) -> string.
Variable FormatNano : Time -> string.
Variable ParseNano : string -> option Time.

(** ** The owner's spec. *)

Record OwnedResources := mkOwned { orCPURequest : string; orCPULimit : string; orMemoryRequest : string; orMemoryLimit : string }.

Inductive OwnerObject := AppObject (app : App) | OwnedObject (r : OwnedResources).

(** [None] is an object that could not be read or a quantity that does not parse. *)
Definition ownerSpec (obj : option OwnerObject) : option (Spec (Q := Q)) :=
  match obj with
  | None => None
  | Some (AppObject app) => match AppSpec Unmarshal app with Ok s => Some s | Err _ => None end
  | Some (OwnedObject r) =>
      match OwnedSpec (orCPURequest r) (orCPULimit r) (orMemoryRequest r) (orMemoryLimit r) with
      | Ok s => Some s
      | Err _ => None
      end
  end.

(** ** OOM records. *)

Definition oomIdentity (container : string) (at_ : Time) : string := container ++ "@" ++ FormatNano at_.

Definition handledOOMTime (rec : OOMRecord) : Time :=
  match LastIndexByte (Identity rec) "@"%char with
  | Some i => match ParseNano (str_drop (S i) (Identity rec)) with
              | Some t => t
              | None => At rec
              end
  | None => At rec
  end.

(** Remembering an OOM as handled, never moving back. *)
Definition remember (rc : ResourceController) (oomKey : string) (t : Time) : ResourceController :=
  if After t (handled_at (oomHandledAt rc) oomKey) then set_handled rc (<[oomKey := t]> (oomHandledAt rc)) else rc.

Definition commitOOMMark (rc : ResourceController) (mark : option pendingOOMMark) : ResourceController :=
  match mark with
  | None => rc
  | Some m => set_handled rc (<[mark_key m := mark_at m]> (oomHandledAt rc))
  end.

Definition oomAtUserLimit (rc : ResourceController) (namespace appName oomKey : string) (live : Container (Q := Q))
    (podEntries : list podMetricsEntry) (now : Time) : option (ResourceLogEntry * Time) :=
  let oomAt := newestOOM podEntries in
  if isNewOOM rc oomKey oomAt && (Sub now oomAt <? oomActionableWindow)%Z then
    let limit := QString (at_name (Limits (cResources live)) ResourceMemory) in
    Some (mkLog now appName namespace "OOMKilled at your limit" limit limit
            ("container was OOMKilled at the memory limit of " ++ limit ++ " you set. Raise it to allow more") "" false, oomAt)
  else None.

Definition without_oom (at_ : Time) (pe : podMetricsEntry) : option podMetricsEntry :=
  if negb (GoStd.IsZero (OOMAt pe)) && negb (After (OOMAt pe) at_) then
    if Synthetic pe then None
    else Some (mkPod (pmNamespace pe) (PodName pe) (CPUMillis pe) (MemoryBytes pe) (Labels pe) false zero_time
                 (StuckMinutes pe) (Age pe) (Synthetic pe))
  else Some pe.

Definition withoutOOMAt (entries : list podMetricsEntry) (at_ : Time) : list podMetricsEntry := omap (without_oom at_) entries.

(** ** Proposals against the bounds. *)

Definition pairsEqual (a b : Pair (Q := Q)) : bool := same (Request a) (Request b) && same (Limit a) (Limit b).

Definition maxQuantity (a b : Q) : Q := if at_least a b then a else b.

Definition zero_pair : Pair (Q := Q) := mkPair zero_quantity zero_quantity.

Definition effective (request limit : Quantity (Q := Q)) (name : string) (live proposed : ResourceRequirements (Q := Q))
    (pending : option (Pair (Q := Q))) (cooldown : bool) (auto : AutoRange (Q := Q)) : Pair (Q := Q) * bool :=
  let livePair := default zero_pair (PairOf (Some live) name) in
  match PairOf (Some proposed) name with
  | Some proposedPair =>
      if pairsEqual proposedPair livePair then ((Resolve request limit pending livePair no_range).1, false)
      else
        let proposedPair :=
          match cooldown, pending with
          | true, Some p => mkPair (maxQuantity (Request proposedPair) (Request p)) (maxQuantity (Limit proposedPair) (Limit p))
          | _, _ => proposedPair
          end in
        let '(p, mode) := Resolve request limit (Some proposedPair) livePair auto in
        (p, bool_decide (mode = ModeAutomatic \/ mode = ModeBounded) && negb (pairsEqual p livePair))
  | None => ((Resolve request limit pending livePair no_range).1, false)
  end.

Definition pairOfStrings (request limit : string) : option (Pair (Q := Q)) :=
  if (request =? "") || (limit =? "") then None
  else req ← ParseQuantity request; lim ← ParseQuantity limit; Some (mkPair req lim).

(** Going back to the live value of one resource. *)
Definition restore (name : string) (dst src : option (gmap string Q)) : option (gmap string Q) :=
  match get src name with
  | None => delete name <$> dst
  | Some v => Some (<[name := v]> (default ∅ dst))
  end.

Definition keepLive (c live : ResourceRequirements (Q := Q)) (name : string) : ResourceRequirements (Q := Q) :=
  mkRequirements (restore name (Requests c) (Requests live)) (restore name (Limits c) (Limits live)).

Definition setPair (r : ResourceRequirements (Q := Q)) (name : string) (p : Pair (Q := Q)) : ResourceRequirements (Q := Q) :=
  set_limit (set_request r name (Request p)) name (Limit p).

Definition sameMemory (a b : TunedResources) : bool :=
  (tMemoryRequest a =? tMemoryRequest b) && (tMemoryLimit a =? tMemoryLimit b).

Definition sized (m : Mode) : bool := bool_decide (m = ModeAutomatic \/ m = ModeBounded).

Definition recommendation (cpuMode : Mode) (cpu : Pair (Q := Q)) (memMode : Mode) (mem : Pair (Q := Q)) : TunedResources :=
  mkTuned (if sized cpuMode then QString (Request cpu) else "") (if sized cpuMode then QString (Limit cpu) else "")
    (if sized memMode then QString (Request mem) else "") (if sized memMode then QString (Limit mem) else "").

(** ** Log entries. *)

Definition isChange (action : string) : bool :=
  HasPrefix action "increased" || HasPrefix action "decreased" || HasPrefix action "doubled".

Definition shownChange (live : ResourceRequirements (Q := Q)) (name : string) (to : Pair (Q := Q)) : string * string :=
  let from := default zero_pair (PairOf (Some live) name) in
  if same (Request from) (Request to) then (QString (Limit from), QString (Limit to))
  else (QString (Request from), QString (Request to)).

Definition with_change (e : ResourceLogEntry) (c : string * string) : ResourceLogEntry :=
  mkLog (logTime e) (logApp e) (logNamespace e) (Action e) c.1 c.2 (Reason e) (Severity e) (Quiet e).

Definition keep_entry (live : ResourceRequirements (Q := Q)) (cpu : Pair (Q := Q)) (cpuChanged : bool) (mem : Pair (Q := Q))
    (memChanged : bool) (e : ResourceLogEntry) : option ResourceLogEntry :=
  if Action e =? "applied default resources" then if cpuChanged || memChanged then Some e else None
  else if isChange (Action e) && Contains (Action e) "memory" then
    if memChanged then Some (with_change e (shownChange live ResourceMemory mem)) else None
  else if isChange (Action e) && Contains (Action e) "CPU" then
    if cpuChanged then Some (with_change e (shownChange live ResourceCPU cpu)) else None
  else Some e.

Definition keepChangedEntries (proposed : list ResourceLogEntry) (live : ResourceRequirements (Q := Q)) (cpu : Pair (Q := Q))
    (cpuChanged : bool) (mem : Pair (Q := Q)) (memChanged : bool) : list ResourceLogEntry :=
  omap (keep_entry live cpu cpuChanged mem memChanged) proposed.

(** ** The quota. *)

Definition grew (old updated : option (gmap string Q)) : bool :=
  existsb (fun '(name, v) => match get old name with Some prev => above v prev | None => true end)
    (map_to_list (default ∅ updated)).

Definition resourcesIncreased (before after : ResourceRequirements (Q := Q)) : bool :=
  grew (Requests before) (Requests after) || grew (Limits before) (Limits after).

(** Throttled by the last alert of the same workload. *)
Definition suppressed (m : gmap string Time) (key : string) (now : Time) (cooldown : Duration) : bool :=
  (Sub now (handled_at m key) <? cooldown)%Z.

(** The controller, the entries, and whether the increase is blocked. The
    resources go back to [before] when it is. *)
Definition applyQuotaCeiling (rc : ResourceController) (quota : result GetError (ResourceQuota (Q := Q)))
    (namespace appName : string) (target before : ResourceRequirements (Q := Q)) (replicas surgePods : Z)
    (podSpec : option (PodSpec (Q := Q))) (entries : list ResourceLogEntry) (now : Time) :
    ResourceController * list ResourceLogEntry * bool :=
  match entries with
  | [] => (rc, entries, false)
  | _ =>
      if negb (resourcesIncreased before target) then (rc, entries, false)
      else
        match quota with
        | Err NotFound => (rc, entries, false)
        | Err _ => (rc, [], true)
        | Ok quota =>
            let '(dimension, projected, hard, fits) := Fits quota before target replicas surgePods podSpec in
            if fits then (rc, entries, false)
            else
              let key := slash namespace appName in
              if suppressed (quotaBlockAlert rc) key now quotaBlockCooldown then (rc, [], true)
              else
                (set_quotaBlock rc (<[key := now]> (quotaBlockAlert rc)),
                 [mkLog now appName namespace "resource increase blocked by project quota" hard projected
                    ("raising resources would need " ++ projected ++ " of " ++ dimension ++ " but the namespace quota caps at " ++
                     hard ++ ". Raise the project tier or environment quota, or reduce other workloads") "critical" false], true)
        end
  end.

Definition workloadUpdateFailed (rc : ResourceController) (namespace appName err : string) (now : Time) :
    ResourceController * list ResourceLogEntry :=
  let key := slash namespace appName in
  if suppressed (updateFailAlert rc) key now updateFailCooldown then (rc, [])
  else
    (set_updateFail rc (<[key := now]> (updateFailAlert rc)),
     [mkLog now appName namespace "resource update failed" "" "" ("could not apply resource changes: " ++ err) "critical" false]).

(** ** The pass. *)

Record appSizing := mkSizing { ScaledOut : bool; TrackedBy : Tracked }.

(** A Deployment or StatefulSet as the pass sees it: the live container is the
    first of its pod template. *)
Record Workload := mkWorkload {
  wNamespace : string;
  wName : string;
  wOwner : option OwnerReference;
  wLabels : gmap string string;
  wApp : string;
  wLive : Container (Q := Q);
  wReplicas : Z;
  wSurge : Z;
  wPodSpec : option (PodSpec (Q := Q));
  wSustain : Duration
}.

(** What the pass reads of the world: the owner's object, the quota, the pods'
    metrics, the autoscaler's rule, the clock and the text of a save error. *)
Record Inputs := mkInputs {
  iOwner : option OwnerObject;
  iQuota : result GetError (ResourceQuota (Q := Q));
  iPods : list podMetricsEntry;
  iSizing : appSizing;
  iNow : Time;
  iSaveError : string
}.

Definition ResourceProfile : string := "kipper.run/resource-profile".

(** Functions run on the lightweight profile, which their Deployments do not label. *)
Definition profile_of (labels : gmap string string) (owner : workloadOwner) : string :=
  let p := default "" (labels !! ResourceProfile) in
  if (p =? "") && (oKind owner =? "Function") then "lightweight" else p.

Definition noteSkipped (rc : ResourceController) (namespace name : string) : ResourceController :=
  let key := slash namespace name in
  if default false (skippedLogged rc !! key) then rc else set_skipped rc (<[key := true]> (skippedLogged rc)).

Definition cpu_range (profile : string) : AutoRange (Q := Q) :=
  let p := profileDefaults profile in mkRange (MustParse (pcpu p)) (MustParse (cpuLimit_of p)) zero_quantity.

Definition memory_range (rc : ResourceController) (profile : string) : AutoRange (Q := Q) :=
  mkRange (MustParse (pmemory (profileDefaults profile))) zero_quantity (BinaryQuantity (oomCap rc)).

(** What a pass decides for one container, the quota aside. *)
Record Decision := mkDecision {
  cpuEff : Pair (Q := Q); cpuChanged : bool; memEff : Pair (Q := Q); memChanged : bool; dEntries : list ResourceLogEntry;
  dMark : option pendingOOMMark
}.

Definition decide_sizes (rc : ResourceController) (w : Workload) (profile : string) (spec : Spec (Q := Q))
    (status : ResourceTuningStatus) (podEntries : list podMetricsEntry) (sizing : appSizing) (now : Time) :
    ResourceController * Decision :=
  let live := cResources (wLive w) in
  let cooldown := match DecreaseBlockedUntil status with Some until => Before now until | None => false end in
  let blockDecrease := ScaledOut sizing || cooldown in
  let tracked := TrackedBy sizing in
  let cpuMode := ModeOf (CPURequest spec) (CPULimit spec) in
  let '(rc, work, proposed, oomMark) :=
    evaluate rc (wNamespace w) (wApp w) (wLive w) podEntries profile (wReplicas w) blockDecrease (wSustain w)
      (bool_decide (cpuMode = ModeAutomatic) && negb (CPU tracked)) now in
  let work := cResources work in
  let work := if CPU tracked then keepLive work live ResourceCPU else work in
  let work := if Memory tracked && bool_decide (oomMark = None) then keepLive work live ResourceMemory else work in
  let pending := WithChangedRequests (Recommendation tracked status) spec (RecommendedUnder status) in
  let pendingCPU := pairOfStrings (tCPURequest pending) (tCPULimit pending) in
  let pendingMem := pairOfStrings (tMemoryRequest pending) (tMemoryLimit pending) in
  let '(cpuEff, cpuChanged) :=
    effective (CPURequest spec) (CPULimit spec) ResourceCPU live work pendingCPU cooldown (cpu_range profile) in
  let '(memEff, memChanged) :=
    effective (MemoryRequest spec) (MemoryLimit spec) ResourceMemory live work pendingMem cooldown (memory_range rc profile) in
  let '(cpuHeld, memHeld) := PendingRequests spec (RecommendedUnder status) (Some live) in
  let '(cpuEff, cpuChanged) :=
    if cpuHeld then (mkPair (Value (CPURequest spec)) (Value (CPULimit spec)), false) else (cpuEff, cpuChanged) in
  let '(memEff, memChanged) :=
    if memHeld then (mkPair (Value (MemoryRequest spec)) (Value (MemoryLimit spec)), false) else (memEff, memChanged) in
  (rc, mkDecision cpuEff cpuChanged memEff memChanged
         (keepChangedEntries proposed live cpuEff cpuChanged memEff memChanged) oomMark).

(** The status after a decision the quota allows. *)
Definition next_status (spec : Spec (Q := Q)) (status : ResourceTuningStatus) (sizing : appSizing) (live : Container (Q := Q))
    (d : Decision) (now : Time) : ResourceTuningStatus :=
  let rec := recommendation (ModeOf (CPURequest spec) (CPULimit spec)) (cpuEff d)
               (ModeOf (MemoryRequest spec) (MemoryLimit spec)) (memEff d) in
  let cause :=
    if negb (bool_decide (dMark d = None)) && memChanged d then MemoryCauseOOMKill
    else if negb (sameMemory rec (Recommendation_ status)) then ""
    else if pairsEqual (memEff d) (default zero_pair (PairOf (Some (cResources live)) ResourceMemory)) then ""
    else MemoryCause status in
  let rec := Recommendation (TrackedBy sizing) (mkStatus rec None None None None cause) in
  mkStatus rec
    (Some (NextRecommendedUnder spec (RecommendedUnder status) (Some (cResources live))))
    (if tuned_eqb rec (Recommendation_ status) then RecommendedAt status else Some now)
    (match dMark d with
     | Some _ => if memChanged d then Some (now + decreaseCooldownAfterOOM)%Z else DecreaseBlockedUntil status
     | None => DecreaseBlockedUntil status
     end)
    (match dMark d with
     | Some m => Some (mkOOMRecord (oomIdentity (cName live) (mark_at m)) (mark_at m) true)
     | None => LastOOM status
     end)
    cause.

Definition oomKeyOf (w : Workload) : string := slash (slash (wNamespace w) (wApp w)) (cName (wLive w)).

(** Before the evaluation: what the record remembers, and an OOM of memory that
    is not Kipper's to raise, which is only alerted. *)
Definition prepare (rc : ResourceController) (w : Workload) (i : Inputs) (owner : workloadOwner) (spec : Spec (Q := Q))
    (before : ResourceTuningStatus) : ResourceController * list ResourceLogEntry * list podMetricsEntry :=
  let live := wLive w in
  let rc := match LastOOM before with Some last => remember rc (oomKeyOf w) (handledOOMTime last) | None => rc end in
  let limited := if bool_decide (ModeOf (MemoryRequest spec) (MemoryLimit spec) = ModeAutomatic) then None
                 else oomAtUserLimit rc (wNamespace w) (wApp w) (oomKeyOf w) live (iPods i) (iNow i) in
  let '(rc, oomAlert, podEntries) :=
    match limited with
    | Some (entry, at_) =>
        (set_acks rc (stagedAcks rc ++
           [mkAck (wNamespace w) (oKind owner) (oName owner) (oUID owner) (oomKeyOf w) (oomIdentity (cName live) at_) at_])%list,
         [entry], withoutOOMAt (iPods i) at_)
    | None => (rc, [], iPods i)
    end in
  (startHistoryOverIfResized signature rc (wNamespace w) (wApp w) (cResources live), oomAlert, podEntries).

(** The container as the decision would have it. *)
Definition targetOf (live : ResourceRequirements (Q := Q)) (d : Decision) : ResourceRequirements (Q := Q) :=
  setPair (setPair live ResourceCPU (cpuEff d)) ResourceMemory (memEff d).

(** After the evaluation: the quota, the record, and what is remembered once it
    is saved. *)
Definition settle (rc : ResourceController) (api : Records) (w : Workload) (i : Inputs) (faults : Faults)
    (owner : workloadOwner) (spec : Spec (Q := Q)) (rt : ResourceTuning) (isNew : bool) (oomAlert : list ResourceLogEntry)
    (d : Decision) : ResourceController * Records * list ResourceLogEntry :=
  let live := cResources (wLive w) in
  let target := targetOf live d in
  let '(rc, kept, quotaBlocked) :=
    applyQuotaCeiling rc (iQuota i) (wNamespace w) (wApp w) target live (wReplicas w) (wSurge w)
      (WithContainerResources (wPodSpec w) target) (dEntries d) (iNow i) in
  let before := rtStatus rt in
  let next := if quotaBlocked then before else next_status spec before (iSizing i) (wLive w) d (iNow i) in
  let '(api, saved) :=
    if isNew || negb (statusEqual before next)
    then saveTuning faults api (wNamespace w, tuningName owner) (mkTuning (controllerUID rt) next) isNew
    else (api, true) in
  if negb saved then
    let '(rc, failed) := workloadUpdateFailed rc (wNamespace w) (wApp w) (iSaveError i) (iNow i) in
    (rc, api, (oomAlert ++ failed)%list)
  else
    let rc := if quotaBlocked then rc else commitOOMMark rc (dMark d) in
    let rc := match kept with
              | [] => rc
              | _ => if quotaBlocked then rc else recordChange rc (wNamespace w) (wApp w) (iNow i)
              end in
    (rc, api, (oomAlert ++ kept)%list).

(** The pass up to its decision: the records after loading, and unless loading
    failed the controller, the record, whether it is new, the alert and the
    decision. *)
Definition decide_pass (rc : ResourceController) (api : Records) (w : Workload) (i : Inputs) (faults : Faults)
    (owner : workloadOwner) (spec : Spec (Q := Q)) :
    Records * option (ResourceController * ResourceTuning * bool * list ResourceLogEntry * Decision) :=
  match loadTuning faults api (wNamespace w) owner with
  | (api, None) => (api, None)
  | (api, Some (rt, isNew)) =>
      let '(rc, oomAlert, podEntries) := prepare rc w i owner spec (rtStatus rt) in
      let '(rc, d) :=
        decide_sizes rc w (profile_of (wLabels w) owner) spec (rtStatus rt) podEntries (iSizing i) (iNow i) in
      (api, Some (rc, rt, isNew, oomAlert, d))
  end.

Definition tuneWorkload (rc : ResourceController) (api : Records) (w : Workload) (i : Inputs) (faults : Faults) :
    ResourceController * Records * list ResourceLogEntry :=
  match ownerOf (wOwner w) with
  | None => (noteSkipped rc (wNamespace w) (wName w), api, [])
  | Some owner =>
      match ownerSpec (iOwner i) with
      | None => (rc, api, [])
      | Some spec =>
          match decide_pass rc api w i faults owner spec with
          | (api, None) => (rc, api, [])
          | (api, Some (rc, rt, isNew, oomAlert, d)) => settle rc api w i faults owner spec rt isNew oomAlert d
          end
      end
  end.

(** ** Acknowledgements. *)

Definition acknowledgeOOM (rc : ResourceController) (api : Records) (a : ack) (faults : Faults) : ResourceController * Records :=
  let rc := remember rc (ackKey a) (ackAt a) in
  let owner := mkOwner (ackKind a) (ackName a) (ackUID a) in
  match loadTuning faults api (ackNamespace a) owner with
  | (api, None) => (rc, api)
  | (api, Some (rt, isNew)) =>
      let s := rtStatus rt in
      let s := mkStatus (Recommendation_ s) (RecommendedUnder s) (RecommendedAt s) (DecreaseBlockedUntil s)
                 (Some (mkOOMRecord (ackIdentity a) (ackAt a) true)) (MemoryCause s) in
      (rc, (saveTuning faults api (ackNamespace a, tuningName owner) (mkTuning (controllerUID rt) s) isNew).1)
  end.

(** Acknowledgements whose alerts were not stored are dropped. *)
Definition commitStagedAcks (rc : ResourceController) (api : Records) (stored_ : bool) (faults : list Faults) :
    ResourceController * Records :=
  let acks := stagedAcks rc in
  let rc := set_acks rc [] in
  if negb stored_ then (rc, api)
  else foldl (fun s (af : ack * Faults) => acknowledgeOOM s.1 s.2 af.1 af.2) (rc, api)
         (zip acks (faults ++ replicate (length acks) no_faults))%list.

(** The tuning part of a tick: every workload, the alerts, the acknowledgements.
    [others] are the entries of the rest of the tick, about autoscalers and nodes.
    [alerts_written] says whether the alerts could be written; none to write
    counts as stored. *)
Definition alertable (entries : list ResourceLogEntry) : list ResourceLogEntry :=
  List.filter (fun e => negb (Quiet e)) entries.

Definition tune_all (rc : ResourceController) (api : Records) (ws : list (Workload * Inputs * Faults)) :
    ResourceController * Records * list ResourceLogEntry :=
  foldl (fun s (x : Workload * Inputs * Faults) =>
    let '(rc, api, entries) := tuneWorkload s.1.1 s.1.2 x.1.1 x.1.2 x.2 in (rc, api, (s.2 ++ entries)%list))
    (rc, api, []) ws.

Definition tick (rc : ResourceController) (api : Records) (ws : list (Workload * Inputs * Faults))
    (others : list ResourceLogEntry) (alerts_written : bool) (ack_faults : list Faults) : ResourceController * Records * list ResourceLogEntry :=
  let '(rc, api, entries) := tune_all rc api ws in
  let alerts := alertable (entries ++ others)%list in
  let stored_ := match alerts with [] => true | _ => alerts_written end in
  let '(rc, api) := commitStagedAcks rc api stored_ ack_faults in
  (rc, api, if stored_ then alerts else []).
End Tuning.
