(* ===== verification/SizingDemo.v ===== *)
(** * A small cluster for the examples

    One service whose memory is Kipper's to size, with a container of 1Gi that
    was killed for memory, on the concrete quantities. *)

From Stdlib Require Import Ascii DecimalString DecimalZ.
From stdpp Require Import base tactics numbers countable list option strings gmap sorting.
From S2P Require Import Prelude GoStd Calendar Quantity Float64 Capacity Bounds Quota Sizing Tuning.

Local Open Scope string_scope.

(** Times written as their number: readable, and without an at sign. *)
Definition demo_format (t : Time) : string := NilEmpty.string_of_int (Z.to_int t).

Definition demo_parse (s : string) : option Time := Z.of_int <$> NilEmpty.int_of_string s.

Lemma demo_parse_format (t : Time) : demo_parse (demo_format t) = Some t.
Proof. unfold demo_parse, demo_format. rewrite NilEmpty.isi. cbn. by rewrite DecimalZ.of_to. Qed.

Lemma demo_format_no_at (t : Time) : no_byte "@"%char (demo_format t).
Proof.
  assert (Hu : forall d, no_byte "@"%char (NilEmpty.string_of_uint d)) by (unfold no_byte; induction d; simpl; done).
  unfold demo_format. destruct (Z.to_int t) as [d|d]; [apply Hu|]. unfold no_byte. simpl. apply Hu.
Qed.

Definition demo_unmarshal (s : string) : option (list (string * json)) := None.

Definition demo_signature (r : ResourceRequirements (Q := Milli)) : string := "".

Definition gibi : Milli := BinaryQuantity (2 ^ 30).

Definition demo_amounts : option (gmap string Milli) := Some (<[ResourceMemory := gibi]> {[ResourceCPU := DecimalMilli 200]}).

Definition demo_container : Container (Q := Milli) := mkContainer "main" (mkRequirements demo_amounts demo_amounts).

(** A pod that was killed at the hour, seen a minute later; a cool one, and one
    that has used most of its memory for a while. *)
Definition killed_at : Time := Hour.

Definition demo_now : Time := (Hour + Minute)%Z.

Definition killed_pod : podMetricsEntry := mkPod "prod" "db-0" 10 (2 ^ 29) ∅ true killed_at (of_int64 0) Hour false.

Definition full_pod : podMetricsEntry := mkPod "prod" "db-0" 10 (15 * 2 ^ 26) ∅ false zero_time (of_int64 0) Hour false.

Definition demo_workload : Workload (Q := Milli) :=
  mkWorkload "prod" "db" (Some (mkOwnerRef "kipper.run/v1alpha1" "Service" "db" "u1")) ∅ "db" demo_container 1 0 None 0.

Definition demo_owner : workloadOwner := mkOwner "Service" "db" "u1".

(** No quantity set: all are Kipper's. *)
Definition demo_object : OwnerObject := OwnedObject (mkOwned "" "" "" "").

Definition demo_spec : Spec (Q := Milli) :=
  let unset := mkQuantity zero_quantity Unset in mkSpec unset unset unset unset.

Lemma demo_ownerSpec : ownerSpec (Q := Milli) demo_unmarshal (Some demo_object) = Some demo_spec.
Proof. reflexivity. Qed.

Definition demo_inputs (pods : list podMetricsEntry) (now : Time) : Inputs (Q := Milli) :=
  mkInputs (Some demo_object) (Err NotFound) pods (mkSizing false (mkTracked false false)) now "".

(** A pass of a controller that has just started, over the killed pod. *)
Definition demo_pass (rc : ResourceController) (api : Records) (faults : Faults) :=
  decide_pass demo_signature demo_format demo_parse rc api demo_workload (demo_inputs [killed_pod] demo_now) faults
    demo_owner demo_spec.

Definition demo_tuned (rc : ResourceController) (api : Records) (faults : Faults) :=
  tuneWorkload demo_unmarshal demo_signature demo_format demo_parse rc api demo_workload (demo_inputs [killed_pod] demo_now) faults.
