(* ===== verification/SizingProps.v ===== *)
(** * The auto-sizer's evaluation: theorems

    What justifies every change the evaluation proposes, and its exact size. *)

From Stdlib Require Import Ascii.
From stdpp Require Import base tactics numbers countable list option strings gmap sorting.
From S2P Require Import Prelude GoStd Calendar Quantity Float64 Capacity Bounds Quota Sizing Tuning SizingDemo.

Local Open Scope string_scope.

(** ** Sizes. *)

Definition mebi64 : Z := 64 * 1024 * 1024.

(** Bytes rounded up to a multiple of 64Mi, millicores to one of 50m. *)
Definition up64Mi (bytes : Z) : Z := ceil_div bytes mebi64 * mebi64.

Definition up50m (millis : Z) : Z := ceil_div millis 50 * 50.

(** Sizes up to a pebibyte, or as many thousandths of a core. *)
Definition sizable (z : Z) : Prop := 0 <= z <= 2 ^ 50.

Lemma up64Mi_bounds b : b <= up64Mi b < b + mebi64.
Proof. unfold up64Mi. pose proof (ceil_div_spec b mebi64 ltac:(done)). lia. Qed.

Lemma up50m_bounds m : m <= up50m m < m + 50.
Proof. unfold up50m. pose proof (ceil_div_spec m 50 ltac:(done)). lia. Qed.

Lemma up64Mi_multiple k : up64Mi (k * mebi64) = k * mebi64.
Proof. unfold up64Mi. by rewrite ceil_div_mul. Qed.

Section Evaluation.
Context {Q : Type} `{QuantityLaws Q}.

Implicit Types (r : ResourceRequirements (Q := Q)) (c : Container (Q := Q)).

Lemma round_up_wrapped b unit :
  0 < unit <= mebi64 -> 0 <= b <= 2 ^ 52 ->
  wrap64 (Z.quot (wrap64 (b + unit - 1)) unit * unit) = ceil_div b unit * unit.
Proof.
  intros Hu Hb. unfold mebi64 in Hu. rewrite (wrap64_id (b + unit - 1)) by (unfold int64_range, int64_min, int64_max; lia).
  rewrite Z.quot_div_nonneg by lia. fold (ceil_div b unit). apply wrap64_id.
  pose proof (ceil_div_spec b unit ltac:(lia)). unfold int64_range, int64_min, int64_max. lia.
Qed.

Lemma QValue_roundMemory b : 0 <= b <= 2 ^ 52 -> QValue (Q := Q) (roundMemory b) = up64Mi b.
Proof.
  intros Hb. unfold roundMemory. fold mebi64. rewrite round_up_wrapped by (unfold mebi64; lia).
  apply QValue_Binary. pose proof (up64Mi_bounds b). unfold up64Mi, mebi64, int64_max in *. lia.
Qed.

Lemma amount_roundMemory b : 0 <= b <= 2 ^ 52 -> amount (Q := Q) (roundMemory b) = up64Mi b * (1000 * milli_unit (Q := Q)).
Proof.
  intros Hb. unfold roundMemory. fold mebi64. rewrite round_up_wrapped by (unfold mebi64; lia). by rewrite amount_Binary.
Qed.

Lemma MilliValue_roundCPU m : 0 <= m <= 2 ^ 52 -> MilliValue (Q := Q) (roundCPU m) = up50m m.
Proof.
  intros Hm. unfold roundCPU. replace (m + 49) with (m + 50 - 1) by lia. rewrite round_up_wrapped by (unfold mebi64; lia).
  apply MilliValue_Decimal. pose proof (up50m_bounds m). unfold up50m, int64_max in *. lia.
Qed.

(** ** Reading and writing resources. *)

Lemma get_set_request r name q : get (Requests (set_request r name q)) name = Some q.
Proof. unfold get, set_request. cbn. by rewrite lookup_insert_eq. Qed.

Lemma get_set_limit r name q : get (Limits (set_limit r name q)) name = Some q.
Proof. unfold get, set_limit. cbn. by rewrite lookup_insert_eq. Qed.

Lemma get_set_request_ne r name other q : name <> other -> get (Requests (set_request r name q)) other = get (Requests r) other.
Proof. intros Hne. unfold get, set_request. cbn. rewrite lookup_insert_ne by done. by destruct (Requests r). Qed.

Lemma get_set_limit_ne r name other q : name <> other -> get (Limits (set_limit r name q)) other = get (Limits r) other.
Proof. intros Hne. unfold get, set_limit. cbn. rewrite lookup_insert_ne by done. by destruct (Limits r). Qed.

Lemma get_with_maps r name : get (Requests (with_maps r)) name = get (Requests r) name /\ get (Limits (with_maps r)) name = get (Limits r) name.
Proof. unfold get, with_maps. cbn. by destruct (Requests r), (Limits r). Qed.

Lemma get_limit_at_least_ne r name other q :
  name <> other -> get (Limits (limit_at_least r name q)) other = get (Limits r) other.
Proof. intros Hne. unfold limit_at_least. destruct (get (Limits r) name) as [l|]; [destruct (above q l)|]; by rewrite ?get_set_limit_ne. Qed.

Lemma requests_limit_at_least r name q : Requests (limit_at_least r name q) = Requests r.
Proof. unfold limit_at_least. by destruct (get (Limits r) name) as [l|]; [destruct (above q l)|]. Qed.

Lemma get_limit_at_least r name q :
  exists l, get (Limits (limit_at_least r name q)) name = Some l /\ amount q <= amount l /\
    (get (Limits r) name = Some l \/ l = q).
Proof.
  unfold limit_at_least. destruct (get (Limits r) name) as [l|] eqn:Hl.
  - destruct (above q l) eqn:Ha; rewrite above_spec in Ha.
    + exists q. rewrite get_set_limit. split_and!; [done|lia|by right].
    + exists l. apply Z.ltb_ge in Ha. split_and!; [done|lia|by left].
  - exists q. rewrite get_set_limit. split_and!; [done|lia|by right].
Qed.

(** What a resource of a container is read as. *)
Definition request_at r name : Q := at_name (Requests r) name.

Definition limit_at r name : Q := at_name (Limits r) name.

(** Two containers agree on a resource. *)
Definition same_resource (r r' : ResourceRequirements (Q := Q)) (name : string) : Prop :=
  get (Requests r') name = get (Requests r) name /\ get (Limits r') name = get (Limits r) name.

Lemma same_resource_refl r name : same_resource r r name.
Proof. done. Qed.

Lemma same_resource_maps r name : same_resource r (with_maps r) name.
Proof. apply get_with_maps. Qed.

Lemma same_resource_trans r1 r2 r3 name : same_resource r1 r2 name -> same_resource r2 r3 name -> same_resource r1 r3 name.
Proof. unfold same_resource. intros [H1 H2] [H3 H4]. by rewrite H3, H4. Qed.

(** ** Memory from usage. *)

(** The observations that support an increase, or a decrease. *)
Definition all_hot (f : usageObservation -> Z) (hist : list usageObservation) (reserved : Z) : Prop :=
  Forall (fun obs => fle (usage_pct (f obs) reserved) (pct 80) = false) hist.

Definition all_cold (f : usageObservation -> Z) (hist : list usageObservation) (reserved : Z) : Prop :=
  Forall (fun obs => fle (pct 20) (usage_pct (f obs) reserved) = false) hist.

Lemma forallb_negb {A : Type} (p : A -> bool) (l : list A) :
  forallb (fun a => negb (p a)) l = true <-> Forall (fun a => p a = false) l.
Proof.
  rewrite forallb_forall, Forall_forall. split; intros Hl a Ha.
  - by apply negb_true_iff, Hl, list_elem_of_In.
  - by apply negb_true_iff, Hl, list_elem_of_In.
Qed.

(** What usage does to the memory of a container. *)
Inductive memory_move r (hist : list usageObservation) (floor replicas : Z) (blockDecrease : bool) (minHot : Z) :
    ResourceRequirements (Q := Q) -> list ResourceLogEntry -> Prop :=
| memory_kept : memory_move r hist floor replicas blockDecrease minHot r []
| memory_up (memReq : Q) (r' : ResourceRequirements (Q := Q)) (e : ResourceLogEntry) :
    get (Requests r) ResourceMemory = Some memReq ->
    minHot <= Z.of_nat (length hist) -> all_hot obsMemoryBytes hist (QValue memReq) ->
    QValue (request_at r' ResourceMemory) = up64Mi (ceil_div (3 * QValue memReq) 2) ->
    amount (request_at r' ResourceMemory) <= amount (limit_at r' ResourceMemory) ->
    same_resource r r' ResourceCPU -> Action e = "increased memory" ->
    memory_move r hist floor replicas blockDecrease minHot r' [e]
| memory_down (memReq : Q) (r' : ResourceRequirements (Q := Q)) (e : ResourceLogEntry) :
    get (Requests r) ResourceMemory = Some memReq ->
    3 <= Z.of_nat (length hist) -> all_cold obsMemoryBytes hist (QValue memReq) -> 2 <= replicas -> blockDecrease = false ->
    QValue (request_at r' ResourceMemory) = up64Mi (Z.max (ceil_div (QValue memReq) 2) floor) ->
    QValue (request_at r' ResourceMemory) < QValue memReq ->
    limit_at r' ResourceMemory = request_at r' ResourceMemory ->
    same_resource r r' ResourceCPU -> Action e = "decreased memory" ->
    memory_move r hist floor replicas blockDecrease minHot r' [e].

Definition memory_floor (profile : string) : Z := QValue (MustParse (Q := Q) (pmemory (profileDefaults profile))).

Lemma cpu_memory_ne : ResourceMemory <> ResourceCPU.
Proof. done. Qed.

Lemma adjustMemory_move namespace appName r hist avgMem profile replicas blockDecrease minHot now :
  sizable (QValue (request_at r ResourceMemory)) -> sizable (memory_floor profile) ->
  let '(r', entries) := adjustMemory namespace appName r hist avgMem profile replicas blockDecrease minHot now in
  memory_move r hist (memory_floor profile) replicas blockDecrease minHot r' entries.
Proof.
  intros Hs Hf. unfold adjustMemory, request_at, at_name in *. destruct (get (Requests r) ResourceMemory) as [memReq|] eqn:Hr; [|constructor].
  cbn [default] in Hs. unfold id in Hs. fold (memory_floor profile). set (b := QValue memReq) in *. unfold sizable in *.
  destruct (Z.leb_spec b 0) as [|Hpos]; [constructor|].
  destruct (_ && _ && consistentHighMemory _ _) eqn:Hhot.
  - rewrite !andb_true_iff in Hhot. destruct Hhot as [[_ Hn%Z.leb_le] Hh%forallb_negb].
    rewrite scale_up_exact by lia. set (q := roundMemory _).
    eapply (memory_up r hist _ _ _ _ memReq); [done|done|exact Hh| | | |reflexivity].
    + unfold request_at, at_name. rewrite requests_limit_at_least, get_set_request. cbn [default]. unfold id, q.
      apply QValue_roundMemory. pose proof (ceil_div_spec (3 * b) 2 ltac:(lia)). fold b. lia.
    + unfold request_at, limit_at, at_name. rewrite requests_limit_at_least, get_set_request.
      destruct (get_limit_at_least (set_request r ResourceMemory q) ResourceMemory q) as (l & -> & Hle & _). done.
    + split.
      * rewrite requests_limit_at_least. by apply get_set_request_ne.
      * by rewrite get_limit_at_least_ne.
  - clear Hhot. destruct (_ && negb blockDecrease) eqn:Hcold; [|constructor].
    rewrite !andb_true_iff in Hcold. destruct Hcold as [[[[_ Hn%Z.leb_le] Hc%forallb_negb] Hrep%Z.leb_le] Hblock%negb_true_iff].
    rewrite scale_down_exact by lia.
    assert (Hmax : (if (ceil_div b 2 <? memory_floor profile)%Z then memory_floor profile else ceil_div b 2) = Z.max (ceil_div b 2) (memory_floor profile)).
    { destruct (Z.ltb_spec (ceil_div b 2) (memory_floor profile)); lia. }
    rewrite Hmax. set (q := roundMemory _). pose proof (ceil_div_spec b 2 ltac:(lia)).
    assert (Hq : QValue q = up64Mi (Z.max (ceil_div b 2) (memory_floor profile))) by (apply QValue_roundMemory; lia).
    destruct (Z.ltb_spec (QValue q) b) as [Hlt|]; [|constructor].
    eapply (memory_down r hist _ _ _ _ memReq); [done|done|exact Hc|done|done| | | | |reflexivity];
      unfold request_at, limit_at, at_name; change (Requests (set_limit ?a ?b ?c)) with (Requests a);
      rewrite ?get_set_request, ?get_set_limit; cbn [default]; unfold id; try done.
    split; [by apply get_set_request_ne|]. by rewrite get_set_limit_ne.
Qed.

(** ** CPU from usage. *)

Definition cpu_floor (profile : string) : Z := MilliValue (MustParse (Q := Q) (pcpu (profileDefaults profile))).

Inductive cpu_move r (hist : list usageObservation) (floor replicas : Z) (blockDecrease : bool) (minHot : Z) :
    ResourceRequirements (Q := Q) -> list ResourceLogEntry -> Prop :=
| cpu_kept : cpu_move r hist floor replicas blockDecrease minHot r []
| cpu_up (cpuReq : Q) (r' : ResourceRequirements (Q := Q)) (e : ResourceLogEntry) :
    get (Requests r) ResourceCPU = Some cpuReq ->
    minHot <= Z.of_nat (length hist) -> all_hot obsCPUMillis hist (MilliValue cpuReq) ->
    MilliValue (request_at r' ResourceCPU) = up50m (ceil_div (3 * MilliValue cpuReq) 2) ->
    amount (request_at r' ResourceCPU) <= amount (limit_at r' ResourceCPU) ->
    same_resource r r' ResourceMemory -> Action e = "increased CPU" ->
    cpu_move r hist floor replicas blockDecrease minHot r' [e]
| cpu_down (cpuReq : Q) (r' : ResourceRequirements (Q := Q)) (e : ResourceLogEntry) :
    get (Requests r) ResourceCPU = Some cpuReq ->
    3 <= Z.of_nat (length hist) -> all_cold obsCPUMillis hist (MilliValue cpuReq) -> 2 <= replicas -> blockDecrease = false ->
    MilliValue (request_at r' ResourceCPU) = up50m (Z.max (ceil_div (MilliValue cpuReq) 2) floor) ->
    MilliValue (request_at r' ResourceCPU) < MilliValue cpuReq ->
    amount (request_at r' ResourceCPU) <= amount (limit_at r' ResourceCPU) ->
    same_resource r r' ResourceMemory -> Action e = "decreased CPU" ->
    cpu_move r hist floor replicas blockDecrease minHot r' [e].

Lemma adjustCPU_move namespace appName r hist avgCPU profile replicas blockDecrease minHot now :
  sizable (MilliValue (request_at r ResourceCPU)) -> sizable (cpu_floor profile) ->
  let '(r', entries) := adjustCPU namespace appName r hist avgCPU profile replicas blockDecrease minHot now in
  cpu_move r hist (cpu_floor profile) replicas blockDecrease minHot r' entries.
Proof.
  intros Hs Hf. unfold adjustCPU, request_at, at_name in *. destruct (get (Requests r) ResourceCPU) as [cpuReq|] eqn:Hr; [|constructor].
  cbn [default] in Hs. unfold id in Hs. fold (cpu_floor profile). set (b := MilliValue cpuReq) in *. unfold sizable in *.
  destruct (Z.leb_spec b 0) as [|Hpos]; [constructor|].
  destruct (_ && _ && consistentHighCPU _ _) eqn:Hhot.
  - rewrite !andb_true_iff in Hhot. destruct Hhot as [[_ Hn%Z.leb_le] Hh%forallb_negb].
    rewrite scale_up_exact by lia. set (q := roundCPU _).
    eapply (cpu_up r hist _ _ _ _ cpuReq); [done|done|exact Hh| | | |reflexivity].
    + unfold request_at, at_name. rewrite requests_limit_at_least, get_set_request. cbn [default]. unfold id, q.
      apply MilliValue_roundCPU. pose proof (ceil_div_spec (3 * b) 2 ltac:(lia)). fold b. lia.
    + unfold request_at, limit_at, at_name. rewrite requests_limit_at_least, get_set_request.
      destruct (get_limit_at_least (set_request r ResourceCPU q) ResourceCPU q) as (l & -> & Hle & _). done.
    + split.
      * rewrite requests_limit_at_least. by apply get_set_request_ne.
      * by rewrite get_limit_at_least_ne.
  - clear Hhot. destruct (_ && negb blockDecrease) eqn:Hcold; [|constructor].
    rewrite !andb_true_iff in Hcold. destruct Hcold as [[[[_ Hn%Z.leb_le] Hc%forallb_negb] Hrep%Z.leb_le] Hblock%negb_true_iff].
    rewrite scale_down_exact by lia.
    assert (Hmax : (if (ceil_div b 2 <? cpu_floor profile)%Z then cpu_floor profile else ceil_div b 2) = Z.max (ceil_div b 2) (cpu_floor profile)).
    { destruct (Z.ltb_spec (ceil_div b 2) (cpu_floor profile)); lia. }
    fold (cpu_floor profile). rewrite Hmax. set (q := roundCPU _). pose proof (ceil_div_spec b 2 ltac:(lia)).
    assert (Hq : MilliValue q = up50m (Z.max (ceil_div b 2) (cpu_floor profile))) by (apply MilliValue_roundCPU; lia).
    destruct (Z.ltb_spec (MilliValue q) b) as [Hlt|]; [|constructor].
    eapply (cpu_down r hist _ _ _ _ cpuReq); [done|done|exact Hc|done|done| | | | |reflexivity];
      unfold request_at, limit_at, at_name; change (Requests (set_limit ?a ?b ?c)) with (Requests a);
      rewrite ?get_set_request, ?get_set_limit; cbn [default]; unfold id; try done.
    + match goal with |- context [below q ?m] => destruct (below q m) eqn:Hb; rewrite below_spec in Hb end; [|lia].
      apply Z.ltb_lt in Hb. lia.
    + split; [by apply get_set_request_ne|]. by rewrite get_set_limit_ne.
Qed.

(** What saturation does: the CPU limit alone goes up by half, unless there was
    no request to keep. *)
Lemma maybeBumpForSaturation_spec rc namespace appName c podEntries sustainFor now :
  sizable (MilliValue (limit_at (cResources c) ResourceCPU)) ->
  let '(rc', c', bump) := maybeBumpForSaturation rc namespace appName c podEntries sustainFor now in
  (rc' = set_pinned rc (cpuPinned rc') /\ cName c' = cName c) /\
  match bump with
  | None => c' = c
  | Some e =>
      Action e = "increased CPU (saturated)" /\ same_resource (cResources c) (cResources c') ResourceMemory /\
      MilliValue (limit_at (cResources c') ResourceCPU) = up50m (ceil_div (3 * MilliValue (limit_at (cResources c) ResourceCPU)) 2) /\
      (MilliValue (request_at (cResources c) ResourceCPU) <> 0 -> request_at (cResources c') ResourceCPU = request_at (cResources c) ResourceCPU)
  end.
Proof.
  intros Hs. unfold maybeBumpForSaturation, limit_at, at_name in *.
  assert (Hrc : forall p, set_pinned rc p = set_pinned rc (cpuPinned (set_pinned rc p))) by done.
  destruct (get (Limits (cResources c)) ResourceCPU) as [lim|] eqn:Hl; [|by destruct rc].
  cbn [default] in Hs. unfold id, sizable in Hs.
  destruct (Z.eqb_spec (MilliValue lim) 0) as [|Hne]; [by destruct rc|].
  destruct (_ || flt _ _); [done|]. destruct (negb _); [done|]. destruct (recentlyChanged _ _ _ _); [done|].
  destruct (Z.leb_spec (MilliValue (roundCPU (to_int64 (Ceil (fmul (of_int64 (MilliValue lim)) three_halves))))) (MilliValue lim)) as [|Hlt]; [done|].
  rewrite scale_up_exact in * by lia. set (q := roundCPU _) in *. cbn [cResources cName Action cpuPinned].
  assert (Hq : MilliValue q = up50m (ceil_div (3 * MilliValue lim) 2)).
  { apply MilliValue_roundCPU. pose proof (ceil_div_spec (3 * MilliValue lim) 2 ltac:(lia)). lia. }
  set (r := mkRequirements (Some (default ∅ (Requests (set_limit (cResources c) ResourceCPU q)))) (Limits (set_limit (cResources c) ResourceCPU q))).
  assert (Hreq : forall n, get (Requests r) n = get (Requests (cResources c)) n)
    by (intros n; unfold r, get; cbn; by destruct (Requests (cResources c))).
  assert (Hlim : get (Limits r) ResourceCPU = Some q) by apply get_set_limit.
  assert (Hlim2 : get (Limits r) ResourceMemory = get (Limits (cResources c)) ResourceMemory) by (by apply get_set_limit_ne).
  split; [done|]. split; [done|]. unfold request_at, at_name. rewrite <- (Hreq ResourceCPU).
  destruct (get (Requests r) ResourceCPU) as [rq|] eqn:Hrq; [destruct (Z.eqb_spec (MilliValue rq) 0) as [Hz|Hz]|];
    change (Limits (set_request ?a ?b ?d)) with (Limits a); rewrite Hlim; cbn [default]; unfold id;
    (split; [split; rewrite ?get_set_request_ne by done; by rewrite ?Hreq, ?Hlim2|]); (split; [done|]); intros Hnz.
  - done.
  - by rewrite Hrq.
  - exfalso. apply Hnz. rewrite MilliValue_zero. done.
Qed.

(** ** The raise after an OOM kill. *)

Definition oom_answer rc base : Z := up64Mi (Z.min (2 * base) (oomCap rc)).

Lemma oom_size_rounded rc base :
  sizable base -> sizable (oomCap rc) ->
  oom_size (Q := Q) rc base = roundMemory (Z.min (2 * base) (oomCap rc)) /\ 0 <= Z.min (2 * base) (oomCap rc) <= 2 ^ 52.
Proof.
  intros Hb Hc. unfold sizable in *. unfold oom_size.
  rewrite wrap64_id by (unfold int64_range, int64_min, int64_max; lia).
  split; [f_equal|]; destruct (Z.ltb_spec (oomCap rc) (base * 2)); lia.
Qed.

Lemma QValue_oom_size rc base :
  sizable base -> sizable (oomCap rc) -> QValue (Q := Q) (oom_size rc base) = oom_answer rc base.
Proof. intros Hb Hc. destruct (oom_size_rounded rc base Hb Hc) as [-> ?]. by apply QValue_roundMemory. Qed.

Lemma amount_oom_size rc base :
  sizable base -> sizable (oomCap rc) -> amount (Q := Q) (oom_size rc base) = oom_answer rc base * (1000 * milli_unit (Q := Q)).
Proof. intros Hb Hc. destruct (oom_size_rounded rc base Hb Hc) as [-> ?]. by apply amount_roundMemory. Qed.

(** The size doubled: the larger of request and limit, 128Mi if neither is set. *)
Definition size_before r : Z :=
  let m := Z.max (QValue (request_at r ResourceMemory)) (QValue (limit_at r ResourceMemory)) in
  if (m =? 0)%Z then 128 * 1024 * 1024 else m.

Lemma oom_base_size r : oom_base (with_maps r) = size_before r.
Proof.
  unfold oom_base, size_before, request_at, limit_at, at_name.
  destruct (get_with_maps r ResourceMemory) as [-> ->].
  set (a := QValue _). set (b := QValue _). destruct (Z.ltb_spec a b); [rewrite Z.max_r by lia|rewrite Z.max_l by lia]; done.
Qed.

Lemma size_before_sizable r :
  sizable (QValue (request_at r ResourceMemory)) -> sizable (QValue (limit_at r ResourceMemory)) -> 0 < size_before r <= 2 ^ 50.
Proof. unfold sizable, size_before. intros H1 H2. destruct (Z.eqb_spec (Z.max (QValue (request_at r ResourceMemory)) (QValue (limit_at r ResourceMemory))) 0); lia. Qed.

(** What the raise leaves: both sides of memory at the answer when that is more,
    everything as it was when it is not; CPU as it was. *)
Definition memory_raised rc r r' : Prop :=
  same_resource r r' ResourceCPU /\
  (oom_answer rc (size_before r) <= size_before r -> same_resource r r' ResourceMemory) /\
  (size_before r < oom_answer rc (size_before r) ->
     limit_at r' ResourceMemory = request_at r' ResourceMemory /\
     QValue (request_at r' ResourceMemory) = oom_answer rc (size_before r) /\
     amount (request_at r' ResourceMemory) = oom_answer rc (size_before r) * (1000 * milli_unit (Q := Q))).

Lemma raise_after_oom_spec rc namespace appName c now :
  sizable (QValue (request_at (cResources c) ResourceMemory)) -> sizable (QValue (limit_at (cResources c) ResourceMemory)) ->
  sizable (oomCap rc) ->
  let '(c', e) := raise_after_oom rc namespace appName c now in
  cName c' = cName c /\ memory_raised rc (cResources c) (cResources c') /\
  Action e = (if (oom_answer rc (size_before (cResources c)) <=? size_before (cResources c))%Z
              then "OOMKilled at memory cap" else "doubled memory (OOMKilled)").
Proof.
  intros Hr Hl Hc. unfold raise_after_oom. rewrite oom_base_size.
  pose proof (size_before_sizable _ Hr Hl) as Hs. rewrite QValue_oom_size by (unfold sizable in *; lia || done).
  unfold memory_raised. destruct (Z.leb_spec (oom_answer rc (size_before (cResources c))) (size_before (cResources c))) as [Hle|Hlt].
  - cbn [cName cResources Action]. split; [done|]. split; [|done]. split_and!; [apply get_with_maps|intros _; apply get_with_maps|lia].
  - set (q := oom_size rc (size_before (cResources c))). cbn [cName cResources Action]. split; [done|]. split; [|done]. split_and!; [|lia|intros _].
    + eapply same_resource_trans; [apply same_resource_maps|]. split.
      * change (Requests (set_limit ?a ?b ?d)) with (Requests a). by apply get_set_request_ne.
      * by rewrite get_set_limit_ne.
    + unfold request_at, limit_at, at_name. rewrite get_set_limit. change (Requests (set_limit ?a ?b ?d)) with (Requests a).
      rewrite get_set_request. split; [done|]. cbn [default]. unfold id, q.
      split; [apply QValue_oom_size|apply amount_oom_size]; (unfold sizable in *; lia) || done.
Qed.

(** ** The evaluation. *)

Definition memory_justified r r' (hist : list usageObservation) (floor replicas : Z) (blockDecrease : bool) (minHot : Z) : Prop :=
  same_resource r r' ResourceMemory \/
  (exists q, get (Requests r) ResourceMemory = Some q /\
     minHot <= Z.of_nat (length hist) /\ all_hot obsMemoryBytes hist (QValue q) /\
     QValue (request_at r' ResourceMemory) = up64Mi (ceil_div (3 * QValue q) 2) /\
     amount (request_at r' ResourceMemory) <= amount (limit_at r' ResourceMemory)) \/
  (exists q, get (Requests r) ResourceMemory = Some q /\
     3 <= Z.of_nat (length hist) /\ all_cold obsMemoryBytes hist (QValue q) /\ 2 <= replicas /\ blockDecrease = false /\
     QValue (request_at r' ResourceMemory) = up64Mi (Z.max (ceil_div (QValue q) 2) floor) /\
     QValue (request_at r' ResourceMemory) < QValue q /\
     limit_at r' ResourceMemory = request_at r' ResourceMemory).

Definition cpu_justified r r' (hist : list usageObservation) (floor replicas : Z) (blockDecrease : bool) (minHot : Z)
    (cpuLimitMovable : bool) : Prop :=
  same_resource r r' ResourceCPU \/
  (cpuLimitMovable = true /\
     MilliValue (limit_at r' ResourceCPU) = up50m (ceil_div (3 * MilliValue (limit_at r ResourceCPU)) 2) /\
     (MilliValue (request_at r ResourceCPU) <> 0 -> request_at r' ResourceCPU = request_at r ResourceCPU)) \/
  (exists q, get (Requests r) ResourceCPU = Some q /\
     minHot <= Z.of_nat (length hist) /\ all_hot obsCPUMillis hist (MilliValue q) /\
     MilliValue (request_at r' ResourceCPU) = up50m (ceil_div (3 * MilliValue q) 2) /\
     amount (request_at r' ResourceCPU) <= amount (limit_at r' ResourceCPU)) \/
  (exists q, get (Requests r) ResourceCPU = Some q /\
     3 <= Z.of_nat (length hist) /\ all_cold obsCPUMillis hist (MilliValue q) /\ 2 <= replicas /\ blockDecrease = false /\
     MilliValue (request_at r' ResourceCPU) = up50m (Z.max (ceil_div (MilliValue q) 2) floor) /\
     MilliValue (request_at r' ResourceCPU) < MilliValue q /\
     amount (request_at r' ResourceCPU) <= amount (limit_at r' ResourceCPU)).

Lemma request_at_same r r' name : same_resource r r' name -> request_at r' name = request_at r name /\ limit_at r' name = limit_at r name.
Proof. unfold same_resource, request_at, limit_at, at_name. by intros [-> ->]. Qed.

(** The two adjustments, one after the other over made maps. *)
Lemma moves_justified r r1 r2 hist fm fc replicas blockDecrease minHot movable em ec :
  memory_move (with_maps r) hist fm replicas blockDecrease minHot r1 em ->
  cpu_move r1 hist fc replicas blockDecrease minHot r2 ec ->
  memory_justified r r2 hist fm replicas blockDecrease minHot /\
  cpu_justified r r2 hist fc replicas blockDecrease minHot movable.
Proof.
  intros Hm Hc.
  assert (Hmem : same_resource r1 r2 ResourceMemory) by (by destruct Hc).
  assert (Hcpu : same_resource r r1 ResourceCPU).
  { eapply same_resource_trans; [apply same_resource_maps|]. by destruct Hm. }
  destruct (request_at_same _ _ _ Hmem) as [Hq1 Hq2]. split.
  - unfold memory_justified. rewrite Hq1, Hq2. destruct Hm as [|q r' e Hg|q r' e Hg].
    + left. eapply same_resource_trans; [apply same_resource_maps|done].
    + right. left. exists q. destruct (get_with_maps r ResourceMemory) as [Hw _]. by rewrite <- Hw.
    + right. right. exists q. destruct (get_with_maps r ResourceMemory) as [Hw _]. by rewrite <- Hw.
  - unfold cpu_justified. destruct Hc as [|q r' e Hg|q r' e Hg].
    + by left.
    + right. right. left. exists q. destruct Hcpu as [Hw _]. by rewrite <- Hw.
    + right. right. right. exists q. destruct Hcpu as [Hw _]. by rewrite <- Hw.
Qed.

Lemma length_last3 {A : Type} (l : list A) : (length (last3 l) <= 3)%nat.
Proof. unfold last3. rewrite length_drop. lia. Qed.

(** The sizes the theorem speaks of. *)
Record sizable_inputs (rc : ResourceController) r (profile : string) : Prop := {
  si_request : sizable (QValue (request_at r ResourceMemory));
  si_limit : sizable (QValue (limit_at r ResourceMemory));
  si_cpu : sizable (MilliValue (request_at r ResourceCPU));
  si_cpu_limit : sizable (MilliValue (limit_at r ResourceCPU));
  si_cap : sizable (oomCap rc);
  si_floor : sizable (memory_floor profile);
  si_cpu_floor : sizable (cpu_floor profile)
}.

(** Every proposal of the auto-sizer is justified, and has the stated size.
    An OOM kill that is new and less than 30 minutes old is answered before
    anything else: memory becomes twice its size, at most the cap, rounded up to
    64Mi, or stays if that is no more. Otherwise memory moves only up by half,
    when every recent observation is above 80%, or down to a half, never below
    the profile's floor, when three observations in a row are below 20%, there
    are two replicas and decreases are not blocked; CPU moves by the same rules,
    or by the saturation shortcut, which keeps the request. *)
Theorem evaluation_justified (rc : ResourceController) (namespace appName : string) c (pods : list podMetricsEntry)
    (profile : string) (replicas : Z) (blockDecrease : bool) (sustain : Duration) (movable : bool) (now : Time)
    (Hset : no_resources (cResources c) = false)
    (Hsizes : sizable_inputs rc (cResources c) profile) :
  let '(rc', c', entries, mark) :=
    evaluate rc namespace appName c pods profile replicas blockDecrease sustain movable now in
  let hist := default [] (history rc' !! (namespace, appName)) in
  let minHot := if (0 <? sustain)%Z then 2 else 1 in
  match mark with
  | Some m =>
      mark_at m = newestOOM pods /\ mark_key m = slash (slash namespace appName) (cName c) /\
      handled_at (oomHandledAt rc) (mark_key m) < mark_at m /\ Sub now (mark_at m) < 30 * Minute /\
      memory_raised rc (cResources c) (cResources c')
  | None =>
      (isNewOOM rc (slash (slash namespace appName) (cName c)) (newestOOM pods) = false \/ 30 * Minute <= Sub now (newestOOM pods)) /\
      memory_justified (cResources c) (cResources c') hist (memory_floor profile) replicas blockDecrease minHot /\
      cpu_justified (cResources c) (cResources c') hist (cpu_floor profile) replicas blockDecrease minHot movable
  end.
Proof.
  destruct Hsizes as [Hr Hl Hcpu Hcl Hcap Hfm Hfc]. unfold evaluate. rewrite Hset.
  set (key := slash (slash namespace appName) (cName c)).
  destruct (isNewOOM rc key (newestOOM pods) && (Sub now (newestOOM pods) <? oomActionableWindow)%Z) eqn:Hoom.
  - apply andb_true_iff in Hoom as [Hnew Hfresh%Z.ltb_lt].
    pose proof (raise_after_oom_spec rc namespace appName c now Hr Hl Hcap) as Hraise.
    destruct (raise_after_oom rc namespace appName c now) as [c' e]. destruct Hraise as (_ & Hraise & _).
    cbn [mark_at mark_key]. split_and!; [done|done| |done|done].
    unfold isNewOOM in Hnew. apply andb_true_iff in Hnew as [_ Hnew]. unfold After in Hnew. by apply Z.ltb_lt.
  - assert (Hno : isNewOOM rc key (newestOOM pods) = false \/ 30 * Minute <= Sub now (newestOOM pods)).
    { apply andb_false_iff in Hoom as [|Hold%Z.ltb_ge]; [by left|by right]. }
    assert (Hkept : forall c' : Container (Q := Q), c' = c -> forall hist minHot,
      memory_justified (cResources c) (cResources c') hist (memory_floor profile) replicas blockDecrease minHot /\
      cpu_justified (cResources c) (cResources c') hist (cpu_floor profile) replicas blockDecrease minHot movable)
      by (intros ? -> ? ?; split; by left).
    destruct (withoutSynthetic pods) as [|p ps] eqn:Hps; [split; [done|by apply Hkept]|].
    assert (Hbump : let '(rc1, c1, bump) :=
        (if movable then maybeBumpForSaturation rc namespace appName c (p :: ps) sustain now else (rc, c, None)) in
      match bump with
      | None => c1 = c
      | Some _ => forall hist minHot,
          memory_justified (cResources c) (cResources c1) hist (memory_floor profile) replicas blockDecrease minHot /\
          cpu_justified (cResources c) (cResources c1) hist (cpu_floor profile) replicas blockDecrease minHot movable
      end).
    { destruct movable; [|done]. pose proof (maybeBumpForSaturation_spec rc namespace appName c (p :: ps) sustain now Hcl) as Hb.
      destruct (maybeBumpForSaturation _ _ _ _ _ _ _) as [[rc1 c1] [e|]]; [|by destruct Hb].
      destruct Hb as (_ & _ & Hmem & Hlim & Hreq). intros hist minHot. split; [by left|]. right. by left. }
    destruct (if movable then _ else _) as [[rc1 c1] [e|]]; [split; [done|apply Hbump]|]. subst c1.
    destruct (mature (p :: ps)) as [|m ms] eqn:Hms; [split; [done|by apply Hkept]|].
    set (rc2 := observe _ _ _ _ _). set (hist := default [] (history rc2 !! (namespace, appName))).
    set (minHot := if (0 <? sustain)%Z then 2 else 1).
    destruct (get_with_maps (cResources c) ResourceMemory) as [Hwm _]. destruct (get_with_maps (cResources c) ResourceCPU) as [Hwc _].
    pose proof (adjustMemory_move namespace appName (with_maps (cResources c)) hist (average MemoryBytes (m :: ms)) profile
      replicas blockDecrease minHot now) as Hm.
    destruct (adjustMemory _ _ _ _ _ _ _ _ _ _) as [r1 em].
    specialize (Hm ltac:(unfold request_at, at_name; by rewrite Hwm) Hfm).
    pose proof (adjustCPU_move namespace appName r1 hist (average CPUMillis (m :: ms)) profile replicas blockDecrease minHot now) as Hc.
    destruct (adjustCPU _ _ _ _ _ _ _ _ _ _) as [r2 ec].
    assert (Hcpu1 : same_resource (with_maps (cResources c)) r1 ResourceCPU) by (by destruct Hm).
    specialize (Hc ltac:(unfold request_at, at_name; rewrite (proj1 Hcpu1), Hwc; done) Hfc).
    split; [done|]. cbn [cResources]. exact (moves_justified _ _ _ _ _ _ _ _ _ movable _ _ Hm Hc).
Qed.
End Evaluation.

Lemma evaluation_justified_witness :
  let '(rc', c', entries, mark) :=
    evaluate NewResourceController "prod" "db" demo_container [full_pod] "standard" 1 false 0 true demo_now in
  Action <$> entries = ["increased memory"] /\
  memory_justified (cResources demo_container) (cResources c') (default [] (history rc' !! ("prod", "db")))
    (memory_floor (Q := Milli) "standard") 1 false 1.
Proof.
  pose proof (evaluation_justified NewResourceController "prod" "db" demo_container [full_pod] "standard" 1 false 0 true demo_now
    eq_refl ltac:(split; vm_compute; split; discriminate)) as H.
  assert (Hm : let '(_, _, entries, mark) :=
    evaluate NewResourceController "prod" "db" demo_container [full_pod] "standard" 1 false 0 true demo_now in
    Action <$> entries = ["increased memory"] /\ mark = None) by (vm_compute; by split).
  destruct (evaluate _ _ _ _ _ _ _ _ _ _ _) as [[[rc' c'] entries] mark]. destruct Hm as [He ->]. split; [exact He|apply H].
Defined.
