(* ===== verification/TuningProps.v ===== *)
(** * The auto-sizer's tuning records: theorems

    What a pass stores stays inside the user's bounds, an OOM kill is answered
    once whatever fails in between, and an answered one ends as more memory for
    the container. *)

From Stdlib Require Import Ascii.
From stdpp Require Import base tactics numbers countable list option strings gmap sorting.
From S2P Require Import Prelude GoStd Calendar Quantity Float64 Capacity Bounds BoundsProps Quota Sizing Tuning SizingDemo SizingProps.

Local Open Scope string_scope.

(** ** Records. *)

Lemma loadTuning_spec faults (api : Records) namespace owner :
  let key := (namespace, tuningName owner) in
  let '(api', loaded) := loadTuning faults api namespace owner in
  (api' = api \/ (api' = delete key api /\ exists rt, api !! key = Some rt /\ controllerUID rt = None)) /\
  match loaded with
  | None => True
  | Some (rt, true) => api' !! key = None /\ rt = mkTuning (Some (oUID owner)) no_status
  | Some (rt, false) => api' = api /\ api !! key = Some rt /\ controllerUID rt = Some (oUID owner)
  end.
Proof.
  cbv zeta. unfold loadTuning. destruct (negb (readsRecord faults)); [by split; [left|]|].
  set (key := (namespace, tuningName owner)). destruct (api !! key) as [rt|] eqn:Hk; [|by split; [left|]].
  destruct (controllerUID rt) as [uid|] eqn:Hu.
  - split; [by left|]. destruct (String.eqb_spec uid (oUID owner)) as [->|]; done.
  - destruct (deletes faults); cbn [took_effect succeeded].
    + split; [right; by eauto|]. split; [by rewrite lookup_delete_eq|done].
    + by split; [left|].
    + split; [right; by eauto|done].
Qed.

Lemma saveTuning_spec faults (api : Records) key rt isNew :
  let '(api', saved) := saveTuning faults api key rt isNew in
  (forall k, k <> key -> api' !! k = api !! k) /\
  (api' !! key = api !! key \/
   (isNew = true /\ api !! key = None /\ api' !! key = Some (mkTuning (controllerUID rt) no_status)) \/
   (isNew = true /\ api !! key = None /\ api' !! key = Some (mkTuning (controllerUID rt) (stored (rtStatus rt)))) \/
   (isNew = false /\ exists old, api !! key = Some old /\ api' !! key = Some (mkTuning (controllerUID old) (stored (rtStatus rt))))) /\
  (saved = true -> exists uid, api' !! key = Some (mkTuning uid (stored (rtStatus rt)))).
Proof.
  unfold saveTuning. destruct isNew.
  - destruct (api !! key) as [old|] eqn:Hk; [by rewrite Hk; split_and!; [|left|]|].
    destruct (creates faults); cbn [took_effect succeeded].
    + rewrite lookup_insert_eq. destruct (updates faults); cbn [took_effect succeeded controllerUID].
      all: split_and!; [intros k Hne; by rewrite ?lookup_insert_ne by done| |]; rewrite ?lookup_insert_eq; try done.
      1: right; right; by left. 1: by eauto. 1: right; by left. right; right; by left.
    + by rewrite Hk; split_and!; [|left|].
    + split_and!; [intros k Hne; by rewrite lookup_insert_ne by done| |done]. rewrite lookup_insert_eq. right; by left.
  - destruct (api !! key) as [old|] eqn:Hk; [|by rewrite Hk; split_and!; [|left|]].
    destruct (updates faults); cbn [took_effect succeeded];
      (split_and!; [intros k Hne; by rewrite ?lookup_insert_ne by done| |]); rewrite ?lookup_insert_eq, ?Hk; try done.
    1: right; right; right; by eauto. 1: by eauto. 1: by left. right; right; right; by eauto.
Qed.

(** ** Decisions. *)

Section Decisions.
Context {Q : Type} `{QuantityLaws Q}.

Implicit Types (spec : Spec (Q := Q)) (rq lm : Quantity (Q := Q)) (p : Pair (Q := Q)) (w : Workload (Q := Q)).

(** A size inside the user's bounds. *)
Definition sized_pair rq lm p : Prop :=
  match ModeOf rq lm with
  | ModeAutomatic => amount (Request p) <= amount (Limit p)
  | ModeBounded => amount (Value rq) <= amount (Request p) <= amount (Value lm) /\ amount (Limit p) = amount (Value lm)
  | _ => True
  end.

Lemma Resolve_sized rq lm rec fallback auto : sized_pair rq lm (Resolve rq lm rec fallback auto).1.
Proof.
  unfold sized_pair. destruct (ModeOf rq lm) eqn:Hm; [| |done|done].
  - by apply Resolve_automatic.
  - destruct (Resolve_bounded rq lm rec fallback auto Hm) as (-> & Hb & _). done.
Qed.

Lemma effective_sized rq lm name live proposed pending cooldown auto :
  sized_pair rq lm (effective rq lm name live proposed pending cooldown auto).1.
Proof.
  unfold effective. destruct (PairOf (Some proposed) name) as [pp|]; [|apply Resolve_sized].
  destruct (pairsEqual _ _); [apply Resolve_sized|].
  set (wanted := match cooldown with true => _ | false => _ end).
  pose proof (Resolve_sized rq lm (Some wanted) (default zero_pair (PairOf (Some live) name)) auto) as Hs.
  destruct (Resolve rq lm (Some wanted) _ auto) as [p mode]. done.
Qed.

(** A change is only reported for a resource the auto-sizer sizes. *)
Lemma effective_changed rq lm name live proposed pending cooldown auto :
  (effective rq lm name live proposed pending cooldown auto).2 = true -> sized (ModeOf rq lm) = true.
Proof.
  unfold effective. destruct (PairOf (Some proposed) name) as [pp|]; [|done]. destruct (pairsEqual _ _); [done|].
  set (wanted := match cooldown with true => _ | false => _ end).
  pose proof (Resolve_mode rq lm (Some wanted) (default zero_pair (PairOf (Some live) name)) auto) as Hm.
  destruct (Resolve rq lm (Some wanted) _ auto) as [p mode]. cbn [snd] in *. rewrite <- Hm. intros Hc. by apply andb_true_iff in Hc as [Hc _].
Qed.

Lemma changed_sized rq lm (text : string) :
  changed rq lm text = true -> sized_pair rq lm (mkPair (Value rq) (Value lm)).
Proof.
  unfold changed, sized_pair. intros [Hm%bool_decide_eq_true _]%andb_true_iff. pose proof (ModeOf_spec rq lm) as Hs.
  rewrite Hm in Hs |- *. cbn [Request Limit]. destruct Hs as (_ & _ & ?). lia.
Qed.

(** What the evaluation leaves alone, and when it marks an OOM. *)
Definition marks_new (rc : ResourceController) (oomKey : string) (pods : list podMetricsEntry) (now : Time) (mark : option pendingOOMMark) : Prop :=
  match mark with
  | Some m =>
      mark_key m = oomKey /\ mark_at m = newestOOM pods /\ mark_at m <> zero_time /\
      handled_at (oomHandledAt rc) oomKey < mark_at m /\ Sub now (mark_at m) < oomActionableWindow
  | None => True
  end.

Lemma isNewOOM_spec rc oomKey t :
  isNewOOM rc oomKey t = true <-> t <> zero_time /\ handled_at (oomHandledAt rc) oomKey < t.
Proof.
  unfold isNewOOM, GoStd.IsZero, After. rewrite andb_true_iff, negb_true_iff, Z.eqb_neq, Z.ltb_lt. done.
Qed.

Definition same_memory_of_ooms (rc rc' : ResourceController) : Prop :=
  oomHandledAt rc' = oomHandledAt rc /\ stagedAcks rc' = stagedAcks rc /\ oomCapBytes rc' = oomCapBytes rc.

Lemma maybeBump_frame rc namespace appName (c : Container (Q := Q)) pods sustain now :
  same_memory_of_ooms rc (maybeBumpForSaturation rc namespace appName c pods sustain now).1.1.
Proof.
  unfold maybeBumpForSaturation. destruct (get _ _); [|done]. destruct (MilliValue q =? 0)%Z; [done|].
  destruct (_ || _); [done|]. destruct (negb _); [done|]. destruct (recentlyChanged _ _ _ _); [done|]. by destruct (_ <=? _)%Z.
Qed.

Lemma evaluate_frame rc namespace appName (c : Container (Q := Q)) pods profile replicas blockDecrease sustain movable now :
  let '(rc', c', entries, mark) := evaluate rc namespace appName c pods profile replicas blockDecrease sustain movable now in
  same_memory_of_ooms rc rc' /\ marks_new rc (slash (slash namespace appName) (cName c)) pods now mark.
Proof.
  unfold evaluate. destruct (no_resources _); [done|]. set (key := slash (slash namespace appName) (cName c)).
  destruct (isNewOOM rc key (newestOOM pods) && (Sub now (newestOOM pods) <? oomActionableWindow)%Z) eqn:Hoom.
  - apply andb_true_iff in Hoom as [[Hz Hnew]%isNewOOM_spec Hfresh%Z.ltb_lt].
    destruct (raise_after_oom _ _ _ _ _) as [c' e]. split; [done|]. by split_and!.
  - destruct (withoutSynthetic pods) as [|p ps]; [done|].
    assert (Hf : same_memory_of_ooms rc
      (if movable then maybeBumpForSaturation rc namespace appName c (p :: ps) sustain now else (rc, c, None)).1.1)
      by (destruct movable; [apply maybeBump_frame|done]).
    destruct (if movable then _ else _) as [[rc1 c1] [e|]]; [done|]. destruct (mature (p :: ps)); [done|].
    destruct (adjustMemory _ _ _ _ _ _ _ _ _ _) as [r1 em]. destruct (adjustCPU _ _ _ _ _ _ _ _ _ _) as [r2 ec]. done.
Qed.

Lemma decide_sizes_spec rc w profile spec status pods sizing now :
  let '(rc', d) := decide_sizes rc w profile spec status pods sizing now in
  same_memory_of_ooms rc rc' /\ marks_new rc (oomKeyOf w) pods now (dMark d) /\
  sized_pair (CPURequest spec) (CPULimit spec) (cpuEff d) /\ sized_pair (MemoryRequest spec) (MemoryLimit spec) (memEff d).
Proof.
  unfold decide_sizes. set (cooldown := match DecreaseBlockedUntil status with Some _ => _ | None => _ end).
  pose proof (evaluate_frame rc (wNamespace w) (wApp w) (wLive w) pods profile (wReplicas w) (ScaledOut sizing || cooldown)
    (wSustain w) (bool_decide (ModeOf (CPURequest spec) (CPULimit spec) = ModeAutomatic) && negb (CPU (TrackedBy sizing))) now) as Hev.
  destruct (evaluate _ _ _ _ _ _ _ _ _ _ _) as [[[rc1 work] proposed] mark]. destruct Hev as [Hf Hm].
  match goal with |- context [effective (CPURequest spec) (CPULimit spec) ?a ?b ?c ?d ?e ?f] =>
    pose proof (effective_sized (CPURequest spec) (CPULimit spec) a b c d e f) as Hc;
    destruct (effective (CPURequest spec) (CPULimit spec) a b c d e f) as [ce cc] end.
  match goal with |- context [effective (MemoryRequest spec) (MemoryLimit spec) ?a ?b ?c ?d ?e ?f] =>
    pose proof (effective_sized (MemoryRequest spec) (MemoryLimit spec) a b c d e f) as Hmem;
    destruct (effective (MemoryRequest spec) (MemoryLimit spec) a b c d e f) as [me mc] end.
  cbn [fst] in Hc, Hmem. unfold PendingRequests, changedRequests.
  destruct (RecommendedUnder status) as [u|]; cbn [andb].
  - destruct (changed (CPURequest spec) (CPULimit spec) (tCPURequest u)) eqn:H1,
      (changed (MemoryRequest spec) (MemoryLimit spec) (tMemoryRequest u)) eqn:H2; cbn [andb];
      try apply changed_sized in H1; try apply changed_sized in H2;
      repeat match goal with |- context [negb ?b] => destruct (negb b) end; cbn [dMark cpuEff memEff]; by split_and!.
  - cbn [dMark cpuEff memEff]. by split_and!.
Qed.
End Decisions.

(** ** One pass. *)

Lemma timesEqual_refl a : timesEqual a a = true.
Proof. destruct a; [apply Z.eqb_refl|done]. Qed.

Lemma tuned_eqb_refl a : tuned_eqb a a = true.
Proof. unfold tuned_eqb. by rewrite !String.eqb_refl. Qed.

Lemma statusEqual_refl s : statusEqual s s = true.
Proof.
  unfold statusEqual. rewrite tuned_eqb_refl, String.eqb_refl, timesEqual_refl.
  destruct (RecommendedUnder s), (LastOOM s); by rewrite ?tuned_eqb_refl, ?String.eqb_refl.
Qed.

Section Passes.
Context {Q : Type} `{QuantityLaws Q}.
Variable Unmarshal : string -> option (list (string * json)).
Variable signature : ResourceRequirements (Q := Q) -> string.
Variable FormatNano : Time -> string.
Variable ParseNano : string -> option Time.

Implicit Types (spec : Spec (Q := Q)) (w : Workload (Q := Q)) (i : Inputs (Q := Q)).

Lemma applyQuotaCeiling_frame rc quota namespace appName target before replicas surge podSpec entries now :
  let '(rc', kept, blocked) := applyQuotaCeiling (Q := Q) rc quota namespace appName target before replicas surge podSpec entries now in
  same_memory_of_ooms rc rc'.
Proof.
  unfold applyQuotaCeiling. destruct entries; [done|]. destruct (negb _); [done|]. destruct quota as [qt|[]]; [|done|done].
  destruct (Fits _ _ _ _ _ _) as [[[dimn proj] hard] fits]. destruct fits; [done|]. by destruct (suppressed _ _ _ _).
Qed.

(** What the end of a pass does to the record and to the OOMs remembered. *)
Lemma settle_spec rc (api : Records) w i faults owner spec rt (isNew : bool) alert (d : Decision (Q := Q)) :
  let key := (wNamespace w, tuningName owner) in
  controllerUID rt = Some (oUID owner) ->
  (if isNew then api !! key = None /\ rtStatus rt = no_status else api !! key = Some rt) ->
  let next := next_status FormatNano spec (rtStatus rt) (iSizing i) (wLive w) d (iNow i) in
  let '(rc', api', entries) := settle FormatNano rc api w i faults owner spec rt isNew alert d in
  (forall k, k <> key -> api' !! k = api !! k) /\
  (api' !! key = api !! key \/
   (isNew = true /\ api' !! key = Some (mkTuning (Some (oUID owner)) no_status)) \/
   api' !! key = Some (mkTuning (Some (oUID owner)) (stored next))) /\
  stagedAcks rc' = stagedAcks rc /\
  (oomHandledAt rc' = oomHandledAt rc \/
   (exists m, dMark d = Some m /\ oomHandledAt rc' = <[mark_key m := mark_at m]> (oomHandledAt rc) /\
      (api' !! key = Some (mkTuning (Some (oUID owner)) (stored next)) \/
       (isNew = false /\ statusEqual (rtStatus rt) next = true)))).
Proof.
  cbv zeta. set (key := (wNamespace w, tuningName owner)). intros Huid Hload. unfold settle.
  pose proof (applyQuotaCeiling_frame rc (iQuota i) (wNamespace w) (wApp w) (targetOf (cResources (wLive w)) d) (cResources (wLive w))
    (wReplicas w) (wSurge w) (WithContainerResources (wPodSpec w) (targetOf (cResources (wLive w)) d)) (dEntries d) (iNow i)) as Hf.
  destruct (applyQuotaCeiling _ _ _ _ _ _ _ _ _ _ _) as [[rc1 kept] blocked]. destruct Hf as (Hh & Hs & _).
  set (next := next_status _ _ _ _ _ _ _). fold key.
  set (written := if blocked then rtStatus rt else next).
  assert (Hsave : let '(api', saved) := (if isNew || negb (statusEqual (rtStatus rt) written)
      then saveTuning faults api key (mkTuning (controllerUID rt) written) isNew else (api, true)) in
    (forall k, k <> key -> api' !! k = api !! k) /\
    (api' !! key = api !! key \/
     (isNew = true /\ api' !! key = Some (mkTuning (Some (oUID owner)) no_status)) \/
     (blocked = false /\ api' !! key = Some (mkTuning (Some (oUID owner)) (stored next)))) /\
    (saved = true -> blocked = false ->
       api' !! key = Some (mkTuning (Some (oUID owner)) (stored next)) \/ (isNew = false /\ statusEqual (rtStatus rt) next = true))).
  { destruct (isNew || _) eqn:Hw.
    - pose proof (saveTuning_spec faults api key (mkTuning (controllerUID rt) written) isNew) as Hsave.
      destruct (saveTuning _ _ _ _ _) as [api' saved]. cbn [controllerUID rtStatus] in Hsave. rewrite Huid in Hsave.
      destruct Hsave as (Hother & Hkey & Hsaved). split; [done|].
      assert (Hblock : blocked = true -> isNew = true /\ written = no_status).
      { intros ->. unfold written in *. rewrite statusEqual_refl in Hw. rewrite orb_false_r in Hw. rewrite Hw in Hload. split; [done|]. apply Hload. }
      assert (Hfree : blocked = false -> written = next) by (intros ->; done).
      split.
      + destruct Hkey as [Hk|[(Hn & _ & Hk)|[(Hn & _ & Hk)|(Hn & old & Ho & Hk)]]]; [by left|right; by left| |].
        * destruct blocked; [destruct Hblock as [_ Hwr]; [done|]; rewrite Hwr in Hk; right; by left|].
          rewrite Hfree in Hk by done. right; by right.
        * destruct blocked; [destruct Hblock as [Hb _]; [done|]; congruence|]. rewrite Hn in Hload. rewrite Hload in Ho. injection Ho as <-.
          rewrite Hfree, Huid in Hk by done. right; by right.
      + intros Hok Hb. left. destruct (Hsaved Hok) as [uid Hk]. rewrite Hfree in * by done.
        destruct Hkey as [Hk'|[(_ & _ & Hk')|[(_ & _ & Hk')|(Hn & old & Ho & Hk')]]].
        * rewrite Hk in Hk'. destruct isNew; [destruct Hload as [Hl _]; congruence|]. rewrite Hload in Hk'. injection Hk' as Hk'.
          rewrite Hk. rewrite <- Hk' in Huid. by cbn in Huid; rewrite Huid.
        * rewrite Hk in Hk'. by injection Hk' as ->.
        * done.
        * rewrite Hn in Hload. rewrite Hload in Ho. injection Ho as <-. by rewrite Huid in Hk'.
    - apply orb_false_iff in Hw as [Hn Hw%negb_false_iff]. split; [done|]. split; [by left|]. intros _ Hb. right.
      split; [done|]. unfold written in Hw. by rewrite Hb in Hw. }
  destruct (if isNew || _ then _ else _) as [api' saved]. destruct Hsave as (Hother & Hkey & Hsaved).
  assert (Hkey' : api' !! key = api !! key \/ (isNew = true /\ api' !! key = Some (mkTuning (Some (oUID owner)) no_status)) \/
    api' !! key = Some (mkTuning (Some (oUID owner)) (stored next))) by tauto.
  destruct saved; cbn [negb].
  - destruct blocked; cbn [commitOOMMark].
    + assert (Hsame : forall rc0, match kept with [] => rc1 | _ => rc1 end = rc0 -> rc0 = rc1) by (intros ? <-; by destruct kept).
      rewrite (Hsame _ eq_refl). split_and!; [done|done|done|by left].
    + assert (Hrec : let rc2 := match kept with [] => commitOOMMark rc1 (dMark d) | _ => recordChange (commitOOMMark rc1 (dMark d)) (wNamespace w) (wApp w) (iNow i) end in
        oomHandledAt rc2 = oomHandledAt (commitOOMMark rc1 (dMark d)) /\ stagedAcks rc2 = stagedAcks rc1) by (destruct kept, (dMark d); done).
      destruct Hrec as [Hr1 Hr2]. split_and!; [done|done|by rewrite Hr2|]. rewrite Hr1. destruct (dMark d) as [m|]; cbn [commitOOMMark]; [|by left; rewrite Hh].
      right. exists m. split_and!; [done|cbn; by rewrite Hh|by apply Hsaved].
  - unfold workloadUpdateFailed. destruct (suppressed _ _ _ _); (split_and!; [done|done|done|by left]).
Qed.

(** ** Bounds. *)

(** A recommendation of one resource: none, or two readable quantities that
    respect the user's values. *)
Definition recommended_within (rq lm : Quantity (Q := Q)) (texts : string * string) : Prop :=
  texts = ("", "") \/
  exists q l, ParseQuantity texts.1 = Some q /\ ParseQuantity texts.2 = Some l /\ sized (ModeOf rq lm) = true /\
    sized_pair rq lm (mkPair q l).

Lemma sized_pair_texts rq lm (p : Pair (Q := Q)) :
  sized_pair rq lm p ->
  recommended_within rq lm (if sized (ModeOf rq lm) then QString (Request p) else "", if sized (ModeOf rq lm) then QString (Limit p) else "").
Proof.
  intros Hp. destruct (sized (ModeOf rq lm)) eqn:Hs; [|by left]. right.
  destruct (Parse_String (Request p)) as (q & Hq & Hqa & _). destruct (Parse_String (Limit p)) as (l & Hl & Hla & _).
  exists q, l. split_and!; [done|done|done|]. unfold sized_pair in *. cbn [Request Limit]. by rewrite Hqa, Hla.
Qed.

Lemma recommended_none rq lm : recommended_within rq lm ("", "").
Proof. by left. Qed.

(** The texts of a record obey the user's values and the autoscaler's. *)
Definition record_within spec (tracked : Tracked) (status : ResourceTuningStatus) : Prop :=
  let rec := Recommendation_ status in
  recommended_within (CPURequest spec) (CPULimit spec) (tuned_of CPUDimension rec) /\
  recommended_within (MemoryRequest spec) (MemoryLimit spec) (tuned_of MemoryDimension rec) /\
  (CPU tracked = true -> tuned_of CPUDimension rec = ("", "")) /\
  (Memory tracked = true -> MemoryCause status <> MemoryCauseOOMKill -> tuned_of MemoryDimension rec = ("", "")).

Lemma next_status_within spec status sizing (live : Container (Q := Q)) d now :
  sized_pair (CPURequest spec) (CPULimit spec) (cpuEff d) -> sized_pair (MemoryRequest spec) (MemoryLimit spec) (memEff d) ->
  record_within spec (TrackedBy sizing) (stored (next_status FormatNano spec status sizing live d now)).
Proof.
  intros Hc%sized_pair_texts Hm%sized_pair_texts. unfold record_within. cbv zeta.
  unfold next_status, stored. cbn [Recommendation_ MemoryCause]. set (cause := if _ && memChanged d then _ else _). clearbody cause.
  unfold Recommendation. cbn [Recommendation_ MemoryCause tuned_of tCPURequest tCPULimit tMemoryRequest tMemoryLimit].
  destruct (CPU (TrackedBy sizing)), (Memory (TrackedBy sizing)); cbn [andb negb];
    try (destruct (String.eqb_spec cause MemoryCauseOOMKill) as [Hcause|Hcause]; cbn [negb]);
    split_and!; try done; try apply recommended_none.
Qed.

(** What a pass decided before its end. *)
Lemma decide_pass_spec rc (api : Records) w i faults owner spec :
  let key := (wNamespace w, tuningName owner) in
  let '(api1, decided) := decide_pass signature FormatNano ParseNano rc api w i faults owner spec in
  (api1 = api \/ (api1 = delete key api /\ exists rt, api !! key = Some rt /\ controllerUID rt = None)) /\
  match decided with
  | None => True
  | Some (rc1, rt, isNew, alert, d) =>
      controllerUID rt = Some (oUID owner) /\
      (if isNew then api1 !! key = None /\ rtStatus rt = no_status else api1 = api /\ api !! key = Some rt) /\
      sized_pair (CPURequest spec) (CPULimit spec) (cpuEff d) /\ sized_pair (MemoryRequest spec) (MemoryLimit spec) (memEff d)
  end.
Proof.
  cbv zeta. unfold decide_pass. pose proof (loadTuning_spec faults api (wNamespace w) owner) as Hl. cbv zeta in Hl.
  destruct (loadTuning _ _ _ _) as [api1 [[rt isNew]|]]; [|done]. destruct Hl as [Ha Hl]. 
  destruct (prepare _ _ _ _ _ _ _ _ _) as [[rc0 alert] pods].
  pose proof (decide_sizes_spec rc0 w (profile_of (wLabels w) owner) spec (rtStatus rt) pods (iSizing i) (iNow i)) as Hd.
  destruct (decide_sizes _ _ _ _ _ _ _ _) as [rc1 d]. destruct Hd as (_ & _ & Hc & Hm). split; [done|].
  destruct isNew; [destruct Hl as [Hn ->]|destruct Hl as (-> & Hk & Hu)]; by split_and!.
Qed.

(** C19: what the auto-sizer stores stays inside the user's bounds. Whatever the
    pods report, the previous record says and the API server refuses or loses: a
    pass leaves every record but its owner's as it was; and what it writes there is an empty
    status or a recommendation that, for each resource, is none, or a readable
    pair that lies between a user's request and limit with the user's limit, or
    an automatic pair whose request does not exceed its limit; a resource the
    user fixed or somebody else holds has none, and neither has one an autoscaler
    tracks, but for memory raised after an OOM kill. *)
Theorem recommendation_within_bounds rc (api : Records) w i faults owner spec
    (Howner : ownerOf (wOwner w) = Some owner) (Hspec : ownerSpec Unmarshal (iOwner i) = Some spec) :
  let api' := (tuneWorkload Unmarshal signature FormatNano ParseNano rc api w i faults).1.2 in
  (forall k, k <> (wNamespace w, tuningName owner) -> api' !! k = api !! k) /\
  forall k rt', api' !! k = Some rt' ->
    api !! k = Some rt' \/
    (k = (wNamespace w, tuningName owner) /\ controllerUID rt' = Some (oUID owner) /\
     (rtStatus rt' = no_status \/ record_within spec (TrackedBy (iSizing i)) (rtStatus rt'))).
Proof.
  cbv zeta. unfold tuneWorkload. rewrite Howner, Hspec.
  pose proof (decide_pass_spec rc api w i faults owner spec) as Hdec. cbv zeta in Hdec.
  destruct (decide_pass _ _ _ _ _ _ _ _ _ _) as [api1 [[[[[rc1 rt] isNew] alert] d]|]]; destruct Hdec as [Ha Hdec]; cbn [fst snd].
  - destruct Hdec as (Hu & Hl & Hc & Hm).
    pose proof (settle_spec rc1 api1 w i faults owner spec rt isNew alert d Hu) as Hs. cbv zeta in Hs.
    destruct (settle _ _ _ _ _ _ _ _ _ _ _ _) as [[rc' api'] entries]. cbn [fst snd].
    destruct Hs as (Hother & Hkey & _); [destruct isNew; [done|by destruct Hl as [-> ?]]|].
    assert (Hframe : forall k, k <> (wNamespace w, tuningName owner) -> api' !! k = api !! k).
    { intros k Hne. rewrite Hother by done. destruct Ha as [->|[-> _]]; [done|]. by rewrite lookup_delete_ne by done. }
    split; [exact Hframe|].
    intros k rt' Hk. destruct (decide (k = (wNamespace w, tuningName owner))) as [->|Hne].
    + destruct Hkey as [Hkey|[[_ Hkey]|Hkey]]; rewrite Hk in Hkey.
      * left. symmetry in Hkey. destruct Ha as [->|[-> _]]; [done|]. by rewrite lookup_delete_eq in Hkey.
      * injection Hkey as ->. right. split_and!; [done|done|by left].
      * injection Hkey as ->. right. split_and!; [done|done|right]. by apply next_status_within.
    + left. by rewrite Hframe in Hk by done.
  - split; [intros k Hne; destruct Ha as [->|[-> _]]; [done|by rewrite lookup_delete_ne by done]|].
    intros k rt' Hk. left. destruct Ha as [->|[-> _]]; [done|]. by apply lookup_delete_Some in Hk as [_ ?].
Qed.
End Passes.

Lemma recommendation_within_bounds_witness :
  exists rt', (demo_tuned NewResourceController ∅ no_faults).1.2 !! ("prod", "service-db") = Some rt' /\
    controllerUID rt' = Some "u1" /\ (rtStatus rt' = no_status \/ record_within demo_spec (mkTracked false false) (rtStatus rt')).
Proof.
  pose proof (recommendation_within_bounds demo_unmarshal demo_signature demo_format demo_parse NewResourceController ∅ demo_workload
    (demo_inputs [killed_pod] demo_now) no_faults demo_owner demo_spec eq_refl eq_refl) as H. cbv zeta in H. fold (demo_tuned NewResourceController ∅ no_faults) in H.
  destruct ((demo_tuned NewResourceController ∅ no_faults).1.2 !! ("prod", "service-db")) as [rt'|] eqn:Hk.
  - exists rt'. split; [done|]. destruct (proj2 H _ _ Hk) as [Hold|(_ & Hu & Hr)]; [by rewrite lookup_empty in Hold|by split].
  - assert (Hs : bool_decide (is_Some ((demo_tuned NewResourceController ∅ no_faults).1.2 !! ("prod", "service-db"))) = true) by (vm_compute; reflexivity).
    rewrite Hk in Hs. discriminate Hs.
Defined.
