(* ===== verification/OomProps.v ===== *)
(** * OOM kills across passes, failures and restarts

    An OOM kill whose answer was saved is never answered again, and one whose
    answer was not saved is answered in the next pass. *)

From Stdlib Require Import Ascii.
From stdpp Require Import base tactics numbers countable list option strings gmap sorting.
From S2P Require Import Prelude GoStd Calendar Quantity Float64 Capacity Bounds BoundsProps Quota Sizing Tuning SizingDemo SizingProps TuningProps.
From S2P Require Scan.

Local Open Scope string_scope.

(** ** The newest OOM of some pods. *)

Lemma newestOOM_from (es : list podMetricsEntry) (t0 : Time) :
  let t := foldl (fun t pe => if After (OOMAt pe) t then OOMAt pe else t) t0 es in
  t0 <= t /\ (forall pe, pe ∈ es -> OOMAt pe <= t) /\ (t = t0 \/ exists pe, pe ∈ es /\ OOMAt pe = t).
Proof.
  revert t0. induction es as [|pe es IH]; intros t0; cbn [foldl]; [split_and!; [lia| |by left]; intros pe Hpe; inversion Hpe|].
  destruct (After (OOMAt pe) t0) eqn:Hlt; unfold After in Hlt; [apply Z.ltb_lt in Hlt|apply Z.ltb_ge in Hlt].
  - destruct (IH (OOMAt pe)) as (H1 & H2 & H3). split_and!; [lia| |].
    + intros pe' [->|Hin]%elem_of_cons; [done|by apply H2].
    + right. destruct H3 as [->|(pe' & Hin & Heq)]; [exists pe; split; [left|done]|exists pe'; split; [by right|done]].
  - destruct (IH t0) as (H1 & H2 & H3). split_and!; [done| |].
    + intros pe' [->|Hin]%elem_of_cons; [lia|by apply H2].
    + destruct H3 as [H3|(pe' & Hin & Heq)]; [by left|right; exists pe'; split; [by right|done]].
Qed.

Lemma newestOOM_none (es : list podMetricsEntry) :
  (forall pe, pe ∈ es -> OOMAt pe <= zero_time) -> newestOOM es = zero_time.
Proof.
  intros Hes. unfold newestOOM. destruct (newestOOM_from es zero_time) as (H1 & _ & [H2|(pe & Hin & Heq)]); [done|].
  specialize (Hes pe Hin). lia.
Qed.

(** Without the newest one there is none. *)
Lemma newestOOM_without (es : list podMetricsEntry) : newestOOM (withoutOOMAt es (newestOOM es)) = zero_time.
Proof.
  apply newestOOM_none. intros pe' (pe & Hpe & Hw)%list_elem_of_omap. unfold without_oom in Hw.
  destruct (newestOOM_from es zero_time) as (_ & Hmax & _). fold (newestOOM es) in Hmax. specialize (Hmax pe Hpe).
  unfold GoStd.IsZero, After in Hw. destruct (Z.eqb_spec (OOMAt pe) zero_time) as [Hz|Hnz]; cbn [negb andb] in Hw.
  - injection Hw as <-. lia.
  - rewrite (proj2 (Z.ltb_ge _ _)) in Hw by lia. cbn [negb] in Hw. destruct (Synthetic pe); [done|]. by injection Hw as <-.
Qed.

Lemma handled_at_insert (m : gmap string Time) k t : handled_at (<[k := t]> m) k = t.
Proof. unfold handled_at. by rewrite lookup_insert_eq. Qed.

Lemma handled_remember rc k t : handled_at (oomHandledAt (remember rc k t)) k = Z.max t (handled_at (oomHandledAt rc) k).
Proof.
  unfold remember, After. destruct (Z.ltb_spec (handled_at (oomHandledAt rc) k) t); [cbn; rewrite handled_at_insert|]; lia.
Qed.

Section Ooms.
Context {Q : Type} `{QuantityLaws Q}.
Variable Unmarshal : string -> option (list (string * json)).
Variable signature : ResourceRequirements (Q := Q) -> string.
(** The layout RFC 3339 with nanoseconds reads back what it wrote, and has no
    at sign. *)
Variable FormatNano : Time -> string.
Variable ParseNano : string -> option Time.
Hypothesis Parse_Format : forall t, ParseNano (FormatNano t) = Some t.
Hypothesis Format_no_at : forall t, no_byte "@"%char (FormatNano t).

Implicit Types (spec : Spec (Q := Q)) (w : Workload (Q := Q)) (i : Inputs (Q := Q)).

Lemma LastIndexByte_after (s t : string) (c : ascii) :
  no_byte c t -> LastIndexByte (s ++ String c t) c = Some (String.length s).
Proof.
  intros Ht. assert (Hn : LastIndexByte t c = None).
  { unfold no_byte in Ht. induction t as [|d t IH]; [done|]. simpl in Ht. apply andb_true_iff in Ht as [Hd Ht].
    simpl. rewrite IH by done. by destruct (Ascii.eqb d c). }
  induction s as [|d s IH]; simpl; [rewrite Hn; by rewrite Ascii.eqb_refl|]. by rewrite IH.
Qed.

(** The identity of an OOM says when it was. *)
Lemma handledOOMTime_identity cn t at_ alerted :
  handledOOMTime ParseNano (mkOOMRecord (oomIdentity FormatNano cn t) at_ alerted) = t.
Proof.
  unfold handledOOMTime, oomIdentity. cbn [Identity At].
  change ("@" ++ FormatNano t) with (String "@" (FormatNano t)). rewrite LastIndexByte_after by apply Format_no_at.
  replace (S (String.length cn)) with (String.length (cn ++ "@")) by (rewrite str_length_app; simpl; lia).
  replace (cn ++ String "@" (FormatNano t)) with ((cn ++ "@") ++ FormatNano t) by (by rewrite str_app_assoc).
  by rewrite Scan.str_drop_append, Parse_Format.
Qed.

(** ** The start of a pass. *)

Lemma startHistory_frame (sig : ResourceRequirements (Q := Q) -> string) rc namespace appName r :
  same_memory_of_ooms rc (startHistoryOverIfResized sig rc namespace appName r).
Proof.
  unfold startHistoryOverIfResized, same_memory_of_ooms. destruct (historySize rc !! _) as [prev|]; [destruct (String.eqb prev _)|]; done.
Qed.

Lemma prepare_spec rc w i owner spec before :
  let recorded := match LastOOM before with Some o => handledOOMTime ParseNano o | None => zero_time end in
  let '(rc1, alert, pods) := prepare signature FormatNano ParseNano rc w i owner spec before in
  (LastOOM before <> None -> recorded <= handled_at (oomHandledAt rc1) (oomKeyOf w)) /\
  handled_at (oomHandledAt rc) (oomKeyOf w) <= handled_at (oomHandledAt rc1) (oomKeyOf w)
    <= Z.max recorded (handled_at (oomHandledAt rc) (oomKeyOf w)) /\
  ((stagedAcks rc1 = stagedAcks rc /\ pods = iPods i /\ alert = []) \/
   (ModeOf (MemoryRequest spec) (MemoryLimit spec) <> ModeAutomatic /\ newestOOM pods = zero_time /\
    stagedAcks rc1 = (stagedAcks rc ++ [mkAck (wNamespace w) (oKind owner) (oName owner) (oUID owner) (oomKeyOf w)
      (oomIdentity FormatNano (cName (wLive w)) (newestOOM (iPods i))) (newestOOM (iPods i))])%list /\
    handled_at (oomHandledAt rc1) (oomKeyOf w) < newestOOM (iPods i))).
Proof.
  cbv zeta. unfold prepare. set (recorded := match LastOOM before with Some o => _ | None => zero_time end).
  set (rc0 := match LastOOM before with Some last => _ | None => rc end).
  assert (Hrec : (LastOOM before <> None -> recorded <= handled_at (oomHandledAt rc0) (oomKeyOf w)) /\
    handled_at (oomHandledAt rc) (oomKeyOf w) <= handled_at (oomHandledAt rc0) (oomKeyOf w)
      <= Z.max recorded (handled_at (oomHandledAt rc) (oomKeyOf w)) /\
    stagedAcks rc0 = stagedAcks rc).
  { unfold rc0, recorded. destruct (LastOOM before) as [o|]; [|split_and!; (done || lia)].
    rewrite handled_remember. split_and!; [lia|lia|lia|]. unfold remember. by destruct (After _ _). }
  destruct Hrec as (Hle & Hmax & Hacks).
  destruct (bool_decide_reflect (ModeOf (MemoryRequest spec) (MemoryLimit spec) = ModeAutomatic)) as [Hm|Hm].
  - destruct (startHistory_frame signature rc0 (wNamespace w) (wApp w) (cResources (wLive w))) as (Hh & Hs & _).
    rewrite Hh, Hs. split; [done|]. split; [done|]. left. by split_and!.
  - unfold oomAtUserLimit. destruct (isNewOOM rc0 (oomKeyOf w) (newestOOM (iPods i)) && _) eqn:Hnew.
    + apply andb_true_iff in Hnew as [[_ Hnew]%isNewOOM_spec _].
      match goal with |- context [startHistoryOverIfResized signature ?r _ _ _] => set (rc2 := r) end.
      destruct (startHistory_frame signature rc2 (wNamespace w) (wApp w) (cResources (wLive w))) as (Hh & Hs & _).
      rewrite Hh, Hs. subst rc2. cbn [set_acks oomHandledAt stagedAcks]. rewrite Hacks.
      split; [done|]. split; [done|]. right. split_and!; [done|apply newestOOM_without|done|done].
    + destruct (startHistory_frame signature rc0 (wNamespace w) (wApp w) (cResources (wLive w))) as (Hh & Hs & _).
      rewrite Hh, Hs. split; [done|]. split; [done|]. left. by split_and!.
Qed.

Lemma prepare_cap rc w i owner spec before :
  oomCapBytes (prepare signature FormatNano ParseNano rc w i owner spec before).1.1 = oomCapBytes rc.
Proof.
  unfold prepare. set (rc0 := match LastOOM before with Some last => _ | None => rc end).
  assert (Hrc0 : oomCapBytes rc0 = oomCapBytes rc).
  { unfold rc0, remember. destruct (LastOOM before); [|done]. by destruct (After _ _). }
  destruct (if bool_decide _ then None else _) as [[entry at_]|]; cbn [fst];
    match goal with |- context [startHistoryOverIfResized ?a ?b ?c ?d ?e] =>
      destruct (startHistory_frame a b c d e) as (_ & _ & Hc) end; by rewrite Hc.
Qed.

(** ** The decision of a pass. *)

(** The OOM a record remembers. *)
Definition recorded (status : ResourceTuningStatus) : Time :=
  match LastOOM status with Some o => handledOOMTime ParseNano o | None => zero_time end.

Lemma decide_pass_mark rc (api : Records) w i faults owner spec api1 rc1 rt isNew alert d :
  decide_pass signature FormatNano ParseNano rc api w i faults owner spec = (api1, Some (rc1, rt, isNew, alert, d)) ->
  handled_at (oomHandledAt rc) (oomKeyOf w) <= handled_at (oomHandledAt rc1) (oomKeyOf w)
    <= Z.max (recorded (rtStatus rt)) (handled_at (oomHandledAt rc) (oomKeyOf w)) /\
  (stagedAcks rc1 = stagedAcks rc \/
   (dMark d = None /\ (LastOOM (rtStatus rt) <> None -> recorded (rtStatus rt) < newestOOM (iPods i)) /\
    stagedAcks rc1 = (stagedAcks rc ++ [mkAck (wNamespace w) (oKind owner) (oName owner) (oUID owner) (oomKeyOf w)
      (oomIdentity FormatNano (cName (wLive w)) (newestOOM (iPods i))) (newestOOM (iPods i))])%list)) /\
  match dMark d with
  | Some m =>
      mark_key m = oomKeyOf w /\ mark_at m = newestOOM (iPods i) /\
      (LastOOM (rtStatus rt) <> None -> recorded (rtStatus rt) < mark_at m) /\
      handled_at (oomHandledAt rc1) (oomKeyOf w) < mark_at m
  | None => True
  end.
Proof.
  unfold decide_pass. destruct (loadTuning _ _ _ _) as [api0 [[rt0 isNew0]|]]; [|done].
  pose proof (prepare_spec rc w i owner spec (rtStatus rt0)) as Hp. cbv zeta in Hp. fold (recorded (rtStatus rt0)) in Hp.
  destruct (prepare _ _ _ _ _ _ _ _ _) as [[rc0 alert0] pods]. destruct Hp as (Hle & Hmax & Hpods).
  pose proof (decide_sizes_spec rc0 w (profile_of (wLabels w) owner) spec (rtStatus rt0) pods (iSizing i) (iNow i)) as Hd.
  destruct (decide_sizes _ _ _ _ _ _ _ _) as [rc2 d0]. destruct Hd as ((Hh & Hs & _) & Hm & _).
  intros [= <- <- <- <- <- <-]. rewrite Hh, Hs. split; [done|].
  destruct (dMark d0) as [m|] eqn:Hdm; cbn [marks_new] in Hm.
  - destruct Hm as (Hk & Ha & Hz & Hlt & _). destruct Hpods as [(Hacks & -> & _)|(_ & Hnone & _)]; [|congruence].
    split; [by left|]. split_and!; [done|done| |done]. intros Hsome. specialize (Hle Hsome). lia.
  - split; [|done]. destruct Hpods as [(Hacks & _)|(_ & _ & Hacks & Hlt)]; [by left|right].
    split_and!; [done| |done]. intros Hsome. specialize (Hle Hsome). lia.
Qed.

(** ** Runs. *)

(** A workload that is always the same one. *)
Record about (namespace app container : string) (owner : workloadOwner) w : Prop := {
  about_namespace : wNamespace w = namespace;
  about_app : wApp w = app;
  about_container : cName (wLive w) = container;
  about_owner : ownerOf (wOwner w) = Some owner
}.

(** The record says that an OOM kill at [t], or a later one, was answered. *)
Definition answered (api : Records) (namespace container : string) (owner : workloadOwner) (t : Time) : Prop :=
  exists rt o t', api !! (namespace, tuningName owner) = Some rt /\ controllerUID rt = Some (oUID owner) /\
    LastOOM (rtStatus rt) = Some o /\ Identity o = oomIdentity FormatNano container t' /\ t <= t'.

Definition good_ack (namespace container : string) (owner : workloadOwner) (t : Time) (a : ack) : Prop :=
  ackNamespace a = namespace /\ mkOwner (ackKind a) (ackName a) (ackUID a) = owner /\
  ackIdentity a = oomIdentity FormatNano container (ackAt a) /\ t <= ackAt a.

Lemma recorded_answered rt o container t' :
  LastOOM (rtStatus rt) = Some o -> Identity o = oomIdentity FormatNano container t' -> recorded (rtStatus rt) = t'.
Proof. intros Hl Hi. unfold recorded. rewrite Hl. destruct o as [id_ at_ al]. cbn [Identity] in Hi. rewrite Hi. apply handledOOMTime_identity. Qed.

Lemma pass_keeps_answered namespace app container owner t rc (api : Records) w i faults :
  about namespace app container owner w -> answered api namespace container owner t ->
  let '(rc', api', _) := tuneWorkload Unmarshal signature FormatNano ParseNano rc api w i faults in
  answered api' namespace container owner t /\
  exists l, stagedAcks rc' = (stagedAcks rc ++ l)%list /\ Forall (good_ack namespace container owner t) l.
Proof.
  intros [Hn Ha Hc Ho] (rt & o & t' & Hk & Hu & Hl & Hi & Ht). pose proof (recorded_answered rt o container t' Hl Hi) as Hrec.
  unfold tuneWorkload. rewrite Ho.
  assert (Hsame : answered api namespace container owner t) by (by exists rt, o, t').
  destruct (ownerSpec Unmarshal (iOwner i)) as [spec|]; [|split; [done|exists []; by rewrite app_nil_r]].
  pose proof (decide_pass_spec signature FormatNano ParseNano rc api w i faults owner spec) as Hdec. cbv zeta in Hdec. rewrite Hn in Hdec.
  pose proof (decide_pass_mark rc api w i faults owner spec) as Hmark.
  destruct (decide_pass _ _ _ _ _ _ _ _ _ _) as [api1 [[[[[rc1 rt1] isNew] alert] d]|]]; destruct Hdec as [Hapi Hdec].
  - specialize (Hmark _ _ _ _ _ _ eq_refl). destruct Hdec as (Hu1 & Hload & _).
    destruct isNew.
    { exfalso. destruct Hload as [Hnone _]. destruct Hapi as [->|[-> (rt2 & H1 & H2)]]; congruence. }
    destruct Hload as [-> Hload]. rewrite Hk in Hload. injection Hload as <-.
    pose proof (settle_spec FormatNano rc1 api w i faults owner spec rt false alert d Hu) as Hs. cbv zeta in Hs. rewrite Hn in Hs.
    destruct (settle _ _ _ _ _ _ _ _ _ _ _ _) as [[rc' api'] entries]. destruct Hs as (_ & Hkey & Hacks & _); [done|].
    destruct Hmark as (_ & Hstaged & Hm). split.
    + destruct Hkey as [Hkey|[[? _]|Hkey]]; [exists rt, o, t'; by rewrite Hkey|done|].
      unfold next_status, stored in Hkey. destruct (dMark d) as [m|].
      * eexists _, _, (mark_at m). split; [exact Hkey|]. split; [done|]. split; [reflexivity|]. cbn [Identity]. rewrite Hc. split; [done|].
        destruct Hm as (_ & _ & Hlt & _). rewrite Hrec, Hl in Hlt. specialize (Hlt ltac:(done)). lia.
      * eexists _, _, t'. split; [exact Hkey|]. split; [done|]. cbn [rtStatus LastOOM]. rewrite Hl. split; [reflexivity|]. by split.
    + rewrite Hacks. destruct Hstaged as [->|(_ & Hlt & ->)]; [exists []; by rewrite app_nil_r|].
      eexists. split; [reflexivity|]. apply Forall_singleton. unfold good_ack. cbn. rewrite Hrec, Hl in Hlt. specialize (Hlt ltac:(done)).
      rewrite Hc. split_and!; [done|by destruct owner|done|lia].
  - split; [|exists []; by rewrite app_nil_r]. destruct Hapi as [->|[-> (rt2 & H1 & H2)]]; [done|congruence].
Qed.

Lemma ack_keeps_answered namespace container owner t rc (api : Records) a faults :
  good_ack namespace container owner t a -> answered api namespace container owner t ->
  answered (acknowledgeOOM rc api a faults).2 namespace container owner t /\
  stagedAcks (acknowledgeOOM rc api a faults).1 = stagedAcks rc.
Proof.
  intros (Hn & Ho & Hid & Ht) (rt & o & t' & Hk & Hu & Hl & Hi & Ht'). unfold acknowledgeOOM. rewrite Ho, Hn.
  assert (Hacks : stagedAcks (remember rc (ackKey a) (ackAt a)) = stagedAcks rc) by (unfold remember; by destruct (After _ _)).
  pose proof (loadTuning_spec faults api namespace owner) as Hload. cbv zeta in Hload.
  destruct (loadTuning _ _ _ _) as [api1 [[rt1 isNew]|]]; destruct Hload as [Hapi Hload]; cbn [fst snd]; (split; [|done]).
  - destruct isNew.
    { exfalso. destruct Hload as [Hnone _]. destruct Hapi as [->|[-> (rt2 & H1 & H2)]]; congruence. }
    destruct Hload as (-> & Hk1 & Hu1). rewrite Hk in Hk1. injection Hk1 as <-.
    match goal with |- context [saveTuning faults api ?k ?r false] => pose proof (saveTuning_spec faults api k r false) as Hs;
      destruct (saveTuning faults api k r false) as [api' saved] end.
    destruct Hs as (_ & Hkey & _). cbn [fst controllerUID rtStatus] in *.
    destruct Hkey as [Hkey|[(? & _)|[(? & _)|(_ & old & Hold & Hkey)]]]; [exists rt, o, t'; by rewrite Hkey|done|done|].
    rewrite Hk in Hold. injection Hold as <-. eexists _, _, _. split; [exact Hkey|]. split; [done|]. split; [reflexivity|].
    cbn [Identity]. by split.
  - destruct Hapi as [->|[-> (rt2 & H1 & H2)]]; [by exists rt, o, t'|congruence].
Qed.

(** Ticks over the workload, and restarts of the controller. *)
Inductive event : Type :=
| Tick w i (faults : Faults) (others : list ResourceLogEntry) (alerts_written : bool) (ack_faults : list Faults)
| Restart (cap : Z).

Definition event_about (namespace app container : string) (owner : workloadOwner) (e : event) : Prop :=
  match e with Tick w _ _ _ _ _ => about namespace app container owner w | Restart _ => True end.

Definition sizer_step (s : ResourceController * Records) (e : event) : ResourceController * Records :=
  match e with
  | Tick w i faults others alerts_written ack_faults =>
      (tick Unmarshal signature FormatNano ParseNano s.1 s.2 [(w, i, faults)] others alerts_written ack_faults).1
  | Restart cap => (set_cap NewResourceController cap, s.2)
  end.

Lemma acks_keep_answered namespace container owner t (l : list (ack * Faults)) rc (api : Records) :
  Forall (fun af => good_ack namespace container owner t af.1) l -> answered api namespace container owner t ->
  let s := foldl (fun s (af : ack * Faults) => acknowledgeOOM s.1 s.2 af.1 af.2) (rc, api) l in
  answered s.2 namespace container owner t /\ stagedAcks s.1 = stagedAcks rc.
Proof.
  cbv zeta. intros Hl. revert rc api. induction Hl as [|[a f] l Ha Hl IH]; intros rc api Hans; [done|]. cbn [foldl fst snd].
  destruct (ack_keeps_answered namespace container owner t rc api a f Ha Hans) as [H1 H2].
  destruct (acknowledgeOOM rc api a f) as [rc' api']. cbn [fst snd] in *. destruct (IH rc' api' H1) as [H3 H4]. split; [exact H3|]. etransitivity; [exact H4|exact H2].
Qed.

Lemma step_keeps_answered namespace app container owner t (s : ResourceController * Records) e :
  event_about namespace app container owner e -> stagedAcks s.1 = [] -> answered s.2 namespace container owner t ->
  answered (sizer_step s e).2 namespace container owner t /\ stagedAcks (sizer_step s e).1 = [].
Proof.
  destruct s as [rc api], e as [w i faults others written af|cap]; cbn [event_about sizer_step fst snd]; [|done].
  intros Hw Hs Hans. unfold tick, tune_all. cbn [foldl fst snd].
  pose proof (pass_keeps_answered namespace app container owner t rc api w i faults Hw Hans) as Hp.
  destruct (tuneWorkload _ _ _ _ _ _ _ _ _) as [[rc1 api1] entries]. destruct Hp as (H1 & l & Hl & Hg).
  match goal with |- context [commitStagedAcks rc1 api1 ?b af] => generalize b; intros st end.
  unfold commitStagedAcks. destruct st; cbn [negb]; [|done]. rewrite Hs in Hl. change (stagedAcks rc1 = l) in Hl. rewrite Hl.
  match goal with |- context [zip l ?fs] => pose proof (acks_keep_answered namespace container owner t (zip l fs) (set_acks rc1 []) api1) as Hack end.
  destruct (foldl _ _ _) as [rc2 api2]. apply Hack; [|done].
  apply Forall_forall. intros [a f] Hin. apply elem_of_zip_l in Hin. by apply (Forall_forall (good_ack namespace container owner t) l).
Qed.

(** C18: an OOM kill that was answered is never answered again. Once a record says
    that the kill of a container at a time was handled, every later pass over the
    workload that takes an OOM kill for new takes a strictly later one, however
    many ticks there were, whatever calls failed before or after taking effect,
    whether the alerts were stored, and however often the controller restarted
    and forgot what it had seen. *)
Theorem oom_answered_once (namespace app container : string) (owner : workloadOwner) (t : Time)
    (s : ResourceController * Records) (events : list event) w i faults spec api1 rc1 rt isNew alert d m
    (Hstart : stagedAcks s.1 = []) (Hans : answered s.2 namespace container owner t)
    (Hevents : Forall (event_about namespace app container owner) events) (Hw : about namespace app container owner w) :
  let s' := foldl sizer_step s events in
  answered s'.2 namespace container owner t /\
  (decide_pass signature FormatNano ParseNano s'.1 s'.2 w i faults owner spec = (api1, Some (rc1, rt, isNew, alert, d)) ->
   dMark d = Some m -> t < mark_at m /\ mark_at m = newestOOM (iPods i)).
Proof.
  cbv zeta.
  assert (Hrun : answered (foldl sizer_step s events).2 namespace container owner t /\ stagedAcks (foldl sizer_step s events).1 = []).
  { clear Hw. revert s Hstart Hans. induction Hevents as [|e es He Hes IH]; intros s Hstart Hans; [done|]. cbn [foldl].
    destruct (step_keeps_answered namespace app container owner t s e He Hstart Hans) as [H1 H2]. by apply IH. }
  destruct Hrun as [Hrun _]. split; [done|]. set (s' := foldl sizer_step s events) in *. intros Hdec Hm.
  pose proof (decide_pass_spec signature FormatNano ParseNano s'.1 s'.2 w i faults owner spec) as Hspec. cbv zeta in Hspec.
  pose proof (decide_pass_mark _ _ _ _ _ _ _ _ _ _ _ _ _ Hdec) as (_ & _ & Hmark). rewrite Hm in Hmark. rewrite Hdec in Hspec.
  destruct Hrun as (rt0 & o & t' & Hk & Hu & Hl & Hi & Ht). destruct Hw as [Hn _ Hc _]. rewrite Hn in Hspec.
  destruct Hspec as (Hapi & _ & Hload & _). destruct isNew.
  { exfalso. destruct Hload as [Hnone _]. destruct Hapi as [->|[-> (rt2 & H1 & H2)]]; congruence. }
  destruct Hload as [-> Hload]. rewrite Hk in Hload. injection Hload as <-.
  destruct Hmark as (_ & Hat & Hlt & _). rewrite (recorded_answered rt0 o container t' Hl Hi), Hl in Hlt. specialize (Hlt ltac:(done)). split; [lia|done].
Qed.

(** ** Retries. *)

Lemma evaluate_marks rc namespace appName (c : Container (Q := Q)) pods profile replicas blockDecrease sustain movable now :
  no_resources (cResources c) = false -> isNewOOM rc (slash (slash namespace appName) (cName c)) (newestOOM pods) = true ->
  Sub now (newestOOM pods) < oomActionableWindow ->
  (evaluate rc namespace appName c pods profile replicas blockDecrease sustain movable now).2 =
    Some (mkMark (slash (slash namespace appName) (cName c)) (newestOOM pods)).
Proof.
  intros Hr Hnew Hfresh. unfold evaluate. rewrite Hr, Hnew, (proj2 (Z.ltb_lt _ _) Hfresh). cbn [andb].
  by destruct (raise_after_oom _ _ _ _ _).
Qed.

Lemma decide_sizes_marks rc w profile spec status pods sizing now :
  no_resources (cResources (wLive w)) = false -> isNewOOM rc (oomKeyOf w) (newestOOM pods) = true ->
  Sub now (newestOOM pods) < oomActionableWindow ->
  dMark (decide_sizes rc w profile spec status pods sizing now).2 = Some (mkMark (oomKeyOf w) (newestOOM pods)).
Proof.
  intros Hr Hnew Hfresh. unfold decide_sizes. set (cooldown := match DecreaseBlockedUntil status with Some _ => _ | None => _ end).
  pose proof (evaluate_marks rc (wNamespace w) (wApp w) (wLive w) pods profile (wReplicas w) (ScaledOut sizing || cooldown) (wSustain w)
    (bool_decide (ModeOf (CPURequest spec) (CPULimit spec) = ModeAutomatic) && negb (CPU (TrackedBy sizing))) now Hr Hnew Hfresh) as Hev.
  destruct (evaluate _ _ _ _ _ _ _ _ _ _ _) as [[[rc1 work] proposed] mark]. cbn [snd] in Hev. subst mark.
  repeat match goal with |- context [effective ?a ?b ?c ?d ?e ?f ?g ?h] => destruct (effective a b c d e f g h) end.
  destruct (PendingRequests _ _ _) as [[|] [|]]; reflexivity.
Qed.

(** A pass over a fresh OOM kill that was not answered takes it for new. *)
Lemma unanswered_marks rc (api : Records) w i faults owner spec t api1 rc1 rt isNew alert d :
  decide_pass signature FormatNano ParseNano rc api w i faults owner spec = (api1, Some (rc1, rt, isNew, alert, d)) ->
  recorded (rtStatus rt) < t -> handled_at (oomHandledAt rc) (oomKeyOf w) < t ->
  ModeOf (MemoryRequest spec) (MemoryLimit spec) = ModeAutomatic -> no_resources (cResources (wLive w)) = false ->
  newestOOM (iPods i) = t -> t <> zero_time -> Sub (iNow i) t < oomActionableWindow ->
  dMark d = Some (mkMark (oomKeyOf w) t).
Proof.
  unfold decide_pass. destruct (loadTuning _ _ _ _) as [api0 [[rt0 isNew0]|]]; [|done].
  pose proof (prepare_spec rc w i owner spec (rtStatus rt0)) as Hp. cbv zeta in Hp. fold (recorded (rtStatus rt0)) in Hp.
  destruct (prepare _ _ _ _ _ _ _ _ _) as [[rc0 alert0] pods]. destruct Hp as (_ & Hmax & Hpods).
  pose proof (decide_sizes_marks rc0 w (profile_of (wLabels w) owner) spec (rtStatus rt0) pods (iSizing i) (iNow i)) as Hd.
  destruct (decide_sizes _ _ _ _ _ _ _ _) as [rc2 d0]. cbn [snd] in Hd.
  intros [= <- <- <- <- <- <-] Hrec Hh Hm Hr Ht Hz Hfresh.
  destruct Hpods as [(_ & -> & _)|(Hna & _)]; [|done]. rewrite Ht in Hd. apply Hd; [done| |done].
  apply isNewOOM_spec. split; [done|]. lia.
Qed.

Lemma statusEqual_OOM a b :
  statusEqual a b = true -> Identity <$> LastOOM a = Identity <$> LastOOM b.
Proof.
  unfold statusEqual. intros [_ Hl]%andb_true_iff. destruct (LastOOM a) as [x|], (LastOOM b) as [y|]; try done.
  apply String.eqb_eq in Hl. cbn. by rewrite Hl.
Qed.

(** A mark is of an OOM. *)
Lemma decide_pass_after_zero rc (api : Records) w i faults owner spec api1 rc1 rt isNew alert d m :
  decide_pass signature FormatNano ParseNano rc api w i faults owner spec = (api1, Some (rc1, rt, isNew, alert, d)) ->
  dMark d = Some m -> zero_time < mark_at m.
Proof.
  intros Hpass Hmark. destruct (decide_pass_mark _ _ _ _ _ _ _ _ _ _ _ _ _ Hpass) as (_ & _ & Hm). rewrite Hmark in Hm.
  destruct Hm as (_ & Hat & _). destruct (newestOOM_from (iPods i) zero_time) as (H1 & _). fold (newestOOM (iPods i)) in H1.
  unfold decide_pass in Hpass. destruct (loadTuning _ _ _ _) as [a0 [[r0 n0]|]]; [|done].
  destruct (prepare _ _ _ _ _ _ _ _ _) as [[rc0 alert0] pods].
  pose proof (decide_sizes_spec rc0 w (profile_of (wLabels w) owner) spec (rtStatus r0) pods (iSizing i) (iNow i)) as Hds.
  destruct (decide_sizes _ _ _ _ _ _ _ _) as [rc' d']. injection Hpass as <- <- <- <- <- <-. destruct Hds as (_ & Hds & _).
  rewrite Hmark in Hds. destruct Hds as (_ & _ & Hz & _). lia.
Qed.

(** A pass with a mark answers the OOM, or leaves neither the record nor the
    controller with it. *)
Lemma pass_after_mark rc (api : Records) w i faults owner spec api1 rc1 rt isNew alert d m :
  ownerOf (wOwner w) = Some owner -> ownerSpec Unmarshal (iOwner i) = Some spec ->
  decide_pass signature FormatNano ParseNano rc api w i faults owner spec = (api1, Some (rc1, rt, isNew, alert, d)) ->
  dMark d = Some m ->
  let s' := (tuneWorkload Unmarshal signature FormatNano ParseNano rc api w i faults).1 in
  zero_time < mark_at m /\ mark_key m = oomKeyOf w /\
  (answered s'.2 (wNamespace w) (cName (wLive w)) owner (mark_at m) \/
   (handled_at (oomHandledAt s'.1) (oomKeyOf w) < mark_at m /\
    forall rt', s'.2 !! (wNamespace w, tuningName owner) = Some rt' -> recorded (rtStatus rt') < mark_at m)).
Proof.
  cbv zeta. set (key := (wNamespace w, tuningName owner)). intros Howner Hspec Hpass Hmark.
  pose proof (decide_pass_after_zero _ _ _ _ _ _ _ _ _ _ _ _ _ _ Hpass Hmark) as Hpos. split; [done|].
  pose proof (decide_pass_spec signature FormatNano ParseNano rc api w i faults owner spec) as Hd. cbv zeta in Hd. rewrite Hpass in Hd.
  destruct Hd as (_ & Hu & Hload & _). fold key in Hload.
  destruct (decide_pass_mark _ _ _ _ _ _ _ _ _ _ _ _ _ Hpass) as (_ & _ & Hm). rewrite Hmark in Hm.
  destruct Hm as (Hk & _ & Hrec & Hlt). split; [done|].
  assert (Hold : recorded (rtStatus rt) < mark_at m) by (unfold recorded in *; destruct (LastOOM (rtStatus rt)); [by apply Hrec|done]).
  unfold tuneWorkload. rewrite Howner, Hspec, Hpass.
  pose proof (settle_spec FormatNano rc1 api1 w i faults owner spec rt isNew alert d Hu) as Hs. cbv zeta in Hs. fold key in Hs.
  destruct (settle _ _ _ _ _ _ _ _ _ _ _ _) as [[rc' api'] entries]. cbn [fst snd].
  destruct Hs as (_ & Hkey & _ & Hh); [destruct isNew; [done|by destruct Hload as [-> ?]]|]. set (next := next_status _ _ _ _ _ _ _) in *.
  assert (Hnext : LastOOM next = Some (mkOOMRecord (oomIdentity FormatNano (cName (wLive w)) (mark_at m)) (mark_at m) true))
    by (unfold next, next_status; cbn [LastOOM]; by rewrite Hmark).
  assert (Hdone : api' !! key = Some (mkTuning (Some (oUID owner)) (stored next)) ->
    answered api' (wNamespace w) (cName (wLive w)) owner (mark_at m)).
  { intros Hk'. eexists _, _, (mark_at m). split; [exact Hk'|]. split; [done|]. cbn [rtStatus stored LastOOM]. rewrite Hnext. by split. }
  assert (Hhandled : api' !! key = Some (mkTuning (Some (oUID owner)) (stored next)) \/ handled_at (oomHandledAt rc') (oomKeyOf w) < mark_at m).
  { destruct Hh as [->|(m' & _ & _ & [Hw'|[_ Heq]])]; [by right|by left|exfalso]. apply statusEqual_OOM in Heq. rewrite Hnext in Heq.
    destruct (LastOOM (rtStatus rt)) as [o|] eqn:Ho; [|done]. injection Heq as Heq.
    rewrite (recorded_answered rt o (cName (wLive w)) (mark_at m) Ho Heq) in Hold. lia. }
  destruct Hhandled as [Hw'|Hhandled]; [left; by apply Hdone|]. destruct Hkey as [Hkey|[[_ Hkey]|Hkey]]; [right|right|by left; apply Hdone];
    (split; [done|]); intros rt' Hrt'; rewrite Hrt' in Hkey.
  - destruct isNew; destruct Hload as [Hload Hst]; [congruence|]. rewrite Hload, Hst in Hkey. by injection Hkey as ->.
  - by injection Hkey as ->.
Qed.

(** An OOM kill is not lost to a failure. After a pass that took an OOM kill
    for new, the record says it was answered; or else, whether the write was
    refused, its answer lost, or the quota stood in the way, the next pass that
    sees the same kill within its 30 minutes takes it for new again, even after a
    restart. *)
Theorem oom_retried_until_answered rc (api : Records) w i faults owner spec api1 rc1 rt isNew alert d m
    w2 i2 faults2 spec2 api2 rc2 rc3 rt3 isNew3 alert3 d3
    (Hw : about (wNamespace w) (wApp w) (cName (wLive w)) owner w) (Hw2 : about (wNamespace w) (wApp w) (cName (wLive w)) owner w2)
    (Hspec : ownerSpec Unmarshal (iOwner i) = Some spec)
    (Hfirst : decide_pass signature FormatNano ParseNano rc api w i faults owner spec = (api1, Some (rc1, rt, isNew, alert, d)))
    (Hmark : dMark d = Some m) (Hauto : ModeOf (MemoryRequest spec2) (MemoryLimit spec2) = ModeAutomatic)
    (Hset : no_resources (cResources (wLive w2)) = false) (Hsame : newestOOM (iPods i2) = mark_at m)
    (Hfresh : Sub (iNow i2) (mark_at m) < 30 * Minute) :
  let s' := (tuneWorkload Unmarshal signature FormatNano ParseNano rc api w i faults).1 in
  answered s'.2 (wNamespace w) (cName (wLive w)) owner (mark_at m) \/
  (handled_at (oomHandledAt rc2) (oomKeyOf w) <= handled_at (oomHandledAt s'.1) (oomKeyOf w) ->
   decide_pass signature FormatNano ParseNano rc2 s'.2 w2 i2 faults2 owner spec2 = (api2, Some (rc3, rt3, isNew3, alert3, d3)) ->
   dMark d3 = Some m).
Proof.
  cbv zeta. destruct (pass_after_mark _ _ _ _ _ _ _ _ _ _ _ _ _ _ (about_owner _ _ _ _ _ Hw) Hspec Hfirst Hmark)
    as (Hpos & Hk & [Hans|[Hhandled Hrecord]]); [by left|right].
  destruct (tuneWorkload _ _ _ _ _ _ _ _ _) as [[rc' api'] entries]. cbn [fst snd] in *. intros Hle Hsecond.
  destruct Hw2 as [Hn2 Ha2 Hc2 Ho2]. assert (Hkey2 : oomKeyOf w2 = oomKeyOf w) by (unfold oomKeyOf; by rewrite Hn2, Ha2, Hc2).
  pose proof (decide_pass_spec signature FormatNano ParseNano rc2 api' w2 i2 faults2 owner spec2) as Hd2. cbv zeta in Hd2.
  rewrite Hsecond, Hn2 in Hd2. destruct Hd2 as (_ & _ & Hload2 & _).
  assert (Hrec3 : recorded (rtStatus rt3) < mark_at m) by (destruct isNew3; destruct Hload2 as [? Hrt]; [by rewrite Hrt|by apply Hrecord]).
  rewrite (unanswered_marks _ _ _ _ _ _ _ _ _ _ _ _ _ _ Hsecond Hrec3); try done; [|rewrite Hkey2; lia|unfold zero_time in *; lia].
  rewrite Hkey2, <- Hk. by destruct m.
Qed.
End Ooms.

(** ** Witnesses. *)

Definition demo_mark : pendingOOMMark := mkMark "prod/db/main" killed_at.

Lemma demo_about : about "prod" "db" "main" demo_owner demo_workload.
Proof. by split. Qed.

(** A record that answered the kill, and a later tick and restart. *)
Definition demo_answered : Records :=
  {[("prod", "service-db") := mkTuning (Some "u1") (mkStatus no_tuned None None None
      (Some (mkOOMRecord (oomIdentity demo_format "main" killed_at) killed_at true)) "")]}.

Definition demo_events : list (event (Q := Milli)) :=
  [Restart 0; Tick demo_workload (demo_inputs [killed_pod] demo_now) no_faults [] true []].

Definition killed_again : podMetricsEntry := mkPod "prod" "db-0" 10 (2 ^ 29) ∅ true (Hour + Second)%Z (of_int64 0) Hour false.

Lemma oom_answered_once_witness :
  let s' := foldl (sizer_step demo_unmarshal demo_signature demo_format demo_parse) (NewResourceController, demo_answered) demo_events in
  answered demo_format s'.2 "prod" "main" demo_owner killed_at /\
  match (decide_pass demo_signature demo_format demo_parse s'.1 s'.2 demo_workload (demo_inputs [killed_again] demo_now) no_faults
           demo_owner demo_spec).2 with
  | Some (_, _, _, _, d) => exists m, dMark d = Some m /\ killed_at < mark_at m
  | None => False
  end.
Proof.
  cbv zeta. set (s' := foldl _ _ _).
  assert (Hm : match (decide_pass demo_signature demo_format demo_parse s'.1 s'.2 demo_workload
      (demo_inputs [killed_again] demo_now) no_faults demo_owner demo_spec).2 with
    | Some (_, _, _, _, d) => dMark d | None => None end = Some (mkMark "prod/db/main" (Hour + Second)%Z)) by (vm_compute; reflexivity).
  destruct (decide_pass _ _ _ _ _ _ _ _ _ _) as [api1 [[[[[rc1 rt] isNew] alert] d]|]] eqn:Hd; cbn [snd] in Hm |- *; [|discriminate Hm].
  destruct (oom_answered_once demo_unmarshal demo_signature demo_format demo_parse demo_parse_format demo_format_no_at
    "prod" "db" "main" demo_owner killed_at (NewResourceController, demo_answered) demo_events demo_workload
    (demo_inputs [killed_again] demo_now) no_faults demo_spec api1 rc1 rt isNew alert d
    (mkMark "prod/db/main" (Hour + Second)%Z)) as [H1 H2].
  - reflexivity.
  - eexists _, _, killed_at. split; [apply lookup_singleton_eq|]. split; [reflexivity|]. split; [reflexivity|]. split; [reflexivity|lia].
  - repeat constructor.
  - apply demo_about.
  - split; [exact H1|]. eexists. split; [exact Hm|]. by apply H2.
Defined.

(** The update of the first pass is refused, the controller restarts, and the
    second pass takes the same kill for new. *)
Definition refused_update : Faults := mkFaults true Done Done Refused.

Lemma oom_retried_until_answered_witness :
  let s' := (demo_tuned NewResourceController ∅ refused_update).1 in
  answered demo_format s'.2 "prod" "main" demo_owner killed_at \/
  match (demo_pass NewResourceController s'.2 no_faults).2 with
  | Some (_, _, _, _, d) => dMark d = Some demo_mark
  | None => False
  end.
Proof.
  cbv zeta. destruct (demo_pass NewResourceController ∅ refused_update) as [api1 [[[[[rc1 rt] isNew] alert] d]|]] eqn:Hd.
  - assert (Hm : match (demo_pass NewResourceController ∅ refused_update).2 with Some (_, _, _, _, d) => dMark d | None => None end = Some demo_mark)
      by (vm_compute; reflexivity).
    rewrite Hd in Hm. cbn [snd] in Hm.
    set (s' := (demo_tuned _ _ _).1).
    assert (Hs : bool_decide (is_Some (demo_pass NewResourceController s'.2 no_faults).2) = true) by (vm_compute; reflexivity).
    destruct (demo_pass NewResourceController s'.2 no_faults) as [api2 [[[[[rc3 rt3] isNew3] alert3] d3]|]] eqn:Hd2; [|discriminate Hs].
    destruct (oom_retried_until_answered demo_unmarshal demo_signature demo_format demo_parse demo_parse_format demo_format_no_at
      NewResourceController ∅ demo_workload (demo_inputs [killed_pod] demo_now) refused_update demo_owner demo_spec api1 rc1 rt isNew alert d
      demo_mark demo_workload (demo_inputs [killed_pod] demo_now) no_faults demo_spec api2 NewResourceController rc3 rt3 isNew3 alert3 d3) as [H|H];
      try reflexivity; try exact demo_about; try exact Hd; try exact Hm; [by left|right].
    cbn [snd]. apply H; [|exact Hd2]. vm_compute. discriminate.
  - exfalso. assert (Hs : bool_decide (is_Some (demo_pass NewResourceController ∅ refused_update).2) = true) by (vm_compute; reflexivity).
    rewrite Hd in Hs. discriminate Hs.
Defined.
