(* ===== verification/Tuned.v ===== *)
(** * Applying a recommendation
    ([src/console-api/controllers/tuned_resources.go], [liveRolloutPhase] in
    [rollout_state.go])

    What the owner's reconciler makes of the tuning record: whether it may be used
    now, and the resources the container gets. *)

From Stdlib Require Import Ascii.
From stdpp Require Import base tactics numbers countable list option strings gmap sorting.
From S2P Require Import Prelude GoStd Calendar Quantity Float64 Capacity Bounds Quota Sizing Tuning.
From S2P Require Rollout.

Local Open Scope string_scope.

(** ** The phase of the live rollout. *)

Inductive rolloutPhase := phaseSettled | phaseInFlight | phaseUnschedulable | phaseFailed.

#[export] Instance rolloutPhase_eq_dec : EqDecision rolloutPhase.
Proof. solve_decision. Defined.

Definition rolloutPhaseFor (reason : Rollout.Reason) : rolloutPhase :=
  match reason with
  | Rollout.Complete => phaseSettled
  | Rollout.Unschedulable | Rollout.QuotaExceeded => phaseUnschedulable
  | Rollout.PodsRefused | Rollout.DeadlineExceeded => phaseFailed
  | _ => phaseInFlight
  end.

(** [stopped] is set when the App or its Deployment is; [pods] are those of the
    newest ReplicaSet, [None] when they cannot be read. *)
Definition liveRolloutPhase (stopped : bool) (deploy : Rollout.Deployment) (pods : option (list Rollout.Pod))
    (budget : Duration) (now : Time) : rolloutPhase :=
  if stopped then phaseInFlight
  else if Rollout.Settled (Some deploy) then phaseSettled
  else
    match pods with
    | None => phaseInFlight
    | Some pods =>
        let phase := rolloutPhaseFor (Rollout.Explain deploy pods budget now).1 in
        if bool_decide (phase = phaseInFlight) && Rollout.Failed (Some deploy) then phaseFailed else phase
    end.

(** ** Pauses. *)

Definition AnnoTuningPausedUntil : string := "kipper.run/tuning-paused-until".

Definition TuningPaused (ParseTime : string -> option Time) (annotations : gmap string string) (now : Time) : bool :=
  match annotations !! AnnoTuningPausedUntil with
  | None => false
  | Some raw => match ParseTime raw with Some until => Before now until | None => false end
  end.

Definition ModeExpert : string := "expert".

(** The mode in the cluster's ConfigMap, [None] when it cannot be read. *)
Definition expertMode (mode : option string) : bool :=
  match mode with Some m => m =? ModeExpert | None => false end.

Definition TuningBelongsTo (record : ResourceTuning) (ownerUID : string) : bool :=
  match controllerUID record with Some uid => uid =? ownerUID | None => false end.

Section Tuned.
Context {Q : Type} `{Quantities Q}.

(** ** The resources. *)

Record tunedWorkload := mkTunedWorkload {
  twUID : string;
  twSpec : Spec (Q := Q);
  Desired : ResourceRequirements (Q := Q);
  twLive : option (ResourceRequirements (Q := Q));
  twReplicas : Z;
  SurgePods : Z;
  twPodSpec : option (PodSpec (Q := Q));
  RolloutPhase : option rolloutPhase;
  twTracked : Tracked
}.

(** The cluster as the reconciler reads it: the pause, the mode, the record and
    the quota. *)
Record Reads := mkReads {
  rPaused : bool;
  rMode : option string;
  rRecord : result GetError ResourceTuning;
  rQuota : result GetError (ResourceQuota (Q := Q))
}.

Definition recommendationFor (reads : Reads) (w : tunedWorkload) : option TunedResources :=
  if rPaused reads || expertMode (rMode reads) then None
  else
    match rRecord reads with
    | Err _ => None
    | Ok rt =>
        if negb (TuningBelongsTo rt (twUID w)) then None
        else Some (WithChangedRequests (Recommendation (twTracked w) (rtStatus rt)) (twSpec w) (RecommendedUnder (rtStatus rt)))
    end.

Definition requestGrows (live desired : ResourceRequirements (Q := Q)) (name : string) : bool :=
  match get (Requests desired) name with
  | None => false
  | Some want => match get (Requests live) name with Some have => above want have | None => true end
  end.

Definition requestsGrow (live desired : ResourceRequirements (Q := Q)) : bool :=
  requestGrows live desired ResourceCPU || requestGrows live desired ResourceMemory.

Definition quotaAllows (quota : result GetError (ResourceQuota (Q := Q))) (live desired : ResourceRequirements (Q := Q))
    (replicas surgePods : Z) (podSpec : option (PodSpec (Q := Q))) : bool :=
  match quota with
  | Err NotFound => true
  | Err _ => false
  | Ok quota => (Fits quota live desired replicas surgePods podSpec).2
  end.

Definition requestAboveLimitIn (request limit : Quantity (Q := Q)) : bool :=
  is_user (QSource request) && is_user (QSource limit) && above (Value request) (Value limit).

Definition applyTunedResources (reads : Reads) (w : tunedWorkload) : ResourceRequirements (Q := Q) * bool :=
  let rec := recommendationFor reads w in
  let phase := match rec, RolloutPhase w with Some _, Some phase => phase | _, _ => phaseSettled end in
  let rec := if bool_decide (phase = phaseInFlight) then None else rec in
  let kept := Apply (Desired w) (twSpec w) None (twLive w) in
  let trial := Apply (Desired w) (twSpec w) rec (twLive w) in
  let trial :=
    match rec, twLive w with
    | Some _, Some live => if bool_decide (phase = phaseUnschedulable) && requestsGrow live trial then kept else trial
    | _, _ => trial
    end in
  let trial :=
    match rec, twLive w with
    | Some _, Some live =>
        if negb (quotaAllows (rQuota reads) live trial (twReplicas w) (SurgePods w) (WithContainerResources (twPodSpec w) trial))
        then kept else trial
    | _, _ => trial
    end in
  (trial, requestAboveLimitIn (CPURequest (twSpec w)) (CPULimit (twSpec w)) ||
          requestAboveLimitIn (MemoryRequest (twSpec w)) (MemoryLimit (twSpec w))).
End Tuned.
