(* ===== verification/TunedProps.v ===== *)
(** * Applying a recommendation: theorems *)

From Stdlib Require Import Ascii.
From stdpp Require Import base tactics numbers countable list option strings gmap sorting.
From S2P Require Import Prelude GoStd Calendar Quantity Float64 Capacity Bounds BoundsProps Quota Sizing Tuning Tuned.
From S2P Require Rollout.

Section TunedProps.
Context {Q : Type} `{QuantityLaws Q}.

(** What the reconciler would do without a recommendation. *)
Definition keeping (w : tunedWorkload (Q := Q)) : ResourceRequirements (Q := Q) := Apply (Desired w) (twSpec w) None (twLive w).

(** C20: a recommendation is applied only when it is safe to. The reconciler's
    result is what it would be without any recommendation, unless the record
    belongs to this workload, tuning is neither paused nor switched off, and the
    rollout is not under way. If a running container then gets anything else, the
    project quota admits the change, and while pods cannot be placed neither
    request grows. *)
Theorem recommendation_applied_safely (reads : Reads (Q := Q)) (w : tunedWorkload (Q := Q)) :
  let result := (applyTunedResources reads w).1 in
  result = keeping w \/
  (exists rt rec, rRecord reads = Ok rt /\ controllerUID rt = Some (twUID w) /\
     rPaused reads = false /\ expertMode (rMode reads) = false /\ RolloutPhase w <> Some phaseInFlight /\
     recommendationFor reads w = Some rec /\ result = Apply (Desired w) (twSpec w) (Some rec) (twLive w) /\
     forall live, twLive w = Some live ->
       quotaAllows (rQuota reads) live result (twReplicas w) (SurgePods w) (WithContainerResources (twPodSpec w) result) = true /\
       (RolloutPhase w = Some phaseUnschedulable -> requestsGrow live result = false)).
Proof.
  cbv zeta. unfold applyTunedResources. cbn [fst]. fold (keeping w).
  destruct (recommendationFor reads w) as [rec|] eqn:Hrec; [|left; by destruct (bool_decide _)].
  set (phase := match RolloutPhase w with Some p => p | None => phaseSettled end).
  destruct (bool_decide_reflect (phase = phaseInFlight)) as [|Hflight]; [by left|].
  set (trial := Apply (Desired w) (twSpec w) (Some rec) (twLive w)).
  assert (Hread : exists rt, rRecord reads = Ok rt /\ controllerUID rt = Some (twUID w) /\
    rPaused reads = false /\ expertMode (rMode reads) = false).
  { unfold recommendationFor in Hrec. destruct (rPaused reads); [done|]. destruct (expertMode _); [done|]. cbn [orb] in Hrec.
    destruct (rRecord reads) as [rt|]; [|done]. exists rt. unfold TuningBelongsTo in Hrec.
    destruct (controllerUID rt) as [uid|]; [|done].
    destruct (String.eqb uid (twUID w)) eqn:He; [apply String.eqb_eq in He; by rewrite He|done]. }
  destruct Hread as (rt & H1 & H2 & H3 & H4).
  assert (H5 : RolloutPhase w <> Some phaseInFlight) by (intros Heq; apply Hflight; unfold phase; by rewrite Heq).
  destruct (twLive w) as [live|] eqn:Hlive.
  - destruct (bool_decide (phase = phaseUnschedulable) && requestsGrow live trial) eqn:Hgrow.
    { destruct (negb _); by left. }
    destruct (quotaAllows (rQuota reads) live trial (twReplicas w) (SurgePods w) (WithContainerResources (twPodSpec w) trial)) eqn:Hq;
      cbn [negb]; [|by left].
    right. exists rt, rec. rewrite <- Hlive. split_and!; try done; [by unfold trial; rewrite Hlive|].
    intros l Hl. rewrite Hlive in Hl. injection Hl as <-. split; [done|]. intros Hp.
    apply andb_false_iff in Hgrow as [Hgrow%bool_decide_eq_false|]; [|done]. destruct Hgrow. unfold phase. by rewrite Hp.
  - right. exists rt, rec. split_and!; done.
Qed.

(** The phase decides as the comments of its constructors say. *)
Lemma liveRolloutPhase_spec stopped deploy pods budget now :
  let phase := liveRolloutPhase stopped deploy pods budget now in
  (stopped = true -> phase = phaseInFlight) /\
  (stopped = false -> Rollout.Settled (Some deploy) = true -> phase = phaseSettled) /\
  (stopped = false -> Rollout.Settled (Some deploy) = false -> Rollout.Failed (Some deploy) = true -> pods <> None -> phase <> phaseInFlight).
Proof.
  cbv zeta. unfold liveRolloutPhase. destruct stopped; [done|]. destruct (Rollout.Settled _); [done|].
  split_and!; [done|done|]. intros _ _ -> Hp. destruct pods as [pods|]; [|done].
  destruct (bool_decide_reflect (rolloutPhaseFor (Rollout.Explain deploy pods budget now).1 = phaseInFlight)); by cbn [andb].
Qed.
End TunedProps.
