(* ===== verification/OomRaise.v ===== *)
(** * From an OOM kill to more memory

    The auto-sizer's pass, the tuning record and the reconciler put together: a
    container killed for memory runs again with more of it. *)

From Stdlib Require Import Ascii.
From stdpp Require Import base tactics numbers countable list option strings gmap sorting.
From S2P Require Import Prelude GoStd Calendar Quantity Float64 Capacity Bounds BoundsProps Quota Sizing Tuning SizingDemo SizingProps TuningProps OomProps Tuned.

Local Open Scope string_scope.

Section Raise.
Context {Q : Type} `{QuantityLaws Q}.
Variable Unmarshal : string -> option (list (string * json)).
Variable signature : ResourceRequirements (Q := Q) -> string.
Variable FormatNano : Time -> string.
Variable ParseNano : string -> option Time.

Implicit Types (spec : Spec (Q := Q)) (w : Workload (Q := Q)) (i : Inputs (Q := Q)) (r : ResourceRequirements (Q := Q)).

(** The amount of one byte. *)
Definition byte_unit : Z := 1000 * milli_unit (Q := Q).

Lemma byte_unit_pos : 0 < byte_unit.
Proof. unfold byte_unit. pose proof milli_unit_pos. lia. Qed.

(** A quantity of at most a pebibyte. *)
Definition bytes_sizable (q : Q) : Prop := 0 <= amount q <= 2 ^ 50 * byte_unit.

Lemma bytes_value q : bytes_sizable q -> sizable (QValue q) /\ (QValue q - 1) * byte_unit < amount q <= QValue q * byte_unit.
Proof.
  intros Hq. unfold bytes_sizable in Hq. pose proof byte_unit_pos as Hu. assert (Hv : QValue q = ceil_div (amount q) byte_unit).
  { apply QValue_up. fold byte_unit. unfold int64_max. nia. }
  pose proof (ceil_div_spec (amount q) byte_unit Hu) as Hs. rewrite <- Hv in Hs. split; [|done]. unfold sizable. nia.
Qed.

(** Memory of at least [n] bytes, the limit not below the request. *)
Definition has_memory (p : Pair (Q := Q)) (n cap : Z) : Prop :=
  n * byte_unit <= amount (Request p) /\ amount (Request p) <= amount (Limit p) /\ amount (Limit p) <= cap * byte_unit.

(** An automatic size from a wanted one, under a ceiling. *)
Lemma Resolve_at_least rq lm (wanted fallback : Pair (Q := Q)) (auto : AutoRange (Q := Q)) (n cap : Z) :
  ModeOf rq lm = ModeAutomatic -> 0 < n <= cap -> amount (Ceiling auto) = cap * byte_unit ->
  n * byte_unit <= amount (Request wanted) -> has_memory (Resolve rq lm (Some wanted) fallback auto).1 n cap.
Proof.
  intros Hm Hn Hc Hw. destruct (Resolve_automatic rq lm (Some wanted) fallback auto Hm) as (H1 & H2 & _).
  pose proof byte_unit_pos as Hu. split; [|split; [done|apply Z.le_trans with (amount (Ceiling auto)); [apply H2; nia|lia]]].
  unfold Resolve. rewrite Hm. cbn [fst Request default]. unfold id, withinAuto.
  quantities; nia.
Qed.

Lemma keepLive_other r live name other :
  name <> other -> PairOf (Some (keepLive r live name)) other = PairOf (Some r) other.
Proof.
  intros Hne. unfold keepLive, PairOf, restore, get. cbn [mbind option_bind Requests Limits].
  destruct (Requests r) as [rq|], (Limits r) as [lm|], (Requests live) as [rq'|], (Limits live) as [lm'|];
    cbn [mbind option_bind fmap option_fmap option_map default];
    repeat match goal with |- context [?m !! name] => destruct (m !! name) end; cbn; 
    rewrite ?lookup_insert_ne, ?lookup_delete_ne, ?lookup_empty by done; done.
Qed.

Lemma PairOf_both r name (q l : Q) :
  get (Requests r) name = Some q -> get (Limits r) name = Some l -> PairOf (Some r) name = Some (mkPair q l).
Proof. unfold PairOf. cbn [mbind option_bind]. by intros -> ->. Qed.

Lemma get_at (m : option (gmap string Q)) name (v : Z) :
  QValue (at_name m name) = v -> v <> 0 -> get m name = Some (at_name m name).
Proof. unfold at_name. destruct (get m name); [done|]. cbn [default]. intros <- Hne. by rewrite QValue_zero in Hne. Qed.

(** An evaluation that marks an OOM kill did nothing but raise. *)
Lemma evaluate_marked rc namespace appName (c : Container (Q := Q)) pods profile replicas blockDecrease sustain movable now rc1 work proposed m :
  evaluate rc namespace appName c pods profile replicas blockDecrease sustain movable now = (rc1, work, proposed, Some m) ->
  no_resources (cResources c) = false ->
  rc1 = rc /\ exists e, raise_after_oom rc namespace appName c now = (work, e) /\ proposed = [e].
Proof.
  intros Hev Hset. unfold evaluate in Hev. rewrite Hset in Hev. destruct (_ && (Sub now (newestOOM pods) <? oomActionableWindow)%Z).
  - destruct (raise_after_oom _ _ _ _ _) as [c' e]. injection Hev as <- <- <- _. split; [done|by exists e].
  - exfalso. revert Hev. destruct (withoutSynthetic pods); [done|]. destruct (if movable then _ else _) as [[rc2 c2] [e|]]; [done|].
    destruct (mature _); [done|]. destruct (adjustMemory _ _ _ _ _ _ _ _ _ _) as [r1 em]. by destruct (adjustCPU _ _ _ _ _ _ _ _ _ _).
Qed.

(** Request and limit of a container raised to one nonzero size. *)
Lemma raised_pair (r : ResourceRequirements (Q := Q)) (n : Z) :
  limit_at r ResourceMemory = request_at r ResourceMemory -> QValue (request_at r ResourceMemory) = n -> n <> 0 ->
  PairOf (Some r) ResourceMemory = Some (mkPair (request_at r ResourceMemory) (request_at r ResourceMemory)).
Proof.
  intros Hlm Hval Hn. apply PairOf_both; [by apply (get_at _ _ _ Hval)|].
  assert (Hg : get (Limits r) ResourceMemory = Some (limit_at r ResourceMemory))
    by (apply (get_at _ _ n); [fold (limit_at r ResourceMemory); by rewrite Hlm|done]).
  by rewrite Hg, Hlm.
Qed.

(** The memory of a decision with a mark is that of the answer to the OOM. *)
Lemma decide_sizes_marked rc w profile spec status pods sizing now m :
  let live := cResources (wLive w) in
  let d := (decide_sizes rc w profile spec status pods sizing now).2 in
  dMark d = Some m -> ModeOf (MemoryRequest spec) (MemoryLimit spec) = ModeAutomatic -> no_resources live = false ->
  exists work e pending cooldown ce cc,
    raise_after_oom rc (wNamespace w) (wApp w) (wLive w) now = (work, e) /\
    effective (MemoryRequest spec) (MemoryLimit spec) ResourceMemory live (cResources work) pending cooldown (memory_range rc profile) =
      (memEff d, memChanged d) /\
    dEntries d = keepChangedEntries [e] live ce cc (memEff d) (memChanged d).
Proof.
  cbv zeta. set (live := cResources (wLive w)). intros Hmark Hauto Hset. revert Hmark. unfold decide_sizes. fold live.
  set (cooldown := match DecreaseBlockedUntil status with Some _ => _ | None => _ end).
  destruct (evaluate _ _ _ _ _ _ _ _ _ _ _) as [[[rc1 work] proposed] mark] eqn:Hev. intros Hmark.
  assert (Hmk : mark = Some m).
  { revert Hmark. repeat match goal with |- context [effective ?a ?b ?c ?d ?e ?f ?g ?h] => destruct (effective a b c d e f g h) end.
    destruct (PendingRequests _ _ _) as [[|] [|]]; by cbn. }
  subst mark. clear Hmark. destruct (evaluate_marked _ _ _ _ _ _ _ _ _ _ _ _ _ _ _ Hev Hset) as (-> & e & Hra & ->).
  rewrite (bool_decide_eq_false_2 (Some m = None)) by done. rewrite andb_false_r. set (work' := if CPU _ then _ else _).
  match goal with |- context [effective (CPURequest spec) ?a ?b ?c ?d ?e ?f ?g] => destruct (effective (CPURequest spec) a b c d e f g) as [ce cc] end.
  match goal with |- context [effective (MemoryRequest spec) ?a ?b ?c ?d ?e ?f ?g] => set (pending := e) end.
  assert (Hwork : effective (MemoryRequest spec) (MemoryLimit spec) ResourceMemory live work' pending cooldown (memory_range rc profile) =
    effective (MemoryRequest spec) (MemoryLimit spec) ResourceMemory live (cResources work) pending cooldown (memory_range rc profile))
    by (unfold work', effective; destruct (CPU _); by rewrite ?keepLive_other).
  rewrite Hwork. clear work' Hwork.
  assert (Hheld : (PendingRequests spec (RecommendedUnder status) (Some live)).2 = false)
    by (unfold PendingRequests, changedRequests, changed; destruct (RecommendedUnder status); by rewrite ?Hauto).
  destruct (PendingRequests _ _ _) as [cpuHeld memHeld]. cbn [snd] in Hheld. subst memHeld.
  destruct (effective (MemoryRequest spec) _ _ _ _ _ _ _) as [me mc] eqn:Heff.
  set (cpu := if cpuHeld then _ else _). destruct cpu as [ce' cc']. cbn [snd memChanged memEff dEntries].
  by exists work, e, pending, cooldown, ce', cc'.
Qed.

(** What runs is at most the size an answer is doubled from. *)
Lemma live_at_most (live : ResourceRequirements (Q := Q)) :
  bytes_sizable (request_at live ResourceMemory) -> bytes_sizable (limit_at live ResourceMemory) ->
  amount (Request (default zero_pair (PairOf (Some live) ResourceMemory))) <= size_before live * byte_unit.
Proof.
  intros Hr Hl. destruct (bytes_value _ Hr) as [Hsr Har]. destruct (bytes_value _ Hl) as [Hsl Hal].
  pose proof byte_unit_pos as Hu. pose proof (size_before_sizable live Hsr Hsl) as Hsb. set (b := size_before live) in *.
  assert (Hmax : QValue (request_at live ResourceMemory) <= b /\ QValue (limit_at live ResourceMemory) <= b).
  { unfold b, size_before. destruct (Z.eqb_spec (Z.max (QValue (request_at live ResourceMemory)) (QValue (limit_at live ResourceMemory))) 0); lia. }
  assert (Hmono : forall v, v <= b -> v * byte_unit <= b * byte_unit) by (intros; apply Z.mul_le_mono_nonneg_r; lia).
  pose proof (Hmono _ (proj1 Hmax)) as H1. pose proof (Hmono _ (proj2 Hmax)) as H2.
  assert (H3 : 0 <= b * byte_unit) by (apply Z.mul_nonneg_nonneg; lia).
  unfold PairOf. cbn [mbind option_bind]. clear - Har Hal H1 H2 H3 H0. unfold request_at, limit_at, at_name in *.
  destruct (get (Requests live) ResourceMemory), (get (Limits live) ResourceMemory); cbn in *; rewrite ?amount_zero; lia.
Qed.

(** A proposal above what runs is adopted up to the cap. *)
Lemma effective_raise rc profile rq lm live work pending (cooldown : bool) (q : Q) (b n : Z) :
  ModeOf rq lm = ModeAutomatic -> PairOf (Some work) ResourceMemory = Some (mkPair q q) ->
  amount (Request (default zero_pair (PairOf (Some live) ResourceMemory))) <= b * byte_unit ->
  b < n <= oomCap rc -> 0 <= b -> n * byte_unit <= amount q ->
  let '(p, changed) := effective rq lm ResourceMemory live work pending cooldown (memory_range rc profile) in
  changed = true /\ has_memory p n (oomCap rc).
Proof.
  intros Hm Hpair Hlive Hn Hb Hq. pose proof byte_unit_pos as Hu. unfold effective. rewrite Hpair.
  set (livePair := default zero_pair (PairOf (Some live) ResourceMemory)) in *.
  assert (Hbn : b * byte_unit < n * byte_unit) by (apply Z.mul_lt_mono_pos_r; lia).
  assert (Hne : pairsEqual (mkPair q q) livePair = false).
  { unfold pairsEqual. cbn [Request Limit]. rewrite same_spec, (proj2 (Z.eqb_neq _ _)); [done|]. lia. }
  rewrite Hne. set (wanted := match cooldown with true => _ | false => _ end).
  assert (Hwanted : n * byte_unit <= amount (Request wanted)).
  { unfold wanted. destruct cooldown, pending as [pd|]; cbn [Request]; [|done..]. unfold maxQuantity. quantities. }
  pose proof (Resolve_at_least rq lm wanted livePair (memory_range rc profile) n (oomCap rc) Hm) as Hres.
  pose proof (Resolve_mode rq lm (Some wanted) livePair (memory_range rc profile)) as Hmode.
  destruct (Resolve _ _ _ _ _) as [p mode]. cbn [fst snd] in *. rewrite Hmode, Hm. rewrite bool_decide_eq_true_2 by (by left). cbn [andb].
  assert (Hp : has_memory p n (oomCap rc)).
  { apply Hres; [lia| |done]. unfold memory_range. cbn [Ceiling]. by rewrite amount_Binary. }
  split; [|done]. apply negb_true_iff. unfold pairsEqual. rewrite same_spec, (proj2 (Z.eqb_neq _ _)); [done|]. destruct Hp as (Hp & _). lia.
Qed.

(** The decision after an OOM kill, memory being automatic. *)
Lemma decide_sizes_raise rc w profile spec status pods sizing now m :
  let live := cResources (wLive w) in
  let b := size_before live in
  bytes_sizable (request_at live ResourceMemory) -> bytes_sizable (limit_at live ResourceMemory) ->
  sizable (oomCap rc) -> b < oomCap rc -> ModeOf (MemoryRequest spec) (MemoryLimit spec) = ModeAutomatic ->
  no_resources live = false ->
  dMark (decide_sizes rc w profile spec status pods sizing now).2 = Some m ->
  let d := (decide_sizes rc w profile spec status pods sizing now).2 in
  memChanged d = true /\ has_memory (memEff d) (Z.min (2 * b) (oomCap rc)) (oomCap rc).
Proof.
  cbv zeta. set (live := cResources (wLive w)). set (b := size_before live). intros Hr Hl Hcap Hb Hm Hset Hmark.
  destruct (bytes_value _ Hr) as [Hsr Har]. destruct (bytes_value _ Hl) as [Hsl Hal].
  destruct (decide_sizes_marked _ _ _ _ _ _ _ _ _ Hmark Hm Hset) as (work & e & pending & cooldown & ce & cc & Hra & Heff & _).
  pose proof (raise_after_oom_spec rc (wNamespace w) (wApp w) (wLive w) now Hsr Hsl Hcap) as Hraise. rewrite Hra in Hraise.
  destruct Hraise as (_ & (_ & _ & Hraise) & _). fold live b in Hraise, Heff.
  pose proof (size_before_sizable live Hsr Hsl) as Hsb. fold b in Hsb.
  pose proof (up64Mi_bounds (Z.min (2 * b) (oomCap rc))) as Hup. fold (oom_answer rc b) in Hup.
  destruct Hraise as (Hlim & Hval & Hamt); [lia|]. fold byte_unit in Hamt.
  pose proof (effective_raise rc profile (MemoryRequest spec) (MemoryLimit spec) live (cResources work) pending cooldown
    (request_at (cResources work) ResourceMemory) b (Z.min (2 * b) (oomCap rc)) Hm) as Hraised.
  rewrite Heff in Hraised. apply Hraised; [|by apply live_at_most|lia|lia|rewrite Hamt; apply Z.mul_le_mono_nonneg_r; pose proof byte_unit_pos; lia].
  apply (raised_pair _ (oom_answer rc b)); [done|done|lia].
Qed.

(** ** The record. *)

Lemma tuned_eqb_eq a b : tuned_eqb a b = true -> a = b.
Proof.
  unfold tuned_eqb. rewrite !andb_true_iff, !String.eqb_eq. destruct a, b. cbn. by intros [[[-> ->] ->] ->].
Qed.

(** Without faults and without a quota the decision reaches the record. *)
Lemma settle_saved rc (api : Records) w i owner spec rt (isNew : bool) alert (d : Decision (Q := Q)) :
  let key := (wNamespace w, tuningName owner) in
  controllerUID rt = Some (oUID owner) ->
  (if isNew then api !! key = None else api !! key = Some rt) -> iQuota i = Err NotFound ->
  let next := next_status FormatNano spec (rtStatus rt) (iSizing i) (wLive w) d (iNow i) in
  exists rt', (settle FormatNano rc api w i no_faults owner spec rt isNew alert d).1.2 !! key = Some rt' /\
    controllerUID rt' = Some (oUID owner) /\ Recommendation_ (rtStatus rt') = Recommendation_ next /\
    MemoryCause (rtStatus rt') = MemoryCause next.
Proof.
  cbv zeta. set (key := (wNamespace w, tuningName owner)). intros Hu Hload Hquota. unfold settle. rewrite Hquota.
  set (next := next_status _ _ _ _ _ _ _). fold key.
  destruct (applyQuotaCeiling _ _ _ _ _ _ _ _ _ _ _) as [[rc1 kept] blocked] eqn:Hap.
  assert (Hb : blocked = false).
  { unfold applyQuotaCeiling in Hap. destruct (dEntries d); [by injection Hap|]. by destruct (negb _); injection Hap. }
  subst blocked. destruct (isNew || negb (statusEqual (rtStatus rt) next)) eqn:Hw.
  - unfold saveTuning, no_faults. cbn [creates updates took_effect succeeded].
    assert (Hsaved : forall api' : Records, api' !! key = Some (mkTuning (Some (oUID owner)) (stored next)) ->
      exists rt', api' !! key = Some rt' /\ controllerUID rt' = Some (oUID owner) /\
        Recommendation_ (rtStatus rt') = Recommendation_ next /\ MemoryCause (rtStatus rt') = MemoryCause next)
      by (intros api' Hk; eexists; split; [exact Hk|done]).
    destruct isNew; [rewrite Hload, lookup_insert_eq|rewrite Hload]; cbn [negb fst snd controllerUID rtStatus]; apply Hsaved;
      by rewrite lookup_insert_eq, Hu.
  - apply orb_false_iff in Hw as [-> Hw%negb_false_iff]. cbn [negb fst snd]. exists rt. split; [done|]. split; [done|].
    unfold statusEqual in Hw. rewrite !andb_true_iff in Hw. destruct Hw as [[[[Hr%tuned_eqb_eq Hc%String.eqb_eq] _] _] _]. done.
Qed.

(** ** The container. *)

Lemma withinAuto_free (v : Q) : 0 <= amount v -> withinAuto v no_range = v.
Proof. intros Hv. apply (withinAuto_spec v no_range); unfold no_range; cbn [Floor Ceiling]; rewrite amount_zero; [done|by left]. Qed.

(** The reconciler gives automatic memory the recommended size. *)
Lemma Apply_memory desired spec rec live (p : Pair (Q := Q)) :
  ModeOf (MemoryRequest spec) (MemoryLimit spec) = ModeAutomatic ->
  recommendedPair (tMemoryRequest rec) (tMemoryLimit rec) = Some p ->
  0 <= amount (Request p) <= amount (Limit p) ->
  let r := Apply desired spec (Some rec) live in
  request_at r ResourceMemory = Request p /\ limit_at r ResourceMemory = Limit p.
Proof.
  intros Hm Hp Hle. cbv zeta. unfold Apply. cbn [mbind option_bind]. rewrite Hp. set (dc := applyDimension _ ResourceCPU _ _ _ _).
  destruct (applyDimension_spec dc ResourceMemory (MemoryRequest spec) (MemoryLimit spec) (Some p) live) as [(_ & _ & ? & _)|(p' & Hp' & _ & ->)]; [done|].
  unfold request_at, limit_at, at_name, get. cbn [Requests Limits mbind option_bind]. rewrite !lookup_insert_eq. cbn.
  assert (Heq : p' = p); [|by rewrite Heq].
  rewrite Hp'. unfold Resolve. rewrite Hm. cbn [fst default]. unfold id.
  assert (Hf : forLimit (Q := Q) no_range = no_range).
  { unfold forLimit, no_range. cbn [LimitFloor Floor]. by destruct (above _ _). }
  rewrite Hf, !withinAuto_free by lia. rewrite below_spec, (proj2 (Z.ltb_ge _ _)) by lia. by destruct p.
Qed.

Lemma recommendedPair_texts (p : Pair (Q := Q)) :
  exists p', recommendedPair (QString (Request p)) (QString (Limit p)) = Some p' /\
    amount (Request p') = amount (Request p) /\ amount (Limit p') = amount (Limit p).
Proof.
  unfold recommendedPair. destruct (Parse_String (Request p)) as (a & Ha & Haa & _). destruct (Parse_String (Limit p)) as (b & Hb & Hba & _).
  rewrite !(proj2 (String.eqb_neq _ _)) by apply QString_nonempty. rewrite Ha, Hb. cbn. eexists. split; [reflexivity|]. done.
Qed.

(** The decision of a pass with a mark, when there is room below the cap. *)
Lemma decide_pass_raise rc (api : Records) w i faults owner spec api1 rc1 rt isNew alert d m :
  decide_pass signature FormatNano ParseNano rc api w i faults owner spec = (api1, Some (rc1, rt, isNew, alert, d)) ->
  dMark d = Some m -> ModeOf (MemoryRequest spec) (MemoryLimit spec) = ModeAutomatic ->
  no_resources (cResources (wLive w)) = false ->
  bytes_sizable (request_at (cResources (wLive w)) ResourceMemory) ->
  bytes_sizable (limit_at (cResources (wLive w)) ResourceMemory) ->
  let b := size_before (cResources (wLive w)) in
  sizable (oomCap rc) -> b < oomCap rc ->
  memChanged d = true /\ has_memory (memEff d) (Z.min (2 * b) (oomCap rc)) (oomCap rc).
Proof.
  cbv zeta. intros Hpass Hmark Hauto Hset Hrequest Hlimit Hcap Hroom.
  unfold decide_pass in Hpass. destruct (loadTuning _ _ _ _) as [a0 [[r0 n0]|]]; [|done].
  destruct (prepare _ _ _ _ _ _ _ _ _) as [[rc0 alert0] pods] eqn:Hprep.
  pose proof (prepare_cap signature FormatNano ParseNano rc w i owner spec (rtStatus r0)) as Hc0. rewrite Hprep in Hc0. cbn [fst] in Hc0.
  assert (Hcap0 : oomCap rc0 = oomCap rc) by (unfold oomCap; by rewrite Hc0).
  pose proof (decide_sizes_raise rc0 w (profile_of (wLabels w) owner) spec (rtStatus r0) pods (iSizing i) (iNow i) m Hrequest Hlimit) as Hd.
  cbv zeta in Hd. rewrite Hcap0 in Hd.
  destruct (decide_sizes _ _ _ _ _ _ _ _) as [rc' d']. injection Hpass as <- <- <- <- <- <-. by apply Hd.
Qed.

(** What a reconciler reads from the status of such a pass, whatever an
    autoscaler tracks and whichever requests changed since. *)
Lemma raised_texts spec status sizing (live : Container (Q := Q)) d now m tracked under :
  let next := next_status FormatNano spec status sizing live d now in
  dMark d = Some m -> memChanged d = true -> ModeOf (MemoryRequest spec) (MemoryLimit spec) = ModeAutomatic ->
  forall read, MemoryCause read = MemoryCause next -> Recommendation_ read = Recommendation_ next ->
  tuned_of MemoryDimension (WithChangedRequests (Recommendation tracked read) spec under) =
    (QString (Request (memEff d)), QString (Limit (memEff d))).
Proof.
  cbv zeta. intros Hmark Hchanged Hauto read Hcause Hrec.
  assert (Hc : MemoryCause read = MemoryCauseOOMKill).
  { rewrite Hcause. unfold next_status. cbn [MemoryCause]. rewrite Hmark, Hchanged. by rewrite bool_decide_eq_false_2. }
  transitivity (tuned_of MemoryDimension (Recommendation tracked read)).
  { unfold WithChangedRequests, changedRequests. destruct under as [u|]; [|done].
    assert (Hch : forall text, changed (MemoryRequest spec) (MemoryLimit spec) text = false) by (intros; unfold changed; by rewrite Hauto).
    by rewrite Hch. }
  unfold Recommendation at 1. rewrite Hc, String.eqb_refl, andb_false_r. cbn [tuned_of tMemoryRequest tMemoryLimit].
  rewrite Hrec. unfold next_status. cbn [Recommendation_]. rewrite Hmark, Hchanged. rewrite bool_decide_eq_false_2 by done. cbn [negb andb].
  unfold Recommendation. cbn [MemoryCause Recommendation_]. rewrite String.eqb_refl, andb_false_r. cbn [tMemoryRequest tMemoryLimit recommendation].
  unfold recommendation. cbn [tMemoryRequest tMemoryLimit]. unfold sized. rewrite Hauto. by rewrite bool_decide_eq_true_2 by (by left).
Qed.

(** With its own record, tuning on, a rollout that is not in the way and no
    quota, a reconciler applies the recommendation. *)
Lemma applied_unhindered (tw : tunedWorkload (Q := Q)) (reads : Reads (Q := Q)) rt :
  controllerUID rt = Some (twUID tw) -> RolloutPhase tw <> Some phaseInFlight -> RolloutPhase tw <> Some phaseUnschedulable ->
  rRecord reads = Ok rt -> rPaused reads = false -> expertMode (rMode reads) = false -> rQuota reads = Err NotFound ->
  (applyTunedResources reads tw).1 =
    Apply (Desired tw) (twSpec tw)
      (Some (WithChangedRequests (Recommendation (twTracked tw) (rtStatus rt)) (twSpec tw) (RecommendedUnder (rtStatus rt)))) (twLive tw).
Proof.
  intros Hu Hph1 Hph2 Hr1 Hr2 Hr3 Hr4. unfold applyTunedResources, recommendationFor. rewrite Hr1, Hr2, Hr3. cbn [orb fst].
  unfold TuningBelongsTo. rewrite Hu, String.eqb_refl. cbn [negb].
  destruct (RolloutPhase tw) as [[]|]; try done; rewrite Hr4; cbn [quotaAllows negb]; by destruct (twLive tw).
Qed.

(** The cases in which the reconciler withholds every recommendation. *)
Lemma withheld_kept (tw : tunedWorkload (Q := Q)) (reads : Reads (Q := Q)) :
  rPaused reads = true \/ expertMode (rMode reads) = true \/ RolloutPhase tw = Some phaseInFlight ->
  (applyTunedResources reads tw).1 = Apply (Desired tw) (twSpec tw) None (twLive tw).
Proof.
  intros Hw. unfold applyTunedResources. cbn [fst]. destruct (recommendationFor reads tw) as [rec|] eqn:Hr; [|by destruct (RolloutPhase tw), (twLive tw)].
  destruct Hw as [Hw|[Hw| ->]]; [| |done]; unfold recommendationFor in Hr; by rewrite Hw, ?orb_true_r in Hr.
Qed.

(** Where pods cannot be scheduled no request grows. *)
Lemma unschedulable_kept (tw : tunedWorkload (Q := Q)) (reads : Reads (Q := Q)) live :
  RolloutPhase tw = Some phaseUnschedulable -> twLive tw = Some live ->
  let got := (applyTunedResources reads tw).1 in
  got = Apply (Desired tw) (twSpec tw) None (twLive tw) \/ requestsGrow live got = false.
Proof.
  intros Hp Hl. cbv zeta. unfold applyTunedResources. cbn [fst]. destruct (recommendationFor reads tw) as [rec|]; [|by left].
  rewrite Hp, Hl. cbn [negb andb]. rewrite bool_decide_eq_false_2, bool_decide_eq_true_2 by done. cbn [andb].
  destruct (requestsGrow live (Apply _ _ (Some rec) _)) eqn:Hg; destruct (negb _); auto.
Qed.

(** C17: a container killed for memory gets more of it. When memory is Kipper's to
    size, the container has resources, its sizes and the cap are at most a
    pebibyte, the cap is above its size, no quota stands and no call fails, then a
    pass that takes an OOM kill for new writes a record from which a reconciler of
    the same owner and spec makes a memory request of at least twice the size, or of
    the cap if that is less, and a limit at least as high and not above the cap: in
    both cases more than the container had, whatever an autoscaler reads. It does so
    as soon as tuning is neither paused nor off by the expert mode, no rollout is in
    flight and pods can be scheduled. Until then it waits: while paused, in expert
    mode or in flight it applies no recommendation, and while pods cannot be
    scheduled it lets no request grow by one. *)
Theorem oom_ends_in_more_memory rc (api : Records) w i owner spec api1 rc1 rt isNew alert d m
    (tw : tunedWorkload (Q := Q)) (reads : Reads (Q := Q)) (rt' : ResourceTuning)
    (Howner : ownerOf (wOwner w) = Some owner) (Hspec : ownerSpec Unmarshal (iOwner i) = Some spec)
    (Hpass : decide_pass signature FormatNano ParseNano rc api w i no_faults owner spec = (api1, Some (rc1, rt, isNew, alert, d)))
    (Hmark : dMark d = Some m) (Hauto : ModeOf (MemoryRequest spec) (MemoryLimit spec) = ModeAutomatic)
    (Hset : no_resources (cResources (wLive w)) = false)
    (Hrequest : bytes_sizable (request_at (cResources (wLive w)) ResourceMemory))
    (Hlimit : bytes_sizable (limit_at (cResources (wLive w)) ResourceMemory))
    (Hcap : sizable (oomCap rc)) (Hroom : size_before (cResources (wLive w)) < oomCap rc)
    (Hquota : iQuota i = Err NotFound)
    (Hrecord : (tuneWorkload Unmarshal signature FormatNano ParseNano rc api w i no_faults).1.2 !! (wNamespace w, tuningName owner) = Some rt')
    (Htw : twUID tw = oUID owner /\ twSpec tw = spec) (Hreads : rRecord reads = Ok rt' /\ rQuota reads = Err NotFound) :
  let b := size_before (cResources (wLive w)) in
  let got := (applyTunedResources reads tw).1 in
  let kept := Apply (Desired tw) spec None (twLive tw) in
  (rPaused reads = false -> expertMode (rMode reads) = false ->
   RolloutPhase tw <> Some phaseInFlight -> RolloutPhase tw <> Some phaseUnschedulable ->
   b < Z.min (2 * b) (oomCap rc) <= QValue (request_at got ResourceMemory) /\
   amount (request_at got ResourceMemory) <= amount (limit_at got ResourceMemory) <= oomCap rc * byte_unit) /\
  (rPaused reads = true \/ expertMode (rMode reads) = true \/ RolloutPhase tw = Some phaseInFlight -> got = kept) /\
  (RolloutPhase tw = Some phaseUnschedulable -> forall live, twLive tw = Some live -> got = kept \/ requestsGrow live got = false).
Proof.
  destruct Htw as [Htu Hts]. destruct Hreads as [Hr1 Hr4].
  split; [|rewrite <- Hts; split; [by apply withheld_kept|intros; by apply unschedulable_kept]]. intros Hr2 Hr3 Hph1 Hph2. revert Hmark Hroom.
  cbv zeta. intros Hmark Hroom. destruct (decide_pass_raise _ _ _ _ _ _ _ _ _ _ _ _ _ _ Hpass Hmark Hauto Hset Hrequest Hlimit Hcap Hroom) as [Hchanged Hmem].
  set (b := size_before (cResources (wLive w))) in *.
  destruct (bytes_value _ Hrequest) as [Hsr _]. destruct (bytes_value _ Hlimit) as [Hsl _].
  pose proof (size_before_sizable _ Hsr Hsl) as Hsb. fold b in Hsb. pose proof byte_unit_pos as Hu.
  pose proof (decide_pass_spec signature FormatNano ParseNano rc api w i no_faults owner spec) as Hd. cbv zeta in Hd. rewrite Hpass in Hd.
  destruct Hd as (Hapi & Huid & Hload & _).
  destruct (settle_saved rc1 api1 w i owner spec rt isNew alert d Huid) as (rt1 & Hrt1 & Hu1 & Hrec1 & Hcause1);
    [destruct isNew; [apply Hload|by destruct Hload as [-> ?]]|done|].
  unfold tuneWorkload in Hrecord. rewrite Howner, Hspec, Hpass in Hrecord. rewrite Hrt1 in Hrecord. injection Hrecord as <-.
  rewrite (applied_unhindered tw reads rt1), Hts by (done || by rewrite Htu).
  pose proof (raised_texts spec _ _ _ d _ m (twTracked tw) (RecommendedUnder (rtStatus rt1)) Hmark Hchanged Hauto (rtStatus rt1) Hcause1 Hrec1) as Hrec.
  set (rec := WithChangedRequests _ _ _) in *. cbn [tuned_of] in Hrec. injection Hrec as Hrq Hrl.
  destruct (recommendedPair_texts (memEff d)) as (p & Hp & Hpr & Hpl). rewrite <- Hrq, <- Hrl in Hp.
  destruct Hmem as (Hm1 & Hm2 & Hm3).
  assert (Hpos : 0 <= Z.min (2 * b) (oomCap rc) * byte_unit) by (apply Z.mul_nonneg_nonneg; lia).
  destruct (Apply_memory (Desired tw) spec rec (twLive tw) p Hauto Hp) as [-> ->]; [lia|].
  split; [split; [lia|]|lia].
  assert (Hcb : oomCap rc * byte_unit <= 2 ^ 50 * byte_unit) by (apply Z.mul_le_mono_nonneg_r; unfold sizable in Hcap; lia).
  destruct (bytes_value (Request p)) as [_ Hv]; [unfold bytes_sizable; lia|].
  apply (Z.mul_le_mono_pos_r _ _ byte_unit Hu). lia.
Qed.
End Raise.

(** ** Witness. *)

(** The reconciler of the killed service, for the record it reads. *)
Definition demo_tw : tunedWorkload (Q := Milli) :=
  mkTunedWorkload "u1" demo_spec (cResources demo_container) (Some (cResources demo_container)) 1 0 None None (mkTracked false false).

Lemma oom_ends_in_more_memory_witness :
  match (demo_tuned NewResourceController ∅ no_faults).1.2 !! ("prod", "service-db") with
  | Some rt' =>
      let got := (applyTunedResources (mkReads false None (Ok rt') (Err NotFound)) demo_tw).1 in
      2 ^ 30 < QValue (request_at got ResourceMemory)
  | None => False
  end.
Proof.
  destruct (demo_pass NewResourceController ∅ no_faults) as [api1 [[[[[rc1 rt] isNew] alert] d]|]] eqn:Hd;
    [|exfalso; assert (Hs : bool_decide (is_Some (demo_pass NewResourceController ∅ no_faults).2) = true) by (vm_compute; reflexivity);
      rewrite Hd in Hs; discriminate Hs].
  assert (Hm : match (demo_pass NewResourceController ∅ no_faults).2 with Some (_, _, _, _, d) => dMark d | None => None end = Some demo_mark)
    by (vm_compute; reflexivity).
  rewrite Hd in Hm. cbn [snd] in Hm.
  destruct ((demo_tuned NewResourceController ∅ no_faults).1.2 !! ("prod", "service-db")) as [rt'|] eqn:Hk;
    [|assert (Hs : bool_decide (is_Some ((demo_tuned NewResourceController ∅ no_faults).1.2 !! ("prod", "service-db"))) = true)
        by (vm_compute; reflexivity); rewrite Hk in Hs; discriminate Hs].
  cbv zeta.
  destruct (oom_ends_in_more_memory demo_unmarshal demo_signature demo_format demo_parse NewResourceController ∅ demo_workload
    (demo_inputs [killed_pod] demo_now) demo_owner demo_spec api1 rc1 rt isNew alert d demo_mark demo_tw
    (mkReads false None (Ok rt') (Err NotFound)) rt' eq_refl demo_ownerSpec Hd Hm eq_refl eq_refl) as [Hraise _];
    [vm_compute; split; discriminate|vm_compute; split; discriminate|vm_compute; split; discriminate|vm_compute; reflexivity|reflexivity
    |exact Hk|by split|by split|].
  destruct Hraise as [[_ H2] _]; [reflexivity|reflexivity|discriminate|discriminate|].
  eapply Z.lt_le_trans; [|exact H2]. vm_compute. reflexivity.
Defined.
