(* ===== verification/OomCap.v ===== *)
(** * An OOM kill at the memory cap

    The cap is half of the largest node, in bytes, while sizes are rounded up to
    64Mi: the alert for a container that cannot grow depends on the two meeting. *)

From Stdlib Require Import Ascii.
From stdpp Require Import base tactics numbers countable list option strings gmap sorting.
From S2P Require Import Prelude GoStd Calendar Quantity Float64 Capacity Bounds BoundsProps Quota Sizing Tuning SizingDemo SizingProps TuningProps OomProps OomRaise.

Local Open Scope string_scope.

Section AtCap.
Context {Q : Type} `{QuantityLaws Q}.

Implicit Types (spec : Spec (Q := Q)) (w : Workload (Q := Q)).

(** A wanted size above the ceiling ends at the ceiling. *)
Lemma Resolve_at_ceiling rq lm (wanted fallback : Pair (Q := Q)) (auto : AutoRange (Q := Q)) :
  ModeOf rq lm = ModeAutomatic -> 0 < amount (Ceiling auto) ->
  amount (Ceiling auto) <= amount (Request wanted) -> amount (Ceiling auto) <= amount (Limit wanted) ->
  let p := (Resolve rq lm (Some wanted) fallback auto).1 in
  amount (Request p) = amount (Ceiling auto) /\ amount (Limit p) = amount (Ceiling auto).
Proof.
  intros Hm Hc Hr Hl. cbv zeta. unfold Resolve. rewrite Hm. cbn [fst default]. unfold id.
  assert (Hw : forall v a, Ceiling a = Ceiling auto -> amount (Ceiling auto) <= amount v -> amount (withinAuto v a) = amount (Ceiling auto)).
  { intros v a Ha Hv. unfold withinAuto. rewrite Ha. quantities. }
  cbn [Request Limit]. set (l := withinAuto (Limit wanted) (forLimit auto)).
  assert (Hla : amount l = amount (Ceiling auto)) by (apply Hw; [unfold forLimit; by destruct (above _ _)|done]).
  rewrite (Hw (Request wanted) auto) by done. split; [done|]. by destruct (below l _); rewrite ?Hw.
Qed.

(** A container at the ceiling stays as it is when nothing lower is proposed. *)
Lemma effective_at_ceiling rq lm name live work pending (cooldown : bool) (auto : AutoRange (Q := Q)) (p0 : Pair (Q := Q)) :
  ModeOf rq lm = ModeAutomatic -> PairOf (Some live) name = Some p0 -> 0 < amount (Ceiling auto) ->
  amount (Request p0) = amount (Ceiling auto) -> amount (Limit p0) = amount (Ceiling auto) ->
  (forall p, PairOf (Some work) name = Some p -> amount (Ceiling auto) <= amount (Request p) /\ amount (Ceiling auto) <= amount (Limit p)) ->
  (effective rq lm name live work pending cooldown auto).2 = false.
Proof.
  intros Hm Hlive Hpos Hr Hl Hwork. unfold effective. rewrite Hlive. cbn [default]. unfold id.
  destruct (PairOf (Some work) name) as [p|]; [|done]. destruct (Hwork p eq_refl) as [H1 H2].
  destruct (pairsEqual p p0); [done|]. set (wanted := match cooldown with true => _ | false => _ end).
  assert (Hw : amount (Ceiling auto) <= amount (Request wanted) /\ amount (Ceiling auto) <= amount (Limit wanted)).
  { unfold wanted. destruct cooldown, pending as [pd|]; cbn [Request Limit]; try done. unfold maxQuantity. quantities. }
  pose proof (Resolve_at_ceiling rq lm wanted p0 auto Hm Hpos (proj1 Hw) (proj2 Hw)) as Hres. cbv zeta in Hres.
  destruct (Resolve _ _ _ _ _) as [res mode]. cbn [fst snd] in *. destruct Hres as [Hp1 Hp2].
  unfold pairsEqual. by rewrite !same_spec, Hp1, Hp2, Hr, Hl, !Z.eqb_refl, andb_false_r.
Qed.

(** A container that has the cap as request and limit. *)
Definition at_cap (rc : ResourceController) (live : ResourceRequirements (Q := Q)) : Prop :=
  amount (request_at live ResourceMemory) = oomCap rc * byte_unit /\ amount (limit_at live ResourceMemory) = oomCap rc * byte_unit.

Lemma at_cap_sizes rc live :
  at_cap rc live -> 0 < oomCap rc <= 2 ^ 50 ->
  sizable (QValue (request_at live ResourceMemory)) /\ sizable (QValue (limit_at live ResourceMemory)) /\
  size_before live = oomCap rc /\
  PairOf (Some live) ResourceMemory = Some (mkPair (request_at live ResourceMemory) (limit_at live ResourceMemory)).
Proof.
  intros [Hr Hl] Hcap. pose proof (byte_unit_pos (Q := Q)) as Hu.
  destruct (bytes_value (request_at live ResourceMemory)) as [Hsr Har]; [unfold bytes_sizable; nia|].
  destruct (bytes_value (limit_at live ResourceMemory)) as [Hsl Hal]; [unfold bytes_sizable; nia|].
  assert (Hqr : QValue (request_at live ResourceMemory) = oomCap rc) by nia.
  assert (Hql : QValue (limit_at live ResourceMemory) = oomCap rc) by nia.
  split_and!; [done|done| |].
  - unfold size_before. rewrite Hqr, Hql, Z.max_id. by rewrite (proj2 (Z.eqb_neq _ _)) by lia.
  - apply PairOf_both; [apply (get_at _ _ _ Hqr); lia|apply (get_at _ _ _ Hql); lia].
Qed.

(** The answer to an OOM kill at the cap is the cap, or its multiple above. *)
Lemma raise_at_cap rc (namespace appName : string) (c : Container (Q := Q)) now :
  at_cap rc (cResources c) -> 0 < oomCap rc <= 2 ^ 50 ->
  let '(c', e) := raise_after_oom rc namespace appName c now in
  (forall p, PairOf (Some (cResources c')) ResourceMemory = Some p ->
     oomCap rc * byte_unit <= amount (Request p) /\ oomCap rc * byte_unit <= amount (Limit p)) /\
  Action e = if bool_decide (oomCap rc mod (64 * 1024 * 1024) = 0) then "OOMKilled at memory cap" else "doubled memory (OOMKilled)".
Proof.
  intros Hat Hcap. destruct (at_cap_sizes _ _ Hat Hcap) as (Hsr & Hsl & Hb & Hlive). pose proof (byte_unit_pos (Q := Q)) as Hu.
  pose proof (raise_after_oom_spec rc namespace appName c now Hsr Hsl ltac:(unfold sizable; lia)) as Hraise.
  destruct (raise_after_oom _ _ _ _ _) as [c' e]. destruct Hraise as (_ & (_ & Hstay & Hraise) & Haction).
  assert (Hans : oom_answer rc (oomCap rc) = up64Mi (oomCap rc)) by (unfold oom_answer; f_equal; lia).
  rewrite Hb, Hans in Hstay, Hraise, Haction. pose proof (up64Mi_bounds (oomCap rc)) as Hupb.
  assert (Hup : up64Mi (oomCap rc) <= oomCap rc <-> oomCap rc mod (64 * 1024 * 1024) = 0).
  { fold mebi64. split.
    - intros Hle. assert (up64Mi (oomCap rc) = oomCap rc) as <- by lia. apply Z.mod_mul. done.
    - intros Hmod. apply Z.div_exact in Hmod; [|done]. rewrite Hmod, Z.mul_comm at 1. rewrite up64Mi_multiple. lia. }
  split.
  - intros p Hp. destruct (Z.le_gt_cases (up64Mi (oomCap rc)) (oomCap rc)) as [Hle|Hgt].
    + destruct (Hstay Hle) as [H1 H2]. unfold PairOf in Hp, Hlive. cbn [mbind option_bind] in Hp, Hlive. rewrite H1, H2, Hlive in Hp.
      injection Hp as <-. cbn [Request Limit]. destruct Hat as [-> ->]. lia.
    + destruct (Hraise Hgt) as (Hlm & Hval & Hamt). fold byte_unit in Hamt. set (q := request_at (cResources c') ResourceMemory) in *.
      assert (Hpair : PairOf (Some (cResources c')) ResourceMemory = Some (mkPair q q)) by (apply (raised_pair _ _ Hlm Hval); lia).
      assert (Hgt2 : oomCap rc * byte_unit < amount q) by (rewrite Hamt; apply Z.mul_lt_mono_pos_r; lia).
      rewrite Hpair in Hp. injection Hp as <-. cbn [Request Limit]. lia.
  - rewrite Haction. destruct (Z.leb_spec (up64Mi (oomCap rc)) (oomCap rc)) as [Hle|Hgt].
    + by rewrite bool_decide_eq_true_2 by (by apply Hup).
    + rewrite bool_decide_eq_false_2; [done|]. rewrite <- Hup. lia.
Qed.

(** An OOM kill at the memory cap is reported only if the cap is a multiple
    of 64Mi. For a container that already has the cap as request and limit, as the
    auto-sizer leaves it, a new OOM kill cannot raise anything; the entry "at
    memory cap" that tells the operator is there exactly when rounding the cap up
    to 64Mi does not change it. Otherwise the pass proposes the rounded cap, the
    ceiling cuts it back to the present size, and the entry is dropped as no
    change: nobody is told, though the kill is marked as handled. *)
Theorem oom_at_cap_reporting (rc : ResourceController) w (profile : string) spec status pods sizing now m
    (Hrequest : amount (request_at (cResources (wLive w)) ResourceMemory) = oomCap rc * byte_unit)
    (Hlimit : amount (limit_at (cResources (wLive w)) ResourceMemory) = oomCap rc * byte_unit)
    (Hcap : 0 < oomCap rc <= 2 ^ 50) (Hauto : ModeOf (MemoryRequest spec) (MemoryLimit spec) = ModeAutomatic)
    (Hset : no_resources (cResources (wLive w)) = false)
    (Hmark : dMark (decide_sizes rc w profile spec status pods sizing now).2 = Some m) :
  let d := (decide_sizes rc w profile spec status pods sizing now).2 in
  memChanged d = false /\
  (oomCap rc mod (64 * 1024 * 1024) = 0 -> exists e, dEntries d = [e] /\ Action e = "OOMKilled at memory cap") /\
  (oomCap rc mod (64 * 1024 * 1024) <> 0 -> dEntries d = []).
Proof.
  cbv zeta. set (live := cResources (wLive w)) in *. assert (Hat : at_cap rc live) by (by split).
  destruct (at_cap_sizes _ _ Hat Hcap) as (_ & _ & _ & Hlive). pose proof (byte_unit_pos (Q := Q)) as Hu.
  destruct (decide_sizes_marked _ _ _ _ _ _ _ _ _ Hmark Hauto Hset) as (work & e & pending & cooldown & ce & cc & Hra & Heff & Hentries).
  set (d := (decide_sizes _ _ _ _ _ _ _ _).2) in *. fold live in Heff, Hentries.
  pose proof (raise_at_cap rc (wNamespace w) (wApp w) (wLive w) now Hat Hcap) as Hraise. rewrite Hra in Hraise. destruct Hraise as [Hraise Haction].
  assert (Hceil : amount (Ceiling (memory_range (Q := Q) rc profile)) = oomCap rc * byte_unit) by (unfold memory_range; cbn [Ceiling]; by rewrite amount_Binary).
  assert (Hchanged : memChanged d = false).
  { change (memChanged d) with ((memEff d, memChanged d).2). rewrite <- Heff.
    apply (effective_at_ceiling _ _ _ _ _ _ _ _ _ Hauto Hlive); cbn [Request Limit]; rewrite ?Hceil; [nia|apply Hat|apply Hat|exact Hraise]. }
  split; [done|]. rewrite Hentries, Hchanged. unfold keepChangedEntries. cbn [omap list_omap]. unfold keep_entry. rewrite Haction.
  split; intros Hmod; [rewrite bool_decide_eq_true_2 by done; exists e; by rewrite Haction, bool_decide_eq_true_2|by rewrite bool_decide_eq_false_2].
Qed.
End AtCap.

(** ** Witness: a cap of half of a node of 16 GB, which is no multiple of 64Mi. *)

Definition odd_cap : Z := 8 * 1000 * 1000 * 1000.

Definition capped_controller : ResourceController := set_cap NewResourceController odd_cap.

Definition capped_amounts : option (gmap string Milli) :=
  Some (<[ResourceMemory := BinaryQuantity odd_cap]> {[ResourceCPU := DecimalMilli 200]}).

Definition capped_workload : Workload (Q := Milli) :=
  mkWorkload "prod" "db" (Some (mkOwnerRef "kipper.run/v1alpha1" "Service" "db" "u1")) ∅ "db"
    (mkContainer "main" (mkRequirements capped_amounts capped_amounts)) 1 0 None 0.

Lemma oom_at_cap_reporting_witness :
  let d := (decide_sizes capped_controller capped_workload "standard" demo_spec no_status [killed_pod]
              (mkSizing false (mkTracked false false)) demo_now).2 in
  dMark d = Some demo_mark /\ memChanged d = false /\ dEntries d = [].
Proof.
  assert (Hm : dMark (decide_sizes capped_controller capped_workload "standard" demo_spec no_status [killed_pod]
              (mkSizing false (mkTracked false false)) demo_now).2 = Some demo_mark) by (vm_compute; reflexivity).
  destruct (oom_at_cap_reporting capped_controller capped_workload "standard" demo_spec no_status [killed_pod]
    (mkSizing false (mkTracked false false)) demo_now demo_mark) as (H1 & _ & H2);
    [vm_compute; reflexivity|vm_compute; reflexivity|vm_compute; split; [reflexivity|discriminate]|reflexivity|reflexivity|exact Hm|].
  split; [exact Hm|]. split; [exact H1|]. apply H2. vm_compute. discriminate.
Defined.
