(* ===== verification/Capability.v ===== *)
(** * Project capabilities ([src/controller/pkg/capability])

    The catalogue of what a member of a project may do, the Kubernetes rules a
    set of capabilities becomes, and the sets the built-in roles stand for. The
    deep copies of the code matter for its slices; values need none. *)

From Stdlib Require Import Ascii.
From stdpp Require Import base tactics numbers countable list option strings sorting.
From S2P Require Import Prelude GoStd.

Local Open Scope string_scope.

Abbreviation Name := string.

(** A bitmask. *)
Definition Plane : Type := Z.

Definition PlaneK : Plane := 1.

Definition PlaneC : Plane := 2.

Definition Has (p q : Plane) : bool := negb (Z.land p q =? 0)%Z.

Record Claim := mkClaim { APIGroup : string; Resources : list string; Verbs : list string }.

Record Implication := mkImplication { Grants : Name; Via : string }.

Record Capability := mkCapability {
  cname : Name; Planes : Plane; Claims : list Claim; Touches : list string; Action : string; Effect : string;
  Grantable : bool; AlsoReads : string; Implications : list Implication
}.

(** ** Descriptions. *)

(** The items of a list with what comes before the first, the last and the
    others; the last of one is its first. *)
Fixpoint listed (between last : string) (items : list string) : string :=
  match items with
  | [] => ""
  | [item] => last ++ item
  | item :: items' => between ++ item ++ listed between last items'
  end.

Definition implication_text (imp : Implication) : string := Grants imp ++ " " ++ Via imp.

Definition implicationSuffix (implications : list Implication) : string :=
  match implications with
  | [] => ""
  | imp :: rest => ", which also grants " ++ implication_text imp ++ listed ", " " and " (map implication_text rest)
  end.

Definition also_reads (c : Capability) : string := if AlsoReads c =? "" then "" else ", and " ++ AlsoReads c.

Definition Description (c : Capability) : string :=
  match Touches c with
  | [] => Effect c ++ also_reads c ++ implicationSuffix (Implications c)
  | t :: ts => Action c ++ " " ++ t ++ listed ", " " and " ts ++ also_reads c ++ implicationSuffix (Implications c)
  end.

(** ** The catalogue. *)

Definition groupCore : string := "".

Definition groupApps : string := "apps".

Definition groupBatch : string := "batch".

Definition groupNetworking : string := "networking.k8s.io".

Definition groupKipper : string := "kipper.run".

Definition readVerbs : list string := ["get"; "list"; "watch"].

Definition writeVerbs : list string := ["create"; "update"; "patch"; "delete"].

Definition catalogue : list Capability := [
  mkCapability "apikeys.manage" PlaneC
    []
    [] ""
    "create, change and delete the project's API keys and their usage plans" true
    ""
    [];
  mkCapability "database.read" PlaneC
    []
    [] ""
    "browse a service's databases, tables, rows and saved queries" true
    ""
    [];
  mkCapability "database.write" PlaneC
    []
    [] ""
    "change rows, tables, indexes and saved queries in a service's database" true
    ""
    [];
  mkCapability "env.read" PlaneC
    []
    [] ""
    "see an app's environment variables and which of them are secret, through the console" true
    ""
    [];
  mkCapability "env.reveal" PlaneC
    []
    [] ""
    "reveal the stored value of a secret environment variable or git token through the console" true
    ""
    [];
  mkCapability "env.write" PlaneC
    []
    [] ""
    "change an app's environment variables through the console" true
    ""
    [];
  mkCapability "files.read" PlaneC
    []
    [] ""
    "read and download any file inside a running workload through the console" true
    ""
    [mkImplication "secrets.read" "by reading the files a Secret is mounted into"];
  mkCapability "files.write" PlaneC
    []
    [] ""
    "change and upload files inside a running workload through the console" true
    ""
    [mkImplication "kipper.write" "by changing what the running workload executes";
       mkImplication "secrets.read" "through the environment that code then runs with"];
  mkCapability "kipper.read" (Z.lor PlaneK PlaneC)
    [mkClaim groupKipper ["apps"; "services"; "functions"; "jobs"; "volumes"] readVerbs]
    ["apps"; "services"; "functions"; "jobs"; "volumes"] "read"
    "" true
    ""
    [];
  mkCapability "kipper.write" (Z.lor PlaneK PlaneC)
    [mkClaim groupKipper ["apps"; "services"; "functions"; "jobs"; "volumes"] writeVerbs]
    ["apps"; "services"; "functions"; "jobs"; "volumes"] "create, change and delete"
    "" true
    ""
    [mkImplication "secrets.read" "by declaring any Secret as an app's environment";
       mkImplication "pods.logs.read" "through the diagnosis routes, which read a workload's logs and send them to the AI provider";
       mkImplication "workloads.read" "through the optimization route, which reads deployments, pods and their metrics"];
  mkCapability "members.manage" PlaneC
    []
    [] ""
    "add and remove project members, and create, change and delete the project's own roles" true
    ""
    [];
  mkCapability "members.read" PlaneC
    []
    [] ""
    "see who is in the project and what they hold" true
    ""
    [];
  mkCapability "pods.exec" PlaneK
    [mkClaim groupCore ["pods/exec"] ["create"]]
    ["pods/exec"] "open a shell in"
    "" true
    ""
    [mkImplication "secrets.read" "by reading the environment of the container it opens"];
  mkCapability "pods.logs.read" (Z.lor PlaneK PlaneC)
    [mkClaim groupCore ["pods/log"] ["get"]]
    ["pods/log"] "read"
    "" true
    ""
    [];
  mkCapability "project.delete" PlaneC
    []
    [] ""
    "delete the project and everything in it" true
    ""
    [];
  mkCapability "project.read" PlaneC
    []
    [] ""
    "see the project's settings, quota, resource requests, API keys and usage plans" true
    ""
    [];
  mkCapability "project.settings" PlaneC
    []
    [] ""
    "change the project's own settings, including which other projects may route into this one" true
    ""
    [];
  mkCapability "secrets.read" PlaneK
    [mkClaim groupCore ["secrets"; "configmaps"] readVerbs]
    ["secrets"; "configmaps"] "read"
    "" true
    ""
    [];
  mkCapability "secrets.write" PlaneK
    [mkClaim groupCore ["secrets"; "configmaps"] writeVerbs]
    ["secrets"; "configmaps"] "create, change and delete"
    "" true
    ""
    [mkImplication "secrets.read" "because writing one requires reading what is there"];
  mkCapability "storage.read" PlaneC
    []
    [] ""
    "list and download objects in a service's buckets" true
    ""
    [];
  mkCapability "storage.write" PlaneC
    []
    [] ""
    "upload and delete objects, and change what a bucket exposes publicly" true
    ""
    [];
  mkCapability "terminal.open" PlaneC
    []
    [] ""
    "open a shell into a running workload through the console" true
    ""
    [mkImplication "secrets.read" "by reading the environment of the container it opens"];
  mkCapability "webhook.reveal" PlaneC
    []
    [] ""
    "reveal the token an app's deploy webhook is called with" true
    ""
    [mkImplication "kipper.write" "by posting an image of its choosing to the app's webhook";
       mkImplication "secrets.read" "through the environment the deployed image runs with"];
  mkCapability "workloads.read" (Z.lor PlaneK PlaneC)
    [mkClaim groupCore ["pods"; "persistentvolumeclaims"] readVerbs;
       mkClaim groupApps ["deployments"; "statefulsets"] readVerbs;
       mkClaim groupBatch ["jobs"; "cronjobs"] readVerbs;
       mkClaim groupNetworking ["ingresses"] readVerbs]
    ["pods"; "persistentvolumeclaims"; "deployments"; "statefulsets"; "jobs"; "cronjobs"; "ingresses"] "read"
    "" true
    "the autoscaler status and resource metrics behind them"
    [];
  mkCapability "workloads.restart" PlaneC
    []
    [] ""
    "restart a workload, which is an annotation the console writes on the App" true
    ""
    []
].

Definition builtIn_viewer : list Name := ["database.read"; "env.read"; "kipper.read"; "members.read";
   "pods.logs.read"; "project.read"; "storage.read"; "workloads.read"].

Definition builtIn_deployer : list Name := ["apikeys.manage"; "database.read"; "database.write"; "env.read";
   "env.reveal"; "env.write"; "files.read"; "files.write"; "kipper.read"; "kipper.write"; "members.read";
   "pods.logs.read"; "project.read"; "storage.read"; "storage.write"; "terminal.open"; "webhook.reveal";
   "workloads.read"; "workloads.restart"].

Definition builtIn_owner : list Name := ["apikeys.manage"; "database.read"; "database.write"; "env.read";
   "env.reveal"; "env.write"; "files.read"; "files.write"; "kipper.read"; "kipper.write"; "members.manage";
   "members.read"; "pods.exec"; "pods.logs.read"; "project.delete"; "project.read"; "project.settings";
   "secrets.read"; "secrets.write"; "storage.read"; "storage.write"; "terminal.open"; "webhook.reveal";
   "workloads.read"; "workloads.restart"].

(** The roles, by name, with what each grants. *)
Definition builtIn : list (string * list Name) :=
  [("viewer", builtIn_viewer); ("deployer", builtIn_deployer); ("owner", builtIn_owner)].

(** ** Questions. *)

Definition All : list Capability := catalogue.

Definition Lookup (name : Name) : option Capability := List.find (fun c => cname c =? name) catalogue.

Definition Unknown (names : list Name) : list Name :=
  List.filter (fun n => match Lookup n with Some _ => false | None => true end) names.

Definition has_name (names : list Name) (n : Name) : bool := existsb (fun m => m =? n) names.

(** A rule has one group here, as claims do. *)
Definition Rules (names : list Name) : list Claim :=
  flat_map (fun c => if has_name names (cname c) && Grantable c then Claims c else []) catalogue.

Definition Subset (inner outer : list Name) : bool := forallb (has_name outer) inner.

Definition role_names (role : string) : option (list Name) :=
  snd <$> List.find (fun r => r.1 =? role) builtIn.

Definition Holds (role : string) (name : Name) : bool :=
  match role_names role with Some names => has_name names name | None => false end.

Definition KnownRole (role : string) : bool := match role_names role with Some _ => true | None => false end.

Definition BuiltIn (role : string) : option (list Name) := Strings <$> role_names role.

(** ** Properties. *)

Lemma has_name_spec (names : list Name) (n : Name) : has_name names n = true <-> n ∈ names.
Proof.
  unfold has_name. rewrite existsb_exists. split.
  - intros (m & Hm & ->%String.eqb_eq). by apply list_elem_of_In.
  - intros Hn. exists n. split; [by apply list_elem_of_In|apply String.eqb_refl].
Qed.

Lemma Subset_spec (inner outer : list Name) : Subset inner outer = true <-> inner ⊆ outer.
Proof.
  unfold Subset. rewrite forallb_forall. split.
  - intros Hs n Hn. by apply has_name_spec, Hs, list_elem_of_In.
  - intros Hs n Hn. by apply has_name_spec, Hs, list_elem_of_In.
Qed.

Lemma has_name_mono (inner outer : list Name) (n : Name) :
  Subset inner outer = true -> has_name inner n = true -> has_name outer n = true.
Proof. rewrite Subset_spec, !has_name_spec. auto. Qed.

(** A rule allows a verb on a resource of a group. *)
Definition allows (rules : list Claim) (group resource verb : string) : Prop :=
  exists r, r ∈ rules /\ APIGroup r = group /\ resource ∈ Resources r /\ verb ∈ Verbs r.

Lemma elem_of_Rules (names : list Name) (r : Claim) :
  r ∈ Rules names <-> exists c, c ∈ catalogue /\ cname c ∈ names /\ Grantable c = true /\ r ∈ Claims c.
Proof.
  unfold Rules. rewrite list_elem_of_In, in_flat_map. split.
  - intros (c & Hc & Hr). destruct (has_name names (cname c) && Grantable c) eqn:Hb; [|done].
    apply andb_true_iff in Hb as [Hn%has_name_spec Hg]. exists c. split_and!; [by apply list_elem_of_In|done|done|by apply list_elem_of_In].
  - intros (c & Hc & Hn & Hg & Hr). exists c. split; [by apply list_elem_of_In|].
    rewrite (proj2 (has_name_spec _ _) Hn), Hg. by apply list_elem_of_In.
Qed.

(** The rules of a set of capabilities allow what their claims name, and
    nothing else. They depend on the set alone, not on order or repetitions; an
    unknown name adds nothing; and a set whose capabilities all belong to another
    gets no more than the other, which is what capping a grant relies on. *)
Theorem rules_exact (names : list Name) (group resource verb : string) :
  (allows (Rules names) group resource verb <->
     exists c cl, c ∈ catalogue /\ cname c ∈ names /\ Grantable c = true /\ cl ∈ Claims c /\
       APIGroup cl = group /\ resource ∈ Resources cl /\ verb ∈ Verbs cl) /\
  (forall other, (forall n, n ∈ names <-> n ∈ other) -> Rules other = Rules names) /\
  (forall n, Lookup n = None -> Rules (n :: names) = Rules names) /\
  (forall outer, Subset names outer = true -> allows (Rules names) group resource verb -> allows (Rules outer) group resource verb).
Proof.
  split_and!.
  - split.
    + intros (r & (c & Hc & Hn & Hg & Hr)%elem_of_Rules & H). by exists c, r.
    + intros (c & cl & Hc & Hn & Hg & Hr & H). exists cl. split; [|done]. apply elem_of_Rules. by exists c.
  - intros other Hset. apply flat_map_ext. intros c.
    assert (Hsame : has_name other (cname c) = has_name names (cname c)) by (apply eq_true_iff_eq; by rewrite !has_name_spec, Hset).
    by rewrite Hsame.
  - intros n Hn. unfold Rules. rewrite !flat_map_concat_map. f_equal. apply map_ext_in. intros c Hc.
    cbn [has_name existsb]. fold (has_name names (cname c)). unfold Lookup in Hn.
    rewrite String.eqb_sym, (List.find_none _ _ Hn c Hc). done.
  - intros outer Hs%Subset_spec (r & (c & Hc & Hn & Hg & Hr)%elem_of_Rules & H). exists r. split; [|done].
    apply elem_of_Rules. exists c. split_and!; [done|by apply Hs|done|done].
Qed.

(** What an entry of the catalogue must be like: rules exactly where its plane
    says so, described by what they touch, else by its effect. *)
Definition entry_coherent (c : Capability) : bool :=
  match Claims c, Touches c with
  | [], [] => negb (Has (Planes c) PlaneK) && negb (Effect c =? "")
  | _ :: _, _ :: _ => Has (Planes c) PlaneK && negb (Action c =? "") &&
                      forallb (fun cl => forallb (fun r => existsb (fun t => t =? r) (Touches c)) (Resources cl)) (Claims c)
  | _, _ => false
  end && Grantable c && forallb (fun imp => match Lookup (Grants imp) with Some _ => true | None => false end) (Implications c).

Fixpoint ascending (names : list Name) : bool :=
  match names with
  | a :: ((b :: _) as rest) => (a <? b) && ascending rest
  | _ => true
  end.

(** The catalogue is coherent, and the roles of a project nest in it. Its
    names ascend, so none is twice; an entry has rules exactly when its plane is
    Kubernetes', touches what its rules name, and implies known capabilities
    only; a viewer holds less than a deployer, who holds less than an owner, who
    holds the whole catalogue and nothing else. *)
Theorem catalogue_coherent :
  ascending (map cname catalogue) = true /\ forallb entry_coherent catalogue = true /\
  Unknown (builtIn_viewer ++ builtIn_deployer ++ builtIn_owner) = [] /\
  (forall name, Holds "viewer" name = true -> Holds "deployer" name = true) /\
  (forall name, Holds "deployer" name = true -> Holds "owner" name = true) /\
  (forall name, Holds "owner" name = true <-> is_Some (Lookup name)) /\
  (forall role name, Holds role name = true -> KnownRole role = true).
Proof.
  split_and!; [vm_compute; reflexivity|vm_compute; reflexivity|vm_compute; reflexivity| | | |].
  - intros name. by apply has_name_mono.
  - intros name. by apply has_name_mono.
  - intros name. change (has_name builtIn_owner name = true <-> is_Some (Lookup name)). rewrite has_name_spec. unfold Lookup. split.
    + assert (Hall : forallb (fun n => bool_decide (is_Some (List.find (fun c => cname c =? n) catalogue))) builtIn_owner = true)
        by (vm_compute; reflexivity).
      intros Hn%list_elem_of_In. by apply (bool_decide_unpack _), Is_true_true, (proj1 (forallb_forall _ _) Hall).
    + intros [c (Hc & <-%String.eqb_eq)%List.find_some].
      assert (Hall : Subset (map cname catalogue) builtIn_owner = true) by (vm_compute; reflexivity).
      apply Subset_spec in Hall. apply Hall, list_elem_of_In, in_map. done.
  - intros role name. unfold Holds, KnownRole. by destruct (role_names role).
Qed.
