(* ===== verification/Roles.v ===== *)
(** * Console roles and monitoring grants
    ([src/console-api/middleware/roles.go], [src/controller/pkg/usergrants])

    Roles and grants are in one ConfigMap, which several processes write; each
    console caches it. A refresh is three steps, as in the code: a check under
    the lock, a read of the ConfigMap, a store under the lock; other requests,
    writes and invalidations come in between. *)

From Stdlib Require Import Ascii.
From stdpp Require Import base tactics numbers countable list option strings gmap sorting.
From S2P Require Import Prelude GoStd.

Local Open Scope string_scope.

Definition RoleAdmin : string := "admin".

Definition RoleDeployer : string := "deployer".

Definition RoleViewer : string := "viewer".

Definition monitoringTrustAge : Duration := 60 * Second.

Definition cacheTTL : Duration := 30 * Second.

(** The data of a ConfigMap. *)
Abbreviation Data := (@gmap string String.eq_dec String.countable string).

Abbreviation Emails := (@gset string String.eq_dec String.countable).

Section Roles.
(** [json.Unmarshal] into a map of strings, where null gives no map, and into a
    list of strings; [json.Marshal] of both. *)
Variable decode_roles : string -> option (option Data).
Variable encode_roles : Data -> string.
Variable decode_emails : string -> option (list string).
Variable encode_emails : list string -> string.

(** ** Grants ([usergrants.go]). *)

Definition UsersKey : string := "users".

Definition MonitoringKey : string := "monitoring".

Inductive GrantError := ErrUnknownUser | BadRoles | BadGrants.

Definition Monitoring (data : Data) : result GrantError Emails :=
  match data !! MonitoringKey with
  | None => Ok ∅
  | Some raw => match decode_emails raw with Some emails => Ok (list_to_set emails) | None => Err BadGrants end
  end.

Definition roles_of (data : Data) : result GrantError Data :=
  let raw := default "" (data !! UsersKey) in
  if raw =? "" then Ok ∅
  else match decode_roles raw with Some m => Ok (default ∅ m) | None => Err BadRoles end.

Definition sortedEmails (grants : Emails) : list string := Strings (elements grants).

(** A missing role is the empty one. *)
Definition role_in (roles : Data) (email : string) : string := default "" (roles !! email).

Definition SetMonitoring (data : Data) (email : string) (granted : bool) : result GrantError Data :=
  grants ← Monitoring data;
  changed ← (if granted then
               userRoles ← roles_of data;
               if role_in userRoles email =? "" then Err ErrUnknownUser else Ok ({[email]} ∪ grants)
             else Ok (grants ∖ {[email]}));
  Ok (<[MonitoringKey := encode_emails (sortedEmails changed)]> data).

(** The backup's users without a live role. *)
Definition missing_users (live backup : Data) : Data :=
  filter (fun er : string * string => role_in live er.1 = "") backup.

(** The emails added and the data, [None] where nothing is added. *)
Definition Merge (live backup : Data) : result GrantError (option (list string * Data)) :=
  liveRoles ← roles_of live;
  backupRoles ← roles_of backup;
  backupGrants ← Monitoring backup;
  grants ← Monitoring live;
  let added := missing_users liveRoles backupRoles in
  if bool_decide (added = ∅) then Ok None
  else
    Ok (Some (Strings (elements (dom added)),
         <[MonitoringKey := encode_emails (sortedEmails (filter (fun e => e ∈ dom added) backupGrants ∪ grants))]>
           (<[UsersKey := encode_roles (added ∪ liveRoles)]> live))).

(** ** The cache. *)

Record RoleStore := mkStore {
  roles : Data; monitoring : Emails; monitoringValid : bool; lastFetch : Time
}.

Definition NewRoleStore : RoleStore := mkStore ∅ ∅ false zero_time.

Definition cache_fresh (s : RoleStore) (now : Time) : bool := (Sub now (lastFetch s) <? cacheTTL)%Z.

(** The first section of [GetRole]: the cached answer, or none. *)
Definition peek_role (s : RoleStore) (now : Time) (email : string) : option string :=
  if cache_fresh s now && negb (bool_decide (roles s = ∅)) then Some (role_in (roles s) email) else None.

(** What a refresh makes of the ConfigMap: nothing, where it has no users or
    they do not parse. *)
Definition parse_config (data : Data) : option (Data * Emails * bool) :=
  match data !! UsersKey with
  | None => None
  | Some raw =>
      match decode_roles raw with
      | None => None
      | Some m =>
          match Monitoring data with
          | Ok grants => Some (default ∅ m, grants, true)
          | Err _ => Some (default ∅ m, ∅, false)
          end
      end
  end.

(** The last section of [refresh], for what the read answered. *)
Definition store_config (s : RoleStore) (answer : option Data) (now : Time) : RoleStore :=
  match answer with
  | None => s
  | Some data =>
      match parse_config data with
      | None => s
      | Some (r, g, valid) => mkStore r g valid now
      end
  end.

Definition invalidateCache (s : RoleStore) : RoleStore := mkStore (roles s) (monitoring s) (monitoringValid s) zero_time.

(** The last section of [MonitoringAccess]: the role where access is allowed. *)
Definition monitoring_access (s : RoleStore) (now : Time) (email : string) : option string :=
  if GoStd.IsZero (lastFetch s) || (monitoringTrustAge <? Sub now (lastFetch s))%Z || negb (monitoringValid s) then None
  else
    let role := role_in (roles s) email in
    if (role =? RoleAdmin) || (negb (role =? "") && bool_decide (email ∈ monitoring s)) then Some role else None.

(** [MonitoringHolders] after its refresh. *)
Definition monitoring_holders (s : RoleStore) : Emails :=
  dom (filter (fun er : string * string => er.2 = RoleAdmin \/ (monitoringValid s = true /\ er.1 ∈ monitoring s)) (roles s)).

(** ** Writes. *)

(** What an attempt makes of the data it read: data to write, an error, or a
    panic, where an entry is assigned in a map that is not there. *)
Inductive Written := Saved (data : Data) | Refused | Panicked.

(** One attempt of [updateUsers], up to its write. The stored value null is no
    map. *)
Definition updateUsers (mutate : option Data -> Data -> option (option Data * Data)) (data : Data) : Written :=
  let raw := default "" (data !! UsersKey) in
  match (if raw =? "" then Some (Some ∅) else decode_roles raw) with
  | None => Refused
  | Some m =>
      match mutate m data with
      | None => Panicked
      | Some (m, data) => Saved (<[UsersKey := match m with Some m => encode_roles m | None => "null" end]> data)
      end
  end.

(** The monitoring grant is dropped unless the list does not parse. *)
Definition drop_grant (data : Data) (email : string) : Data :=
  match SetMonitoring data email false with Ok data' => data' | Err _ => data end.

Definition SetRole (email role : string) : Data -> Written :=
  updateUsers (fun m data =>
    match m with
    | None => None
    | Some m =>
        Some (Some (<[email := role]> m), match m !! email with Some _ => data | None => drop_grant data email end)
    end).

Definition RemoveUser (email : string) : Data -> Written :=
  updateUsers (fun m data => Some (delete email <$> m, drop_grant data email)).

Definition GrantMonitoring (email : string) (granted : bool) (data : Data) : Written :=
  match SetMonitoring data email granted with Ok data' => Saved data' | Err _ => Refused end.

(** ** A console among others. *)

(** A call that is answered, fails, or takes effect with its answer lost. *)
Inductive Reply := Fine | Fails | Loses.

Inductive Query := AskRole (email : string) | AskMonitoring (email : string).

(** A request, by its next step; [b] is when it began. A writer has attempts
    left; [creates] says whether it makes a missing ConfigMap. *)
Inductive Thread :=
| Peeking (q : Query) (b : Time)
| Checking (q : Query) (b : Time)
| Getting (q : Query) (b : Time)
| Storing (q : Query) (b u : Time) (answer : option Data)
| Answering (q : Query) (b : Time) (fetched : bool)
| Answered (q : Query) (b : Time) (fetched : bool) (t : Time) (role : option string)
| Reading (op : Data -> Written) (creates : bool) (tries : nat)
| Writing (op : Data -> Written) (creates : bool) (tries : nat) (read : option (Data * nat))
| Invalidating (done_ : bool)
| Finished (done_ : bool).

(** The ConfigMap with its resource version, this console's cache, the requests
    and the clock. *)
Record World := mkWorld {
  config : option Data; version : nat; store : RoleStore; threads : list Thread; clock : Time
}.

Inductive Event :=
| Pass (d : N)
| Begin (q : Query)
| Write (op : Data -> Written) (creates : bool) (attempts : nat)
| Edit (config' : option Data)
| Step (i : nat) (r : Reply).

Definition set_thread (w : World) (i : nat) (t : Thread) : World :=
  mkWorld (config w) (version w) (store w) (<[i := t]> (threads w)) (clock w).

Definition set_store (w : World) (s : RoleStore) : World := mkWorld (config w) (version w) s (threads w) (clock w).

Definition set_config (w : World) (c : option Data) : World :=
  mkWorld c (S (version w)) (store w) (threads w) (clock w).

Definition started (q : Query) (now : Time) : Thread :=
  match q with AskRole _ => Peeking q now | AskMonitoring _ => Checking q now end.

Definition answer_of (s : RoleStore) (now : Time) (q : Query) : option string :=
  match q with
  | AskRole email => Some (role_in (roles s) email)
  | AskMonitoring email => monitoring_access s now email
  end.

(** The write of an attempt: the new configuration if it is accepted, and
    whether it is refused for a conflict. *)
Definition write_config (w : World) (creates : bool) (read : option (Data * nat)) (data : Data) : option World * bool :=
  match read, config w with
  | None, None => (Some (set_config w (Some data)), false)
  | None, Some _ => (None, false)
  | Some (_, v), Some _ => if (v =? version w)%nat then (Some (set_config w (Some data)), false) else (None, true)
  | Some _, None => (None, false)
  end.

Definition writing (w : World) (i : nat) (op : Data -> Written) (creates : bool) (tries : nat) (read : option (Data * nat)) (r : Reply) : World :=
  match op (from_option fst ∅ read) with
  | Refused | Panicked => set_thread w i (Invalidating false)
  | Saved data =>
      match r with
      | Fails => set_thread w i (Invalidating false)
      | _ =>
          match write_config w creates read data with
          | (Some w', _) => set_thread w' i (Invalidating (match r with Fine => true | _ => false end))
          | (None, conflict) =>
              match tries, conflict, r with
              | S tries', true, Fine => set_thread w i (Reading op creates tries')
              | _, _, _ => set_thread w i (Invalidating false)
              end
          end
      end
  end.

(** The next step of a request. A lost read is a failed one. *)
Definition advance (w : World) (i : nat) (t : Thread) (r : Reply) : World :=
  match t with
  | Peeking q b =>
      match q with
      | AskRole email =>
          match peek_role (store w) (clock w) email with
          | Some role => set_thread w i (Answered q b true (clock w) (Some role))
          | None => set_thread w i (Checking q b)
          end
      | AskMonitoring _ => set_thread w i (Checking q b)
      end
  | Checking q b => set_thread w i (if cache_fresh (store w) (clock w) then Answering q b true else Getting q b)
  | Getting q b => set_thread w i (Storing q b (clock w) (match r with Fine => config w | _ => None end))
  | Storing q b u answer =>
      set_thread (set_store w (store_config (store w) answer (clock w))) i
        (Answering q b (bool_decide (is_Some (answer ≫= parse_config))))
  | Answering q b fetched => set_thread w i (Answered q b fetched (clock w) (answer_of (store w) (clock w) q))
  | Reading op creates tries =>
      match r with
      | Fine =>
          match config w with
          | Some data => set_thread w i (Writing op creates tries (Some (data, version w)))
          | None => set_thread w i (if creates then Writing op creates tries None else Invalidating false)
          end
      | _ => set_thread w i (Invalidating false)
      end
  | Writing op creates tries read => writing w i op creates tries read r
  | Invalidating b => set_thread (set_store w (invalidateCache (store w))) i (Finished b)
  | Answered _ _ _ _ _ | Finished _ => w
  end.

Definition happen (w : World) (e : Event) : World :=
  match e with
  | Pass d => mkWorld (config w) (version w) (store w) (threads w) (clock w + Z.of_N d)
  | Begin q => mkWorld (config w) (version w) (store w) (threads w ++ [started q (clock w)])%list (clock w)
  | Write op creates attempts =>
      mkWorld (config w) (version w) (store w) (threads w ++ [Reading op creates attempts])%list (clock w)
  | Edit c => set_config w c
  | Step i r => match threads w !! i with Some t => advance w i t r | None => w end
  end.

(** A refresh stores what it read within [lag]. *)
Definition in_time (lag : Duration) (w : World) (e : Event) : bool :=
  match e with
  | Step i _ => match threads w !! i with Some (Storing _ _ u _) => (clock w - u <=? lag)%Z | _ => true end
  | _ => true
  end.

Fixpoint run (lag : Duration) (w : World) (events : list Event) : option World :=
  match events with
  | [] => Some w
  | e :: events' => if in_time lag w e then run lag (happen w e) events' else None
  end.

Definition start (c : option Data) (now : Time) : World := mkWorld c 0 NewRoleStore [] now.
End Roles.
