(* ===== verification/GrantsProps.v ===== *)
(** * Writes of the users' ConfigMap: theorems

    What a change of one user leaves alone, what a new user can inherit, and
    what a merge of a backup keeps. The codec of the two values is any that
    reads back what it wrote of the text it can carry. *)

From Stdlib Require Import Ascii.
From stdpp Require Import base tactics numbers countable list option strings gmap sorting.
From S2P Require Import Prelude GoStd Roles.

Local Open Scope string_scope.

Section Codec.
Variable decode_roles : string -> option (option Data).
Variable encode_roles : Data -> string.
Variable decode_emails : string -> option (list string).
Variable encode_emails : list string -> string.

(** The strings a JSON value carries unchanged. *)
Variable text : string -> Prop.

Definition texts (m : Data) : Prop := map_Forall (fun email role => text email /\ text role) m.

Hypothesis roles_read : forall raw m, decode_roles raw = Some (Some m) -> texts m.
Hypothesis roles_empty : decode_roles "" = None.
Hypothesis roles_null : decode_roles "null" = Some None.
Hypothesis roles_back : forall m, texts m -> decode_roles (encode_roles m) = Some (Some m).
Hypothesis emails_read : forall raw l, decode_emails raw = Some l -> Forall text l.
Hypothesis emails_back : forall l, Forall text l -> decode_emails (encode_emails l) = Some l.

Abbreviation roles_of := (roles_of decode_roles).
Abbreviation Monitoring := (Monitoring decode_emails).
Abbreviation SetMonitoring := (SetMonitoring decode_roles decode_emails encode_emails).
Abbreviation drop_grant := (drop_grant decode_roles decode_emails encode_emails).
Abbreviation Merge := (Merge decode_roles encode_roles decode_emails encode_emails).
Abbreviation SetRole := (SetRole decode_roles encode_roles decode_emails encode_emails).
Abbreviation RemoveUser := (RemoveUser decode_roles encode_roles decode_emails encode_emails).
Abbreviation GrantMonitoring := (GrantMonitoring decode_roles decode_emails encode_emails).

(** ** The two values. *)

Lemma roles_of_insert (data : Data) (m : Data) : texts m -> roles_of (<[UsersKey := encode_roles m]> data) = Ok m.
Proof.
  intros Hm. unfold Roles.roles_of. rewrite lookup_insert_eq. simpl.
  destruct (String.eqb_spec (encode_roles m) "") as [He|_].
  - pose proof (roles_back m Hm) as Hb. rewrite He, roles_empty in Hb. done.
  - by rewrite (roles_back m Hm).
Qed.

Lemma roles_of_other (data : Data) (k v : string) : k <> UsersKey -> roles_of (<[k := v]> data) = roles_of data.
Proof. intros Hk. unfold Roles.roles_of. by rewrite lookup_insert_ne. Qed.

Lemma Monitoring_other (data : Data) (k v : string) : k <> MonitoringKey -> Monitoring (<[k := v]> data) = Monitoring data.
Proof. intros Hk. unfold Roles.Monitoring. by rewrite lookup_insert_ne. Qed.

Lemma Monitoring_insert (data : Data) (g : Emails) :
  set_Forall text g -> Monitoring (<[MonitoringKey := encode_emails (sortedEmails g)]> data) = Ok g.
Proof.
  intros Hg. unfold Roles.Monitoring. rewrite lookup_insert_eq, emails_back.
  - f_equal. apply set_eq. intros e. unfold sortedEmails. by rewrite elem_of_list_to_set, elem_of_Strings, elem_of_elements.
  - apply Forall_forall. intros e He. unfold sortedEmails in He. apply Hg. by rewrite elem_of_Strings, elem_of_elements in He.
Qed.

Lemma Monitoring_texts (data : Data) (g : Emails) : Monitoring data = Ok g -> set_Forall text g.
Proof.
  unfold Roles.Monitoring. destruct (data !! MonitoringKey) as [raw|]; [|intros [= <-]; by intros e He%not_elem_of_empty].
  destruct (decode_emails raw) as [l|] eqn:Hl; [|done]. intros [= <-] e He. apply elem_of_list_to_set in He.
  by eapply Forall_forall; [exact (emails_read _ _ Hl)|].
Qed.

Lemma roles_of_texts (data m : Data) : roles_of data = Ok m -> texts m.
Proof.
  unfold Roles.roles_of. destruct (_ =? ""); [intros [= <-]; apply map_Forall_empty|].
  destruct (decode_roles (default _ _)) as [[m'|]|] eqn:Hd; simpl; intros [= <-]; [by eapply roles_read|apply map_Forall_empty].
Qed.

(** ** A grant. *)

Lemma SetMonitoring_spec (data data' : Data) (email : string) (granted : bool) :
  SetMonitoring data email granted = Ok data' ->
  (granted = true -> text email) ->
  exists g, Monitoring data = Ok g /\ Monitoring data' = Ok (if granted then {[email]} ∪ g else g ∖ {[email]}) /\
    (granted = true -> exists m, roles_of data = Ok m /\ role_in m email <> "") /\
    (forall k, k <> MonitoringKey -> data' !! k = data !! k).
Proof.
  intros Hset Htext. unfold Roles.SetMonitoring in Hset. apply bind_Ok in Hset as (g & Hg & Hset).
  pose proof (Monitoring_texts _ _ Hg) as Hgt. exists g. split; [done|]. apply bind_Ok in Hset as (g' & Hg' & [= <-]).
  assert (Hk : forall k v, k <> MonitoringKey -> (<[MonitoringKey := v]> data) !! k = data !! k) by (intros; by rewrite lookup_insert_ne).
  destruct granted.
  - apply bind_Ok in Hg' as (m & Hm & Hg'). destruct (String.eqb_spec (role_in m email) "") as [|Hr]; [done|]. injection Hg' as <-.
    split_and!; [|by exists m|by intros; apply Hk]. apply Monitoring_insert. intros e [->%elem_of_singleton|He]%elem_of_union; [by apply Htext|by apply Hgt].
  - injection Hg' as <-. split_and!; [|done|by intros; apply Hk]. apply Monitoring_insert. intros e [He _]%elem_of_difference. by apply Hgt.
Qed.

Lemma drop_grant_spec (data : Data) (email : string) :
  roles_of (drop_grant data email) = roles_of data /\
  (forall g, Monitoring data = Ok g -> Monitoring (drop_grant data email) = Ok (g ∖ {[email]})) /\
  (forall e, Monitoring data = Err e -> drop_grant data email = data).
Proof.
  unfold Roles.drop_grant. destruct (SetMonitoring data email false) as [data'|e] eqn:Hs; [|split_and!; [done| |done]].
  - destruct (SetMonitoring_spec _ _ _ _ Hs) as (g & Hg & Hg' & _ & Hk); [done|]. split_and!.
    + unfold Roles.roles_of. by rewrite Hk.
    + intros g'. rewrite Hg. by intros [= <-].
    + intros e. by rewrite Hg.
  - intros g Hg. unfold Roles.SetMonitoring in Hs. by rewrite Hg in Hs.
Qed.

(** ** A role. *)

Lemma updateUsers_saved (mutate : option Data -> Data -> option (option Data * Data)) (data data' : Data) :
  updateUsers decode_roles encode_roles mutate data = Saved data' ->
  exists stored m' d, roles_of data = Ok (default ∅ stored) /\ mutate stored data = Some (m', d) /\
    data' = <[UsersKey := match m' with Some m' => encode_roles m' | None => "null" end]> d.
Proof.
  unfold updateUsers, Roles.roles_of. destruct (_ =? "").
  - destruct (mutate (Some ∅) data) as [[m' d]|] eqn:Hm; [|done]. intros [= <-]. by exists (Some ∅), m', d.
  - destruct (decode_roles (default _ _)) as [stored|]; [|done]. destruct (mutate stored data) as [[m' d]|] eqn:Hm; [|done].
    intros [= <-]. by exists stored, m', d.
Qed.

(** The role and the grant of a user in a ConfigMap: none where its values do
    not parse. *)
Definition stored_role (data : Data) (email : string) : string :=
  match roles_of data with Ok m => role_in m email | Err _ => "" end.

Definition stored_grant (data : Data) (email : string) : bool :=
  match Monitoring data with Ok g => bool_decide (email ∈ g) | Err _ => false end.

Lemma role_in_insert (m : Data) (email role other : string) :
  role_in (<[email := role]> m) other = if decide (other = email) then role else role_in m other.
Proof. unfold role_in. case_decide as H; [by rewrite H, lookup_insert_eq|by rewrite lookup_insert_ne]. Qed.

Lemma role_in_delete (m : Data) (email other : string) :
  role_in (delete email m) other = if decide (other = email) then "" else role_in m other.
Proof. unfold role_in. case_decide as H; [by rewrite H, lookup_delete_eq|by rewrite lookup_delete_ne]. Qed.

Lemma stored_grant_dropped (data : Data) (email other : string) :
  stored_grant (drop_grant data email) other = stored_grant data other && negb (bool_decide (other = email)).
Proof.
  destruct (drop_grant_spec data email) as (_ & Hg & He). unfold stored_grant. destruct (Monitoring data) as [g|e] eqn:Hm; [|by rewrite (He e eq_refl), Hm].
  rewrite (Hg g eq_refl). apply eq_true_iff_eq. rewrite andb_true_iff, negb_true_iff, bool_decide_eq_false, !bool_decide_eq_true. set_solver.
Qed.

Lemma stored_insert (d : Data) (m : Data) (other : string) :
  texts m -> stored_role (<[UsersKey := encode_roles m]> d) other = role_in m other /\
  stored_grant (<[UsersKey := encode_roles m]> d) other = stored_grant d other.
Proof. intros Hm. unfold stored_role, stored_grant. by rewrite (roles_of_insert _ _ Hm), Monitoring_other. Qed.

(** Setting a role gives that user that role and nobody else another; it changes no grant of
    anyone else, and a user who was not there before holds no monitoring grant afterwards, even
    where an older version left one behind. *)
Theorem set_role_exact (email role other : string) (data data' : Data) :
  text email -> text role -> SetRole email role data = Saved data' ->
  stored_role data' other = (if decide (other = email) then role else stored_role data other) /\
  (other <> email -> stored_grant data' other = stored_grant data other) /\
  (forall m, roles_of data = Ok m -> stored_grant data' email = stored_grant data email && bool_decide (is_Some (m !! email))).
Proof.
  intros Hemail Hrole Hset. destruct (updateUsers_saved _ _ _ Hset) as (stored & m' & d & Hm & Hmut & ->).
  destruct stored as [m|]; [|done]. cbn [default from_option id] in Hm. injection Hmut as <- <-.
  assert (Hm' : texts (<[email := role]> m)) by (apply map_Forall_insert_2; [done|by eapply roles_of_texts]).
  split_and!.
  - rewrite (proj1 (stored_insert _ _ other Hm')). unfold stored_role. rewrite Hm. apply role_in_insert.
  - intros Hne. rewrite (proj2 (stored_insert _ _ other Hm')). destruct (m !! email); [done|].
    rewrite stored_grant_dropped, bool_decide_eq_false_2 by done. by rewrite andb_true_r.
  - intros m0. rewrite Hm. intros [= <-]. rewrite (proj2 (stored_insert _ _ email Hm')). destruct (m !! email) eqn:He.
    + rewrite bool_decide_eq_true_2 by done. by rewrite andb_true_r.
    + rewrite stored_grant_dropped, bool_decide_eq_true_2, bool_decide_eq_false_2 by (done || by intros [? ?]). done.
Qed.

(** Removing a user takes the role and, where the list of grants parses, the grant, and
    touches nobody else; giving or taking monitoring changes that user's grant and no role, and
    is only given to a user with a role. A refused write writes nothing. *)
Theorem remove_and_grant_exact (email other : string) (granted : bool) (data data' : Data) :
  (RemoveUser email data = Saved data' ->
     stored_role data' other = (if decide (other = email) then "" else stored_role data other) /\
     stored_grant data' other = stored_grant data other && negb (bool_decide (other = email))) /\
  (text email -> GrantMonitoring email granted data = Saved data' ->
     stored_role data' other = stored_role data other /\
     stored_grant data' other = (if decide (other = email) then granted else stored_grant data other) /\
     (granted = true -> stored_role data email <> "")).
Proof.
  split.
  - intros Hrem. destruct (updateUsers_saved _ _ _ Hrem) as (stored & m' & d & Hm & Hmut & ->).
    injection Hmut as <- <-. destruct stored as [m|]; simpl in *.
    + assert (Hm' : texts (delete email m)) by (apply map_Forall_delete; by eapply roles_of_texts).
      destruct (stored_insert (drop_grant data email) _ other Hm') as [-> ->]. rewrite stored_grant_dropped. split; [|done].
      unfold stored_role. rewrite Hm. apply role_in_delete.
    + unfold stored_role, stored_grant. rewrite Monitoring_other by done. fold (stored_grant (drop_grant data email) other).
      rewrite stored_grant_dropped, Hm. unfold Roles.roles_of. rewrite lookup_insert_eq. simpl. rewrite roles_null. simpl.
      unfold role_in. rewrite lookup_empty. by case_decide.
  - intros Hemail. unfold Roles.GrantMonitoring. destruct (SetMonitoring data email granted) as [d|e] eqn:Hs; [|done]. intros [= ->].
    destruct (SetMonitoring_spec _ _ _ _ Hs) as (g & Hg & Hg' & Hr & Hk); [done|].
    assert (Hroles : roles_of data' = roles_of data) by (unfold Roles.roles_of; by rewrite Hk).
    unfold stored_role, stored_grant. rewrite Hroles, Hg, Hg'. split_and!; [done| |].
    + case_decide as Ho; destruct granted; apply eq_true_iff_eq; rewrite ?bool_decide_eq_true; set_solver.
    + intros Hgr. destruct (Hr Hgr) as (m & -> & Hne). done.
Qed.

(** ** A merge. *)

Lemma role_in_union (a b : Data) (email : string) :
  role_in (a ∪ b) email = match a !! email with Some role => role | None => role_in b email end.
Proof. unfold role_in. rewrite lookup_union. by destruct (a !! email), (b !! email). Qed.

Lemma missing_users_lookup (live backup : Data) (email : string) :
  missing_users live backup !! email = if decide (role_in live email = "") then backup !! email else None.
Proof.
  unfold missing_users. destruct (backup !! email) as [role|] eqn:He.
  - case_decide as H; [by apply map_lookup_filter_Some_2|apply map_lookup_filter_None_2; right]. intros role' _. exact H.
  - case_decide; apply map_lookup_filter_None_2; by left.
Qed.

Lemma missing_users_texts (live backup : Data) : texts backup -> texts (missing_users live backup).
Proof. intros Hb k v [H _]%map_lookup_filter_Some. by apply Hb. Qed.

Lemma texts_union (a b : Data) : texts a -> texts b -> texts (a ∪ b).
Proof. intros Ha Hb. by apply map_Forall_union_2. Qed.

Lemma Merge_writes (live backup data : Data) (emails : list string) :
  Merge live backup = Ok (Some (emails, data)) ->
  exists lr br bg lg, roles_of live = Ok lr /\ roles_of backup = Ok br /\ Monitoring backup = Ok bg /\ Monitoring live = Ok lg /\
    emails = Strings (elements (dom (missing_users lr br))) /\ missing_users lr br <> ∅ /\
    roles_of data = Ok (missing_users lr br ∪ lr) /\
    Monitoring data = Ok (filter (fun e => e ∈ dom (missing_users lr br)) bg ∪ lg) /\
    (forall k, k <> UsersKey -> k <> MonitoringKey -> data !! k = live !! k).
Proof.
  unfold Roles.Merge. intros (lr & Hlr & H)%bind_Ok. apply bind_Ok in H as (br & Hbr & H). apply bind_Ok in H as (bg & Hbg & H).
  apply bind_Ok in H as (lg & Hlg & H). cbv zeta in H. case_bool_decide as Ha; [done|]. injection H as <- <-.
  exists lr, br, bg, lg. split_and!; try done.
  - rewrite roles_of_other by done. apply roles_of_insert, texts_union; [apply missing_users_texts|]; by eapply roles_of_texts.
  - apply Monitoring_insert. intros e [[_ He]%elem_of_filter|He]%elem_of_union; [by eapply (Monitoring_texts backup)|by eapply (Monitoring_texts live)].
  - intros k Hu Hm. by rewrite !lookup_insert_ne.
Qed.

(** Merging a backup into the live users keeps every live role that is not empty and every
    live grant, adds the backup's role of each other user with the grant the backup gives that
    user, reports exactly those users, in order, and touches nothing else; where the backup's
    roles are not empty, merging it again adds nobody. *)
Theorem merge_exact (live backup data : Data) (emails : list string) :
  Merge live backup = Ok (Some (emails, data)) ->
  (forall email, stored_role data email = if decide (stored_role live email = "") then stored_role backup email else stored_role live email) /\
  (forall email, email ∈ emails <-> stored_role live email = "" /\ exists br, roles_of backup = Ok br /\ is_Some (br !! email)) /\
  (forall email, stored_grant data email = stored_grant live email || (stored_grant backup email && bool_decide (email ∈ emails))) /\
  Sorted str_le emails /\
  (forall k, k <> UsersKey -> k <> MonitoringKey -> data !! k = live !! k) /\
  ((forall br, roles_of backup = Ok br -> map_Forall (fun _ role => role <> "") br) -> Merge data backup = Ok None).
Proof.
  intros (lr & br & bg & lg & Hlr & Hbr & Hbg & Hlg & He & _ & Hr & Hg & Hk)%Merge_writes.
  assert (Hin : forall email, email ∈ dom (missing_users lr br) <-> role_in lr email = "" /\ is_Some (br !! email)).
  { intros email. rewrite elem_of_dom, missing_users_lookup. case_decide; [naive_solver|split; [by intros [? ?]|tauto]]. }
  assert (Hem : forall email, email ∈ emails <-> email ∈ dom (missing_users lr br)).
  { intros email. by rewrite He, elem_of_Strings, elem_of_elements. }
  unfold stored_role, stored_grant. rewrite Hlr, Hbr, Hr, Hlg, Hbg, Hg. split_and!.
  - intros email. rewrite role_in_union, missing_users_lookup. case_decide as H; [|done]. unfold role_in.
    destruct (br !! email) eqn:Hb; [done|]. exact H.
  - intros email. rewrite Hem, Hin. naive_solver.
  - intros email. apply eq_true_iff_eq. rewrite orb_true_iff, andb_true_iff, !bool_decide_eq_true, elem_of_union, elem_of_filter, Hem. tauto.
  - rewrite He. apply Strings_sorted.
  - exact Hk.
  - intros Hne. unfold Roles.Merge. rewrite Hr, Hbr, Hbg, Hg. simpl. rewrite bool_decide_eq_true_2; [done|].
    apply map_eq. intros email. rewrite missing_users_lookup, lookup_empty, role_in_union, missing_users_lookup.
    case_decide as H; [|done]. destruct (br !! email) as [role|] eqn:Hb; [|done].
    case_decide as H'; [|done]. by destruct (Hne br eq_refl email role Hb).
Qed.
End Codec.

(** ** A codec that reads back what it writes. *)
Module Demo.
Fixpoint bits (p : positive) : string :=
  match p with xH => "1" | xO p' => String "0" (bits p') | xI p' => String "2" (bits p') end.

Fixpoint unbits (s : string) : option positive :=
  match s with
  | "1" => Some xH
  | String "0" s' => xO <$> unbits s'
  | String "2" s' => xI <$> unbits s'
  | _ => None
  end.

Lemma unbits_bits (p : positive) : unbits (bits p) = Some p.
Proof. induction p as [p IH|p IH|]; simpl; by rewrite ?IH. Qed.

Definition decode_roles (raw : string) : option (option Data) :=
  if raw =? "null" then Some None else Some <$> (unbits raw ≫= decode).

Definition encode_roles (m : Data) : string := bits (encode m).

Definition decode_emails (raw : string) : option (list string) := unbits raw ≫= decode.

Definition encode_emails (l : list string) : string := bits (encode l).

Lemma roles_back (m : Data) : decode_roles (encode_roles m) = Some (Some m).
Proof.
  unfold decode_roles, encode_roles. destruct (String.eqb_spec (bits (encode m)) "null") as [He|_].
  - pose proof (unbits_bits (encode m)) as Hb. by rewrite He in Hb.
  - rewrite unbits_bits. simpl. by rewrite decode_encode.
Qed.

Lemma emails_back (l : list string) : decode_emails (encode_emails l) = Some l.
Proof. unfold decode_emails, encode_emails. rewrite unbits_bits. simpl. by rewrite decode_encode. Qed.

Definition text (_ : string) : Prop := True.

Lemma all_texts (m : Data) : texts text m.
Proof. by intros k v _. Qed.

Definition admin_only : Data := {["ann" := "admin"]}.

(** An old grant, left behind for a user who is gone. *)
Definition live : Data :=
  <[MonitoringKey := encode_emails ["bo"]]> {[UsersKey := encode_roles admin_only]}.

Definition backup : Data :=
  <[MonitoringKey := encode_emails ["cy"]]> {[UsersKey := encode_roles (<["ann" := "viewer"]> {["cy" := "viewer"]})]}.
End Demo.

(** ** Concrete writes. *)
Section Concrete.
Import Demo.

Abbreviation SetRole := (Roles.SetRole decode_roles encode_roles decode_emails encode_emails).
Abbreviation RemoveUser := (Roles.RemoveUser decode_roles encode_roles decode_emails encode_emails).
Abbreviation GrantMonitoring := (Roles.GrantMonitoring decode_roles decode_emails encode_emails).
Abbreviation role := (stored_role decode_roles).
Abbreviation grant := (stored_grant decode_emails).

Definition saved (w : Written) : Data := match w with Saved d => d | _ => ∅ end.

Ltac computed := vm_compute; reflexivity.

(** The laws of the codec above, and text is everything. *)
Ltac codec :=
  first [exact roles_back | exact emails_back | exact I | (intros ? ? _; apply all_texts) | (intros ? ? _; by apply Forall_true)
        | (intros ? _; apply roles_back) | (intros ? _; apply emails_back) | computed].

Lemma set_role_exact_witness :
  let data' := saved (SetRole "bo" "viewer" live) in
  SetRole "bo" "viewer" live = Saved data' /\ grant live "bo" = true /\ role data' "ann" = "admin" /\ grant data' "bo" = false.
Proof.
  set (data' := saved (SetRole "bo" "viewer" live)). assert (Hset : SetRole "bo" "viewer" live = Saved data') by computed.
  pose proof (fun other : string => set_role_exact decode_roles encode_roles decode_emails encode_emails text ltac:(codec) ltac:(codec)
    ltac:(codec) ltac:(codec) ltac:(codec) ltac:(codec) "bo" "viewer" other live data' I I Hset) as H.
  cbv zeta. split; [exact Hset|]. split; [computed|]. split.
  - rewrite (proj1 (H "ann")). computed.
  - rewrite (proj2 (proj2 (H "bo")) admin_only ltac:(computed)). computed.
Defined.

Lemma remove_and_grant_exact_witness :
  let data' := saved (RemoveUser "ann" live) in
  let data'' := saved (GrantMonitoring "ann" true live) in
  RemoveUser "ann" live = Saved data' /\ GrantMonitoring "ann" true live = Saved data'' /\ role data' "ann" = "" /\ grant data'' "ann" = true.
Proof.
  set (data' := saved (RemoveUser "ann" live)). set (data'' := saved (GrantMonitoring "ann" true live)).
  pose proof (fun d : Data => remove_and_grant_exact decode_roles encode_roles decode_emails encode_emails text ltac:(codec) ltac:(codec)
    ltac:(codec) ltac:(codec) ltac:(codec) ltac:(codec) "ann" "ann" true live d) as H.
  assert (H1 : RemoveUser "ann" live = Saved data') by computed.
  assert (H2 : GrantMonitoring "ann" true live = Saved data'') by computed.
  cbv zeta. split; [exact H1|]. split; [exact H2|]. split.
  - by rewrite (proj1 (proj1 (H data') H1)).
  - by rewrite (proj1 (proj2 (proj2 (H data'') I H2))).
Defined.

Lemma merge_exact_witness :
  let data := match Merge decode_roles encode_roles decode_emails encode_emails live backup with Ok (Some (_, d)) => d | _ => ∅ end in
  Merge decode_roles encode_roles decode_emails encode_emails live backup = Ok (Some (["cy"], data)) /\
  role data "ann" = "admin" /\ role data "cy" = "viewer" /\ grant data "bo" = true /\ grant data "cy" = true.
Proof.
  set (data := match Merge _ _ _ _ _ _ with Ok (Some (_, d)) => d | _ => ∅ end).
  assert (Hm : Merge decode_roles encode_roles decode_emails encode_emails live backup = Ok (Some (["cy"], data))) by computed.
  destruct (merge_exact decode_roles encode_roles decode_emails encode_emails text ltac:(codec) ltac:(codec) ltac:(codec) ltac:(codec)
    ltac:(codec) live backup data ["cy"] Hm) as (Hr & _ & Hg & _).
  cbv zeta. split; [exact Hm|]. rewrite !Hr, !Hg. split; [|split; [|split]]; computed.
Defined.
End Concrete.
