(* ===== verification/RolesProps.v ===== *)
(** * Console roles: theorems

    How old an answer of the cache can be, and what a merge of two ConfigMaps
    keeps. *)

From Stdlib Require Import Ascii.
From stdpp Require Import base tactics numbers countable list option strings gmap sorting.
From S2P Require Import Prelude GoStd Roles GrantsProps.

Local Open Scope string_scope.
Local Open Scope Z_scope.

Section Cache.
Variable decode_roles : string -> option (option Data).
Variable decode_emails : string -> option (list string).
Variable lag : Duration.
Hypothesis lag_nonneg : 0 <= lag.

Abbreviation parse := (parse_config decode_roles decode_emails).
Abbreviation run := (run decode_roles decode_emails lag).
Abbreviation happen := (happen decode_roles decode_emails).

(** The role and the grant a ConfigMap gives. *)
Definition role_of (data : Data) (email : string) : string :=
  match parse data with Some (r, _, _) => role_in r email | None => ""%string end.

Definition may_monitor (data : Data) (email : string) : Prop :=
  exists r grants, parse data = Some (r, grants, true) /\ (role_in r email = RoleAdmin \/ (role_in r email <> ""%string /\ email ∈ grants)).

(** What the ConfigMap held at a moment of a history. *)
Definition held (w0 : World) (events : list Event) (u : Time) (data : Data) : Prop :=
  exists pre post w, events = (pre ++ post)%list /\ run w0 pre = Some w /\ clock w = u /\ config w = Some data.

Lemma run_app (w : World) (a b : list Event) : run w (a ++ b) = run w a ≫= fun w' => run w' b.
Proof. revert w. induction a as [|e a IH]; intros w; simpl; [done|]. by destruct (in_time lag w e). Qed.

Lemma held_more (w0 : World) (events : list Event) (e : Event) u data : held w0 events u data -> held w0 (events ++ [e]) u data.
Proof. intros (pre & post & w & -> & H). exists pre, (post ++ [e])%list, w. by rewrite app_assoc. Qed.

Lemma held_now (w0 : World) (events : list Event) (w : World) (data : Data) :
  run w0 events = Some w -> config w = Some data -> held w0 events (clock w) data.
Proof. intros Hr Hc. exists events, [], w. by rewrite app_nil_r. Qed.

Lemma cache_fresh_spec (s : RoleStore) (now : Time) : cache_fresh s now = true -> now - lastFetch s < cacheTTL.
Proof.
  unfold cache_fresh. intros Hf%Z.ltb_lt. destruct (Z.lt_ge_cases (now - lastFetch s) cacheTTL) as [|Hge]; [done|].
  unfold Sub, int64_max, int64_min, cacheTTL, Second in *. lia.
Qed.

Section Invariant.
Variable R : Time -> Data -> Prop.

(** An answer, and how old the ConfigMap it comes from may be. A role answered
    by a request that could not fetch was given once. *)
Definition answer_ok (q : Query) (b : Time) (fetched : bool) (t : Time) (answer : option string) : Prop :=
  match q, answer with
  | AskRole email, Some role =>
      role <> ""%string -> exists u data, R u data /\ role_of data email = role /\ u <= t /\ (fetched = true -> b - cacheTTL - lag < u)
  | AskMonitoring email, Some role =>
      exists u data, R u data /\ role_of data email = role /\ may_monitor data email /\ t - monitoringTrustAge - lag <= u <= t
  | _, None => True
  end.

(** Where the cache comes from: a ConfigMap and when it was read. *)
Definition source_ok (now : Time) (s : RoleStore) (src : option (Time * Data)) : Prop :=
  match src with
  | None => roles s = ∅ /\ lastFetch s = zero_time
  | Some (u, data) =>
      R u data /\ parse data = Some (roles s, monitoring s, monitoringValid s) /\ u <= now /\
      (lastFetch s = zero_time \/ lastFetch s - lag <= u)
  end.

Definition thread_ok (now : Time) (src : option (Time * Data)) (t : Thread) : Prop :=
  match t with
  | Peeking _ b | Checking _ b | Getting _ b => b <= now
  | Storing _ b u answer => b <= u <= now /\ match answer with Some data => R u data | None => True end
  | Answering _ b fetched => b <= now /\ (fetched = true -> exists u data, src = Some (u, data) /\ b - cacheTTL - lag < u)
  | Answered q b fetched t answer => answer_ok q b fetched t answer
  | _ => True
  end.

Definition world_ok (w : World) (src : option (Time * Data)) : Prop :=
  monitoringTrustAge < clock w /\ source_ok (clock w) (store w) src /\ Forall (thread_ok (clock w) src) (threads w).

Lemma role_in_empty (email : string) : role_in ∅ email = ""%string.
Proof. unfold role_in. by rewrite lookup_empty. Qed.

Lemma fresh_source (now : Time) (s : RoleStore) src :
  monitoringTrustAge < now -> source_ok now s src -> cache_fresh s now = true ->
  exists u data, src = Some (u, data) /\ now - cacheTTL - lag < u.
Proof.
  intros Hnow Hs Hf%cache_fresh_spec. destruct src as [[u data]|]; cbn [source_ok] in Hs.
  - exists u, data. split; [done|]. destruct Hs as (_ & _ & _ & [Hz|Hl]); [|lia].
    rewrite Hz in Hf. unfold zero_time, monitoringTrustAge, cacheTTL, Second in *. lia.
  - destruct Hs as [_ Hz]. rewrite Hz in Hf. unfold zero_time, monitoringTrustAge, cacheTTL, Second in *. lia.
Qed.

Lemma answer_of_ok (now : Time) (s : RoleStore) src q b (fetched : bool) :
  source_ok now s src -> (fetched = true -> exists u data, src = Some (u, data) /\ b - cacheTTL - lag < u) ->
  answer_ok q b fetched now (answer_of s now q).
Proof.
  intros Hs Hb. destruct q as [email|email]; cbn [answer_of answer_ok].
  - intros Hrole. destruct src as [[u data]|]; cbn [source_ok] in Hs.
    + destruct Hs as (HR & Hp & Hu & _). exists u, data. split_and!; [done| |done|].
      * unfold role_of. by rewrite Hp.
      * intros Hf. destruct (Hb Hf) as (u' & data' & [= <- <-] & Hlt). done.
    + destruct Hs as [Hempty _]. by rewrite Hempty, role_in_empty in Hrole.
  - unfold monitoring_access. destruct (GoStd.IsZero (lastFetch s)) eqn:Hz; [done|]. apply Z.eqb_neq in Hz.
    destruct (Z.ltb_spec monitoringTrustAge (Sub now (lastFetch s))) as [|Hage]; [done|]. cbn [orb].
    destruct (monitoringValid s) eqn:Hv; cbn [negb]; [|done].
    destruct (_ || _) eqn:Hr; [|done]. destruct src as [[u data]|]; [|by destruct Hs].
    destruct Hs as (HR & Hp & Hu & [Hl|Hl]); [done|]. exists u, data. split_and!; [done|unfold role_of; by rewrite Hp| | |done].
    + rewrite Hv in Hp. exists (roles s), (monitoring s). split; [done|]. apply orb_true_iff in Hr as [->%String.eqb_eq|Hr]; [by left|right].
      apply andb_true_iff in Hr as [Hn%negb_true_iff%String.eqb_neq Hin%bool_decide_eq_true]. done.
    + assert (now - lastFetch s <= monitoringTrustAge); [|lia].
      unfold Sub, int64_max, int64_min, monitoringTrustAge, Second in *. lia.
Qed.
End Invariant.

(** ** A step. *)
Section Steps.
Variable R : Time -> Data -> Prop.

Lemma thread_later (now now' : Time) src t : now <= now' -> thread_ok R now src t -> thread_ok R now' src t.
Proof. intros Hle. destruct t; cbn [thread_ok]; intuition lia. Qed.

Lemma source_later (now now' : Time) s src : now <= now' -> source_ok R now s src -> source_ok R now' s src.
Proof. intros Hle. destruct src as [[u data]|]; cbn [source_ok]; [|done]. intuition lia. Qed.

(** A cache filled from a read of at most [lag] ago serves every request. *)
Lemma thread_refilled (now u : Time) src data t :
  now - lag <= u -> thread_ok R now src t -> thread_ok R now (Some (u, data)) t.
Proof.
  intros Hu. destruct t as [| | | |q b f| | | | |]; cbn [thread_ok]; try done. intros [Hb _]. split; [done|].
  intros _. exists u, data. split; [done|]. unfold cacheTTL, Second. lia.
Qed.

Lemma set_thread_ok (w : World) src i t :
  world_ok R w src -> thread_ok R (clock w) src t -> world_ok R (set_thread w i t) src.
Proof. intros (Hc & Hs & Ht) Hok. split_and!; [done..|]. by apply Forall_insert. Qed.

Lemma set_config_ok (w : World) src c : world_ok R w src -> world_ok R (set_config w c) src.
Proof. done. Qed.

Lemma add_thread_ok (w : World) src t :
  world_ok R w src -> thread_ok R (clock w) src t ->
  world_ok R (mkWorld (config w) (version w) (store w) (threads w ++ [t])%list (clock w)) src.
Proof. intros (Hc & Hs & Ht) Hok. split_and!; [done..|]. cbn [threads clock]. apply Forall_app. by split; [|constructor]. Qed.

Lemma pass_ok (w : World) src d :
  world_ok R w src -> world_ok R (mkWorld (config w) (version w) (store w) (threads w) (clock w + Z.of_N d)) src.
Proof.
  intros (Hc & Hs & Ht). split_and!; cbn [clock store threads]; [lia| |].
  - eapply source_later; [|exact Hs]. lia.
  - eapply Forall_impl; [exact Ht|]. intros t. apply thread_later. lia.
Qed.

Lemma store_config_cases (s : RoleStore) (answer : option Data) (now : Time) :
  (answer ≫= parse = None /\ store_config decode_roles decode_emails s answer now = s) \/
  exists data r g v, answer = Some data /\ parse data = Some (r, g, v) /\
    store_config decode_roles decode_emails s answer now = mkStore r g v now.
Proof.
  destruct answer as [data|]; [|by left]. unfold store_config. cbn [mbind option_bind].
  destruct (parse data) as [[[r g] v]|] eqn:Hp; [right|left; done]. by exists data, r, g, v.
Qed.

Lemma storing_ok (w : World) src i q b u answer :
  world_ok R w src -> b <= u <= clock w -> clock w - u <= lag ->
  match answer with Some data => R u data | None => True end ->
  exists src', world_ok R (advance decode_roles decode_emails w i (Storing q b u answer) Fine) src'.
Proof.
  intros (Hc & Hs & Ht) Hu Hlag HR. cbn [advance].
  destruct (store_config_cases (store w) answer (clock w)) as [[Hn ->]|(data & r & g & v & -> & Hp & ->)].
  - exists src. apply set_thread_ok; [by destruct w|]. cbn [thread_ok]. split; [cbn; lia|]. rewrite Hn.
    rewrite bool_decide_eq_false_2 by (by intros [? ?]). done.
  - exists (Some (u, data)). apply set_thread_ok; [split_and!; cbn [store clock threads set_store]|].
    + done.
    + cbn [source_ok roles monitoring monitoringValid lastFetch]. split_and!; [done|done|lia|right; lia].
    + eapply Forall_impl; [exact Ht|]. intros t. apply (thread_refilled _ _ src). lia.
    + cbn [thread_ok set_store clock]. split; [lia|]. intros _. exists u, data. split; [done|]. unfold cacheTTL, Second. lia.
Qed.

Lemma peeking_ok (w : World) src i q b :
  world_ok R w src -> b <= clock w -> world_ok R (advance decode_roles decode_emails w i (Peeking q b) Fine) src.
Proof.
  intros Hw Hb. destruct q as [email|email]; cbn [advance]; [|by apply set_thread_ok].
  destruct (peek_role _ _ _) as [role|] eqn:Hp; [|by apply set_thread_ok].
  apply set_thread_ok; [done|]. destruct Hw as (Hc & Hs & Ht). unfold peek_role in Hp.
  destruct (cache_fresh _ _ && _) eqn:Hf; [|done]. injection Hp as <-. apply andb_true_iff in Hf as [Hf _].
  apply (answer_of_ok R (clock w) (store w) src (AskRole email) b true Hs). intros _.
  destruct (fresh_source R _ _ _ Hc Hs Hf) as (u & data & -> & Hu). exists u, data. split; [done|lia].
Qed.

Lemma invalidating_ok (w : World) src : world_ok R w src -> world_ok R (set_store w (invalidateCache (store w))) src.
Proof.
  intros (Hc & Hs & Ht). split_and!; [done| |done]. destruct src as [[u data]|]; cbn [source_ok] in *.
  - destruct Hs as (HR & Hp & Hu & _). split_and!; [done..|by left].
  - by destruct Hs.
Qed.

Lemma writing_ok (w : World) src i op creates tries read r :
  world_ok R w src -> world_ok R (writing w i op creates tries read r) src.
Proof.
  intros Hw. unfold writing. destruct (op _) as [data| |]; [|by apply set_thread_ok..].
  assert (Hset : forall t w', (w' = w \/ w' = set_config w (Some data)) -> thread_ok R (clock w) src t -> world_ok R (set_thread w' i t) src).
  { intros t w' [->| ->] Ht; by apply set_thread_ok. }
  unfold write_config. destruct r; [|apply Hset; [by left|done]|];
    destruct read as [[d v]|], (config w), tries; try destruct (v =? version w)%nat; cbn;
    solve [apply Hset; [by left|done] | apply (Hset _ (set_config w (Some data))); [by right|done]].
Qed.

Lemma advance_ok (w : World) src i t r :
  world_ok R w src -> thread_ok R (clock w) src t -> (forall data, config w = Some data -> R (clock w) data) ->
  match t with Storing _ _ u _ => clock w - u <= lag | _ => True end ->
  exists src', world_ok R (advance decode_roles decode_emails w i t r) src'.
Proof.
  intros Hw Ht Hnow Hlag. destruct t as [q b|q b|q b|q b u answer|q b f|q b f t role|op c n|op c n rd|d|d].
  - exists src. by apply peeking_ok.
  - exists src. cbn [advance]. apply set_thread_ok; [done|]. destruct (cache_fresh _ _) eqn:Hf; [|done]. cbn [thread_ok] in *. split; [done|].
    intros _. destruct Hw as (Hc & Hs & _). destruct (fresh_source R _ _ _ Hc Hs Hf) as (u & data & -> & Hu). exists u, data. split; [done|lia].
  - exists src. cbn [advance]. apply set_thread_ok; [done|]. cbn [thread_ok] in *. split; [lia|].
    destruct r; [|done..]. destruct (config w) as [data|] eqn:Hcfg; [|done]. by apply Hnow.
  - destruct Ht as [Hu HR]. by apply (storing_ok w src i q b u answer).
  - exists src. cbn [advance]. apply set_thread_ok; [done|]. cbn [thread_ok] in *. destruct Hw as (_ & Hs & _), Ht as [Hb Hf].
    by apply (answer_of_ok R _ _ src).
  - by exists src.
  - exists src. cbn [advance]. destruct r; [|by apply set_thread_ok..]. destruct (config w), c; by apply set_thread_ok.
  - exists src. by apply writing_ok.
  - exists src. cbn [advance]. by apply (set_thread_ok (set_store w _)); [apply invalidating_ok|].
  - by exists src.
Qed.

Lemma happen_ok (w : World) src e :
  world_ok R w src -> in_time lag w e = true -> (forall data, config w = Some data -> R (clock w) data) ->
  exists src', world_ok R (happen w e) src'.
Proof.
  intros Hw Hin Hnow. destruct e as [d|q|op c n|c|i r]; cbn [Roles.happen].
  - exists src. by apply pass_ok.
  - exists src. apply add_thread_ok; [done|]. destruct q; cbn; lia.
  - exists src. by apply add_thread_ok.
  - exists src. by apply set_config_ok.
  - destruct (threads w !! i) as [t|] eqn:Ht; [|by exists src].
    apply (advance_ok w src); [done| |done|].
    + destruct Hw as (_ & _ & Hall). by eapply Forall_lookup_1.
    + cbn [in_time] in Hin. rewrite Ht in Hin. destruct t; try done. by apply Z.leb_le.
Qed.
End Steps.

Lemma run_ok (c : option Data) (t0 : Time) (events pre post : list Event) (w : World) :
  monitoringTrustAge < t0 -> events = (pre ++ post)%list -> run (start c t0) pre = Some w ->
  exists src, world_ok (held (start c t0) events) w src.
Proof.
  intros Ht0. revert post w. induction pre as [|e pre IH] using rev_ind; intros post w He Hrun.
  - injection Hrun as <-. exists None. split_and!; [done|done|by constructor].
  - rewrite run_app in Hrun. destruct (run (start c t0) pre) as [w'|] eqn:Hpre; [|done].
    cbn [mbind option_bind Roles.run] in Hrun. destruct (in_time lag w' e) eqn:Hin; [|done]. injection Hrun as <-.
    rewrite <- app_assoc in He. destruct (IH ([e] ++ post)%list w' He eq_refl) as [src Hw].
    apply (happen_ok _ w' src); [done|done|]. intros data Hdata. exists pre, ([e] ++ post)%list, w'. done.
Qed.

(** C14: The role the console answers with was the user's in the ConfigMap, whatever the other
    requests, writers, failed reads and lost answers are. Where the request's refresh worked, or
    it found the cache fresh, the ConfigMap is at most the cache's thirty seconds (and the time
    a refresh takes to store what it read) older than the request; where the read failed, the last
    known role is kept. Monitoring access is never granted on a ConfigMap older than a minute and
    that time, failed reads included, and only to an admin or to a user with a role and a grant
    in a list that parses. *)
Theorem role_answers_bounded (c : option Data) (t0 : Time) (events : list Event) (w : World) (i : nat) q b fetched t answer :
  monitoringTrustAge < t0 -> run (start c t0) events = Some w ->
  threads w !! i = Some (Answered q b fetched t answer) ->
  match q, answer with
  | AskRole email, Some role =>
      role <> ""%string ->
      exists u data, held (start c t0) events u data /\ role_of data email = role /\ u <= t /\ (fetched = true -> b - cacheTTL - lag < u)
  | AskMonitoring email, Some role =>
      exists u data, held (start c t0) events u data /\ role_of data email = role /\ may_monitor data email /\
        t - monitoringTrustAge - lag <= u <= t
  | _, None => True
  end.
Proof.
  intros Ht0 Hrun Hi. destruct (run_ok c t0 events events [] w Ht0) as (src & _ & _ & Hall); [by rewrite app_nil_r|done|].
  by apply (Forall_lookup_1 _ _ _ _ Hall Hi).
Qed.
End Cache.

(** ** A console and a removal. *)
Module Race.
Import GrantsProps.Demo.

Abbreviation run := (run decode_roles decode_emails Second).

(** Ann asks for her role; the console reads the ConfigMap; another request
    removes her and finishes; the console stores what it read; she asks again. *)
Definition removal : list Event :=
  [Begin (AskRole "ann"); Step 0 Fine; Step 0 Fine; Step 0 Fine;
   Write (RemoveUser decode_roles encode_roles decode_emails encode_emails "ann") true 4; Step 1 Fine; Step 1 Fine; Step 1 Fine].

Definition asking_again : list Event := [Pass 1; Step 0 Fine; Begin (AskRole "ann"); Step 2 Fine].

Definition t0 : Time := 100 * Second.

Definition before : World := start (Some live) t0.

(** A user whose removal has finished is answered her old role by a request
    that begins later: the cache that the removal dropped is filled again by a
    refresh that read before it. *)
Lemma removed_user_admitted :
  exists w w', run before removal = Some w /\ threads w !! 1%nat = Some (Finished true) /\
    role_of decode_roles decode_emails (default ∅ (config w)) "ann" = ""%string /\
    run w asking_again = Some w' /\ threads w' !! 2%nat = Some (Answered (AskRole "ann") (t0 + 1) true (t0 + 1) (Some RoleAdmin)).
Proof.
  eexists _, _. split; [vm_compute; reflexivity|]. split; [vm_compute; reflexivity|]. split; [vm_compute; reflexivity|].
  split; vm_compute; reflexivity.
Qed.

(** Setting a role where the stored value is null assigns into no map. *)
Lemma set_role_panics (email role : string) (data : Data) :
  data !! UsersKey = Some "null"%string -> SetRole decode_roles encode_roles decode_emails encode_emails email role data = Panicked.
Proof. intros Hd. unfold SetRole, updateUsers. by rewrite Hd. Qed.
End Race.

Import GrantsProps.Demo Race.

Lemma role_answers_bounded_witness :
  exists w, run before (removal ++ asking_again) = Some w /\
    threads w !! 2%nat = Some (Answered (AskRole "ann") (t0 + 1) true (t0 + 1) (Some RoleAdmin)) /\
    exists u data, held decode_roles decode_emails Second before (removal ++ asking_again) u data /\
      role_of decode_roles decode_emails data "ann" = RoleAdmin /\ u <= t0 + 1 /\ t0 + 1 - cacheTTL - Second < u.
Proof.
  destruct (run before (removal ++ asking_again)) as [w|] eqn:Hrun; [|vm_compute in Hrun; discriminate].
  exists w. split; [reflexivity|].
  assert (Hi : threads w !! 2%nat = Some (Answered (AskRole "ann") (t0 + 1) true (t0 + 1) (Some RoleAdmin))).
  { assert (He : (run before (removal ++ asking_again) ≫= fun w => threads w !! 2%nat) = Some (Answered (AskRole "ann") (t0 + 1) true (t0 + 1) (Some RoleAdmin)))
      by (vm_compute; reflexivity).
    rewrite Hrun in He. exact He. }
  split; [exact Hi|].
  destruct (role_answers_bounded decode_roles decode_emails Second ltac:(unfold Second; lia) (Some live) t0 (removal ++ asking_again) w 2
    (AskRole "ann") (t0 + 1) true (t0 + 1) (Some RoleAdmin) eq_refl Hrun Hi) as (u & data & H1 & H2 & H3 & H4); [discriminate|].
  exists u, data. split; [exact H1|]. split; [exact H2|]. split; [exact H3|by apply H4].
Defined.
