(* ===== verification/NsOwner.v ===== *)
(** * Namespace ownership ([src/console-api/internal/nsowner/nsowner.go])

    A namespace's project label says whose it is; a project's status records
    which namespaces it took, by name and, in claims, by UID. The label still
    decides while the records are being filled. *)

From Stdlib Require Import Ascii.
From stdpp Require Import base tactics numbers countable list option strings gmap.
From S2P Require Import Prelude Calls GoStd.

Local Open Scope string_scope.

Record NamespaceClaim := mkClaim { ClaimName : string; ClaimUID : string }.

Record ProjectStatus := mkStatus { Namespaces : list string; NamespaceClaims : list NamespaceClaim }.

Record ProjectMember := mkMember { Email : string; MemberRole : string }.

(** The maps of labels and of annotations. *)
Abbreviation Strmap := (@gmap string String.eq_dec String.countable string).

(** [PVersion] and [NVersion] are resource versions. *)
Record Project := mkProject {
  PName : string; PUID : string; PVersion : nat; PDeleting : bool; Finalizer : bool;
  Environments : list string; Tier : string; MaxEnvironments : option Z;
  Members : list ProjectMember; Status : ProjectStatus
}.

Record Namespace := mkNamespace {
  NName : string; NUID : string; NVersion : nat; NDeleting : bool; NLabels : Strmap; NAnnotations : Strmap
}.

(** [labels.Project]. *)
Definition ProjectLabel : string := "kipper.run/project".

(** What a read of an object answers. *)
Inductive Read (A : Type) := Got (a : A) | NotFound | Failed.

Arguments Got {A} a.
Arguments NotFound {A}.
Arguments Failed {A}.

Definition Claimed (claims : list NamespaceClaim) (namespace uid : string) : bool :=
  existsb (fun c => (ClaimName c =? namespace) && (ClaimUID c =? uid)) claims.

Definition contains (names : list string) (name : string) : bool := existsb (fun n => n =? name) names.

Definition HoldsObject (status : ProjectStatus) (namespace uid : string) : bool :=
  if Claimed (NamespaceClaims status) namespace uid then true
  else if existsb (fun c => ClaimName c =? namespace) (NamespaceClaims status) then false
  else contains (Namespaces status) namespace.

Definition ClaimedElsewhere (projects : list Project) (self namespace uid : string) : bool :=
  existsb (fun p => negb (PName p =? self) && Claimed (NamespaceClaims (Status p)) namespace uid) projects.

Definition EverHeld (status : ProjectStatus) (namespace uid : string) : bool :=
  if Claimed (NamespaceClaims status) namespace uid then true else contains (Namespaces status) namespace.

Definition fallbackToLabel : bool := true.

Inductive OwnerError := ReadingNamespace | ReadingProject.

(** The label of a namespace; none and the empty one are the same. *)
Definition project_label (ns : Namespace) : string := default "" (NLabels ns !! ProjectLabel).

Section Of.
Context {E : Type -> Type} {Reader : Type}.
Variable get_namespace : Reader -> string -> prog E (Read Namespace).
Variable get_project : Reader -> string -> prog E (Read Project).

Definition OfNamespace (reader : option Reader) (ns : option Namespace) : prog E (result OwnerError (option string)) :=
  match reader, ns with
  | Some reader, Some ns =>
      let candidate := project_label ns in
      if candidate =? "" then mret (Ok None)
      else
        answer ← get_project reader candidate;
        mret match answer with
             | NotFound => Ok None
             | Failed => Err ReadingProject
             | Got p =>
                 if HoldsObject (Status p) (NName ns) (NUID ns) then Ok (Some candidate)
                 else if fallbackToLabel then Ok (Some candidate)
                 else Ok None
             end
  | _, _ => mret (Ok None)
  end.

Definition Of (reader : option Reader) (namespace : string) : prog E (result OwnerError (option string)) :=
  match reader with
  | None => mret (Ok None)
  | Some r =>
      answer ← get_namespace r namespace;
      match answer with
      | NotFound => mret (Ok None)
      | Failed => mret (Err ReadingNamespace)
      | Got ns => OfNamespace reader (Some ns)
      end
  end.

Definition is_owner (project : string) (answer : result OwnerError (option string)) : result OwnerError bool :=
  match answer with
  | Err e => Err e
  | Ok None => Ok false
  | Ok (Some owner) => Ok (owner =? project)
  end.

Definition OwnsNamespace (reader : option Reader) (project : string) (ns : option Namespace) : prog E (result OwnerError bool) :=
  answer ← OfNamespace reader ns; mret (is_owner project answer).

Definition Owns (reader : option Reader) (project namespace : string) : prog E (result OwnerError bool) :=
  answer ← Of reader namespace; mret (is_owner project answer).
End Of.

Lemma Claimed_spec (claims : list NamespaceClaim) (namespace uid : string) :
  Claimed claims namespace uid = true <-> mkClaim namespace uid ∈ claims.
Proof.
  unfold Claimed. rewrite existsb_exists. split.
  - intros ([n u] & Hin & Hc). simpl in Hc. apply andb_true_iff in Hc as [->%String.eqb_eq ->%String.eqb_eq]. by apply list_elem_of_In.
  - intros Hin%list_elem_of_In. exists (mkClaim namespace uid). split; [done|]. simpl. by rewrite !String.eqb_refl.
Qed.

Lemma contains_spec (names : list string) (name : string) : contains names name = true <-> name ∈ names.
Proof.
  unfold contains. rewrite existsb_exists. split.
  - intros (n & Hin & ->%String.eqb_eq). by apply list_elem_of_In.
  - intros Hin%list_elem_of_In. exists name. by rewrite String.eqb_refl.
Qed.

Lemma ClaimedElsewhere_spec (projects : list Project) (self namespace uid : string) :
  ClaimedElsewhere projects self namespace uid = true <->
  exists p, p ∈ projects /\ PName p <> self /\ mkClaim namespace uid ∈ NamespaceClaims (Status p).
Proof.
  unfold ClaimedElsewhere. rewrite existsb_exists. split.
  - intros (p & Hin & [Hn%negb_true_iff%String.eqb_neq Hc%Claimed_spec]%andb_true_iff). exists p. by rewrite list_elem_of_In.
  - intros (p & Hin%list_elem_of_In & Hn%String.eqb_neq & Hc%Claimed_spec). exists p. by rewrite Hn, Hc.
Qed.

Lemma HoldsObject_spec (status : ProjectStatus) (namespace uid : string) :
  HoldsObject status namespace uid = true <->
  mkClaim namespace uid ∈ NamespaceClaims status \/
  (namespace ∈ Namespaces status /\ forall u, mkClaim namespace u ∉ NamespaceClaims status).
Proof.
  unfold HoldsObject. destruct (Claimed _ _ _) eqn:Hc; [apply Claimed_spec in Hc; tauto|].
  assert (Hn : mkClaim namespace uid ∉ NamespaceClaims status) by (rewrite <- Claimed_spec; by rewrite Hc).
  destruct (existsb _ _) eqn:He.
  - apply existsb_exists in He as ([n u] & Hin%list_elem_of_In & Hn'). simpl in Hn'. apply String.eqb_eq in Hn' as ->. naive_solver.
  - rewrite contains_spec. split; [|tauto]. intros Hin. right. split; [done|]. intros u Hu%list_elem_of_In.
    assert (Ht : existsb (fun c => ClaimName c =? namespace) (NamespaceClaims status) = true); [|by rewrite He in Ht].
    apply existsb_exists. exists (mkClaim namespace u). split; [done|apply String.eqb_refl].
Qed.

Lemma EverHeld_spec (status : ProjectStatus) (namespace uid : string) :
  EverHeld status namespace uid = true <-> mkClaim namespace uid ∈ NamespaceClaims status \/ namespace ∈ Namespaces status.
Proof.
  unfold EverHeld. destruct (Claimed _ _ _) eqn:Hc; [apply Claimed_spec in Hc; tauto|].
  rewrite contains_spec. split; [tauto|]. intros [Hin%Claimed_spec|]; [congruence|done].
Qed.

Lemma HoldsObject_EverHeld (status : ProjectStatus) (namespace uid : string) :
  HoldsObject status namespace uid = true -> EverHeld status namespace uid = true.
Proof. rewrite HoldsObject_spec, EverHeld_spec. tauto. Qed.
