(* ===== verification/Access.v ===== *)
(** * Project access ([src/console-api/middleware])

    Who may act on a namespace or a project: the global role, the project that
    owns the namespace, the project's members and the role's capabilities
    ([projectaccess.go], [projectmembers.go]), and the gates of a request
    ([projectguard.go], the end of [roles.go]). The reader of ownership is
    swapped while requests are in flight. *)

From Stdlib Require Import Ascii.
From stdpp Require Import base tactics numbers countable list option strings gmap.
From S2P Require Import Prelude Calls GoStd Capability Roles NsOwner.

Local Open Scope string_scope.

Record ProjectAccess := mkAccess { AProject : string; ARole : string; IsAdmin : bool }.

Definition ProjectRoleViewer : string := "viewer".

Definition ProjectRoleDeployer : string := "deployer".

Definition ProjectRoleOwner : string := "owner".

Definition Allows (a : ProjectAccess) (required : Name) : bool := Holds (ARole a) required.

(** ** The readers of ownership. *)

(** The API server's, and a manager's cache. *)
Inductive Reader := Live | Cache (manager : nat).

Record Owners := mkOwners { owners : option Reader; ownersRetired : bool; ownersGen : Z }.

Definition next_gen (gen : Z) : Z := ((gen + 1) mod 2 ^ 64)%Z.

Definition UseOwners (r : option Reader) (o : Owners) : Owners :=
  match r with
  | None => o
  | Some _ => if ownersRetired o then o else mkOwners r (ownersRetired o) (next_gen (ownersGen o))
  end.

Definition RetireOwners (live : option Reader) (o : Owners) : Owners :=
  mkOwners (match live with Some _ => live | None => owners o end) true (next_gen (ownersGen o)).

Definition NewProjectAccessResolver (r : option Reader) : Owners := mkOwners r false 0.

(** ** A request's calls. *)

Inductive Ask : Type -> Type :=
| GetRole (email : string) : Ask string
| OwnerReader : Ask (option Reader * Z)
| OwnersGen : Ask Z
| GetNamespace (r : Reader) (name : string) : Ask (Read Namespace)
| GetProject (r : Reader) (name : string) : Ask (Read Project)
| ClientNamespace (name : string) : Ask (Read Namespace)
| MembersProject (name : string) : Ask (Read Project).

Definition owner_of : option Reader -> string -> prog Ask (result OwnerError (option string)) :=
  Of (fun r name => call (GetNamespace r name)) (fun r name => call (GetProject r name)).

Inductive AccessError := OwnerUnread (e : OwnerError) | OwnersChanged | NamespaceUnread.

Definition ownersChangedSince (gen : Z) : prog Ask bool := now ← call OwnersGen; mret (negb (now =? gen)%Z).

(** The loop of [projectForName], with the attempts left. *)
Fixpoint settle (attempts : nat) (name : string) : prog Ask (result AccessError (option string)) :=
  match attempts with
  | 0%nat => mret (Err OwnersChanged)
  | S attempts' =>
      taken ← call OwnerReader;
      answer ← owner_of taken.1 name;
      match answer with
      | Err e => mret (Err (OwnerUnread e))
      | Ok project =>
          changed ← ownersChangedSince taken.2;
          if changed : bool then settle attempts' name else mret (Ok project)
      end
  end.

Definition projectForName (name : string) : prog Ask (result AccessError string) :=
  settled ← settle 4 name;
  match settled with
  | Err e => mret (Err e)
  | Ok (Some project) => mret (Ok project)
  | Ok None =>
      answer ← call (ClientNamespace name);
      mret match answer with
           | NotFound => Ok name
           | Failed => Err NamespaceUnread
           | Got _ => Ok ""
           end
  end.

(** A member listed twice has the last role. *)
Definition member_roles (p : Project) : Data := foldl (fun m e => <[Email e := MemberRole e]> m) ∅ (Members p).

Definition ProjectMembers (project : string) : prog Ask (Read Data) :=
  answer ← call (MembersProject project);
  mret match answer with
       | Got p => Got (member_roles p)
       | NotFound => NotFound
       | Failed => Failed
       end.

Definition resolveProject (email project globalRole : string) : prog Ask (option ProjectAccess) :=
  if globalRole =? "" then mret None
  else if globalRole =? RoleAdmin then mret (Some (mkAccess project ProjectRoleOwner true))
  else if project =? "" then mret None
  else
    answer ← ProjectMembers project;
    mret match answer with
         | Got members =>
             match members !! email with
             | Some role => if KnownRole role then Some (mkAccess project role false) else None
             | None => None
             end
         | _ => None
         end.

Definition Resolve (email namespace : string) : prog Ask (option ProjectAccess) :=
  globalRole ← call (GetRole email);
  if globalRole =? "" then mret None
  else
    answer ← projectForName namespace;
    match answer with
    | Err _ => mret None
    | Ok project => resolveProject email project globalRole
    end.

Definition ResolveProject (email project : string) : prog Ask (option ProjectAccess) :=
  globalRole ← call (GetRole email); resolveProject email project globalRole.

(** ** The gates. A gate answers a status or lets the request through. *)

Inductive Gate (A : Type) := Refuse (status : Z) (message : string) | Serve (a : A).

Arguments Refuse {A} status message.
Arguments Serve {A} a.

Definition StatusBadRequest : Z := 400.

Definition StatusUnauthorized : Z := 401.

Definition StatusForbidden : Z := 403.

Definition admit_access (access : option ProjectAccess) : Gate ProjectAccess :=
  match access with
  | Some a => Serve a
  | None => Refuse StatusForbidden "forbidden: you do not have access to this project"
  end.

Definition scopeBy (resolve : string -> string -> prog Ask (option ProjectAccess)) (claims : option string) (name : string)
  : prog Ask (Gate ProjectAccess) :=
  match claims with
  | None => mret (Refuse StatusUnauthorized "unauthorized")
  | Some email => access ← resolve email name; mret (admit_access access)
  end.

Definition ProjectScope := scopeBy ResolveProject.

Definition NamespaceScope := scopeBy Resolve.

Definition ProjectScopeQuery (claims : option string) (namespace : string) : prog Ask (Gate ProjectAccess) :=
  match claims with
  | None => mret (Refuse StatusUnauthorized "unauthorized")
  | Some email =>
      if namespace =? "" then mret (Refuse StatusBadRequest "namespace query parameter is required")
      else access ← Resolve email namespace; mret (admit_access access)
  end.

Definition RequireCapability (required : Name) (access : option ProjectAccess) : Gate unit :=
  match access with
  | Some a => if Allows a required then Serve tt else Refuse StatusForbidden "forbidden: insufficient project permissions"
  | None => Refuse StatusForbidden "forbidden: insufficient project permissions"
  end.

(** A scope, then the capability its route requires. *)
Definition guarded (scope : prog Ask (Gate ProjectAccess)) (required : Name) : prog Ask (Gate ProjectAccess) :=
  gate ← scope;
  mret match gate with
       | Refuse status message => Refuse status message
       | Serve a => match RequireCapability required (Some a) with Refuse status message => Refuse status message | Serve _ => Serve a end
       end.

(** The global role in the request, [None] where no one is signed in. *)
Definition RoleMiddleware (claims : option string) : prog Ask (Gate (option string)) :=
  match claims with
  | None => mret (Serve None)
  | Some email =>
      role ← call (GetRole email);
      mret (if role =? "" then Refuse StatusForbidden "forbidden: no role assigned. Contact your cluster admin" else Serve (Some role))
  end.

Definition RequireRole (allowed : list string) (role : option string) : Gate unit :=
  if contains allowed (default "" role) then Serve tt else Refuse StatusForbidden "forbidden: insufficient permissions".

(** ** The server around a request. *)

(** What a reader sees. *)
Record View := mkView { namespaces : string -> Read Namespace; projects : string -> Read Project }.

Record World := mkWorld { swap : Owners; sees : Reader -> View; client : View; roles_now : string -> string }.

Inductive Event :=
| Use (r : option Reader)
| Retire (live : option Reader)
| See (r : Reader) (v : View)
| SeeClient (v : View)
| SetRoles (roles : string -> string).

#[export] Instance Reader_eq_dec : EqDecision Reader.
Proof. solve_decision. Defined.

Definition happen (e : Event) (w : World) : World :=
  match e with
  | Use r => mkWorld (UseOwners r (swap w)) (sees w) (client w) (roles_now w)
  | Retire live => mkWorld (RetireOwners live (swap w)) (sees w) (client w) (roles_now w)
  | See r v => mkWorld (swap w) (fun r' => if decide (r' = r) then v else sees w r') (client w) (roles_now w)
  | SeeClient v => mkWorld (swap w) (sees w) v (roles_now w)
  | SetRoles roles => mkWorld (swap w) (sees w) (client w) roles
  end.

Definition reply {R : Type} (a : Ask R) (w : World) : R :=
  match a in Ask R return R with
  | GetRole email => roles_now w email
  | OwnerReader => (owners (swap w), ownersGen (swap w))
  | OwnersGen => ownersGen (swap w)
  | GetNamespace r name => namespaces (sees w r) name
  | GetProject r name => projects (sees w r) name
  | ClientNamespace name => namespaces (client w) name
  | MembersProject name => projects (client w) name
  end.

(** A call changes nothing and has no faults of its own; the log keeps the
    world it saw. *)
Definition answer (R : Type) (a : Ask R) (_ : unit) (w : World) : World * R := (w, reply a w).

Definition saw (R : Type) (_ : Ask R) (w : World) (_ : R) : World := w.

Abbreviation attend := (Calls.attend answer happen tt saw).

Definition result_of {A : Type} (p : prog Ask A) (w : World) (script : list (list Event * unit)) : A := (attend p w script).2.
