(* ===== verification/AccessProps.v ===== *)
(** * Project access: theorems

    Who passes the gates of a route, and which reader the answer about a
    namespace's owner came from while readers are swapped. *)

From Stdlib Require Import Ascii.
From stdpp Require Import base tactics numbers countable list option strings gmap.
From S2P Require Import Prelude Calls GoStd Capability Roles NsOwner Access.

Local Open Scope string_scope.

(** ** A request among events. *)

Lemma alone_world {A : Type} (p : prog Ask A) (w : World) : (alone answer tt p w).1 = w.
Proof. revert w. induction p as [a|R e k IH]; intros w; [done|]. apply IH. Qed.

Lemma attend_quiet {A : Type} (p : prog Ask A) (w : World) : (attend p w []).1.2 = (w, []).
Proof. by rewrite (proj1 (attend_alone _ _ _ _ p w)), alone_world. Qed.

Lemma result_bind {A B : Type} (p : prog Ask A) (f : A -> prog Ask B) (w : World) :
  result_of (p ≫= f) w [] = result_of (f (result_of p w [])) w [].
Proof.
  unfold result_of. rewrite attend_bind. pose proof (attend_quiet p w) as Hq.
  destruct (attend p w []) as [[log rest] a]. cbn in *. subst rest. by destruct (attend (f a) w []) as [[? ?] ?].
Qed.

Lemma result_ret {A : Type} (a : A) (w : World) : result_of (mret a) w [] = a.
Proof. done. Qed.

Lemma result_call {R : Type} (e : Ask R) (w : World) : result_of (call e) w [] = reply e w.
Proof. done. Qed.

Create Rewrite HintDb quiet.
#[local] Hint Rewrite @result_bind @result_ret @result_call : quiet.

(** ** Who owns a namespace. *)

(** The reader says the namespace is labelled for a project that exists. *)
Definition owned (w : World) (name p : string) : Prop :=
  exists r ns proj, owners (swap w) = Some r /\ namespaces (sees w r) name = Got ns /\ project_label ns = p /\ p <> "" /\
    projects (sees w r) p = Got proj.

Definition unread (w : World) (name : string) : Prop :=
  exists r, owners (swap w) = Some r /\
    (namespaces (sees w r) name = Failed \/
     exists ns, namespaces (sees w r) name = Got ns /\ project_label ns <> "" /\ projects (sees w r) (project_label ns) = Failed).

(** The project a name stands for: the owner of the namespace, none where the
    namespace is there without one, and the name itself where it is not. *)
Definition stands_for (w : World) (name p : string) : Prop :=
  ~ unread w name /\
  (owned w name p \/
   ((forall p', ~ owned w name p') /\
    ((namespaces (client w) name = NotFound /\ p = name) \/ (exists ns, namespaces (client w) name = Got ns /\ p = "")))).

(** A hypothesis that an owner is read, or that a read fails, against what the
    reader answers. *)
Ltac read_against :=
  lazymatch goal with
  | |- ~ owned _ _ _ => intros (r' & ns' & proj' & Hr' & Hns' & Hl' & Hne' & Hp')
  | |- ~ unread _ _ => intros (r' & Hr' & [Hns'|(ns' & Hns' & Hl' & Hp')])
  end; simplify_eq; congruence.

Lemma owner_of_quiet (w : World) (name : string) :
  match result_of (owner_of (owners (swap w)) name) w [] with
  | Ok (Some p) => owned w name p /\ ~ unread w name
  | Ok None => (forall p, ~ owned w name p) /\ ~ unread w name
  | Err _ => unread w name
  end.
Proof.
  unfold owner_of, Of. destruct (owners (swap w)) as [r|] eqn:Hr; [|split; [intros p|]; read_against].
  autorewrite with quiet. cbn [reply]. destruct (namespaces (sees w r) name) as [ns| |] eqn:Hns.
  2: split; [intros p|]; read_against.
  2: by exists r; auto.
  unfold OfNamespace. destruct (String.eqb_spec (project_label ns) "") as [Hl|Hl]; [split; [intros p|]; read_against|].
  autorewrite with quiet. cbn [reply]. destruct (projects (sees w r) (project_label ns)) as [proj| |] eqn:Hp.
  - replace (if HoldsObject _ _ _ then _ else _) with (@Ok OwnerError _ (Some (project_label ns))) by (by destruct (HoldsObject _ _ _)).
    split; [by exists r, ns, proj|read_against].
  - split; [intros p|]; read_against.
  - exists r. split; [done|]. right. by exists ns.
Qed.

Lemma settle_quiet (n : nat) (w : World) (name : string) :
  result_of (settle (S n) name) w [] =
  match result_of (owner_of (owners (swap w)) name) w [] with Ok p => Ok p | Err e => Err (OwnerUnread e) end.
Proof.
  cbn [settle]. autorewrite with quiet. cbn [reply fst snd]. destruct (result_of (owner_of _ _) _ _) as [p|e]; [|done].
  unfold ownersChangedSince. autorewrite with quiet. cbn [reply]. by rewrite Z.eqb_refl.
Qed.

Lemma owned_unique (w : World) (name p q : string) : owned w name p -> owned w name q -> p = q.
Proof. intros (r & ns & proj & Hr & Hns & Hl & _) (r' & ns' & proj' & Hr' & Hns' & Hl' & _). simplify_eq. congruence. Qed.

Lemma projectForName_quiet (w : World) (name p : string) :
  result_of (projectForName name) w [] = Ok p <-> stands_for w name p.
Proof.
  unfold projectForName, stands_for. autorewrite with quiet. rewrite settle_quiet. pose proof (owner_of_quiet w name) as Ho.
  destruct (result_of (owner_of _ _) _ _) as [[q|]|e].
  - destruct Ho as [Ho Hu]. rewrite result_ret. split; [intros [= <-]; auto|]. intros [_ [Hp|[Hn _]]]; [by rewrite (owned_unique _ _ _ _ Ho Hp)|by destruct (Hn q)].
  - destruct Ho as [Ho Hu]. autorewrite with quiet. cbn [reply]. destruct (namespaces (client w) name) as [ns| |] eqn:Hc.
    + split; [intros [= <-]; split; [done|right; split; [done|right; by exists ns]]|]. intros [_ [Hp|[_ [[? ?]|(? & _ & ->)]]]]; [by destruct (Ho p)|done|done].
    + split; [intros [= <-]; split; [done|right; split; [done|by left]]|]. intros [_ [Hp|[_ [[_ ->]|(? & ? & _)]]]]; [by destruct (Ho p)|done|done].
    + split; [done|]. intros [_ [Hp|[_ [[? ?]|(? & ? & _)]]]]; [by destruct (Ho p)|done|done].
  - rewrite result_ret. split; [done|]. by intros [Hu _].
Qed.

(** ** Who passes. *)

(** What a caller gets on a project: an administrator everything, another the
    role the project lists last for them. *)
Definition acts (w : World) (email p : string) (a : ProjectAccess) : Prop :=
  (roles_now w email = RoleAdmin /\ a = mkAccess p ProjectRoleOwner true) \/
  (roles_now w email <> RoleAdmin /\ roles_now w email <> "" /\ p <> "" /\
   exists proj role, projects (client w) p = Got proj /\ member_roles proj !! email = Some role /\ a = mkAccess p role false).

Lemma resolveProject_quiet (w : World) (email p : string) (a : ProjectAccess) :
  result_of (resolveProject email p (roles_now w email)) w [] = Some a <-> acts w email p a /\ KnownRole (ARole a) = true.
Proof.
  unfold resolveProject, acts. destruct (String.eqb_spec (roles_now w email) "") as [He|He].
  { split; [done|]. rewrite He. by intros [[[? _]|(_ & ? & _)] _]. }
  destruct (String.eqb_spec (roles_now w email) RoleAdmin) as [Ha|Ha].
  { rewrite result_ret. split; [intros [= <-]; auto|]. by intros [[[_ ->]|(? & _)] _]. }
  destruct (String.eqb_spec p "") as [->|Hp]; [split; [done|]; by intros [[[? _]|(_ & _ & ? & _)] _]|].
  unfold ProjectMembers. autorewrite with quiet. cbn [reply]. destruct (projects (client w) p) as [proj| |] eqn:Hproj.
  2,3: split; [done|]; by intros [[[? _]|(_ & _ & _ & ? & ? & ? & _)] _].
  destruct (member_roles proj !! email) as [role|] eqn:Hm.
  2: split; [done|]; intros [[[? _]|(_ & _ & _ & ? & ? & [= <-] & ? & _)] _]; congruence.
  destruct (KnownRole role) eqn:Hk.
  - split; [intros [= <-]; split; [right; eauto 10|done]|]. intros [[[? _]|(_ & _ & _ & ? & ? & [= <-] & ? & ->)] _]; congruence.
  - split; [done|]. intros [[[? _]|(_ & _ & _ & ? & ? & [= <-] & ? & ->)] Hk']; [done|]. simpl in Hk'. congruence.
Qed.

Lemma acts_someone (w : World) (email p : string) (a : ProjectAccess) : acts w email p a -> roles_now w email <> "".
Proof. intros [[-> _]|(_ & H & _)]; done. Qed.

Lemma Resolve_quiet (w : World) (email name : string) (a : ProjectAccess) :
  result_of (Resolve email name) w [] = Some a <-> exists p, stands_for w name p /\ acts w email p a /\ KnownRole (ARole a) = true.
Proof.
  unfold Resolve. autorewrite with quiet. cbn [reply]. destruct (String.eqb_spec (roles_now w email) "") as [He|He].
  { split; [done|]. intros (p & _ & Ha%acts_someone & _). done. }
  autorewrite with quiet. destruct (result_of (projectForName name) w []) as [p|e] eqn:Hp.
  - rewrite resolveProject_quiet. split; [intros H; exists p; by rewrite <- projectForName_quiet|].
    intros (q & Hq%projectForName_quiet & H). rewrite Hq in Hp. by injection Hp as ->.
  - split; [done|]. intros (q & Hq%projectForName_quiet & _). congruence.
Qed.

Lemma guarded_quiet (scope : prog Ask (Gate ProjectAccess)) (w : World) (required : Name) (a : ProjectAccess) :
  result_of (guarded scope required) w [] = Serve a <-> result_of scope w [] = Serve a /\ Allows a required = true.
Proof.
  unfold guarded. autorewrite with quiet. destruct (result_of scope w []) as [status m|a']; [split; [done|by intros []]|].
  unfold RequireCapability. destruct (Allows a' required) eqn:Ha; [|split; [done|]; intros [[= ->] ?]; congruence].
  split; [intros [= <-]|intros [[= <-] _]]; done.
Qed.

Lemma scopeBy_quiet (resolve : string -> string -> prog Ask (option ProjectAccess)) claims (w : World) name a :
  result_of (scopeBy resolve claims name) w [] = Serve a <-> exists email, claims = Some email /\ result_of (resolve email name) w [] = Some a.
Proof.
  unfold scopeBy. destruct claims as [email|]; [|split; [done|by intros (? & ? & _)]]. autorewrite with quiet.
  unfold admit_access. destruct (result_of (resolve email name) w []) as [a'|] eqn:Hr; split; try done.
  - intros [= <-]. by exists email.
  - intros (? & [= <-] & H). congruence.
  - intros (? & [= <-] & H). congruence.
Qed.

Lemma Allows_known (a : ProjectAccess) (required : Name) : Allows a required = true -> KnownRole (ARole a) = true.
Proof. unfold Allows, Holds, KnownRole. by destruct (role_names (ARole a)). Qed.

(** C15: A request passes the gates of a namespace's route exactly when it is signed in, its caller
    has a global role, every read worked, and the project the namespace stands for (its label's,
    where that project exists; the name itself where there is no such namespace) lists the
    caller with a role that holds the route's capability, or the caller is an administrator. An
    existing namespace that no project owns is for administrators alone. The routes of a
    project ask the same of the project named. *)
Theorem gates_exact (claims : option string) (name : string) (required : Name) (w : World) (a : ProjectAccess) :
  (result_of (guarded (NamespaceScope claims name) required) w [] = Serve a <->
     exists email p, claims = Some email /\ stands_for w name p /\ acts w email p a /\ Allows a required = true) /\
  (result_of (guarded (ProjectScopeQuery claims name) required) w [] = Serve a <->
     name <> "" /\ exists email p, claims = Some email /\ stands_for w name p /\ acts w email p a /\ Allows a required = true) /\
  (result_of (guarded (ProjectScope claims name) required) w [] = Serve a <->
     exists email, claims = Some email /\ acts w email name a /\ Allows a required = true).
Proof.
  assert (Hns : result_of (guarded (NamespaceScope claims name) required) w [] = Serve a <->
     exists email p, claims = Some email /\ stands_for w name p /\ acts w email p a /\ Allows a required = true).
  { unfold NamespaceScope. rewrite guarded_quiet, scopeBy_quiet. setoid_rewrite Resolve_quiet. split.
    - intros ((email & Hc & p & Hp & Ha & _) & Hall). eauto 10.
    - intros (email & p & Hc & Hp & Ha & Hall). split; [|done]. eauto 10 using Allows_known. }
  split; [exact Hns|]. split.
  - destruct (String.eqb_spec name "") as [->|Hn].
    + rewrite guarded_quiet. unfold ProjectScopeQuery. destruct claims as [email|]; (split; [by intros [? _]|by intros [? _]]).
    + rewrite <- Hns, !guarded_quiet. unfold ProjectScopeQuery, NamespaceScope, scopeBy. apply String.eqb_neq in Hn as Hb. rewrite Hb.
      destruct claims; tauto.
  - unfold ProjectScope. rewrite guarded_quiet, scopeBy_quiet. unfold ResolveProject.
    split.
    + intros ((email & Hc & Hr) & Hall). autorewrite with quiet in Hr. cbn [reply] in Hr. apply resolveProject_quiet in Hr as [Ha _]. eauto.
    + intros (email & Hc & Ha & Hall). split; [|done]. exists email. split; [done|]. autorewrite with quiet. cbn [reply].
      apply resolveProject_quiet. eauto using Allows_known.
Qed.

(** ** Swaps of the reader while a request runs. *)

Definition is_swap (e : Event) : bool := match e with Use _ | Retire _ => true | _ => false end.

Definition swaps_in (es : list Event) : nat := length (List.filter is_swap es).

Definition swaps (script : list (list Event * unit)) : nat := swaps_in (concat (map fst script)).

Abbreviation happened := (Calls.happened happen).

Definition now_events (script : list (list Event * unit)) : list Event := (upcoming tt script).1.

Lemma swaps_split (script : list (list Event * unit)) : swaps script = (swaps_in (now_events script) + swaps (tail script))%nat.
Proof. destruct script as [|[es []] script]; [done|]. unfold swaps, swaps_in. simpl. by rewrite List.filter_app, length_app. Qed.

Lemma attend_ask {A R : Type} (e : Ask R) (k : R -> prog Ask A) (w : World) (script : list (list Event * unit)) :
  attend (Call e k) w script =
  let w' := happened w (now_events script) in
  let '(log, rest, a) := attend (k (reply e w')) w' (tail script) in (w' :: log, rest, a).
Proof. done. Qed.

(** The program's next call, made. *)
Tactic Notation "next_call" := unfold call; cbn [mbind prog_MBind prog_bind]; rewrite attend_ask; cbv zeta; cbn [reply fst snd].

Tactic Notation "next_call" hyp(H) :=
  unfold call at 1 in H; cbn [mbind prog_MBind prog_bind] in H; rewrite attend_ask in H; cbv zeta in H; cbn [reply fst snd] in H.

(** The generation is a 64-bit counter; [w'] comes after at most [k] swaps. *)
Definition counted (w : World) : Prop := (0 <= ownersGen (swap w) < 2 ^ 64)%Z.

Definition after (k : nat) (w w' : World) : Prop :=
  exists n : nat, (n <= k)%nat /\ ownersGen (swap w') = ((ownersGen (swap w) + Z.of_nat n) mod 2 ^ 64)%Z /\ (n = 0%nat -> swap w' = swap w).

Lemma after_refl (w : World) : counted w -> after 0 w w.
Proof. intros Hc. exists 0%nat. split; [done|]. split; [|done]. rewrite Z.add_0_r. by rewrite Z.mod_small. Qed.

Lemma after_trans (k k' : nat) (w w' w'' : World) : after k w w' -> after k' w' w'' -> after (k + k') w w''.
Proof.
  intros (n & Hn & Hg & Hs) (n' & Hn' & Hg' & Hs'). exists (n + n')%nat. split; [lia|]. split.
  - rewrite Hg', Hg, Zplus_mod_idemp_l. f_equal. lia.
  - intros H0. rewrite Hs', Hs by lia. done.
Qed.

Lemma after_counted (k : nat) (w w' : World) : after k w w' -> counted w'.
Proof. intros (n & _ & Hg & _). unfold counted. rewrite Hg. by apply Z.mod_pos_bound. Qed.

Lemma happen_after (e : Event) (w : World) : counted w -> after (if is_swap e then 1 else 0) w (happen e w).
Proof.
  intros Hc. assert (Hsame : forall k w', swap w' = swap w -> after k w w').
  { intros k w' He. exists 0%nat. split; [lia|]. rewrite He. split; [|done]. rewrite Z.add_0_r. by rewrite Z.mod_small. }
  destruct e as [[r|]|live|r v|v|roles]; try (by apply Hsame).
  - destruct (ownersRetired (swap w)) eqn:Hr; [apply Hsame; cbn; by rewrite Hr|]. exists 1%nat. cbn. rewrite Hr. done.
  - exists 1%nat. done.
Qed.

Lemma happened_after (es : list Event) (w : World) : counted w -> after (swaps_in es) w (happened w es).
Proof.
  revert w. induction es as [|e es IH]; intros w Hc; [by apply after_refl|].
  pose proof (happen_after e w Hc) as He. specialize (IH (happen e w) (after_counted _ _ _ He)).
  replace (swaps_in (e :: es)) with ((if is_swap e then 1 else 0) + swaps_in es)%nat.
  - by eapply after_trans.
  - unfold swaps_in. simpl. by destruct (is_swap e).
Qed.

(** The counter tells whether the reader was swapped, unless it went round. *)
Lemma after_same (k k' : nat) (w w' w'' : World) :
  counted w -> after k w w' -> after k' w' w'' -> (Z.of_nat (k + k') < 2 ^ 64)%Z -> ownersGen (swap w'') = ownersGen (swap w) ->
  swap w' = swap w /\ swap w'' = swap w.
Proof.
  unfold counted. intros Hc (n & Hn & Hg & Hs) (n' & Hn' & Hg' & Hs') Hk He.
  assert (H0 : (n + n' = 0)%nat); [|by rewrite Hs', Hs by lia].
  rewrite Hg', Hg, Zplus_mod_idemp_l, <- Z.add_assoc in He.
  destruct (Z.lt_ge_cases (ownersGen (swap w) + (Z.of_nat n + Z.of_nat n')) (2 ^ 64)) as [Hlt|Hge].
  - rewrite Z.mod_small in He by lia. lia.
  - rewrite <- (Z_mod_plus_full _ (-1) (2 ^ 64)), Z.mod_small in He by lia. lia.
Qed.

Lemma after_changed (k : nat) (w w' : World) : counted w -> after k w w' -> ownersGen (swap w') <> ownersGen (swap w) -> (1 <= k)%nat.
Proof. intros _ (n & Hn & _ & Hs) Hne. destruct n as [|n]; [by rewrite Hs in Hne|lia]. Qed.

(** What a request saw, between where it began and where it ended. *)
Lemma attend_after {A : Type} (p : prog Ask A) (w w' : World) (script script' : list (list Event * unit)) (log : list World) (a : A) :
  counted w -> attend p w script = (log, (w', script'), a) ->
  exists k, swaps script = (k + swaps script')%nat /\ after k w w' /\
    Forall (fun w1 => exists k1 k2, (k1 + k2 = k)%nat /\ after k1 w w1 /\ after k2 w1 w') log.
Proof.
  revert w script log. induction p as [b|R e k IH]; intros w script log Hc H.
  - injection H as <- <- <- <-. exists 0%nat. split; [done|]. split; [by apply after_refl|constructor].
  - rewrite attend_ask in H. cbv zeta in H. pose proof (happened_after (now_events script) w Hc) as Hh.
    destruct (attend (k _) _ _) as [[log' [w2 script2]] b] eqn:Hk. injection H as <- <- <- <-.
    destruct (IH _ _ _ _ (after_counted _ _ _ Hh) Hk) as (n & Hn & Ha & Hl). exists (swaps_in (now_events script) + n)%nat.
    split; [rewrite swaps_split; lia|]. split; [by eapply after_trans|]. constructor; [by exists (swaps_in (now_events script)), n|].
    eapply Forall_impl; [exact Hl|]. intros w1 (k1 & k2 & <- & H1 & H2). exists (swaps_in (now_events script) + k1)%nat, k2.
    split; [lia|]. split; [by eapply after_trans|done].
Qed.

(** What the reads of an owner answered, each in the world it saw. *)
Inductive answered (o : option Reader) (name : string) : list World -> option string -> Prop :=
| no_reader : o = None -> answered o name [] None
| absent r w : o = Some r -> namespaces (sees w r) name = NotFound -> answered o name [w] None
| unlabelled r w ns : o = Some r -> namespaces (sees w r) name = Got ns -> project_label ns = "" -> answered o name [w] None
| orphan r w w' ns : o = Some r -> namespaces (sees w r) name = Got ns -> project_label ns <> "" ->
    projects (sees w' r) (project_label ns) = NotFound -> answered o name [w; w'] None
| labelled r w w' ns proj : o = Some r -> namespaces (sees w r) name = Got ns -> project_label ns <> "" ->
    projects (sees w' r) (project_label ns) = Got proj -> answered o name [w; w'] (Some (project_label ns)).

Lemma owner_of_attend (o : option Reader) (name : string) (w : World) script log rest ans :
  attend (owner_of o name) w script = (log, rest, Ok ans) -> answered o name log ans.
Proof.
  unfold owner_of, Of. destruct o as [r|]; [|intros [= <- _ <-]; by constructor].
  next_call.
  set (w1 := happened w _). destruct (namespaces (sees w1 r) name) as [ns| |] eqn:Hns.
  2: intros [= <- _ <-]; by eapply absent.
  2: done.
  unfold OfNamespace. destruct (String.eqb_spec (project_label ns) "") as [Hl|Hl]; [intros [= <- _ <-]; by eapply unlabelled|].
  cbn [mbind prog_MBind prog_bind]. rewrite attend_ask. cbv zeta. cbn [reply]. set (w2 := happened w1 _).
  destruct (projects (sees w2 r) (project_label ns)) as [proj| |] eqn:Hp; [|intros [= <- _ <-]; by eapply orphan|done].
  intros H. assert (Hans : log = [w1; w2] /\ ans = Some (project_label ns)) by (by destruct (HoldsObject _ _ _); injection H as <- _ <-).
  destruct Hans as [-> ->]. by eapply labelled.
Qed.

Lemma settle_attend (n : nat) (name : string) (w : World) script log w' script' ans :
  counted w -> (Z.of_nat (swaps script) < 2 ^ 64)%Z -> attend (settle n name) w script = (log, (w', script'), Ok ans) ->
  exists pre first mid, log = (pre ++ first :: mid ++ [w'])%list /\ Forall (fun w1 => swap w1 = swap first) (mid ++ [w']) /\
    answered (owners (swap first)) name mid ans.
Proof.
  revert w script log. induction n as [|n IH]; intros w script log Hc Hs H; [done|].
  cbn [settle] in H. next_call H.
  pose proof (happened_after (now_events script) w Hc) as H1. pose proof (after_counted _ _ _ H1) as Hc1. rewrite swaps_split in Hs.
  set (first := happened w _) in *. fold (@mbind (prog Ask) _) in H.
  change (prog_bind ?f (owner_of ?o name)) with (owner_of o name ≫= f) in H. rewrite (attend_bind answer happen tt saw) in H.
  destruct (attend (owner_of _ name) first _) as [[mid [w2 script2]] answer] eqn:Hof.
  destruct (attend_after _ _ _ _ _ _ _ Hc1 Hof) as (k & Hk & Ha & Hmid). destruct answer as [p|e]; [|done].
  unfold ownersChangedSince in H. next_call H.
  pose proof (happened_after (now_events script2) w2 (after_counted _ _ _ Ha)) as H2. set (check := happened w2 _) in *.
  rewrite (swaps_split script2) in Hk. destruct (Z.eqb_spec (ownersGen (swap check)) (ownersGen (swap first))) as [He|He]; cbn [negb] in H.
  - cbn in H. injection H as <- <- <- <-. exists [], first, mid. split; [done|]. split.
    + apply Forall_app. split; [|constructor; [|constructor]].
      * eapply Forall_impl; [exact Hmid|]. intros w1 (k1 & k2 & Hkk & Hw1 & Hw2).
        by apply (after_same k1 (k2 + swaps_in (now_events script2)) first w1 check Hc1 Hw1 (after_trans _ _ _ _ _ Hw2 H2)); [lia|].
      * by apply (after_same k (swaps_in (now_events script2)) first w2 check Hc1 Ha H2); [lia|].
    + by eapply owner_of_attend.
  - fold (@settle) in H. cbn in H. destruct (attend (settle n name) check _) as [[log' rest] r] eqn:Hrec. injection H as <- -> ->.
    destruct (IH check (tail script2) log' (after_counted _ _ _ H2) ltac:(lia) Hrec) as (pre & first' & mid' & -> & Hsame & Hans).
    exists (first :: mid ++ check :: pre)%list, first', mid'. split; [|done]. simpl. by rewrite <- app_assoc.
Qed.

Lemma owner_swaps (n : nat) (name : string) (w : World) script log w' script' :
  counted w -> attend (settle n name) w script = (log, (w', script'), Err OwnersChanged) -> (n <= swaps script)%nat.
Proof.
  revert w script log. induction n as [|n IH]; intros w script log Hc H; [lia|].
  cbn [settle] in H. next_call H.
  pose proof (after_counted _ _ _ (happened_after (now_events script) w Hc)) as Hc1. rewrite swaps_split.
  set (first := happened w _) in *. change (prog_bind ?f (owner_of ?o name)) with (owner_of o name ≫= f) in H. rewrite (attend_bind answer happen tt saw) in H.
  destruct (attend (owner_of _ name) first _) as [[mid [w2 script2]] answer] eqn:Hof.
  destruct (attend_after _ _ _ _ _ _ _ Hc1 Hof) as (k & Hk & Ha & _). destruct answer as [p|e]; [|done].
  unfold ownersChangedSince in H. next_call H.
  pose proof (happened_after (now_events script2) w2 (after_counted _ _ _ Ha)) as H2. set (check := happened w2 _) in *.
  rewrite (swaps_split script2) in Hk. destruct (Z.eqb_spec (ownersGen (swap check)) (ownersGen (swap first))) as [He|He]; cbn [negb] in H; [done|].
  fold (@settle) in H. cbn in H. destruct (attend (settle n name) check _) as [[log' rest] r] eqn:Hrec. injection H as <- -> ->.
  pose proof (IH check _ _ (after_counted _ _ _ H2) Hrec).
  pose proof (after_changed _ _ _ Hc1 (after_trans _ _ _ _ _ Ha H2) He). lia.
Qed.

(** The manager's exit gives the live reader back. *)
Definition retires_live (e : Event) : Prop := match e with Retire live => live = Some Live | _ => True end.

Definition retired_live (w : World) : Prop := ownersRetired (swap w) = true -> owners (swap w) = Some Live.

Lemma happened_retired (es : list Event) (w : World) : Forall retires_live es -> retired_live w -> retired_live (happened w es).
Proof.
  intros Hes. revert w. induction Hes as [|e es He _ IH]; intros w Hw; [done|]. apply IH.
  destruct e as [[r|]|live|r v|v|roles]; try done.
  - unfold retired_live in *. cbn. destruct (ownersRetired (swap w)) eqn:Hr; cbn; [|done]. by rewrite Hr.
  - cbn in He. by subst live.
Qed.

Lemma attend_retired {A : Type} (p : prog Ask A) (w : World) (script : list (list Event * unit)) :
  Forall (fun entry => Forall retires_live entry.1) script -> retired_live w -> Forall retired_live (attend p w script).1.1.
Proof.
  revert w script. induction p as [a|R e k IH]; intros w script Hs Hw; [by constructor|].
  rewrite attend_ask. cbv zeta. assert (Hw' : retired_live (happened w (now_events script))).
  { apply happened_retired; [|done]. by destruct Hs. }
  assert (Ht : Forall (fun entry => Forall retires_live entry.1) (tail script)) by (by destruct Hs).
  specialize (IH (reply e (happened w (now_events script))) _ _ Ht Hw').
  destruct (attend (k _) _ _) as [[log rest] a]. by constructor.
Qed.

(** What the client answered of a namespace without an owner. *)
Inductive client_said (name : string) : list World -> string -> Prop :=
| gone w : namespaces (client w) name = NotFound -> client_said name [w] name
| nobodys w ns : namespaces (client w) name = Got ns -> client_said name [w] "".

Lemma projectForName_attend (name : string) (w : World) script log rest p :
  attend (projectForName name) w script = (log, rest, Ok p) ->
  exists log1 log2 rest1 ans, log = (log1 ++ log2)%list /\ attend (settle 4 name) w script = (log1, rest1, Ok ans) /\
    match ans with Some q => q = p /\ log2 = [] | None => client_said name log2 p end.
Proof.
  unfold projectForName. rewrite attend_bind. destruct (attend (settle 4 name) w script) as [[log1 [w1 script1]] [ans|e]] eqn:Hs; [|done].
  destruct ans as [q|].
  - intros [= <- _ <-]. exists log1, [], (w1, script1), (Some q). done.
  - next_call. set (w2 := happened w1 _).
    destruct (namespaces (client w2) name) as [ns| |] eqn:Hn; intros [= <- _ <-]; exists log1, [w2], (w1, script1), None; (split_and!; [done|done|]); econstructor; done.
Qed.

(** C16: The project a namespace is traced to is what one reader answered, and that reader was the
    current one from before its first read until after its last: no swap came in between. Once
    the manager's cache has been withdrawn, the reads behind every answer are the live client's,
    whatever is offered later. (The counter of swaps has 64 bits; a request during which it goes
    all the way round is outside the statement.) *)
Theorem owner_from_current_reader (name : string) (w : World) (script : list (list Event * unit)) (log : list World) rest p :
  counted w -> retired_live w -> Forall (fun entry => Forall retires_live entry.1) script -> (Z.of_nat (swaps script) < 2 ^ 64)%Z ->
  attend (projectForName name) w script = (log, rest, Ok p) ->
  exists pre first mid check post ans,
    log = (pre ++ first :: mid ++ check :: post)%list /\
    Forall (fun w1 => swap w1 = swap first) (mid ++ [check]) /\
    answered (owners (swap first)) name mid ans /\
    (ownersRetired (swap first) = true -> owners (swap first) = Some Live) /\
    match ans with Some q => q = p /\ post = [] | None => client_said name post p end.
Proof.
  intros Hc Hr Hlive Hs H. pose proof (attend_retired (projectForName name) w script Hlive Hr) as Hret. rewrite H in Hret. cbn [fst] in Hret.
  destruct (projectForName_attend _ _ _ _ _ _ H) as (log1 & log2 & [w1 script1] & ans & -> & Hset & Hans).
  destruct (settle_attend _ _ _ _ _ _ _ _ Hc Hs Hset) as (pre & first & mid & -> & Hsame & Hread).
  exists pre, first, mid, w1, log2, ans. split_and!; [by rewrite <- !app_assoc; simpl; rewrite <- app_assoc|done|done| |done].
  apply Forall_app in Hret as [Hret _]. apply Forall_app in Hret as [_ Hret]. by inversion Hret.
Qed.

(** With at most three swaps during a request, the four attempts settle: a request is never
    refused for a reader that keeps changing. The process makes two at most, as its manager's
    cache arrives and is withdrawn. *)
Theorem owner_settles (name : string) (w : World) (script : list (list Event * unit)) :
  counted w -> (swaps script <= 3)%nat -> (attend (projectForName name) w script).2 <> Err OwnersChanged.
Proof.
  intros Hc Hs. unfold projectForName. rewrite attend_bind. destruct (attend (settle 4 name) w script) as [[log [w1 script1]] [ans|e]] eqn:Hset.
  - destruct ans as [q|]; [done|]. next_call.
    by destruct (namespaces _ _).
  - intros He. cbn in He. injection He as ->. pose proof (owner_swaps _ _ _ _ _ _ _ Hc Hset). lia.
Qed.

(** ** A manager that stops under a request. *)
Module Demo.
Definition shop : Project := mkProject "shop" "p1" 1 false true [] "" None [mkMember "ann" "viewer"; mkMember "ann" "deployer"] (mkStatus [] []).

Definition view (owner : string) : View :=
  mkView (fun n => if n =? "shop-prod" then Got (mkNamespace n "u1" 1 false {[ProjectLabel := owner]} ∅) else NotFound)
         (fun p => if (p =? "shop") || (p =? "old") then Got shop else NotFound).

(** The manager's cache still sees the owner before the last one. *)
Definition world : World :=
  mkWorld (UseOwners (Some (Cache 0)) (NewProjectAccessResolver (Some Live)))
    (fun r => match r with Live => view "shop" | Cache _ => view "old" end) (view "shop") (fun e => if e =? "ann" then "viewer" else "").

(** The manager exits after the namespace is read through its cache. *)
Definition script : list (list Event * unit) := [([], tt); ([], tt); ([Retire (Some Live); Use (Some (Cache 0))], tt)].
End Demo.

Import Demo.

Lemma owner_from_current_reader_witness :
  (attend (projectForName "shop-prod") world script).2 = Ok "shop" /\
  exists pre first mid check post ans,
    (attend (projectForName "shop-prod") world script).1.1 = (pre ++ first :: mid ++ check :: post)%list /\
    Forall (fun w1 => swap w1 = swap first) (mid ++ [check]) /\
    answered (owners (swap first)) "shop-prod" mid ans /\
    (ownersRetired (swap first) = true -> owners (swap first) = Some Live) /\
    match ans with Some q => q = "shop" /\ post = [] | None => client_said "shop-prod" post "shop" end.
Proof.
  assert (Hr : (attend (projectForName "shop-prod") world script).2 = Ok "shop") by (vm_compute; reflexivity).
  split; [exact Hr|].
  apply (owner_from_current_reader "shop-prod" world script _ (attend (projectForName "shop-prod") world script).1.2).
  - split; vm_compute; done.
  - intros Hret. vm_compute in Hret. discriminate.
  - repeat constructor.
  - vm_compute. reflexivity.
  - rewrite <- Hr. by destruct (attend (projectForName "shop-prod") world script) as [[log rest] r].
Defined.

Lemma owner_settles_witness :
  (swaps script <= 3)%nat /\ (attend (projectForName "shop-prod") world script).2 <> Err OwnersChanged.
Proof.
  assert (Hs : (swaps script <= 3)%nat) by (vm_compute; lia).
  split; [exact Hs|]. apply (owner_settles "shop-prod" world script); [split; vm_compute; done|exact Hs].
Defined.

Example last_role_counts : result_of (guarded (NamespaceScope (Some "ann") "shop-prod") "members.read") world [] = Serve (mkAccess "old" "deployer" false).
Proof. vm_compute. reflexivity. Qed.
