(* ===== verification/ProjectNs.v ===== *)
(** * A project's namespaces ([src/console-api/controllers/project_controller.go])

    A reconcile of a project takes the namespaces of its environments, records
    which objects it took, and deletes the namespaces of environments that are
    gone; a project being deleted gives all of them up. Several projects are
    reconciled at once, on caches, while people edit projects and namespaces.

    The model has the API server's namespaces and projects with their resource
    versions. The other work of a pass (egress policy, quota, member bindings,
    shared storage, backup holders, conditions) is on other objects: here it is
    a call that works or fails and ends the pass. *)

From Stdlib Require Import Ascii.
From stdpp Require Import base tactics numbers countable list option strings pretty gmap.
From S2P Require Import Prelude Calls GoStd NsOwner.

Local Open Scope string_scope.

(** ** Names. *)

Definition isDefaultEnvironment (env : string) : bool := (env =? "") || (env =? "default").

Definition ResolveNamespace (projectName envName : string) : string :=
  if isDefaultEnvironment envName then projectName else projectName ++ "-" ++ envName.

Definition DefaultEnvironmentName : string := "test".

Definition ProjectEnvironments (project : Project) : list string :=
  match Environments project with [] => [DefaultEnvironmentName] | envs => envs end.

Definition declaredEnvNames (project : Project) : list string := ProjectEnvironments project.

Definition TierEnvLimit (tier : string) : Z :=
  if tier =? "medium" then 6 else if tier =? "large" then 10 else if tier =? "" then 6 else 4.

Definition EffectiveEnvLimit (p : Project) : Z :=
  match MaxEnvironments p with
  | Some n => if (0 <? n)%Z then n else TierEnvLimit (Tier p)
  | None => TierEnvLimit (Tier p)
  end.

(** The namespaces a project's environments resolve to. *)
Definition wanted (project : string) (envs : list string) : list string := map (ResolveNamespace project) envs.

Definition StorageMoveNamespaceLabel : string := "kipper.run/storage-move".

Definition holdsStorageMove (labels : Strmap) : bool := default "" (labels !! StorageMoveNamespaceLabel) =? "true".

(** ** The server. *)

(** [past] keeps what projects have been, for the caches; [next] numbers
    objects and versions. *)
Record Cluster := mkCluster {
  nss : @gmap string String.eq_dec String.countable Namespace;
  prs : @gmap string String.eq_dec String.countable Project;
  past : list Project;
  next : nat
}.

Definition uid_of (n : nat) : string := "u" ++ pretty n.

(** What a write answers. *)
Inductive Wrote (A : Type) := Done (a : A) | ConflictAnswer | Refused | WriteFailed.

Arguments Done {A} a.
Arguments ConflictAnswer {A}.
Arguments Refused {A}.
Arguments WriteFailed {A}.

Inductive Other := EgressPolicy (ns : string) | EnvironmentWork (ns : string) | MemberRevocation | MoveCondition | ClusterSettings.

Inductive Api : Type -> Type :=
| CachedProject (name : string) : Api (Read Project)
| CachedNamespace (name : string) : Api (Read unit)
| LiveProject (name : string) : Api (Read Project)
| LiveNamespace (name : string) : Api (Read Namespace)
| ListNamespaces (project : string) : Api (option (list Namespace))
| ListProjects : Api (option (list Project))
| CreateNamespace (name : string) (labels annotations : Strmap) : Api (Wrote string)
| UpdateNamespace (ns : Namespace) : Api (Wrote unit)
| DeleteNamespace (name uid : string) : Api (Wrote unit)
| UpdateProject (p : Project) : Api (Wrote nat)
| UpdateStatus (p : Project) : Api (Wrote nat)
| OtherWork (what : Other) : Api bool.

(** A call is answered, fails, or takes effect and the answer is lost; the
    answer of a cache is what the project was [n] writes ago, or that it is
    not there; a delete may be refused while the namespace's storage moves. *)
Inductive fault := Fine | Fails | Loses | Stale (n : nat) | Unlisted | Moving.

Definition set_ns (name : string) (ns : option Namespace) (s : Cluster) : Cluster :=
  mkCluster (partial_alter (fun _ => ns) name (nss s)) (prs s) (past s) (S (next s)).

Definition set_pr (name : string) (p : option Project) (s : Cluster) : Cluster :=
  mkCluster (nss s) (partial_alter (fun _ => p) name (prs s)) (option_list p ++ past s)%list (S (next s)).

Definition with_version (p : Project) (v : nat) : Project :=
  mkProject (PName p) (PUID p) v (PDeleting p) (Finalizer p) (Environments p) (Tier p) (MaxEnvironments p) (Members p) (Status p).

Definition with_status (p : Project) (st : ProjectStatus) : Project :=
  mkProject (PName p) (PUID p) (PVersion p) (PDeleting p) (Finalizer p) (Environments p) (Tier p) (MaxEnvironments p) (Members p) st.

Definition with_finalizer (p : Project) (f : bool) : Project :=
  mkProject (PName p) (PUID p) (PVersion p) (PDeleting p) f (Environments p) (Tier p) (MaxEnvironments p) (Members p) (Status p).

(** The live project a write is about: the object it names, at its version. *)
Definition same_version (s : Cluster) (p : Project) : option Project :=
  p' ← prs s !! PName p; if (PUID p' =? PUID p) && (PVersion p' =? PVersion p)%nat then Some p' else None.

Definition conflict_or_gone {A : Type} {B : Type} (o : option A) : Wrote B := match o with Some _ => ConflictAnswer | None => WriteFailed end.

Definition serve {R : Type} (e : Api R) (s : Cluster) : Cluster * R :=
  match e in Api R return Cluster * R with
  | CachedProject name | LiveProject name => (s, match prs s !! name with Some p => Got p | None => NotFound end)
  | CachedNamespace name => (s, match nss s !! name with Some _ => Got tt | None => NotFound end)
  | LiveNamespace name => (s, match nss s !! name with Some ns => Got ns | None => NotFound end)
  | ListNamespaces project =>
      (s, Some (List.filter (fun ns => bool_decide (NLabels ns !! ProjectLabel = Some project)) (map snd (map_to_list (nss s)))))
  | ListProjects => (s, Some (map snd (map_to_list (prs s))))
  | CreateNamespace name labels annotations =>
      match nss s !! name with
      | Some _ => (s, WriteFailed)
      | None => (set_ns name (Some (mkNamespace name (uid_of (next s)) (next s) false labels annotations)) s, Done (uid_of (next s)))
      end
  | UpdateNamespace ns =>
      match nss s !! NName ns with
      | Some ns' =>
          if (NUID ns' =? NUID ns) && (NVersion ns' =? NVersion ns)%nat
          then (set_ns (NName ns) (Some (mkNamespace (NName ns) (NUID ns) (next s) (NDeleting ns') (NLabels ns) (NAnnotations ns))) s, Done tt)
          else (s, ConflictAnswer)
      | None => (s, WriteFailed)
      end
  | DeleteNamespace name uid =>
      match nss s !! name with
      | Some ns =>
          if NUID ns =? uid
          then (set_ns name (Some (mkNamespace name uid (next s) true (NLabels ns) (NAnnotations ns))) s, Done tt)
          else (s, ConflictAnswer)
      | None => (s, Done tt)
      end
  | UpdateProject p =>
      match same_version s p with
      | Some p' =>
          if PDeleting p' && negb (Finalizer p) then (set_pr (PName p) None s, Done (next s))
          else (set_pr (PName p) (Some (with_status (with_version p (next s)) (Status p'))) s, Done (next s))
      | None => (s, conflict_or_gone (prs s !! PName p))
      end
  | UpdateStatus p =>
      match same_version s p with
      | Some p' => (set_pr (PName p) (Some (with_status (with_version p' (next s)) (Status p))) s, Done (next s))
      | None => (s, conflict_or_gone (prs s !! PName p))
      end
  | OtherWork _ => (s, true)
  end.

(** The answer a caller gets when the server's is lost. *)
Definition fail {R : Type} (e : Api R) : R :=
  match e in Api R return R with
  | CachedProject _ | LiveProject _ => Failed
  | CachedNamespace _ => Failed
  | LiveNamespace _ => Failed
  | ListNamespaces _ => None
  | ListProjects => None
  | CreateNamespace _ _ _ => WriteFailed
  | UpdateNamespace _ => WriteFailed
  | DeleteNamespace _ _ => WriteFailed
  | UpdateProject _ => WriteFailed
  | UpdateStatus _ => WriteFailed
  | OtherWork _ => false
  end.

(** What a cache answers: something the project was, or that it is not there;
    of a namespace, that it is there or that it is not. *)
Definition cached {R : Type} (n : nat) (e : Api R) (s : Cluster) : R :=
  match e in Api R return R with
  | CachedProject name =>
      match past s !! n with Some p => if PName p =? name then Got p else NotFound | None => NotFound end
  | CachedNamespace _ => Got tt
  | e => (serve e s).2
  end.

Definition unlisted {R : Type} (e : Api R) (s : Cluster) : R :=
  match e in Api R return R with
  | CachedProject _ => NotFound
  | CachedNamespace _ => NotFound
  | e => (serve e s).2
  end.

Definition refuse_move {R : Type} (e : Api R) (s : Cluster) : Cluster * R :=
  match e in Api R return Cluster * R with
  | DeleteNamespace _ _ => (s, Refused)
  | e => serve e s
  end.

Definition handle (R : Type) (e : Api R) (f : fault) (s : Cluster) : Cluster * R :=
  match f with
  | Fine => serve e s
  | Fails => (s, fail e)
  | Loses => ((serve e s).1, fail e)
  | Stale n => ((serve e s).1, cached n e s)
  | Unlisted => ((serve e s).1, unlisted e s)
  | Moving => refuse_move e s
  end.

(** ** Operations. An error ends the pass; a namespace that cannot be taken is
    reported and skipped. *)

Inductive Stop := ReadError | WriteError | ProjectReplaced | NoUID | WorkFailed.

Record NamespaceConflict := mkConflict { cnamespace : string; cowner : string; claimant : string }.

(** A step that may end the pass. *)
Definition bind_ok {A B : Type} (p : prog Api (result Stop A)) (f : A -> prog Api (result Stop B)) : prog Api (result Stop B) :=
  r ← p; match r with Ok a => f a | Err e => mret (Err e) end.

Notation "x ←? p ; k" := (bind_ok p (fun x => k)) (at level 20, p at level 100, k at level 200, only parsing).

Definition read_or {A : Type} (p : prog Api (Read A)) : prog Api (result Stop (option A)) :=
  answer ← p; mret match answer with Got a => Ok (Some a) | NotFound => Ok None | Failed => Err ReadError end.

Definition list_or {A : Type} (p : prog Api (option (list A))) : prog Api (result Stop (list A)) :=
  answer ← p; mret match answer with Some l => Ok l | None => Err ReadError end.

Definition work (what : Other) : prog Api (result Stop unit) :=
  done_ ← call (OtherWork what); mret (if done_ : bool then Ok tt else Err WorkFailed).

Definition confirmIncarnation (project : Project) : prog Api (result Stop bool) :=
  current ←? read_or (call (LiveProject (PName project)));
  mret match current with
       | None => Ok false
       | Some p => if PUID p =? PUID project then Ok true else Err ProjectReplaced
       end.

Definition namespaceExists (ns : string) : prog Api (result Stop bool) :=
  existing ←? read_or (call (CachedNamespace ns)); mret (Ok (bool_decide (is_Some existing))).

(** *** Taking a namespace. *)

(** The last other project with a claim to the object, and the last other
    project one of whose environments resolves to the name. *)
Definition rival_claim (projects : list Project) (self namespace uid : string) : string :=
  foldl (fun found p => if PName p =? self then found
                        else if Claimed (NamespaceClaims (Status p)) namespace uid then PName p else found) "" projects.

Definition rival_derives (projects : list Project) (self namespace : string) : string :=
  foldl (fun found p => if PName p =? self then found
                        else if contains (wanted (PName p) (ProjectEnvironments p)) namespace then PName p else found) "" projects.

Definition settled (project : Project) (namespace uid label : string) : bool :=
  negb (uid =? "") && (label =? PName project) && EverHeld (Status project) namespace uid.

(** [claimable], once the projects are read; a namespace that is not there has
    no UID and no label. *)
Definition claimable_among (projects : list Project) (project : Project) (namespace uid label : string) : option NamespaceConflict :=
  let claim := rival_claim projects (PName project) namespace uid in
  let derives := rival_derives projects (PName project) namespace in
  if negb (claim =? "") then Some (mkConflict namespace claim (PName project))
  else if Claimed (NamespaceClaims (Status project)) namespace uid then None
  else if negb (derives =? "") && negb (settled project namespace uid label) then Some (mkConflict namespace derives (PName project))
  else None.

Definition claimable (project : Project) (namespace uid label : string) : prog Api (result Stop (option NamespaceConflict)) :=
  projects ←? list_or (call ListProjects); mret (Ok (claimable_among projects project namespace uid label)).

Definition desired_labels (project : Project) (envName : string) (order : nat) : Strmap :=
  <["app.kubernetes.io/managed-by" := "kipper"]>
  (<[ProjectLabel := PName project]>
  (<["kipper.run/environment" := envName]>
  (<["kipper.run/env-order" := pretty order]>
  (<["pod-security.kubernetes.io/enforce" := "baseline"]>
  (<["pod-security.kubernetes.io/warn" := "restricted"]>
  (<["pod-security.kubernetes.io/audit" := "restricted"]> ∅)))))).

Definition desired_annotations (envNames : list string) : Strmap := <["kipper.run/environments" := Join envNames ","]> ∅.

(** The UID of the object taken, or who has it. *)
Definition Taken : Type := (string + NamespaceConflict)%type.

Definition reconcileNamespace (project : Project) (ns envName : string) (envNames : list string) (order : nat)
  : prog Api (result Stop Taken) :=
  existing ←? read_or (call (LiveNamespace ns));
  match existing with
  | None =>
      conflict ←? claimable project ns "" "";
      match conflict with
      | Some c => mret (Ok (inr c))
      | None =>
          answer ← call (CreateNamespace ns (desired_labels project envName order) (desired_annotations envNames));
          mret match answer with Done uid => Ok (inl uid) | _ => Err WriteError end
      end
  | Some existing =>
      let owner := project_label existing in
      conflict ←? claimable project ns (NUID existing) owner;
      match conflict with
      | Some c => mret (Ok (inr c))
      | None =>
          if negb (owner =? PName project) then mret (Ok (inr (mkConflict ns owner (PName project))))
          else
            answer ← call (UpdateNamespace
              (mkNamespace ns (NUID existing) (NVersion existing) (NDeleting existing)
                 (desired_labels project envName order ∪ NLabels existing) (desired_annotations envNames ∪ NAnnotations existing)));
            mret match answer with Done _ => Ok (inl (NUID existing)) | _ => Err WriteError end
      end
  end.

(** The claims with the first one of that name repointed, [None] where it is as
    it should be, or with the claim at the end. *)
Fixpoint repoint (claims : list NamespaceClaim) (claim : NamespaceClaim) : option (list NamespaceClaim) :=
  match claims with
  | [] => Some [claim]
  | existing :: rest =>
      if ClaimName existing =? ClaimName claim
      then if ClaimUID existing =? ClaimUID claim then None else Some (claim :: rest)
      else cons existing <$> repoint rest claim
  end.

Definition with_claims (p : Project) (claims : list NamespaceClaim) : Project :=
  with_status p (mkStatus (Namespaces (Status p)) claims).

(** The pass's copy after the write: the live version and records. *)
Definition synced (project live : Project) (version : nat) : Project :=
  with_status (with_version project version) (Status live).

Definition publishClaim (project : Project) (claim : NamespaceClaim) : prog Api (result Stop Project) :=
  answer ← call (LiveProject (PName project));
  match answer with
  | Got live =>
      if negb (PUID live =? PUID project) then mret (Err ProjectReplaced)
      else
        match repoint (NamespaceClaims (Status live)) claim with
        | None => mret (Ok project)
        | Some claims =>
            let live' := with_claims live claims in
            written ← call (UpdateStatus live');
            mret match written with
                 | Done version => Ok (synced project live' version)
                 | ConflictAnswer => Ok project
                 | _ => Err WriteError
                 end
        end
  | _ => mret (Err ReadError)
  end.

(** *** Records to keep. *)

(** A recorded namespace stays on record while it is wanted, on its way out,
    held by a storage move, or cannot be read. *)
Definition keep_record (wants : list string) (name : string) : prog Api bool :=
  answer ← call (LiveNamespace name);
  mret match answer with
       | NotFound => false
       | Failed => true
       | Got ns => contains wants name || NDeleting ns || holdsStorageMove (NLabels ns)
       end.

Fixpoint keep_names (wants out recorded : list string) : prog Api (list string) :=
  match recorded with
  | [] => mret out
  | name :: rest =>
      if contains out name then keep_names wants out rest
      else keeps ← keep_record wants name; keep_names wants (if keeps : bool then out ++ [name] else out)%list rest
  end.

Definition keepLiveNamespaces (recorded held envNames : list string) (project : string) : prog Api (list string) :=
  keep_names (wanted project envNames) held recorded.

Fixpoint keep_claims (wants recorded : list string) (out claims : list NamespaceClaim) : prog Api (list NamespaceClaim) :=
  match claims with
  | [] => mret out
  | claim :: rest =>
      if contains recorded (ClaimName claim) then keep_claims wants recorded out rest
      else keeps ← keep_record wants (ClaimName claim); keep_claims wants recorded (if keeps : bool then out ++ [claim] else out)%list rest
  end.

Definition keepLiveClaims (project : Project) (claimed : list NamespaceClaim) (envNames : list string) : prog Api (list NamespaceClaim) :=
  keep_claims (wanted (PName project) envNames) (map ClaimName claimed) claimed (NamespaceClaims (Status project)).

(** *** Giving namespaces up. *)

Definition add_name (names : list string) (name : string) : list string := if contains names name then names else (names ++ [name])%list.

Definition recordedNames (status : ProjectStatus) : list string :=
  foldl (fun names c => add_name names (ClaimName c)) (Namespaces status) (NamespaceClaims status).

(** The labelled namespaces the project may clean up. *)
Definition owned_labelled (project : Project) (projects : list Project) (labelled : list Namespace) : list Namespace :=
  List.filter (fun ns => EverHeld (Status project) (NName ns) (NUID ns) &&
                         negb (ClaimedElsewhere projects (PName project) (NName ns) (NUID ns))) labelled.

(** Then those on record that lost their label. *)
Fixpoint owned_recorded (project : Project) (projects : list Project) (names : list string) (owned : list Namespace)
  : prog Api (result Stop (list Namespace)) :=
  match names with
  | [] => mret (Ok owned)
  | name :: rest =>
      if contains (map NName owned) name then owned_recorded project projects rest owned
      else
        found ←? read_or (call (LiveNamespace name));
        owned_recorded project projects rest
          match found with
          | None => owned
          | Some ns =>
              if negb (project_label ns =? "") then owned
              else if negb (HoldsObject (Status project) (NName ns) (NUID ns)) then owned
              else if ClaimedElsewhere projects (PName project) (NName ns) (NUID ns) then owned
              else (owned ++ [ns])%list
          end
  end.

Definition ownedNamespaces (project : Project) : prog Api (result Stop (list Namespace)) :=
  labelled ←? list_or (call (ListNamespaces (PName project)));
  projects ←? list_or (call ListProjects);
  owned_recorded project projects (recordedNames (Status project)) (owned_labelled project projects labelled).

(** The namespaces left waiting for a storage move. *)
Fixpoint delete_all (keep : list string) (owned : list Namespace) (waiting : list string) : prog Api (result Stop (list string)) :=
  match owned with
  | [] => mret (Ok waiting)
  | ns :: rest =>
      if contains keep (NName ns) then delete_all keep rest waiting
      else if holdsStorageMove (NLabels ns) then delete_all keep rest (waiting ++ [NName ns])%list
      else
        answer ← call (DeleteNamespace (NName ns) (NUID ns));
        match answer with
        | Refused => delete_all keep rest (waiting ++ [NName ns])%list
        | WriteFailed => mret (Err WriteError)
        | Done _ | ConflictAnswer => delete_all keep rest waiting
        end
  end.

(** The namespaces of the environments the project declares. *)
Definition declared_namespaces (project : Project) : list string := wanted (PName project) (declaredEnvNames project).

Definition deleteProjectNamespaces (project : Project) (keepDeclared : bool) : prog Api (result Stop (option (Project * list string))) :=
  found ←? read_or (call (LiveProject (PName project)));
  match found with
  | None => mret (Ok None)
  | Some current =>
      if negb (PUID current =? PUID project) then mret (Err ProjectReplaced)
      else
        let keep := if keepDeclared then declared_namespaces current else [] in
        owned ←? ownedNamespaces current;
        waiting ←? delete_all keep owned [];
        mret (Ok (Some (current, waiting)))
  end.

(** *** The pass. *)

Record Plan := mkPlan { plan_env : string; plan_ns : string; plan_order : nat; plan_exists : bool }.

Fixpoint plan_all (project : Project) (envs : list string) (order : nat) : prog Api (result Stop (list Plan)) :=
  match envs with
  | [] => mret (Ok [])
  | env :: rest =>
      exists_ ←? namespaceExists (ResolveNamespace (PName project) env);
      plans ←? plan_all project rest (S order);
      mret (Ok (mkPlan env (ResolveNamespace (PName project) env) order exists_ :: plans))
  end.

(** What the loop over the environments has so far. *)
Record Progress := mkProgress {
  gproject : Project; gcreated : Z; gheld : list string; gclaimed : list NamespaceClaim; gconflicts : list NamespaceConflict
}.

Definition take_env (envNames : list string) (pl : Plan) (created : Z) (g : Progress) : prog Api (result Stop Progress) :=
  taken ←? reconcileNamespace (gproject g) (plan_ns pl) (plan_env pl) envNames (plan_order pl);
  match taken with
  | inr conflict =>
      mret (Ok (mkProgress (gproject g) created (gheld g) (gclaimed g) (gconflicts g ++ [conflict])))
  | inl uid =>
      _ ←? work (EgressPolicy (plan_ns pl));
      if uid =? "" then mret (Err NoUID)
      else
        let claim := mkClaim (plan_ns pl) uid in
        project ←? publishClaim (gproject g) claim;
        _ ←? work (EnvironmentWork (plan_ns pl));
        mret (Ok (mkProgress project created (gheld g ++ [plan_ns pl]) (gclaimed g ++ [claim]) (gconflicts g)))
  end.

Fixpoint take_all (limit existing : Z) (envNames : list string) (plans : list Plan) (g : Progress) : prog Api (result Stop Progress) :=
  match plans with
  | [] => mret (Ok g)
  | pl :: rest =>
      if negb (plan_exists pl) && (limit <=? existing + gcreated g)%Z then take_all limit existing envNames rest g
      else
        g' ←? take_env envNames pl (if plan_exists pl then gcreated g else gcreated g + 1)%Z g;
        take_all limit existing envNames rest g'
  end.

Definition count_existing (plans : list Plan) : Z := Z.of_nat (length (List.filter plan_exists plans)).

Inductive PassEnd := Gone | Requeue | Finished (refused : list NamespaceConflict).

Definition move_condition (waiting : list string) : prog Api (result Stop unit) :=
  match waiting with [] => mret (Ok tt) | _ => work MoveCondition end.

Definition write_project (e : Api (Wrote nat)) : prog Api (result Stop nat) :=
  answer ← call e; mret match answer with Done v => Ok v | _ => Err WriteError end.

(** A project being deleted; its status is written where a condition moved. *)
Definition finalize (project : Project) (condition_moved : bool) : prog Api (result Stop PassEnd) :=
  pruned ←? deleteProjectNamespaces project false;
  match pruned with
  | None => mret (Ok Gone)
  | Some (current, waiting) =>
      _ ←? move_condition waiting;
      current ←? (if condition_moved
                  then v ←? write_project (UpdateStatus current); mret (Ok (with_version current v))
                  else mret (Ok current));
      match waiting with
      | _ :: _ => mret (Ok Requeue)
      | [] => _ ←? write_project (UpdateProject (with_finalizer current false)); mret (Ok Gone)
      end
  end.

Definition maintain (project : Project) : prog Api (result Stop PassEnd) :=
  project ←? (if Finalizer project then mret (Ok project)
              else v ←? write_project (UpdateProject (with_finalizer project true));
                   mret (Ok (with_version (with_finalizer project true) v)));
  standing ←? confirmIncarnation project;
  if negb standing then mret (Ok Gone)
  else
    let environments := ProjectEnvironments project in
    _ ←? work ClusterSettings;
    plans ←? plan_all project environments 0;
    g ←? take_all (EffectiveEnvLimit project) (count_existing plans) environments plans (mkProgress project 0 [] [] []);
    pruned ←? deleteProjectNamespaces (gproject g) true;
    match pruned with
    | None => mret (Ok Gone)
    | Some (current, waiting) =>
        _ ←? work MemberRevocation;
        _ ←? move_condition waiting;
        let project := gproject g in
        names ← keepLiveNamespaces (Namespaces (Status project)) (gheld g) (declaredEnvNames current) (PName project);
        claims ← keepLiveClaims (with_status project (mkStatus names (NamespaceClaims (Status project)))) (gclaimed g) (declaredEnvNames current);
        _ ←? write_project (UpdateStatus (with_status project (mkStatus names claims)));
        mret (Ok (Finished (gconflicts g)))
    end.

Definition Reconcile (name : string) (condition_moved : bool) : prog Api (result Stop PassEnd) :=
  found ←? read_or (call (CachedProject name));
  match found with
  | None => mret (Ok Gone)
  | Some project => if PDeleting project then finalize project condition_moved else maintain project
  end.

(** ** Everyone else. Namespaces and projects come and go and are edited; a
    namespace's project label is only set where it is made. *)

Record Spec := mkSpec { sEnvironments : list string; sTier : string; sMaxEnvironments : option Z; sMembers : list ProjectMember }.

Inductive Edit :=
| OpenNamespace (name : string) (labels annotations : Strmap)
| TouchNamespace (name : string) (labels annotations : Strmap)
| MarkNamespace (name : string)
| DropNamespace (name : string)
| OpenProject (name : string) (spec : Spec)
| EditProject (name : string) (spec : Spec)
| MarkProject (name : string).

Definition with_spec (p : Project) (v : nat) (deleting : bool) (spec : Spec) : Project :=
  mkProject (PName p) (PUID p) v deleting (Finalizer p) (sEnvironments spec) (sTier spec) (sMaxEnvironments spec) (sMembers spec) (Status p).

Definition outside (e : Edit) (s : Cluster) : Cluster :=
  match e with
  | OpenNamespace name labels annotations => (serve (CreateNamespace name labels annotations) s).1
  | TouchNamespace name labels annotations =>
      match nss s !! name with
      | Some ns =>
          if default "" (labels !! ProjectLabel) =? project_label ns
          then set_ns name (Some (mkNamespace name (NUID ns) (next s) (NDeleting ns) labels annotations)) s
          else s
      | None => s
      end
  | MarkNamespace name =>
      match nss s !! name with
      | Some ns => set_ns name (Some (mkNamespace name (NUID ns) (next s) true (NLabels ns) (NAnnotations ns))) s
      | None => s
      end
  | DropNamespace name => set_ns name None s
  | OpenProject name spec =>
      match prs s !! name with
      | Some _ => s
      | None =>
          set_pr name (Some (mkProject name (uid_of (next s)) (next s) false false (sEnvironments spec) (sTier spec)
            (sMaxEnvironments spec) (sMembers spec) (mkStatus [] []))) s
      end
  | EditProject name spec =>
      match prs s !! name with Some p => set_pr name (Some (with_spec p (next s) (PDeleting p) spec)) s | None => s end
  | MarkProject name =>
      match prs s !! name with
      | Some p =>
          if Finalizer p
          then set_pr name (Some (with_spec p (next s) true (mkSpec (Environments p) (Tier p) (MaxEnvironments p) (Members p)))) s
          else set_pr name None s
      | None => s
      end
  end.
