(* ===== verification/ProjectNsProps.v ===== *)
(** * A project's namespaces: theorems

    What a delete rests on, how many environments a pass takes, and that no two
    projects hold one namespace. *)

From Stdlib Require Import Ascii.
From stdpp Require Import base tactics numbers countable list option strings pretty gmap.
From S2P Require Import Prelude Calls GoStd NsOwner ProjectNs.

Local Open Scope string_scope.

(** ** What a pass did. *)

Inductive Entry :=
| SawProject (name : string) (answer : Read Project)
| SawNamespace (name : string) (answer : Read Namespace)
| SawLabelled (project : string) (answer : option (list Namespace))
| SawProjects (answer : option (list Project))
| Created (name : string)
| Deleted (name uid : string)
| Else.

Definition note (R : Type) (e : Api R) (r : R) : Entry :=
  match e in Api R return R -> Entry with
  | LiveProject name => SawProject name
  | LiveNamespace name => SawNamespace name
  | ListNamespaces project => SawLabelled project
  | ListProjects => SawProjects
  | CreateNamespace name _ _ => fun _ => Created name
  | DeleteNamespace name uid => fun _ => Deleted name uid
  | _ => fun _ => Else
  end r.

Abbreviation runs := (Calls.runs note).

Lemma runs_ok {A B : Type} (p : prog Api (result Stop A)) (f : A -> prog Api (result Stop B)) log (r : result Stop B) :
  runs (bind_ok p f) log r <->
  (exists e, runs p log (Err e) /\ r = Err e) \/ exists log1 a log2, log = (log1 ++ log2)%list /\ runs p log1 (Ok a) /\ runs (f a) log2 r.
Proof.
  unfold bind_ok. rewrite runs_bind. split.
  - intros (log1 & [a|e] & log2 & -> & H1 & H2); [right; eauto 10|]. apply runs_ret in H2 as [-> ->]. rewrite app_nil_r. left. eauto.
  - intros [(e & H & ->)|(log1 & a & log2 & -> & H1 & H2)]; [|eauto 10]. exists log, (Err e), []. rewrite app_nil_r. split; [done|]. by split.
Qed.

Lemma runs_read {A : Type} (e : Api (Read A)) log (r : result Stop (option A)) :
  runs (read_or (call e)) log r <->
  exists answer, log = [note _ e answer] /\ r = match answer with Got a => Ok (Some a) | NotFound => Ok None | Failed => Err ReadError end.
Proof.
  unfold read_or. rewrite runs_bind. split.
  - intros (log1 & a & log2 & -> & ->%runs_call & [-> ->]%runs_ret). eauto.
  - intros (answer & -> & ->). exists [note _ e answer], answer, []. by rewrite runs_call.
Qed.

Lemma runs_list {A : Type} (e : Api (option (list A))) log (r : result Stop (list A)) :
  runs (list_or (call e)) log r <->
  exists answer, log = [note _ e answer] /\ r = match answer with Some l => Ok l | None => Err ReadError end.
Proof.
  unfold list_or. rewrite runs_bind. split.
  - intros (log1 & a & log2 & -> & ->%runs_call & [-> ->]%runs_ret). eauto.
  - intros (answer & -> & ->). exists [note _ e answer], answer, []. by rewrite runs_call.
Qed.

(** ** Deletes. *)

Definition deletes (entry : Entry) : bool := match entry with Deleted _ _ => true | _ => false end.

(** A namespace that lost its label, and may be cleaned up on the records. *)
Definition unlabelled_ours (project : Project) (projects : list Project) (ns : Namespace) : Prop :=
  project_label ns = "" /\ HoldsObject (Status project) (NName ns) (NUID ns) = true /\
  ClaimedElsewhere projects (PName project) (NName ns) (NUID ns) = false.

Lemma owned_recorded_runs (project : Project) (projects : list Project) (names : list string) (owned : list Namespace) log r :
  runs (owned_recorded project projects names owned) log r ->
  Forall (fun entry => deletes entry = false) log /\
  (forall owned' ns, r = Ok owned' -> ns ∈ owned' ->
     ns ∈ owned \/ exists name, SawNamespace name (Got ns) ∈ log /\ unlabelled_ours project projects ns).
Proof.
  revert owned log. induction names as [|name names IH]; intros owned log H; cbn [owned_recorded] in H.
  { apply runs_ret in H as [-> ->]. split; [done|]. intros owned' ns [= <-]. auto. }
  destruct (contains _ name); [by apply IH|]. apply runs_ok in H as [(e & (answer & -> & _)%runs_read & ->)|(log1 & found & log2 & -> & Hr & H)].
  { split; [by constructor|done]. }
  apply runs_read in Hr as (answer & -> & Hans). destruct (IH _ _ H) as [Hnone Hin]. split; [by constructor|].
  intros owned' ns Hok Hns. destruct (Hin owned' ns Hok Hns) as [Hcase|(n & Hsaw & Hours)]; [|right; exists n; split; [by right|done]].
  destruct found as [ns'|]; [|auto]. destruct answer as [ns''| |]; [injection Hans as <-|done..].
  destruct (String.eqb_spec (project_label ns') "") as [Hl|]; [|auto]. simpl in Hcase.
  destruct (HoldsObject _ _ _) eqn:Hh; [|auto]. simpl in Hcase. destruct (ClaimedElsewhere _ _ _ _) eqn:Hc; [auto|].
  apply elem_of_app in Hcase as [| ->%list_elem_of_singleton]; [auto|]. right. exists name. split; [by left|]. by split_and!.
Qed.

Lemma delete_all_runs (keep : list string) (owned : list Namespace) (waiting : list string) log r n u :
  runs (delete_all keep owned waiting) log r -> Deleted n u ∈ log ->
  exists ns, ns ∈ owned /\ NName ns = n /\ NUID ns = u /\ (n ∉ keep) /\ holdsStorageMove (NLabels ns) = false.
Proof.
  revert waiting log. induction owned as [|ns owned IH]; intros waiting log H Hin; cbn [delete_all] in H.
  { apply runs_ret in H as [-> _]. by apply not_elem_of_nil in Hin. }
  assert (Hrec : forall waiting' log', runs (delete_all keep owned waiting') log' r -> Deleted n u ∈ log' ->
    exists ns', ns' ∈ ns :: owned /\ NName ns' = n /\ NUID ns' = u /\ (n ∉ keep) /\ holdsStorageMove (NLabels ns') = false).
  { intros w l Hr Hl. destruct (IH w l Hr Hl) as (ns' & Hns' & Hrest). exists ns'. split; [by right|done]. }
  destruct (contains keep (NName ns)) eqn:Hk; [by eapply Hrec|]. destruct (holdsStorageMove (NLabels ns)) eqn:Hm; [by eapply Hrec|].
  apply runs_bind in H as (log1 & answer & log2 & -> & ->%runs_call & H). apply elem_of_cons in Hin as [Heq|Hin].
  - injection Heq as -> ->. exists ns. split; [by left|]. split_and!; [done|done| |done]. rewrite <- contains_spec. by rewrite Hk.
  - destruct answer; [by eapply Hrec..|]. apply runs_ret in H as [-> _]. by apply not_elem_of_nil in Hin.
Qed.

Lemma ownedNamespaces_runs (project : Project) log r :
  runs (ownedNamespaces project) log r ->
  Forall (fun entry => deletes entry = false) log /\
  (forall owned, r = Ok owned -> exists labelled projects reads,
     log = (SawLabelled (PName project) (Some labelled) :: SawProjects (Some projects) :: reads)%list /\
     forall ns, ns ∈ owned ->
       ClaimedElsewhere projects (PName project) (NName ns) (NUID ns) = false /\
       ((ns ∈ labelled /\ EverHeld (Status project) (NName ns) (NUID ns) = true) \/
        (exists name, SawNamespace name (Got ns) ∈ reads /\ project_label ns = "" /\ HoldsObject (Status project) (NName ns) (NUID ns) = true))).
Proof.
  unfold ownedNamespaces. intros [(e & (answer & -> & _)%runs_list & ->)|(log1 & labelled & log2 & -> & (answer & -> & Ha)%runs_list & H)]%runs_ok.
  { split; [by constructor|done]. }
  destruct answer as [labelled'|]; [injection Ha as <-|done].
  apply runs_ok in H as [(e & (answer & -> & _)%runs_list & ->)|(log3 & projects & log4 & -> & (answer & -> & Ha)%runs_list & H)].
  { split; [by repeat constructor|done]. }
  destruct answer as [projects'|]; [injection Ha as <-|done]. destruct (owned_recorded_runs _ _ _ _ _ _ H) as [Hnone Hin].
  split; [by repeat constructor|]. intros owned ->. exists labelled, projects, log4. split; [done|]. intros ns Hns.
  destruct (Hin owned ns eq_refl Hns) as [Hown|(name & Hsaw & Hl & Hh & Hc)]; [|split; [done|]; right; eauto].
  apply list_elem_of_In, List.filter_In in Hown as [Hl [He Hc%negb_true_iff]%andb_true_iff]. split; [done|]. left. by rewrite list_elem_of_In.
Qed.

(** C13: What a delete of a namespace rests on, whatever the server answers and whoever writes in
    between. The project was read again first and is the object the pass began with; then the
    namespaces with its label were listed, then every project. The delete names the UID it
    read. No other project of that list claims the object. It was listed with the project's
    label and is on the project's records; or it was read afterwards without a label, and the
    records hold that object. It is not a namespace the project just read declares (unless the
    project is going), and held no storage move. *)
Theorem deletes_justified (project : Project) (keepDeclared : bool) log r n u :
  runs (deleteProjectNamespaces project keepDeclared) log r -> Deleted n u ∈ log ->
  exists current labelled projects rest ns,
    log = (SawProject (PName project) (Got current) :: SawLabelled (PName current) (Some labelled) :: SawProjects (Some projects) :: rest)%list /\
    PUID current = PUID project /\ NName ns = n /\ NUID ns = u /\
    (forall p, p ∈ projects -> PName p <> PName current -> mkClaim n u ∉ NamespaceClaims (Status p)) /\
    ((ns ∈ labelled /\ EverHeld (Status current) n u = true) \/
     (exists name before after, rest = (before ++ SawNamespace name (Got ns) :: after)%list /\ Deleted n u ∈ after /\
        project_label ns = "" /\ HoldsObject (Status current) n u = true)) /\
    (keepDeclared = true -> n ∉ declared_namespaces current) /\ holdsStorageMove (NLabels ns) = false.
Proof.
  intros H Hin. unfold deleteProjectNamespaces in H.
  apply runs_ok in H as [(e & (answer & -> & _)%runs_read & _)|(log1 & found & log2 & -> & (answer & -> & Hf)%runs_read & H)].
  { apply list_elem_of_singleton in Hin. done. }
  apply elem_of_cons in Hin as [|Hin]; [done|].
  destruct found as [current|]; [|by apply runs_ret in H as [-> _]; apply not_elem_of_nil in Hin].
  destruct answer as [current'| |]; [injection Hf as <-|done..].
  destruct (String.eqb_spec (PUID current) (PUID project)) as [Hu|]; cbn [negb] in H; [|by apply runs_ret in H as [-> _]; apply not_elem_of_nil in Hin].
  apply runs_ok in H as [(e & Ho & _)|(log3 & owned & log4 & -> & Ho & H)].
  { destruct (ownedNamespaces_runs _ _ _ Ho) as [Hnone _]. exfalso. by apply (proj1 (Forall_forall _ _) Hnone) in Hin. }
  destruct (ownedNamespaces_runs _ _ _ Ho) as [Hnone Hown].
  destruct (Hown owned eq_refl) as (labelled & projects & reads & -> & Hall). apply elem_of_app in Hin as [Hin|Hin].
  { exfalso. by apply (proj1 (Forall_forall _ _) Hnone) in Hin. }
  assert (Hdel : exists res, runs (delete_all (if keepDeclared then declared_namespaces current else []) owned []) log4 res).
  { apply runs_ok in H as [(e & H & _)|(l1 & w & l2 & -> & H & [-> _]%runs_ret)]; [eauto|]. rewrite app_nil_r. eauto. }
  destruct Hdel as [res Hdel]. destruct (delete_all_runs _ _ _ _ _ _ _ Hdel Hin) as (ns & Hns & <- & <- & Hkeep & Hmove).
  destruct (Hall ns Hns) as [Hce Hcase]. exists current, labelled, projects, (reads ++ log4)%list, ns. split_and!; try done.
  - intros p Hp Hne Hc. assert (Ht : ClaimedElsewhere projects (PName current) (NName ns) (NUID ns) = true); [|by rewrite Hce in Ht].
    apply ClaimedElsewhere_spec. eauto.
  - destruct Hcase as [[Hl He]|(name & Hsaw & Hl & Hh)]; [by left|right]. apply list_elem_of_split in Hsaw as (l1 & l2 & ->).
    exists name, l1, (l2 ++ log4)%list. rewrite <- app_assoc. split_and!; [done| |done|done]. apply elem_of_app. by right.
  - by intros ->.
Qed.

(** ** The cap on environments. *)

Definition attempts (log : list Entry) : list string := omap (fun e => match e with SawNamespace n _ => Some n | _ => None end) log.

Definition creations (log : list Entry) : list string := omap (fun e => match e with Created n => Some n | _ => None end) log.

Lemma attempts_app (a b : list Entry) : attempts (a ++ b) = (attempts a ++ attempts b)%list.
Proof. apply omap_app. Qed.

Lemma creations_app (a b : list Entry) : creations (a ++ b) = (creations a ++ creations b)%list.
Proof. apply omap_app. Qed.

(** A program that neither tries nor creates a namespace. *)
Definition silent {A : Type} (p : prog Api A) : Prop := forall log r, runs p log r -> attempts log = [] /\ creations log = [].

Lemma silent_ret {A : Type} (a : A) : silent (mret a).
Proof. by intros log r [-> _]%runs_ret. Qed.

Lemma silent_bind {A B : Type} (p : prog Api A) (f : A -> prog Api B) : silent p -> (forall a, silent (f a)) -> silent (p ≫= f).
Proof.
  intros Hp Hf log r (l1 & a & l2 & -> & H1 & H2)%runs_bind. destruct (Hp _ _ H1), (Hf _ _ _ H2).
  rewrite attempts_app, creations_app. split; by apply app_nil.
Qed.

Lemma silent_ok {A B : Type} (p : prog Api (result Stop A)) (f : A -> prog Api (result Stop B)) :
  silent p -> (forall a, silent (f a)) -> silent (bind_ok p f).
Proof. intros Hp Hf. apply silent_bind; [done|]. intros [a|e]; [apply Hf|apply silent_ret]. Qed.

Lemma silent_call {R : Type} (e : Api R) : (forall r, attempts [note R e r] = [] /\ creations [note R e r] = []) -> silent (call e).
Proof. by intros H log r ->%runs_call. Qed.

Lemma silent_work (what : Other) : silent (work what).
Proof. apply silent_bind; [by apply silent_call|]. intros b. apply silent_ret. Qed.

Lemma silent_publish (project : Project) (claim : NamespaceClaim) : silent (publishClaim project claim).
Proof.
  apply silent_bind; [by apply silent_call|]. intros [live| |]; [|apply silent_ret..].
  destruct (negb _); [apply silent_ret|]. destruct (repoint _ _); [|apply silent_ret].
  apply silent_bind; [by apply silent_call|]. intros w. apply silent_ret.
Qed.

Lemma silent_claimable (project : Project) (namespace uid label : string) : silent (claimable project namespace uid label).
Proof.
  apply silent_ok; [apply silent_bind; [by apply silent_call|intros o; apply silent_ret]|]. intros projects. apply silent_ret.
Qed.

(** Taking a namespace reads it once, and creates at most that one. *)
Lemma reconcileNamespace_runs (project : Project) (ns envName : string) (envNames : list string) (order : nat) log r :
  runs (reconcileNamespace project ns envName envNames order) log r ->
  attempts log = [ns] /\ (creations log = [] \/ creations log = [ns]).
Proof.
  unfold reconcileNamespace.
  intros [(e & (answer & -> & _)%runs_read & _)|(log1 & existing & log2 & -> & (answer & -> & _)%runs_read & H)]%runs_ok; [by auto|].
  assert (Hlog : attempts log2 = [] /\ (creations log2 = [] \/ creations log2 = [ns])).
  2: { destruct Hlog as [Ha Hc]. cbn [app]. change (attempts ?l) with (ns :: attempts log2). by rewrite Ha. }
  destruct existing as [existing|]; apply runs_ok in H as [(e & H & _)|(l1 & conflict & l2 & -> & H1 & H2)];
    try (destruct (silent_claimable _ _ _ _ _ _ H); by auto); destruct (silent_claimable _ _ _ _ _ _ H1) as [Ha Hc];
    rewrite attempts_app, creations_app, Ha, Hc; destruct conflict as [c|]; try (apply runs_ret in H2 as [-> _]; by auto).
  - destruct (negb _); [apply runs_ret in H2 as [-> _]; by auto|]. apply runs_bind in H2 as (l3 & a & l4 & -> & ->%runs_call & [-> _]%runs_ret). by auto.
  - apply runs_bind in H2 as (l3 & a & l4 & -> & ->%runs_call & [-> _]%runs_ret). by auto.
Qed.

Lemma take_env_runs (envNames : list string) (pl : Plan) (created : Z) (g : Progress) log r :
  runs (take_env envNames pl created g) log r ->
  attempts log = [plan_ns pl] /\ (creations log = [] \/ creations log = [plan_ns pl]) /\ (forall g', r = Ok g' -> gcreated g' = created).
Proof.
  unfold take_env. intros [(e & H & ->)|(l1 & taken & l2 & -> & H1 & H2)]%runs_ok.
  { destruct (reconcileNamespace_runs _ _ _ _ _ _ _ H). done. }
  destruct (reconcileNamespace_runs _ _ _ _ _ _ _ H1) as [Ha Hc]. rewrite attempts_app, creations_app, Ha.
  assert (Hq : attempts l2 = [] /\ creations l2 = []).
  { revert H2. generalize r. clear r. destruct taken as [uid|c]; [|by intros r [-> _]%runs_ret]. intros r H2. revert l2 r H2.
    change (silent (_ ←? work (EgressPolicy (plan_ns pl)); if uid =? "" then mret (Err NoUID) else
      project ←? publishClaim (gproject g) (mkClaim (plan_ns pl) uid); _ ←? work (EnvironmentWork (plan_ns pl));
      mret (Ok (mkProgress project created (gheld g ++ [plan_ns pl]) (gclaimed g ++ [mkClaim (plan_ns pl) uid]) (gconflicts g))))).
    apply silent_ok; [apply silent_work|]. intros _. destruct (uid =? ""); [apply silent_ret|].
    apply silent_ok; [apply silent_publish|]. intros p. apply silent_ok; [apply silent_work|]. intros _. apply silent_ret. }
  destruct Hq as [-> ->]. rewrite !app_nil_r. split_and!; [done|done|]. intros g' ->.
  destruct taken as [uid|c]; [|by apply runs_ret in H2 as [_ [= ->]]].
  apply runs_ok in H2 as [(? & _ & [=])|(? & ? & ? & _ & _ & H2)]. destruct (uid =? ""); [by apply runs_ret in H2 as [_ ?]|].
  apply runs_ok in H2 as [(? & _ & [=])|(? & ? & ? & _ & _ & H2)]. apply runs_ok in H2 as [(? & _ & [=])|(? & ? & ? & _ & _ & H2)].
  by apply runs_ret in H2 as [_ [= ->]].
Qed.

Lemma count_existing_cons (pl : Plan) (plans : list Plan) :
  count_existing (pl :: plans) = ((if plan_exists pl then 1 else 0) + count_existing plans)%Z.
Proof. unfold count_existing. simpl. destruct (plan_exists pl); simpl; lia. Qed.

Lemma take_all_runs (limit existing : Z) (envNames : list string) (plans : list Plan) (g : Progress) log r :
  runs (take_all limit existing envNames plans g) log r ->
  (Z.of_nat (length (attempts log)) <= count_existing plans + Z.max 0 (limit - existing - gcreated g))%Z /\
  (length (creations log) <= length (attempts log))%nat /\
  (forall g', r = Ok g' -> forall pl, pl ∈ plans -> plan_exists pl = true -> plan_ns pl ∈ attempts log).
Proof.
  revert g log. induction plans as [|pl plans IH]; intros g log H; cbn [take_all] in H.
  { apply runs_ret in H as [-> _]. split; [unfold count_existing; simpl; lia|]. split; [done|]. by intros g' _ pl ?%not_elem_of_nil. }
  rewrite count_existing_cons. destruct (negb (plan_exists pl) && _) eqn:Hskip.
  { apply andb_true_iff in Hskip as [He%negb_true_iff _]. rewrite He. destruct (IH _ _ H) as (Ha & Hc & Hall). split; [lia|]. split; [done|].
    intros g' Hg pl' [->|Hin]%elem_of_cons He'; [congruence|]. by eapply Hall. }
  assert (Hroom : plan_exists pl = true \/ (existing + gcreated g < limit)%Z).
  { destruct (plan_exists pl); [by left|right]. simpl in Hskip. by apply Z.leb_gt. }
  assert (Hcount : forall l, (creations l = [] \/ creations l = [plan_ns pl]) -> (length (creations l) <= 1)%nat) by (intros l [->| ->]; simpl; lia).
  assert (Hnonneg : (0 <= count_existing plans)%Z) by (unfold count_existing; lia).
  apply runs_ok in H as [(e & H & ->)|(l1 & g' & l2 & -> & H1 & H2)].
  - destruct (take_env_runs _ _ _ _ _ _ H) as (-> & Hc & _). specialize (Hcount _ Hc). split; [|by split; [simpl; lia|]].
    simpl. destruct (plan_exists pl), Hroom; try done; lia.
  - destruct (take_env_runs _ _ _ _ _ _ H1) as (Ha1 & Hc1 & Hg'). specialize (Hcount _ Hc1). specialize (Hg' g' eq_refl).
    destruct (IH _ _ H2) as (Ha & Hc & Hall). rewrite attempts_app, creations_app, !length_app, Ha1. simpl. split; [|split; [lia|]].
    + destruct (plan_exists pl), Hroom; try done; lia.
    + intros g'' Hr pl' [->|Hin]%elem_of_cons He'; [by left|right]. by eapply Hall.
Qed.

(** A pass tries at most as many environments as the project's limit, or as there already were
    where they were more, whatever is answered and whoever else creates namespaces; it creates
    no namespace it did not try; and an environment that exists is never passed over, however
    the list is ordered. *)
Theorem environments_capped (project : Project) (plans : list Plan) log r :
  runs (take_all (EffectiveEnvLimit project) (count_existing plans) (ProjectEnvironments project) plans (mkProgress project 0 [] [] [])) log r ->
  (Z.of_nat (length (attempts log)) <= Z.max (EffectiveEnvLimit project) (count_existing plans))%Z /\
  (length (creations log) <= length (attempts log))%nat /\
  (forall g', r = Ok g' -> forall pl, pl ∈ plans -> plan_exists pl = true -> plan_ns pl ∈ attempts log).
Proof.
  intros H. destruct (take_all_runs _ _ _ _ _ _ _ H) as (Ha & Hc & Hall). cbn [gcreated] in Ha. split; [|done].
  assert (0 <= count_existing plans)%Z by (unfold count_existing; lia). lia.
Qed.

(** ** Who may take a namespace. *)

Lemma last_rival (test : Project -> bool) (self : string) (projects : list Project) (found : string) :
  (forall p, p ∈ projects -> PName p <> "") ->
  foldl (fun found p => if PName p =? self then found else if test p then PName p else found) found projects = "" <->
  found = "" /\ forall p, p ∈ projects -> PName p <> self -> test p = false.
Proof.
  revert found. induction projects as [|p projects IH]; intros found Hne; simpl; [split; [by split; [|intros p ?%not_elem_of_nil]|tauto]|].
  assert (Hp : PName p <> "") by (apply Hne; by left). rewrite IH by (intros q Hq; apply Hne; by right).
  destruct (String.eqb_spec (PName p) self) as [He|He].
  - split; intros [Hf Hall]; (split; [done|]); intros q Hq; [|apply Hall; by right]. apply elem_of_cons in Hq as [->|Hq]; [done|by apply Hall].
  - destruct (test p) eqn:Ht.
    + split; [by intros [? _]|]. intros [_ Hall]. rewrite (Hall p) in Ht; [done|by left|done].
    + split; intros [Hf Hall]; (split; [done|]); intros q Hq; [|apply Hall; by right]. apply elem_of_cons in Hq as [->|Hq]; [done|by apply Hall].
Qed.

Lemma negb_empty (s : string) : negb (s =? "") = true <-> s <> "".
Proof. by rewrite negb_true_iff, String.eqb_neq. Qed.

(** A project may take an object exactly when no other project claims that object, and it
    claims it already, or no other project has an environment of that namespace's name, or the
    collision was settled before: the object carries the project's label and is on its records.
    Two projects whose environments resolve to one name that nobody has are both refused,
    whichever comes first. *)
Theorem claimable_exact (projects : list Project) (project : Project) (namespace uid label : string) :
  (forall p, p ∈ projects -> PName p <> "") ->
  (claimable_among projects project namespace uid label = None <->
   (forall p, p ∈ projects -> PName p <> PName project -> mkClaim namespace uid ∉ NamespaceClaims (Status p)) /\
   (mkClaim namespace uid ∈ NamespaceClaims (Status project) \/
    (forall p, p ∈ projects -> PName p <> PName project -> namespace ∉ declared_namespaces p) \/
    (uid <> "" /\ label = PName project /\ EverHeld (Status project) namespace uid = true))) /\
  (forall p q, p ∈ projects -> q ∈ projects -> PName p <> PName q -> namespace ∈ declared_namespaces p -> namespace ∈ declared_namespaces q ->
     mkClaim namespace "" ∉ NamespaceClaims (Status p) -> claimable_among projects p namespace "" label <> None).
Proof.
  intros Hne. assert (Hexact : forall project uid, claimable_among projects project namespace uid label = None <->
   (forall p, p ∈ projects -> PName p <> PName project -> mkClaim namespace uid ∉ NamespaceClaims (Status p)) /\
   (mkClaim namespace uid ∈ NamespaceClaims (Status project) \/
    (forall p, p ∈ projects -> PName p <> PName project -> namespace ∉ declared_namespaces p) \/
    (uid <> "" /\ label = PName project /\ EverHeld (Status project) namespace uid = true))).
  { clear project uid. intros project uid. unfold claimable_among.
    pose proof (last_rival (fun p => Claimed (NamespaceClaims (Status p)) namespace uid) (PName project) projects "" Hne) as Hc.
    pose proof (last_rival (fun p => contains (wanted (PName p) (ProjectEnvironments p)) namespace) (PName project) projects "" Hne) as Hd.
    fold (rival_claim projects (PName project) namespace uid) in Hc. fold (rival_derives projects (PName project) namespace) in Hd.
    assert (Hnot : forall p, Claimed (NamespaceClaims (Status p)) namespace uid = false <-> mkClaim namespace uid ∉ NamespaceClaims (Status p)).
    { intros p. by rewrite <- Claimed_spec, not_true_iff_false. }
    assert (Hder : forall p, contains (wanted (PName p) (ProjectEnvironments p)) namespace = false <-> namespace ∉ declared_namespaces p).
    { intros p. by rewrite <- contains_spec, not_true_iff_false. }
    setoid_rewrite Hnot in Hc. setoid_rewrite Hder in Hd. unfold settled.
    destruct (String.eqb_spec (rival_claim projects (PName project) namespace uid) "") as [Hr|Hr]; cbn [negb]; [|split; [done|tauto]].
    destruct (Claimed (NamespaceClaims (Status project)) namespace uid) eqn:Hown; [apply Claimed_spec in Hown; tauto|].
    apply Hnot in Hown. destruct (String.eqb_spec (rival_derives projects (PName project) namespace) "") as [Hv|Hv]; cbn [negb andb]; [tauto|].
    destruct (String.eqb_spec uid "") as [Hu|Hu], (String.eqb_spec label (PName project)) as [Hl|Hl], (EverHeld (Status project) namespace uid) eqn:He; cbn [negb andb];
      (split; [try done; tauto|try tauto]); intros [_ [?|[?|(? & ? & ?)]]]; try done; tauto. }
  split; [apply Hexact|]. intros p q Hp Hq Hpq Hn Hn' Hown [_ [H|[H|(H & _)]]]%Hexact; [done| |done].
  by apply (H q Hq (not_eq_sym Hpq)).
Qed.

(** ** A cluster with an environment that is gone. *)
Module Demo.
Definition shop : Project :=
  mkProject "shop" "p1" 1 false true ["prod"] "" None [] (mkStatus ["shop-old"] [mkClaim "shop-old" "u0"]).

Definition cluster : Cluster :=
  mkCluster {["shop-old" := mkNamespace "shop-old" "u0" 2 false {[ProjectLabel := "shop"]} ∅]} {["shop" := shop]} [shop] 3.

Definition ran {A : Type} (p : prog Api A) := attend handle outside Fine (fun R e _ r => note R e r) p cluster [].

Definition plans : list Plan := [mkPlan "prod" "shop-prod" 0 false].

Definition progress : Progress := mkProgress shop 0 [] [] [].
End Demo.

Import Demo.

Lemma deletes_justified_witness :
  exists log r, runs (deleteProjectNamespaces shop true) log r /\ Deleted "shop-old" "u0" ∈ log /\
    exists current labelled projects rest ns,
      log = (SawProject "shop" (Got current) :: SawLabelled (PName current) (Some labelled) :: SawProjects (Some projects) :: rest)%list /\
      NName ns = "shop-old" /\ "shop-old" ∉ declared_namespaces current.
Proof.
  exists (ran (deleteProjectNamespaces shop true)).1.1, (ran (deleteProjectNamespaces shop true)).2.
  assert (Hr : runs (deleteProjectNamespaces shop true) (ran (deleteProjectNamespaces shop true)).1.1 (ran (deleteProjectNamespaces shop true)).2)
    by apply (attend_runs note handle outside Fine).
  assert (Hd : Deleted "shop-old" "u0" ∈ (ran (deleteProjectNamespaces shop true)).1.1) by (vm_compute; apply elem_of_cons; right; apply elem_of_cons; right; apply elem_of_cons; right; apply elem_of_cons; left; reflexivity).
  split; [exact Hr|]. split; [exact Hd|].
  destruct (deletes_justified shop true _ _ _ _ Hr Hd) as (current & labelled & projects & rest & ns & H1 & _ & H2 & _ & _ & _ & H3 & _).
  exists current, labelled, projects, rest, ns. split; [exact H1|]. split; [exact H2|]. by apply H3.
Defined.

Lemma environments_capped_witness :
  exists log r, runs (take_all (EffectiveEnvLimit shop) (count_existing plans) (ProjectEnvironments shop) plans progress) log r /\
    (length (creations log) = 1)%nat /\ (Z.of_nat (length (attempts log)) <= 6)%Z.
Proof.
  set (p := take_all (EffectiveEnvLimit shop) (count_existing plans) (ProjectEnvironments shop) plans progress).
  exists (ran p).1.1, (ran p).2. assert (Hr : runs p (ran p).1.1 (ran p).2) by apply (attend_runs note handle outside Fine).
  split; [exact Hr|]. split; [vm_compute; reflexivity|].
  exact (proj1 (environments_capped shop plans _ _ Hr)).
Defined.

Lemma claimable_exact_witness :
  claimable_among [shop] shop "shop-prod" "" "" = None /\
  (mkClaim "shop-prod" "" ∈ NamespaceClaims (Status shop) \/
   (forall p, p ∈ [shop] -> PName p <> PName shop -> "shop-prod" ∉ declared_namespaces p) \/
   ("" <> "" /\ "" = PName shop /\ EverHeld (Status shop) "shop-prod" "" = true)).
Proof.
  assert (Hne : forall p, p ∈ [shop] -> PName p <> "") by (intros p ->%list_elem_of_singleton; discriminate).
  assert (Hok : claimable_among [shop] shop "shop-prod" "" "" = None) by (vm_compute; reflexivity).
  split; [exact Hok|]. exact (proj2 (proj1 (proj1 (claimable_exact [shop] shop "shop-prod" "" "" Hne)) Hok)).
Defined.
