(* ===== verification/ProjectNsClaims.v ===== *)
(** * A project's namespaces: one holder

    However many reconciles run at once, on whatever caches and with whatever
    faults, no namespace is claimed by two projects, as long as nobody changes
    the project label a namespace was made with. *)

From Stdlib Require Import Ascii.
From stdpp Require Import base tactics numbers countable list option strings pretty gmap.
From S2P Require Import Prelude Calls GoStd NsOwner ProjectNs.

Local Open Scope string_scope.

(** What is known of an object: its UID and the project it was made for. *)
Definition Facts : Type := list (string * string).

Abbreviation Born := (@gmap string String.eq_dec String.countable string).

Definition known (born : Born) (p : Project) : Prop := forall c, c ∈ NamespaceClaims (Status p) -> born !! ClaimUID c = Some (PName p).

Record consistent (born : Born) (s : Cluster) : Prop := {
  of_ns : forall n ns, nss s !! n = Some ns -> NName ns = n /\ born !! NUID ns = Some (project_label ns);
  of_born : forall u l, born !! u = Some l -> exists k, (k < next s)%nat /\ u = uid_of k;
  of_pr : forall n p, prs s !! n = Some p -> PName p = n /\ known born p;
  of_past : forall p, p ∈ past s -> known born p
}.

Definition holds_facts (born : Born) (g : Facts) : Prop := forall u l, (u, l) ∈ g -> born !! u = Some l.

Definition inv (s : Cluster) (gs : list Facts) : Prop := exists born, consistent born s /\ Forall (holds_facts born) gs.

Definition knows (g : Facts) (p : Project) : Prop := forall c, c ∈ NamespaceClaims (Status p) -> (ClaimUID c, PName p) ∈ g.

Lemma uid_of_inj (a b : nat) : uid_of a = uid_of b -> a = b.
Proof. unfold uid_of. simpl. intros [= H]. by apply (inj pretty). Qed.

Lemma holds_more (born born' : Born) (g : Facts) : born ⊆ born' -> holds_facts born g -> holds_facts born' g.
Proof. intros Hsub Hg u l Hin. eapply lookup_weaken; [by apply Hg|done]. Qed.

Lemma known_more (born born' : Born) (p : Project) : born ⊆ born' -> known born p -> known born' p.
Proof. intros Hsub Hk c Hc. eapply lookup_weaken; [by apply Hk|done]. Qed.

(** ** Writes keep the server consistent. *)

Lemma set_ns_consistent (born : Born) (s : Cluster) (name : string) (ns : option Namespace) :
  consistent born s ->
  match ns with Some ns => NName ns = name /\ born !! NUID ns = Some (project_label ns) | None => True end ->
  consistent born (set_ns name ns s).
Proof.
  intros [Hns Hborn Hpr Hpast] Hnew. split; [|intros u l (k & Hk & ->)%Hborn; exists k; split; [simpl; lia|done]|exact Hpr|exact Hpast].
  intros n ns' H. cbn [set_ns nss] in H. destruct (decide (n = name)) as [->|Hne].
  - rewrite lookup_partial_alter_eq in H. destruct ns as [ns|]; [|done]. by injection H as <-.
  - rewrite lookup_partial_alter_ne in H by done. by apply Hns.
Qed.

Lemma set_pr_consistent (born : Born) (s : Cluster) (name : string) (p : option Project) :
  consistent born s -> match p with Some p => PName p = name /\ known born p | None => True end -> consistent born (set_pr name p s).
Proof.
  intros [Hns Hborn Hpr Hpast] Hnew. split; [exact Hns|intros u l (k & Hk & ->)%Hborn; exists k; split; [simpl; lia|done]| |].
  - intros n p' H. cbn [set_pr prs] in H. destruct (decide (n = name)) as [->|Hne].
    + rewrite lookup_partial_alter_eq in H. destruct p as [p|]; [|done]. by injection H as <-.
    + rewrite lookup_partial_alter_ne in H by done. by apply Hpr.
  - intros p' H. cbn [set_pr past] in H. apply elem_of_app in H as [H|H]; [|by apply Hpast].
    destruct p as [p|]; [|by apply not_elem_of_nil in H]. apply list_elem_of_singleton in H as ->. by destruct Hnew.
Qed.

(** A new namespace has a new UID. *)
Lemma create_consistent (born : Born) (s : Cluster) (name : string) (labels annotations : Strmap) :
  consistent born s ->
  let u := uid_of (next s) in
  let born' := <[u := default "" (labels !! ProjectLabel)]> born in
  born ⊆ born' /\ (nss s !! name = None -> consistent born' (serve (CreateNamespace name labels annotations) s).1).
Proof.
  intros Hc u born'. assert (Hnew : born !! u = None).
  { destruct (born !! u) as [l|] eqn:Hu; [|done]. destruct (of_born _ _ Hc _ _ Hu) as (k & Hk & He%uid_of_inj). lia. }
  assert (Hsub : born ⊆ born') by by apply insert_subseteq. split; [done|]. intros Hnone. cbn [serve]. rewrite Hnone. cbn [fst].
  destruct Hc as [Hns Hborn Hpr Hpast]. split.
  - intros n ns H. cbn [set_ns nss] in H. destruct (decide (n = name)) as [->|Hne].
    + rewrite lookup_partial_alter_eq in H. injection H as <-. split; [done|]. unfold born'. by rewrite lookup_insert_eq.
    + rewrite lookup_partial_alter_ne in H by done. destruct (Hns _ _ H) as [Hn Hb]. split; [done|]. by eapply lookup_weaken.
  - intros u' l. unfold born'. destruct (decide (u' = u)) as [->|Hne].
    + intros _. exists (next s). split; [simpl; lia|done].
    + rewrite lookup_insert_ne by done. intros (k & Hk & ->)%Hborn. exists k. split; [simpl; lia|done].
  - intros n p H. destruct (Hpr n p H). split; [done|]. by eapply known_more.
  - intros p H. by eapply known_more; [|apply Hpast].
Qed.

(** ** What other people do. *)

Lemma inv_intro (born born' : Born) (s' : Cluster) (gs : list Facts) :
  Forall (holds_facts born) gs -> born ⊆ born' -> consistent born' s' -> inv s' gs.
Proof. intros Hgs Hsub Hc. exists born'. split; [done|]. eapply Forall_impl; [exact Hgs|]. intros g. by apply holds_more. Qed.

Lemma outside_inv (e : Edit) (s : Cluster) (gs : list Facts) : inv s gs -> inv (outside e s) gs.
Proof.
  intros (born & Hc & Hgs).
  assert (Hsame : forall s', consistent born s' -> inv s' gs) by (intros s' Hs'; by apply (inv_intro born born s')).
  destruct e as [name labels annotations|name labels annotations|name|name|name spec|name spec|name]; cbn [outside].
  - destruct (create_consistent born s name labels annotations Hc) as [Hsub Hcreate].
    destruct (nss s !! name) eqn:Hn; [cbn [serve]; rewrite Hn; by apply Hsame|]. by apply (inv_intro born _ _ gs Hgs Hsub), Hcreate.
  - destruct (nss s !! name) as [ns|] eqn:Hn; [|by apply Hsame]. destruct (String.eqb_spec (default "" (labels !! ProjectLabel)) (project_label ns)) as [He|]; [|by apply Hsame].
    apply Hsame, set_ns_consistent; [done|]. split; [done|]. destruct (of_ns _ _ Hc _ _ Hn) as [_ Hb]. cbn [NUID]. rewrite Hb. by rewrite <- He.
  - destruct (nss s !! name) as [ns|] eqn:Hn; [|by apply Hsame]. apply Hsame, set_ns_consistent; [done|]. split; [done|].
    by destruct (of_ns _ _ Hc _ _ Hn).
  - by apply Hsame, set_ns_consistent.
  - destruct (prs s !! name) as [p|] eqn:Hp; [by apply Hsame|]. apply Hsame, set_pr_consistent; [done|]. split; [done|]. by intros c ?%not_elem_of_nil.
  - destruct (prs s !! name) as [p|] eqn:Hp; [|by apply Hsame]. apply Hsame, set_pr_consistent; [done|]. destruct (of_pr _ _ Hc _ _ Hp). by split.
  - destruct (prs s !! name) as [p|] eqn:Hp; [|by apply Hsame]. destruct (Finalizer p); apply Hsame, set_pr_consistent; try done.
    destruct (of_pr _ _ Hc _ _ Hp). by split.
Qed.

(** ** The calls of a reconcile. *)

Definition legal (R : Type) (_ : Api R) (_ : fault) (_ : Cluster) : bool := true.

Abbreviation safe := (Calls.safe handle legal inv).

Lemma holds_app (born : Born) (a b : Facts) : holds_facts born a -> holds_facts born b -> holds_facts born (a ++ b)%list.
Proof. intros Ha Hb u l [H|H]%elem_of_app; [by apply Ha|by apply Hb]. Qed.

(** A call is safe when it keeps the server consistent and what it teaches is
    true. *)
Lemma safe_step {R : Type} (i : nat) (g : Facts) (e : Api R) (Q : Facts -> R -> Prop) :
  (forall s born f, consistent born s -> holds_facts born g ->
     exists born' new, born ⊆ born' /\ consistent born' (handle R e f s).1 /\ holds_facts born' new /\ Q (g ++ new)%list (handle R e f s).2) ->
  safe i g (call e) Q.
Proof.
  intros H s gs f (born & Hc & Hgs) Hg _. destruct (H s born f Hc) as (born' & new & Hsub & Hc' & Hnew & HQ); [by eapply Forall_lookup_1|].
  exists (g ++ new)%list. split; [|exact HQ]. exists born'. split; [done|]. apply Forall_insert.
  - eapply Forall_impl; [exact Hgs|]. intros g'. by apply holds_more.
  - apply holds_app; [|done]. eapply holds_more; [done|]. by eapply Forall_lookup_1.
Qed.

(** A read leaves the server alone. *)
Lemma safe_read {R : Type} (i : nat) (g : Facts) (e : Api R) (Q : Facts -> R -> Prop) :
  (forall s f, (handle R e f s).1 = s) ->
  (forall s born f, consistent born s -> exists new, holds_facts born new /\ Q (g ++ new)%list (handle R e f s).2) ->
  safe i g (call e) Q.
Proof.
  intros Hread H. apply safe_step. intros s born f Hc _. destruct (H s born f Hc) as (new & Hnew & HQ).
  exists born, new. split_and!; [done|by rewrite Hread|done|done].
Qed.

Definition facts_of (p : Project) : Facts := map (fun c => (ClaimUID c, PName p)) (NamespaceClaims (Status p)).

Lemma knows_facts (g : Facts) (p : Project) : knows (g ++ facts_of p)%list p.
Proof. intros c Hc. apply elem_of_app. right. unfold facts_of. apply list_elem_of_fmap. eauto. Qed.

Lemma facts_hold (born : Born) (p : Project) : known born p -> holds_facts born (facts_of p).
Proof. intros Hk u l H. unfold facts_of in H. apply list_elem_of_fmap in H as (c & [= -> ->] & Hc). by apply Hk. Qed.

Lemma knows_more (g g' : Facts) (p : Project) : g ⊆ g' -> knows g p -> knows g' p.
Proof. intros Hsub Hk c Hc. by apply Hsub, Hk. Qed.

Lemma sub_app (g new : Facts) : g ⊆ (g ++ new)%list.
Proof. intros x Hx. apply elem_of_app. by left. Qed.

(** What reading a project under a name teaches. *)
Definition project_read (name : string) (g : Facts) (Q : Facts -> Read Project -> Prop) : Prop :=
  forall g' r, g ⊆ g' -> (forall p, r = Got p -> PName p = name /\ knows g' p) -> Q g' r.

Lemma project_answer (born : Born) (name : string) (g : Facts) (r : Read Project) (Q : Facts -> Read Project -> Prop) :
  (forall p, r = Got p -> PName p = name /\ known born p) -> project_read name g Q ->
  exists new, holds_facts born new /\ Q (g ++ new)%list r.
Proof.
  intros Hr HQ. destruct r as [p| |].
  - destruct (Hr p eq_refl) as [Hn Hk]. exists (facts_of p). split; [by apply facts_hold|]. apply HQ; [apply sub_app|].
    intros p' [= <-]. split; [done|apply knows_facts].
  - exists []. split; [by intros u l ?%not_elem_of_nil|]. apply HQ; [apply sub_app|done].
  - exists []. split; [by intros u l ?%not_elem_of_nil|]. apply HQ; [apply sub_app|done].
Qed.

Lemma live_project (s : Cluster) (born : Born) (name : string) (p : Project) :
  consistent born s -> match prs s !! name with Some p => Got p | None => NotFound end = Got p -> PName p = name /\ known born p.
Proof. intros Hc. destruct (prs s !! name) as [p'|] eqn:Hp; [|done]. intros [= <-]. by apply (of_pr _ _ Hc). Qed.

Lemma safe_LiveProject i g name Q : project_read name g Q -> safe i g (call (LiveProject name)) Q.
Proof.
  intros HQ. apply safe_read; [by intros s []|]. intros s born f Hc. apply (project_answer born name); [|done].
  intros p Hp. destruct f; simpl in Hp; try done; by eapply live_project.
Qed.

Lemma safe_CachedProject i g name Q : project_read name g Q -> safe i g (call (CachedProject name)) Q.
Proof.
  intros HQ. apply safe_read; [by intros s []|]. intros s born f Hc. apply (project_answer born name); [|done].
  intros p Hp. destruct f as [| | |n| |]; simpl in Hp; try done; try (by eapply live_project).
  destruct (past s !! n) as [p'|] eqn:Hn; [|done]. destruct (String.eqb_spec (PName p') name) as [He|]; [|done]. injection Hp as <-.
  split; [done|]. apply (of_past _ _ Hc). by apply list_elem_of_lookup_2 with n.
Qed.

Lemma safe_LiveNamespace i g name Q :
  (forall g' r, g ⊆ g' -> (forall ns, r = Got ns -> (NUID ns, project_label ns) ∈ g') -> Q g' r) -> safe i g (call (LiveNamespace name)) Q.
Proof.
  intros HQ. apply safe_read; [by intros s []|]. intros s born f Hc.
  destruct (handle (Read Namespace) (LiveNamespace name) f s).2 as [ns| |] eqn:Hr.
  - exists [(NUID ns, project_label ns)]. split.
    + intros u l [= -> ->]%list_elem_of_singleton. assert (Hn : nss s !! name = Some ns).
      { destruct f; simpl in Hr; try done; destruct (nss s !! name); try done; by injection Hr as <-. }
      by destruct (of_ns _ _ Hc _ _ Hn).
    + apply HQ; [apply sub_app|]. intros ns' [= <-]. apply elem_of_app. right. by apply list_elem_of_singleton.
  - exists []. split; [by intros u l ?%not_elem_of_nil|]. apply HQ; [apply sub_app|done].
  - exists []. split; [by intros u l ?%not_elem_of_nil|]. apply HQ; [apply sub_app|done].
Qed.

(** A call that teaches nothing. *)
Lemma safe_plain {R : Type} i g (e : Api R) (Q : Facts -> R -> Prop) :
  (forall s born f, consistent born s -> consistent born (handle R e f s).1) -> (forall r, Q g r) -> safe i g (call e) Q.
Proof.
  intros He HQ. apply safe_step. intros s born f Hc _. exists born, []. rewrite app_nil_r.
  split_and!; [done|by apply He|by intros u l ?%not_elem_of_nil|done].
Qed.

Lemma handle_consistent {R : Type} (e : Api R) (f : fault) (s : Cluster) (born : Born) :
  consistent born s -> consistent born (serve e s).1 -> consistent born (handle R e f s).1.
Proof. intros Hs He. destruct f; try done. by destruct e. Qed.

Lemma same_version_Some (s : Cluster) (p p' : Project) : same_version s p = Some p' -> prs s !! PName p = Some p'.
Proof. unfold same_version. destruct (prs s !! PName p) as [q|]; [|done]. simpl. destruct (_ && _); [|done]. by intros [= ->]. Qed.

Lemma safe_DeleteNamespace i g name uid Q : (forall r, Q g r) -> safe i g (call (DeleteNamespace name uid)) Q.
Proof.
  apply safe_plain. intros s born f Hc. apply handle_consistent; [done|]. cbn [serve].
  destruct (nss s !! name) as [ns|] eqn:Hn; [|done]. destruct (String.eqb_spec (NUID ns) uid) as [<-|]; [|done].
  apply set_ns_consistent; [done|]. split; [done|]. by destruct (of_ns _ _ Hc _ _ Hn).
Qed.

Lemma safe_UpdateProject i g p Q : (forall r, Q g r) -> safe i g (call (UpdateProject p)) Q.
Proof.
  apply safe_plain. intros s born f Hc. apply handle_consistent; [done|]. cbn [serve].
  destruct (same_version s p) as [p'|] eqn:Hp; [|done]. apply same_version_Some in Hp.
  destruct (_ && _); [by apply set_pr_consistent|]. apply set_pr_consistent; [done|]. split; [done|].
  destruct (of_pr _ _ Hc _ _ Hp) as [Hn Hk]. unfold known in *. cbn [Status with_status PName with_version]. by rewrite <- Hn.
Qed.

Lemma safe_UpdateNamespace i g ns Q : (NUID ns, project_label ns) ∈ g -> (forall r, Q g r) -> safe i g (call (UpdateNamespace ns)) Q.
Proof.
  intros Hin HQ. apply safe_step. intros s born f Hc Hg. exists born, []. rewrite app_nil_r.
  split_and!; [done| |by intros u l ?%not_elem_of_nil|done]. apply handle_consistent; [done|]. cbn [serve].
  destruct (nss s !! NName ns) as [ns'|] eqn:Hn; [|done]. destruct (_ && _); [|done]. apply set_ns_consistent; [done|]. split; [done|]. by apply Hg.
Qed.

Lemma safe_UpdateStatus i g p Q : knows g p -> (forall r, Q g r) -> safe i g (call (UpdateStatus p)) Q.
Proof.
  intros Hk HQ. apply safe_step. intros s born f Hc Hg. exists born, []. rewrite app_nil_r.
  split_and!; [done| |by intros u l ?%not_elem_of_nil|done]. apply handle_consistent; [done|]. cbn [serve].
  destruct (same_version s p) as [p'|] eqn:Hp; [|done]. apply same_version_Some in Hp. destruct (of_pr _ _ Hc _ _ Hp) as [Hn _].
  apply set_pr_consistent; [done|]. split; [done|]. intros c H. cbn [PName with_status with_version]. rewrite Hn. by apply Hg, Hk.
Qed.

Lemma safe_CreateNamespace i g name labels annotations (Q : Facts -> Wrote string -> Prop) :
  (forall g' r, g ⊆ g' -> (forall uid, r = Done uid -> (uid, default "" (labels !! ProjectLabel)) ∈ g') -> Q g' r) ->
  safe i g (call (CreateNamespace name labels annotations)) Q.
Proof.
  intros HQ. apply safe_step. intros s born f Hc Hg. destruct (create_consistent born s name labels annotations Hc) as [Hsub Hcreate].
  destruct (nss s !! name) as [ns|] eqn:Hn.
  - assert (Hsame : (handle _ (CreateNamespace name labels annotations) f s).1 = s) by (destruct f; cbn; by rewrite ?Hn).
    exists born, []. rewrite Hsame. split_and!; [done|done|by intros u l ?%not_elem_of_nil|]. apply HQ; [apply sub_app|].
    intros uid Hu. destruct f; cbn in Hu; rewrite ?Hn in Hu; done.
  - assert (Hf : f = Fails \/ (handle _ (CreateNamespace name labels annotations) f s).1 = (serve (CreateNamespace name labels annotations) s).1)
      by (destruct f; auto).
    destruct Hf as [->|Hf].
    { exists born, []. split_and!; [done|done|by intros u l ?%not_elem_of_nil|]. apply HQ; [apply sub_app|]. intros uid Hu. done. }
    rewrite Hf. eexists _, [(uid_of (next s), default "" (labels !! ProjectLabel))]. split_and!; [exact Hsub|by apply Hcreate| |].
    + intros u l [= -> ->]%list_elem_of_singleton. by rewrite lookup_insert_eq.
    + apply HQ; [apply sub_app|]. intros uid Hu. apply elem_of_app. right.
      destruct f; cbn in Hu; rewrite ?Hn in Hu; try done; injection Hu as <-; by apply list_elem_of_singleton.
Qed.

(** ** Steps that may end the pass. *)

(** From facts [g] the step keeps the server consistent, and where it goes on,
    [P] holds of what it returns. *)
Definition steps {A : Type} (i : nat) (g : Facts) (p : prog Api (result Stop A)) (P : Facts -> A -> Prop) : Prop :=
  safe i g p (fun g' r => g ⊆ g' /\ forall a, r = Ok a -> P g' a).

Lemma steps_ok {A B : Type} i g (p : prog Api (result Stop A)) (f : A -> prog Api (result Stop B)) P P' :
  steps i g p P -> (forall g' a, g ⊆ g' -> P g' a -> steps i g' (f a) P') -> steps i g (bind_ok p f) P'.
Proof.
  intros Hp Hf. apply safe_bind. eapply safe_mono; [exact Hp|]. intros g' [a|e] [Hsub Ha]; [|by split].
  eapply safe_mono; [by apply Hf, Ha|]. intros g'' r [Hsub' Hr]. split; [by etrans|done].
Qed.

Lemma steps_call {R A : Type} i g (e : Api R) (f : R -> prog Api (result Stop A)) P :
  safe i g (call e) (fun g' r => g ⊆ g' /\ steps i g' (f r) P) -> steps i g (r ← call e; f r) P.
Proof.
  intros H. apply safe_bind. eapply safe_mono; [exact H|]. intros g' r [Hsub Hr].
  eapply safe_mono; [exact Hr|]. intros g'' r' [Hsub' Hr']. split; [by etrans|done].
Qed.

Lemma steps_ret {A : Type} i g (a : A) (P : Facts -> A -> Prop) : P g a -> steps i g (mret (Ok a)) P.
Proof. intros HP. split; [done|]. by intros a' [= <-]. Qed.

Lemma steps_stop {A : Type} i g e (P : Facts -> A -> Prop) : steps i g (mret (Err e)) P.
Proof. by split. Qed.

Lemma steps_mono {A : Type} i g (p : prog Api (result Stop A)) (P P' : Facts -> A -> Prop) :
  steps i g p P -> (forall g' a, P g' a -> P' g' a) -> steps i g p P'.
Proof. intros H HP. eapply safe_mono; [exact H|]. intros g' r [Hsub Hr]. split; [done|]. intros a Ha. by apply HP, Hr. Qed.

Lemma steps_plain {R A : Type} i g (e : Api R) (f : R -> result Stop A) :
  (forall s born fl, consistent born s -> consistent born (handle R e fl s).1) ->
  steps i g (r ← call e; mret (f r)) (fun _ _ => True).
Proof. intros He. apply steps_call, safe_plain; [done|]. intros r. split; [done|]. destruct (f r); [by apply steps_ret|apply steps_stop]. Qed.

Lemma steps_work i g (what : Other) : steps i g (work what) (fun _ _ => True).
Proof. apply (steps_plain i g (OtherWork what) (fun b : bool => if b then Ok tt else Err WorkFailed)). intros s born f Hc. by destruct f. Qed.

Lemma steps_projects i g : steps i g (list_or (call ListProjects)) (fun _ _ => True).
Proof. apply steps_plain. intros s born f Hc. by destruct f. Qed.

Lemma steps_namespaces i g project : steps i g (list_or (call (ListNamespaces project))) (fun _ _ => True).
Proof. apply steps_plain. intros s born f Hc. by destruct f. Qed.

Lemma steps_exists i g ns : steps i g (namespaceExists ns) (fun _ _ => True).
Proof.
  eapply steps_ok; [apply steps_plain; intros s born f Hc; by destruct f|]. intros g' a _ _. by apply steps_ret.
Qed.

Lemma steps_project i g name (e : Api (Read Project)) :
  (forall Q, project_read name g Q -> safe i g (call e) Q) ->
  steps i g (read_or (call e)) (fun g' p => forall p', p = Some p' -> PName p' = name /\ knows g' p').
Proof.
  intros He. apply steps_call, He. intros g' r Hsub Hr. split; [done|].
  destruct r as [p| |]; [apply steps_ret|apply steps_ret|apply steps_stop]; intros p' [= <-]. by apply Hr.
Qed.

Lemma steps_ns i g name :
  steps i g (read_or (call (LiveNamespace name))) (fun g' ns => forall ns', ns = Some ns' -> (NUID ns', project_label ns') ∈ g').
Proof.
  apply steps_call, safe_LiveNamespace. intros g' r Hsub Hr. split; [done|].
  destruct r as [ns| |]; [apply steps_ret|apply steps_ret|apply steps_stop]; intros ns' [= <-]. by apply Hr.
Qed.

(** ** A reconcile. *)

Lemma desired_project (project : Project) (envName : string) (order : nat) :
  desired_labels project envName order !! ProjectLabel = Some (PName project).
Proof. unfold desired_labels. by rewrite lookup_insert_ne, lookup_insert_eq. Qed.

Lemma steps_claimable i g project namespace uid label : steps i g (claimable project namespace uid label) (fun _ _ => True).
Proof. eapply steps_ok; [apply steps_projects|]. intros g' projects _ _. by apply steps_ret. Qed.

(** What is taken was made for the project. *)
Lemma steps_reconcileNamespace i g project ns envName envNames order :
  steps i g (reconcileNamespace project ns envName envNames order) (fun g' taken => forall uid, taken = inl uid -> (uid, PName project) ∈ g').
Proof.
  unfold reconcileNamespace. eapply steps_ok; [apply steps_ns|]. intros g1 [existing|] _ Hns; (eapply steps_ok; [apply steps_claimable|]); intros g2 conflict H12 _.
  - destruct conflict as [c|]; [by apply steps_ret|]. destruct (String.eqb_spec (project_label existing) (PName project)) as [He|]; cbn [negb]; [|by apply steps_ret].
    specialize (Hns _ eq_refl). rewrite He in Hns. apply H12 in Hns. apply steps_call, safe_UpdateNamespace.
    + cbn [NUID]. replace (project_label _) with (PName project); [done|]. unfold project_label. cbn [NLabels].
      by rewrite (lookup_union_Some_l _ _ _ _ (desired_project project envName order)).
    + intros r. split; [done|]. destruct r; [|apply steps_stop..]. apply steps_ret. by intros uid [= <-].
  - destruct conflict as [c|]; [by apply steps_ret|]. apply steps_call, safe_CreateNamespace. intros g3 r H23 Hr. split; [done|].
    destruct r as [uid| | |]; [|apply steps_stop..]. apply steps_ret. intros uid' [= <-]. specialize (Hr _ eq_refl). by rewrite desired_project in Hr.
Qed.

Lemma repoint_in (claims claims' : list NamespaceClaim) (claim c : NamespaceClaim) :
  repoint claims claim = Some claims' -> c ∈ claims' -> c = claim \/ c ∈ claims.
Proof.
  revert claims'. induction claims as [|x claims IH]; intros claims'; cbn [repoint]; [intros [= <-] H; left; by apply list_elem_of_singleton|].
  destruct (_ =? _).
  - destruct (_ =? _); [done|]. intros [= <-] [->|H]%elem_of_cons; [by left|right; by right].
  - destruct (repoint claims claim) as [l|]; [|done]. intros [= <-] [->|H]%elem_of_cons; [right; by left|].
    destruct (IH l eq_refl H); [by left|right; by right].
Qed.

Lemma steps_publishClaim i g project claim :
  knows g project -> (ClaimUID claim, PName project) ∈ g ->
  steps i g (publishClaim project claim) (fun g' project' => PName project' = PName project /\ knows g' project').
Proof.
  intros Hk Hc. apply steps_call, safe_LiveProject. intros g1 r H1 Hr. split; [done|].
  destruct r as [live| |]; [|apply steps_stop..]. destruct (Hr live eq_refl) as [Hn Hlive].
  destruct (negb _); [apply steps_stop|]. destruct (repoint _ _) as [claims|] eqn:Hrep; [|apply steps_ret; split; [done|by eapply knows_more]].
  assert (Hk' : knows g1 (with_claims live claims)).
  { intros c Hin. cbn [with_claims with_status PName]. destruct (repoint_in _ _ _ _ Hrep Hin) as [->|Hold]; [rewrite Hn; by apply H1|by apply Hlive]. }
  apply steps_call, safe_UpdateStatus; [done|]. intros w. split; [done|].
  destruct w; [apply steps_ret|apply steps_ret|apply steps_stop..]; (split; [done|]).
  - intros c Hin. cbn [synced with_status with_version PName]. rewrite <- Hn. by apply Hk'.
  - by eapply knows_more.
Qed.

(** What a pass keeps true of its progress: what it recorded was made for its
    project. *)
Definition sound (name : string) (g : Facts) (pr : Progress) : Prop :=
  PName (gproject pr) = name /\ knows g (gproject pr) /\ forall c, c ∈ gclaimed pr -> (ClaimUID c, name) ∈ g.

Lemma sound_more name (g g' : Facts) pr : g ⊆ g' -> sound name g pr -> sound name g' pr.
Proof. intros Hsub (Hn & Hk & Hc). split_and!; [done|by eapply knows_more|]. intros c H. by apply Hsub, Hc. Qed.

Lemma steps_take_env i g name envNames pl created pr :
  sound name g pr -> steps i g (take_env envNames pl created pr) (fun g' pr' => sound name g' pr').
Proof.
  intros Hs. eapply steps_ok; [apply steps_reconcileNamespace|]. intros g1 taken H1 Htaken.
  pose proof (sound_more _ _ _ _ H1 Hs) as Hs1. destruct taken as [uid|c]; [|by apply steps_ret].
  specialize (Htaken uid eq_refl). eapply steps_ok; [apply steps_work|]. intros g2 _ H2 _. apply H2 in Htaken.
  pose proof (sound_more _ _ _ _ H2 Hs1) as (Hn & Hk & Hc). destruct (uid =? ""); [apply steps_stop|].
  eapply steps_ok; [by apply steps_publishClaim|]. intros g3 project H3 [Hn3 Hk3].
  eapply steps_ok; [apply steps_work|]. intros g4 _ H4 _. apply steps_ret. split_and!; cbn [gproject gclaimed].
  - by rewrite Hn3.
  - by eapply knows_more.
  - intros c [Hin| ->%list_elem_of_singleton]%elem_of_app; apply H4, H3; [by apply Hc|]. cbn [ClaimUID]. by rewrite <- Hn.
Qed.

Lemma steps_take_all i g name limit existing envNames plans pr :
  sound name g pr -> steps i g (take_all limit existing envNames plans pr) (fun g' pr' => sound name g' pr').
Proof.
  revert g pr. induction plans as [|pl plans IH]; intros g pr Hs; cbn [take_all]; [by apply steps_ret|].
  destruct (_ && _); [by apply IH|]. eapply steps_ok; [by apply steps_take_env|]. intros g' pr' _ Hs'. by apply IH.
Qed.

Lemma steps_plan_all i g project envs order : steps i g (plan_all project envs order) (fun _ _ => True).
Proof.
  revert g order. induction envs as [|env envs IH]; intros g order; cbn [plan_all]; [by apply steps_ret|].
  eapply steps_ok; [apply steps_exists|]. intros g' e _ _. eapply steps_ok; [apply IH|]. intros g'' plans _ _. by apply steps_ret.
Qed.

Lemma steps_owned_recorded i g project projects names owned : steps i g (owned_recorded project projects names owned) (fun _ _ => True).
Proof.
  revert g owned. induction names as [|name names IH]; intros g owned; cbn [owned_recorded]; [by apply steps_ret|].
  destruct (contains _ _); [apply IH|]. eapply steps_ok; [apply steps_ns|]. intros g' ns _ _. apply IH.
Qed.

Lemma steps_delete_all i g keep owned waiting : steps i g (delete_all keep owned waiting) (fun _ _ => True).
Proof.
  revert g waiting. induction owned as [|ns owned IH]; intros g waiting; cbn [delete_all]; [by apply steps_ret|].
  destruct (contains _ _); [apply IH|]. destruct (holdsStorageMove _); [apply IH|].
  apply steps_call, safe_DeleteNamespace. intros r. split; [done|]. destruct r; [apply IH..|apply steps_stop].
Qed.

Lemma steps_deleteProjectNamespaces i g project keep :
  steps i g (deleteProjectNamespaces project keep)
    (fun g' pruned => forall current waiting, pruned = Some (current, waiting) -> PName current = PName project /\ knows g' current).
Proof.
  eapply steps_ok; [apply steps_project; intros Q; apply safe_LiveProject|]. intros g1 [current|] H1 Hp; [|by apply steps_ret].
  destruct (negb _); [apply steps_stop|]. eapply steps_ok; [|].
  - eapply steps_ok; [apply steps_namespaces|]. intros g2 l _ _. eapply steps_ok; [apply steps_projects|]. intros g3 ps _ _. apply steps_owned_recorded.
  - intros g2 owned H2 _. eapply steps_ok; [apply steps_delete_all|]. intros g3 waiting H3 _. apply steps_ret.
    intros c w [= <- <-]. destruct (Hp current eq_refl). split; [done|]. eapply knows_more; [|done]. by etrans.
Qed.

Lemma steps_move_condition i g waiting : steps i g (move_condition waiting) (fun _ _ => True).
Proof. destruct waiting; [by apply steps_ret|apply steps_work]. Qed.

Lemma steps_write_status i g p : knows g p -> steps i g (write_project (UpdateStatus p)) (fun _ _ => True).
Proof.
  intros Hk. apply steps_call, safe_UpdateStatus; [done|]. intros r. split; [done|]. destruct r; [by apply steps_ret|apply steps_stop..].
Qed.

Lemma steps_write_project i g p : steps i g (write_project (UpdateProject p)) (fun _ _ => True).
Proof. apply steps_call, safe_UpdateProject. intros r. split; [done|]. destruct r; [by apply steps_ret|apply steps_stop..]. Qed.

(** Reads that only decide which records to keep. *)
Lemma safe_keep_record i g wants name (Q : Facts -> bool -> Prop) :
  (forall g' b, g ⊆ g' -> Q g' b) -> safe i g (keep_record wants name) Q.
Proof. intros HQ. apply safe_bind, safe_LiveNamespace. intros g' r Hsub _. by apply HQ. Qed.

Lemma safe_keep_names i g wants out recorded (Q : Facts -> list string -> Prop) :
  (forall g' l, g ⊆ g' -> Q g' l) -> safe i g (keep_names wants out recorded) Q.
Proof.
  revert g out. induction recorded as [|name recorded IH]; intros g out HQ; cbn [keep_names]; [by apply HQ|].
  destruct (contains _ _); [by apply IH|]. apply safe_bind, safe_keep_record. intros g' b Hsub. apply IH. intros g'' l H. apply HQ. by etrans.
Qed.

Lemma safe_keep_claims i g wants recorded out claims (Q : Facts -> list NamespaceClaim -> Prop) :
  (forall g' l, g ⊆ g' -> (forall c, c ∈ l -> c ∈ out \/ c ∈ claims) -> Q g' l) -> safe i g (keep_claims wants recorded out claims) Q.
Proof.
  revert g out. induction claims as [|c claims IH]; intros g out HQ; cbn [keep_claims]; [apply HQ; [done|by left]|].
  destruct (contains _ _).
  - apply IH. intros g' l Hsub Hl. apply HQ; [done|]. intros c' H. destruct (Hl c' H); [by left|right; by right].
  - apply safe_bind, safe_keep_record. intros g1 b H1. apply IH. intros g' l Hsub Hl. apply HQ; [by etrans|].
    intros c' H. destruct (Hl c' H) as [Ho|]; [|right; by right]. destruct b; [|by left].
    apply elem_of_app in Ho as [| ->%list_elem_of_singleton]; [by left|right; by left].
Qed.

Lemma steps_finalize i g project moved : steps i g (finalize project moved) (fun _ _ => True).
Proof.
  eapply steps_ok; [apply steps_deleteProjectNamespaces|]. intros g1 [[current waiting]|] _ Hp; [|by apply steps_ret].
  destruct (Hp _ _ eq_refl) as [_ Hk]. eapply steps_ok; [apply steps_move_condition|]. intros g2 _ H2 _.
  eapply (steps_ok _ _ _ _ (fun _ _ => True)).
  - destruct moved; [|by apply steps_ret]. eapply steps_ok; [apply steps_write_status; by eapply knows_more|]. intros g3 v _ _. by apply steps_ret.
  - intros g3 current' _ _. destruct waiting; [|by apply steps_ret]. eapply steps_ok; [apply steps_write_project|]. intros g4 v _ _. by apply steps_ret.
Qed.

Lemma steps_maintain i g project : knows g project -> steps i g (maintain project) (fun _ _ => True).
Proof.
  intros Hk. eapply (steps_ok _ _ _ _ (fun g' p => PName p = PName project /\ knows g' p)).
  { destruct (Finalizer project); [by apply steps_ret|]. eapply steps_ok; [apply steps_write_project|]. intros g1 v H1 _. apply steps_ret. split; [done|].
    by eapply (knows_more g g1 project). }
  intros g1 p _ [Hn Hk1]. eapply (steps_ok _ _ _ _ (fun _ _ => True)).
  { eapply steps_ok; [apply steps_project; intros Q; apply safe_LiveProject|]. intros g2 [current|] _ _; [|by apply steps_ret].
    destruct (_ =? _); [by apply steps_ret|apply steps_stop]. }
  intros g2 standing H2 _. destruct (negb standing); [by apply steps_ret|]. eapply steps_ok; [apply steps_work|]. intros g3 _ H3 _.
  eapply steps_ok; [apply steps_plan_all|]. intros g4 plans H4 _. eapply steps_ok.
  { apply (steps_take_all i g4 (PName p)). split_and!; [done| |by intros c ?%not_elem_of_nil]. eapply knows_more; [|exact Hk1]. exact (transitivity H2 (transitivity H3 H4)). }
  intros g5 pr _ (Hpn & Hpk & Hpc). eapply steps_ok; [apply steps_deleteProjectNamespaces|]. intros g6 [[current waiting]|] H6 _; [|by apply steps_ret].
  eapply steps_ok; [apply steps_work|]. intros g7 _ H7 _. eapply steps_ok; [apply steps_move_condition|]. intros g8 _ H8 _.
  assert (Hsub : g5 ⊆ g8) by exact (transitivity H6 (transitivity H7 H8)). apply safe_bind, safe_keep_names. intros g9 names H9. apply safe_bind, safe_keep_claims.
  intros g10 claims H10 Hclaims. assert (Hsub' : g5 ⊆ g10) by exact (transitivity Hsub (transitivity H9 H10)).
  eapply safe_mono; [eapply (steps_ok _ _ _ _ (fun _ _ => True) (fun _ _ => True)); [apply steps_write_status|intros ? ? _ _; by apply steps_ret]|].
  - intros c Hc. cbn [with_status PName]. destruct (Hclaims c Hc) as [Hin|Hin]; apply Hsub'; [rewrite Hpn; by apply Hpc|by apply Hpk].
  - intros g' r [Hs _]. split; [|done]. etrans; [|exact Hs]. etrans; [|exact H10]. by etrans.
Qed.

Lemma steps_Reconcile i g name moved : steps i g (Reconcile name moved) (fun _ _ => True).
Proof.
  eapply steps_ok; [apply steps_project; intros Q; apply safe_CachedProject|]. intros g1 [project|] _ Hp; [|by apply steps_ret].
  destruct (PDeleting project); [apply steps_finalize|]. apply steps_maintain. by apply Hp.
Qed.

(** ** Any number of reconciles. *)

(** A cluster whose projects hold nothing yet; its namespaces are whatever they
    are, each its own object. *)
Record fresh (s : Cluster) : Prop := {
  fresh_ns : forall n ns, nss s !! n = Some ns -> NName ns = n /\ exists k, (k < next s)%nat /\ NUID ns = uid_of k;
  fresh_own : forall n n' ns ns', nss s !! n = Some ns -> nss s !! n' = Some ns' -> NUID ns = NUID ns' -> n = n';
  fresh_pr : forall n p, prs s !! n = Some p -> PName p = n /\ NamespaceClaims (Status p) = [];
  fresh_past : forall p, p ∈ past s -> NamespaceClaims (Status p) = []
}.

(** The labels the namespaces were made with. *)
Definition first_labels (s : Cluster) : Born := list_to_map (map (fun nn : string * Namespace => (NUID nn.2, project_label nn.2)) (map_to_list (nss s))).

Lemma first_labels_ns (s : Cluster) n ns : fresh s -> nss s !! n = Some ns -> first_labels s !! NUID ns = Some (project_label ns).
Proof.
  intros Hf Hn. apply elem_of_list_to_map_1'.
  - intros l H. apply list_elem_of_fmap in H as ([n' ns'] & [= Hu ->] & H). apply elem_of_map_to_list in H.
    pose proof (fresh_own _ Hf _ _ _ _ Hn H Hu) as ->. by rewrite Hn in H; injection H as ->.
  - apply list_elem_of_fmap. exists (n, ns). split; [done|]. by apply elem_of_map_to_list.
Qed.

Lemma fresh_consistent (s : Cluster) : fresh s -> consistent (first_labels s) s.
Proof.
  intros Hf. split.
  - intros n ns Hn. split; [by apply (fresh_ns _ Hf _ _ Hn)|by eapply first_labels_ns].
  - intros u l H. apply elem_of_list_to_map_2, list_elem_of_fmap in H as ([n ns] & [= -> _] & H). apply elem_of_map_to_list in H.
    by destruct (fresh_ns _ Hf _ _ H).
  - intros n p Hp. destruct (fresh_pr _ Hf _ _ Hp) as [Hn He]. split; [done|]. intros c. rewrite He. by intros ?%not_elem_of_nil.
  - intros p Hp c. rewrite (fresh_past _ Hf _ Hp). by intros ?%not_elem_of_nil.
Qed.

(** C12: Any number of reconciles, interleaved call by call, on stale caches, with failed calls and
    lost answers, and with people creating, editing and deleting projects and namespaces in
    between: no namespace is ever claimed by two projects, and an object that is claimed and
    there has the project label of its claimant. What is assumed of everyone else is that they
    do not change the project label a namespace was made with. *)
Theorem claims_exclusive (s s' : Cluster) (passes : list (string * bool)) (ts : list turn) pool :
  fresh s ->
  run handle outside legal ts (s, map (fun p : string * bool => Reconcile p.1 p.2) passes) = Some (s', pool) ->
  (forall n m p q c, prs s' !! n = Some p -> prs s' !! m = Some q -> c ∈ NamespaceClaims (Status p) -> c ∈ NamespaceClaims (Status q) -> n = m) /\
  (forall n p c ns, prs s' !! n = Some p -> c ∈ NamespaceClaims (Status p) -> nss s' !! ClaimName c = Some ns -> NUID ns = ClaimUID c ->
     project_label ns = n).
Proof.
  intros Hf Hrun.
  assert (Hsafe : pool_safe handle legal inv (fun _ g _ => True) (s, map (fun p : string * bool => Reconcile p.1 p.2) passes) (map (fun _ => []) passes)).
  { split.
    - exists (first_labels s). split; [by apply fresh_consistent|]. apply Forall_forall. intros g Hg. apply list_elem_of_fmap in Hg as (? & -> & _).
      by intros u l ?%not_elem_of_nil.
    - intros i p Hp. cbn [snd] in Hp. rewrite list_lookup_fmap in Hp. destruct (passes !! i) as [[name moved]|] eqn:Hi; [|done]. injection Hp as <-.
      exists []. rewrite list_lookup_fmap, Hi. split; [done|]. eapply safe_mono; [apply steps_Reconcile|]. done. }
  destruct (pool_safe_run handle outside legal inv (fun _ _ _ => True) ts _ _ _ outside_inv Hsafe Hrun) as (gs & (born & Hc & _) & _).
  cbn [fst] in Hc. split.
  - intros n m p q c Hp Hq Hcp Hcq. destruct (of_pr _ _ Hc _ _ Hp) as [<- Hkp], (of_pr _ _ Hc _ _ Hq) as [<- Hkq].
    specialize (Hkp c Hcp). specialize (Hkq c Hcq). congruence.
  - intros n p c ns Hp Hcp Hns Hu. destruct (of_pr _ _ Hc _ _ Hp) as [<- Hkp]. specialize (Hkp c Hcp).
    destruct (of_ns _ _ Hc _ _ Hns) as [_ Hb]. rewrite Hu in Hb. congruence.
Qed.

(** ** Two projects that come to want one name. *)
Module Demo.
Definition project (name uid : string) (envs : list string) : Project := mkProject name uid 0 false true envs "" None [] (mkStatus [] []).

Definition shop : Project := project "shop" "u0" ["eu-prod"].

Definition shop_eu : Project := project "shop-eu" "u1" ["dev"].

Definition cluster : Cluster := mkCluster ∅ (<["shop" := shop]> {["shop-eu" := shop_eu]}) [shop; shop_eu] 2.

(** The first project's reconcile, then the second's, after it was given an
    environment of the same name. *)
Definition schedule : list turn :=
  (replicate 16 (Run 0 Fine) ++ [Outside (EditProject "shop-eu" (mkSpec ["prod"] "" None []))] ++ replicate 16 (Run 1 Fine))%list.

Definition passes : list (string * bool) := [("shop", false); ("shop-eu", false)].

Definition ended := run handle outside legal schedule (cluster, map (fun p : string * bool => Reconcile p.1 p.2) passes).

Lemma cluster_fresh : fresh cluster.
Proof.
  split.
  - intros n ns. cbn. by rewrite lookup_empty.
  - intros n n' ns ns'. cbn. by rewrite lookup_empty.
  - intros n p H. cbn in H. apply lookup_insert_Some in H as [[<- <-]|[_ H]]; [done|]. by apply lookup_singleton_Some in H as [<- <-].
  - intros p [->|[->|[]%not_elem_of_nil]%elem_of_cons]%elem_of_cons; done.
Qed.
End Demo.

Import Demo.

Lemma claims_exclusive_witness :
  exists s pool, ended = Some (s, pool) /\
    (NamespaceClaims ∘ Status <$> prs s !! "shop") = Some [mkClaim "shop-eu-prod" (uid_of 2)] /\
    (NamespaceClaims ∘ Status <$> prs s !! "shop-eu") = Some [] /\
    (forall n m p q c, prs s !! n = Some p -> prs s !! m = Some q -> c ∈ NamespaceClaims (Status p) -> c ∈ NamespaceClaims (Status q) -> n = m).
Proof.
  destruct ended as [[s pool]|] eqn:He; [|vm_compute in He; discriminate]. exists s, pool. split; [reflexivity|].
  assert (Hs : (ended ≫= fun c => Some (NamespaceClaims ∘ Status <$> prs c.1 !! "shop", NamespaceClaims ∘ Status <$> prs c.1 !! "shop-eu"))
               = Some (Some [mkClaim "shop-eu-prod" (uid_of 2)], Some [])) by (vm_compute; reflexivity).
  rewrite He in Hs. cbn in Hs. injection Hs as H1 H2. split; [exact H1|]. split; [exact H2|].
  exact (proj1 (claims_exclusive cluster s passes schedule pool cluster_fresh He)).
Defined.
