(* ===== verification/Totp.v ===== *)
(** * One-time codes ([src/console-api/handlers/twofa/totp.go])

    The codes of RFC 6238 over HMAC-SHA1, the counters a presented code may
    match, and the text an authenticator app is handed. SHA-1, HMAC and base32
    are those of the standard library, executable. *)

From Stdlib Require Import Ascii.
From stdpp Require Import base tactics numbers list option strings.
From S2P Require Import Prelude GoStd Sha256 Calendar EnvTemplate.

(** ** SHA-1 ([crypto/sha1]). *)

Definition rotl (x n : Z) : Z := w32 (Z.lor (Z.shiftl x n) (Z.shiftr x (32 - n))).

Record sha1_state := mkSha1 { h0 : Z; h1 : Z; h2 : Z; h3 : Z; h4 : Z }.

Definition sha1_init : sha1_state := mkSha1 1732584193 4023233417 2562383102 271733878 3285377520.

(** The function and the constant of round [i]. *)
Definition sha1_mix (i : nat) (b c d : Z) : Z * Z :=
  if (i <? 20)%nat then (Z.lor (Z.land b c) (Z.land (not32 b) d), 1518500249)
  else if (i <? 40)%nat then (Z.lxor (Z.lxor b c) d, 1859775393)
  else if (i <? 60)%nat then (Maj b c d, 2400959708)
  else (Z.lxor (Z.lxor b c) d, 3395469782).

(** Round [i] of [n] to come; the window holds the next 16 words. *)
Fixpoint sha1_rounds (n i : nat) (window : list Z) (s : sha1_state) : sha1_state :=
  match n, window with
  | S n', w :: rest =>
      let next :=
        rotl (Z.lxor (Z.lxor (default 0 (rest !! 12%nat)) (default 0 (rest !! 7%nat)))
                (Z.lxor (default 0 (rest !! 1%nat)) w)) 1 in
      let '(f, k) := sha1_mix i (h1 s) (h2 s) (h3 s) in
      let t := w32 (rotl (h0 s) 5 + f + h4 s + k + w) in
      sha1_rounds n' (S i) (rest ++ [next]) (mkSha1 t (h0 s) (rotl (h1 s) 30) (h2 s) (h3 s))
  | _, _ => s
  end.

Definition sha1_block (s : sha1_state) (block : list Z) : sha1_state :=
  let e := sha1_rounds 80 0 block s in
  mkSha1 (add32 (h0 s) (h0 e)) (add32 (h1 s) (h1 e)) (add32 (h2 s) (h2 e)) (add32 (h3 s) (h3 e))
    (add32 (h4 s) (h4 e)).

Fixpoint sha1_blocks (fuel : nat) (ws : list Z) (s : sha1_state) : sha1_state :=
  match fuel, ws with
  | S fuel', _ :: _ => sha1_blocks fuel' (drop 16 ws) (sha1_block s (take 16 ws))
  | _, _ => s
  end.

(** [sha1.Sum]: the padding is SHA-256's. *)
Definition Sha1 (l : list Z) : list Z :=
  let ws := bytes_words (sha_pad l) in
  let s := sha1_blocks (length ws) ws sha1_init in
  word_bytes (h0 s) ++ word_bytes (h1 s) ++ word_bytes (h2 s) ++ word_bytes (h3 s) ++ word_bytes (h4 s).

(** ** HMAC ([crypto/hmac] over [sha1.New]). *)

Definition BlockSize : nat := 64.

Definition hmac_key (key : list Z) : list Z :=
  let key := if (BlockSize <? length key)%nat then Sha1 key else key in
  key ++ replicate (BlockSize - length key) 0.

Definition Hmac (key msg : list Z) : list Z :=
  let padded := hmac_key key in
  Sha1 (map (Z.lxor 92) padded ++ Sha1 (map (Z.lxor 54) padded ++ msg)).

(** ** The codes. *)

Definition totpStep : Duration := 30 * Second.

Definition totpDigits : nat := 6.

(** [binary.BigEndian.PutUint64]. *)
Definition PutUint64 (v : Z) : list Z := word_bytes (Z.shiftr v 32) ++ word_bytes (Z.land v (2 ^ 32 - 1)).

(** [binary.BigEndian.Uint32]. *)
Definition Uint32 (l : list Z) : Z := default 0 (head (bytes_words l)).

Definition totpCode (secret : list Z) (counter : Z) : string :=
  let sum := Hmac secret (PutUint64 counter) in
  let offset := Z.land (List.last sum 0) 15 in
  let code := Z.land (Uint32 (take 4 (drop (Z.to_nat offset) sum))) (2 ^ 31 - 1) in
  appendInt (code mod 1000000) totpDigits.

(** Seconds from the zero time to the Unix epoch; a conversion to [uint64]. *)
Definition unix_epoch : Z := 62135596800.

Definition Unix (t : Time) : Z := t / Second - unix_epoch.

Definition wrapU64 (z : Z) : Z := z mod 2 ^ 64.

Definition current_counter (now : Time) : Z := wrapU64 (Unix now) / 30.

(** The counters from one step before to one step after, oldest first. *)
Definition candidates (now : Time) : list Z :=
  let current := current_counter now in [wrapU64 (current - 1); current; wrapU64 (current + 1)].

(** The first counter that is newer than the last one used and whose code was
    presented; the loop goes on, but keeps the first. *)
Definition matchCode (secret : list Z) (code : string) (now : Time) (lastCounter : Z) : option Z :=
  foldl (fun matched candidate =>
           if candidate <=? lastCounter then matched
           else if (totpCode secret candidate =? code)%string && bool_decide (matched = None) then Some candidate
           else matched) None (candidates now).

(** ** What the app scans. *)

(** [base32.StdEncoding.WithPadding(base32.NoPadding)]: [acc] holds the [k]
    bits not yet written. *)
Definition base32_digit (n : Z) : Ascii.ascii :=
  if n <? 26 then Ascii.ascii_of_N (Z.to_N (65 + n)) else Ascii.ascii_of_N (Z.to_N (24 + n)).

Fixpoint base32_loop (acc k : Z) (l : list Z) : string :=
  match l with
  | [] => if k =? 0 then EmptyString else String (base32_digit (Z.shiftl acc (5 - k))) EmptyString
  | b :: l' =>
      let acc := acc * 256 + b in
      let rest := Z.land acc (Z.ones (k + 3)) in
      let first := base32_digit (Z.shiftr acc (k + 3)) in
      if k <? 2 then String first (base32_loop rest (k + 3) l')
      else String first
             (String (base32_digit (Z.shiftr rest (k - 2))) (base32_loop (Z.land rest (Z.ones (k - 2))) (k - 2) l'))
  end.

Definition base32_encode (l : list Z) : string := base32_loop 0 0 l.

(** [url.PathEscape] and [url.QueryEscape]. *)
Definition path_kept (c : Ascii.ascii) : bool :=
  is_unreserved c || existsb (Ascii.eqb c) ["$"; "&"; "+"; ":"; "="; "@"]%char.

Definition percent (c : Ascii.ascii) (rest : string) : string :=
  String "%"%char (String (upper_hex (Z.shiftr (byte_of c) 4)) (String (upper_hex (Z.land (byte_of c) 15)) rest)).

Fixpoint PathEscape (s : string) : string :=
  match s with
  | EmptyString => EmptyString
  | String c s' => if path_kept c then String c (PathEscape s') else percent c (PathEscape s')
  end.

Fixpoint QueryEscape (s : string) : string :=
  match s with
  | EmptyString => EmptyString
  | String c s' =>
      if Ascii.eqb c " "%char then String "+"%char (QueryEscape s')
      else if is_unreserved c then String c (QueryEscape s') else percent c (QueryEscape s')
  end.

Definition otpauthURI (issuer account : string) (secret : list Z) : string :=
  concat_strings ["otpauth://totp/"%string; PathEscape issuer; ":"%string; PathEscape account; "?secret="%string;
                  base32_encode secret; "&issuer="%string; QueryEscape issuer;
                  "&algorithm=SHA1&digits=6&period=30"%string].

(** ** Lemmas. *)

Lemma length_Sha1 (l : list Z) : length (Sha1 l) = 20%nat.
Proof. reflexivity. Qed.

(** The constant-time loop finds the first of the newer counters. *)
Lemma matchCode_find (secret : list Z) (code : string) (now : Time) (lastCounter : Z) :
  matchCode secret code now lastCounter =
  List.find (fun c => (lastCounter <? c) && (totpCode secret c =? code)%string) (candidates now).
Proof.
  unfold matchCode. set (step := fun _ _ => _).
  assert (Hsome : forall l c, foldl step (Some c) l = Some c).
  { induction l as [|x l IH]; intros c; [done|]. simpl. 
    replace (step (Some c) x) with (Some c); [apply IH|]. unfold step.
    destruct (x <=? lastCounter); [done|]. by rewrite (bool_decide_false (Some c = None)), andb_false_r. }
  generalize (candidates now). induction l as [|x l IH]; [done|]. simpl. rewrite Z.ltb_antisym.
  unfold step at 2. destruct (x <=? lastCounter); simpl; [apply IH|].
  destruct (totpCode secret x =? code)%string; simpl; [apply Hsome|apply IH].
Qed.

Lemma matchCode_Some (secret : list Z) (code : string) (now : Time) (lastCounter c : Z) :
  matchCode secret code now lastCounter = Some c -> In c (candidates now) /\ lastCounter < c /\ totpCode secret c = code.
Proof.
  rewrite matchCode_find. intros [Hin H]%find_some. apply andb_true_iff in H as [Hlt Heq].
  apply Z.ltb_lt in Hlt. apply String.eqb_eq in Heq. done.
Qed.

Lemma totpCode_nonempty (secret : list Z) (counter : Z) : totpCode secret counter <> ""%string.
Proof.
  unfold totpCode, appendInt. intros H. apply str_app_eq_nil in H as [_ H]. apply str_app_eq_nil in H as [_ H].
  cbn [decimal] in H. by apply str_app_eq_nil in H as [_ H].
Qed.

(** The code shown at a time matches then, unless a newer one was used. *)
Lemma matchCode_shown (secret : list Z) (now : Time) (lastCounter : Z) :
  lastCounter < current_counter now -> is_Some (matchCode secret (totpCode secret (current_counter now)) now lastCounter).
Proof.
  intros H. rewrite matchCode_find. destruct (List.find _ _) eqn:Hf; [done|]. exfalso.
  pose proof (find_none _ _ Hf (current_counter now) ltac:(simpl; auto)) as Hno. cbn beta in Hno.
  apply andb_false_iff in Hno as [Hno|Hno]; [apply Z.ltb_ge in Hno; lia|]. by rewrite String.eqb_refl in Hno.
Qed.

Lemma current_counter_range (now : Time) : 0 <= current_counter now < 2 ^ 60.
Proof.
  unfold current_counter, wrapU64. pose proof (Z.mod_pos_bound (Unix now) (2 ^ 64) ltac:(lia)) as Hr.
  split; [apply Z.div_pos; lia|]. apply Z.div_lt_upper_bound; lia.
Qed.

(** A match is at most one step ahead. *)
Lemma matchCode_near (secret : list Z) (code : string) (now : Time) (lastCounter c : Z) :
  1 <= current_counter now -> matchCode secret code now lastCounter = Some c -> c <= current_counter now + 1.
Proof.
  intros Hpos (Hin & _ & _)%matchCode_Some. pose proof (current_counter_range now) as Hr.
  assert (Hsmall : forall x, 0 <= x < 2 ^ 64 -> wrapU64 x = x) by (intros x Hx; unfold wrapU64; by apply Z.mod_small).
  unfold candidates in Hin. simpl in Hin. rewrite !Hsmall in Hin by lia. lia.
Qed.

(** The counter of a reading of the clock, for a time after the epoch. *)
Lemma current_counter_exact (now : Time) :
  0 <= Unix now < 2 ^ 64 -> current_counter now = Unix now / 30.
Proof. intros H. unfold current_counter, wrapU64. by rewrite Z.mod_small. Qed.

Lemma length_base32_loop (l : list Z) (acc k : Z) :
  0 <= k < 5 ->
  (5 * String.length (base32_loop acc k l) = 8 * length l + Z.to_nat k + Z.to_nat ((- (8 * Z.of_nat (length l) + k)) mod 5))%nat.
Proof.
  revert acc k. induction l as [|b l IH]; intros acc k Hk; cbn [base32_loop length].
  - destruct (Z.eqb_spec k 0) as [->|]; [done|]. simpl String.length.
    assert (k = 1 \/ k = 2 \/ k = 3 \/ k = 4) as [-> | [-> | [-> | ->]]] by lia; reflexivity.
  - destruct (Z.ltb_spec k 2); cbn [String.length].
    + specialize (IH (Z.land (acc * 256 + b) (Z.ones (k + 3))) (k + 3) ltac:(lia)).
      replace (- (8 * Z.of_nat (S (length l)) + k)) with (- (8 * Z.of_nat (length l) + (k + 3)) + (-1) * 5) by lia.
      rewrite Z.mod_add by lia. lia.
    + specialize (IH (Z.land (Z.land (acc * 256 + b) (Z.ones (k + 3))) (Z.ones (k - 2))) (k - 2) ltac:(lia)).
      replace (- (8 * Z.of_nat (S (length l)) + k)) with (- (8 * Z.of_nat (length l) + (k - 2)) + (-2) * 5) by lia.
      rewrite Z.mod_add by lia. lia.
Qed.

(** Sixteen bytes make 26 characters, ten make 16. *)
Lemma length_base32 (l : list Z) (n : nat) :
  length l = n -> (String.length (base32_encode l) = (8 * n + 4) / 5)%nat.
Proof.
  intros <-. pose proof (length_base32_loop l 0 0 ltac:(lia)) as H. unfold base32_encode.
  pose proof (Z.mod_pos_bound (- (8 * Z.of_nat (length l) + 0)) 5 ltac:(lia)).
  apply Nat.div_unique with (r := (4 - Z.to_nat ((- (8 * Z.of_nat (length l) + 0)) mod 5))%nat); lia.
Qed.

(** ** The published vectors (FIPS 180, RFC 2202, RFC 6238, RFC 4648). *)

Example sha1_abc : hex_encode (Sha1 (bytes_of "abc")) = "a9993e364706816aba3e25717850c26c9cd0d89d"%string.
Proof. vm_compute. reflexivity. Qed.

Example hmac_long_key :
  hex_encode (Hmac (replicate 80 170) (bytes_of "Test Using Larger Than Block-Size Key - Hash Key First")) =
  "aa4ae5e15272d00e95705637ce8a3b55ed402112"%string.
Proof. vm_compute. reflexivity. Qed.

Example totp_vectors :
  map (fun unix => totpCode (bytes_of "12345678901234567890") (unix / 30))
    [59; 1111111109; 1111111111; 1234567890; 2000000000; 20000000000] =
  ["287082"; "081804"; "050471"; "005924"; "279037"; "353130"]%string.
Proof. vm_compute. reflexivity. Qed.

Example base32_vectors :
  map (fun s => base32_encode (bytes_of s)) ["f"; "fo"; "foo"; "foob"; "fooba"; "foobar"]%string =
  ["MY"; "MZXQ"; "MZXW6"; "MZXW6YQ"; "MZXW6YTB"; "MZXW6YTBOI"]%string.
Proof. vm_compute. reflexivity. Qed.

#[global] Opaque Sha1 totpCode.
