(* ===== verification/TwoFactor.v ===== *)
(** * Two-factor authentication
    ([src/console-api/handlers/twofa], [src/controller/pkg/twofa],
    [src/kip/cmd/twofa.go])

    A user's factor is one Kubernetes Secret; a bootstrap code is another. The
    handlers and the two commands are programs over the calls they make: the
    API server, the clock, random bytes, the critical sections of the limiter
    and of the locks of their replica. The API server keeps every revision it
    ever stored; a resource version is the number of its revision. *)

From Stdlib Require Import Ascii.
From stdpp Require Import base tactics numbers countable list option strings gmap.
From S2P Require Import Prelude Calls GoStd Sha256 Calendar Totp.

Local Open Scope string_scope.

(** ** Identities. *)

Record Claims := mkClaims { Issuer : string; Subject : string; Email : string }.

Definition NUL : string := String (Ascii.ascii_of_N 0) "".

(** [None] for the error. *)
Definition userKey (claims : option Claims) : option string :=
  match claims with
  | None => None
  | Some c =>
      if (Issuer c =? "") || (Subject c =? "") then None
      else Some (hex_encode (take 8 (Sum256 (Issuer c ++ NUL ++ Subject c))))
  end.

Definition no_identity : string := "token carries no issuer or subject".

Definition factorSecretPrefix : string := "kipper-2fa-".

Definition factorLabel : string := "kipper.run/twofa".

Definition factorSecretName (key : string) : string := factorSecretPrefix ++ key.

Definition secretPrefix : string := "kipper-2fa-bootstrap-".

(** [twofa.SecretName], on ASCII text. *)
Definition SecretName (email : string) : string :=
  secretPrefix ++ hex_encode (take 8 (Sum256 (ToLower (TrimSpace email)))).

(** ** Factors. *)

Definition factorStatePending : string := "pending".

Definition factorStateActive : string := "active".

Definition pendingTTL : Duration := 15 * Minute.

Definition BootstrapTTL : Duration := 15 * Minute.

Definition recoveryCodeCount : nat := 8.

Definition defaultMinAgeDays : Z := 7.

Record factor := mkFactor {
  State : string; Secret : list Z; FIssuer : string; FSubject : string; FEmail : string;
  CreatedAt : Time; EnrolledAt : Time; LastCounter : Z; RecoveryCodes : list string
}.

(** [json.Marshal] of a factor: a time is written if its year has four digits. *)
Definition four_digits (t : Time) : bool := (0 <=? t)%Z && (t <? Date 10000 1 1)%Z.

Definition Marshal (f : factor) : option factor :=
  if four_digits (CreatedAt f) && four_digits (EnrolledAt f) then Some f else None.

(** What a Secret holds: the factor, [None] when it is missing or does not
    decode, and the texts of a bootstrap code. *)
Record Data := mkData { Factor : option factor; Code : string; DEmail : string; Expires : string }.

Abbreviation Strmap := (@gmap string String.eq_dec String.countable string).

Record KSecret := mkSecret { SName : string; SUID : nat; SVersion : nat; SLabels : Strmap; SData : Data }.

Definition with_factor (f : factor) (s : KSecret) : KSecret :=
  mkSecret (SName s) (SUID s) (SVersion s) (SLabels s)
    (mkData (Some f) (Code (SData s)) (DEmail (SData s)) (Expires (SData s))).

(** ** The limiter ([ratelimit.go]). *)

Definition rateLimitWindow : Duration := 5 * Minute.

Definition rateLimitMax : nat := 5.

(** The failures of each identity. *)
Abbreviation rateLimiter := (@gmap string String.eq_dec String.countable (list Time)).

Definition recent (now : Time) (key : string) (r : rateLimiter) : list Time * rateLimiter :=
  let cutoff := Add now (- rateLimitWindow) in
  let kept := filter (fun t => Is_true (After t cutoff)) (default [] (r !! key)) in
  (kept, if bool_decide (kept = []) then delete key r else <[key := kept]> r).

Definition allowed (now : Time) (key : string) (r : rateLimiter) : bool * rateLimiter :=
  let '(kept, r) := recent now key r in ((length kept <? rateLimitMax)%nat, r).

Definition recordFailure (now : Time) (key : string) (r : rateLimiter) : bool * rateLimiter :=
  let '(kept, r) := recent now key r in
  let kept := (kept ++ [now])%list in ((length kept =? rateLimitMax)%nat, <[key := kept]> r).

Definition reset (key : string) (r : rateLimiter) : rateLimiter := delete key r.

(** ** Calls. *)

Inductive ApiError := NotFound | AlreadyExists | Conflict | ServerError.

#[export] Instance ApiError_eq_dec : EqDecision ApiError.
Proof. solve_decision. Defined.

Record SecurityEvent := mkEvent { Kind : string; User : string; Summary : string; Fields : list (string * string) }.

(** Calls of replica [h] name it where they act on its memory. *)
Inductive api : Type -> Type :=
| GetSecret (name : string) : api (result ApiError KSecret)
| ListFactors : api (result ApiError (list KSecret))
| CreateSecret (name : string) (labels : Strmap) (data : Data) : api (result ApiError unit)
| UpdateSecret (secret : KSecret) : api (result ApiError unit)
| DeleteSecret (name : string) (preconditions : option (nat * nat)) : api (result ApiError unit)
| Now : api Time
| RandRead (n : nat) : api (option (list Z))
| GenerateFromPassword (password : string) : api (option string)
| Allowed (h : nat) (key : string) : api bool
| RecordFailure (h : nat) (key : string) : api bool
| ResetFailures (h : nat) (key : string) : api unit
| LockUser (h : nat) (key : string) : api unit
| UnlockUser (h : nat) (key : string) : api unit
| Emit (e : SecurityEvent) : api unit.

(** ** Errors. *)

Inductive StoreError :=
| Api (e : ApiError) | CorruptRecord | Unmarshalable | AlreadyEnrolled | InProgress | Changed
| NoCode | ReadingCode (e : ApiError) | CodeExpired | CodeInvalid | CodeUsed | ConsumingCode (e : ApiError).

(** What the code gets from its surroundings: the words of errors it passes on,
    the layouts of times, bcrypt, the issuer shown in apps, and the environment
    variable of the age gate. *)
Class Platform := {
  api_text : ApiError -> string; corrupt_text : string; marshal_text : string; random_text : string;
  ParseTime : string -> option Time; FormatTime : Time -> string; FormatLong : Time -> string;
  hash_password : nat -> string -> string; CompareHashAndPassword : string -> string -> bool;
  HIssuer : string; minAgeDays : string
}.

Section Handlers.
Context `{Platform}.

Definition Error (e : StoreError) (email : string) : string :=
  match e with
  | Api e => api_text e
  | CorruptRecord => "corrupt 2FA factor record: " ++ corrupt_text
  | Unmarshalable => marshal_text
  | AlreadyEnrolled => "a 2FA factor is already enrolled. Use reset to rotate it"
  | InProgress => "an enrollment is already in progress. Confirm it or retry after it expires"
  | Changed => "2FA state changed concurrently. Try again"
  | NoCode => "no enrollment code found. Ask a host operator to run: kip 2fa bootstrap " ++ email
  | ReadingCode e => "reading enrollment code: " ++ api_text e
  | CodeExpired => "the enrollment code has expired. Ask a host operator to issue a new one"
  | CodeInvalid => "invalid enrollment code"
  | CodeUsed => "enrollment code already used"
  | ConsumingCode e => "consuming enrollment code: " ++ api_text e
  end.

(** ** The store ([store.go]). *)

(** [lock] and the unlock it returns, around what runs in between. *)
Definition locked {A : Type} (h : nat) (key : string) (p : prog api A) : prog api A :=
  _ ← call (LockUser h key);
  a ← p;
  _ ← call (UnlockUser h key);
  mret a.

Definition get (key : string) : prog api (result StoreError (factor * KSecret)) :=
  answer ← call (GetSecret (factorSecretName key));
  mret match answer with
       | Err e => Err (Api e)
       | Ok secret => match Factor (SData secret) with Some f => Ok (f, secret) | None => Err CorruptRecord end
       end.

Definition update (secret : KSecret) (f : factor) : prog api (result StoreError unit) :=
  match Marshal f with
  | None => mret (Err Unmarshalable)
  | Some payload =>
      answer ← call (UpdateSecret (with_factor payload secret));
      mret match answer with
           | Ok _ => Ok tt
           | Err Conflict => Err Changed
           | Err e => Err (Api e)
           end
  end.

Definition factor_labels : Strmap := {[ "app.kubernetes.io/managed-by" := "kipper"; factorLabel := "true" ]}.

Definition createPending (key : string) (f : factor) : prog api (result StoreError unit) :=
  found ← get key;
  match found with
  | Ok (existing, secret) =>
      if State existing =? factorStateActive then mret (Err AlreadyEnrolled)
      else
        now ← call Now;
        if (Sub now (CreatedAt existing) <? pendingTTL)%Z then mret (Err InProgress)
        else update secret f
  | Err (Api NotFound) =>
      match Marshal f with
      | None => mret (Err Unmarshalable)
      | Some payload =>
          answer ← call (CreateSecret (factorSecretName key) factor_labels (mkData (Some payload) "" "" ""));
          mret match answer with
               | Ok _ => Ok tt
               | Err AlreadyExists => Err InProgress
               | Err e => Err (Api e)
               end
      end
  | Err e => mret (Err e)
  end.

Definition deletePending (key : string) (secret : KSecret) : prog api (result StoreError unit) :=
  answer ← call (DeleteSecret (factorSecretName key) (Some (SUID secret, SVersion secret)));
  mret match answer with
       | Ok _ => Ok tt
       | Err Conflict | Err NotFound => Err Changed
       | Err e => Err (Api e)
       end.

Definition newTOTPSecret : prog api (option (list Z)) := call (RandRead 20).

(** The five groups of a recovery code. *)
Definition grouped (code : string) : string :=
  Join [str_take 5 code; str_take 5 (str_drop 5 code); str_take 5 (str_drop 10 code); str_take 5 (str_drop 15 code);
        str_drop 20 code] "-".

Fixpoint recovery_codes (n : nat) : prog api (result string (list string * list string)) :=
  match n with
  | O => mret (Ok ([], []))
  | S n' =>
      raw ← call (RandRead 16);
      match raw with
      | None => mret (Err ("generating recovery code: " ++ random_text))
      | Some raw =>
          let code := grouped (base32_encode raw) in
          hash ← call (GenerateFromPassword code);
          match hash with
          | None => mret (Err ("hashing recovery code: " ++ random_text))
          | Some hash =>
              rest ← recovery_codes n';
              mret ('(plain, hashes) ← rest; Ok (code :: plain, hash :: hashes))
          end
      end
  end.

Definition newRecoveryCodes : prog api (result string (list string * list string)) := recovery_codes recoveryCodeCount.

(** The index of the first hash of the presented code, every one compared. *)
Fixpoint matched_index (i : nat) (hashes : list string) (presented : string) (matched : option nat) : option nat :=
  match hashes with
  | [] => matched
  | hash :: rest =>
      matched_index (S i) rest presented
        (if CompareHashAndPassword hash presented && bool_decide (matched = None) then Some i else matched)
  end.

Definition consumeRecoveryCode (hashes : list string) (presented : string) : option (list string) :=
  match matched_index 0 hashes presented None with
  | None => None
  | Some i => Some (take i hashes ++ drop (S i) hashes)%list
  end.

Definition MinFactorAge : Duration :=
  let raw := TrimSpace minAgeDays in
  let fallback := (defaultMinAgeDays * 24 * Hour)%Z in
  if raw =? "" then fallback
  else match Atoi raw with
       | Some days => if (days <? 0)%Z then fallback else wrap64 (wrap64 (days * 24) * Hour)
       | None => fallback
       end.

(** [int(minAge.Hours() / 24)], exact for an age that did not wrap around. *)
Definition min_age_days : Z := Z.quot MinFactorAge Day.

(** Whether the warning of a weakened gate is logged. *)
Definition WarnIfWeakened : bool := (MinFactorAge <? defaultMinAgeDays * 24 * Hour)%Z.

(** ** Bootstrap codes ([bootstrap.go] of both packages). *)

Definition consumeBootstrapCode (email presented : string) : prog api (result StoreError unit) :=
  let name := SecretName email in
  answer ← call (GetSecret name);
  match answer with
  | Err NotFound => mret (Err NoCode)
  | Err e => mret (Err (ReadingCode e))
  | Ok secret =>
      let stored := Code (SData secret) in
      if stored =? "" then mret (Err CodeExpired)
      else match ParseTime (Expires (SData secret)) with
           | None => mret (Err CodeExpired)
           | Some expires =>
               now ← call Now;
               if After now expires then mret (Err CodeExpired)
               else if negb (stored =? TrimSpace presented) then mret (Err CodeInvalid)
               else
                 deleted ← call (DeleteSecret name (Some (SUID secret, SVersion secret)));
                 mret match deleted with
                      | Ok _ => Ok tt
                      | Err NotFound | Err Conflict => Err CodeUsed
                      | Err e => Err (ConsumingCode e)
                      end
           end
  end.

Definition NewCode : prog api (option string) :=
  raw ← call (RandRead 10);
  mret (raw ← raw;
        let code := base32_encode raw in
        Some (Join [str_take 4 code; str_take 4 (str_drop 4 code); str_take 4 (str_drop 8 code);
                    str_take 4 (str_drop 12 code)] "-")).

Definition bootstrap_labels : Strmap :=
  {[ "app.kubernetes.io/managed-by" := "kipper"; "kipper.run/twofa-bootstrap" := "true" ]}.

Definition BuildSecret (email code : string) (now : Time) : string * Strmap * Data :=
  (SecretName email, bootstrap_labels, mkData None code email (FormatTime (Add now BootstrapTTL))).

(** ** The handlers ([handler.go]). *)

Inductive Body :=
| ErrorBody (message : string)
| EnrollBody (otpauth_uri secret : string)
| ConfirmBody (recovery_codes : list string) (enrolled_at eligible_at : string)
| StatusBody (state : string) (min_age_days : Z) (details : option (string * string * bool)).

Definition Response : Type := Z * Body.

Definition respondError (status : Z) (message : string) : prog api Response := mret (status, ErrorBody message).

Definition emit (e : SecurityEvent) : prog api unit := call (Emit e).

Definition lockout (email what : string) : SecurityEvent := mkEvent "twofa_lockout" email what [].

(** A failure is recorded, and reported when it is the one that locks. *)
Definition record_failure (h : nat) (key email what : string) : prog api unit :=
  crossed ← call (RecordFailure h key);
  if crossed : bool then emit (lockout email what) else mret tt.

Definition pending_factor (c : Claims) (secret : list Z) (now : Time) : factor :=
  mkFactor factorStatePending secret (Issuer c) (Subject c) (Email c) now zero_time 0 [].

Definition email_of (claims : option Claims) : string := default "" (Email <$> claims).

(** The codes of a request are [None] where its body does not decode. *)
Definition EnrollHandler (h : nat) (claims : option Claims) (body : option string) : prog api Response :=
  match claims, userKey claims with
  | Some c, Some key =>
      match body with
      | None | Some "" => respondError 400 "bootstrap_code is required"
      | Some code =>
          let limited := "bootstrap/" ++ key in
          ok ← call (Allowed h limited);
          if negb ok then respondError 429 "too many failed attempts. Wait a few minutes"
          else
            consumed ← consumeBootstrapCode (Email c) code;
            match consumed with
            | Err e =>
                _ ← record_failure h limited (Email c) ("repeated failed 2FA bootstrap attempts for " ++ Email c);
                respondError 403 (Error e (Email c))
            | Ok _ =>
                _ ← call (ResetFailures h limited);
                secret ← newTOTPSecret;
                match secret with
                | None => respondError 500 ("generating TOTP secret: " ++ random_text)
                | Some secret =>
                    now ← call Now;
                    created ← createPending key (pending_factor c secret now);
                    match created with
                    | Err e => respondError 409 (Error e (Email c))
                    | Ok _ =>
                        _ ← emit (mkEvent "twofa_enrollment_started" (Email c) ("2FA enrollment started for " ++ Email c) []);
                        mret (200%Z, EnrollBody (otpauthURI HIssuer (Email c) secret) (base32_encode secret))
                    end
                end
            end
      end
  | _, _ => respondError 401 no_identity
  end.

(** What [ConfirmHandler] does under the lock. *)
Definition confirm (h : nat) (email key code : string) : prog api Response :=
  found ← get key;
  match found with
  | Err (Api NotFound) => respondError 404 "no enrollment in progress"
  | Err e => respondError 500 (Error e email)
  | Ok (f, secret) =>
      if negb (State f =? factorStatePending) then
        respondError 409 "the factor is already active. Use reset to rotate it"
      else
        age ← call Now;
        if (pendingTTL <? Sub age (CreatedAt f))%Z then respondError 410 "the enrollment has expired. Start again"
        else
          at_match ← call Now;
          match matchCode (Secret f) code at_match (LastCounter f) with
          | None =>
              deleted ← deletePending key secret;
              match deleted with
              | Err e => respondError 409 (Error e email)
              | Ok _ =>
                  _ ← emit (mkEvent "twofa_confirm_failed" email
                              ("2FA confirmation failed for " ++ email ++ ": the pending enrollment was voided") []);
                  respondError 403 "wrong code: the enrollment is void, start again with a new code from the host"
              end
          | Some counter =>
              _ ← call (ResetFailures h key);
              codes ← newRecoveryCodes;
              match codes with
              | Err text => respondError 500 text
              | Ok (plainCodes, hashes) =>
                  now ← call Now;
                  updated ← update secret (mkFactor factorStateActive (Secret f) (FIssuer f) (FSubject f) (FEmail f)
                                             (CreatedAt f) now counter hashes);
                  match updated with
                  | Err e => respondError 409 (Error e email)
                  | Ok _ =>
                      let eligibleAt := Add now MinFactorAge in
                      _ ← emit (mkEvent "twofa_enrolled" email
                                  ("2FA factor enrolled for " ++ email ++ ": if this was not them, their account is compromised")
                                  [("migration_eligible_at", FormatTime eligibleAt);
                                   ("action_if_unexpected", "this factor can start a cluster migration once eligible: reset it and the account credentials now")]);
                      mret (200%Z, ConfirmBody plainCodes (FormatTime now) (FormatTime eligibleAt))
                  end
              end
          end
  end.

Definition ConfirmHandler (h : nat) (claims : option Claims) (body : option string) : prog api Response :=
  match userKey claims with
  | None => respondError 401 no_identity
  | Some key =>
      match body with
      | None | Some "" => respondError 400 "code is required"
      | Some code => locked h key (confirm h (email_of claims) key code)
      end
  end.

Definition StatusHandler (claims : option Claims) : prog api Response :=
  match userKey claims with
  | None => respondError 401 no_identity
  | Some key =>
      let status state details := (200%Z, StatusBody state min_age_days details) in
      found ← get key;
      match found with
      | Err (Api NotFound) => mret (status "absent" None)
      | Err e => respondError 500 (Error e (email_of claims))
      | Ok (f, _) =>
          if State f =? factorStatePending then
            now ← call Now;
            mret (status (if (pendingTTL <? Sub now (CreatedAt f))%Z then "absent" else "pending") None)
          else if State f =? factorStateActive then
            now ← call Now;
            let eligibleAt := Add (EnrolledAt f) MinFactorAge in
            mret (status "active"
                    (Some (FormatTime (EnrolledAt f), FormatTime eligibleAt, negb (Before now eligibleAt))))
          else mret (status "absent" None)
      end
  end.

(** The code or, without one, the recovery code: whether one of the two was
    used, and which; a new factor takes the place of what is left. *)
Definition authorise (f : factor) (code recovery : string) : prog api (option bool) :=
  if negb (code =? "") then
    now ← call Now;
    mret (match matchCode (Secret f) code now (LastCounter f) with Some _ => Some false | None => None end)
  else mret (match consumeRecoveryCode (RecoveryCodes f) recovery with Some _ => Some true | None => None end).

Definition reset_factor (h : nat) (c : Claims) (key code recovery : string) : prog api Response :=
  found ← get key;
  match found with
  | Err (Api NotFound) => respondError 404 "no 2FA factor enrolled"
  | Err e => respondError 500 (Error e (Email c))
  | Ok (f, secret) =>
      if negb (State f =? factorStateActive) then
        respondError 409 "no active factor to reset. Confirm or restart the pending enrollment"
      else
        ok ← call (Allowed h key);
        if negb ok then respondError 429 "too many failed attempts. Wait a few minutes"
        else
          authorised ← authorise f code recovery;
          match authorised with
          | None =>
              _ ← record_failure h key (Email c) ("repeated failed 2FA reset attempts for " ++ Email c);
              respondError 403 "invalid code"
          | Some usedRecovery =>
              _ ← call (ResetFailures h key);
              newSecret ← newTOTPSecret;
              match newSecret with
              | None => respondError 500 ("generating TOTP secret: " ++ random_text)
              | Some newSecret =>
                  now ← call Now;
                  updated ← update secret (pending_factor c newSecret now);
                  match updated with
                  | Err e => respondError 409 (Error e (Email c))
                  | Ok _ =>
                      _ ← emit (mkEvent "twofa_reset" (Email c)
                                  ("2FA factor reset for " ++ Email c ++ ": the old factor and recovery codes are void")
                                  [("via_recovery_code", if usedRecovery : bool then "true" else "false")]);
                      mret (200%Z, EnrollBody (otpauthURI HIssuer (Email c) newSecret) (base32_encode newSecret))
                  end
              end
          end
  end.

Definition ResetHandler (h : nat) (claims : option Claims) (body : option (string * string)) : prog api Response :=
  match claims, userKey claims with
  | Some c, Some key =>
      match body with
      | None | Some ("", "") => respondError 400 "code or recovery_code is required"
      | Some (code, recovery) => locked h key (reset_factor h c key code recovery)
      end
  | _, _ => respondError 401 no_identity
  end.

(** [StatusFor]: the state, when it becomes eligible, and whether it is. *)
Definition StatusFor (claims : option Claims) : prog api (result string (string * Time * bool)) :=
  match userKey claims with
  | None => mret (Err no_identity)
  | Some key =>
      found ← get key;
      match found with
      | Err (Api NotFound) => mret (Ok ("absent", zero_time, false))
      | Err e => mret (Err (Error e (email_of claims)))
      | Ok (f, _) =>
          if State f =? factorStatePending then
            now ← call Now;
            mret (Ok (if (pendingTTL <? Sub now (CreatedAt f))%Z then ("absent", zero_time, false)
                      else ("pending", zero_time, false)))
          else if State f =? factorStateActive then
            let at_ := Add (EnrolledAt f) MinFactorAge in
            now ← call Now;
            mret (Ok ("active", at_, negb (Before now at_)))
          else mret (Ok ("absent", zero_time, false))
      end
  end.

Inductive StepUpError :=
| ErrFactorNotEligible (msg : string)
| ReadingFactor (e : StoreError)
| ChangedConcurrently.

(** The attempts of [VerifyStepUp]; [None] is no error. *)
Fixpoint step_up (attempts : nat) (h : nat) (email key code operation : string) : prog api (option StepUpError) :=
  match attempts with
  | O => mret (Some ChangedConcurrently)
  | S attempts' =>
      let refuse msg := Some (ErrFactorNotEligible msg) in
      found ← get key;
      match found with
      | Err (Api NotFound) => mret (refuse "no 2FA factor enrolled: enroll one in Settings first")
      | Err e => mret (Some (ReadingFactor e))
      | Ok (f, secret) =>
          if negb (State f =? factorStateActive) then
            mret (refuse "the 2FA enrollment is unconfirmed: finish it in Settings first")
          else
            let eligibleAt := Add (EnrolledAt f) MinFactorAge in
            now ← call Now;
            if Before now eligibleAt then
              _ ← emit (mkEvent "twofa_young_factor_refused" email
                          (operation ++ " attempt by " ++ email ++ " refused: 2FA factor is younger than the required "
                             ++ appendInt min_age_days 0 ++ " days")
                          [("eligible_at", FormatTime eligibleAt)]);
              mret (refuse ("the 2FA factor is too new for this operation: it becomes eligible on "
                              ++ FormatLong eligibleAt ++ " (host operators can adjust KIPPER_MIGRATION_2FA_MIN_AGE_DAYS)"))
            else
              ok ← call (Allowed h key);
              if negb ok then mret (refuse "too many failed attempts. Wait a few minutes")
              else
                at_match ← call Now;
                match matchCode (Secret f) code at_match (LastCounter f) with
                | None =>
                    _ ← record_failure h key email ("repeated failed 2FA attempts by " ++ email ++ " during " ++ operation);
                    mret (refuse "invalid 2FA code")
                | Some counter =>
                    updated ← update secret (mkFactor (State f) (Secret f) (FIssuer f) (FSubject f) (FEmail f)
                                               (CreatedAt f) (EnrolledAt f) counter (RecoveryCodes f));
                    match updated with
                    | Err _ => step_up attempts' h email key code operation
                    | Ok _ => _ ← call (ResetFailures h key); mret None
                    end
                end
      end
  end.

Definition VerifyStepUp (h : nat) (claims : option Claims) (code operation : string) : prog api (option StepUpError) :=
  match userKey claims with
  | None => mret (Some (ErrFactorNotEligible no_identity))
  | Some key =>
      if code =? "" then mret (Some (ErrFactorNotEligible "a 2FA code is required for this operation"))
      else locked h key (step_up 3 h (email_of claims) key code operation)
  end.

(** ** The commands ([kip 2fa bootstrap] and [kip 2fa remove]). *)

(** The code shown, or the error. *)
Definition runTwofaBootstrap (email : string) : prog api (result string string) :=
  code ← NewCode;
  match code with
  | None => mret (Err random_text)
  | Some code =>
      now ← call Now;
      let '(name, labels, data) := BuildSecret email code now in
      created ← call (CreateSecret name labels data);
      match created with
      | Ok _ => mret (Ok code)
      | Err AlreadyExists =>
          found ← call (GetSecret name);
          match found with
          | Err e => mret (Err ("replacing enrollment code: " ++ api_text e))
          | Ok existing =>
              updated ← call (UpdateSecret (mkSecret (SName existing) (SUID existing) (SVersion existing) labels data));
              mret match updated with
                   | Ok _ => Ok code
                   | Err e => Err ("replacing enrollment code: " ++ api_text e)
                   end
          end
      | Err e => mret (Err ("storing enrollment code: " ++ api_text e))
      end
  end.

Definition recorded_for (email : string) (s : KSecret) : bool :=
  match Factor (SData s) with Some f => FEmail f =? email | None => false end.

Definition runTwofaRemove (email : string) : prog api (result string unit) :=
  listed ← call ListFactors;
  match listed with
  | Err e => mret (Err ("listing 2FA factors: " ++ api_text e))
  | Ok items =>
      match List.find (recorded_for email) items with
      | None => mret (Err ("no 2FA factor found for " ++ email))
      | Some secret =>
          deleted ← call (DeleteSecret (SName secret) None);
          mret match deleted with
               | Ok _ => Ok tt
               | Err e => Err ("removing 2FA factor: " ++ api_text e)
               end
      end
  end.
End Handlers.
