(* ===== verification/TwoFactorWorld.v ===== *)
(** * Where two-factor requests run

    The API server with the revisions it stored, the memory of each replica
    (its limiter and its locks), the clock and the random bytes, as one state;
    what each call does to it; the requests a schedule interleaves. A call to
    the server may fail before or after it took effect. Three parts of the
    state are kept for the theorems only: the revisions, the bytes drawn and the
    limiter's journal. *)

From stdpp Require Import base tactics numbers countable list option strings gmap.
From S2P Require Import Prelude Calls GoStd Calendar Totp TwoFactor.

(** One revision of a Secret, [None] when it was deleted, and when it was
    stored. *)
Record Revision := mkRevision { RName : string; RSecret : option KSecret; RTime : Time }.

(** What a limiter was told. *)
Inductive LimiterOp := Failed (h : nat) (key : string) (t : Time) | Cleared (h : nat) (key : string).

Record World := mkWorld {
  secrets : gmap string KSecret;
  revisions : list Revision;
  clock : Time;
  limiters : gmap nat (gmap string (list Time));
  locks : gset (nat * string);
  (** The bytes of the [i]-th draw, and the TOTP secrets drawn so far. *)
  draws : nat;
  drawn : list (list Z);
  sent : list SecurityEvent;
  journal : list LimiterOp
}.

Definition set_server (m : gmap string KSecret) (r : Revision) (w : World) : World :=
  mkWorld m (revisions w ++ [r]) (clock w) (limiters w) (locks w) (draws w) (drawn w) (sent w) (journal w).

Definition put (s : KSecret) (w : World) : World :=
  set_server (<[SName s := s]> (secrets w)) (mkRevision (SName s) (Some s) (clock w)) w.

Definition drop_secret (name : string) (w : World) : World :=
  set_server (delete name (secrets w)) (mkRevision name None (clock w)) w.

Definition set_clock (t : Time) (w : World) : World :=
  mkWorld (secrets w) (revisions w) t (limiters w) (locks w) (draws w) (drawn w) (sent w) (journal w).

Definition set_limiter (h : nat) (l : gmap string (list Time)) (ops : list LimiterOp) (w : World) : World :=
  mkWorld (secrets w) (revisions w) (clock w) (<[h := l]> (limiters w)) (locks w) (draws w) (drawn w) (sent w)
    (journal w ++ ops).

Definition set_locks (l : gset (nat * string)) (w : World) : World :=
  mkWorld (secrets w) (revisions w) (clock w) (limiters w) l (draws w) (drawn w) (sent w) (journal w).

Definition set_draws (d : list (list Z)) (w : World) : World :=
  mkWorld (secrets w) (revisions w) (clock w) (limiters w) (locks w) (S (draws w)) d (sent w) (journal w).

Definition set_sent (e : SecurityEvent) (w : World) : World :=
  mkWorld (secrets w) (revisions w) (clock w) (limiters w) (locks w) (draws w) (drawn w) (sent w ++ [e]) (journal w).

Definition limiter_of (w : World) (h : nat) : gmap string (list Time) := default ∅ (limiters w !! h).

Definition version (w : World) : nat := length (revisions w).

Definition same_object (uid v : nat) (s : KSecret) : bool := (SUID s =? uid)%nat && (SVersion s =? v)%nat.

Definition labelled (s : KSecret) : bool := bool_decide (SLabels s !! factorLabel = Some "true"%string).

Section Serving.
Context `{Platform}.
(** The [n] bytes of a draw. *)
Variable entropy : nat -> nat -> list Z.

(** The answer to a call that is received. *)
Definition serve {R : Type} (e : api R) (w : World) : World * R :=
  match e with
  | GetSecret name => (w, match secrets w !! name with Some s => Ok s | None => Err NotFound end)
  | ListFactors =>
      (w, Ok (filter (fun s => Is_true (labelled s)) (omap (fun n => secrets w !! n) (Strings (elements (dom (secrets w)))))))
  | CreateSecret name labels data =>
      match secrets w !! name with
      | Some _ => (w, Err AlreadyExists)
      | None => (put (mkSecret name (version w) (version w) labels data) w, Ok tt)
      end
  | UpdateSecret s =>
      match secrets w !! SName s with
      | None => (w, Err NotFound)
      | Some live =>
          if same_object (SUID s) (SVersion s) live
          then (put (mkSecret (SName s) (SUID s) (version w) (SLabels s) (SData s)) w, Ok tt)
          else (w, Err Conflict)
      end
  | DeleteSecret name pre =>
      match secrets w !! name with
      | None => (w, Err NotFound)
      | Some live =>
          if default true ((fun p => same_object p.1 p.2 live) <$> pre) then (drop_secret name w, Ok tt)
          else (w, Err Conflict)
      end
  | Now => (w, clock w)
  | RandRead n =>
      let bytes := entropy (draws w) n in
      (set_draws (if (n =? 20)%nat then bytes :: drawn w else drawn w) w, Some bytes)
  | GenerateFromPassword p => (set_draws (drawn w) w, Some (hash_password (draws w) p))
  | Allowed h key =>
      let '(b, l) := allowed (clock w) key (limiter_of w h) in (set_limiter h l [] w, b)
  | RecordFailure h key =>
      let '(b, l) := recordFailure (clock w) key (limiter_of w h) in (set_limiter h l [Failed h key (clock w)] w, b)
  | ResetFailures h key => (set_limiter h (reset key (limiter_of w h)) [Cleared h key] w, tt)
  | LockUser h key => (set_locks ({[ (h, key) ]} ∪ locks w) w, tt)
  | UnlockUser h key => (set_locks (locks w ∖ {[ (h, key) ]}) w, tt)
  | Emit e => (set_sent e w, tt)
  end.

Inductive fault := Fine | Fails | Loses.

(** What the caller sees of a call that failed; the calls inside the process
    cannot. *)
Definition failure {R : Type} (e : api R) (w : World) : R :=
  match e with
  | GetSecret _ => Err ServerError
  | ListFactors => Err ServerError
  | CreateSecret _ _ _ => Err ServerError
  | UpdateSecret _ => Err ServerError
  | DeleteSecret _ _ => Err ServerError
  | RandRead _ => None
  | GenerateFromPassword _ => None
  | Now => clock w
  | Allowed _ _ => false
  | RecordFailure _ _ => false
  | ResetFailures _ _ => tt
  | LockUser _ _ => tt
  | UnlockUser _ _ => tt
  | Emit _ => tt
  end.

Definition handle (R : Type) (e : api R) (f : fault) (w : World) : World * R :=
  match f with
  | Fine => serve e w
  | Fails => (w, failure e w)
  | Loses => ((serve e w).1, failure e w)
  end.

Definition is_fine (f : fault) : bool := match f with Fine => true | _ => false end.

(** A call inside the process does not fail, a held lock is waited for, and 20
    random bytes do not come twice. *)
Definition legal (R : Type) (e : api R) (f : fault) (w : World) : bool :=
  match e with
  | GetSecret _ | ListFactors | CreateSecret _ _ _ | UpdateSecret _ | DeleteSecret _ _ | GenerateFromPassword _ => true
  | RandRead n => negb (n =? 20)%nat || bool_decide (entropy (draws w) n ∉ drawn w)
  | LockUser h key => is_fine f && bool_decide ((h, key) ∉ locks w)
  | Now | Allowed _ _ | RecordFailure _ _ | ResetFailures _ _ | UnlockUser _ _ | Emit _ => is_fine f
  end.

(** Between calls time passes, and an operator deletes Secrets. *)
Inductive Host := Passes (d : N) | Deletes (name : string).

Definition happens (x : Host) (w : World) : World :=
  match x with
  | Passes d => set_clock (clock w + Z.of_N d) w
  | Deletes name => match secrets w !! name with Some _ => drop_secret name w | None => w end
  end.

(** ** Requests. *)

Inductive Request :=
| Enrolling (h : nat) (claims : option Claims) (body : option string)
| Confirming (h : nat) (claims : option Claims) (body : option string)
| Resetting (h : nat) (claims : option Claims) (body : option (string * string))
| SteppingUp (h : nat) (claims : option Claims) (code operation : string)
| Asking (claims : option Claims)
| Bootstrapping (email : string)
| Removing (email : string).

Inductive Answer :=
| Replied (r : Response)
| Verified (e : option StepUpError)
| Issued (r : result string string)
| Removed (r : result string unit).

Definition program (q : Request) : prog api Answer :=
  match q with
  | Enrolling h claims body => r ← EnrollHandler h claims body; mret (Replied r)
  | Confirming h claims body => r ← ConfirmHandler h claims body; mret (Replied r)
  | Resetting h claims body => r ← ResetHandler h claims body; mret (Replied r)
  | SteppingUp h claims code operation => r ← VerifyStepUp h claims code operation; mret (Verified r)
  | Asking claims => r ← StatusHandler claims; mret (Replied r)
  | Bootstrapping email => r ← runTwofaBootstrap email; mret (Issued r)
  | Removing email => r ← runTwofaRemove email; mret (Removed r)
  end.

Definition empty_world (now : Time) : World := mkWorld ∅ [] now ∅ ∅ 0 [] [] [].

(** The runs of a list of requests. *)
Definition runs_from (now : Time) (requests : list Request) (ts : list (turn (Fault := fault) (Env := Host)))
    (w : World) (answers : list (prog api Answer)) : Prop :=
  run handle happens legal ts (empty_world now, program <$> requests) = Some (w, answers).
End Serving.
