(* ===== verification/TwoFactorDemo.v ===== *)
(** * A small console for the examples of two-factor authentication

    One user, one operator, two replicas, and a platform whose functions are
    simple enough to compute. *)

From Stdlib Require Import Ascii.
From stdpp Require Import base tactics numbers countable list option strings gmap.
From S2P Require Import Prelude Calls GoStd Calendar Totp TwoFactor TwoFactorWorld.

Local Open Scope string_scope.

#[export] Instance demo_platform : Platform := {
  api_text := fun e => match e with NotFound => "not found" | AlreadyExists => "already exists"
                                  | Conflict => "conflict" | ServerError => "unavailable" end;
  corrupt_text := "unexpected end of JSON input"; marshal_text := "year outside of range [0,9999]"; random_text := "EOF";
  ParseTime := fun s => (fun v => v * Second)%Z <$> Atoi s;
  FormatTime := fun t => appendInt (t / Second) 0; FormatLong := fun t => FormatDate t;
  hash_password := fun salt p => appendInt (Z.of_nat salt) 2 ++ p;
  CompareHashAndPassword := fun hash p => str_drop 2 hash =? p;
  HIssuer := "kipper.example.com"; minAgeDays := "" }.

(** Every byte of a draw is its number. *)
Definition demo_entropy (k n : nat) : list Z := replicate n (Z.of_nat k).

Definition noon : Time := (Date 2026 11 19 + 12 * Hour)%Z.

Definition alice : Claims := mkClaims "https://auth.example.com" "CgVhbGljZQ" "alice@example.com".

(** The first draw makes the bootstrap code, the second the secret. *)
Definition demo_code : string := "AAAA-AAAA-AAAA-AAAA".

Definition demo_secret : list Z := demo_entropy 1 20.

(** The code the app shows at a time. *)
Definition shown (t : Time) : string := totpCode demo_secret (current_counter t).

Definition later : Time := (noon + 8 * Day)%Z.

(** Alice gets a code, enrols, confirms; eight days later two requests on two
    replicas present the code her app shows. *)
Definition demo_requests : list Request :=
  [Bootstrapping "alice@example.com"; Enrolling 0 (Some alice) (Some " AAAA-AAAA-AAAA-AAAA"); Confirming 0 (Some alice) (Some (shown noon));
   SteppingUp 0 (Some alice) (shown later) "migration"; SteppingUp 1 (Some alice) (shown later) "migration"].

Definition demo_schedule : list (turn (Fault := fault) (Env := Host)) :=
  (replicate 3 (Run 0 Fine) ++ replicate 11 (Run 1 Fine) ++ replicate 25 (Run 2 Fine) ++
   [Outside (Passes (Z.to_N (8 * Day)))] ++ replicate 5 (Run 3 Fine) ++ replicate 5 (Run 4 Fine) ++
   replicate 3 (Run 4 Fine) ++ replicate 12 (Run 3 Fine))%list.

Definition demo_end : option (World * list (prog api Answer)) :=
  run (handle demo_entropy) happens (legal demo_entropy) demo_schedule (empty_world noon, program <$> demo_requests).

Definition show (p : prog api Answer) : option Answer := match p with Ret a => Some a | _ => None end.

(** Alice's key. *)
Definition demo_key : string := "bd3ed6627b8aa8d8".

Lemma demo_userKey : userKey (Some alice) = Some demo_key.
Proof. vm_compute. reflexivity. Qed.

(** Eight days later somebody with Alice's password guesses six times. *)
Definition guess : Request := SteppingUp 0 (Some alice) "000000" "migration".

Definition guess_requests : list Request := (take 3 demo_requests ++ replicate 6 guess)%list.

Definition guess_schedule : list (turn (Fault := fault) (Env := Host)) :=
  (replicate 3 (Run 0 Fine) ++ replicate 11 (Run 1 Fine) ++ replicate 25 (Run 2 Fine) ++
   [Outside (Passes (Z.to_N (8 * Day)))] ++ concat (map (fun i => replicate 8 (Run i Fine)) [3; 4; 5; 6; 7; 8]%nat))%list.

Definition guess_end : option (World * list (prog api Answer)) :=
  run (handle demo_entropy) happens (legal demo_entropy) guess_schedule (empty_world noon, program <$> guess_requests).
