(* ===== verification/TwoFactorCodes.v ===== *)
(** * What a one-time code can do

    However requests interleave on however many replicas, and whichever calls
    fail, a code is spent once: every operation it authorised holds a counter of
    that device of its own. A step-up is by a device that was confirmed at least
    the required age ago. *)

From stdpp Require Import base tactics numbers countable list option strings gmap.
From S2P Require Import Prelude Calls GoStd Totp TwoFactor TwoFactorWorld.

(** ** Factors in revisions. *)

(** Revision [r] holds factor [f]. *)
Definition has (w : World) (r : Revision) (f : factor) : Prop :=
  r ∈ revisions w /\ exists s, RSecret r = Some s /\ Factor (SData s) = Some f.

Definition active (f : factor) : Prop := State f = factorStateActive.

Section Sound.
(** The names under which bootstrap codes were issued. *)
Variable issued : string -> Prop.

Record sound (w : World) : Prop := {
  s_rev : forall v r s, revisions w !! v = Some r -> RSecret r = Some s ->
    RName r = SName s /\ SVersion s = v /\ RTime r <= clock w;
  s_live : forall n s, secrets w !! n = Some s ->
    SName s = n /\ exists r, revisions w !! SVersion s = Some r /\ RSecret r = Some s;
  s_drawn : forall r f, has w r f -> Secret f ∈ drawn w;
  s_name : forall r f r' f', has w r f -> has w r' f' -> Secret f = Secret f' -> RName r = RName r';
  s_pending : forall n s f r f', secrets w !! n = Some s -> Factor (SData s) = Some f -> ~ active f ->
    has w r f' -> Secret f' = Secret f -> ~ active f';
  s_enrolled : forall r f r' f', has w r f -> has w r' f' -> Secret f = Secret f' -> active f -> active f' ->
    EnrolledAt f = EnrolledAt f';
  s_since : forall r f, has w r f -> active f ->
    EnrolledAt f <= RTime r /\ exists r0 f0, has w r0 f0 /\ Secret f0 = Secret f /\ ~ active f0 /\ RTime r0 <= EnrolledAt f;
  s_codes : forall v r s, revisions w !! v = Some r -> RSecret r = Some s -> Code (SData s) <> ""%string -> issued (RName r)
}.

(** ** What a request knows, holds and has spent. *)

(** It has read [s], which was stored by [t]; the clock has shown [t]. *)
Inductive Fact := Seen (s : KSecret) | By (s : KSecret) (t : Time) | Reading (t : Time).

Definition stored_by (w : World) (s : KSecret) (t : Time) : Prop :=
  t <= clock w /\ exists r, revisions w !! SVersion s = Some r /\ RSecret r = Some s /\ RTime r <= t.

Definition holds (w : World) (x : Fact) : Prop :=
  match x with
  | Seen s => stored_by w s (clock w)
  | By s t => stored_by w s t
  | Reading t => t <= clock w
  end.

(** A secret drawn and not stored yet; the counter of a device spent last; the
    revision of the bootstrap code redeemed. *)
Record Ghost := mkGhost {
  facts : list Fact; hand : option (list Z); spent : option (list Z * Z); redeemed : option nat
}.

Definition touched (w : World) (secret : list Z) : Prop := exists r f, has w r f /\ Secret f = secret.

(** What holds of each request: the secret in its hand is stored nowhere; a live
    device is past the counter it spent; no live Secret is the one it redeemed. *)
Record ghost_ok (w : World) (g : Ghost) : Prop := {
  o_facts : Forall (holds w) (facts g);
  o_hand : forall secret, hand g = Some secret -> secret ∈ drawn w /\ ~ touched w secret;
  o_spent : forall secret c, spent g = Some (secret, c) ->
    touched w secret /\
    forall n s f, secrets w !! n = Some s -> Factor (SData s) = Some f -> Secret f = secret -> c <= LastCounter f;
  o_redeemed : forall v, redeemed g = Some v -> (v < version w)%nat /\ forall n s, secrets w !! n = Some s -> SVersion s <> v
}.

Record inv (w : World) (gs : list Ghost) : Prop := {
  i_sound : sound w;
  i_each : forall i g, gs !! i = Some g -> ghost_ok w g;
  i_hands : exclusive hand gs;
  i_once : exclusive spent gs;
  i_redeemed_once : exclusive redeemed gs
}.

(** ** The server only grows. *)

Record grows (w w' : World) : Prop := {
  g_revisions : exists l, revisions w' = (revisions w ++ l)%list;
  g_clock : clock w <= clock w'
}.

Lemma grows_lookup (w w' : World) (v : nat) (r : Revision) :
  grows w w' -> revisions w !! v = Some r -> revisions w' !! v = Some r.
Proof. intros [[l ->] _]. apply lookup_app_l_Some. Qed.

Lemma holds_grows (w w' : World) (x : Fact) : grows w w' -> holds w x -> holds w' x.
Proof.
  intros Hg. pose proof (g_clock _ _ Hg).
  assert (Hby : forall s t t', t <= t' -> t' <= clock w' -> stored_by w s t -> stored_by w' s t').
  { intros s t t' Ht Ht' (Hc & r & Hr & Hs & Hrt). split; [lia|]. exists r. split_and!; [by eapply grows_lookup|done|lia]. }
  destruct x as [s|s t|t]; simpl; [|intros Hx; pose proof (proj1 Hx)|]; [eapply Hby; lia|eapply Hby; [..|done]; lia|lia].
Qed.

Lemma has_grows (w w' : World) (r : Revision) (f : factor) : grows w w' -> has w r f -> has w' r f.
Proof. intros [[l Hl] _] [Hin H]. split; [|done]. rewrite Hl. apply elem_of_app. by left. Qed.

Lemma facts_grow (w w' : World) (l : list Fact) : grows w w' -> Forall (holds w) l -> Forall (holds w') l.
Proof. intros Hg Hl. eapply Forall_impl; [exact Hl|]. intros x. by apply holds_grows. Qed.

(** A state that differs only outside of the server and the clock. *)
Definition same_server (w w' : World) : Prop :=
  secrets w' = secrets w /\ revisions w' = revisions w /\ clock w' = clock w /\ drawn w' = drawn w.

Lemma sound_same (w w' : World) : same_server w w' -> sound w -> sound w'.
Proof.
  intros (Hs & Hr & Hc & Hd) [H1 H2 H3 H4 H5 H6 H7 H8]. unfold has in *.
  split; rewrite ?Hs, ?Hr, ?Hc, ?Hd; unfold has; rewrite ?Hr; done.
Qed.

Lemma has_same (w w' : World) (r : Revision) (f : factor) : revisions w' = revisions w -> has w' r f <-> has w r f.
Proof. intros He. unfold has. by rewrite He. Qed.

(** ** Storing a revision. *)

Lemma has_server (w : World) m r0 (r : Revision) (f : factor) :
  has (set_server m r0 w) r f <-> has w r f \/ (r = r0 /\ exists s, RSecret r0 = Some s /\ Factor (SData s) = Some f).
Proof.
  unfold has. simpl. rewrite elem_of_app, list_elem_of_singleton. split.
  - intros [[H|H] (s & Hs & Hf)]; [left; eauto|subst; right; eauto].
  - intros [[H (s & Hs & Hf)]|(-> & s & Hs & Hf)]; eauto 6.
Qed.

Lemma server_grows (w : World) m r : grows w (set_server m r w).
Proof. split; [by exists [r]|simpl; lia]. Qed.

(** What storing factor [f] under [name] needs. *)
Record storable (w : World) (name : string) (f : factor) : Prop := {
  st_drawn : Secret f ∈ drawn w;
  st_name : forall r f', has w r f' -> Secret f' = Secret f -> RName r = name;
  st_pending : ~ active f -> forall r f', has w r f' -> Secret f' = Secret f -> ~ active f';
  st_enrolled : active f -> forall r f', has w r f' -> Secret f' = Secret f -> active f' -> EnrolledAt f' = EnrolledAt f;
  st_since : active f -> EnrolledAt f <= clock w /\
    exists r0 f0, has w r0 f0 /\ Secret f0 = Secret f /\ ~ active f0 /\ RTime r0 <= EnrolledAt f
}.

Lemma has_put (w : World) (s : KSecret) (r : Revision) (f : factor) :
  has (put s w) r f <-> has w r f \/ (r = mkRevision (SName s) (Some s) (clock w) /\ Factor (SData s) = Some f).
Proof.
  unfold put. rewrite has_server. split; (intros [H|(-> & H)]; [by left|right]); split; try done.
  - destruct H as (s' & [= <-] & H). done.
  - by exists s.
Qed.

Lemma sound_put (w : World) (s : KSecret) :
  sound w -> SVersion s = version w -> (forall f, Factor (SData s) = Some f -> storable w (SName s) f) ->
  (Code (SData s) <> ""%string -> issued (SName s)) -> sound (put s w).
Proof.
  intros Hw Hv Hst Hcode. split.
  - intros v r s' Hr Hs. cbn [put set_server revisions clock] in *. apply lookup_app_Some in Hr as [Hr|[Hlen Hr]].
    + by apply (s_rev _ Hw v r s').
    + apply list_lookup_singleton_Some in Hr as [Hz <-]. cbn in Hs |- *. injection Hs as <-. unfold version in Hv. split_and!; [done|lia|lia].
  - intros n s' Hn. cbn [put set_server secrets revisions] in *. destruct (decide (n = SName s)) as [->|Hne].
    + rewrite lookup_insert_eq in Hn. injection Hn as <-. split; [done|]. eexists. rewrite Hv. unfold version.
      rewrite lookup_app_r, Nat.sub_diag by lia. done.
    + rewrite lookup_insert_ne in Hn by done. destruct (s_live _ Hw _ _ Hn) as (Hname & r & Hr & Hs). split; [done|].
      exists r. split; [by apply lookup_app_l_Some|done].
  - intros r f [H|[-> H]]%has_put; [by apply (s_drawn _ Hw r)|by apply (st_drawn _ _ _ (Hst f H))].
  - intros r f r' f' [H|[-> H]]%has_put [H'|[-> H']]%has_put Heq; [by eapply (s_name _ Hw)| | |done].
    + by apply (st_name _ _ _ (Hst f' H') r f).
    + symmetry. by apply (st_name _ _ _ (Hst f H) r' f').
  - intros n s' f r f' Hn Hf Hact. cbn [put set_server secrets] in Hn. destruct (decide (n = SName s)) as [->|Hne].
    + rewrite lookup_insert_eq in Hn. injection Hn as <-. intros [H|[-> H]]%has_put Heq; [|congruence].
      by apply (st_pending _ _ _ (Hst f Hf) Hact r f').
    + rewrite lookup_insert_ne in Hn by done. intros [H|[-> H]]%has_put Heq; [by apply (s_pending _ Hw n s' f r f')|].
      destruct (s_live _ Hw _ _ Hn) as (Hname & r' & Hr & Hs).
      assert (Hhas : has w r' f) by (split; [by eapply list_elem_of_lookup_2|eauto]).
      pose proof (st_name _ _ _ (Hst f' H) r' f Hhas (eq_sym Heq)) as He.
      destruct (s_rev _ Hw _ _ _ Hr Hs) as (Hrn & _). congruence.
  - intros r f r' f' [H|[-> H]]%has_put [H'|[-> H']]%has_put Heq Ha Ha'; [by eapply (s_enrolled _ Hw)| | |congruence].
    + by apply (st_enrolled _ _ _ (Hst f' H') Ha' r f).
    + symmetry. by apply (st_enrolled _ _ _ (Hst f H) Ha r' f').
  - intros r f [H|[-> H]]%has_put Ha.
    + destruct (s_since _ Hw r f H Ha) as (Ht & r0 & f0 & H0 & Hrest). split; [done|]. exists r0, f0. split; [|done].
      apply has_put. by left.
    + destruct (st_since _ _ _ (Hst f H) Ha) as (Ht & r0 & f0 & H0 & Hrest). split; [done|]. exists r0, f0. split; [|done].
      apply has_put. by left.
  - intros v r s' Hr Hs. cbn [put set_server revisions] in Hr. apply lookup_app_Some in Hr as [Hr|[_ Hr]].
    + by apply (s_codes _ Hw v r s').
    + apply list_lookup_singleton_Some in Hr as [_ <-]. cbn in Hs |- *. by injection Hs as <-.
Qed.

Lemma has_drop (w : World) name (r : Revision) (f : factor) : has (drop_secret name w) r f <-> has w r f.
Proof. unfold drop_secret. rewrite has_server. split; [intros [H|(_ & s & [=] & _)]; done|by left]. Qed.

Lemma sound_drop (w : World) (name : string) : sound w -> sound (drop_secret name w).
Proof.
  intros Hw. split.
  - intros v r s Hr Hs. cbn [drop_secret set_server revisions clock] in *. apply lookup_app_Some in Hr as [Hr|[Hlen Hr]].
    + by apply (s_rev _ Hw v r s).
    + apply list_lookup_singleton_Some in Hr as [_ <-]. done.
  - intros n s Hn. cbn [drop_secret set_server secrets revisions] in *. apply lookup_delete_Some in Hn as [_ Hn].
    destruct (s_live _ Hw _ _ Hn) as (Hname & r & Hr & Hs). split; [done|]. exists r. split; [by apply lookup_app_l_Some|done].
  - intros r f H. rewrite has_drop in H. by apply (s_drawn _ Hw r).
  - intros r f r' f' H H'. rewrite has_drop in H, H'. by apply (s_name _ Hw).
  - intros n s f r f' Hn Hf Ha H. rewrite has_drop in H. cbn [drop_secret set_server secrets] in Hn. apply lookup_delete_Some in Hn as [_ Hn].
    by apply (s_pending _ Hw n s f r f').
  - intros r f r' f' H H'. rewrite has_drop in H, H'. by eapply (s_enrolled _ Hw).
  - intros r f H Ha. rewrite has_drop in H. destruct (s_since _ Hw r f H Ha) as (Ht & r0 & f0 & H0 & Hrest). split; [done|].
    exists r0, f0. split; [by apply has_drop|done].
  - intros v r s Hr Hs. cbn [drop_secret set_server revisions] in Hr. apply lookup_app_Some in Hr as [Hr|[_ Hr]].
    + by apply (s_codes _ Hw v r s).
    + by apply list_lookup_singleton_Some in Hr as [_ <-].
Qed.

(** ** Steps that keep the invariant. *)

(** A change of the server that stores no new TOTP secret and takes no counter
    back. *)
Record kept (w w' : World) : Prop := {
  k_sound : sound w';
  k_grows : grows w w';
  k_drawn : drawn w' = drawn w;
  k_touched : forall r f, has w' r f -> exists r0 f0, has w r0 f0 /\ Secret f0 = Secret f;
  k_live : forall n s f, secrets w' !! n = Some s -> Factor (SData s) = Some f ->
    exists n0 s0 f0, secrets w !! n0 = Some s0 /\ Factor (SData s0) = Some f0 /\ Secret f0 = Secret f /\
      LastCounter f0 <= LastCounter f;
  k_version : forall n s, secrets w' !! n = Some s -> SVersion s = version w \/ secrets w !! n = Some s
}.

Lemma ghost_kept (w w' : World) (g : Ghost) : kept w w' -> ghost_ok w g -> ghost_ok w' g.
Proof.
  intros [Hs Hg Hd Ht Hl Hv] [H1 H2 H3 H4]. split.
  - by eapply facts_grow.
  - intros secret Hh. rewrite Hd. destruct (H2 secret Hh) as [Hin Hu]. split; [done|]. intros (r & f & Hf & He). apply Hu.
    destruct (Ht r f Hf) as (r0 & f0 & H0 & He0). exists r0, f0. split; [done|congruence].
  - intros secret c Hsp. destruct (H3 secret c Hsp) as [(r & f & Hf & He) Hc]. split.
    + exists r, f. split; [|done]. by apply (has_grows w).
    + intros n s f1 Hn Hf1 He1. destruct (Hl n s f1 Hn Hf1) as (n0 & s0 & f0 & Hn0 & Hf0 & He0 & Hle).
      transitivity (LastCounter f0); [|done]. apply (Hc n0 s0 f0 Hn0 Hf0). congruence.
  - intros v Hr. destruct (H4 v Hr) as [Hlt Hdead]. split.
    + destruct Hg as [[l Hrev] _]. unfold version in *. rewrite Hrev, length_app. lia.
    + intros n s Hn. destruct (Hv n s Hn) as [He|He]; [lia|by apply (Hdead n)].
Qed.

Lemma inv_kept (w w' : World) (gs : list Ghost) : kept w w' -> inv w gs -> inv w' gs.
Proof.
  intros Hk [H1 H2 H3 H4 H5]. split; [by apply (k_sound _ _ Hk)| |done..]. intros i g Hi. by eapply ghost_kept, H2.
Qed.

(** A state that differs only outside of the server and the clock. *)
Lemma kept_same (w w' : World) : sound w -> same_server w w' -> kept w w'.
Proof.
  intros Hw Hsame. pose proof Hsame as (Hs & Hr & Hc & Hd). split; [by apply (sound_same w)| |done| | |].
  - split; [exists []; by rewrite app_nil_r|lia].
  - intros r f H. rewrite (has_same w) in H by done. eauto.
  - rewrite Hs. intros n s f Hn Hf. by exists n, s, f.
  - rewrite Hs. by right.
Qed.

Lemma kept_drop (w : World) (name : string) : sound w -> kept w (drop_secret name w).
Proof.
  intros Hw. split; [by apply sound_drop|apply server_grows|done| | |].
  - intros r f H. rewrite has_drop in H. eauto.
  - intros n s f Hn Hf. cbn [drop_secret set_server secrets] in Hn. apply lookup_delete_Some in Hn as [_ Hn].
    exists n, s, f. by split_and!.
  - intros n s Hn. right. cbn [drop_secret set_server secrets] in Hn. by apply lookup_delete_Some in Hn as [_ Hn].
Qed.

Lemma kept_tick (w : World) (d : N) : sound w -> kept w (set_clock (clock w + Z.of_N d) w).
Proof.
  intros Hw. split; try done.
  - destruct Hw as [H1 H2 H3 H4 H5 H6 H7 H8]. split; try done. intros v r s Hr Hs. destruct (H1 v r s Hr Hs) as (? & ? & ?).
    split_and!; [done|done|simpl; lia].
  - split; [by exists []; rewrite app_nil_r|simpl; lia].
  - intros r f H. by exists r, f.
  - intros n s f Hn Hf. exists n, s, f. by split_and!.
  - intros n s Hn. by right.
Qed.

(** Secrets without a factor, and a live factor with a counter that moved on. *)
Lemma put_version (w : World) (s s' : KSecret) (n : string) :
  SVersion s = version w -> secrets (put s w) !! n = Some s' -> SVersion s' = version w \/ secrets w !! n = Some s'.
Proof.
  intros Hv Hn. cbn [put set_server secrets] in Hn. destruct (decide (n = SName s)) as [->|Hne].
  - rewrite lookup_insert_eq in Hn. left. congruence.
  - rewrite lookup_insert_ne in Hn by done. by right.
Qed.

Lemma kept_plain (w : World) (s : KSecret) :
  sound w -> SVersion s = version w -> Factor (SData s) = None -> (Code (SData s) <> ""%string -> issued (SName s)) ->
  kept w (put s w).
Proof.
  intros Hw Hv Hnone Hcode. split; [apply sound_put; [done|done|congruence|done]|apply server_grows|done| | |by intros n s'; apply put_version].
  - intros r f [H|[_ H]]%has_put; [eauto|congruence].
  - intros n s' f Hn Hf. cbn [put set_server secrets] in Hn. destruct (decide (n = SName s)) as [->|Hne].
    + rewrite lookup_insert_eq in Hn. congruence.
    + rewrite lookup_insert_ne in Hn by done. exists n, s', f. by split_and!.
Qed.

Lemma live_has (w : World) (n : string) (s : KSecret) (f : factor) :
  sound w -> secrets w !! n = Some s -> Factor (SData s) = Some f -> exists r, has w r f /\ RName r = n /\ RSecret r = Some s.
Proof.
  intros Hw Hn Hf. destruct (s_live _ Hw _ _ Hn) as (Hname & r & Hr & Hs). exists r.
  destruct (s_rev _ Hw _ _ _ Hr Hs) as (Hrn & _). split_and!; [|congruence|done].
  split; [by eapply list_elem_of_lookup_2|eauto].
Qed.

Lemma live_codes (w : World) (n : string) (s : KSecret) :
  sound w -> secrets w !! n = Some s -> Code (SData s) <> ""%string -> issued n.
Proof.
  intros Hw Hn Hc. destruct (s_live _ Hw _ _ Hn) as (Hname & r & Hr & Hs).
  destruct (s_rev _ Hw _ _ _ Hr Hs) as (Hrn & _). rewrite <- Hname, <- Hrn. by eapply (s_codes _ Hw).
Qed.

Lemma kept_advance (w : World) (s s' : KSecret) (f f' : factor) :
  sound w -> secrets w !! SName s' = Some s -> SVersion s' = version w ->
  Factor (SData s) = Some f -> Factor (SData s') = Some f' -> Code (SData s') = Code (SData s) ->
  Secret f' = Secret f -> LastCounter f <= LastCounter f' -> active f' ->
  (active f /\ EnrolledAt f' = EnrolledAt f \/
   ~ active f /\ EnrolledAt f' <= clock w /\ stored_by w s (EnrolledAt f')) ->
  kept w (put s' w).
Proof.
  intros Hw Hlive Hv Hf Hf' Hcode Hsec Hc Hact Hcase.
  destruct (live_has w _ s f Hw Hlive Hf) as (r & Hr & Hname & Hrs).
  assert (Hst : storable w (SName s') f').
  { split.
    - rewrite Hsec. by apply (s_drawn _ Hw r).
    - intros r1 f1 H1 He. rewrite <- Hname. apply (s_name _ Hw r1 f1 r f H1 Hr). congruence.
    - done.
    - intros _ r1 f1 H1 He Ha1. destruct Hcase as [[Ha ->]|(Hna & _)].
      + apply (s_enrolled _ Hw r1 f1 r f H1 Hr); [congruence|done|done].
      + exfalso. apply (s_pending _ Hw _ s f r1 f1 Hlive Hf Hna H1); [congruence|done].
    - intros _. destruct Hcase as [[Ha ->]|(Hna & Hle & Hle' & r1 & Hr1 & Hs1 & Ht)].
      + destruct (s_since _ Hw r f Hr Ha) as (Ht & r0 & f0 & H0 & He0 & Hp0 & Ht0).
        destruct Hr as [Hin _]. apply list_elem_of_lookup in Hin as [v Hv'].
        destruct (s_rev _ Hw v r s Hv' Hrs) as (_ & _ & Hclock). split; [lia|]. exists r0, f0. rewrite Hsec. by split_and!.
      + split; [done|]. exists r1, f. split_and!; [|done|done|done]. split; [by eapply list_elem_of_lookup_2|eauto]. }
  split; [|apply server_grows|done| | |by intros n s1; apply put_version].
  - apply sound_put; [done|done| |].
    + intros f1 H1. replace f1 with f' by congruence. done.
    + rewrite Hcode. by apply (live_codes w _ s).
  - intros r1 f1 [H1|[_ H1]]%has_put; [eauto|]. exists r, f. split; [done|congruence].
  - intros n s1 f1 Hn Hf1. cbn [put set_server secrets] in Hn. destruct (decide (n = SName s')) as [->|Hne].
    + rewrite lookup_insert_eq in Hn. injection Hn as <-. replace f1 with f' in * by congruence.
      exists (SName s'), s, f. by split_and!.
    + rewrite lookup_insert_ne in Hn by done. exists n, s1, f1. by split_and!.
Qed.

(** One request moves, the server with it. *)
Lemma inv_move (w w' : World) (gs : list Ghost) (i : nat) (g g' : Ghost) :
  inv w gs -> gs !! i = Some g -> sound w' ->
  (forall j g0, j <> i -> gs !! j = Some g0 -> ghost_ok w g0 -> ghost_ok w' g0) -> ghost_ok w' g' ->
  (forall x, hand g' = Some x -> hand g = Some x \/ forall j g0, gs !! j = Some g0 -> hand g0 <> Some x) ->
  (forall x, spent g' = Some x -> spent g = Some x \/ forall j g0, gs !! j = Some g0 -> spent g0 <> Some x) ->
  (forall x, redeemed g' = Some x -> redeemed g = Some x \/ forall j g0, gs !! j = Some g0 -> redeemed g0 <> Some x) ->
  inv w' (<[i := g']> gs).
Proof.
  intros [H1 H2 H3 H4 H5] Hi Hw Hothers Hown Hh Hs Hr. split; [done| |by eapply exclusive_update..].
  intros j g0 Hj. destruct (lookup_update gs i j g g0 _ Hi Hj) as [[-> ->]|[Hne Hj']]; [done|]. by eapply Hothers, H2.
Qed.

Lemma inv_learn (w : World) (gs : list Ghost) (i : nat) (g : Ghost) (new : list Fact) :
  inv w gs -> gs !! i = Some g -> Forall (holds w) new ->
  inv w (<[i := mkGhost (facts g ++ new) (hand g) (spent g) (redeemed g)]> gs).
Proof.
  intros HI Hi Hnew. apply (inv_move w w gs i g); [done|done|exact (i_sound _ _ HI)|done| |auto..].
  destruct (i_each _ _ HI i g Hi) as [H1 H2 H3 H4]. split; try done. by apply Forall_app.
Qed.

(** A hand is put down. *)
Lemma inv_put_down (w : World) (gs : list Ghost) (i : nat) (g : Ghost) :
  inv w gs -> gs !! i = Some g -> inv w (<[i := mkGhost (facts g) None (spent g) (redeemed g)]> gs).
Proof.
  intros HI Hi. apply (inv_move w w gs i g); [done|done|exact (i_sound _ _ HI)|done| |done|auto..].
  by destruct (i_each _ _ HI i g Hi).
Qed.

(** A secret nobody has seen is drawn. *)
Lemma inv_drawn (w : World) (gs : list Ghost) (i : nat) (g : Ghost) (secret : list Z) :
  inv w gs -> gs !! i = Some g -> secret ∉ drawn w ->
  inv (set_draws (secret :: drawn w) w) (<[i := mkGhost (facts g) (Some secret) (spent g) (redeemed g)]> gs).
Proof.
  intros HI Hi Hfresh. set (w' := set_draws _ w).
  assert (Hok : forall g0, ghost_ok w g0 -> ghost_ok w' g0).
  { intros g0 [H1 H2 H3 H4]. split; try done. intros x Hx. destruct (H2 x Hx). split; [by apply list_elem_of_further|done]. }
  apply (inv_move w w' gs i g); [done|done| |by intros; apply Hok| | |auto..].
  - destruct (i_sound _ _ HI) as [S1 S2 S3 S4 S5 S6 S7 S8]. split; try done. intros r f Hf. by apply list_elem_of_further, (S3 r).
  - destruct (Hok g (i_each _ _ HI i g Hi)) as [H1 H2 H3 H4]. split; try done. intros x [= <-].
    split; [by apply list_elem_of_here|]. intros (r & f & Hf & He). apply Hfresh. rewrite <- He. by apply (s_drawn _ (i_sound _ _ HI) r).
  - intros x [= <-]. right. intros j g0 Hj Hh. by apply Hfresh, (o_hand _ _ (i_each _ _ HI j g0 Hj)).
Qed.

(** A device moves on to a counter that is newer than its last one, and spends
    it; or it gives way to the secret in hand. *)
Lemma inv_spend (w : World) (gs : list Ghost) (i : nat) (g : Ghost) (secret : list Z) (c : Z) :
  inv w gs -> gs !! i = Some g -> touched w secret ->
  (forall j g0, gs !! j = Some g0 -> spent g0 <> Some (secret, c)) ->
  (forall n s f, secrets w !! n = Some s -> Factor (SData s) = Some f -> Secret f = secret -> c <= LastCounter f) ->
  inv w (<[i := mkGhost (facts g) (hand g) (Some (secret, c)) (redeemed g)]> gs).
Proof.
  intros HI Hi Ht Hfresh Hlive. apply (inv_move w w gs i g); [done|done|exact (i_sound _ _ HI)|done| |auto| |auto].
  - destruct (i_each _ _ HI i g Hi) as [H1 H2 H3 H4]. split; try done. by intros x c' [= <- <-].
  - intros x [= <-]. by right.
Qed.

(** The revision a request deleted under its preconditions. *)
Lemma inv_redeem (w : World) (gs : list Ghost) (i : nat) (g : Ghost) (name : string) (s : KSecret) :
  inv w gs -> gs !! i = Some g -> secrets w !! name = Some s ->
  inv (drop_secret name w) (<[i := mkGhost (facts g) (hand g) (spent g) (Some (SVersion s))]> gs).
Proof.
  intros HI Hi Hlive. pose proof (i_sound _ _ HI) as Hw. pose proof (kept_drop w name Hw) as Hk.
  destruct (s_live _ Hw _ _ Hlive) as (Hname & r & Hr & Hs).
  apply (inv_move w _ gs i g); [done|done|by apply Hk|intros j g0 _ _; by apply ghost_kept| |auto..|].
  - destruct (ghost_kept _ _ g Hk (i_each _ _ HI i g Hi)) as [H1 H2 H3 H4]. split; try done. intros v [= <-]. split.
    + unfold version. cbn [drop_secret set_server revisions]. rewrite length_app. apply lookup_lt_Some in Hr. lia.
    + intros n s' Hn He. cbn [drop_secret set_server secrets] in Hn. apply lookup_delete_Some in Hn as [Hne Hn].
      destruct (s_live _ Hw _ _ Hn) as (Hn' & r' & Hr' & Hs'). rewrite He in Hr'. congruence.
  - intros v [= <-]. right. intros j g0 Hj He. by destruct (o_redeemed _ _ (i_each _ _ HI j g0 Hj) _ He) as [_ Hno]; apply (Hno name s).
Qed.

(** The secret in hand is stored as a new enrolment, over whatever was there. *)
Lemma inv_stored (w : World) (gs : list Ghost) (i : nat) (g : Ghost) (s : KSecret) (f : factor) :
  inv w gs -> gs !! i = Some g -> hand g = Some (Secret f) -> SVersion s = version w -> Factor (SData s) = Some f ->
  (Code (SData s) <> ""%string -> issued (SName s)) ->
  ~ active f -> inv (put s w) (<[i := mkGhost (facts g) None (spent g) (redeemed g)]> gs).
Proof.
  intros HI Hi Hh Hv Hf Hcode Hna. pose proof (i_sound _ _ HI) as Hw.
  destruct (o_hand _ _ (i_each _ _ HI i g Hi) _ Hh) as [Hd Hu].
  assert (Hno : forall r f', has w r f' -> Secret f' <> Secret f) by (intros r f' H' He; apply Hu; by exists r, f').
  assert (Hok : forall g0, hand g0 <> Some (Secret f) -> ghost_ok w g0 -> ghost_ok (put s w) g0).
  { intros g0 Hne [H1 H2 H3 H4]. split.
    - eapply facts_grow; [apply server_grows|done].
    - intros x Hx. destruct (H2 x Hx) as [Hin Hx']. split; [done|]. intros (r & f' & [H'|[_ H']]%has_put & He); [by apply Hx'; exists r, f'|congruence].
    - intros x c Hx. destruct (H3 x c Hx) as [(r & f' & H' & He) Hc]. split; [exists r, f'; split; [apply has_put; by left|done]|].
      intros n s1 f1 Hn Hf1 He1. destruct (put_version w s s1 n Hv Hn) as [Hs1|Hs1]; [|by apply (Hc n s1)].
      cbn [put set_server secrets] in Hn. destruct (decide (n = SName s)) as [->|Hne'].
      + rewrite lookup_insert_eq in Hn. injection Hn as <-. exfalso. apply (Hno r f' H'). congruence.
      + rewrite lookup_insert_ne in Hn by done. by apply (Hc n s1).
    - intros v Hx. destruct (H4 v Hx) as [Hlt Hdead]. split; [unfold version; cbn [put set_server revisions]; rewrite length_app; fold (version w); lia|].
      intros n s1 Hn. destruct (put_version w s s1 n Hv Hn) as [->|Hs1]; [lia|by apply (Hdead n)]. }
  apply (inv_move w _ gs i g); [done|done| | | |done|auto..].
  - apply sound_put; [done|done| |done]. intros f1 Hf1. replace f1 with f by congruence.
    split; [done|intros r f2 H2' He; by destruct (Hno r f2)|intros _ r f2 H2' He; by destruct (Hno r f2)|done|done].
  - intros j g0 Hne Hj. apply Hok. intros Hh'. by apply Hne, (i_hands _ _ HI j i g0 g (Secret f)).
  - apply (Hok (mkGhost (facts g) None (spent g) (redeemed g))); [done|]. by destruct (i_each _ _ HI i g Hi).
Qed.

(** ** The calls of a request. *)

Section Calls.
Context `{Platform}.
Variable entropy : nat -> nat -> list Z.

Abbreviation handle := (TwoFactorWorld.handle entropy).
Abbreviation legal := (TwoFactorWorld.legal entropy).
Abbreviation safe := (Calls.safe handle legal inv).

(** A request knows at least what it knew, and holds and has spent the same. *)
Definition learns (g g' : Ghost) : Prop :=
  facts g ⊆ facts g' /\ hand g' = hand g /\ spent g' = spent g /\ redeemed g' = redeemed g.

#[export] Instance learns_preorder : PreOrder learns.
Proof. split; [by intros g|]. intros a b c (H1 & H2 & H3 & H4) (H5 & H6 & H7 & H8). split_and!; [set_solver|congruence..]. Qed.

Lemma learns_new (g : Ghost) (new : list Fact) : learns g (mkGhost (facts g ++ new) (hand g) (spent g) (redeemed g)).
Proof. split_and!; [simpl; set_solver|done..]. Qed.

(** A call that does nothing to the server, whatever it answers. *)
Lemma safe_quiet {R : Type} (i : nat) (g : Ghost) (e : api R) (Q : Ghost -> R -> Prop) :
  (forall w f, sound w -> legal R e f w = true -> kept w (handle R e f w).1) -> (forall r, Q g r) ->
  safe i g (call e) Q.
Proof.
  intros He HQ w gs f HI Hg Hl. exists g. split; [|apply HQ]. rewrite list_insert_id by done.
  eapply inv_kept; [|done]. by apply He; [exact (i_sound _ _ HI)|].
Qed.

(** What reading the server or the clock teaches. *)
Lemma safe_learn {R : Type} (i : nat) (g : Ghost) (e : api R) (Q : Ghost -> R -> Prop) :
  (forall w f, legal R e f w = true -> (handle R e f w).1 = w) ->
  (forall w f, sound w -> Forall (holds w) (facts g) -> legal R e f w = true ->
     exists new, Forall (holds w) new /\ Q (mkGhost (facts g ++ new) (hand g) (spent g) (redeemed g)) (handle R e f w).2) ->
  safe i g (call e) Q.
Proof.
  intros Hread H1 w gs f HI Hg Hl. destruct (H1 w f (i_sound _ _ HI) (o_facts _ _ (i_each _ _ HI i g Hg)) Hl) as (new & Hnew & HQ).
  eexists. split; [|exact HQ]. rewrite (Hread w f Hl). by apply inv_learn.
Qed.

Lemma safe_get i g name Q :
  (forall g' r, learns g g' -> (forall s, r = Ok s -> SName s = name /\ Seen s ∈ facts g') -> Q g' r) ->
  safe i g (call (GetSecret name)) Q.
Proof.
  intros HQ. apply safe_learn; [by intros w []|]. intros w f Hw _ _.
  destruct (handle _ (GetSecret name) f w).2 as [s|e] eqn:Hr.
  - exists [Seen s]. assert (Hs : secrets w !! name = Some s).
    { destruct f; simpl in Hr; try done; destruct (secrets w !! name); try done; by injection Hr as <-. }
    destruct (s_live _ Hw _ _ Hs) as (Hname & r & Hrev & Hrs). destruct (s_rev _ Hw _ _ _ Hrev Hrs) as (_ & _ & Ht).
    split; [constructor; [|constructor]; split; [done|]; by exists r|]. apply HQ; [apply learns_new|].
    intros s' [= <-]. split; [done|]. simpl. set_solver.
  - exists []. split; [constructor|]. apply HQ; [apply learns_new|done].
Qed.

(** The clock shows a time by which everything read so far was stored. *)
Lemma safe_now i g Q :
  (forall g' t, learns g g' -> Reading t ∈ facts g' -> (forall s, Seen s ∈ facts g -> By s t ∈ facts g') -> Q g' t) ->
  safe i g (call Now) Q.
Proof.
  intros HQ. apply safe_learn; [by intros w []|]. intros w f Hw Hg Hl.
  set (by_now := omap (fun x => match x with Seen s => Some (By s (clock w)) | _ => None end) (facts g)).
  exists (Reading (clock w) :: by_now). split.
  - constructor; [simpl; lia|]. apply Forall_forall. intros x (y & Hy & Hx)%list_elem_of_omap.
    destruct y as [s| |]; [|done|done]. injection Hx as <-. rewrite Forall_forall in Hg. by apply (Hg (Seen s)).
  - replace (handle _ Now f w).2 with (clock w) by by destruct f. apply HQ; [apply learns_new|simpl; set_solver|].
    intros s Hs. simpl. apply elem_of_app. right. apply list_elem_of_further, list_elem_of_omap. by exists (Seen s).
Qed.

(** A secret is drawn into a free hand. *)
Lemma safe_draw i g Q :
  (forall r, Q (mkGhost (facts g) r (spent g) (redeemed g)) r) -> safe i g (call (RandRead 20)) Q.
Proof.
  intros HQ w gs f HI Hg Hl. exists (mkGhost (facts g) (handle _ (RandRead 20) f w).2 (spent g) (redeemed g)). split; [|apply HQ].
  assert (Hfresh : entropy (draws w) 20 ∉ drawn w) by (simpl in Hl; by apply bool_decide_eq_true in Hl).
  pose proof (inv_drawn w gs i g _ HI Hg Hfresh) as Hd. destruct f; cbn; [done|by apply inv_put_down|].
  apply lookup_lt_Some in Hg as Hlt. eapply inv_put_down in Hd; [|by apply list_lookup_insert_eq]. by rewrite list_insert_insert_eq in Hd.
Qed.

Lemma safe_ret {A : Type} i g (a : A) (Q : Ghost -> A -> Prop) : Q g a -> safe i g (mret a) Q.
Proof. done. Qed.

(** The secret in hand is stored under a new name. *)
Lemma safe_create i g name labels data f Q :
  Factor data = Some f -> Code data = ""%string -> hand g = Some (Secret f) -> ~ active f ->
  (forall r, Q (mkGhost (facts g) None (spent g) (redeemed g)) r) -> safe i g (call (CreateSecret name labels data)) Q.
Proof.
  intros Hf Hcode Hh Hna HQ w gs fl HI Hg Hl. exists (mkGhost (facts g) None (spent g) (redeemed g)). split; [|apply HQ].
  pose proof (inv_put_down w gs i g HI Hg) as Hdown.
  assert (Hserve : inv (serve entropy (CreateSecret name labels data) w).1 (<[i := mkGhost (facts g) None (spent g) (redeemed g)]> gs)).
  { cbn [serve]. destruct (secrets w !! name); [done|]. by apply inv_stored with f. }
  by destruct fl.
Qed.

(** A compare-and-swap that goes through replaces exactly what was read. *)
Lemma seen_live (w : World) (s live : KSecret) :
  sound w -> holds w (Seen s) -> secrets w !! SName s = Some live -> same_object (SUID s) (SVersion s) live = true -> live = s.
Proof.
  intros Hw (_ & r & Hr & Hs & _) Hlive Hsame. unfold same_object in Hsame. bool_to_prop.
  apply Nat.eqb_eq in H1. destruct (s_live _ Hw _ _ Hlive) as (_ & r' & Hr' & Hs'). congruence.
Qed.

(** An update by a request that read [s]: refused, or over [s] itself. *)
Lemma safe_update i g s f' Q :
  Seen s ∈ facts g ->
  (forall w gs, inv w gs -> gs !! i = Some g -> Forall (holds w) (facts g) -> secrets w !! SName s = Some s ->
     exists g', inv (put (mkSecret (SName s) (SUID s) (version w) (SLabels s) (SData (with_factor f' s))) w) (<[i := g']> gs) /\
       Q g' (Ok tt) /\ Q g' (Err ServerError)) ->
  (forall w gs, inv w gs -> gs !! i = Some g -> exists g', inv w (<[i := g']> gs) /\ forall e, Q g' (Err e)) ->
  safe i g (call (UpdateSecret (with_factor f' s))) Q.
Proof.
  intros Hseen Hput Hno w gs fl HI Hg Hl. pose proof (o_facts _ _ (i_each _ _ HI i g Hg)) as Hfacts.
  assert (Hrefused : forall r : result ApiError unit, (exists e, r = Err e) -> exists g', inv w (<[i := g']> gs) /\ Q g' r).
  { intros r [e ->]. destruct (Hno w gs HI Hg) as (g' & HI' & HQ). eauto. }
  destruct (secrets w !! SName s) as [live|] eqn:Hlive.
  - destruct (same_object (SUID s) (SVersion s) live) eqn:Hsame.
    + assert (live = s) as ->.
      { eapply seen_live; [exact (i_sound _ _ HI)| |done|done]. rewrite Forall_forall in Hfacts. by apply Hfacts. }
      destruct (Hput w gs HI Hg Hfacts Hlive) as (g' & HI' & HQ & HQ').
      destruct fl; cbn; rewrite ?Hlive, ?Hsame; [by exists g'|by apply Hrefused; eauto|by exists g'].
    + destruct fl; cbn; rewrite ?Hlive, ?Hsame; apply Hrefused; eauto.
  - destruct fl; cbn; rewrite ?Hlive; apply Hrefused; eauto.
Qed.

(** After the write, what is live of the device is what was written. *)
Lemma live_after (w : World) (s s' : KSecret) (f f' : factor) :
  sound w -> secrets w !! SName s' = Some s -> Factor (SData s) = Some f -> Factor (SData s') = Some f' ->
  forall n s1 f1, secrets (put s' w) !! n = Some s1 -> Factor (SData s1) = Some f1 -> Secret f1 = Secret f ->
    LastCounter f' <= LastCounter f1.
Proof.
  intros Hw Hlive Hf Hf' n s1 f1 Hn Hf1 Hs1. cbn [put set_server secrets] in Hn. destruct (decide (n = SName s')) as [->|Hne].
  - rewrite lookup_insert_eq in Hn. injection Hn as <-. replace f1 with f' by congruence. lia.
  - rewrite lookup_insert_ne in Hn by done. destruct (live_has w _ s1 f1 Hw Hn Hf1) as (r1 & Hr1 & Hn1 & _).
    destruct (live_has w _ s f Hw Hlive Hf) as (r2 & Hr2 & Hn2 & _). pose proof (s_name _ Hw _ _ _ _ Hr1 Hr2 Hs1). congruence.
Qed.

(** A device moves on to a newer counter, which it spends. *)
Lemma safe_advance i g s f f' Q :
  Seen s ∈ facts g -> Factor (SData s) = Some f -> Secret f' = Secret f -> LastCounter f < LastCounter f' -> active f' ->
  (active f /\ EnrolledAt f' = EnrolledAt f \/ ~ active f /\ By s (EnrolledAt f') ∈ facts g) ->
  (forall g' r, facts g' = facts g -> redeemed g' = redeemed g ->
     (r = Ok tt -> spent g' = Some (Secret f, LastCounter f')) -> Q g' r) ->
  safe i g (call (UpdateSecret (with_factor f' s))) Q.
Proof.
  intros Hseen Hf Hsec Hc Ha Hcase HQ. apply safe_update; [done| |].
  - intros w gs HI Hg Hfacts Hlive. exists (mkGhost (facts g) (hand g) (Some (Secret f, LastCounter f')) (redeemed g)).
    split; [|split; by apply HQ]. set (s' := mkSecret _ _ _ _ _). pose proof (i_sound _ _ HI) as Hw.
    assert (Hkept : kept w (put s' w)).
    { apply (kept_advance w s s' f f'); [done..|lia|done|].
      rewrite Forall_forall in Hfacts. destruct Hcase as [?|[Hna Hby]]; [by left|right]. split; [done|].
      pose proof (Hfacts _ Hby) as Hst. split; [by destruct Hst|done]. }
    destruct (live_has w _ s f Hw Hlive Hf) as (r & Hr & Hn & _).
    apply inv_spend; [by eapply inv_kept|done| | |].
    + exists r, f. split; [|done]. apply has_put. by left.
    + intros j g0 Hj Hs. destruct (o_spent _ _ (i_each _ _ HI j g0 Hj) _ _ Hs) as [_ Hle]. specialize (Hle _ s f Hlive Hf eq_refl). lia.
    + by apply (live_after w s s' f f').
  - intros w gs HI Hg. exists g. rewrite list_insert_id by done. split; [done|]. intros e. by apply HQ.
Qed.

(** A new enrolment takes the place of a device, for one of its counters or
    without. *)
Lemma safe_replace i g s f f' (paid : option Z) Q :
  Seen s ∈ facts g -> Factor (SData s) = Some f -> hand g = Some (Secret f') -> ~ active f' ->
  (forall c, paid = Some c -> LastCounter f < c) ->
  (forall g' r, facts g' = facts g -> redeemed g' = redeemed g ->
     (r = Ok tt -> forall c, paid = Some c -> spent g' = Some (Secret f, c)) -> Q g' r) ->
  safe i g (call (UpdateSecret (with_factor f' s))) Q.
Proof.
  intros Hseen Hf Hh Hna Hc HQ. apply safe_update; [done| |].
  - intros w gs HI Hg Hfacts Hlive. set (s' := mkSecret _ _ _ _ _). pose proof (i_sound _ _ HI) as Hw.
    pose proof (inv_stored w gs i g s' f' HI Hg Hh eq_refl eq_refl (live_codes w _ s Hw Hlive) Hna) as HI'.
    destruct paid as [c|]; [|exists (mkGhost (facts g) None (spent g) (redeemed g)); split; [done|split; by apply HQ]].
    exists (mkGhost (facts g) None (Some (Secret f, c)) (redeemed g)).
    split; [|by split; apply HQ; [|..|intros _ c' [= <-]| | |]]. specialize (Hc c eq_refl).
    destruct (live_has w _ s f Hw Hlive Hf) as (r & Hr & Hname & _). apply lookup_lt_Some in Hg as Hlt.
    assert (Hdead : Secret f' <> Secret f).
    { intros He. destruct (o_hand _ _ (i_each _ _ HI i g Hg) _ Hh) as [_ Hu]. apply Hu. by exists r, f. }
    rewrite <- (list_insert_insert_eq gs i _ (mkGhost (facts g) None (spent g) (redeemed g))).
    apply (inv_spend _ _ i (mkGhost (facts g) None (spent g) (redeemed g))); [done|by apply list_lookup_insert_eq| | |].
    + exists r, f. split; [|done]. apply has_put. by left.
    + intros j g0 Hj Hs. assert (Hj' : exists g1, gs !! j = Some g1 /\ spent g1 = spent g0).
      { destruct (lookup_update gs i j g g0 _ Hg Hj) as [[-> ->]|[_ ?]]; eauto. }
      destruct Hj' as (g1 & Hg1 & He). rewrite <- He in Hs.
      destruct (o_spent _ _ (i_each _ _ HI j g1 Hg1) _ _ Hs) as [_ Hle]. specialize (Hle _ s f Hlive Hf eq_refl). lia.
    + intros n s1 f1 Hn Hf1 Hs1. exfalso. cbn [put set_server secrets SName s'] in Hn. destruct (decide (n = SName s)) as [->|Hne].
      * rewrite lookup_insert_eq in Hn. injection Hn as <-. cbn in Hf1. by injection Hf1 as <-.
      * rewrite lookup_insert_ne in Hn by done. destruct (live_has w _ s1 f1 Hw Hn Hf1) as (r1 & Hr1 & Hn1 & _).
        pose proof (s_name _ Hw _ _ _ _ Hr1 Hr Hs1). congruence.
  - intros w gs HI Hg. exists (mkGhost (facts g) None (spent g) (redeemed g)). split; [by apply inv_put_down|]. intros e. by apply HQ.
Qed.

(** Deleting under the preconditions of what was read redeems it. *)
Lemma safe_redeem i g s Q :
  Seen s ∈ facts g ->
  (forall g' r, facts g' = facts g -> (r = Ok tt -> redeemed g' = Some (SVersion s)) -> Q g' r) ->
  safe i g (call (DeleteSecret (SName s) (Some (SUID s, SVersion s)))) Q.
Proof.
  intros Hseen HQ w gs fl HI Hg Hl. pose proof (i_sound _ _ HI) as Hw.
  assert (Hrefused : forall r : result ApiError unit, (exists e, r = Err e) -> exists g', inv w (<[i := g']> gs) /\ Q g' r).
  { intros r [e ->]. exists g. rewrite list_insert_id by done. split; [done|by apply HQ]. }
  destruct (secrets w !! SName s) as [live|] eqn:Hlive.
  - destruct (same_object (SUID s) (SVersion s) live) eqn:Hsame.
    + assert (live = s) as ->.
      { eapply seen_live; [done| |done|done]. pose proof (o_facts _ _ (i_each _ _ HI i g Hg)) as Hf. rewrite Forall_forall in Hf. by apply Hf. }
      pose proof (inv_redeem w gs i g _ s HI Hg Hlive) as HI'.
      destruct fl; cbn; rewrite ?Hlive; cbn; rewrite ?Hsame; [|by apply Hrefused; eauto|]; (eexists; split; [exact HI'|by apply HQ]).
    + destruct fl; cbn; rewrite ?Hlive; cbn; rewrite ?Hsame; apply Hrefused; eauto.
  - destruct fl; cbn; rewrite ?Hlive; apply Hrefused; eauto.
Qed.

(** Deleting, and storing a Secret that is no factor. *)
Lemma safe_server {R : Type} i g (e : api R) Q :
  (forall w, sound w -> kept w (serve entropy e w).1) -> (forall r, Q g r) -> safe i g (call e) Q.
Proof. intros He. apply safe_quiet. intros w [] Hw _; [by apply He|by apply kept_same|by apply He]. Qed.

Lemma safe_delete i g name pre Q : (forall r, Q g r) -> safe i g (call (DeleteSecret name pre)) Q.
Proof.
  apply safe_server. intros w Hw. cbn. destruct (secrets w !! name); [|by apply kept_same].
  destruct (default _ _); [by apply kept_drop|by apply kept_same].
Qed.

Lemma safe_plain_create i g name labels data Q :
  Factor data = None -> (Code data <> ""%string -> issued name) -> (forall r, Q g r) ->
  safe i g (call (CreateSecret name labels data)) Q.
Proof.
  intros Hnone Hcode. apply safe_server. intros w Hw. cbn.
  destruct (secrets w !! name); [by apply kept_same|by apply kept_plain].
Qed.

Lemma safe_plain_update i g s Q :
  Factor (SData s) = None -> (Code (SData s) <> ""%string -> issued (SName s)) -> (forall r, Q g r) ->
  safe i g (call (UpdateSecret s)) Q.
Proof.
  intros Hnone Hcode. apply safe_server. intros w Hw. cbn. destruct (secrets w !! SName s); [|by apply kept_same].
  destruct (same_object _ _ _); [by apply kept_plain|by apply kept_same].
Qed.
End Calls.
End Sound.
