(* ===== verification/TwoFactorSpent.v ===== *)
(** * Codes are spent once; factors are old enough

    The requests, walked call by call with the rules of [TwoFactorCodes]. *)

From stdpp Require Import base tactics numbers countable list option strings gmap.
From S2P Require Import Prelude Calls GoStd Calendar Totp TwoFactor TwoFactorWorld TwoFactorCodes TwoFactorDemo.

Section Walk.
Context `{Platform}.
Variable issued : string -> Prop.
Variable entropy : nat -> nat -> list Z.

Abbreviation safe := (Calls.safe (handle entropy) (legal entropy) (inv issued)).

(** A call inside the process. *)
Lemma safe_inside {R A : Type} i g (e : api R) (k : R -> prog api A) Q :
  (forall w f, same_server w (handle entropy R e f w).1) -> (forall r, safe i g (k r) Q) -> safe i g (r ← call e; k r) Q.
Proof. intros He Hk. apply safe_bind, safe_quiet; [|done]. intros w f Hw _. apply kept_same, He. exact Hw. Qed.

Lemma inside_emit w f e : same_server w (handle entropy unit (Emit e) f w).1.
Proof. by destruct f. Qed.

Lemma inside_allowed w f h key : same_server w (handle entropy bool (Allowed h key) f w).1.
Proof. destruct f; cbn; try done; by destruct (allowed _ _ _). Qed.

Lemma inside_record w f h key : same_server w (handle entropy bool (RecordFailure h key) f w).1.
Proof. destruct f; cbn; try done; by destruct (recordFailure _ _ _). Qed.

Lemma inside_reset w f h key : same_server w (handle entropy unit (ResetFailures h key) f w).1.
Proof. by destruct f. Qed.

Lemma inside_hash w f p : same_server w (handle entropy _ (GenerateFromPassword p) f w).1.
Proof. by destruct f. Qed.

Lemma inside_bytes w f n : n <> 20%nat -> same_server w (handle entropy _ (RandRead n) f w).1.
Proof. intros Hn. destruct f; cbn; try done; by rewrite (proj2 (Nat.eqb_neq n 20) Hn). Qed.

Create HintDb inside.
#[local] Hint Resolve inside_emit inside_allowed inside_record inside_reset inside_hash : inside.

Ltac inside := apply safe_inside; [solve [auto with inside]|].

Lemma safe_done {A : Type} i g (a : A) (Q : Ghost -> A -> Prop) : Q g a -> safe i g (mret a) Q.
Proof. done. Qed.

(** ** The store. *)

Lemma safe_get_factor i g key Q :
  (forall g' r, learns g g' ->
     (forall f s, r = Ok (f, s) -> Factor (SData s) = Some f /\ SName s = factorSecretName key /\ Seen s ∈ facts g') -> Q g' r) ->
  safe i g (get key) Q.
Proof.
  intros HQ. apply safe_bind, safe_get. intros g' [s|e] Hl Hs; apply safe_done, HQ; try done.
  intros f s'. destruct (Factor (SData s)) as [f0|] eqn:Hf; [|done]. intros [= <- <-]. by destruct (Hs s eq_refl).
Qed.

Lemma Marshal_Some (f payload : factor) : Marshal f = Some payload -> payload = f.
Proof. unfold Marshal. destruct (_ && _); [|done]. by intros [= ->]. Qed.

Lemma safe_update_factor i g s f Q :
  (safe i g (call (UpdateSecret (with_factor f s))) (fun g' r => forall r', (r' = Ok tt -> r = Ok tt) -> Q g' r')) ->
  (forall e, Q g (Err e)) -> safe i g (update s f) Q.
Proof.
  intros Hup Hno. unfold update. destruct (Marshal f) as [payload|] eqn:Hm; [|by apply safe_done].
  rewrite (Marshal_Some _ _ Hm). apply safe_bind. eapply safe_mono; [exact Hup|].
  intros g' r Hr. apply safe_done, Hr. by destruct r as [[]|[]].
Qed.

Lemma safe_createPending i g key f Q :
  hand g = Some (Secret f) -> ~ active f -> (forall g' r, facts g ⊆ facts g' -> redeemed g' = redeemed g -> Q g' r) ->
  safe i g (createPending key f) Q.
Proof.
  intros Hh Hna HQ. apply safe_bind, safe_get_factor. intros g1 r (Hf1 & Hh1 & _ & Hd1) Hr.
  assert (Hcreate : forall key, safe i g1 (match Marshal f with
      | None => mret (Err Unmarshalable)
      | Some payload =>
          answer ← call (CreateSecret (factorSecretName key) factor_labels (mkData (Some payload) "" "" ""));
          mret match answer with Ok _ => Ok tt | Err AlreadyExists => Err InProgress | Err e => Err (Api e) end
      end) Q).
  { intros k. destruct (Marshal f) as [payload|] eqn:Hm; [|by apply safe_done, HQ]. apply Marshal_Some in Hm as ->.
    apply safe_bind, (safe_create issued entropy i g1 _ _ _ f); [done|done|congruence|done|]. intros r'. by apply safe_done, HQ. }
  destruct r as [[existing s]|[[]| | | | | | | | | | |]]; try (by apply safe_done, HQ); [|apply Hcreate].
  destruct (State existing =? factorStateActive)%string; [by apply safe_done, HQ|].
  apply safe_bind, safe_now. intros g2 t (Hf2 & Hh2 & _ & Hd2) _ _.
  assert (HQ2 : forall g3 r, facts g3 = facts g2 -> redeemed g3 = redeemed g2 -> Q g3 r).
  { intros g3 r Hf Hd. apply HQ; [rewrite Hf; by etrans|congruence]. }
  destruct (_ <? _); [by apply safe_done, HQ2|].
  destruct (Hr existing s eq_refl) as (Hfs & _ & Hseen).
  apply safe_update_factor; [|intros; by apply HQ2].
  apply (safe_replace issued entropy i g2 s existing f None); [by apply Hf2|done|congruence|done|done|].
  intros g3 r Hf Hd _ r' _. by apply HQ2.
Qed.

Lemma safe_deletePending i g key s Q : (forall r, Q g r) -> safe i g (deletePending key s) Q.
Proof. intros HQ. apply safe_bind, safe_delete. intros r. by apply safe_done. Qed.

Lemma safe_recovery_codes n i g Q : (forall r, Q g r) -> safe i g (recovery_codes n) Q.
Proof.
  revert Q. induction n as [|n IH]; intros Q HQ; cbn [recovery_codes]; [by apply safe_done|].
  apply safe_inside; [intros; by apply inside_bytes|]. intros [raw|]; [|by apply safe_done].
  inside. intros [hash|]; [|by apply safe_done]. apply safe_bind, IH. intros r. by apply safe_done.
Qed.

(** Among the facts of [g]: a bootstrap code of [email] was read that was the
    one presented and had not expired at a time the clock had shown; [g] redeemed
    it. *)
Definition redeems (email presented : string) (g : Ghost) : Prop :=
  exists s x t, Seen s ∈ facts g /\ SName s = SecretName email /\ Code (SData s) <> ""%string /\
    Code (SData s) = TrimSpace presented /\ ParseTime (Expires (SData s)) = Some x /\ By s t ∈ facts g /\ t <= x /\
    redeemed g = Some (SVersion s).

Lemma redeems_more email presented g g' :
  facts g ⊆ facts g' -> redeemed g' = redeemed g -> redeems email presented g -> redeems email presented g'.
Proof.
  intros Hf Hr (s & x & t & H1 & H2 & H3 & H4 & H5 & H6 & H7 & H8). exists s, x, t. rewrite Hr. split_and!; auto.
Qed.

Lemma safe_consume i g email presented :
  safe i g (consumeBootstrapCode email presented) (fun g' r => r = Ok tt -> redeems email presented g').
Proof.
  apply safe_bind, safe_get. intros g1 r H1 Hr.
  destruct r as [s|[]]; try done. destruct (Hr s eq_refl) as [Hname Hseen]. cbv zeta.
  destruct (String.eqb_spec (Code (SData s)) "") as [|Hne]; [done|].
  destruct (ParseTime _) as [expires|] eqn:Hp; [|done]. apply safe_bind, safe_now. intros g2 now (Hf2 & _) _ Hby.
  destruct (After now expires) eqn:Hafter; [done|]. unfold After in Hafter. apply Z.ltb_ge in Hafter.
  destruct (String.eqb_spec (Code (SData s)) (TrimSpace presented)) as [He|]; [|done]. cbn [negb].
  rewrite <- Hname. apply safe_bind, safe_redeem; [by apply Hf2|]. intros g3 r Hf3 Hred. apply safe_done. intros Hok.
  exists s, expires, now. rewrite Hf3. split_and!; [by apply Hf2|done|done|done|done|by apply Hby|done|].
  apply Hred. by destruct r as [[]|[]].
Qed.

Lemma safe_record_failure i g h key email what Q : (forall r, Q g r) -> safe i g (record_failure h key email what) Q.
Proof. intros HQ. inside. intros [|]; [|by apply safe_done]. apply safe_quiet; [|done]. intros w f Hw _. apply kept_same, inside_emit. exact Hw. Qed.

Ltac failing := apply safe_bind, safe_record_failure; intros []; by apply safe_done.

Lemma safe_locked {A : Type} i g h key (p : prog api A) Q :
  (safe i g p Q) -> safe i g (locked h key p) Q.
Proof.
  intros Hp. apply safe_inside; [by intros w []|]. intros []. apply safe_bind. eapply safe_mono; [exact Hp|]. intros g' a Ha.
  apply safe_inside; [by intros w []|]. intros []. by apply safe_done.
Qed.

(** ** The handlers. *)

Definition ok_reply (r : Response) : bool := (r.1 =? 200)%Z.

Lemma safe_Enroll i g h c code :
  safe i g (EnrollHandler h (Some c) (Some code)) (fun g' r => ok_reply r = true -> redeems (Email c) code g').
Proof.
  unfold EnrollHandler. destruct (userKey _) as [key|]; [|done].
  destruct code as [|ch code]; [done|]. inside. intros [|]; [|done]. cbn [negb].
  apply safe_bind. eapply safe_mono; [apply safe_consume|]. intros g1 [[]|e] Hred; [|failing]. specialize (Hred eq_refl).
  inside. intros []. apply safe_bind, safe_draw. intros [secret|]; [|done]. apply safe_bind, safe_now.
  intros g2 now (Hf & Hh & _ & Hd) _ _. cbn in Hf, Hd. apply safe_bind, safe_createPending; [done|done|]. intros g3 [[]|e] Hf3 Hd3; [|done].
  inside. intros []. apply safe_done. intros _. apply (redeems_more _ _ g1); [by etrans|congruence|done].
Qed.

(** Among the facts of [g]: a factor of [key] was read whose device the code
    matched at a counter it then spent. *)
Definition spends (key code : string) (g : Ghost) (f : factor) : Prop :=
  exists s t c, Seen s ∈ facts g /\ SName s = factorSecretName key /\ Factor (SData s) = Some f /\ Reading t ∈ facts g /\
    matchCode (Secret f) code t (LastCounter f) = Some c /\ spent g = Some (Secret f, c).

Lemma spends_intro key code g g' f s t c :
  Seen s ∈ facts g -> SName s = factorSecretName key -> Factor (SData s) = Some f -> Reading t ∈ facts g ->
  matchCode (Secret f) code t (LastCounter f) = Some c -> facts g' = facts g -> spent g' = Some (Secret f, c) -> spends key code g' f.
Proof. intros. exists s, t, c. replace (facts g') with (facts g). by split_and!. Qed.

Lemma safe_confirm i g h email key code :
  safe i g (confirm h email key code) (fun g' r => ok_reply r = true -> exists f, spends key code g' f).
Proof.
  apply safe_bind, safe_get_factor. intros g1 r _ Hr. destruct r as [[f s]|[[]| | | | | | | | | | |]]; try done.
  destruct (Hr f s eq_refl) as (Hfs & Hname & Hseen). destruct (String.eqb_spec (State f) factorStatePending) as [Hp|]; [|done].
  cbn [negb]. apply safe_bind, safe_now. intros g2 age (Hf2 & _) _ _. destruct (pendingTTL <? _); [done|].
  apply safe_bind, safe_now. intros g3 at_match (Hf3 & _) Hread _.
  destruct (matchCode _ _ _ _) as [c|] eqn:Hm.
  - inside. intros []. apply safe_bind, safe_recovery_codes. intros [[plain hashes]|text]; [|done].
    apply safe_bind, safe_now. intros g4 now (Hf4 & _) _ Hby. apply safe_bind, safe_update_factor; [|done].
    destruct (matchCode_Some _ _ _ _ _ Hm) as (_ & Hlt & _).
    apply (safe_advance issued entropy i g4 s f); [by apply Hf4, Hf3, Hf2|done|done|done|done| |].
    + right. split; [|by apply Hby, Hf3, Hf2]. unfold active. by rewrite Hp.
    + intros g5 r Hf5 _ Hspent [[]|e] Hok; [|done]. inside. intros []. apply safe_done. intros _. exists f.
      apply (spends_intro key code g4 g5 f s at_match c); [by apply Hf4, Hf3, Hf2|done|done|by apply Hf4|done|done|by apply Hspent, Hok].
  - apply safe_bind, safe_deletePending. intros [[]|e]; [|done]. inside. done.
Qed.

Lemma safe_reset i g h c key code recovery :
  safe i g (reset_factor h c key code recovery)
    (fun g' r => ok_reply r = true -> code <> ""%string -> exists f, spends key code g' f).
Proof.
  apply safe_bind, safe_get_factor. intros g1 r _ Hr. destruct r as [[f s]|[[]| | | | | | | | | | |]]; try done.
  destruct (Hr f s eq_refl) as (Hfs & Hname & Hseen). destruct (negb _); [done|]. inside. intros [|]; [|done]. cbn [negb].
  assert (Hgo : forall g2 (usedRecovery : bool) paid, facts g1 ⊆ facts g2 ->
    (forall x, paid = Some x -> exists t, Reading t ∈ facts g2 /\ matchCode (Secret f) code t (LastCounter f) = Some x) ->
    (paid = None -> code = ""%string) ->
    safe i g2 (_ ← call (ResetFailures h key);
              newSecret ← newTOTPSecret;
              match newSecret with
              | None => respondError 500 ("generating TOTP secret: " ++ random_text)
              | Some newSecret =>
                  now ← call Now;
                  updated ← update s (pending_factor c newSecret now);
                  match updated with
                  | Err e => respondError 409 (Error e (Email c))
                  | Ok _ =>
                      _ ← emit (mkEvent "twofa_reset" (Email c)
                                  ("2FA factor reset for " ++ Email c ++ ": the old factor and recovery codes are void")
                                  [("via_recovery_code", if usedRecovery : bool then "true" else "false")]);
                      mret (200%Z, EnrollBody (otpauthURI HIssuer (Email c) newSecret) (Totp.base32_encode newSecret))
                  end
              end)%string (fun g' r => ok_reply r = true -> code <> ""%string -> exists f, spends key code g' f)).
  { intros g2 ur paid Hf2 Hpaid Hcode. inside. intros []. apply safe_bind, safe_draw. intros [secret|]; [|done].
    apply safe_bind, safe_now. intros g3 now (Hf3 & Hh3 & _) _ _. cbn in Hf3, Hh3. apply safe_bind, safe_update_factor; [|done].
    apply (safe_replace issued entropy i g3 s f (pending_factor c secret now) paid); [by apply Hf3, Hf2|done|done|done| |].
    - intros x Hx. destruct (Hpaid x Hx) as (t & _ & Hm). by destruct (matchCode_Some _ _ _ _ _ Hm) as (_ & Hlt & _).
    - intros g4 r Hf4 _ Hspent [[]|e] Hok; [|done]. inside. intros []. apply safe_done. intros _ Hne. exists f.
      destruct paid as [x|]; [|by destruct Hne; apply Hcode]. destruct (Hpaid x eq_refl) as (t & Ht & Hm).
      apply (spends_intro key code g3 g4 f s t x); [by apply Hf3, Hf2|done|done|by apply Hf3|done|done|by apply Hspent; [apply Hok|]]. }
  apply safe_bind. unfold authorise. destruct (String.eqb_spec code "") as [->|Hne]; cbn [negb].
  - apply safe_done. destruct (consumeRecoveryCode _ _); [by apply (Hgo g1 true None)|failing].
  - apply safe_bind, safe_now. intros g2 t (Hf2 & _) Hread _. apply safe_done.
    destruct (matchCode _ _ _ _) as [x|] eqn:Hm; [|failing]. apply (Hgo g2 false (Some x)); [done| |done]. intros x' [= <-]. eauto.
Qed.

(** The factor of a step-up was active and old enough. *)
Definition aged (key code : string) (g : Ghost) : Prop :=
  exists f t, spends key code g f /\ active f /\ Reading t ∈ facts g /\ EnrolledAt f + MinFactorAge <= t.

Lemma safe_step_up n i g h email key code operation :
  safe i g (step_up n h email key code operation) (fun g' r => r = None -> aged key code g').
Proof.
  revert g. induction n as [|n IH]; intros g; [done|]. cbn [step_up]. apply safe_bind, safe_get_factor. intros g1 r _ Hr.
  destruct r as [[f s]|[[]| | | | | | | | | | |]]; try done. destruct (Hr f s eq_refl) as (Hfs & Hname & Hseen).
  destruct (String.eqb_spec (State f) factorStateActive) as [Ha|]; [|done]. cbn [negb].
  apply safe_bind, safe_now. intros g2 now (Hf2 & _) Hnow _. destruct (Before now _) eqn:Hage; [inside; done|].
  unfold Before, Add in Hage. apply Z.ltb_ge in Hage. inside. intros [|]; [|done]. cbn [negb].
  apply safe_bind, safe_now. intros g3 t (Hf3 & _) Ht _. destruct (matchCode _ _ _ _) as [c|] eqn:Hm; [|failing].
  apply safe_bind, safe_update_factor; [|intros e; apply IH]. destruct (matchCode_Some _ _ _ _ _ Hm) as (_ & Hlt & _).
  apply (safe_advance issued entropy i g3 s f); [by apply Hf3, Hf2|done|done|done|done|by left|].
  intros g4 r Hf4 _ Hspent [[]|e] Hok; [|apply IH]. inside. intros []. apply safe_done. intros _. exists f, now.
  split; [|split_and!; [done|rewrite Hf4; by apply Hf3|done]].
  apply (spends_intro key code g3 g4 f s t c); [by apply Hf3, Hf2|done|done|done|done|done|by apply Hspent, Hok].
Qed.

Lemma safe_status i g claims Q : (forall g' r, Q g' r) -> safe i g (StatusHandler claims) Q.
Proof.
  intros HQ. unfold StatusHandler. destruct (userKey claims) as [key|]; [|by apply safe_done].
  apply safe_bind, safe_get_factor. intros g1 r _ _. destruct r as [[f s]|[[]| | | | | | | | | | |]]; try (by apply safe_done).
  destruct (_ =? _)%string; [by apply safe_bind, safe_now; intros; apply safe_done|].
  destruct (_ =? _)%string; [by apply safe_bind, safe_now; intros; apply safe_done|by apply safe_done].
Qed.

Lemma safe_bootstrap i g email Q :
  issued (SecretName email) -> (forall g' r, Q g' r) -> safe i g (runTwofaBootstrap email) Q.
Proof.
  intros Hissued HQ. apply safe_bind, safe_inside; [intros; by apply inside_bytes|]. intros [raw|]; apply safe_done; [|by apply safe_done].
  lazy beta iota zeta delta [mbind option_bind]. apply safe_bind, safe_now. intros g1 now _ _ _. apply safe_bind, safe_plain_create; [done|done|].
  intros [|[]]; try (by apply safe_done). apply safe_bind, safe_get. intros g2 [s|e] _ Hs; [|by apply safe_done].
  destruct (Hs s eq_refl) as [Hname _]. apply safe_bind, safe_plain_update; [done|intros _; cbn; by rewrite Hname|]. intros r. by apply safe_done.
Qed.

Lemma safe_remove i g email Q : (forall g' r, Q g' r) -> safe i g (runTwofaRemove email) Q.
Proof.
  intros HQ. apply safe_inside; [by intros w []|]. intros [items|e]; [|by apply safe_done].
  destruct (List.find _ items); [|by apply safe_done]. apply safe_bind, safe_delete. intros r. by apply safe_done.
Qed.

(** ** What a request answered. *)

(** The key and the code an operation succeeded with. *)
Definition accepted (q : Request) (a : Answer) : option (string * string) :=
  match q, a with
  | Confirming _ claims (Some code), Replied r | Resetting _ claims (Some (code, _)), Replied r =>
      if ok_reply r && negb (code =? "")%string then (fun key => (key, code)) <$> userKey claims else None
  | SteppingUp _ claims code _, Verified None => (fun key => (key, code)) <$> userKey claims
  | _, _ => None
  end.

Lemma accepted_step_up h claims code operation key :
  userKey claims = Some key -> accepted (SteppingUp h claims code operation) (Verified None) = Some (key, code).
Proof. intros Hk. unfold accepted. by rewrite Hk. Qed.

Definition granted (q : Request) (g : Ghost) (a : Answer) : Prop :=
  (forall key code, accepted q a = Some (key, code) -> exists f, spends key code g f) /\
  match q, a with
  | SteppingUp _ claims code _, Verified None => exists key, userKey claims = Some key /\ aged key code g
  | Enrolling _ (Some c) (Some code), Replied r => ok_reply r = true -> redeems (Email c) code g
  | _, _ => True
  end.

Ltac refused := split; [intros ? ? Hacc; by vm_compute in Hacc|done].

Lemma safe_program i g q :
  (forall email, q = Bootstrapping email -> issued (SecretName email)) -> safe i g (program q) (granted q).
Proof.
  intros Hissued.
  destruct q as [h claims body|h claims body|h claims body|h claims code operation|claims|email|email]; cbn [program]; apply safe_bind.
  - destruct claims as [c|]; [|refused]. destruct body as [code|]; [|unfold EnrollHandler; destruct (userKey _); refused].
    eapply safe_mono; [apply safe_Enroll|]. intros g' r Hr. by apply safe_done.
  - unfold ConfirmHandler. destruct (userKey claims) as [key|] eqn:Hk; [|destruct body; refused].
    destruct body as [[|ch code]|]; [refused| |refused]. apply safe_locked. eapply safe_mono; [apply safe_confirm|].
    intros g' r Hr. apply safe_done. split; [|done]. intros key' code' Ha. cbn in Ha. rewrite Hk in Ha.
    destruct (ok_reply r) eqn:Ho; [|done]. injection Ha as <- <-. by apply Hr.
  - unfold ResetHandler. destruct claims as [c|]; [|destruct body as [[]|]; refused]. destruct (userKey (Some c)) as [key|] eqn:Hk.
    + assert (Hgo : forall code recovery, safe i g (locked h key (reset_factor h c key code recovery))
         (fun g' a => safe i g' (mret (Replied a)) (granted (Resetting h (Some c) (Some (code, recovery)))))).
      { intros code recovery. apply safe_locked. eapply safe_mono; [apply safe_reset|]. intros g' r Hr. apply safe_done.
        split; [|done]. intros key' code' Ha. cbn [accepted] in Ha. rewrite Hk in Ha. destruct (ok_reply r) eqn:Ho; [|done].
        destruct (String.eqb_spec code ""); [done|]. injection Ha as <- <-. by apply Hr. }
      destruct body as [[[|ch code] [|ch' recovery]]|]; [refused|apply Hgo..|refused].
    + destruct body as [[[|ch code] recovery]|]; refused.
  - unfold VerifyStepUp. destruct (userKey claims) as [key|] eqn:Hk; [|refused]. destruct (String.eqb_spec code ""); [refused|].
    apply safe_locked. eapply safe_mono; [apply safe_step_up|]. intros g' [e|] Hr; [by apply safe_done|]. apply safe_done.
    specialize (Hr eq_refl). split; [|by exists key]. intros key' code' Ha. cbn in Ha. rewrite Hk in Ha. injection Ha as <- <-.
    destruct Hr as (f & t & Hf & _). by exists f.
  - apply safe_status. intros g' r. by apply safe_done.
  - apply safe_bootstrap; [by apply Hissued|]. intros g' r. by apply safe_done.
  - apply safe_remove. intros g' r. by apply safe_done.
Qed.

Lemma happens_inv (x : Host) w gs : inv issued w gs -> inv issued (happens x w) gs.
Proof.
  intros HI. destruct x as [d|name]; cbn.
  - eapply inv_kept; [apply kept_tick, (i_sound _ _ _ HI)|done].
  - destruct (secrets w !! name); [|done]. eapply inv_kept; [apply kept_drop, (i_sound _ _ _ HI)|done].
Qed.

Lemma empty_inv now n : inv issued (empty_world now) (replicate n (mkGhost [] None None None)).
Proof.
  assert (Hno : forall r f, ~ has (empty_world now) r f) by (intros r f [H0 _]; by apply not_elem_of_nil in H0).
  split; [split; try done; intros; exfalso; by eapply Hno| |..].
  - intros i g [-> _]%lookup_replicate_1. by split.
  - by intros i j g g' x [-> _]%lookup_replicate_1.
  - by intros i j g g' x [-> _]%lookup_replicate_1.
  - by intros i j g g' x [-> _]%lookup_replicate_1.
Qed.
End Walk.

(** The commands of a list of requests. *)
Definition issues (requests : list Request) (name : string) : Prop :=
  exists j email, requests !! j = Some (Bootstrapping email) /\ name = SecretName email.

(** Where a run of requests ends. *)
Lemma runs_end `{Platform} (entropy : nat -> nat -> list Z) now requests ts w answers :
  runs_from entropy now requests ts w answers ->
  exists gs, inv (issues requests) w gs /\ forall i q a, requests !! i = Some q -> answers !! i = Some (Ret a) ->
    exists g, gs !! i = Some g /\ granted q g a.
Proof.
  intros Hrun. set (Q := fun i g a => forall q, requests !! i = Some q -> granted q g a).
  assert (Hstart : pool_safe (handle entropy) (legal entropy) (inv (issues requests)) Q (empty_world now, program <$> requests)
                     (replicate (length requests) (mkGhost [] None None None))).
  { split; [apply empty_inv|]. intros i p Hp. simpl in Hp. rewrite list_lookup_fmap in Hp.
    destruct (requests !! i) as [q|] eqn:Hq; [|done]. injection Hp as <-. eexists. split.
    - apply lookup_replicate_2. by eapply lookup_lt_Some.
    - eapply safe_mono; [apply safe_program|].
      + intros email ->. by exists i, email.
      + intros g a Hg q'. unfold Q. rewrite Hq. by intros [= <-]. }
  destruct (pool_safe_run _ _ _ (inv (issues requests)) Q ts _ _ _ (happens_inv _) Hstart Hrun) as (gs & HI & Hall).
  exists gs. split; [done|]. intros i q a Hq Ha. destruct (Hall i _ Ha) as (g & Hg & HQ). exists g. split; [done|]. by apply HQ.
Qed.

(** Factor [f] was stored for [key] in some revision. *)
Definition was_stored (w : World) (key : string) (f : factor) : Prop := exists r, has w r f /\ RName r = factorSecretName key.

Lemma seen_stored issued w (s : KSecret) key f :
  sound issued w -> holds w (Seen s) -> SName s = factorSecretName key -> Factor (SData s) = Some f -> was_stored w key f.
Proof.
  intros Hw (_ & r & Hr & Hs & _) Hname Hf. destruct (s_rev _ _ Hw _ _ _ Hr Hs) as (Hrn & _). exists r.
  split; [|congruence]. split; [by eapply list_elem_of_lookup_2|eauto].
Qed.

(** C8: a one-time code authorises one operation. Whatever requests run, on
    however many replicas, in whatever order and with whichever calls failing,
    every confirmation, reset and step-up that succeeds with a code has a counter
    of its own of the device that was stored for the user: the code is that
    counter's, the counter is newer than the last one stored and within a step of
    a time the clock has shown, and no other operation that succeeded has the same
    counter of the same device. *)
Theorem code_spent_once `{Platform} (entropy : nat -> nat -> list Z) (now : Time) (requests : list Request)
    (ts : list (turn (Fault := fault) (Env := Host))) (w : World) (answers : list (prog api Answer))
    (Hrun : runs_from entropy now requests ts w answers) :
  exists counter : nat -> option (list Z * Z),
    (forall i q a key code, requests !! i = Some q -> answers !! i = Some (Ret a) -> accepted q a = Some (key, code) ->
       exists f t c, was_stored w key f /\ t <= clock w /\ matchCode (Secret f) code t (LastCounter f) = Some c /\
         counter i = Some (Secret f, c)) /\
    (forall i j x, counter i = Some x -> counter j = Some x -> i = j).
Proof.
  destruct (runs_end entropy now requests ts w answers Hrun) as (gs & HI & Hall).
  exists (fun i => g ← gs !! i; spent g). split.
  - intros i q a key code Hq Ha Hacc. destruct (Hall i q a Hq Ha) as (g & Hg & Hgr & _).
    destruct (Hgr key code Hacc) as (f & s & t & c & Hs & Hname & Hf & Ht & Hm & Hspent).
    pose proof (o_facts _ _ (i_each _ _ _ HI i g Hg)) as Hfacts. rewrite Forall_forall in Hfacts. exists f, t, c. split_and!.
    + by apply (seen_stored (issues requests) w s); [exact (i_sound _ _ _ HI)|apply Hfacts|..].
    + by apply (Hfacts (Reading t)).
    + done.
    + by rewrite Hg.
  - intros i j x Hi Hj. destruct (gs !! i) as [g|] eqn:Hgi; [|done]. destruct (gs !! j) as [g'|] eqn:Hgj; [|done].
    by apply (i_once _ _ _ HI i j g g' x).
Qed.

(** C9: a step-up is by a device that was confirmed long enough ago. When one
    succeeds, the device its code matches was active for the user, the required
    age has passed since the instant of its confirmation, no revision of that
    device is active with another instant or from before it, and it was stored
    unconfirmed before: a new or a rotated device starts from zero. *)
Theorem step_up_aged `{Platform} (entropy : nat -> nat -> list Z) (now : Time) (requests : list Request)
    (ts : list (turn (Fault := fault) (Env := Host))) (w : World) (answers : list (prog api Answer))
    (Hrun : runs_from entropy now requests ts w answers)
    (i h : nat) (claims : option Claims) (code operation : string)
    (Hrequest : requests !! i = Some (SteppingUp h claims code operation))
    (Hanswer : answers !! i = Some (Ret (Verified None))) :
  exists key f t c,
    userKey claims = Some key /\ was_stored w key f /\ active f /\ matchCode (Secret f) code t (LastCounter f) = Some c /\
    EnrolledAt f + MinFactorAge <= clock w /\
    (forall r g, has w r g -> Secret g = Secret f -> active g -> EnrolledAt g = EnrolledAt f /\ EnrolledAt f <= RTime r) /\
    (exists r g, has w r g /\ Secret g = Secret f /\ ~ active g /\ RTime r <= EnrolledAt f).
Proof.
  destruct (runs_end entropy now requests ts w answers Hrun) as (gs & HI & Hall).
  destruct (Hall i _ _ Hrequest Hanswer) as (g & Hg & _ & key & Hkey & f & t0 & (s & t & c & Hs & Hname & Hf & Ht & Hm & _) & Ha & Ht0 & Hage).
  pose proof (o_facts _ _ (i_each _ _ _ HI i g Hg)) as Hfacts. rewrite Forall_forall in Hfacts. pose proof (i_sound _ _ _ HI) as Hw.
  destruct (seen_stored _ w s key f Hw (Hfacts _ Hs) Hname Hf) as (r & Hr & Hrn).
  exists key, f, t, c. split_and!; [done|by exists r|done|done| | |].
  - pose proof (Hfacts _ Ht0) as Hle. simpl in Hle. lia.
  - intros r' g' Hr' Hsec Ha'. assert (He : EnrolledAt g' = EnrolledAt f) by by apply (s_enrolled _ _ Hw r' g' r f).
    split; [done|]. rewrite <- He. by apply (s_since _ _ Hw r' g').
  - destruct (s_since _ _ Hw r f Hr Ha) as (_ & r0 & f0 & H0). by exists r0, f0.
Qed.

(** C10: an enrolment costs a bootstrap code, once. Every enrolment that starts
    redeems a revision of its own: the code that a bootstrap command stored for
    that address, the one presented, not expired when it was checked, and gone
    from the server afterwards. *)
Theorem enrolment_redeems_code `{Platform} (entropy : nat -> nat -> list Z) (now : Time) (requests : list Request)
    (ts : list (turn (Fault := fault) (Env := Host))) (w : World) (answers : list (prog api Answer))
    (Hrun : runs_from entropy now requests ts w answers) :
  exists revision : nat -> option nat,
    (forall i h c code r, requests !! i = Some (Enrolling h (Some c) (Some code)) -> answers !! i = Some (Ret (Replied r)) ->
       ok_reply r = true ->
       exists v s stored expires t, revision i = Some v /\
         revisions w !! v = Some (mkRevision (SecretName (Email c)) (Some s) stored) /\
         Code (SData s) <> ""%string /\ Code (SData s) = TrimSpace code /\
         ParseTime (Expires (SData s)) = Some expires /\ stored <= t <= expires /\ t <= clock w /\
         (forall n s', secrets w !! n = Some s' -> SVersion s' <> v) /\
         exists j email, requests !! j = Some (Bootstrapping email) /\ SecretName email = SecretName (Email c)) /\
    (forall i j v, revision i = Some v -> revision j = Some v -> i = j).
Proof.
  destruct (runs_end entropy now requests ts w answers Hrun) as (gs & HI & Hall).
  exists (fun i => g ← gs !! i; redeemed g). split.
  - intros i h c code r Hq Ha Hok. destruct (Hall i _ _ Hq Ha) as (g & Hg & _ & Hred).
    destruct (Hred Hok) as (s & x & t & Hs & Hname & Hne & Hcode & Hx & Hby & Hle & Hr).
    pose proof (i_each _ _ _ HI i g Hg) as [Hfacts _ _ Hdead]. rewrite Forall_forall in Hfacts.
    destruct (Hfacts _ Hby) as (Hclock & [rn rs rt] & Hrev & Hrs & Hrt). cbn in Hrs, Hrt. subst rs.
    pose proof (i_sound _ _ _ HI) as Hw. destruct (s_rev _ _ Hw _ _ s Hrev eq_refl) as (Hrn & _ & _). cbn in Hrn.
    exists (SVersion s), s, rt, x, t. rewrite Hg. split_and!; [done|congruence|done|done|done|done|done|done|by apply Hdead|].
    destruct (s_codes _ _ Hw _ _ s Hrev eq_refl Hne) as (j & email & Hj & He). exists j, email. split; [done|]. change (rn = SecretName email) in He. by rewrite <- He, Hrn.
  - intros i j v Hi Hj. destruct (gs !! i) as [g|] eqn:Hgi; [|done]. destruct (gs !! j) as [g'|] eqn:Hgj; [|done].
    by apply (i_redeemed_once _ _ _ HI i j g g' v).
Qed.

(** ** Alice's codes. *)

Lemma demo_ends : exists w answers, runs_from demo_entropy noon demo_requests demo_schedule w answers /\
  (exists uri secret, answers !! 1%nat = Some (Ret (Replied (200, EnrollBody uri secret)))) /\
  answers !! 3%nat = Some (Ret (Verified (Some (ErrFactorNotEligible "invalid 2FA code")))) /\
  answers !! 4%nat = Some (Ret (Verified None)).
Proof.
  assert (Hc : match demo_end with Some (w, answers) =>
      (exists uri secret, answers !! 1%nat = Some (Ret (Replied (200, EnrollBody uri secret)))) /\
      answers !! 3%nat = Some (Ret (Verified (Some (ErrFactorNotEligible "invalid 2FA code")))) /\
      answers !! 4%nat = Some (Ret (Verified None)) | None => False end).
  { vm_compute. split; [eexists _, _; reflexivity|split; reflexivity]. }
  destruct demo_end as [[w answers]|] eqn:He; [|destruct Hc]. exists w, answers. split; [unfold runs_from; unfold demo_end in He; exact He|exact Hc].
Qed.

(** Two racing requests show one code: one of them is authorised. *)
Lemma code_spent_once_witness :
  exists w answers counter, runs_from demo_entropy noon demo_requests demo_schedule w answers /\
    answers !! 3%nat = Some (Ret (Verified (Some (ErrFactorNotEligible "invalid 2FA code")))) /\
    answers !! 4%nat = Some (Ret (Verified None)) /\
    (exists f t c, matchCode (Secret f) (shown later) t (LastCounter f) = Some c /\ counter 4%nat = Some (Secret f, c)) /\
    forall i j x, counter i = Some x -> counter j = Some x -> i = j.
Proof.
  destruct demo_ends as (w & answers & Hrun & _ & H3 & H4).
  destruct (code_spent_once demo_entropy noon demo_requests demo_schedule w answers Hrun) as (counter & Hcounter & Honce).
  exists w, answers, counter. split; [exact Hrun|]. split; [exact H3|]. split; [exact H4|]. split; [|exact Honce].
  destruct (Hcounter 4%nat (SteppingUp 1 (Some alice) (shown later) "migration") (Verified None) demo_key (shown later))
    as (f & t & c & _ & _ & Hm & Hc); [reflexivity|exact H4|exact (accepted_step_up _ _ _ _ _ demo_userKey)|].
  exists f, t, c. split; [exact Hm|exact Hc].
Defined.

Lemma step_up_aged_witness :
  exists w answers, runs_from demo_entropy noon demo_requests demo_schedule w answers /\
    exists f, active f /\ EnrolledAt f + 7 * Day <= clock w.
Proof.
  destruct demo_ends as (w & answers & Hrun & _ & H3 & H4). exists w, answers. split; [exact Hrun|].
  destruct (step_up_aged demo_entropy noon demo_requests demo_schedule w answers Hrun 4 1 (Some alice) (shown later) "migration" eq_refl H4)
    as (key & f & t & c & _ & _ & Ha & _ & Hage & _). exists f. split; [exact Ha|exact Hage].
Defined.

Lemma enrolment_redeems_code_witness :
  exists w answers v s stored, runs_from demo_entropy noon demo_requests demo_schedule w answers /\
    revisions w !! v = Some (mkRevision (SecretName "alice@example.com") (Some s) stored) /\
    Code (SData s) = "AAAA-AAAA-AAAA-AAAA"%string /\ (forall n s', secrets w !! n = Some s' -> SVersion s' <> v).
Proof.
  destruct demo_ends as (w & answers & Hrun & (uri & secret & H1) & _).
  destruct (enrolment_redeems_code demo_entropy noon demo_requests demo_schedule w answers Hrun) as (revision & Hrev & _).
  destruct (Hrev 1%nat 0%nat alice " AAAA-AAAA-AAAA-AAAA"%string _ eq_refl H1 eq_refl)
    as (v & s & stored & expires & t & _ & Hv & _ & Hcode & _ & _ & _ & Hgone & _).
  exists w, answers, v, s, stored. split; [exact Hrun|]. split; [exact Hv|]. split; [exact Hcode|exact Hgone].
Defined.
