(* ===== verification/TwoFactorLimits.v ===== *)
(** * Guessing is limited

    On each replica, however its requests interleave, at most five wrong codes
    of a user's active device are judged within five minutes, unless a right one
    comes in between: the lock spans the question whether another attempt is
    allowed and the record of its failure. A wrong code for a pending device
    voids the enrolment. *)

From Stdlib Require Import Ascii.
From stdpp Require Import base tactics numbers countable list option strings gmap.
From S2P Require Import Prelude Calls GoStd Sha256 Calendar Totp TwoFactor TwoFactorWorld TwoFactorDemo.

(** The failures of an identity that no success has cleared, and those still
    inside the window. *)
Definition standing (h : nat) (key : string) (l : list LimiterOp) : list Time :=
  foldl (fun acc op =>
           match op with
           | Failed h' key' t => if decide ((h', key') = (h, key)) then (acc ++ [t])%list else acc
           | Cleared h' key' => if decide ((h', key') = (h, key)) then [] else acc
           end) [] l.

Definition in_window (now : Time) (l : list Time) : list Time :=
  filter (fun t => Is_true (After t (Add now (- rateLimitWindow)))) l.

Definition user_key (key : string) : bool := negb (HasPrefix key "bootstrap/").

(** ** Windows. *)

Lemma in_window_later (now later : Time) (l : list Time) :
  now <= later -> in_window later (in_window now l) = in_window later l.
Proof.
  intros H. unfold in_window. rewrite list_filter_filter. apply list_filter_iff. intros t.
  unfold After, Add. split; [by intros [? _]|]. intros Ht. split; [done|]. bool_to_prop. apply Is_true_true, Z.ltb_lt. lia.
Qed.

Lemma in_window_app (now : Time) (l l' : list Time) : in_window now (l ++ l') = (in_window now l ++ in_window now l')%list.
Proof. apply filter_app. Qed.

Lemma length_in_window (now later : Time) (l : list Time) :
  now <= later -> (length (in_window later l) <= length (in_window now l))%nat.
Proof. intros H. rewrite <- (in_window_later now later) by done. apply length_filter. Qed.

Lemma recent_kept (now : Time) (key : string) r : (recent now key r).1 = in_window now (default [] (r !! key)).
Proof. done. Qed.

Lemma recent_lookup (now : Time) (key k : string) r :
  default [] ((recent now key r).2 !! k) = if decide (k = key) then in_window now (default [] (r !! key)) else default [] (r !! k).
Proof.
  unfold recent. cbn. fold (in_window now (default [] (r !! key))). destruct (decide (k = key)) as [->|Hne].
  - destruct (bool_decide _) eqn:Hb; [apply bool_decide_eq_true in Hb; by rewrite lookup_delete_eq, Hb|by rewrite lookup_insert_eq].
  - destruct (bool_decide _); [by rewrite lookup_delete_ne|by rewrite lookup_insert_ne].
Qed.

Lemma standing_app (h : nat) (key : string) (l : list LimiterOp) (op : LimiterOp) :
  standing h key (l ++ [op]) =
  match op with
  | Failed h' key' t => if decide ((h', key') = (h, key)) then (standing h key l ++ [t])%list else standing h key l
  | Cleared h' key' => if decide ((h', key') = (h, key)) then [] else standing h key l
  end.
Proof. unfold standing. by rewrite foldl_app. Qed.

(** ** The invariant. *)

(** The lock a request holds, whether it was allowed an attempt under it, and
    the entry of the journal that records its failure. *)
Record Guard := mkGuard { holding : option (nat * string); allowance : bool; noted : option (nat * (nat * string)) }.

Record limited (w : World) : Prop := {
  l_stand : forall h key, in_window (clock w) (default [] (limiter_of w h !! key)) = in_window (clock w) (standing h key (journal w));
  l_bound : forall h key a b t, user_key key = true -> journal w = (a ++ Failed h key t :: b)%list ->
    (length (in_window t (standing h key a)) < rateLimitMax)%nat
}.

Record guard_ok (w : World) (g : Guard) : Prop := {
  o_lock : forall lk, holding g = Some lk -> lk ∈ locks w;
  o_allowed : allowance g = true -> exists h key, holding g = Some (h, key) /\ user_key key = true /\
    (length (in_window (clock w) (standing h key (journal w))) < rateLimitMax)%nat;
  o_noted : forall k h key, noted g = Some (k, (h, key)) -> exists t, journal w !! k = Some (Failed h key t)
}.

Record inv (w : World) (gs : list Guard) : Prop := {
  i_limited : limited w;
  i_guards : forall i g, gs !! i = Some g -> guard_ok w g;
  i_locks : exclusive holding gs;
  i_notes : exclusive noted gs
}.

Lemma books_move (w w' : World) (gs : list Guard) (i : nat) (g g' : Guard) :
  inv w gs -> gs !! i = Some g -> limited w' ->
  (forall j g0, j <> i -> gs !! j = Some g0 -> guard_ok w g0 -> guard_ok w' g0) -> guard_ok w' g' ->
  (forall x, holding g' = Some x -> holding g = Some x \/ forall j g0, gs !! j = Some g0 -> holding g0 <> Some x) ->
  (forall x, noted g' = Some x -> noted g = Some x \/ forall j g0, gs !! j = Some g0 -> noted g0 <> Some x) ->
  inv w' (<[i := g']> gs).
Proof.
  intros [H1 H2 H3 H4] Hi Hw Hothers Hown Hh Hn. split; [done| |by eapply exclusive_update..].
  intros j g0 Hj. destruct (lookup_update gs i j g g0 _ Hi Hj) as [[-> ->]|[Hne Hj']]; [done|]. by eapply Hothers, H2.
Qed.

(** Nothing happens to the memory of the replicas, but that time passes. *)
Definition same_memory (w w' : World) : Prop :=
  limiters w' = limiters w /\ locks w' = locks w /\ journal w' = journal w /\ clock w <= clock w'.

Lemma same_memory_inv (w w' : World) (gs : list Guard) : same_memory w w' -> inv w gs -> inv w' gs.
Proof.
  intros (Hl & Hk & Hj & Hc) [[S B] Hg H3 H4]. split; try done.
  - split; [|by rewrite Hj]. intros h key. unfold limiter_of. rewrite Hl, Hj.
    rewrite <- (in_window_later (clock w) (clock w')) by done. rewrite <- (in_window_later (clock w) (clock w') (standing _ _ _)) by done.
    f_equal. apply S.
  - intros i g Hi. destruct (Hg i g Hi) as [G1 G2 G3]. split; rewrite ?Hk, ?Hj; [done| |done].
    intros Ha. destruct (G2 Ha) as (h & key & Hh & Hu & Hlen). exists h, key. split_and!; [done|done|].
    pose proof (length_in_window (clock w) (clock w') (standing h key (journal w)) Hc). lia.
Qed.

(** An operation on the failures of one identity. *)
Lemma limiter_stand (w : World) (h : nat) (key : string) l ops :
  limited w ->
  (forall k, k <> key -> default [] (l !! k) = default [] (limiter_of w h !! k)) ->
  (forall op, op ∈ ops -> match op with Failed h' k' _ | Cleared h' k' => (h', k') = (h, key) end) ->
  in_window (clock w) (default [] (l !! key)) = in_window (clock w) (standing h key (journal w ++ ops)) ->
  forall h' k, in_window (clock w) (default [] (limiter_of (set_limiter h l ops w) h' !! k)) =
    in_window (clock w) (standing h' k (journal w ++ ops)).
Proof.
  intros [S _] Hother Hops Hkey h' k. unfold limiter_of. cbn [set_limiter limiters]. destruct (decide (h' = h)) as [->|Hh].
  - rewrite lookup_insert_eq. cbn [default]. destruct (decide (k = key)) as [->|Hk]; [done|].
    change (default [] (default l (Some l) !! k)) with (default [] (l !! k)). rewrite Hother by done. rewrite S. f_equal.
    clear -Hops Hk. symmetry. induction ops as [|op ops IH] using rev_ind; [by rewrite app_nil_r|].
    rewrite app_assoc, standing_app. assert (Hop := Hops op ltac:(set_solver)).
    destruct op as [h' k' t|h' k']; (rewrite decide_False by congruence); apply IH; intros op' Hin; apply Hops; set_solver.
  - rewrite lookup_insert_ne by done. fold (limiter_of w h'). rewrite S. f_equal.
    clear -Hops Hh. symmetry. induction ops as [|op ops IH] using rev_ind; [by rewrite app_nil_r|].
    rewrite app_assoc, standing_app. assert (Hop := Hops op ltac:(set_solver)).
    destruct op as [h2 k' t|h2 k']; (rewrite decide_False by congruence); apply IH; intros op' Hin; apply Hops; set_solver.
Qed.

Lemma limited_intro (w : World) (h : nat) l ops :
  limited w ->
  (forall h' k, in_window (clock w) (default [] (limiter_of (set_limiter h l ops w) h' !! k)) =
     in_window (clock w) (standing h' k (journal w ++ ops))) ->
  (forall h' key t, ops = [Failed h' key t] -> user_key key = true ->
     (length (in_window t (standing h' key (journal w))) < rateLimitMax)%nat) ->
  (length ops <= 1)%nat -> limited (set_limiter h l ops w).
Proof.
  intros [S B] Hst Hb Hlen. split; [done|]. intros h' key a b t Hu He. cbn [set_limiter journal] in He.
  destruct ops as [|op [|? ?]]; [rewrite app_nil_r in He; by apply (B _ _ a b)| |simpl in Hlen; lia].
  destruct b as [|x b] using rev_ind.
  - apply app_inj_tail in He as [<- ->]. by apply Hb.
  - rewrite app_comm_cons, app_assoc in He. apply app_inj_tail in He as [He _]. by apply (B _ _ a b).
Qed.

Lemma journal_same (h : nat) l (w : World) : journal (set_limiter h l [] w) = journal w.
Proof. apply app_nil_r. Qed.

(** The journal grows by at most an entry about [key]; guards of other
    identities do not notice. *)
Lemma guard_frame (w : World) (h : nat) (key : string) l ops (g : Guard) :
  (forall op, op ∈ ops -> match op with Failed h' k' _ | Cleared h' k' => (h', k') = (h, key) end) ->
  (allowance g = true -> holding g <> Some (h, key)) -> guard_ok w g -> guard_ok (set_limiter h l ops w) g.
Proof.
  intros Hops Hother [G1 G2 G3]. split; [done| |].
  - intros Ha. destruct (G2 Ha) as (h' & k & Hh & Hu & Hlen). exists h', k. split_and!; [done|done|]. cbn [set_limiter clock journal].
    replace (standing h' k (journal w ++ ops)) with (standing h' k (journal w)); [done|].
    assert (Hne : (h, key) <> (h', k)) by (intros He; apply (Hother Ha); congruence).
    clear -Hops Hne. symmetry. induction ops as [|op ops IH] using rev_ind; [by rewrite app_nil_r|].
    rewrite app_assoc, standing_app. assert (Hop := Hops op ltac:(set_solver)).
    destruct op as [h2 k2 t|h2 k2]; (rewrite decide_False by congruence); apply IH; intros op' Hin; apply Hops; set_solver.
  - intros k h' key' Hn. destruct (G3 k h' key' Hn) as [t Ht]. exists t. cbn [set_limiter journal]. by apply lookup_app_l_Some.
Qed.

Section Calls.
Context `{Platform}.
Variable entropy : nat -> nat -> list Z.

Abbreviation handle := (TwoFactorWorld.handle entropy).
Abbreviation legal := (TwoFactorWorld.legal entropy).
Abbreviation safe := (Calls.safe handle legal inv).

Lemma orderly_done {A : Type} i g (a : A) (Q : Guard -> A -> Prop) : Q g a -> safe i g (mret a) Q.
Proof. done. Qed.

(** A call that does not reach the memory of a replica. *)
Lemma safe_elsewhere {R : Type} i g (e : api R) Q :
  (forall w f, same_memory w (handle R e f w).1) -> (forall r, Q g r) -> safe i g (call e) Q.
Proof.
  intros He HQ w gs f HI Hg Hl. exists g. rewrite list_insert_id by done. split; [|apply HQ]. by eapply same_memory_inv.
Qed.

Lemma allowed_limited (w : World) (h : nat) (key : string) :
  limited w -> limited (set_limiter h (allowed (clock w) key (limiter_of w h)).2 [] w).
Proof.
  intros Hw. unfold allowed. destruct (recent (clock w) key (limiter_of w h)) as [kept l] eqn:Hr.
  assert (Hlook := fun k => recent_lookup (clock w) key k (limiter_of w h)). rewrite Hr in Hlook. cbn in Hlook |- *.
  apply limited_intro; [done| |done|simpl; lia]. apply (limiter_stand w h key); [done| |by intros op ?%not_elem_of_nil|].
  - intros k Hk. rewrite Hlook, decide_False by done. done.
  - rewrite Hlook, decide_True, in_window_later, app_nil_r by done. apply (l_stand _ Hw).
Qed.

(** An attempt is asked for, under the lock or not. *)
Lemma safe_allowed i g h key Q :
  holding g = Some (h, key) -> user_key key = true ->
  (forall b, Q (mkGuard (holding g) b (noted g)) b) -> safe i g (call (Allowed h key)) Q.
Proof.
  intros Hh Hu HQ w gs f HI Hg Hl. destruct f; [|done|done].
  set (b := (allowed (clock w) key (limiter_of w h)).1). exists (mkGuard (holding g) b (noted g)).
  assert (He : handle _ (Allowed h key) Fine w = (set_limiter h (allowed (clock w) key (limiter_of w h)).2 [] w, b))
    by (cbn; by destruct (allowed (clock w) key (limiter_of w h)) eqn:He).
  rewrite He. cbn [fst snd]. split; [|apply HQ]. pose proof (allowed_limited w h key (i_limited _ _ HI)) as Hlim.
  destruct (i_guards _ _ HI i g Hg) as [G1 G2 G3].
  apply (books_move w _ gs i g); [done|done|done| | |by auto|by auto].
  - intros j g0 Hne Hj. apply (guard_frame w h key); [by intros op ?%not_elem_of_nil|]. intros _ Hh'.
    by apply Hne, (i_locks _ _ HI j i g0 g (h, key)).
  - split; [done| |by intros k h' key' Hn; rewrite journal_same; apply G3]. intros Hb. exists h, key. split_and!; [done|done|].
    cbn [allowance] in Hb. cbn [set_limiter clock journal]. rewrite app_nil_r. rewrite <- (l_stand _ (i_limited _ _ HI)).
    subst b. unfold allowed in Hb. rewrite <- recent_kept. destruct (recent (clock w) key (limiter_of w h)) as [kept l]. cbn in Hb |- *. by apply Nat.ltb_lt.
Qed.

Lemma safe_allowed_other i g h key Q :
  (forall b, Q g b) -> safe i g (call (Allowed h key)) Q.
Proof.
  intros HQ w gs f HI Hg Hl. destruct f; [|done|done]. exists g. rewrite list_insert_id by done.
  assert (He : (handle _ (Allowed h key) Fine w).1 = set_limiter h (allowed (clock w) key (limiter_of w h)).2 [] w)
    by (cbn; by destruct (allowed (clock w) key (limiter_of w h))).
  rewrite He. split; [|apply HQ]. rewrite <- (list_insert_id gs i g) by done.
  apply (books_move w _ gs i g); [done|done|by apply allowed_limited, (i_limited _ _ HI)| | |by auto|by auto].
  - intros j g0 _ Hj [G1 G2 G3]. split; rewrite ?journal_same; done.
  - destruct (i_guards _ _ HI i g Hg) as [G1 G2 G3]. split; rewrite ?journal_same; done.
Qed.

Lemma record_limited (w : World) (h : nat) (key : string) :
  limited w ->
  (user_key key = true -> (length (in_window (clock w) (standing h key (journal w))) < rateLimitMax)%nat) ->
  limited (set_limiter h (recordFailure (clock w) key (limiter_of w h)).2 [Failed h key (clock w)] w).
Proof.
  intros Hw Hlen. unfold recordFailure. destruct (recent (clock w) key (limiter_of w h)) as [kept l] eqn:Hr.
  assert (Hlook := fun k => recent_lookup (clock w) key k (limiter_of w h)). rewrite Hr in Hlook. cbn in Hlook |- *.
  assert (Hkept := recent_kept (clock w) key (limiter_of w h)). rewrite Hr in Hkept. cbn in Hkept.
  apply limited_intro; [done| |intros h' key' t [= <- <- <-]; apply Hlen|done]. apply (limiter_stand w h key); [done| | |].
  - intros k Hk. rewrite lookup_insert_ne, Hlook, decide_False by done. done.
  - intros op ->%list_elem_of_singleton. done.
  - rewrite lookup_insert_eq, standing_app, decide_True by done. cbn [default from_option id]. rewrite !in_window_app. f_equal. rewrite Hkept, in_window_later by done.
    apply (l_stand _ Hw).
Qed.

(** A failure is recorded: under the lock, after the attempt was allowed. *)
Lemma safe_record i g h key Q :
  holding g = Some (h, key) -> allowance g = true ->
  (forall r k, Q (mkGuard (holding g) false (Some (k, (h, key)))) r) -> safe i g (call (RecordFailure h key)) Q.
Proof.
  intros Hh Ha HQ w gs f HI Hg Hl. destruct f; [|done|done].
  exists (mkGuard (holding g) false (Some (length (journal w), (h, key)))).
  assert (He : (handle _ (RecordFailure h key) Fine w).1 = set_limiter h (recordFailure (clock w) key (limiter_of w h)).2 [Failed h key (clock w)] w)
    by (cbn; by destruct (recordFailure (clock w) key (limiter_of w h))).
  rewrite He. split; [|apply HQ]. destruct (i_guards _ _ HI i g Hg) as [G1 G2 G3].
  destruct (G2 Ha) as (h' & key' & Hh' & Hu & Hlen). assert (h' = h /\ key' = key) as [-> ->] by (split; congruence).
  apply (books_move w _ gs i g); [done|done|by apply record_limited; [exact (i_limited _ _ HI)|]| | |by auto|].
  - intros j g0 Hne Hj. apply (guard_frame w h key); [by intros op ->%list_elem_of_singleton|]. intros _ Hj'.
    by apply Hne, (i_locks _ _ HI j i g0 g (h, key)).
  - split; [done|done|]. intros k h' key' [= <- <- <-]. exists (clock w). cbn [set_limiter journal].
    by rewrite lookup_app_r, Nat.sub_diag by lia.
  - intros x [= <-]. right. intros j g0 Hj Hn. destruct (o_noted _ _ (i_guards _ _ HI j g0 Hj) _ _ _ Hn) as [t Ht].
    apply lookup_lt_Some in Ht. lia.
Qed.

(** The limiter of bootstrap codes is another identity. *)
Lemma safe_record_other i g h key Q :
  user_key key = false -> (forall r, Q g r) -> safe i g (call (RecordFailure h key)) Q.
Proof.
  intros Hu HQ w gs f HI Hg Hl. destruct f; [|done|done]. exists g. rewrite list_insert_id by done.
  assert (He : (handle _ (RecordFailure h key) Fine w).1 = set_limiter h (recordFailure (clock w) key (limiter_of w h)).2 [Failed h key (clock w)] w)
    by (cbn; by destruct (recordFailure (clock w) key (limiter_of w h))).
  rewrite He. split; [|apply HQ]. rewrite <- (list_insert_id gs i g) by done.
  assert (Hok : forall g0, guard_ok w g0 -> guard_ok (set_limiter h (recordFailure (clock w) key (limiter_of w h)).2 [Failed h key (clock w)] w) g0).
  { intros g0 Hg0. apply (guard_frame w h key); [by intros op ->%list_elem_of_singleton| |done]. intros Ha Hh.
    destruct (o_allowed _ _ Hg0 Ha) as (h' & key' & Hh' & Hu' & _). congruence. }
  apply (books_move w _ gs i g); [done|done|apply record_limited; [exact (i_limited _ _ HI)|congruence]| | |by auto|by auto].
  - intros j g0 _ Hj. apply Hok.
  - by apply Hok, (i_guards _ _ HI i g).
Qed.

Lemma safe_reset_failures i g h key Q : (forall r, Q g r) -> safe i g (call (ResetFailures h key)) Q.
Proof.
  intros HQ w gs f HI Hg Hl. destruct f; [|done|done]. exists g. rewrite list_insert_id by done. split; [|apply HQ]. cbn.
  assert (Hok : forall g0, guard_ok w g0 -> guard_ok (set_limiter h (reset key (limiter_of w h)) [Cleared h key] w) g0).
  { intros g0 Hg0. destruct (decide (holding g0 = Some (h, key))) as [Hh|Hh].
    - destruct Hg0 as [G1 G2 G3]. split; [done| |].
      + intros Ha. destruct (G2 Ha) as (h' & key' & Hh' & Hu & Hlen). exists h', key'. split_and!; [done|done|]. cbn [set_limiter clock journal].
        rewrite standing_app, decide_True by congruence. unfold in_window. rewrite filter_nil. unfold rateLimitMax. simpl. lia.
      + intros k h' key' Hn. destruct (G3 k h' key' Hn) as [t Ht]. exists t. cbn [set_limiter journal]. by apply lookup_app_l_Some.
    - apply (guard_frame w h key); [by intros op ->%list_elem_of_singleton|done|done]. }
  rewrite <- (list_insert_id gs i g) by done. apply (books_move w _ gs i g); [done|done| | |by apply Hok, (i_guards _ _ HI i g)|by auto|by auto].
  - apply limited_intro; [exact (i_limited _ _ HI)| |by intros h' key' t [=]|done]. apply (limiter_stand w h key); [exact (i_limited _ _ HI)| |by intros op ->%list_elem_of_singleton|].
    + intros k Hk. unfold reset. by rewrite lookup_delete_ne.
    + unfold reset. by rewrite lookup_delete_eq, standing_app, decide_True.
  - intros j g0 _ Hj. apply Hok.
Qed.

(** The lock around a program: what it shows inside holds afterwards. *)
Lemma orderly_locked {A : Type} i g h key (p : prog api A) (Q : Guard -> A -> Prop) :
  (safe i (mkGuard (Some (h, key)) false (noted g)) p (fun g' a => holding g' = Some (h, key) /\ Q (mkGuard None false (noted g')) a)) ->
  safe i g (locked h key p) Q.
Proof.
  intros Hp. apply safe_bind. intros w gs f HI Hg Hl. destruct f; [|done|done]. cbn in Hl. apply bool_decide_eq_true in Hl.
  exists (mkGuard (Some (h, key)) false (noted g)). destruct (i_guards _ _ HI i g Hg) as [G1 G2 G3]. split.
  - apply (books_move w _ gs i g); [done|done| | | | |by auto].
    + by destruct (i_limited _ _ HI).
    + intros j g0 _ Hj [J1 J2 J3]. split; [|done|done]. intros lk Hlk. cbn. apply elem_of_union. right. by apply J1.
    + split; [|done|done]. intros lk [= <-]. cbn. set_solver.
    + intros x [= <-]. right. intros j g0 Hj Hh. by apply Hl, (o_lock _ _ (i_guards _ _ HI j g0 Hj)).
  - apply safe_bind. eapply safe_mono; [exact Hp|]. intros g' a [Hh HQ]. apply safe_bind.
    intros w' gs' f' HI' Hg' Hl'. destruct f'; [|done|done]. exists (mkGuard None false (noted g')).
    destruct (i_guards _ _ HI' i g' Hg') as [G1' G2' G3']. split; [|by apply orderly_done].
    apply (books_move w' _ gs' i g'); [done|done| | | |done|by auto].
    + by destruct (i_limited _ _ HI').
    + intros j g0 Hne Hj [J1 J2 J3]. split; [|done|done]. intros lk Hlk. cbn. apply elem_of_difference. split; [by apply J1|].
      rewrite elem_of_singleton. intros ->. by apply Hne, (i_locks _ _ HI' j i g0 g' (h, key)).
    + by split.
Qed.
End Calls.

(** ** The requests. *)

Lemma hex_digit_not_o (b : Z) : Ascii.eqb "o"%char (hex_digit (Z.land b 15)) = false.
Proof.
  apply negb_true_iff. apply (Z_all_below 16 (fun n => negb (Ascii.eqb "o"%char (hex_digit n)))); [vm_compute; reflexivity|].
  change 15 with (Z.ones 4). rewrite Z.land_ones by lia. by apply Z.mod_pos_bound.
Qed.

(** A user's key is hexadecimal. *)
Lemma userKey_plain claims key : userKey claims = Some key -> user_key key = true.
Proof.
  unfold userKey. destruct claims as [c|]; [|done]. destruct (_ || _); [done|]. intros [= <-].
  set (s := (_ ++ _)%string). pose proof (length_Sum256 s) as Hlen. destruct (Sum256 s) as [|b l]; [done|].
  unfold user_key. cbn [take hex_encode].
  assert (Hpre : forall x y rest, HasPrefix (String x (String y rest)) "bootstrap/" =
    Ascii.eqb "b"%char x && (Ascii.eqb "o"%char y && HasPrefix rest "otstrap/")) by reflexivity.
  by rewrite Hpre, hex_digit_not_o, andb_false_r.
Qed.

Section Walk.
Context `{Platform}.
Variable entropy : nat -> nat -> list Z.

Abbreviation safe := (Calls.safe (handle entropy) (legal entropy) inv).

Lemma elsewhere_get w f name : same_memory w (handle entropy _ (GetSecret name) f w).1.
Proof. by destruct f. Qed.

Lemma elsewhere_list w f : same_memory w (handle entropy _ ListFactors f w).1.
Proof. by destruct f. Qed.

Lemma elsewhere_create w f name labels data : same_memory w (handle entropy _ (CreateSecret name labels data) f w).1.
Proof. destruct f; cbn; [|done|]; by destruct (secrets w !! name). Qed.

Lemma elsewhere_update w f s : same_memory w (handle entropy _ (UpdateSecret s) f w).1.
Proof. destruct f; cbn; [|done|]; (destruct (secrets w !! SName s); [|done]); by destruct (same_object _ _ _). Qed.

Lemma elsewhere_delete w f name pre : same_memory w (handle entropy _ (DeleteSecret name pre) f w).1.
Proof. destruct f; cbn; [|done|]; (destruct (secrets w !! name); [|done]); by destruct (default _ _). Qed.

Lemma elsewhere_now w f : same_memory w (handle entropy _ Now f w).1.
Proof. by destruct f. Qed.

Lemma elsewhere_random w f n : same_memory w (handle entropy _ (RandRead n) f w).1.
Proof. by destruct f. Qed.

Lemma elsewhere_hash w f p : same_memory w (handle entropy _ (GenerateFromPassword p) f w).1.
Proof. by destruct f. Qed.

Lemma elsewhere_emit w f e : same_memory w (handle entropy _ (Emit e) f w).1.
Proof. by destruct f. Qed.

Create HintDb elsewhere.

#[local] Hint Resolve elsewhere_get elsewhere_list elsewhere_create elsewhere_update elsewhere_delete elsewhere_now
  elsewhere_random elsewhere_hash elsewhere_emit : elsewhere.

(** A program that stays out of the memory of the replicas. *)
Fixpoint stays_out {A : Type} (p : prog api A) : Prop :=
  match p with
  | Ret _ => True
  | Call e k => (forall w f, same_memory w (handle entropy _ e f w).1) /\ forall r, stays_out (k r)
  end.

Lemma stays_out_bind {A B : Type} (p : prog api A) (k : A -> prog api B) :
  stays_out p -> (forall a, stays_out (k a)) -> stays_out (p ≫= k).
Proof.
  intros Hp Hk. induction p as [a|R e k' IH]; [by apply Hk|]. destruct Hp as [He Hp]. split; [done|]. intros r. by apply IH.
Qed.

Lemma stays_out_call {R : Type} (e : api R) : (forall w f, same_memory w (handle entropy _ e f w).1) -> stays_out (call e).
Proof. by split. Qed.

Lemma safe_out {A B : Type} i g (p : prog api A) (k : A -> prog api B) Q :
  stays_out p -> (forall a, safe i g (k a) Q) -> safe i g (p ≫= k) Q.
Proof.
  intros Hp Hk. apply safe_bind. induction p as [a|R e k' IH]; [apply Hk|]. destruct Hp as [He Hp].
  apply (safe_bind _ _ _ i g (call e) k'), safe_elsewhere; [done|]. intros r. by apply IH.
Qed.

Ltac stays :=
  repeat first
    [ apply stays_out_bind; [|intros ?]
    | apply stays_out_call; solve [auto with elsewhere]
    | exact I
    | progress cbv beta zeta
    | match goal with |- stays_out (match ?x with _ => _ end) => destruct x end
    | match goal with |- stays_out (if ?x then _ else _) => destruct x end ].

Lemma out_get key : stays_out (get key).
Proof. unfold get. stays. Qed.

Lemma out_update s f : stays_out (update s f).
Proof. unfold update. stays. Qed.

Lemma out_createPending key f : stays_out (createPending key f).
Proof. unfold createPending. apply stays_out_bind; [apply out_get|]. intros r. stays; apply out_update. Qed.

Lemma out_deletePending key s : stays_out (deletePending key s).
Proof. unfold deletePending. stays. Qed.

Lemma out_codes n : stays_out (recovery_codes n).
Proof. induction n as [|n IH]; cbn [recovery_codes]; stays. apply IH. Qed.

Lemma out_recovery : stays_out newRecoveryCodes.
Proof. apply out_codes. Qed.

Lemma out_consume email presented : stays_out (consumeBootstrapCode email presented).
Proof. unfold consumeBootstrapCode. stays. Qed.

Lemma out_now : stays_out (call Now).
Proof. stays. Qed.

Lemma out_authorise f code recovery : stays_out (authorise f code recovery).
Proof. unfold authorise. stays. Qed.

Lemma out_emit e : stays_out (emit e).
Proof. unfold emit. stays. Qed.

Lemma out_secret : stays_out newTOTPSecret.
Proof. unfold newTOTPSecret. stays. Qed.

#[local] Hint Resolve out_get out_update out_createPending out_deletePending out_recovery out_consume out_now out_authorise
  out_emit out_secret : elsewhere.

Ltac out := apply safe_out; [solve [auto with elsewhere]|intros ?].

(** A failure under the lock leaves its entry. *)
Lemma safe_failure i g h key email what (Q : Guard -> unit -> Prop) :
  holding g = Some (h, key) -> allowance g = true ->
  (forall k u, Q (mkGuard (holding g) false (Some (k, (h, key)))) u) -> safe i g (record_failure h key email what) Q.
Proof.
  intros Hh Ha HQ. apply safe_bind, safe_record; [done|done|]. intros [] k; [|by apply orderly_done].
  apply safe_elsewhere; [auto with elsewhere|done].
Qed.

Lemma safe_failure_other i g h key email what (Q : Guard -> unit -> Prop) :
  user_key key = false -> (forall u, Q g u) -> safe i g (record_failure h key email what) Q.
Proof.
  intros Hu HQ. apply safe_bind, safe_record_other; [done|]. intros []; [|by apply orderly_done].
  apply safe_elsewhere; [auto with elsewhere|done].
Qed.

(** ** A wrong code has its entry. *)

Definition has_entry (h : nat) (key : string) (g : Guard) : Prop := exists k, noted g = Some (k, (h, key)).

Definition wrong_reset (r : Response) : bool :=
  match r with (403, ErrorBody m) => (m =? "invalid code")%string | _ => false end.

Definition wrong_step_up (e : option StepUpError) : bool :=
  match e with Some (ErrFactorNotEligible m) => (m =? "invalid 2FA code")%string | _ => false end.

Definition kept_lock (h : nat) (key : string) (wrong : bool) (g : Guard) : Prop :=
  holding g = Some (h, key) /\ (wrong = true -> has_entry h key g).

Lemma orderly_confirm i g h email key code :
  holding g = Some (h, key) -> safe i g (confirm h email key code) (fun g' _ => holding g' = Some (h, key)).
Proof.
  intros Hh. unfold confirm. out. destruct a as [[f s]|[[]| | | | | | | | | | |]]; try done. destruct (negb _); [done|].
  out. destruct (_ <? _); [done|]. out. destruct (matchCode _ _ _ _).
  - apply safe_bind, safe_reset_failures. intros []. out. destruct a1 as [[plain hashes]|]; [|done].
    out. out. destruct a2; [|done]. out. done.
  - out. destruct a1; [|done]. out. done.
Qed.

Lemma safe_reset_factor i g h c key code recovery :
  holding g = Some (h, key) -> user_key key = true ->
  safe i g (reset_factor h c key code recovery) (fun g' r => kept_lock h key (wrong_reset r) g').
Proof.
  intros Hh Hu. unfold reset_factor. out. destruct a as [[f s]|[[]| | | | | | | | | | |]]; try (by split). destruct (negb _); [by split|].
  apply safe_bind, safe_allowed; [done|done|]. intros [|]; [|by split]. cbn [negb]. out. destruct a as [usedRecovery|].
  - apply safe_bind, safe_reset_failures. intros []. out. destruct a as [secret|]; [|by split]. out. out.
    destruct a0; [|by split]. out. by split.
  - apply safe_bind, safe_failure; [done|done|]. intros k u. apply orderly_done. split; [done|]. intros _. by exists k.
Qed.

Lemma orderly_step_up n i g h email key code operation :
  holding g = Some (h, key) -> user_key key = true ->
  safe i g (step_up n h email key code operation) (fun g' r => kept_lock h key (wrong_step_up r) g').
Proof.
  revert g. induction n as [|n IH]; intros g Hh Hu; [by split|]. cbn [step_up]. out.
  destruct a as [[f s]|[[]| | | | | | | | | | |]]; try (by split). destruct (negb _); [by split|].
  out. destruct (Before _ _); [out; by split|].
  apply safe_bind, safe_allowed; [done|done|]. intros [|]; [|by split]. cbn [negb]. out. destruct (matchCode _ _ _ _).
  - out. destruct a1; [|by apply IH]. apply safe_bind, safe_reset_failures. intros []. by split.
  - apply safe_bind, safe_failure; [done|done|]. intros k u. apply orderly_done. split; [done|]. intros _. by exists k.
Qed.

Lemma orderly_Enroll i g h claims body : safe i g (EnrollHandler h claims body) (fun _ _ => True).
Proof.
  unfold EnrollHandler. destruct claims as [c|]; [|done]. destruct (userKey _) as [key|]; [|done].
  destruct body as [[|ch code]|]; [done| |done]. apply safe_bind, safe_allowed_other. intros [|]; [|done]. cbn [negb].
  out. destruct a as [[]|e]; [|by apply safe_bind, safe_failure_other]. apply safe_bind, safe_reset_failures. intros [].
  out. destruct a as [secret|]; [|done]. out. out. destruct a0; [|done]. out. done.
Qed.

(** The identity whose code a request answered to be wrong. *)
Definition wrong (q : Request) (a : Answer) : option (nat * string) :=
  match q, a with
  | Resetting h claims _, Replied r => if wrong_reset r then (fun key => (h, key)) <$> userKey claims else None
  | SteppingUp h claims _ _, Verified e => if wrong_step_up e then (fun key => (h, key)) <$> userKey claims else None
  | _, _ => None
  end.

Definition entered (q : Request) (g : Guard) (a : Answer) : Prop :=
  forall h key, wrong q a = Some (h, key) -> has_entry h key g.

Lemma orderly_program i g q : safe i g (program q) (entered q).
Proof.
  destruct q as [h claims body|h claims body|h claims body|h claims code operation|claims|email|email]; cbn [program].
  - apply safe_bind. eapply safe_mono; [apply orderly_Enroll|]. by intros g' r _ h' key'.
  - apply safe_bind. unfold ConfirmHandler. destruct (userKey claims) as [key|]; [|by intros h' key'].
    destruct body as [[|ch code]|]; [by intros h' key'| |by intros h' key']. apply orderly_locked.
    eapply safe_mono; [by apply orderly_confirm|]. intros g' r Hh. split; [done|]. by intros h' key'.
  - apply safe_bind. unfold ResetHandler. destruct claims as [c|]; [|by intros h' key'].
    destruct (userKey (Some c)) as [key|] eqn:Hk; [|by intros h' key'].
    assert (Hgo : forall code recovery, safe i g (locked h key (reset_factor h c key code recovery))
       (fun g' r => safe i g' (mret (Replied r)) (entered (Resetting h (Some c) body)))).
    { intros code recovery. apply orderly_locked. eapply safe_mono; [apply safe_reset_factor; [done|by eapply userKey_plain]|].
      intros g' r [Hh Hw]. split; [done|]. intros h' key' He. cbn [wrong] in He. rewrite Hk in He.
      destruct (wrong_reset r); [|done]. injection He as <- <-. destruct (Hw eq_refl) as [k Hn]. by exists k. }
    destruct body as [[[|ch code] [|ch' recovery]]|]; [by intros h' key'|apply Hgo..|by intros h' key'].
  - apply safe_bind. unfold VerifyStepUp. destruct (userKey claims) as [key|] eqn:Hk; [|by intros h' key'].
    destruct (code =? "")%string; [by intros h' key'|]. apply orderly_locked.
    eapply safe_mono; [apply orderly_step_up; [done|by eapply userKey_plain]|].
    intros g' r [Hh Hw]. split; [done|]. intros h' key' He. cbn [wrong] in He. rewrite Hk in He.
    destruct (wrong_step_up r); [|done]. injection He as <- <-. destruct (Hw eq_refl) as [k Hn]. by exists k.
  - apply safe_out; [unfold StatusHandler; destruct (userKey claims); stays; apply out_get|by intros r h' key'].
  - apply safe_out; [unfold runTwofaBootstrap, NewCode; stays|by intros r h' key'].
  - apply safe_out; [unfold runTwofaRemove; stays|by intros r h' key'].
Qed.
End Walk.

Lemma happens_memory (x : Host) (w : World) : same_memory w (happens x w).
Proof.
  destruct x as [d|name]; cbn; [split_and!; [done..|simpl; lia]|]. destruct (secrets w !! name); by split_and!.
Qed.

Lemma empty_guards (now : Time) (n : nat) : inv (empty_world now) (replicate n (mkGuard None false None)).
Proof.
  split.
  - split; [done|]. intros h key a b t _ He. by destruct a.
  - intros i g [-> _]%lookup_replicate_1. by split.
  - by intros i j g g' x [-> _]%lookup_replicate_1.
  - by intros i j g g' x [-> _]%lookup_replicate_1.
Qed.

(** ** A wrong confirmation voids its enrolment. *)

Definition wrong_confirm (r : Response) : bool :=
  match r with
  | (403, ErrorBody m) => (m =? "wrong code: the enrollment is void, start again with a new code from the host")%string
  | _ => false
  end.

(** The identity whose pending device a request answered not to have been
    proved. *)
Definition unproved (q : Request) (a : Answer) : option string :=
  match q, a with
  | Confirming _ claims _, Replied r => if wrong_confirm r then userKey claims else None
  | _, _ => None
  end.

(** What a request knows: the revision by which it deleted a factor. *)
Abbreviation Voiding := (option (string * nat)).

Record voids (w : World) (gs : list Voiding) : Prop := {
  v_gone : forall i name k, gs !! i = Some (Some (name, k)) -> exists t, revisions w !! k = Some (mkRevision name None t);
  v_own : exclusive (fun g : Voiding => snd <$> g) gs
}.

Section Voids.
Context `{Platform} (entropy : nat -> nat -> list Z).

Abbreviation vsafe := (Calls.safe (handle entropy) (legal entropy) voids).

Lemma revisions_serve {R : Type} (e : api R) (w : World) : exists l, revisions (serve entropy e w).1 = (revisions w ++ l)%list.
Proof.
  destruct e; cbn [serve]; repeat (case_match; cbn [fst]); cbn; try (by eexists); try (by exists []; rewrite app_nil_r);
    destruct (recent _ _ _); cbn; repeat case_match; by exists []; rewrite app_nil_r.
Qed.

Lemma revisions_grow {R : Type} (e : api R) (f : fault) (w : World) :
  exists l, revisions (handle entropy R e f w).1 = (revisions w ++ l)%list.
Proof. destruct f; [apply revisions_serve|exists []; by rewrite app_nil_r|apply revisions_serve]. Qed.

Lemma voids_more (w w' : World) (l : list Revision) (gs : list Voiding) :
  revisions w' = (revisions w ++ l)%list -> voids w gs -> voids w' gs.
Proof. intros Hr [Hg Ho]. split; [|done]. intros i name k Hi. destruct (Hg i name k Hi) as [t Ht]. exists t. rewrite Hr. by apply lookup_app_l_Some. Qed.

Lemma vsafe_any {A : Type} (i : nat) (g : Voiding) (p : prog api A) : vsafe i g p (fun g' _ => g' = g).
Proof.
  induction p as [a|R e k IH]; [done|]. cbn [Calls.safe]. intros w gs f Hv Hg _. exists g. rewrite list_insert_id by done. split; [|apply IH].
  destruct (revisions_grow e f w) as [l Hl]. by apply (voids_more w _ l).
Qed.

Lemma vsafe_step {A B : Type} (i : nat) (g : Voiding) (p : prog api A) (f : A -> prog api B) Q :
  (forall a, vsafe i g (f a) Q) -> vsafe i g (p ≫= f) Q.
Proof. intros Hf. apply safe_bind. eapply safe_mono; [apply vsafe_any|]. intros g' a ->. apply Hf. Qed.

Lemma deleted_revision (name : string) (pre : option (nat * nat)) (f : fault) (w : World) :
  (handle entropy _ (DeleteSecret name pre) f w).2 = Ok tt ->
  revisions (handle entropy _ (DeleteSecret name pre) f w).1 = (revisions w ++ [mkRevision name None (clock w)])%list.
Proof. destruct f; cbn [handle serve failure snd fst]; [|done..]. destruct (secrets w !! name); [|done]. by destruct (default _ _). Qed.

Lemma vsafe_deletePending (i : nat) (g : Voiding) (key : string) (secret : KSecret) :
  vsafe i g (deletePending key secret) (fun g' r => r = Ok tt -> exists k, g' = Some (factorSecretName key, k)).
Proof.
  unfold deletePending. intros w gs f Hv Hg _. set (name := factorSecretName key).
  assert (Hkeep : forall w', (exists l, revisions w' = (revisions w ++ l)%list) -> voids w' (<[i := g]> gs)).
  { intros w' [l Hl]. rewrite list_insert_id by done. by apply (voids_more w _ l). }
  destruct (handle entropy _ (DeleteSecret name _) f w).2 as [[]|e] eqn:Hr.
  2: { exists g. split; [apply Hkeep, revisions_grow|]. cbn. by destruct e. }
  exists (Some (name, length (revisions w))). split; [|by eexists].
  assert (Hrev : revisions (handle entropy _ (DeleteSecret name (Some (SUID secret, SVersion secret))) f w).1
                 = (revisions w ++ [mkRevision name None (clock w)])%list).
  { by apply deleted_revision. }
  destruct Hv as [Hgone Hown]. split.
  - intros j n k Hj. destruct (lookup_update gs i j g _ _ Hg Hj) as [[-> [= -> ->]]|[_ Hj']].
    + exists (clock w). rewrite Hrev. by rewrite list_lookup_middle.
    + destruct (Hgone j n k Hj') as [t Ht]. exists t. rewrite Hrev. by apply lookup_app_l_Some.
  - eapply exclusive_update; [done|done|]. intros k [= <-]. right. intros j [[n k']|] Hj; [|done]. cbn. intros [= ->].
    destruct (Hgone j n _ Hj) as [t Ht%lookup_lt_Some]. lia.
Qed.

Definition undone (q : Request) (g : Voiding) (a : Answer) : Prop :=
  forall key, unproved q a = Some key -> exists k, g = Some (factorSecretName key, k).

Lemma vsafe_confirm (i : nat) (g : Voiding) (h : nat) (email key code : string) :
  vsafe i g (confirm h email key code) (fun g' r => wrong_confirm r = true -> exists k, g' = Some (factorSecretName key, k)).
Proof.
  unfold confirm. apply vsafe_step. intros [[f s]|[[]| | | | | | | | | | |]]; try done. destruct (negb _); [done|].
  apply vsafe_step. intros age. destruct (_ <? _); [done|]. apply vsafe_step. intros at_match. destruct (matchCode _ _ _ _).
  - apply vsafe_step. intros _. apply vsafe_step. intros [[plain hashes]|]; [|done]. apply vsafe_step. intros t.
    apply vsafe_step. intros [|]; [|done]. by apply vsafe_step.
  - apply safe_bind. eapply safe_mono; [apply vsafe_deletePending|]. intros g' [[]|] Hd; [|done].
    apply vsafe_step. intros _ _. by apply Hd.
Qed.

Lemma vsafe_program (i : nat) (q : Request) : vsafe i None (program q) (undone q).
Proof.
  destruct q as [h claims body|h claims body|h claims body|h claims code operation|claims|email|email]; cbn [program];
    try (apply vsafe_step; intros r; by intros key).
  apply safe_bind. unfold ConfirmHandler. destruct (userKey claims) as [key|] eqn:Hk; [|by intros key].
  destruct body as [[|ch code]|]; [by intros key'| |by intros key']. unfold locked. apply vsafe_step. intros _.
  apply safe_bind. eapply safe_mono; [apply vsafe_confirm|]. intros g' r Hr. apply vsafe_step. intros _ key'. cbn [unproved].
  destruct (wrong_confirm r) eqn:Hw; [|done]. rewrite Hk. intros [= <-]. by apply Hr.
Qed.
End Voids.

Lemma happens_revisions (x : Host) (w : World) : exists l, revisions (happens x w) = (revisions w ++ l)%list.
Proof. destruct x as [d|name]; cbn; [by exists []; rewrite app_nil_r|]. destruct (secrets w !! name); [by eexists|by exists []; rewrite app_nil_r]. Qed.

(** What the invariants say of a finished run. *)
Section Ended.
Context `{Platform} (entropy : nat -> nat -> list Z) (now : Time) (requests : list Request)
    (ts : list (turn (Fault := fault) (Env := Host))) (w : World) (answers : list (prog api Answer))
    (Hrun : runs_from entropy now requests ts w answers).

Lemma ended_guards :
  exists gs, pool_safe (handle entropy) (legal entropy) inv (fun i g a => forall q, requests !! i = Some q -> entered q g a) (w, answers) gs.
Proof.
  set (Q := fun i g a => forall q, requests !! i = Some q -> entered q g a).
  assert (Hstart : pool_safe (handle entropy) (legal entropy) inv Q (empty_world now, program <$> requests)
                     (replicate (length requests) (mkGuard None false None))).
  { split; [apply empty_guards|]. intros i p Hp. simpl in Hp. rewrite list_lookup_fmap in Hp.
    destruct (requests !! i) as [q|] eqn:Hq; [|done]. injection Hp as <-. eexists. split.
    - apply lookup_replicate_2. by eapply lookup_lt_Some.
    - eapply safe_mono; [apply orderly_program|]. intros g a Hg q'. unfold Q. rewrite Hq. by intros [= <-]. }
  exact (pool_safe_run _ happens _ inv Q ts _ _ _ (fun x s gs => same_memory_inv _ _ gs (happens_memory x s)) Hstart Hrun).
Qed.

Lemma guesses_noted :
  exists entry : nat -> option nat,
    (forall i q a h key, requests !! i = Some q -> answers !! i = Some (Ret a) -> wrong q a = Some (h, key) ->
       exists k t, entry i = Some k /\ journal w !! k = Some (Failed h key t)) /\
    (forall i j k, entry i = Some k -> entry j = Some k -> i = j).
Proof.
  destruct ended_guards as (gs & HI & Hall). exists (fun i => g ← gs !! i; fst <$> noted g). split.
  - intros i q a h key Hq Ha Hw. destruct (Hall i _ Ha) as (g & Hg & HQ). destruct (HQ q Hq h key Hw) as [k Hk].
    destruct (o_noted _ _ (i_guards _ _ HI i g Hg) _ _ _ Hk) as [t Ht]. exists k, t. split; [|done]. rewrite Hg. simpl. by rewrite Hk.
  - intros i j k Hi Hj. destruct (gs !! i) as [g|] eqn:Hgi; [|done]. destruct (gs !! j) as [g'|] eqn:Hgj; [|done]. simpl in Hi, Hj.
    destruct (noted g) as [[k1 [h1 key1]]|] eqn:Hn; [|done]. destruct (noted g') as [[k2 [h2 key2]]|] eqn:Hn'; [|done].
    cbn in Hi, Hj. injection Hi as ->. injection Hj as ->.
    destruct (o_noted _ _ (i_guards _ _ HI i g Hgi) _ _ _ Hn) as [t1 Ht1], (o_noted _ _ (i_guards _ _ HI j g' Hgj) _ _ _ Hn') as [t2 Ht2].
    apply (i_notes _ _ HI i j g g' _ Hgi Hgj Hn). congruence.
Qed.

Lemma guesses_bounded (h : nat) (key : string) a b t :
  user_key key = true -> journal w = (a ++ Failed h key t :: b)%list -> (length (in_window t (standing h key a)) < rateLimitMax)%nat.
Proof. destruct ended_guards as (gs & HI & _). apply (l_bound _ (i_limited _ _ HI)). Qed.

Lemma confirmations_void :
  exists voided : nat -> option nat,
    (forall i q a key, requests !! i = Some q -> answers !! i = Some (Ret a) -> unproved q a = Some key ->
       exists k t, voided i = Some k /\ revisions w !! k = Some (mkRevision (factorSecretName key) None t)) /\
    (forall i j k, voided i = Some k -> voided j = Some k -> i = j).
Proof.
  set (Q := fun i g a => forall q, requests !! i = Some q -> undone q g a).
  assert (Hstart : pool_safe (handle entropy) (legal entropy) voids Q (empty_world now, program <$> requests) (replicate (length requests) None)).
  { split; [split|].
    - intros i name k [? _]%lookup_replicate_1. done.
    - by intros i j g g' x [-> _]%lookup_replicate_1.
    - intros i p Hp. simpl in Hp. rewrite list_lookup_fmap in Hp. destruct (requests !! i) as [q|] eqn:Hq; [|done]. injection Hp as <-.
      eexists. split; [apply lookup_replicate_2; by eapply lookup_lt_Some|].
      eapply safe_mono; [apply vsafe_program|]. intros g a Hg q'. unfold Q. rewrite Hq. by intros [= <-]. }
  destruct (pool_safe_run _ happens _ voids Q ts _ _ _
    (fun x s gs => match happens_revisions x s with ex_intro _ l Hl => voids_more s _ l gs Hl end) Hstart Hrun) as (gs & HI & Hall).
  exists (fun i => g ← gs !! i; snd <$> g). split.
  - intros i q a key Hq Ha Hw. destruct (Hall i _ Ha) as (g & Hg & HQ). destruct (HQ q Hq key Hw) as [k ->].
    destruct (v_gone _ _ HI i _ k Hg) as [t Ht]. exists k, t. split; [|done]. by rewrite Hg.
  - intros i j k Hi Hj. destruct (gs !! i) as [g|] eqn:Hgi; [|done]. destruct (gs !! j) as [g'|] eqn:Hgj; [|done]. simpl in Hi, Hj.
    by apply (v_own _ _ HI i j g g' k).
Qed.
End Ended.


