(* ===== verification/TwoFactorProps.v ===== *)
(** * One request at a time

    What the requests answer and leave behind when nothing else happens: a
    step-up on every branch, and the way from a bootstrap code to the first
    operation a device authorises. *)

From Stdlib Require Import Ascii.
From stdpp Require Import base tactics numbers countable list option strings gmap.
From S2P Require Import Prelude Calls GoStd Calendar Totp TwoFactor TwoFactorWorld TwoFactorLimits TwoFactorDemo.

(** C38: the age that the gate asks of a device. Without a value, and with one
    that is no decimal number of an int or a negative one, it is seven days, and
    it never warns then; up to 106751 days it is what the value says, and the
    server warns of less than seven. From 106752 the product of durations wraps
    around: that many days make a negative age, and a device is old enough in
    the instant of its confirmation. *)
Theorem min_age_exact `{Platform} :
  ((forall days, Atoi (TrimSpace minAgeDays) = Some days -> days < 0) -> MinFactorAge = 7 * Day /\ WarnIfWeakened = false) /\
  (forall days, Atoi (TrimSpace minAgeDays) = Some days -> 0 <= days <= 106751 ->
     MinFactorAge = days * Day /\ min_age_days = days /\ WarnIfWeakened = (days <? 7)) /\
  (Atoi (TrimSpace minAgeDays) = Some 106752 -> MinFactorAge < 0 /\ forall t, Before t (Add t MinFactorAge) = false).
Proof.
  unfold WarnIfWeakened, min_age_days, MinFactorAge. change (defaultMinAgeDays * 24 * Hour) with (7 * Day).
  destruct (String.eqb_spec (TrimSpace minAgeDays) "") as [->|_].
  { split; [done|]. split; [intros days Hd|intros Hd]; vm_compute in Hd; discriminate. }
  split; [|split].
  - intros Hneg. destruct (Atoi _) as [days|]; [|done]. by rewrite (proj2 (Z.ltb_lt _ _) (Hneg days eq_refl)).
  - intros days -> Hdays. rewrite (proj2 (Z.ltb_ge days 0)) by lia.
    assert (Hhours : int64_range (days * 24) /\ int64_range (days * 24 * Hour))
      by (unfold int64_range, int64_min, int64_max, Hour, Minute, Second; lia).
    rewrite (wrap64_id (days * 24)), wrap64_id by apply Hhours.
    replace (days * 24 * Hour) with (days * Day) by (unfold Day; lia).
    split; [done|]. split; [by rewrite Z.quot_mul|]. unfold Day, Hour, Minute, Second. destruct (Z.ltb_spec days 7); [apply Z.ltb_lt|apply Z.ltb_ge]; lia.
  - intros ->. assert (Hneg : wrap64 (wrap64 (106752 * 24) * Hour) < 0) by done. split; [exact Hneg|].
    intros t. apply Z.ltb_ge. cbn [Z.ltb Z.compare]. unfold Add. lia.
Qed.

Section Alone.
Context `{Platform}.
Variable entropy : nat -> nat -> list Z.

Abbreviation alone := (Calls.alone (handle entropy) Fine).

Lemma alone_asks {R A : Type} (e : api R) (k : R -> prog api A) (w : World) :
  alone (r ← call e; k r) w = alone (k (serve entropy e w).2) (serve entropy e w).1.
Proof. cbn. by destruct (serve entropy e w). Qed.

Lemma alone_get (key : string) (w : World) :
  alone (get key) w =
  (w, match secrets w !! factorSecretName key with
      | None => Err (Api NotFound)
      | Some s => match Factor (SData s) with Some f => Ok (f, s) | None => Err CorruptRecord end
      end).
Proof. unfold get. rewrite alone_asks. cbn. by destruct (secrets w !! _) as [s|]; [destruct (Factor (SData s))|]. Qed.

(** The Secret that an update of [s] with [f] leaves. *)
Definition updated (w : World) (s : KSecret) (f : factor) : KSecret :=
  mkSecret (SName s) (SUID s) (version w) (SLabels s) (SData (with_factor f s)).

Lemma alone_update (w : World) (s : KSecret) (f : factor) :
  secrets w !! SName s = Some s -> Marshal f = Some f -> alone (update s f) w = (put (updated w s f) w, Ok tt).
Proof.
  intros Hs Hm. unfold update. rewrite Hm, alone_asks. cbn. rewrite Hs. unfold same_object. by rewrite !Nat.eqb_refl.
Qed.

Lemma alone_locked {A : Type} (h : nat) (key : string) (p : prog api A) (w : World) :
  alone (locked h key p) w =
  (set_locks (locks (alone p (set_locks ({[ (h, key) ]} ∪ locks w) w)).1 ∖ {[ (h, key) ]})
     (alone p (set_locks ({[ (h, key) ]} ∪ locks w) w)).1, (alone p (set_locks ({[ (h, key) ]} ∪ locks w) w)).2).
Proof.
  unfold locked. rewrite alone_asks, alone_bind. cbn. by destruct (alone p _).
Qed.

(** The failures of an identity that still count. *)
Definition counted (w : World) (h : nat) (key : string) : list Time := in_window (clock w) (default [] (limiter_of w h !! key)).

Lemma allowed_answer (now : Time) (key : string) r :
  (allowed now key r).1 = (length (in_window now (default [] (r !! key))) <? rateLimitMax)%nat.
Proof. unfold allowed. rewrite <- recent_kept. by destruct (recent now key r). Qed.

Lemma allowed_other (now : Time) (key k : string) r : k <> key -> (allowed now key r).2 !! k = r !! k.
Proof.
  intros Hk. unfold allowed, recent. cbn. by destruct (bool_decide _); rewrite ?lookup_delete_ne, ?lookup_insert_ne by done.
Qed.

Lemma alone_allowed {A : Type} (h : nat) (key : string) (k : bool -> prog api A) (w : World) :
  alone (b ← call (Allowed h key); k b) w =
  alone (k (length (counted w h key) <? rateLimitMax)%nat) (set_limiter h (allowed (clock w) key (limiter_of w h)).2 [] w).
Proof.
  rewrite alone_asks. unfold counted. rewrite <- allowed_answer. cbn [serve]. by destruct (allowed (clock w) key (limiter_of w h)).
Qed.

(** A failure that is recorded changes nothing but the limiter. *)
Lemma alone_record (h : nat) (key email what : string) (w : World) :
  secrets (alone (record_failure h key email what) w).1 = secrets w /\
  locks (alone (record_failure h key email what) w).1 = locks w.
Proof.
  unfold record_failure. rewrite alone_asks. cbn [serve].
  destruct (recordFailure (clock w) key (limiter_of w h)) as [[|] l]; done.
Qed.

(** The record of an advanced device. *)
Definition advanced (f : factor) (c : Z) : factor :=
  mkFactor (State f) (Secret f) (FIssuer f) (FSubject f) (FEmail f) (CreatedAt f) (EnrolledAt f) c (RecoveryCodes f).

Lemma Marshal_advanced (f : factor) (c : Z) : Marshal f = Some f -> Marshal (advanced f c) = Some (advanced f c).
Proof. unfold Marshal. cbn. by destruct (_ && _). Qed.

(** When a step-up is granted, and what it leaves of the server. *)
Definition may_step_up (w : World) (h : nat) (key code : string) (f : factor) : Prop :=
  State f = factorStateActive /\ EnrolledAt f + MinFactorAge <= clock w /\
  (length (counted w h key) < rateLimitMax)%nat /\ is_Some (matchCode (Secret f) code (clock w) (LastCounter f)).

Definition stepped (w : World) (h : nat) (key code : string) (s : KSecret) (f : factor)
    (after : World * option StepUpError) : Prop :=
  (after.2 = None <-> may_step_up w h key code f) /\
  (forall c, after.2 = None -> matchCode (Secret f) code (clock w) (LastCounter f) = Some c ->
     secrets after.1 = <[factorSecretName key := updated w s (advanced f c)]> (secrets w) /\ counted after.1 h key = []) /\
  (after.2 <> None -> secrets after.1 = secrets w) /\ locks after.1 = locks w.

Lemma refused (w : World) h key code s f after :
  ~ may_step_up w h key code f -> after.2 <> None -> secrets after.1 = secrets w -> locks after.1 = locks w ->
  stepped w h key code s f after.
Proof. intros Hno Hr Hs Hl. split; [by split|]. split; [done|]. by split. Qed.

Lemma alone_step_up (n : nat) (w : World) (h : nat) (email key code operation : string) (s : KSecret) (f : factor) :
  secrets w !! factorSecretName key = Some s -> SName s = factorSecretName key -> Factor (SData s) = Some f -> Marshal f = Some f ->
  stepped w h key code s f (alone (step_up (S n) h email key code operation) w).
Proof.
  intros Hs Hname Hf Hm. cbn [step_up]. rewrite alone_bind, alone_get, Hs, Hf. cbn [fst snd].
  destruct (String.eqb_spec (State f) factorStateActive) as [Ha|Ha]; cbn [negb]; [|by apply refused; [intros (? & _)|..]].
  rewrite alone_asks. cbn [serve fst snd]. destruct (Before (clock w) (Add (EnrolledAt f) MinFactorAge)) eqn:Hage; unfold Before, Add in Hage; bool_to_prop.
  { rewrite alone_bind. apply refused; [intros (_ & ? & _); lia|done..]. }
  rewrite alone_allowed. destruct (Nat.ltb_spec (length (counted w h key)) rateLimitMax) as [Hlt|Hge]; cbn [negb];
    [|apply refused; [intros (_ & _ & ? & _); lia|done..]].
  set (w1 := set_limiter _ _ _ w). rewrite alone_asks. cbn [serve fst snd]. change (clock w1) with (clock w).
  destruct (matchCode (Secret f) code (clock w) (LastCounter f)) as [c|] eqn:Hmatch.
  - rewrite alone_bind. change (mkFactor _ _ _ _ _ _ _ c _) with (advanced f c).
    rewrite alone_update; [|by rewrite Hname|by apply Marshal_advanced]. cbn [fst snd]. rewrite alone_asks.
    split; [|split; [intros c' _ He|by split]].
    + split; [intros _|done]. repeat (split; [done|]). by exists c.
    + rewrite Hmatch in He. injection He as <-. split; [cbn; by rewrite Hname|]. unfold counted, limiter_of. cbn. rewrite lookup_insert_eq. cbn. unfold reset. by rewrite lookup_delete_eq.
  - rewrite alone_bind. destruct (alone_record h key email ("repeated failed 2FA attempts by " ++ email ++ " during " ++ operation) w1) as [Hr Hl].
    destruct (alone (record_failure _ _ _ _) w1) as [w2 u]. apply refused; [by intros (_ & _ & _ & [? ?]); congruence|done|done|done].
Qed.

(** C37: what a step-up does, alone and with a stored factor. It succeeds exactly
    when the factor is active, the required age has passed since it was
    confirmed, fewer than five failures count against the user on this replica,
    and the code is that of a counter in the window newer than the last one. Then
    the stored counter is that one, everything else of the factor is kept, and
    the failures are forgotten. When it fails no Secret changes, so that a
    refusal costs no code; and the lock is free again. *)
Theorem step_up_exact (w : World) (h : nat) (claims : option Claims) (key code operation : string) (s : KSecret) (f : factor)
    (Hkey : userKey claims = Some key) (Hcode : code <> ""%string)
    (Hstored : secrets w !! factorSecretName key = Some s) (Hname : SName s = factorSecretName key)
    (Hfactor : Factor (SData s) = Some f) (Hmarshal : Marshal f = Some f) (Hfree : (h, key) ∉ locks w) :
  stepped w h key code s f (alone (VerifyStepUp h claims code operation) w).
Proof.
  unfold VerifyStepUp. rewrite Hkey, (proj2 (String.eqb_neq _ _) Hcode), alone_locked.
  set (w1 := set_locks _ w).
  destruct (alone_step_up 2 w1 h (email_of claims) key code operation s f Hstored Hname Hfactor Hmarshal) as (H1 & H2 & H3 & H4).
  destruct (alone _ w1) as [w2 a]. cbn [fst snd] in *. split; [done|]. split; [done|]. split; [done|].
  cbn. rewrite H4. cbn. set_solver.
Qed.

(** ** From a bootstrap code to an operation. *)

(** The replicas and the clock are as before. *)
Definition same_replicas (w w' : World) : Prop :=
  clock w' = clock w /\ limiters w' = limiters w /\ locks w' = locks w.

Lemma hex_length s : String.length (hex_encode (take 8 (Sha256.Sum256 s))) = 16%nat.
Proof. rewrite length_hex_encode, length_take, Sha256.length_Sum256. done. Qed.

(** A factor and a bootstrap code never share a name. *)
Lemma names_differ claims key email : userKey claims = Some key -> factorSecretName key <> SecretName email.
Proof.
  intros Hk He. apply (f_equal String.length) in He. unfold factorSecretName, SecretName in He.
  rewrite !str_length_app, hex_length in He. unfold userKey in Hk. destruct claims as [c|]; [|done].
  destruct (_ || _); [done|]. injection Hk as <-. rewrite hex_length in He. done.
Qed.

Lemma joined_nonempty (a b : string) (l : list string) : Join (a :: b :: l) "-" <> ""%string.
Proof. cbn [Join]. intros He. apply str_app_eq_nil in He as [_ He]. by apply str_app_eq_nil in He as [He _]. Qed.

(** The Secret a bootstrap command stores. *)
Definition bootstrap_secret (w : World) (email code : string) : KSecret :=
  mkSecret (SecretName email) (version w) (version w) bootstrap_labels
    (mkData None code email (FormatTime (Add (clock w) BootstrapTTL))).

Lemma alone_bootstrap (w : World) (email : string) :
  secrets w !! SecretName email = None ->
  exists w' code, alone (runTwofaBootstrap email) w = (w', Ok code) /\ code <> ""%string /\
    secrets w' = <[SecretName email := bootstrap_secret w email code]> (secrets w) /\ same_replicas w w'.
Proof.
  intros Hnone. set (raw := base32_encode (entropy (draws w) 10)).
  set (code := Join [str_take 4 raw; str_take 4 (str_drop 4 raw); str_take 4 (str_drop 8 raw); str_take 4 (str_drop 12 raw)] "-").
  assert (Hcode : alone NewCode w = (set_draws (drawn w) w, Some code)) by done.
  unfold runTwofaBootstrap. rewrite alone_bind, Hcode. cbn [fst snd]. rewrite alone_asks. cbn [serve fst snd]. unfold BuildSecret.
  rewrite alone_asks. cbn [serve]. change (secrets (set_draws _ w)) with (secrets w). rewrite Hnone. cbn [fst snd].
  eexists _, code. split; [done|]. split; [apply joined_nonempty|]. done.
Qed.

(** A code that is presented in time is redeemed. *)
Lemma alone_consume (w : World) (email presented : string) (s : KSecret) (expires : Time) :
  secrets w !! SecretName email = Some s -> Code (SData s) = TrimSpace presented -> TrimSpace presented <> ""%string ->
  ParseTime (Expires (SData s)) = Some expires -> clock w <= expires ->
  alone (consumeBootstrapCode email presented) w = (drop_secret (SecretName email) w, Ok tt).
Proof.
  intros Hs Hcode Hne Hx Hle. unfold consumeBootstrapCode. rewrite alone_asks. cbn [serve fst snd]. rewrite Hs. cbv zeta.
  rewrite Hcode, (proj2 (String.eqb_neq _ _) Hne), Hx, alone_asks. cbn [serve fst snd].
  assert (Ha : After (clock w) expires = false) by (by apply Z.ltb_ge). rewrite Ha, String.eqb_refl. cbn [negb].
  rewrite alone_asks. cbn [serve]. rewrite Hs.
  change (default true _) with (same_object (SUID s) (SVersion s) s). unfold same_object. by rewrite !Nat.eqb_refl.
Qed.

Lemma alone_createPending (w : World) (key : string) (f : factor) :
  secrets w !! factorSecretName key = None -> Marshal f = Some f ->
  alone (createPending key f) w =
  (put (mkSecret (factorSecretName key) (version w) (version w) factor_labels (mkData (Some f) "" "" "")) w, Ok tt).
Proof.
  intros Hnone Hm. unfold createPending. rewrite alone_bind, alone_get, Hnone. cbn [fst snd]. rewrite Hm, alone_asks. cbn [serve].
  by rewrite Hnone.
Qed.

Lemma counted_none (w : World) h key : limiter_of w h !! key = None -> counted w h key = [].
Proof. intros Hl. unfold counted. by rewrite Hl. Qed.

Lemma alone_enrol (w : World) (h : nat) (c : Claims) (key presented : string) (s : KSecret) (expires : Time) :
  userKey (Some c) = Some key -> secrets w !! factorSecretName key = None -> secrets w !! SecretName (Email c) = Some s ->
  Code (SData s) = TrimSpace presented -> TrimSpace presented <> ""%string ->
  ParseTime (Expires (SData s)) = Some expires -> clock w <= expires -> four_digits (clock w) = true ->
  (length (counted w h ("bootstrap/" ++ key)) < rateLimitMax)%nat ->
  exists w' secret uri, alone (EnrollHandler h (Some c) (Some presented)) w = (w', (200, EnrollBody uri (base32_encode secret))) /\
    (exists v, secrets w' !! factorSecretName key =
       Some (mkSecret (factorSecretName key) v v factor_labels (mkData (Some (pending_factor c secret (clock w))) "" "" ""))) /\
    clock w' = clock w /\ locks w' = locks w /\ forall k, k <> ("bootstrap/" ++ key)%string -> limiter_of w' h !! k = limiter_of w h !! k.
Proof.
  intros Hkey Hnone Hs Hcode Hne Hx Hle Hyear Hfew. unfold EnrollHandler. rewrite Hkey.
  destruct presented as [|ch rest] eqn:Hp; [done|]. rewrite <- Hp in *. rewrite alone_allowed.
  rewrite (proj2 (Nat.ltb_lt _ _) Hfew). cbn [negb]. set (w1 := set_limiter _ _ _ w).
  rewrite alone_bind, (alone_consume w1 (Email c) presented s expires) by done. cbn [fst snd].
  rewrite alone_asks. cbn [serve fst snd]. unfold newTOTPSecret. rewrite alone_asks. cbn [serve fst snd]. rewrite alone_asks. cbn [serve fst snd].
  set (w2 := set_draws _ _).
  assert (Hl2 : limiter_of w2 h = reset ("bootstrap/" ++ key) (allowed (clock w) ("bootstrap/" ++ key) (limiter_of w h)).2).
  { subst w2 w1. unfold set_draws, drop_secret, set_server, set_limiter, limiter_of. cbn [limiters].
    by rewrite !lookup_insert_eq. }
  set (secret := entropy _ 20). change (clock w2) with (clock w).
  rewrite alone_bind, alone_createPending; [|by cbn; rewrite lookup_delete_ne by (symmetry; by eapply names_differ)|].
  2: { unfold Marshal. cbn. by rewrite Hyear. }
  cbn [fst snd]. unfold emit. rewrite alone_asks. cbn [serve fst snd].
  eexists _, secret, _. split; [done|]. split_and!; [|done|done|].
  - exists (version w2). cbn. by rewrite lookup_insert_eq.
  - intros k Hk. transitivity (limiter_of w2 h !! k); [done|]. rewrite Hl2. unfold reset. rewrite lookup_delete_ne by done.
    by apply allowed_other.
Qed.

(** The recovery codes of a confirmation. *)
Lemma alone_codes (n : nat) (w : World) :
  exists w' plain hashes, alone (recovery_codes n) w = (w', Ok (plain, hashes)) /\ length plain = n /\
    secrets w' = secrets w /\ clock w' = clock w /\ limiters w' = limiters w /\ locks w' = locks w.
Proof.
  revert w. induction n as [|n IH]; intros w; [by eexists _, [], []|]. cbn [recovery_codes]. rewrite alone_asks. cbn [serve fst snd].
  rewrite alone_asks. cbn [serve fst snd]. set (code := grouped _). set (hash := hash_password _ _). set (w1 := set_draws _ (set_draws _ _)).
  destruct (IH w1) as (w' & plain & hashes & He & Hlen & Hrest). rewrite alone_bind, He. cbn [fst snd].
  exists w', (code :: plain), (hash :: hashes). split; [done|]. split; [simpl; by rewrite Hlen|done].
Qed.

(** A pending device is confirmed by the code it shows. *)
Lemma alone_confirm (w : World) (h : nat) (c : Claims) (email key : string) (v : nat) (secret : list Z) (created : Time) :
  secrets w !! factorSecretName key =
    Some (mkSecret (factorSecretName key) v v factor_labels (mkData (Some (pending_factor c secret created)) "" "" "")) ->
  clock w - created <= pendingTTL -> four_digits created = true -> four_digits (clock w) = true -> 0 < current_counter (clock w) ->
  exists w' codes f s',
    alone (confirm h email key (totpCode secret (current_counter (clock w)))) w =
      (w', (200, ConfirmBody codes (FormatTime (clock w)) (FormatTime (Add (clock w) MinFactorAge)))) /\
    length codes = recoveryCodeCount /\ secrets w' !! factorSecretName key = Some s' /\ SName s' = factorSecretName key /\
    Factor (SData s') = Some f /\ Marshal f = Some f /\ State f = factorStateActive /\ Secret f = secret /\
    EnrolledAt f = clock w /\ LastCounter f <= current_counter (clock w) + 1 /\
    clock w' = clock w /\ locks w' = locks w /\ limiter_of w' h !! key = None.
Proof.
  intros Hs Hage Hy Hy' Hcounter. destruct (matchCode_shown secret (clock w) 0 Hcounter) as [counter Hm].
  unfold confirm. rewrite alone_bind, alone_get, Hs. cbn [fst snd Factor SData].
  change (State (pending_factor c secret created)) with factorStatePending. rewrite String.eqb_refl. cbn [negb].
  rewrite alone_asks. cbn [serve fst snd]. change (CreatedAt (pending_factor c secret created)) with created.
  assert (Hsub : (pendingTTL <? Sub (clock w) created) = false).
  { apply Z.ltb_ge. unfold Sub, pendingTTL, Minute, Second, int64_min, int64_max in *. lia. }
  rewrite Hsub, alone_asks. cbn [serve fst snd].
  change (Secret (pending_factor c secret created)) with secret. change (LastCounter (pending_factor c secret created)) with 0.
  rewrite Hm, alone_asks. cbn [serve fst snd]. set (w2 := set_limiter _ _ _ w). unfold newRecoveryCodes. rewrite alone_bind.
  destruct (alone_codes recoveryCodeCount w2) as (w3 & plain & hashes & He & Hlen & Hsec & Hclock & Hlim & Hlocks). rewrite He. cbn [fst snd].
  rewrite alone_asks. cbn [serve fst snd]. rewrite Hclock. change (clock w2) with (clock w).
  set (s := mkSecret (factorSecretName key) _ _ _ _) in *. set (f := mkFactor factorStateActive _ _ _ _ _ _ _ _).
  assert (Hmarshal : Marshal f = Some f) by (unfold Marshal; cbn [f CreatedAt EnrolledAt pending_factor]; by rewrite Hy, Hy').
  rewrite alone_bind, (alone_update w3 s f); [|by rewrite Hsec|done]. cbn [fst snd]. unfold emit. rewrite alone_asks. cbn [serve fst snd].
  eexists _, plain, f, (updated w3 s f). split; [reflexivity|]. split; [exact Hlen|]. split; [apply lookup_insert_eq|].
  repeat (split; [reflexivity || exact Hmarshal|]). split; [eapply matchCode_near; [lia|exact Hm]|]. split; [exact Hclock|]. split; [exact Hlocks|].
  change (limiter_of _ h) with (limiter_of w3 h). unfold limiter_of. rewrite Hlim. cbn. rewrite lookup_insert_eq. cbn. unfold reset. by rewrite lookup_delete_eq.
Qed.

(** *** The way of a new device. *)

(** Times of the Unix era that print with four digits. *)
Definition era (t : Time) : Prop := (unix_epoch + 30) * Second <= t < Date 10000 1 1.

Lemma era_year (t : Time) : era t -> four_digits t = true.
Proof. intros [Hlo Hhi]. unfold four_digits. apply andb_true_iff. split; [apply Z.leb_le|by apply Z.ltb_lt]. unfold unix_epoch, Second in Hlo. lia. Qed.

Lemma era_Unix (t : Time) : era t -> 30 <= Unix t < 2 ^ 64.
Proof.
  intros [Hlo Hhi]. unfold Unix. change (Date 10000 1 1) with 315537897600000000000 in Hhi. unfold unix_epoch, Second in *.
  pose proof (Z.div_mod t 1000000000 ltac:(lia)). pose proof (Z.mod_pos_bound t 1000000000 ltac:(lia)). lia.
Qed.

Lemma era_counter (t : Time) : era t -> 0 < current_counter t.
Proof.
  intros Hera%era_Unix. rewrite current_counter_exact by lia.
  pose proof (Z.div_le_mono 30 (Unix t) 30 ltac:(lia) ltac:(lia)). change (30 / 30) with 1 in *. lia.
Qed.

Lemma current_counter_later (t t' : Time) : era t -> era t' -> t + 2 * totpStep <= t' -> current_counter t + 2 <= current_counter t'.
Proof.
  intros Ht%era_Unix Ht'%era_Unix Hle. rewrite !current_counter_exact by lia. unfold totpStep in Hle.
  assert (Hu : Unix t + 2 * 30 <= Unix t').
  { unfold Unix. pose proof (Z.div_le_mono _ _ Second ltac:(done) Hle) as Hd.
    replace (t + 2 * (30 * Second)) with (t + 60 * Second) in Hd by lia. rewrite Z.div_add in Hd by done. lia. }
  pose proof (Z.div_le_mono _ _ 30 ltac:(lia) Hu) as Hd. rewrite Z.div_add in Hd by lia. lia.
Qed.

Definition wait (d : N) (w : World) : World := happens (Passes d) w.

(** The code a device shows. *)
Definition shows (secret : list Z) (t : Time) : string := totpCode secret (current_counter t).

(** A device that can authorise once it is old enough. *)
Definition enrolled (w : World) (h : nat) (key : string) (f : factor) : Prop :=
  (exists s, secrets w !! factorSecretName key = Some s /\ SName s = factorSecretName key /\ Factor (SData s) = Some f) /\
  Marshal f = Some f /\ State f = factorStateActive /\ limiter_of w h !! key = None.

Lemma alone_confirmed (w : World) (h : nat) (c : Claims) (key : string) (v : nat) (secret : list Z) (created : Time) :
  userKey (Some c) = Some key ->
  secrets w !! factorSecretName key =
    Some (mkSecret (factorSecretName key) v v factor_labels (mkData (Some (pending_factor c secret created)) "" "" "")) ->
  clock w - created <= pendingTTL -> four_digits created = true -> four_digits (clock w) = true -> 0 < current_counter (clock w) ->
  exists w' codes since eligible f,
    alone (ConfirmHandler h (Some c) (Some (shows secret (clock w)))) w = (w', (200, ConfirmBody codes since eligible)) /\
    length codes = recoveryCodeCount /\ enrolled w' h key f /\ Secret f = secret /\ EnrolledAt f = clock w /\
    LastCounter f <= current_counter (clock w) + 1 /\ clock w' = clock w.
Proof.
  intros Hkey Hs Hage Hy Hy' Hcounter. unfold ConfirmHandler. rewrite Hkey.
  pose proof (totpCode_nonempty secret (current_counter (clock w))) as Hne.
  destruct (alone_confirm (set_locks ({[ (h, key) ]} ∪ locks w) w) h c (email_of (Some c)) key v secret created Hs Hage Hy Hy' Hcounter)
    as (w' & codes & f & s' & He & Hlen & Hs' & Hname & Hf & Hm & Ha & Hsecret & Hat & Hlast & Hclock & _ & Hlim).
  change (clock (set_locks _ w)) with (clock w) in *. fold (shows secret (clock w)) in Hne, He.
  destruct (shows secret (clock w)) as [|ch rest]; [by destruct (Hne eq_refl)|].
  rewrite alone_locked, He. cbn [fst snd]. eexists _, codes, _, _, f. split; [reflexivity|]. split; [exact Hlen|].
  split; [|by split_and!]. split; [by exists s'|]. by split_and!.
Qed.

(** An active device authorises once it is old enough and shows a newer code. *)
Lemma alone_authorised (w : World) (h : nat) (c : Claims) (key operation : string) (f : factor) :
  userKey (Some c) = Some key -> enrolled w h key f -> EnrolledAt f + MinFactorAge <= clock w -> LastCounter f < current_counter (clock w) ->
  (alone (VerifyStepUp h (Some c) (shows (Secret f) (clock w)) operation) w).2 = None.
Proof.
  intros Hkey ((s & Hs & Hname & Hf) & Hm & Ha & Hlim) Hage Hc. unfold VerifyStepUp. rewrite Hkey.
  rewrite (proj2 (String.eqb_neq (shows _ _) "")) by apply totpCode_nonempty. rewrite alone_locked. cbn [snd].
  apply (alone_step_up 2 (set_locks _ w) h _ key _ operation s f); try done.
  split; [done|]. split; [done|]. split; [|by apply matchCode_shown].
  rewrite counted_none by done. unfold rateLimitMax. simpl. lia.
Qed.

(** C36: a device that is enrolled as intended works. An operator issues a code;
    the user enrols with it, spaces around it or not, within its fifteen minutes
    (less the second its expiry is rounded to), confirms within fifteen minutes
    with the code the new device shows, and gets eight recovery codes; once the
    required age has passed, and at least two steps, the code the device shows
    authorises an operation. *)
Theorem enrolled_device_authorises (w : World) (h : nat) (c : Claims) (key operation : string) (d1 d2 d3 : N)
    (Hkey : userKey (Some c) = Some key)
    (Hlayout : ParseTime (FormatTime (Add (clock w) BootstrapTTL)) = Some (Add (clock w) BootstrapTTL / Second * Second))
    (Hnew : secrets w !! factorSecretName key = None) (Hnocode : secrets w !! SecretName (Email c) = None)
    (Hquiet : limiter_of w h = ∅) (Hlocks : locks w = ∅)
    (Hera : era (clock w)) (Hera' : era (clock w + Z.of_N d1 + Z.of_N d2 + Z.of_N d3 + BootstrapTTL))
    (Hd1 : Z.of_N d1 <= BootstrapTTL - Second) (Hd2 : Z.of_N d2 <= pendingTTL)
    (Hd3 : MinFactorAge <= Z.of_N d3) (Hsteps : 2 * totpStep <= Z.of_N d3) :
  exists w1 code, alone (runTwofaBootstrap (Email c)) w = (w1, Ok code) /\
    forall presented, TrimSpace presented = code ->
    exists w2 secret uri, alone (EnrollHandler h (Some c) (Some presented)) (wait d1 w1) = (w2, (200, EnrollBody uri (base32_encode secret))) /\
    exists w3 codes since eligible,
      alone (ConfirmHandler h (Some c) (Some (shows secret (clock (wait d2 w2))))) (wait d2 w2) = (w3, (200, ConfirmBody codes since eligible)) /\
      length codes = recoveryCodeCount /\
      (alone (VerifyStepUp h (Some c) (shows secret (clock (wait d3 w3))) operation) (wait d3 w3)).2 = None.
Proof.
  destruct (alone_bootstrap w (Email c) Hnocode) as (w1 & code & Hboot & Hcode & Hsec1 & Hc1 & Hl1 & Hk1).
  exists w1, code. split; [done|]. intros presented Hpresented.
  assert (Hbig : forall d, 0 <= d <= Z.of_N d1 + Z.of_N d2 + Z.of_N d3 -> era (clock w + d)).
  { intros d Hd. unfold era in *. unfold BootstrapTTL, Minute, Second in *. lia. }
  assert (Hera1 : era (clock (wait d1 w1))) by (cbn; rewrite Hc1; apply Hbig; lia).
  assert (Hlim : forall k, limiter_of (wait d1 w1) h !! k = None) by (intros k; unfold limiter_of; cbn; rewrite Hl1; fold (limiter_of w h); by rewrite Hquiet).
  destruct (alone_enrol (wait d1 w1) h c key presented (bootstrap_secret w (Email c) code) (Add (clock w) BootstrapTTL / Second * Second))
    as (w2 & secret & uri & Henrol & (v & Hs2) & Hc2 & Hk2 & Hl2).
  { done. }
  { cbn. rewrite Hsec1, lookup_insert_ne by (symmetry; by eapply names_differ). done. }
  { cbn. by rewrite Hsec1, lookup_insert_eq. }
  { by rewrite Hpresented. }
  { by rewrite Hpresented. }
  { exact Hlayout. }
  { cbn. rewrite Hc1. unfold Add, BootstrapTTL, Minute, Second in *.
    pose proof (Z.div_mod (clock w + 15 * (60 * 1000000000)) 1000000000 ltac:(lia)).
    pose proof (Z.mod_pos_bound (clock w + 15 * (60 * 1000000000)) 1000000000 ltac:(lia)). lia. }
  { by apply era_year. }
  { rewrite counted_none by done. unfold rateLimitMax. simpl. lia. }
  exists w2, secret, uri. split; [done|].
  assert (Hera2 : era (clock (wait d2 w2))) by (cbn; rewrite Hc2; cbn; rewrite Hc1; rewrite <- Z.add_assoc; apply Hbig; lia).
  destruct (alone_confirmed (wait d2 w2) h c key v secret (clock (wait d1 w1)) Hkey) as
    (w3 & codes & since & eligible & f & Hconfirm & Hlen & Henrolled & <- & Hat & Hlast & Hc3);
    [exact Hs2|cbn; rewrite Hc2; cbn; lia|by apply era_year|by apply era_year|by apply era_counter|].
  exists w3, codes, since, eligible. split; [exact Hconfirm|]. split; [exact Hlen|].
  assert (Hnow : clock (wait d3 w3) = clock (wait d2 w2) + Z.of_N d3) by (cbn; by rewrite Hc3).
  apply (alone_authorised (wait d3 w3) h c key operation f Hkey Henrolled); rewrite Hnow; [rewrite Hat; lia|].
  apply (Z.le_lt_trans _ _ _ Hlast). apply Z.lt_le_trans with (current_counter (clock (wait d2 w2)) + 2); [lia|].
  apply current_counter_later; [exact Hera2| |lia].
  cbn. rewrite Hc2. cbn. rewrite Hc1, <- !Z.add_assoc. apply Hbig. lia.
Qed.
End Alone.

(** A host that sets the age to 106752 days. *)
Definition huge_age : Platform := {|
  api_text := api_text; corrupt_text := corrupt_text; marshal_text := marshal_text; random_text := random_text;
  ParseTime := ParseTime; FormatTime := FormatTime; FormatLong := FormatLong; hash_password := hash_password;
  CompareHashAndPassword := CompareHashAndPassword; HIssuer := HIssuer; minAgeDays := " 106752" |}.

Lemma min_age_exact_witness :
  @MinFactorAge demo_platform = 7 * Day /\ @MinFactorAge huge_age < 0 /\ Before noon (Add noon (@MinFactorAge huge_age)) = false.
Proof.
  destruct (@min_age_exact demo_platform) as (Hunset & _). split.
  { apply Hunset. intros days Hd. vm_compute in Hd. discriminate Hd. }
  destruct (@min_age_exact huge_age) as (_ & _ & Hwrapped). destruct Hwrapped as [Hneg Hopen]; [vm_compute; reflexivity|].
  split; [exact Hneg|exact (Hopen noon)].
Defined.

(** A factor Alice confirmed eight days ago. *)
Definition demo_factor : factor :=
  mkFactor factorStateActive demo_secret (Issuer alice) (Subject alice) (Email alice) noon noon 0 [].

Definition demo_stored : KSecret :=
  mkSecret (factorSecretName demo_key) 0 0 factor_labels (mkData (Some demo_factor) "" "" "").

Definition demo_world : World := put demo_stored (empty_world later).

Lemma step_up_exact_witness :
  stepped demo_world 0 demo_key (shown later) demo_stored demo_factor
    (Calls.alone (handle demo_entropy) Fine (VerifyStepUp 0 (Some alice) (shown later) "migration") demo_world) /\
  (Calls.alone (handle demo_entropy) Fine (VerifyStepUp 0 (Some alice) (shown later) "migration") demo_world).2 = None.
Proof.
  split; [|vm_compute; reflexivity].
  apply (step_up_exact demo_entropy demo_world 0 (Some alice) demo_key (shown later) "migration" demo_stored demo_factor);
    [exact demo_userKey|vm_compute; discriminate|vm_compute; reflexivity..|].
  vm_compute. discriminate.
Defined.

Lemma enrolled_device_authorises_witness :
  exists w1 code, Calls.alone (handle demo_entropy) Fine (runTwofaBootstrap "alice@example.com") (empty_world noon) = (w1, Ok code) /\
    forall presented, TrimSpace presented = code -> exists w2 uri secret,
      Calls.alone (handle demo_entropy) Fine (EnrollHandler 0 (Some alice) (Some presented)) (wait 60 w1) = (w2, (200%Z, EnrollBody uri secret)).
Proof.
  destruct (enrolled_device_authorises demo_entropy (empty_world noon) 0 alice demo_key "migration" 60 60 (Z.to_N (8 * Day)))
    as (w1 & code & Hboot & Hrest); [exact demo_userKey|vm_compute; reflexivity..|vm_compute; split; [discriminate|reflexivity]| | | | | |].
  1: vm_compute; split; [discriminate|reflexivity].
  1-4: vm_compute; discriminate.
  exists w1, code. split; [exact Hboot|]. intros presented Hp.
  destruct (Hrest presented Hp) as (w2 & secret & uri & He & _). exists w2, uri, (base32_encode secret). exact He.
Defined.
