(* ===== verification/RouteNames.v ===== *)
(** * Route names
    ([src/controller/pkg/routename/routename.go] and
    [src/console-api/controllers/route_name_{claim,plan}.go])

    Traefik files backends under a key made of namespace and service; two that
    make the same key take each other's traffic. A claim per key says which
    namespace holds it, who shares it, and the spans in which the holder alone
    produced it. One pass plans every claim from one snapshot of the cluster. *)

From Stdlib Require Import Ascii.
From stdpp Require Import base tactics numbers countable list option strings gmap sorting.
From S2P Require Import Prelude GoStd Sha256.

Local Open Scope string_scope.

(** ** Keys. *)

(** A letter or a digit, on ASCII text. *)
Definition is_name_char (c : ascii) : bool := is_digit c || is_lower c || is_upper c.

Fixpoint fields (cur s : string) : list string :=
  match s with
  | EmptyString => if cur =? "" then [] else [cur]
  | String c rest =>
      if is_name_char c then fields (cur ++ String c "") rest
      else if cur =? "" then fields "" rest else (cur :: fields "" rest)%list
  end.

(** [strings.FieldsFunc] on what is neither letter nor digit. *)
Definition FieldsFunc (s : string) : list string := fields "" s.

Definition Key (namespace service : string) : string := Join (FieldsFunc (namespace ++ "-" ++ service)) "-".

Record PlatformRoute := mkRoute { PRNamespace : string; PRService : string; PRPort : Z }.

Definition KEDAInterceptor : PlatformRoute := mkRoute "keda" "keda-add-ons-http-interceptor-proxy" 8080.

Definition PlatformRoutes : list PlatformRoute :=
  [mkRoute "kipper-system" "console" 80; mkRoute "kipper-system" "console-api" 8080; mkRoute "dex" "dex" 5556;
   mkRoute "monitoring" "kube-prometheus-stack-grafana" 80; KEDAInterceptor;
   mkRoute "kipper-ai" "librechat-librechat" 3080; mkRoute "kipper-ai" "anythingllm" 3001].

Definition Platform (key : string) : option PlatformRoute :=
  List.find (fun r => Key (PRNamespace r) (PRService r) =? key) PlatformRoutes.

Definition CollidesWithPlatform (namespace service : string) (port : Z) : bool :=
  match Platform (Key namespace service) with Some r => (PRPort r =? port)%Z | None => false end.

Record Backend := mkBackend { BNamespace : string; BService : string; BPort : Z; BPortName : string }.

#[export] Instance Backend_eq_dec : EqDecision Backend.
Proof. solve_decision. Defined.

Definition backend_key (b : Backend) : string := Key (BNamespace b) (BService b).

(** The Service of a backend with its port, [None] for a backend without. *)
Record IngressService := mkService { ISName : string; PortNumber : Z; PortName : string }.

(** A rule without HTTP has no paths. *)
Record Ingress := mkIngress {
  IName : string; INamespace : string; ICreated : Time;
  DefaultBackend : option (option IngressService); Rules : list (list (option IngressService))
}.

Definition backend_of (namespace : string) (b : option IngressService) : option Backend :=
  match b with
  | None => None
  | Some s =>
      if (PortNumber s =? 0)%Z && (PortName s =? "") then None
      else Some (mkBackend namespace (ISName s) (PortNumber s) (if (PortNumber s =? 0)%Z then PortName s else ""))
  end.

(** The distinct ones, in the order they first appear. *)
Definition add_backend (out : list Backend) (b : option Backend) : list Backend :=
  match b with Some b => if bool_decide (b ∈ out) then out else (out ++ [b])%list | None => out end.

Definition Backends (ing : Ingress) : list Backend :=
  foldl (fun out b => add_backend out (backend_of (INamespace ing) b)) []
    (default [] ((fun b => [b]) <$> DefaultBackend ing) ++ concat (Rules ing))%list.

(** ** Claims. *)

Definition routeNameClaimPrefix : string := "route-name-".

Definition routeNameClaimName (key : string) : string :=
  routeNameClaimPrefix ++ str_take 48 (hex_encode (Sum256 key)).

Definition attributionRetention : Duration := 73 * Hour.

Definition maxAttributionIntervals : nat := 50.

Record interval := mkInterval { From : Time; To : option Time; IGeneration : string }.

#[export] Instance interval_eq_dec : EqDecision interval.
Proof. solve_decision. Defined.

Abbreviation Strmap := (@gmap string String.eq_dec String.countable).

(** [configMap] is the object a claim was read from: its uid and the number of
    its revision. *)
Record claim := mkClaim {
  CKey : string; CNamespace : string; CUID : string; Shared : list string; SharedUIDs : Strmap string;
  Occupied : bool; Intervals : list interval; configMap : option (nat * nat)
}.

#[export] Instance claim_eq_dec : EqDecision claim.
Proof. solve_decision. Defined.

(** A fresh claim over the object of an old one. *)
Definition new_claim (key namespace uid : string) (cm : option (nat * nat)) : claim :=
  mkClaim key namespace uid [] ∅ false [] cm.

Definition set_holder (namespace uid : string) (c : claim) : claim :=
  mkClaim (CKey c) namespace uid (Shared c) (SharedUIDs c) (Occupied c) [] (configMap c).

Definition set_shared (names : list string) (uids : Strmap string) (c : claim) : claim :=
  mkClaim (CKey c) (CNamespace c) (CUID c) names uids (Occupied c) (Intervals c) (configMap c).

Definition set_occupied (c : claim) : claim :=
  mkClaim (CKey c) (CNamespace c) (CUID c) (Shared c) (SharedUIDs c) true (Intervals c) (configMap c).

Definition set_intervals (l : list interval) (c : claim) : claim :=
  mkClaim (CKey c) (CNamespace c) (CUID c) (Shared c) (SharedUIDs c) (Occupied c) l (configMap c).

(** [uids[n]], empty where there is none. *)
Definition uid_of (uids : Strmap string) (n : string) : string := default "" (uids !! n).

Definition setShared (names : list string) (uids : Strmap string) (c : claim) : claim :=
  let names := Compact (Strings names) in
  set_shared names (list_to_map (map (fun n => (n, uid_of uids n)) names)) c.

Definition contains (l : list string) (v : string) : bool := bool_decide (v ∈ l).

Definition sharedBy (c : claim) (namespace uid : string) : bool :=
  contains (Shared c) namespace && negb (uid =? "") && (uid_of (SharedUIDs c) namespace =? uid).

Definition outlived (now : Time) (iv : interval) : bool :=
  match To iv with
  | Some t => negb (After t (From iv)) || Before t (Add now (- attributionRetention))
  | None => false
  end.

Definition pruneIntervals (l : list interval) (now : Time) : list interval :=
  let out := filter (fun iv => Is_true (negb (outlived now iv))) l in
  drop (length out - maxAttributionIntervals) out.

(** ** Helpers of the plan. *)

Definition routeNameReloadLag : Duration := 30 * Second.

Record producer := mkProducer { PNamespace : string; PService : string; PPort : Z; Created : Time }.

Definition producer_key (p : producer) : string := Key (PNamespace p) (PService p).

Record snapshot := mkSnapshot {
  Now : Time; Generation : string; Bootstrap : bool; Heartbeat : Time; Suspended : bool; SuspendedAt : Time;
  Producers : list producer; Claims : Strmap claim; Namespaces : Strmap string; Workloads : Strmap (gset string);
  Unreadable : list string
}.

Definition note_producer (m : Strmap Time) (p : producer) : Strmap Time :=
  match m !! PNamespace p with
  | Some t => if Before (Created p) t then <[PNamespace p := Created p]> m else m
  | None => <[PNamespace p := Created p]> m
  end.

Definition earliestByNamespace (producers : list producer) : Strmap Time := foldl note_producer ∅ producers.

(** One turn of a loop over the map, in whatever order it comes. *)
Definition older (best : string * Time) (entry : string * Time) : string * Time :=
  if (best.1 =? "") || Before entry.2 best.2 || ((entry.2 =? best.2)%Z && String.ltb entry.1 best.1)
  then entry else best.

Definition oldestNamespace (earliest : Strmap Time) : string :=
  (foldl older ("", zero_time) (map_to_list earliest)).1.

Definition namespacesExcept (earliest : Strmap Time) (except : string) : list string :=
  Strings (filter (fun ns => ns <> except) (elements (dom earliest))).

Definition sooner (found : option Time) (at_ : option Time) : option Time :=
  match at_, found with
  | Some t, None => Some t
  | Some t, Some u => if Before t u then Some t else Some u
  | None, _ => found
  end.

Definition earliestOf (earliest : Strmap Time) (namespaces : list string) : option Time :=
  foldl (fun found ns => sooner found (earliest !! ns)) None namespaces.

Definition pick (earliest : Strmap Time) (namespaces : list string) : Strmap Time :=
  filter (fun e => e.1 ∈ namespaces) earliest.

Definition unionSorted (a b : list string) : list string := Strings (elements (list_to_set (a ++ b) : gset string)).

Definition is_open (iv : interval) : bool := bool_decide (To iv = None).

Fixpoint openIntervalIndex (l : list interval) : option nat :=
  match l with
  | [] => None
  | iv :: rest => if is_open iv then Some O else S <$> openIntervalIndex rest
  end.

Definition close_at (t : Time) (iv : interval) : interval :=
  mkInterval (From iv) (Some (if Before t (From iv) then From iv else t)) (IGeneration iv).

Definition closeOpenInterval (t : Time) (c : claim) : claim :=
  match openIntervalIndex (Intervals c) with
  | Some i => set_intervals (alter (close_at t) i (Intervals c)) c
  | None => c
  end.

Definition claimExpired (c : claim) (now : Time) : bool :=
  forallb (fun iv => match To iv with Some t => Before t (Add now (- attributionRetention)) | None => false end) (Intervals c).

(** [sameRouteNameClaim]: the maps of sharers count only where there are any. *)
Definition sameRouteNameClaim (a b : claim) : bool :=
  (CKey a =? CKey b) && (CNamespace a =? CNamespace b) && (CUID a =? CUID b) &&
  bool_decide (Shared a = Shared b) && (bool_decide (Shared a = []) || bool_decide (SharedUIDs a = SharedUIDs b)) &&
  Bool.eqb (Occupied a) (Occupied b) && bool_decide (Intervals a = Intervals b).

(** ** The plan. *)

Section Planning.
Variable s : snapshot.

Definition ns_uid (ns : string) : string := uid_of (Namespaces s) ns.

Definition boundedClose (t : Time) : Time :=
  if Suspended s && negb (IsZero (SuspendedAt s)) && Before (SuspendedAt s) t then SuspendedAt s else t.

Definition canPublish (namespace key : string) : bool :=
  existsb (fun name => Key namespace name =? key) (elements (default ∅ (Workloads s !! namespace))).

(** Whether the loop meets two services in turn that differ. *)
Fixpoint several (key namespace seen : string) (l : list producer) : bool :=
  match l with
  | [] => false
  | p :: rest =>
      if negb (PNamespace p =? namespace) || negb (producer_key p =? key) then several key namespace seen rest
      else if negb (seen =? "") && negb (PService p =? seen) then true
      else several key namespace (PService p) rest
  end.

Definition severalServices (key namespace : string) : bool := several key namespace "" (Producers s).

Definition validSharers (c : claim) : list string :=
  filter (fun ns => Is_true (sharedBy c ns (ns_uid ns))) (Shared c).

Definition withInterval (c : claim) (earliest : Strmap Time) (justLeftShared : bool) : claim :=
  let canOpen := negb (Suspended s) && bool_decide (Shared c = []) && negb (Occupied c) &&
                 bool_decide (is_Some (earliest !! CNamespace c)) && negb (severalServices (CKey c) (CNamespace c)) in
  match openIntervalIndex (Intervals c) with
  | None =>
      if canOpen then
        let from := if justLeftShared then Add (Now s) routeNameReloadLag else Now s in
        set_intervals (Intervals c ++ [mkInterval from None (Generation s)])%list c
      else c
  | Some _ => if canOpen then c else closeOpenInterval (boundedClose (Now s)) c
  end.

Definition resolveShared (c : claim) (key : string) (earliest : Strmap Time) : claim * bool :=
  let recorded := if (ns_uid (CNamespace c) =? CUID c) && negb (CUID c =? "") then [CNamespace c] else [] in
  let candidates := unionSorted (recorded ++ validSharers c)%list (namespacesExcept earliest "") in
  let remaining := filter (fun ns => Is_true (bool_decide (is_Some (earliest !! ns)) || canPublish ns key)) candidates in
  match remaining with
  | [] => (setShared [] ∅ c, true)
  | [ns] =>
      let c := if negb (ns =? CNamespace c) || negb (ns_uid ns =? CUID c) then set_holder ns (ns_uid ns) c else c in
      (setShared [] ∅ c, true)
  | first :: _ =>
      let c :=
        if contains remaining (CNamespace c) then c
        else let oldest := oldestNamespace (pick earliest remaining) in
             let holder := if oldest =? "" then first else oldest in
             set_holder holder (ns_uid holder) c in
      let holder := CNamespace c in
      let c := if negb (ns_uid holder =? CUID c) then set_holder holder (ns_uid holder) c else c in
      (setShared (filter (fun ns => ns <> holder) remaining) (Namespaces s) c, false)
  end.

Definition planOccupied (key : string) (old : option claim) (tenant : list producer) : option claim :=
  match tenant with
  | [] => None
  | _ =>
      let earliest := earliestByNamespace tenant in
      let holder := oldestNamespace earliest in
      let c := match old with
               | Some c => if negb (CNamespace c =? holder) || negb (CUID c =? ns_uid holder)
                           then new_claim key holder (ns_uid holder) (configMap c) else c
               | None => new_claim key holder (ns_uid holder) None
               end in
      Some (closeOpenInterval (Now s) (setShared (namespacesExcept earliest holder) (Namespaces s) (set_occupied c)))
  end.

Definition holder_live (c : claim) : bool :=
  negb (CNamespace c =? "") && negb (CUID c =? "") && (ns_uid (CNamespace c) =? CUID c).

(** The holder's namespace is gone and the key is not shared, or there is no
    claim. *)
Definition plan_free (key : string) (old : option claim) (earliest : Strmap Time) : option claim :=
  if bool_decide (earliest = ∅) then
    match old with
    | None => None
    | Some c => if claimExpired c (Now s) then None else Some (closeOpenInterval (Now s) c)
    end
  else
    let holder := oldestNamespace earliest in
    let c := new_claim key holder (ns_uid holder) (old ≫= configMap) in
    Some (withInterval (setShared (namespacesExcept earliest holder) (Namespaces s) c) earliest false).

(** The holder is there. *)
Definition plan_held (key : string) (c : claim) (earliest : Strmap Time) : option claim :=
  if bool_decide (earliest = ∅) && bool_decide (Shared c = []) && negb (canPublish (CNamespace c) key) && claimExpired c (Now s)
  then None
  else
    let others := namespacesExcept earliest (CNamespace c) in
    if Bootstrap s then
      let beat := if IsZero (Heartbeat s) || After (Heartbeat s) (Now s) then Now s else Heartbeat s in
      let closeAt := match earliestOf earliest others with
                     | Some t => if Before t beat then t else beat
                     | None => beat
                     end in
      let c := closeOpenInterval (boundedClose closeAt) c in
      if bool_decide (Shared c <> []) || bool_decide (others <> []) then
        let '(c, justLeftShared) := resolveShared c key earliest in Some (withInterval c earliest justLeftShared)
      else Some (withInterval c earliest false)
    else if bool_decide (others <> []) then
      let first := default zero_time (earliestOf earliest others) in
      let at_ := if After first (Now s) then Now s else first in
      let c := closeOpenInterval (boundedClose at_) c in
      Some (withInterval (setShared (unionSorted (validSharers c) others) (Namespaces s) c) earliest false)
    else Some (withInterval c earliest false).

(** [None] where the key needs no claim. *)
Definition planKey (key : string) (old : option claim) (producers : list producer) : option claim :=
  match Platform key with
  | Some platform =>
      planOccupied key old (filter (fun p => PNamespace p <> PRNamespace platform) producers)
  | None =>
      let earliest := earliestByNamespace producers in
      match old with
      | Some c =>
          if holder_live c then plan_held key c earliest
          else if bool_decide (Shared c <> []) then
            if negb (Bootstrap s) then Some c
            else let '(c, justLeftShared) := resolveShared c key earliest in Some (withInterval c earliest justLeftShared)
          else plan_free key old earliest
      | None => plan_free key old earliest
      end
  end.

Record plan := mkPlan { Write : list claim; Delete : list string }.

Definition producers_of (key : string) : list producer := filter (fun p => producer_key p = key) (Producers s).

Definition plan_key (p : plan) (key : string) : plan :=
  if contains (Unreadable s) key then p
  else
    let old := Claims s !! key in
    match planKey key old (producers_of key) with
    | None => match old with Some _ => mkPlan (Write p) (Delete p ++ [key]) | None => p end
    | Some next =>
        let next := set_intervals (pruneIntervals (Intervals next) (Now s)) next in
        if match old with Some c => sameRouteNameClaim c next | None => false end then p
        else mkPlan (Write p ++ [next]) (Delete p)
    end.

Definition planned_keys : list string :=
  Strings (elements (list_to_set (map producer_key (Producers s)) ∪ dom (Claims s) : gset string)).

Definition planRouteNames : plan := foldl plan_key (mkPlan [] []) planned_keys.
End Planning.
