(* ===== verification/RouteNamesProps.v ===== *)
(** * What the plan of route names keeps

    The order in which producers are listed does not matter; spans are orderly;
    a span is attributed to a namespace only while passes saw it alone; a live
    holder is not displaced between generations. *)

From Stdlib Require Import Ascii.
From stdpp Require Import base tactics numbers countable list option strings gmap sorting.
From S2P Require Import Prelude GoStd Sha256 RouteNames.

(** ** Spans. *)

(** The open span of a list ended at a time. *)
Definition finish (t : Time) (l : list interval) : list interval :=
  match openIntervalIndex l with Some i => alter (close_at t) i l | None => l end.

Definition closed (iv : interval) : Prop := is_Some (To iv).

(** Each one but the last has ended, before the next began; those that ended
    did so by [now]. *)
Definition precedes (a b : interval) : Prop := exists t, To a = Some t /\ From a < t /\ t <= From b.

Definition orderly (now : Time) (l : list interval) : Prop :=
  StronglySorted precedes l /\ Forall (fun iv => forall t, To iv = Some t -> From iv < t <= now) l.

(** The same before empty spans are dropped. *)
Definition leads (a b : interval) : Prop := exists t, To a = Some t /\ (From a < t -> t <= From b).

Definition loose (now : Time) (l : list interval) : Prop :=
  StronglySorted leads l /\ Forall (fun iv => forall t, To iv = Some t -> From iv < t -> t <= now) l.

Lemma closeOpenInterval_finish (t : Time) (c : claim) : closeOpenInterval t c = set_intervals (finish t (Intervals c)) c.
Proof. unfold closeOpenInterval, finish. destruct (openIntervalIndex _); [done|]. by destruct c. Qed.

Lemma openIntervalIndex_None (l : list interval) : openIntervalIndex l = None <-> Forall closed l.
Proof.
  induction l as [|iv l IH]; [done|]. simpl. rewrite Forall_cons, <- IH. unfold is_open, closed.
  destruct (To iv) as [t|] eqn:Ht; simpl.
  - destruct (openIntervalIndex l); naive_solver.
  - split; [done|]. by intros [[? ?] _].
Qed.

Lemma openIntervalIndex_Some (l : list interval) (i : nat) :
  openIntervalIndex l = Some i -> exists l1 iv l2, l = (l1 ++ iv :: l2)%list /\ length l1 = i /\ To iv = None /\ Forall closed l1.
Proof.
  revert i. induction l as [|iv l IH]; intros i; [done|]. simpl. unfold is_open. destruct (To iv) as [t|] eqn:Ht; simpl.
  - destruct (openIntervalIndex l) as [j|]; [|done]. intros [= <-]. destruct (IH j eq_refl) as (l1 & x & l2 & -> & Hl & Hx & Hc).
    exists (iv :: l1), x, l2. split_and!; [done|simpl; by rewrite Hl|done|]. constructor; [by exists t|done].
  - intros [= <-]. by exists [], iv, l.
Qed.

(** At most the last span is open. *)
Definition settled (l : list interval) : Prop :=
  Forall closed l \/ exists l1 iv, l = (l1 ++ [iv])%list /\ To iv = None /\ Forall closed l1.

(** In an orderly list the open span, if any, is the last one. *)
Lemma orderly_cases (now : Time) (l : list interval) :
  orderly now l -> settled l.
Proof.
  intros [Hs _]. destruct (openIntervalIndex l) as [i|] eqn:Hi; [|left; by apply openIntervalIndex_None].
  right. apply openIntervalIndex_Some in Hi as (l1 & iv & l2 & -> & _ & Hiv & Hc). exists l1, iv.
  destruct l2 as [|b l2]; [done|]. apply StronglySorted_app_1_r in Hs. inversion_clear Hs as [|? ? _ Hall].
  apply Forall_inv in Hall as (t & Ht & _). congruence.
Qed.

Lemma finish_closed (t : Time) (l : list interval) : Forall closed l -> finish t l = l.
Proof. intros Hc. unfold finish. by rewrite (proj2 (openIntervalIndex_None l) Hc). Qed.

Lemma openIntervalIndex_snoc (l1 : list interval) (iv : interval) :
  Forall closed l1 -> To iv = None -> openIntervalIndex (l1 ++ [iv]) = Some (length l1).
Proof.
  intros Hc Hiv. induction Hc as [|a l1 [t Ht] _ IH]; simpl; [unfold is_open; by rewrite Hiv|]. unfold is_open. rewrite Ht. simpl. by rewrite IH.
Qed.

Lemma finish_open (t : Time) (l1 : list interval) (iv : interval) :
  Forall closed l1 -> To iv = None -> finish t (l1 ++ [iv]) = (l1 ++ [close_at t iv])%list.
Proof.
  intros Hc Hiv. unfold finish. rewrite openIntervalIndex_snoc by done. rewrite alter_app_r_alt by done. by rewrite Nat.sub_diag.
Qed.

Lemma finish_settled (t : Time) (l : list interval) : settled l -> Forall closed (finish t l).
Proof.
  intros [Hc|(l1 & iv & -> & Hiv & Hc)]; [by rewrite finish_closed|]. rewrite finish_open by done.
  apply Forall_app. split; [done|]. constructor; [by eexists|done].
Qed.

Lemma Sorted_snoc {A : Type} (R : A -> A -> Prop) (l : list A) (x : A) :
  StronglySorted R (l ++ [x]) <-> StronglySorted R l /\ Forall (fun a => R a x) l.
Proof.
  induction l as [|a l IH]; simpl; [split; [by repeat constructor|intros _; by repeat constructor]|].
  split.
  - intros Hs. inversion_clear Hs as [|? ? Hs' Hall]. apply IH in Hs' as [Hs' Hx]. apply Forall_app in Hall as [Hall Hax].
    split; [by constructor|]. constructor; [by apply Forall_inv in Hax|done].
  - intros [Hs Hx]. inversion_clear Hs as [|? ? Hs' Hall]. apply Forall_cons in Hx as [Hax Hx].
    constructor; [by apply IH|]. apply Forall_app. by repeat constructor.
Qed.

Lemma leads_precedes (l : list interval) : StronglySorted precedes l -> StronglySorted leads l.
Proof. induction 1 as [|a l _ IH Hall]; constructor; [done|]. eapply Forall_impl; [exact Hall|]. intros b (t & Ht & _ & Hle). by exists t. Qed.

Lemma loose_orderly (n now : Time) (l : list interval) : orderly n l -> n <= now -> loose now l.
Proof.
  intros [Hs Hf] Hle. split; [by apply leads_precedes|]. eapply Forall_impl; [exact Hf|]. intros iv H t Ht _. specialize (H t Ht). lia.
Qed.

Lemma loose_finish (n now t : Time) (l : list interval) :
  orderly n l -> n <= now -> t <= now -> loose now (finish t l) /\ Forall closed (finish t l).
Proof.
  intros Ho Hn Ht. destruct (orderly_cases n l Ho) as [Hc|(l1 & iv & -> & Hiv & Hc)].
  - rewrite finish_closed by done. split; [by eapply loose_orderly|done].
  - rewrite finish_open by done. pose proof (loose_orderly n now _ Ho Hn) as [Hs Hf]. apply Sorted_snoc in Hs as [Hs Hx].
    apply Forall_app in Hf as [Hf _]. split; [split|].
    + apply Sorted_snoc. split; [done|]. exact Hx.
    + apply Forall_app. split; [done|]. constructor; [|done]. intros u. unfold close_at, Before. simpl.
      intros [= <-]. destruct (Z.ltb_spec t (From iv)); lia.
    + apply Forall_app. split; [done|]. constructor; [by eexists|done].
Qed.

Lemma loose_snoc (now : Time) (l : list interval) (new : interval) :
  loose now l -> Forall closed l -> now <= From new -> To new = None -> loose now (l ++ [new]).
Proof.
  intros [Hs Hf] Hc Hnow Hnew. split.
  - apply Sorted_snoc. split; [done|]. rewrite Forall_forall in *. intros a Ha. destruct (Hc a Ha) as [t Ht]. exists t.
    split; [done|]. intros Hlt. specialize (Hf a Ha t Ht Hlt). lia.
  - apply Forall_app. split; [done|]. constructor; [|done]. congruence.
Qed.

Lemma sublist_Sorted {A : Type} (R : A -> A -> Prop) (l k : list A) : sublist l k -> StronglySorted R k -> StronglySorted R l.
Proof.
  induction 1 as [|x l k Hsub IH|x l k Hsub IH]; intros Hs; [done| |]; inversion_clear Hs as [|? ? Hs' Hall]; [|by apply IH].
  constructor; [by apply IH|]. rewrite Forall_forall in *. intros y Hy. apply Hall. by eapply sublist_subseteq.
Qed.

Lemma prune_sublist (l : list interval) (now : Time) : sublist (pruneIntervals l now) (filter (fun iv => Is_true (negb (outlived now iv))) l).
Proof. unfold pruneIntervals. apply sublist_drop. Qed.

Lemma elem_of_prune (l : list interval) (now : Time) (iv : interval) :
  iv ∈ pruneIntervals l now -> iv ∈ l /\ forall t, To iv = Some t -> From iv < t.
Proof.
  intros Hiv. eapply sublist_subseteq in Hiv; [|apply prune_sublist]. apply list_elem_of_filter in Hiv as [Hp Hiv]. split; [done|].
  intros t Ht. unfold outlived in Hp. rewrite Ht in Hp. apply Is_true_true, negb_true_iff, orb_false_iff in Hp as [Hp _].
  unfold After in Hp. apply negb_false_iff, Z.ltb_lt in Hp. done.
Qed.

Lemma precedes_leads (l : list interval) :
  StronglySorted leads l -> Forall (fun iv => forall t, To iv = Some t -> From iv < t) l -> StronglySorted precedes l.
Proof.
  induction 1 as [|a k _ IH Hall]; intros Hne; [constructor|]. apply Forall_cons in Hne as [Ha Hne]. constructor; [by apply IH|].
  eapply Forall_impl; [exact Hall|]. intros b (t & Ht & Hle). exists t. specialize (Ha t Ht). auto.
Qed.

Lemma orderly_prune (now : Time) (l : list interval) : loose now l -> orderly now (pruneIntervals l now).
Proof.
  intros [Hs Hf]. split.
  - apply precedes_leads.
    + eapply sublist_Sorted; [apply prune_sublist|]. exact (sublist_Sorted _ _ _ (sublist_filter _ l) Hs).
    + apply Forall_forall. intros iv Hiv. exact (proj2 (elem_of_prune _ _ _ Hiv)).
  - apply Forall_forall. intros iv Hiv t Ht. destruct (elem_of_prune _ _ _ Hiv) as [Hin Hlt]. specialize (Hlt t Ht).
    rewrite Forall_forall in Hf. specialize (Hf iv Hin t Ht Hlt). lia.
Qed.

(** ** What a pass reads off its producers. *)

Lemma note_producer_lookup (m : Strmap Time) (p : producer) (ns : string) :
  note_producer m p !! ns =
  (if decide (PNamespace p = ns) then Some (match m !! ns with Some t => Z.min (Created p) t | None => Created p end)
   else m !! ns : option Time).
Proof.
  unfold note_producer, Before. destruct (decide (PNamespace p = ns)) as [<-|Hne].
  - destruct (m !! PNamespace p) as [t|] eqn:Ht; [|by rewrite lookup_insert_eq].
    destruct (Z.ltb_spec (Created p) t); [rewrite lookup_insert_eq; f_equal; lia|].
    transitivity (Some t); [exact Ht|]. f_equal. lia.
  - destruct (m !! PNamespace p) as [t|]; [destruct (_ <? _)|]; by rewrite ?lookup_insert_ne.
Qed.

Definition first_seen (l : list producer) (ns : string) (t : Time) : Prop :=
  (exists p, p ∈ l /\ PNamespace p = ns /\ Created p = t) /\ forall p, p ∈ l -> PNamespace p = ns -> t <= Created p.

Lemma earliest_from (l : list producer) (m : Strmap Time) (ns : string) (t : Time) :
  foldl note_producer m l !! ns = Some t <->
  (m !! ns = Some t \/ exists p, p ∈ l /\ PNamespace p = ns /\ Created p = t) /\
  (forall u : Time, m !! ns = Some u -> t <= u) /\ forall p, p ∈ l -> PNamespace p = ns -> t <= Created p.
Proof.
  revert m. induction l as [|p l IH]; intros m; simpl.
  - split; [intros Hm; split; [by left|]; split; [intros u Hu; rewrite Hm in Hu; injection Hu as <-; lia|intros ? Hp; by apply not_elem_of_nil in Hp]|].
    by intros [[Hm|(p & Hp & _)] _]; [|apply not_elem_of_nil in Hp].
  - rewrite IH, note_producer_lookup. setoid_rewrite elem_of_cons. destruct (decide (PNamespace p = ns)) as [Hp|Hp].
    + destruct (m !! ns) as [u|]; (split; [intros (Hex & Hm & Hl)|intros (Hex & Hm & Hl)]).
      * specialize (Hm _ eq_refl). split; [|split; [intros ? [= <-]; lia|intros q [->|Hq] Hn; [lia|by apply Hl]]].
        destruct Hex as [[= Hex]|(q & Hq & Hn)]; [|right; exists q; tauto].
        destruct (Z.min_spec (Created p) u) as [[_ He]|[_ He]]; [right; exists p; split_and!; [by left|done|lia]|left; f_equal; lia].
      * specialize (Hm _ eq_refl). pose proof (Hl p (or_introl eq_refl) Hp). split; [|split; [intros ? [= <-]; lia|intros q Hq Hn; apply Hl; tauto]].
        destruct Hex as [[= ->]|(q & [->|Hq] & Hn & Hc)]; [left; f_equal; lia|left; f_equal; lia|right; by exists q].
      * specialize (Hm _ eq_refl). split; [|split; [done|intros q [->|Hq] Hn; [lia|by apply Hl]]].
        destruct Hex as [[= Hex]|(q & Hq & Hn)]; right; [exists p; tauto|exists q; tauto].
      * pose proof (Hl p (or_introl eq_refl) Hp). split; [|split; [intros ? [= <-]; lia|intros q Hq Hn; apply Hl; tauto]].
        destruct Hex as [?|(q & [->|Hq] & Hn & Hc)]; [done|left; by f_equal|right; by exists q].
    + split; intros (Hex & Hm & Hl); (split; [|split; [done|]]).
      * destruct Hex as [?|(q & ? & ? & ?)]; [by left|right; exists q; tauto].
      * intros q [->|Hq]; [done|by apply Hl].
      * destruct Hex as [?|(q & [->|?] & ? & ?)]; [by left|done|right; by exists q].
      * intros q Hq. apply Hl. by right.
Qed.

Lemma earliest_spec (l : list producer) (ns : string) (t : Time) : earliestByNamespace l !! ns = Some t <-> first_seen l ns t.
Proof.
  unfold earliestByNamespace. rewrite earliest_from, lookup_empty. unfold first_seen.
  split; [intros ([?|?] & _ & ?); [done|by split]|]. intros [? ?]. split_and!; [by right|done|done].
Qed.

Lemma earliest_some (l : list producer) (ns : string) :
  is_Some (earliestByNamespace l !! ns) <-> exists p, p ∈ l /\ PNamespace p = ns.
Proof.
  split.
  - intros [t Ht]. apply earliest_spec in Ht as [(p & Hp & Hn & _) _]. by exists p.
  - revert ns. induction l as [|p l IH] using rev_ind; intros ns (q & Hq & Hn); [by apply not_elem_of_nil in Hq|].
    unfold earliestByNamespace. rewrite foldl_app. simpl. rewrite note_producer_lookup. destruct (decide _); [by eexists|].
    apply IH. exists q. apply elem_of_app in Hq as [Hq|Hq]; [done|]. apply list_elem_of_singleton in Hq. congruence.
Qed.

Lemma earliest_perm (l l' : list producer) : l ≡ₚ l' -> earliestByNamespace l = earliestByNamespace l'.
Proof.
  intros Hp. apply map_eq. intros ns. apply option_eq. intros t. rewrite !earliest_spec. unfold first_seen. by setoid_rewrite Hp.
Qed.

Lemma earliest_empty (l : list producer) : earliestByNamespace l = ∅ <-> l = [].
Proof.
  split; [|by intros ->]. intros He. destruct l as [|p l]; [done|].
  assert (Hs : is_Some (earliestByNamespace (p :: l) !! PNamespace p)) by (apply earliest_some; exists p; by rewrite elem_of_cons; split; [left|]).
  rewrite He, lookup_empty in Hs. by destruct Hs.
Qed.

(** The loop over services meets two that differ when there are two. *)
Definition matching (key ns : string) (p : producer) : Prop := PNamespace p = ns /\ producer_key p = key.

Lemma several_spec (key ns seen : string) (l : list producer) :
  Forall (fun p => PService p <> ""%string) l ->
  several key ns seen l = false <->
  forall p, p ∈ l -> matching key ns p ->
    (seen = ""%string \/ PService p = seen) /\ forall q, q ∈ l -> matching key ns q -> PService q = PService p.
Proof.
  unfold matching. intros Hne. revert seen. induction Hne as [|p l Hp _ IH]; intros seen; simpl.
  { split; [|done]. intros _ p Hp. by apply not_elem_of_nil in Hp. }
  setoid_rewrite elem_of_cons. destruct (String.eqb_spec (PNamespace p) ns) as [Hn|Hn], (String.eqb_spec (producer_key p) key) as [Hk|Hk]; simpl.
  2-4: rewrite IH; split; intros Hall q; [intros [->|Hq] [Hqn Hqk]; [done|destruct (Hall q Hq (conj Hqn Hqk)) as [? Ho]; split; [done|];
       intros r [->|Hr] [Hrn Hrk]; [done|by apply Ho]]|intros Hq Hqm; destruct (Hall q (or_intror Hq) Hqm) as [? Ho]; split; [done|]; intros r Hr; apply Ho; by right].
  assert (Hmp : PNamespace p = ns /\ producer_key p = key) by done.
  destruct (String.eqb_spec seen "") as [->|Hs]; simpl; [|destruct (String.eqb_spec (PService p) seen) as [He|He]; simpl].
  - rewrite IH. split.
    + intros Hall q [->|Hq] Hqm; (split; [by left|]); intros r [->|Hr] Hrm; [done|by destruct (Hall r Hr Hrm) as [[?|?] _]| |].
      * destruct (Hall q Hq Hqm) as [[?|?] _]; [done|by symmetry].
      * by apply (Hall q Hq Hqm).
    + intros Hall q Hq Hqm. destruct (Hall q (or_intror Hq) Hqm) as [_ Ho]. split; [right; symmetry; by apply Ho; [left|]|]. intros r Hr. apply Ho. by right.
  - rewrite IH, He. split.
    + intros Hall q [->|Hq] Hqm.
      * split; [by right|]. intros r [->|Hr] Hrm; [done|]. rewrite He. by destruct (Hall r Hr Hrm) as [[?|?] _].
      * destruct (Hall q Hq Hqm) as [[?|Hqs] Ho]; [done|]. split; [by right|]. intros r [->|Hr] Hrm; [by rewrite Hqs|by apply Ho].
    + intros Hall q Hq Hqm. destruct (Hall q (or_intror Hq) Hqm) as [[?|?] Ho]; [done|]. split; [by right|]. intros r Hr. apply Ho. by right.
  - split; [done|]. intros Hall. by destruct (Hall p (or_introl eq_refl) Hmp) as [[?|?] _].
Qed.

(** ** One pass over one key. *)

(** Alone: the namespace that produces a key, with its uid, no other and by one
    service, while attribution is not suspended. *)
Record alone_in (s : snapshot) (key ns uid : string) : Prop := {
  a_running : Suspended s = false;
  a_uid : ns_uid s ns = uid;
  a_some : exists p, p ∈ Producers s /\ matching key ns p;
  a_only : forall p, p ∈ Producers s -> producer_key p = key -> PNamespace p = ns;
  a_service : forall p q, p ∈ Producers s -> q ∈ Producers s -> matching key ns p -> matching key ns q -> PService p = PService q
}.

Definition named (s : snapshot) : Prop := Forall (fun p => PService p <> ""%string /\ PNamespace p <> ""%string) (Producers s).

Abbreviation earliest_of s key := (earliestByNamespace (producers_of s key)).

Lemma producing (s : snapshot) (key ns : string) :
  is_Some (earliest_of s key !! ns) <-> exists p, p ∈ Producers s /\ matching key ns p.
Proof.
  rewrite earliest_some. unfold producers_of, matching. setoid_rewrite list_elem_of_filter. naive_solver.
Qed.

Lemma alone_intro (s : snapshot) (c : claim) (key : string) :
  named s -> CKey c = key -> CUID c = ns_uid s (CNamespace c) -> Suspended s = false ->
  is_Some (earliest_of s key !! CNamespace c) -> severalServices s (CKey c) (CNamespace c) = false ->
  (forall ns, is_Some (earliest_of s key !! ns) -> ns = CNamespace c) ->
  alone_in s key (CNamespace c) (CUID c).
Proof.
  intros Hn <- -> Hs Hsome Hone Honly. apply producing in Hsome. split; [done|done|done| |].
  - intros p Hp Hk. apply Honly, producing. by exists p.
  - unfold severalServices in Hone. rewrite several_spec in Hone by (eapply Forall_impl; [exact Hn|by intros ? [? _]]).
    intros p q Hp Hq Hmp Hmq. by apply (proj2 (Hone q Hq Hmq)).
Qed.

(** How the spans [l] of a holder change in one pass. *)
Definition evolves (s : snapshot) (key ns uid : string) (l l' : list interval) : Prop :=
  (exists t, t <= Now s /\ l' = finish t l) \/
  (alone_in s key ns uid /\ l' = l) \/
  (alone_in s key ns uid /\ exists t new, t <= Now s /\ l' = (finish t l ++ [new])%list /\ Now s <= From new /\ To new = None).

(** A holder alone. *)
Definition unrivalled (s : snapshot) (key : string) (c : claim) : Prop :=
  is_Some (earliest_of s key !! CNamespace c) -> CUID c = ns_uid s (CNamespace c) /\
  (Shared c = [] -> forall ns, is_Some (earliest_of s key !! ns) -> ns = CNamespace c).

Lemma boundedClose_le (s : snapshot) (t : Time) : boundedClose s t <= t.
Proof. unfold boundedClose, Before. destruct (Suspended s && _) eqn:He; simpl; [|lia]. destruct (Z.ltb_spec (SuspendedAt s) t); lia. Qed.

Lemma withInterval_holder (s : snapshot) (c : claim) e j :
  exists l, withInterval s c e j = set_intervals l c.
Proof.
  unfold withInterval. rewrite closeOpenInterval_finish. destruct (openIntervalIndex _), (_ && _); by (eexists; reflexivity) || (exists (Intervals c); by destruct c).
Qed.

Lemma withInterval_spans (s : snapshot) (key : string) (c : claim) (j : bool) :
  named s -> CKey c = key -> unrivalled s key c -> settled (Intervals c) ->
  let l' := Intervals (withInterval s c (earliest_of s key) j) in
  (Forall closed l' /\ exists t, t <= Now s /\ l' = finish t (Intervals c)) \/
  (Shared c = [] /\ Occupied c = false /\ alone_in s key (CNamespace c) (CUID c) /\
   (l' = Intervals c \/
    (Forall closed (Intervals c) /\ exists new, l' = (Intervals c ++ [new])%list /\ Now s <= From new /\ To new = None))).
Proof.
  intros Hn Hk Hr Hset. unfold withInterval. rewrite closeOpenInterval_finish. set (b := (_ && _)).
  assert (Hb : b = true -> Shared c = [] /\ Occupied c = false /\ alone_in s key (CNamespace c) (CUID c)).
  { subst b. intros H. bool_to_prop. match goal with H : is_Some _ |- _ => destruct (Hr H) as [Hu Ho] end.
    split; [done|]. split; [done|]. apply alone_intro; auto. }
  destruct (openIntervalIndex (Intervals c)) as [i|] eqn:Hi; destruct b; cbn [Intervals set_intervals].
  - right. destruct (Hb eq_refl) as (? & ? & ?). by split_and!; [..|left].
  - left. split; [by apply finish_settled|]. exists (boundedClose s (Now s)). split; [apply boundedClose_le|done].
  - right. destruct (Hb eq_refl) as (? & ? & ?). split_and!; [done..|]. right. apply openIntervalIndex_None in Hi. split; [done|].
    eexists. split; [reflexivity|]. cbn. destruct j; unfold Add, routeNameReloadLag, Second; (split; [lia|done]).
  - left. apply openIntervalIndex_None in Hi. split; [done|]. exists (Now s). split; [lia|]. by rewrite finish_closed.
Qed.

(** What a pass makes of a claim. *)
Record passed (s : snapshot) (key : string) (old : option claim) (next : claim) : Prop := {
  p_key : CKey next = key;
  p_open : ~ Forall closed (Intervals next) -> Shared next = [] /\ Occupied next = false;
  p_spans : exists l, (l = [] \/ exists c, old = Some c /\ CNamespace c = CNamespace next /\ CUID c = CUID next /\ l = Intervals c) /\
              evolves s key (CNamespace next) (CUID next) l (Intervals next)
}.

(** The spans [l'] are [l], or [l] with the open one ended. *)
Definition settles (s : snapshot) (l l' : list interval) : Prop :=
  (l' = l /\ settled l) \/ (Forall closed l' /\ exists t, t <= Now s /\ l' = finish t l).

Lemma settles_settled (s : snapshot) (l l' : list interval) : settles s l l' -> settled l'.
Proof. intros [[-> ?]|[? _]]; [done|by left]. Qed.

Definition from_old (old : option claim) (c : claim) (l : list interval) : Prop :=
  l = [] \/ exists c0, old = Some c0 /\ CNamespace c0 = CNamespace c /\ CUID c0 = CUID c /\ l = Intervals c0.

Lemma passed_withInterval (s : snapshot) (key : string) (old : option claim) (c : claim) (j : bool) (l : list interval) :
  named s -> CKey c = key -> unrivalled s key c -> from_old old c l -> settles s l (Intervals c) ->
  passed s key old (withInterval s c (earliest_of s key) j).
Proof.
  intros Hn Hk Hr Hl Hset. pose proof (withInterval_spans s key c j Hn Hk Hr (settles_settled _ _ _ Hset)) as H.
  destruct (withInterval_holder s c (earliest_of s key) j) as [l' He]. rewrite He in *. cbv zeta in H. cbn [Intervals set_intervals] in H.
  split; [done| |].
  - cbn. intros Ho. destruct H as [[? _]|(? & ? & _)]; [done|by split].
  - exists l. split; [exact Hl|]. cbn. destruct H as [(_ & t & Ht & ->)|(_ & _ & Ha & [->|(Hc & new & -> & Hnew)])].
    + left. destruct Hset as [[-> _]|[Hc (u & Hu & He')]]; [by exists t|exists u; by rewrite finish_closed].
    + destruct Hset as [[-> _]|[_ ?]]; [by right; left|by left].
    + right. right. split; [done|]. destruct Hset as [[<- _]|[_ (u & Hu & ->)]]; [|by exists u, new].
      exists (Now s), new. split; [lia|]. by rewrite finish_closed.
Qed.

(** A claim that is only settled, or whose open span is ended. *)
Lemma passed_settled (s : snapshot) (key : string) (old : option claim) (c : claim) (l : list interval) (t : Time) :
  CKey c = key -> from_old old c l -> settled l -> t <= Now s -> Intervals c = finish t l -> passed s key old c.
Proof.
  intros Hk Hl Hset Ht He. split; [done| |].
  - intros Ho. destruct Ho. rewrite He. by apply finish_settled.
  - exists l. split; [done|]. left. by exists t.
Qed.

(** ** Sharing, resolved. *)

Definition remaining_of (s : snapshot) (c : claim) (key : string) (earliest : Strmap Time) : list string :=
  let recorded := if (ns_uid s (CNamespace c) =? CUID c)%string && negb (CUID c =? "")%string then [CNamespace c] else [] in
  filter (fun ns => Is_true (bool_decide (is_Some (earliest !! ns)) || canPublish s ns key))
    (unionSorted (recorded ++ validSharers s c) (namespacesExcept earliest "")).

Lemma elem_of_unionSorted (a b : list string) (x : string) : x ∈ unionSorted a b <-> x ∈ a \/ x ∈ b.
Proof. unfold unionSorted. rewrite elem_of_Strings, elem_of_elements, elem_of_list_to_set, elem_of_app. done. Qed.

Lemma elem_of_namespacesExcept (e : Strmap Time) (except ns : string) :
  ns ∈ namespacesExcept e except <-> is_Some (e !! ns) /\ ns <> except.
Proof. unfold namespacesExcept. rewrite elem_of_Strings, list_elem_of_filter, elem_of_elements, elem_of_dom. tauto. Qed.

Lemma producing_remains (s : snapshot) (c : claim) (key ns : string) :
  named s -> is_Some (earliest_of s key !! ns) -> ns ∈ remaining_of s c key (earliest_of s key).
Proof.
  intros Hn Hs. unfold remaining_of. rewrite list_elem_of_filter, elem_of_unionSorted, elem_of_namespacesExcept. split.
  - rewrite bool_decide_true by done. done.
  - right. split; [done|]. intros ->. apply producing in Hs as (p & Hp & Hns & _). unfold named in Hn. rewrite Forall_forall in Hn.
    by destruct (Hn p Hp).
Qed.

(** Sharing is kept, or one producer at most is left. *)
Record resolved (s : snapshot) (key : string) (c c' : claim) (left : bool) : Prop := {
  r_key : CKey c' = CKey c;
  r_occupied : Occupied c' = Occupied c;
  r_spans : (CNamespace c' = CNamespace c /\ CUID c' = CUID c /\ Intervals c' = Intervals c) \/ Intervals c' = [];
  r_alone : unrivalled s key c'
}.

Lemma setShared_shared (names : list string) (uids : Strmap string) (c : claim) : Shared (setShared names uids c) = Compact (Strings names).
Proof. done. Qed.

Lemma elem_of_setShared (names : list string) (uids : Strmap string) (c : claim) (x : string) :
  x ∈ Shared (setShared names uids c) <-> x ∈ names.
Proof. rewrite setShared_shared, elem_of_Compact, elem_of_Strings. done. Qed.

Lemma setShared_nonempty (names : list string) (uids : Strmap string) (c : claim) (x : string) :
  x ∈ names -> Shared (setShared names uids c) <> [].
Proof. intros Hx He. rewrite <- (elem_of_setShared names uids c) in Hx. rewrite He in Hx. by apply not_elem_of_nil in Hx. Qed.

Lemma NoDup_remaining (s : snapshot) (c : claim) (key : string) e : NoDup (remaining_of s c key e).
Proof. apply NoDup_filter. unfold unionSorted. rewrite Strings_perm. apply NoDup_elements. Qed.

Lemma two_differ (a b : string) (l : list string) (x : string) : NoDup (a :: b :: l) -> exists y, y ∈ a :: b :: l /\ y <> x.
Proof.
  intros Hnd. apply NoDup_cons in Hnd as [Hab _]. destruct (decide (a = x)) as [->|Ha]; [|exists a; split; [left|done]].
  exists b. split; [right; left|]. intros ->. apply Hab. left.
Qed.

Lemma resolveShared_resolved (s : snapshot) (c : claim) (key : string) :
  named s -> let r := resolveShared s c key (earliest_of s key) in resolved s key c r.1 r.2.
Proof.
  intros Hn. pose proof (producing_remains s c key) as Hin. unfold resolveShared.
  change (filter _ (unionSorted _ _)) with (remaining_of s c key (earliest_of s key)).
  destruct (remaining_of s c key (earliest_of s key)) as [|first [|second rest]] eqn:Hrem; cbv zeta; cbn [fst snd].
  - split; [done|done|by left|]. intros Hs. by apply Hin, not_elem_of_nil in Hs.
  - split; [by destruct (_ || _)|by destruct (_ || _)|destruct (_ || _) eqn:He; [by right|by left]|].
    assert (Hfirst : forall ns, is_Some (earliest_of s key !! ns) -> ns = first) by (intros ns Hs; by apply Hin, list_elem_of_singleton in Hs).
    destruct (_ || _) eqn:He; intros Hs; bool_to_prop.
    + split; [done|]. intros _ ns Hns. by apply Hfirst.
    + subst first. split; [by symmetry|]. intros _ ns Hns. by apply Hfirst.
  - set (c1 := if contains _ (CNamespace c) then c else _).
    assert (Hc1 : CKey c1 = CKey c /\ Occupied c1 = Occupied c /\ (c1 = c \/ Intervals c1 = [])).
    { subst c1. destruct (contains _ _); [by split_and!; [..|left]|by split_and!; [..|right]]. }
    destruct Hc1 as (Hk & Ho & Hspans). set (c2 := if negb _ then _ else c1).
    assert (Hc2 : CKey c2 = CKey c1 /\ Occupied c2 = Occupied c1 /\ CNamespace c2 = CNamespace c1 /\
                  CUID c2 = ns_uid s (CNamespace c1) /\ (c2 = c1 \/ Intervals c2 = [])).
    { subst c2. destruct (String.eqb_spec (ns_uid s (CNamespace c1)) (CUID c1)) as [He|He]; cbn [negb]; split_and!; try done; [by left|by right]. }
    destruct Hc2 as (Hk2 & Ho2 & Hn2 & Hu2 & Hspans2). split; cbn.
    + by rewrite Hk2.
    + by rewrite Ho2.
    + destruct Hspans2 as [->|?]; [|by right]. destruct Hspans as [->|?]; [by left|by right].
    + intros _. split; [cbn; by rewrite Hn2|]. intros Hempty. exfalso.
      destruct (two_differ first second rest (CNamespace c1)) as (ns & Hns & Hne); [rewrite <- Hrem; apply NoDup_remaining|].
      refine (setShared_nonempty (filter (fun n => n <> CNamespace c1) (first :: second :: rest)) (Namespaces s) c2 ns _ Hempty).
      by apply list_elem_of_filter.
Qed.

(** ** Every key. *)

(** What passes keep true of a claim. *)
Record sound_claim (key : string) (c : claim) : Prop := {
  s_key : CKey c = key;
  s_settled : settled (Intervals c);
  s_open : ~ Forall closed (Intervals c) -> Shared c = [] /\ Occupied c = false
}.

Lemma from_old_same (c : claim) : from_old (Some c) c (Intervals c).
Proof. right. by exists c. Qed.

Lemma settles_refl (s : snapshot) (l : list interval) : settled l -> settles s l l.
Proof. by left. Qed.

Lemma settles_finish (s : snapshot) (t : Time) (l : list interval) : settled l -> t <= Now s -> settles s l (finish t l).
Proof. intros Hl Ht. right. split; [by apply finish_settled|by exists t]. Qed.

Lemma Compact_empty (l : list string) : Compact l = [] -> l = [].
Proof. intros He. destruct l as [|a l]; [done|]. assert (Ha : a ∈ Compact (a :: l)) by (apply elem_of_Compact; left). rewrite He in Ha. by apply not_elem_of_nil in Ha. Qed.

Lemma setShared_empty (names : list string) (uids : Strmap string) (c : claim) : Shared (setShared names uids c) = [] -> names = [].
Proof. rewrite setShared_shared. intros He%Compact_empty. apply Permutation_nil_r. by rewrite <- (Strings_perm names), He. Qed.

Lemma no_others (s : snapshot) (key ns : string) :
  namespacesExcept (earliest_of s key) ns = [] -> forall n, is_Some (earliest_of s key !! n) -> n = ns.
Proof.
  intros He n Hn. destruct (decide (n = ns)) as [|Hne]; [done|]. assert (Hin : n ∈ namespacesExcept (earliest_of s key) ns) by by apply elem_of_namespacesExcept.
  rewrite He in Hin. by apply not_elem_of_nil in Hin.
Qed.

Lemma passed_occupied (s : snapshot) (key : string) (old : option claim) tenant (next : claim) :
  (forall c, old = Some c -> sound_claim key c) -> planOccupied s key old tenant = Some next -> passed s key old next.
Proof.
  intros Hold. unfold planOccupied. destruct tenant as [|p tenant]; [done|]. set (e := earliestByNamespace _). set (holder := oldestNamespace e).
  rewrite closeOpenInterval_finish. intros [= <-]. destruct old as [c|].
  - destruct (Hold c eq_refl) as [Hk Hs _].
    destruct (_ || _).
    + apply (passed_settled _ _ _ _ [] (Now s)); [done|by left|by left; left|lia|done].
    + apply (passed_settled _ _ _ _ (Intervals c) (Now s)); [done|right; by exists c|done|lia|done].
  - apply (passed_settled _ _ _ _ [] (Now s)); [done|by left|by left; left|lia|done].
Qed.

Lemma passed_free (s : snapshot) (key : string) (old : option claim) (next : claim) :
  named s -> (forall c, old = Some c -> sound_claim key c) -> plan_free s key old (earliest_of s key) = Some next -> passed s key old next.
Proof.
  intros Hn Hold. unfold plan_free. destruct (bool_decide _).
  - destruct old as [c|]; [|done]. destruct (claimExpired _ _); [done|]. rewrite closeOpenInterval_finish. intros [= <-].
    destruct (Hold c eq_refl) as [Hk Hs _]. eapply (passed_settled _ _ _ _ _ (Now s)); [done|right; by exists c|done|lia|done].
  - set (holder := oldestNamespace _). intros [= <-]. eapply (passed_withInterval _ _ _ _ _ []); [done|done| |by left|by left; split; [|left]].
    intros _. split; [done|]. intros He%setShared_empty. cbn. by apply no_others.
Qed.

Lemma passed_held (s : snapshot) (key : string) (c next : claim) :
  named s -> sound_claim key c -> holder_live s c = true -> plan_held s key c (earliest_of s key) = Some next ->
  passed s key (Some c) next.
Proof.
  intros Hn [Hk Hs _] Hlive. assert (Hu : CUID c = ns_uid s (CNamespace c)) by (unfold holder_live in Hlive; by bool_to_prop).
  unfold plan_held. destruct (_ && claimExpired _ _); [done|]. cbv zeta. rewrite !closeOpenInterval_finish.
  set (others := namespacesExcept _ _). destruct (Bootstrap s).
  - match goal with |- context [finish ?t _] => set (at_ := t) end.
    assert (Hat : at_ <= Now s).
    { subst at_. set (beat := if _ || _ then _ else _).
      assert (Hbeat : beat <= Now s).
      { subst beat. unfold After. destruct (IsZero _); simpl; [lia|]. destruct (Z.ltb_spec (Now s) (Heartbeat s)); lia. }
      eapply Z.le_trans; [apply boundedClose_le|]. unfold Before. destruct (earliestOf _ _) as [t|]; [|done].
      destruct (Z.ltb_spec t beat); lia. }
    set (c1 := set_intervals _ c). pose proof (resolveShared_resolved s c1 key Hn) as [Hrk Hro Hrs Hra].
    destruct (resolveShared s c1 key _) as [c2 left]. cbn [fst snd] in *.
    match goal with |- (if ?b then _ else _) = _ -> _ => destruct b eqn:Hb end; intros [= <-].
    + destruct Hrs as [(Hrn & Hru & Hri)|Hempty].
      * eapply (passed_withInterval _ _ _ _ _ (Intervals c)); [done|by rewrite Hrk|done|right; exists c; by rewrite Hrn, Hru|].
        rewrite Hri. by apply settles_finish.
      * eapply (passed_withInterval _ _ _ _ _ []); [done|by rewrite Hrk|done|by left|]. rewrite Hempty. by left; split; [|left].
    + eapply (passed_withInterval _ _ _ _ _ (Intervals c)); [done|done| |right; by exists c|by apply settles_finish].
      intros _. split; [done|]. intros _. apply no_others. bool_to_prop. by apply dec_stable.
  - match goal with |- (if ?b then _ else _) = _ -> _ => destruct b eqn:Hb end; intros [= <-].
    + eapply (passed_withInterval _ _ _ _ _ (Intervals c)); [done|done| |right; by exists c|].
      * intros _. split; [done|]. intros He%setShared_empty ns Hns. cbn. destruct (decide (ns = CNamespace c)) as [|Hne]; [done|].
        assert (Hin : ns ∈ unionSorted (validSharers s (set_intervals (finish (boundedClose s (if After (default zero_time (earliestOf (earliest_of s key) others)) (Now s)
              then Now s else default zero_time (earliestOf (earliest_of s key) others))) (Intervals c)) c)) others)
          by (apply elem_of_unionSorted; right; by apply elem_of_namespacesExcept).
        rewrite He in Hin. by apply not_elem_of_nil in Hin.
      * apply settles_finish; [done|]. etransitivity; [apply boundedClose_le|]. unfold After. destruct (Z.ltb_spec (Now s) (default zero_time (earliestOf (earliest_of s key) others))); lia.
    + eapply (passed_withInterval _ _ _ _ _ (Intervals c)); [done|done| |right; by exists c|by apply settles_refl].
      intros _. split; [done|]. intros _. apply no_others. bool_to_prop. by apply dec_stable.
Qed.

Lemma planKey_passed (s : snapshot) (key : string) (old : option claim) (next : claim) :
  named s -> (forall c, old = Some c -> sound_claim key c) -> planKey s key old (producers_of s key) = Some next -> passed s key old next.
Proof.
  intros Hn Hold. unfold planKey. destruct (Platform key); [by apply passed_occupied|].
  destruct old as [c|]; [|by apply passed_free]. pose proof (Hold c eq_refl) as Hc. destruct (holder_live s c) eqn:Hl; [by apply passed_held|].
  case_bool_decide as Hsh; [|by apply passed_free]. destruct (Bootstrap s); cbn [negb].
  - pose proof (resolveShared_resolved s c key Hn) as [Hrk Hro Hrs Hra]. destruct (resolveShared s c key _) as [c2 left]. cbn [fst snd] in *. intros [= <-].
    destruct Hc as [Hk Hset _]. destruct Hrs as [(Hrn & Hru & Hri)|Hempty].
    + eapply (passed_withInterval _ _ _ _ _ (Intervals c)); [done|by rewrite Hrk|done|right; exists c; by rewrite Hrn, Hru|]. rewrite Hri. by apply settles_refl.
    + eapply (passed_withInterval _ _ _ _ _ []); [done|by rewrite Hrk|done|by left|]. rewrite Hempty. by left; split; [|left].
  - intros [= <-]. destruct Hc as [Hk Hset Ho]. assert (Hcl : Forall closed (Intervals c)).
    { destruct Hset as [?|(l1 & iv & He & Hiv & _)]; [done|]. destruct Hsh. apply Ho. rewrite He, Forall_app. intros [_ Hx].
      apply Forall_inv in Hx as [t Ht]. congruence. }
    eapply (passed_settled _ _ _ _ _ (Now s)); [done|right; by exists c|done|lia|by rewrite finish_closed].
Qed.

(** ** A plan, applied. *)

Definition applied (p : plan) (m : Strmap claim) : Strmap claim :=
  foldr (fun key m => delete key m) (foldl (fun m c => <[CKey c := c]> m) m (Write p)) (Delete p).

Definition pruned (s : snapshot) (c : claim) : claim := set_intervals (pruneIntervals (Intervals c) (Now s)) c.

Definition kept (s : snapshot) (old : option claim) (next : claim) : bool :=
  match old with Some c => sameRouteNameClaim c (pruned s next) | None => false end.

(** What a pass does about a key. *)
Definition written (s : snapshot) (key : string) : option claim :=
  if contains (Unreadable s) key then None
  else match planKey s key (Claims s !! key) (producers_of s key) with
       | Some next => if kept s (Claims s !! key) next then None else Some (pruned s next)
       | None => None
       end.

Definition deleted (s : snapshot) (key : string) : bool :=
  negb (contains (Unreadable s) key) && bool_decide (is_Some (Claims s !! key)) &&
  bool_decide (planKey s key (Claims s !! key) (producers_of s key) = None).

(** The outcome for a key that can be read. *)
Definition outcome (s : snapshot) (key : string) : option claim :=
  match planKey s key (Claims s !! key) (producers_of s key) with
  | Some next => if kept s (Claims s !! key) next then Claims s !! key else Some (pruned s next)
  | None => None
  end.

Lemma plan_key_exact (s : snapshot) (p : plan) (key : string) :
  plan_key s p key = mkPlan (Write p ++ default [] ((fun c => [c]) <$> written s key)) (Delete p ++ (if deleted s key then [key] else [])).
Proof.
  unfold plan_key, written, deleted. destruct (contains _ _); cbn [negb andb]; [destruct p; cbn; by rewrite !app_nil_r|].
  destruct (planKey s key _ _) as [next|].
  - rewrite (bool_decide_false (Some next = None)), andb_false_r by done. cbv zeta.
    change (match Claims s !! key with Some c => _ | None => false end) with (kept s (Claims s !! key) next).
    destruct (kept s _ next); destruct p; cbn; by rewrite ?app_nil_r.
  - destruct (Claims s !! key); destruct p; cbn; by rewrite ?app_nil_r.
Qed.

Lemma plan_exact (s : snapshot) (ks : list string) (p : plan) :
  foldl (plan_key s) p ks = mkPlan (Write p ++ omap (written s) ks) (Delete p ++ filter (fun k => Is_true (deleted s k)) ks).
Proof.
  revert p. induction ks as [|k ks IH]; intros p; [destruct p; cbn; by rewrite !app_nil_r|].
  cbn [foldl]. rewrite IH, plan_key_exact. cbn [Write Delete omap list_omap filter list_filter]. rewrite <- !app_assoc. f_equal.
  - f_equal. by destruct (written s k).
  - f_equal. destruct (deleted s k) eqn:Hd; [rewrite decide_True by done|rewrite decide_False by (intros []) ]; done.
Qed.

Lemma lookup_deletes (ks : list string) (m : Strmap claim) (key : string) :
  foldr (fun key m => delete key m) m ks !! key = if decide (key ∈ ks) then None else m !! key.
Proof.
  induction ks as [|k ks IH]; [done|]. cbn [foldr]. destruct (decide (k = key)) as [->|Hne].
  - rewrite lookup_delete_eq, decide_True by left. done.
  - rewrite lookup_delete_ne, IH by done. destruct (decide (key ∈ ks)); [rewrite decide_True by by right|rewrite decide_False by (rewrite elem_of_cons; naive_solver)]; done.
Qed.

Lemma lookup_writes (l : list claim) (m : Strmap claim) (key : string) :
  (forall c, c ∈ l -> CKey c <> key) -> foldl (fun m c => <[CKey c := c]> m) m l !! key = m !! key.
Proof.
  revert m. induction l as [|c l IH]; intros m Hl; [done|]. cbn [foldl]. rewrite IH by (intros c' Hc'; apply Hl; by right).
  rewrite lookup_insert_ne; [done|]. apply Hl. left.
Qed.

Lemma lookup_write (l : list claim) (m : Strmap claim) (c : claim) :
  c ∈ l -> (forall c', c' ∈ l -> CKey c' = CKey c -> c' = c) -> foldl (fun m c => <[CKey c := c]> m) m l !! CKey c = Some c.
Proof.
  revert m. induction l as [|c0 l IH]; intros m Hc Hl; [by apply not_elem_of_nil in Hc|]. cbn [foldl].
  destruct (decide (c ∈ l)) as [Hin|Hnot]; [apply IH; [done|]; intros c' Hc'; apply Hl; by right|].
  apply elem_of_cons in Hc as [<-|]; [|done]. rewrite lookup_writes; [apply lookup_insert_eq|].
  intros c' Hc' Hk. apply Hnot. rewrite <- (Hl c') by (by right || done). done.
Qed.

Definition keyed (s : snapshot) : Prop := forall k c, Claims s !! k = Some c -> CKey c = k.

Lemma withInterval_key (s : snapshot) (c : claim) e j : CKey (withInterval s c e j) = CKey c.
Proof. by destruct (withInterval_holder s c e j) as [l ->]. Qed.

Lemma planKey_key (s : snapshot) (key : string) (old : option claim) (next : claim) :
  named s -> (forall c, old = Some c -> CKey c = key) -> planKey s key old (producers_of s key) = Some next -> CKey next = key.
Proof.
  intros Hn Hold. unfold planKey. destruct (Platform key) as [r|].
  { unfold planOccupied. destruct (filter _ _); [done|]. rewrite closeOpenInterval_finish. intros [= <-]. cbn.
    destruct old as [c|]; [|done]. destruct (_ || _); [done|]. by apply Hold. }
  assert (Hfree : plan_free s key old (earliest_of s key) = Some next -> CKey next = key).
  { unfold plan_free. destruct (bool_decide _); [|intros [= <-]; by rewrite withInterval_key].
    destruct old as [c|]; [|done]. destruct (claimExpired _ _); [done|]. rewrite closeOpenInterval_finish. intros [= <-]. exact (Hold c eq_refl). }
  assert (Hres : forall c, CKey c = key -> CKey (let '(c, j) := resolveShared s c key (earliest_of s key) in withInterval s c (earliest_of s key) j) = key).
  { intros c Hc. pose proof (resolveShared_resolved s c key Hn) as [Hk _ _ _]. destruct (resolveShared s c key _) as [c' j]. cbn [fst] in Hk. by rewrite withInterval_key, Hk. }
  destruct old as [c|]; [|done]. pose proof (Hold c eq_refl) as Hk. destruct (holder_live s c).
  - unfold plan_held. destruct (_ && claimExpired _ _); [done|]. cbv zeta. rewrite !closeOpenInterval_finish. destruct (Bootstrap s).
    + match goal with |- (if ?b then _ else _) = _ -> _ => destruct b end; [|intros [= <-]; by rewrite withInterval_key].
      match goal with |- context [resolveShared s ?x _ _] => specialize (Hres x Hk); destruct (resolveShared s x key (earliest_of s key)) end.
      by intros [= <-].
    + match goal with |- (if ?b then _ else _) = _ -> _ => destruct b end; intros [= <-]; by rewrite withInterval_key.
  - case_bool_decide; [|done]. destruct (Bootstrap s); cbn [negb]; [|by intros [= <-]].
    specialize (Hres c Hk). destruct (resolveShared s c key (earliest_of s key)). by intros [= <-].
Qed.

Lemma written_key (s : snapshot) (key : string) (c : claim) : named s -> keyed s -> written s key = Some c -> CKey c = key.
Proof.
  intros Hn Hk. unfold written. destruct (contains _ _); [done|]. destruct (planKey s key _ _) as [next|] eqn:Hp; [|done].
  destruct (kept _ _ _); [done|]. intros [= <-]. exact (planKey_key s key _ next Hn (Hk key) Hp).
Qed.

Lemma NoDup_planned_keys (s : snapshot) : NoDup (planned_keys s).
Proof. unfold planned_keys. rewrite Strings_perm. apply NoDup_elements. Qed.

Lemma elem_of_planned_keys (s : snapshot) (key : string) :
  key ∈ planned_keys s <-> (exists p, p ∈ Producers s /\ producer_key p = key) \/ is_Some (Claims s !! key).
Proof.
  unfold planned_keys. rewrite elem_of_Strings, elem_of_elements, elem_of_union, elem_of_list_to_set, elem_of_dom.
  rewrite list_elem_of_fmap. naive_solver.
Qed.

(** A key that nobody knows needs no claim. *)
Lemma unplanned (s : snapshot) (key : string) : key ∉ planned_keys s -> outcome s key = None /\ Claims s !! key = None.
Proof.
  rewrite elem_of_planned_keys. intros Hno. assert (Hc : Claims s !! key = None) by (apply eq_None_not_Some; tauto). split; [|done].
  assert (Hp : producers_of s key = []).
  { unfold producers_of. destruct (filter _ _) as [|p l] eqn:He; [done|]. exfalso. apply Hno. left. exists p.
    assert (Hin : p ∈ filter (fun p => producer_key p = key) (Producers s)) by (rewrite He; left). apply list_elem_of_filter in Hin as [? ?]. done. }
  unfold outcome. rewrite Hc, Hp. unfold planKey. destruct (Platform key); [done|]. unfold plan_free. by rewrite bool_decide_true.
Qed.

(** What a pass leaves of a key that it can read. *)
Lemma applied_exact (s : snapshot) (key : string) :
  named s -> keyed s -> key ∉ Unreadable s -> applied (planRouteNames s) (Claims s) !! key = outcome s key.
Proof.
  intros Hn Hk Hr. unfold planRouteNames. rewrite plan_exact. cbn [Write Delete app]. unfold applied. cbn [Write Delete].
  rewrite lookup_deletes. assert (Hcon : contains (Unreadable s) key = false) by by apply bool_decide_eq_false_2.
  destruct (decide (key ∈ planned_keys s)) as [Hin|Hout].
  2: { destruct (unplanned s key Hout) as [-> Hc]. rewrite decide_False by (intros [_ ?]%list_elem_of_filter; done).
       rewrite lookup_writes; [done|]. intros c (k & Hk' & Hw)%list_elem_of_omap <-. apply Hout. by rewrite (written_key s k c). }
  destruct (decide (key ∈ filter _ _)) as [[Hd _]%list_elem_of_filter|Hd].
  - apply Is_true_true in Hd. unfold deleted in Hd. bool_to_prop. unfold outcome. by rewrite H0.
  - assert (Hnd : deleted s key = false) by (apply not_true_iff_false; intros Ht; apply Hd, list_elem_of_filter; by rewrite Ht).
    destruct (written s key) as [c|] eqn:Hw.
    + transitivity (Some c).
      * rewrite <- (written_key s key c Hn Hk Hw) at 1. apply lookup_write; [by apply list_elem_of_omap; exists key|].
        intros c' (k & _ & Hw')%list_elem_of_omap He. rewrite (written_key s key c), (written_key s k c') in He by done. congruence.
      * unfold written, outcome in *. rewrite Hcon in Hw. destruct (planKey s key _ _); [|done]. by destruct (kept _ _ _).
    + rewrite lookup_writes.
      2: { intros c (k & _ & Hw')%list_elem_of_omap He. rewrite (written_key s k c Hn Hk Hw') in He. congruence. }
      unfold written, outcome, deleted in *. rewrite Hcon in *. destruct (planKey s key _ _); [by destruct (kept _ _ _)|].
      rewrite (bool_decide_true (None = None)), andb_true_r in Hnd by done. cbn in Hnd. bool_to_prop. by apply eq_None_not_Some.
Qed.

(** ** Attribution. *)

(** The claim of one key through what happens to it: a reservation or a takeover
    stores a claim without spans; a claim may go; a pass that read it is carried
    out, except that a deletion may wait. [past] has the passes. *)
Record pass_reads (key : string) (old : option claim) (past : list snapshot) (s : snapshot) : Prop := {
  q_named : named s;
  q_keyed : keyed s;
  q_claim : Claims s !! key = old;
  q_readable : key ∉ Unreadable s;
  q_later : forall s', s' ∈ past -> Now s' < Now s
}.

Inductive history (key : string) : option claim -> list snapshot -> Prop :=
| H_none : history key None []
| H_fresh old past c : history key old past -> CKey c = key -> Intervals c = [] -> history key (Some c) past
| H_gone old past : history key old past -> history key None past
| H_pass old past s : history key old past -> pass_reads key old past s ->
    history key (applied (planRouteNames s) (Claims s) !! key) (past ++ [s])
| H_waits old past s : history key old past -> pass_reads key old past s -> outcome s key = None -> history key old (past ++ [s]).

(** A moment that a span covers. *)
Definition covers (iv : interval) (t : Time) : Prop := From iv <= t /\ forall u, To iv = Some u -> t < u.

Definition witnessed (past : list snapshot) (key : string) (c : claim) : Prop :=
  forall iv s, iv ∈ Intervals c -> s ∈ past -> covers iv (Now s) -> alone_in s key (CNamespace c) (CUID c).

Definition latest (past : list snapshot) (n : Time) : Prop := forall s, s ∈ past -> Now s <= n.

Record attributed (past : list snapshot) (key : string) (c : claim) : Prop := {
  t_sound : sound_claim key c;
  t_orderly : forall n, latest past n -> orderly n (Intervals c);
  t_witnessed : witnessed past key c
}.

Lemma elem_of_finish (t : Time) (l : list interval) (iv : interval) :
  settled l -> iv ∈ finish t l -> (iv ∈ l /\ closed iv) \/ exists x, x ∈ l /\ To x = None /\ iv = close_at t x.
Proof.
  intros [Hc|(l1 & x & -> & Hx & Hc)].
  - rewrite finish_closed by done. intros Hin. left. split; [done|]. rewrite Forall_forall in Hc. by apply Hc.
  - rewrite finish_open by done. rewrite Forall_forall in Hc. intros [Hin|Hin]%elem_of_app.
    + left. split; [apply elem_of_app; by left|by apply Hc].
    + apply list_elem_of_singleton in Hin as ->. right. exists x. split; [apply elem_of_app; right; left|done].
Qed.

Lemma covers_close (t u : Time) (x : interval) : To x = None -> covers (close_at t x) u -> covers x u /\ u < t.
Proof.
  intros Hx [Hlo Hhi]. unfold close_at, Before in *. cbn in *. specialize (Hhi _ eq_refl).
  destruct (Z.ltb_spec t (From x)); [lia|]. split; [|done]. split; [done|]. congruence.
Qed.

(** What a pass writes is attributed as before, and by what the pass saw. *)
Lemma passed_attributed (past : list snapshot) (key : string) (old : option claim) (s : snapshot) (next : claim) :
  (forall c, old = Some c -> attributed past key c) -> latest past (Now s - 1) -> passed s key old next ->
  loose (Now s) (Intervals next) /\ witnessed (past ++ [s]) key next.
Proof.
  intros Hold Hlast [_ _ (l & Hl & Hev)].
  assert (Hw : orderly (Now s - 1) l /\ (forall iv s', iv ∈ l -> s' ∈ past -> covers iv (Now s') -> alone_in s' key (CNamespace next) (CUID next))).
  { destruct Hl as [->|(c & Hc & <- & <- & ->)]; [split; [by repeat constructor|intros ? ? Hin; by apply not_elem_of_nil in Hin]|].
    destruct (Hold c Hc) as [_ Ho Hwit]. split; [by apply Ho|exact Hwit]. }
  destruct Hw as [Ho Hw]. pose proof (orderly_cases _ _ Ho) as Hset.
  assert (Hended : forall t iv s', t <= Now s -> iv ∈ finish t l -> s' ∈ (past ++ [s])%list -> covers iv (Now s') -> alone_in s' key (CNamespace next) (CUID next)).
  { intros t iv s' Ht Hiv Hs' Hcov. assert (Hearlier : s' ∈ past).
    { apply elem_of_app in Hs' as [|He%list_elem_of_singleton]; [done|]. exfalso. subst s'.
      destruct (elem_of_finish t l iv Hset Hiv) as [[Hin [u Hu]]|(x & _ & Hx & ->)]; [|apply covers_close in Hcov as [_ ?]; [lia|done]].
      destruct Hcov as [_ Hcov]. specialize (Hcov u Hu). destruct Ho as [_ Hf]. rewrite Forall_forall in Hf. specialize (Hf iv Hin u Hu). lia. }
    destruct (elem_of_finish t l iv Hset Hiv) as [[Hin _]|(x & Hin & Hx & ->)]; [by apply (Hw iv)|].
    apply covers_close in Hcov as [Hcov _]; [|done]. by apply (Hw x). }
  unfold witnessed. destruct Hev as [(t & Ht & ->)|[[Ha ->]|(Ha & t & new & Ht & -> & Hfrom & Hnew)]].
  - split; [by apply (loose_finish (Now s - 1)); [|lia|]|]. intros iv s'. by apply (Hended t).
  - split; [apply (loose_orderly (Now s - 1)); [done|lia]|]. intros iv s' Hiv Hs' Hcov.
    apply elem_of_app in Hs' as [| ->%list_elem_of_singleton]; [by apply (Hw iv)|done].
  - destruct (loose_finish (Now s - 1) (Now s) t l Ho) as [Hlo Hcl]; [lia|done|]. split; [by apply loose_snoc|].
    intros iv s' [Hiv| ->%list_elem_of_singleton]%elem_of_app Hs' Hcov; [by apply (Hended t iv)|].
    apply elem_of_app in Hs' as [Hs'| ->%list_elem_of_singleton]; [|done]. destruct Hcov as [Hcov _]. specialize (Hlast s' Hs'). lia.
Qed.

Lemma orderly_mono (n n' : Time) (l : list interval) : orderly n l -> n <= n' -> orderly n' l.
Proof. intros [Hs Hf] Hle. split; [done|]. eapply Forall_impl; [exact Hf|]. intros iv H t Ht. specialize (H t Ht). lia. Qed.

Lemma prune_open (l : list interval) (now : Time) : Forall closed l -> Forall closed (pruneIntervals l now).
Proof. rewrite !Forall_forall. intros Hc iv Hiv. apply Hc. by apply elem_of_prune in Hiv as [? _]. Qed.

Lemma latest_snoc (past : list snapshot) (s : snapshot) (n : Time) : latest (past ++ [s]) n -> Now s <= n.
Proof. intros H. apply H, elem_of_app. right. by apply list_elem_of_singleton. Qed.

Lemma same_fields (a b : claim) :
  sameRouteNameClaim a b = true ->
  CKey a = CKey b /\ CNamespace a = CNamespace b /\ CUID a = CUID b /\ Shared a = Shared b /\ Occupied a = Occupied b /\
  Intervals a = Intervals b.
Proof.
  unfold sameRouteNameClaim. intros He. bool_to_prop. match goal with H : Bool.eqb _ _ = true |- _ => apply eqb_prop in H end.
  by split_and!.
Qed.

(** A claim that reads like an attributed one is one. *)
Lemma attributed_same (past : list snapshot) (key : string) (a b : claim) :
  attributed past key b -> sameRouteNameClaim a b = true -> attributed past key a.
Proof.
  intros [[Hk Hs Ho] Hord Hw] (Ek & En & Eu & Es & Eo & Ei)%same_fields. unfold witnessed in *.
  split; [split|..]; unfold witnessed; rewrite ?Ek, ?En, ?Eu, ?Es, ?Eo, ?Ei; assumption.
Qed.

Lemma outcome_attributed (past : list snapshot) (key : string) (old : option claim) (s : snapshot) (c : claim) :
  (forall c, old = Some c -> attributed past key c) -> pass_reads key old past s -> outcome s key = Some c ->
  attributed (past ++ [s]) key c.
Proof.
  intros Hold [Hn Hk Hc Hr Hlater]. unfold outcome. rewrite Hc. destruct (planKey s key old _) as [next|] eqn:Hp; [|done].
  assert (Hpass : passed s key old next) by (apply planKey_passed; [done| |done]; intros c0 H0; apply (Hold c0 H0)).
  destruct (passed_attributed past key old s next Hold) as [Hl Hw]; [intros s' Hs'; specialize (Hlater s' Hs'); lia|done|].
  assert (Ha : attributed (past ++ [s]) key (pruned s next)).
  { pose proof (orderly_prune _ _ Hl) as Hord. split; [split| |].
    - by destruct Hpass.
    - by eapply orderly_cases.
    - intros Ho. apply Hpass. intros Hcl. by apply Ho, prune_open.
    - intros n Hlast. eapply orderly_mono; [exact Hord|]. by eapply latest_snoc.
    - intros iv s' Hiv. apply Hw. by apply elem_of_prune in Hiv as [? _]. }
  unfold kept. destruct old as [c0|]; [|by intros [= <-]]. destruct (sameRouteNameClaim c0 (pruned s next)) eqn:He; intros [= <-]; [|done].
  by eapply attributed_same.
Qed.

(** Why a tenant's claim may go. *)
Lemma planKey_None (s : snapshot) (key : string) (c : claim) :
  Platform key = None -> planKey s key (Some c) (producers_of s key) = None ->
  producers_of s key = [] /\ Shared c = [] /\ claimExpired c (Now s) = true /\
  (holder_live s c = false \/ canPublish s (CNamespace c) key = false).
Proof.
  intros Hp. unfold planKey. rewrite Hp. destruct (holder_live s c) eqn:Hl.
  - unfold plan_held. destruct (bool_decide _ && _ && _ && _) eqn:He.
    + intros _. bool_to_prop. split_and!; [by apply earliest_empty|done|done|by right].
    + cbv zeta. destruct (Bootstrap s); [destruct (resolveShared _ _ _ _)|];
        match goal with |- (if ?b then _ else _) = _ -> _ => by destruct b end.
  - case_bool_decide as Hs; [by destruct (Bootstrap s); cbn [negb]; [destruct (resolveShared _ _ _ _)|]|].
    unfold plan_free. case_bool_decide as He; [|done]. destruct (claimExpired _ _) eqn:Hx; [|done].
    intros _. split_and!; [by apply earliest_empty|done|done|by left].
Qed.

Lemma expired_uncovered (c : claim) (now : Time) (iv : interval) : claimExpired c now = true -> iv ∈ Intervals c -> ~ covers iv now.
Proof.
  unfold claimExpired. rewrite forallb_forall. intros Hall Hiv [_ Hcov]. apply list_elem_of_In in Hiv. specialize (Hall iv Hiv).
  destruct (To iv) as [t|]; [|done]. specialize (Hcov t eq_refl). unfold Before, Add, attributionRetention, Hour, Minute, Second in Hall. bool_to_prop. lia.
Qed.

Lemma history_attributed (key : string) (old : option claim) (past : list snapshot) :
  Platform key = None -> history key old past -> forall c, old = Some c -> attributed past key c.
Proof.
  intros Hp. induction 1 as [|old past c _ _ Hk Hi| |old past s _ IH Hr|old past s _ IH Hr Hout]; intros c' Hc'; [done| |done| |].
  - injection Hc' as <-. split; [split; [done|rewrite Hi; by left|by rewrite Hi; intros []]|rewrite Hi; by repeat constructor|].
    intros iv s Hiv. rewrite Hi in Hiv. by apply not_elem_of_nil in Hiv.
  - rewrite applied_exact in Hc' by apply Hr. by eapply outcome_attributed.
  - subst old. specialize (IH c' eq_refl). destruct Hr as [Hn Hk Hc _ Hlater]. unfold outcome in Hout. rewrite Hc in Hout.
    destruct (planKey s key (Some c') _) as [next|] eqn:He; [by destruct (kept _ _ _)|].
    destruct (planKey_None s key c' Hp He) as (_ & _ & Hx & _). destruct IH as [Hs Ho Hw]. split; [done| |].
    + intros n Hlast. apply Ho. intros s' Hs'. apply Hlast, elem_of_app. by left.
    + intros iv s' Hiv [Hs'| ->%list_elem_of_singleton]%elem_of_app Hcov; [by apply (Hw iv)|].
      by destruct (expired_uncovered c' (Now s) iv Hx Hiv).
Qed.

(** C7: traffic is attributed to a namespace only while it was alone with the
    name. Whatever reservations, takeovers, deletions and passes a tenant's
    key goes through, where the write a pass plans is done before the next
    pass reads (a deletion may come later or not at all), the spans of its
    claim are orderly: each but the last has ended, before the next began. And
    every pass that falls into one of them saw no other namespace produce the
    key, saw the holder produce it through one service, with the uid of the
    claim, and ran unsuspended. A key that is shared has no open span. *)
Theorem spans_attributed (key : string) (c : claim) (past : list snapshot)
    (Htenant : Platform key = None) (Hhistory : history key (Some c) past) :
  (forall n, latest past n -> orderly n (Intervals c)) /\
  (forall iv s, iv ∈ Intervals c -> s ∈ past -> covers iv (Now s) -> alone_in s key (CNamespace c) (CUID c)) /\
  (forall iv, iv ∈ Intervals c -> To iv = None -> Shared c = [] /\ Occupied c = false).
Proof.
  destruct (history_attributed key (Some c) past Htenant Hhistory c eq_refl) as [[_ _ Hopen] Hord Hw].
  split; [exact Hord|]. split; [exact Hw|]. intros iv Hiv Hnone. apply Hopen. rewrite Forall_forall. intros Hc.
  destruct (Hc iv Hiv). congruence.
Qed.

(** C34: a claim is deleted only where nobody can use it. A pass that deletes the
    claim of a tenant's key saw no route produce the key; the claim is not shared,
    its spans ended before the retention, and its holder is gone or has no
    workload that could publish the key. *)
Theorem deletions_idle (s : snapshot) (key : string) (Hnamed : named s) (Htenant : Platform key = None)
    (Hdeleted : key ∈ Delete (planRouteNames s)) :
  exists c, Claims s !! key = Some c /\ (forall p, p ∈ Producers s -> producer_key p <> key) /\ Shared c = [] /\
    (forall iv, iv ∈ Intervals c -> exists t, To iv = Some t /\ t < Now s - attributionRetention) /\
    (holder_live s c = false \/ forall name, name ∈ default ∅ (Workloads s !! CNamespace c) -> Key (CNamespace c) name <> key).
Proof.
  unfold planRouteNames in Hdeleted. rewrite plan_exact in Hdeleted. cbn [Delete app] in Hdeleted.
  apply list_elem_of_filter in Hdeleted as [Hd%Is_true_true _]. unfold deleted in Hd. bool_to_prop.
  match goal with H : is_Some _ |- _ => destruct H as [c Hc] end. rewrite Hc in *.
  destruct (planKey_None s key c) as (Hnone & Hs & Hx & Hl); [done..|]. exists c. split; [done|]. split_and!; [|done| |].
  - intros p Hp Hk. assert (Hin : p ∈ producers_of s key) by by apply list_elem_of_filter. rewrite Hnone in Hin. by apply not_elem_of_nil in Hin.
  - unfold claimExpired in Hx. rewrite forallb_forall in Hx. intros iv Hiv%list_elem_of_In. specialize (Hx iv Hiv).
    destruct (To iv) as [t|]; [|done]. exists t. split; [done|]. unfold Before, Add in Hx. bool_to_prop. lia.
  - destruct Hl as [?|Hl]; [by left|right]. intros name Hin Hk. unfold canPublish in Hl. apply not_true_iff_false in Hl. apply Hl.
    apply existsb_exists. exists name. rewrite <- list_elem_of_In, elem_of_elements. split; [done|]. by apply String.eqb_eq.
Qed.

(** ** An example. *)

(** The workload web-api of shop; thirty seconds later api of shop-web, which makes
    the same key. *)
Definition demo_web : producer := mkProducer "shop" "web-api" 80 (90 * Second).

Definition demo_rival : producer := mkProducer "shop-web" "api" 80 (120 * Second).

Definition demo_key : string := "shop-web-api".

Definition demo_scan (now : Time) (producers : list producer) (claims : Strmap claim) : snapshot :=
  mkSnapshot (now * Second) "g1" false zero_time false zero_time producers claims {[ "shop" := "u1"; "shop-web" := "u2" ]}
    {[ "shop" := {[ "web-api" ]} ]} [].

Definition demo_first : snapshot := demo_scan 100 [demo_web] ∅.

Definition demo_second : snapshot := demo_scan 130 [demo_web; demo_rival] (applied (planRouteNames demo_first) ∅).

Definition demo_claim : claim :=
  mkClaim demo_key "shop" "u1" ["shop-web"] {[ "shop-web" := "u2" ]} false
    [mkInterval (100 * Second) (Some (120 * Second)) "g1"] None.

Lemma demo_claims : applied (planRouteNames demo_first) ∅ = {[ demo_key := mkClaim demo_key "shop" "u1" [] ∅ false [mkInterval (100 * Second) None "g1"] None ]}.
Proof. vm_compute. reflexivity. Qed.

Lemma demo_second_claim : applied (planRouteNames demo_second) (Claims demo_second) !! demo_key = Some demo_claim.
Proof. vm_compute. reflexivity. Qed.

Lemma demo_second_keyed : keyed demo_second.
Proof.
  intros k c Hc. change (Claims demo_second) with (applied (planRouteNames demo_first) ∅) in Hc. rewrite demo_claims in Hc.
  apply lookup_singleton_Some in Hc as [<- <-]. reflexivity.
Qed.

Lemma demo_reads : pass_reads demo_key None [] demo_first.
Proof.
  split; [repeat constructor; discriminate| |reflexivity|apply not_elem_of_nil|intros s' Hs'; destruct (not_elem_of_nil s' Hs')].
  intros k c Hc. change ((∅ : Strmap claim) !! k = Some c) in Hc. rewrite lookup_empty in Hc. discriminate.
Qed.

Lemma demo_reads_second : pass_reads demo_key (applied (planRouteNames demo_first) (Claims demo_first) !! demo_key) [demo_first] demo_second.
Proof.
  split; [repeat constructor; discriminate|exact demo_second_keyed|reflexivity|apply not_elem_of_nil|].
  intros s' Hs'. apply list_elem_of_singleton in Hs' as ->. reflexivity.
Qed.

Lemma demo_history : history demo_key (Some demo_claim) [demo_first; demo_second].
Proof.
  rewrite <- demo_second_claim. apply (H_pass _ _ [demo_first] demo_second (H_pass _ _ [] demo_first (H_none _) demo_reads) demo_reads_second).
Qed.

Lemma spans_attributed_witness :
  history demo_key (Some demo_claim) [demo_first; demo_second] /\ orderly (130 * Second) (Intervals demo_claim) /\
  alone_in demo_first demo_key "shop" "u1".
Proof.
  destruct (spans_attributed demo_key demo_claim [demo_first; demo_second]) as (Hord & Hw & _); [vm_compute; reflexivity|exact demo_history|].
  split; [exact demo_history|]. split.
  - apply Hord. intros s [->|[->|Hs]%elem_of_cons]%elem_of_cons; [by vm_compute|by vm_compute|by apply not_elem_of_nil in Hs].
  - apply (Hw (mkInterval (100 * Second) (Some (120 * Second)) "g1") demo_first); [left|left|].
    split; [by vm_compute|]. intros u [= <-]. by vm_compute.
Defined.

(** Two hundred hours later nobody uses the key. *)
Definition demo_idle : snapshot :=
  mkSnapshot (200 * Hour) "g1" false zero_time false zero_time []
    {[ demo_key := mkClaim demo_key "shop" "u1" [] ∅ false [mkInterval (100 * Second) (Some (120 * Second)) "g1"] None ]}
    ∅ ∅ [].

Lemma deletions_idle_witness : demo_key ∈ Delete (planRouteNames demo_idle) /\ exists c, Claims demo_idle !! demo_key = Some c /\ Shared c = [].
Proof.
  assert (Hin : demo_key ∈ Delete (planRouteNames demo_idle)) by (replace (Delete (planRouteNames demo_idle)) with [demo_key] by (vm_compute; reflexivity); left).
  split; [exact Hin|]. destruct (deletions_idle demo_idle demo_key) as (c & Hc & _ & Hs & _); [constructor|vm_compute; reflexivity|exact Hin|].
  exists c. split; [exact Hc|exact Hs].
Defined.
