(* ===== verification/RouteNamesScan.v ===== *)
(** * One scan

    What one pass of a running generation does about a collision and about a
    lone producer; that the order in which routes and map entries come does not
    matter; when two backends have one key. *)

From Stdlib Require Import Ascii.
From stdpp Require Import base tactics numbers countable list option strings gmap sorting.
From S2P Require Import Prelude GoStd Sha256 RouteNames RouteNamesProps.

(** ** Sharers. *)

Lemma lookup_pairs (f : string -> string) (l : list string) (x : string) :
  x ∈ l -> (list_to_map (map (fun n => (n, f n)) l) : Strmap string) !! x = Some (f x).
Proof.
  induction l as [|a l IH]; intros Hx; [by apply not_elem_of_nil in Hx|]. cbn. destruct (decide (a = x)) as [->|Hne].
  - by rewrite lookup_insert_eq.
  - rewrite lookup_insert_ne by done. apply IH. by apply elem_of_cons in Hx as [->|].
Qed.

Lemma setShared_uid (names : list string) (uids : Strmap string) (c : claim) (x : string) :
  x ∈ names -> uid_of (SharedUIDs (setShared names uids c)) x = uid_of uids x.
Proof. intros Hx. unfold uid_of at 1. cbn. rewrite lookup_pairs; [done|]. by rewrite elem_of_Compact, elem_of_Strings. Qed.

Lemma sharedBy_exact (c : claim) (ns uid : string) :
  sharedBy c ns uid = true <-> ns ∈ Shared c /\ uid <> ""%string /\ uid_of (SharedUIDs c) ns = uid.
Proof.
  unfold sharedBy, contains. rewrite !andb_true_iff, bool_decide_eq_true, negb_true_iff, String.eqb_neq, String.eqb_eq. tauto.
Qed.

Lemma sharedBy_set (names : list string) (uids : Strmap string) (c : claim) (x : string) :
  x ∈ names -> uid_of uids x <> ""%string -> sharedBy (setShared names uids c) x (uid_of uids x) = true.
Proof. intros Hx Hu. apply sharedBy_exact. rewrite elem_of_setShared, setShared_uid by done. done. Qed.

Lemma same_sharedBy (a b : claim) (ns uid : string) :
  sameRouteNameClaim a b = true -> sharedBy b ns uid = true -> sharedBy a ns uid = true.
Proof.
  intros He. pose proof (same_fields a b He) as (_ & _ & _ & Es & _ & _). rewrite !sharedBy_exact, Es. intros (Hin & Hu & Hx).
  split; [done|]. split; [done|]. unfold sameRouteNameClaim in He. bool_to_prop.
  match goal with H : _ || _ = true |- _ => apply orb_true_iff in H as [H|H] end; bool_to_prop; [|congruence].
  exfalso. rewrite Es in *. match goal with H : Shared b = [] |- _ => rewrite H in Hin end. by apply not_elem_of_nil in Hin.
Qed.

(** What is stored is what was planned, or reads like it. *)
Lemma outcome_planned (s : snapshot) (key : string) (next : claim) :
  planKey s key (Claims s !! key) (producers_of s key) = Some next ->
  exists o, outcome s key = Some o /\ (o = pruned s next \/ sameRouteNameClaim o (pruned s next) = true).
Proof.
  intros Hp. unfold outcome. rewrite Hp. unfold kept. destruct (Claims s !! key) as [c|]; [|by eexists; split; [|left]].
  destruct (sameRouteNameClaim c _) eqn:He; eexists; (split; [reflexivity|]); [by right|by left].
Qed.

Lemma foldl_sooner (e : Strmap Time) (l : list string) (found : option Time) (t : Time) :
  (found = Some t \/ exists ns, ns ∈ l /\ e !! ns = Some t) ->
  exists u, foldl (fun found ns => sooner found (e !! ns)) found l = Some u /\ u <= t.
Proof.
  revert found t. induction l as [|ns l IH]; intros found t Hex.
  - destruct Hex as [->|(ns & Hns & _)]; [exists t; split; [done|lia]|by apply not_elem_of_nil in Hns].
  - cbn. assert (Hle : (exists u, sooner found (e !! ns) = Some u /\ u <= t) \/ exists n, n ∈ l /\ e !! n = Some t).
    { destruct Hex as [->|(n & Hn & Ht)].
      - left. unfold sooner, Before. destruct (e !! ns) as [u|]; [|by exists t; split; [|lia]].
        destruct (Z.ltb_spec u t); eexists; (split; [reflexivity|lia]).
      - apply elem_of_cons in Hn as [->|]; [left|right; by exists n]. rewrite Ht. unfold sooner, Before. destruct found as [u|]; [|exists t; split; [done|lia]].
        destruct (Z.ltb_spec t u); eexists; (split; [reflexivity|lia]). }
    destruct Hle as [(u & Hu & Hle)|Hin]; [|apply IH; by right].
    rewrite Hu. destruct (IH (Some u) u) as (v & Hv & Hvle); [by left|]. exists v. split; [done|lia].
Qed.

Lemma earliestOf_le (e : Strmap Time) (l : list string) (ns : string) (t : Time) :
  ns ∈ l -> e !! ns = Some t -> exists u, earliestOf e l = Some u /\ u <= t.
Proof. intros Hns Ht. apply foldl_sooner. right. by exists ns. Qed.

(** ** Collisions. *)

(** A scan that sees others next to a live holder. *)
Lemma plan_held_collision (s : snapshot) (key : string) (c : claim) (others : list string) :
  settled (Intervals c) -> Bootstrap s = false -> others = namespacesExcept (earliest_of s key) (CNamespace c) -> others <> [] ->
  exists t, t <= default zero_time (earliestOf (earliest_of s key) others) /\
    plan_held s key c (earliest_of s key) =
    Some (setShared (unionSorted (validSharers s c) others) (Namespaces s) (set_intervals (finish t (Intervals c)) c)).
Proof.
  intros Hset Hb Ho Hne. unfold plan_held. rewrite Hb, <- Ho. rewrite (bool_decide_true (others <> [])) by done.
  assert (He : earliest_of s key <> ∅).
  { intros He. apply Hne. rewrite Ho, He. unfold namespacesExcept. by rewrite dom_empty_L, elements_empty. }
  rewrite (bool_decide_false (earliest_of s key = ∅)) by done. cbn [andb]. cbv zeta. rewrite closeOpenInterval_finish.
  set (at_ := boundedClose _ _). exists at_. split.
  { subst at_. etransitivity; [apply boundedClose_le|]. unfold After. destruct (Z.ltb_spec (Now s) (default zero_time (earliestOf (earliest_of s key) others))); lia. }
  f_equal. unfold withInterval. set (c1 := setShared _ _ _).
  assert (Hc : openIntervalIndex (Intervals c1) = None) by (apply openIntervalIndex_None; by apply finish_settled).
  rewrite Hc. destruct others as [|o others]; [done|]. rewrite (bool_decide_false (Shared c1 = [])).
  - by rewrite andb_false_r.
  - apply (setShared_nonempty _ _ _ o). apply elem_of_unionSorted. right. left.
Qed.

(** C32: a collision is recorded by the next scan. Where another namespace
    produces the key of a live holder, a scan keeps the holder, records the other
    namespace as a sharer with its uid, keeps every sharer that is still the
    namespace it was, and leaves no open span: the one that was open has ended by
    the time the other's route was created, or is dropped. The claim's spans are
    as every pass leaves them: at most the last one is open. *)
Theorem collision_recorded (s : snapshot) (key : string) (c : claim) (p : producer)
    (Htenant : Platform key = None) (Hscan : Bootstrap s = false) (Hclaim : Claims s !! key = Some c) (Hsettled : settled (Intervals c))
    (Hlive : holder_live s c = true) (Hp : p ∈ Producers s) (Hkey : producer_key p = key) (Hrival : PNamespace p <> CNamespace c) :
  exists next, outcome s key = Some next /\ CNamespace next = CNamespace c /\ CUID next = CUID c /\ PNamespace p ∈ Shared next /\
    (ns_uid s (PNamespace p) <> ""%string -> sharedBy next (PNamespace p) (ns_uid s (PNamespace p)) = true) /\
    (forall ns, sharedBy c ns (ns_uid s ns) = true -> sharedBy next ns (ns_uid s ns) = true) /\
    (forall iv, iv ∈ Intervals next -> exists t, To iv = Some t /\ (iv ∈ Intervals c \/ t <= Created p)).
Proof.
  assert (Hin : is_Some (earliest_of s key !! PNamespace p)) by (apply producing; by exists p).
  assert (Ho : PNamespace p ∈ namespacesExcept (earliest_of s key) (CNamespace c)) by by apply elem_of_namespacesExcept.
  destruct (plan_held_collision s key c _ Hsettled Hscan eq_refl) as (t & Ht & Hplan); [by intros He; rewrite He in Ho; apply not_elem_of_nil in Ho|].
  set (others := namespacesExcept _ _) in *. set (next := setShared _ _ _) in Hplan.
  assert (Hkeyplan : planKey s key (Claims s !! key) (producers_of s key) = Some next) by (unfold planKey; by rewrite Htenant, Hclaim, Hlive).
  assert (Hnext : forall ns, ns ∈ validSharers s c \/ ns ∈ others -> ns_uid s ns <> ""%string -> sharedBy next ns (ns_uid s ns) = true)
    by (intros ns Hns Hu; apply sharedBy_set; [by apply elem_of_unionSorted|done]).
  destruct (outcome_planned s key next Hkeyplan) as (o & Hout & Hsame). exists o. split; [done|].
  assert (Hfields : CNamespace o = CNamespace c /\ CUID o = CUID c /\ Shared o = Shared next /\ Intervals o = Intervals (pruned s next) /\
                    forall ns uid, sharedBy next ns uid = true -> sharedBy o ns uid = true).
  { destruct Hsame as [->|Hsame]; [done|]. pose proof (same_fields _ _ Hsame) as (_ & En & Eu & Es & _ & Ei). split_and!; [done..|].
    intros ns uid H. by apply (same_sharedBy _ _ _ _ Hsame). }
  destruct Hfields as (-> & -> & -> & -> & Hby). split; [done|]. split; [done|]. split_and!.
  - apply elem_of_setShared, elem_of_unionSorted. by right.
  - intros Hu. apply Hby, Hnext; [by right|done].
  - intros ns Hns. destruct (proj1 (sharedBy_exact _ _ _) Hns) as (Hsh & Hu & _). apply Hby, Hnext; [left|done].
    apply list_elem_of_filter. by rewrite Hns.
  - intros iv Hiv. destruct (elem_of_prune _ _ _ Hiv) as [Hiv' Hne].
    destruct (elem_of_finish t (Intervals c) iv Hsettled Hiv') as [[Hold [u Hu]]|(x & _ & _ & ->)]; [exists u; split; [done|by left]|].
    eexists. split; [reflexivity|]. right. specialize (Hne _ eq_refl). unfold close_at, Before in Hne |- *. cbn [From To] in Hne |- *.
    destruct (Z.ltb_spec t (From x)); [lia|]. etransitivity; [exact Ht|]. destruct Hin as [e He].
    destruct (earliestOf_le _ others _ _ Ho He) as (u & -> & Hu). cbn. etransitivity; [exact Hu|].
    apply earliest_spec in He as [_ Hfirst]. apply Hfirst; [|done]. by apply list_elem_of_filter.
Qed.

(** ** A producer alone. *)

Lemma prune_keeps_open (l : list interval) (iv : interval) (now : Time) : To iv = None -> iv ∈ pruneIntervals (l ++ [iv]) now.
Proof.
  intros Hiv. unfold pruneIntervals. rewrite filter_app. cbn [filter list_filter].
  rewrite decide_True by (unfold outlived; by rewrite Hiv). rewrite drop_app_le.
  - apply elem_of_app. right. left.
  - rewrite length_app. unfold maxAttributionIntervals. simpl. lia.
Qed.

Lemma withInterval_opens (s : snapshot) (c : claim) e :
  settled (Intervals c) -> Suspended s = false -> Shared c = [] -> Occupied c = false -> is_Some (e !! CNamespace c) ->
  severalServices s (CKey c) (CNamespace c) = false -> exists l iv, Intervals (withInterval s c e false) = (l ++ [iv])%list /\ To iv = None.
Proof.
  intros Hset Hs Hsh Ho Hp Hone. unfold withInterval. rewrite Hs, Hsh, Ho, Hone, !bool_decide_true by done. cbn [negb andb].
  destruct Hset as [Hc|(l1 & iv & He & Hiv & Hc)].
  - rewrite (proj2 (openIntervalIndex_None _) Hc). by eexists _, _.
  - rewrite He, openIntervalIndex_snoc by done. by exists l1, iv.
Qed.

(** The order of two namespaces that were first seen together. *)
Lemma oldest_single (e : Strmap Time) (ns : string) :
  is_Some (e !! ns) -> (forall n, is_Some (e !! n) -> n = ns) -> oldestNamespace e = ns.
Proof.
  intros [t Ht] Honly. assert (He : e = {[ns := t]}).
  { apply map_eq. intros n. destruct (decide (ns = n)) as [<-|Hne]; [by rewrite lookup_singleton_eq|]. rewrite lookup_singleton_ne by done.
    apply eq_None_not_Some. intros Hn%Honly. congruence. }
  rewrite He. unfold oldestNamespace. by rewrite map_to_list_singleton.
Qed.

(** C33: a producer alone is attributed. Where one namespace produces a tenant's
    key through one service and attribution is not suspended, a scan leaves it as
    the holder, unshared, with an open span: if the key had no claim, or the
    namespace held it alone already. *)
Theorem lone_producer_attributed (s : snapshot) (key ns uid : string) (Hnamed : named s) (Htenant : Platform key = None)
    (Hscan : Bootstrap s = false) (Halone : alone_in s key ns uid)
    (Hclaim : Claims s !! key = None \/
              exists c, Claims s !! key = Some c /\ CKey c = key /\ CNamespace c = ns /\ holder_live s c = true /\ Shared c = [] /\
                        Occupied c = false /\ settled (Intervals c)) :
  exists next iv, outcome s key = Some next /\ CNamespace next = ns /\ CUID next = uid /\ Shared next = [] /\
    iv ∈ Intervals next /\ To iv = None.
Proof.
  destruct Halone as [Hrun <- Hsome Honly Hservice]. assert (Hp : is_Some (earliest_of s key !! ns)) by by apply producing.
  assert (Hon : forall n, is_Some (earliest_of s key !! n) -> n = ns).
  { intros n (p & Hp' & <- & Hk)%producing. by apply Honly. }
  assert (Hnone : namespacesExcept (earliest_of s key) ns = []).
  { apply elem_of_nil_inv. intros n (Hn & Hne)%elem_of_namespacesExcept. by apply Hne, Hon. }
  assert (Hne : earliest_of s key <> ∅) by (intros He; rewrite He, lookup_empty in Hp; by destruct Hp).
  assert (Hone : severalServices s key ns = false).
  { unfold severalServices. apply several_spec; [eapply Forall_impl; [exact Hnamed|by intros ? [? _]]|]. intros p Hp' Hm.
    split; [by left|]. intros q Hq Hmq. by apply Hservice. }
  assert (Hplan : exists next, planKey s key (Claims s !! key) (producers_of s key) = Some next /\ CNamespace next = ns /\
                    CUID next = ns_uid s ns /\ Shared next = [] /\ exists l iv, Intervals next = (l ++ [iv])%list /\ To iv = None).
  { unfold planKey. rewrite Htenant. destruct Hclaim as [->|(c & -> & Hk & <- & Hl & Hsh & Ho & Hset)].
    - unfold plan_free. rewrite bool_decide_false by done. rewrite (oldest_single _ ns) by done. rewrite Hnone.
      set (c := setShared _ _ _). destruct (withInterval_opens s c (earliest_of s key)) as (l & iv & Hl & Hiv); [by left|done..|].
      destruct (withInterval_holder s c (earliest_of s key) false) as [l' Hw]. rewrite Hw in *. eexists. split_and!; [done..|]. by exists l, iv.
    - rewrite Hl. unfold plan_held. rewrite (bool_decide_false (earliest_of s key = ∅)), Hscan, Hnone by done. cbn [andb]. cbv zeta.
      rewrite (bool_decide_false ([] <> [])) by naive_solver. rewrite <- Hk in Hone.
      destruct (withInterval_opens s c (earliest_of s key) Hset Hrun Hsh Ho Hp Hone) as (l & iv & Hl' & Hiv).
      destruct (withInterval_holder s c (earliest_of s key) false) as [l' Hw]. rewrite Hw in *. eexists. split_and!; [done|done| |done|by exists l, iv].
      unfold holder_live in Hl; bool_to_prop; done. }
  destruct Hplan as (next & Hplan & Hns & Hu & Hsh & l & iv & Hl & Hiv).
  destruct (outcome_planned s key next Hplan) as (o & Hout & Hsame). exists o, iv. split; [done|].
  assert (Hin : iv ∈ Intervals (pruned s next)) by (cbn; rewrite Hl; by apply prune_keeps_open).
  destruct Hsame as [->|(_ & -> & -> & -> & _ & ->)%same_fields]; by split_and!.
Qed.

(** ** Orders that do not matter. *)

Definition with_producers (l : list producer) (s : snapshot) : snapshot :=
  mkSnapshot (Now s) (Generation s) (Bootstrap s) (Heartbeat s) (Suspended s) (SuspendedAt s) l (Claims s) (Namespaces s)
    (Workloads s) (Unreadable s).

Section Order.
Variable s : snapshot.
Variable l : list producer.
Hypothesis Hnamed : named s.
Hypothesis Hperm : l ≡ₚ Producers s.

Lemma severalServices_order (key ns : string) : severalServices (with_producers l s) key ns = severalServices s key ns.
Proof.
  assert (Hl : Forall (fun p => PService p <> ""%string) l) by (rewrite Hperm; eapply Forall_impl; [exact Hnamed|by intros ? [? _]]).
  assert (Hs : Forall (fun p => PService p <> ""%string) (Producers s)) by by rewrite <- Hperm.
  apply eq_bool_prop_intro. rewrite !Is_true_true. rewrite <- !not_false_iff_true. unfold severalServices. cbn [Producers with_producers].
  rewrite !several_spec by done. by setoid_rewrite Hperm.
Qed.

Lemma withInterval_order (c : claim) e j : withInterval (with_producers l s) c e j = withInterval s c e j.
Proof. unfold withInterval. by rewrite severalServices_order. Qed.

Lemma producers_order (key : string) : producers_of (with_producers l s) key ≡ₚ producers_of s key.
Proof. unfold producers_of. cbn [Producers with_producers]. by rewrite Hperm. Qed.

Lemma planKey_order (key : string) (old : option claim) :
  planKey (with_producers l s) key old (producers_of (with_producers l s) key) = planKey s key old (producers_of s key).
Proof.
  pose proof (producers_order key) as Hp. unfold planKey. destruct (Platform key) as [r|].
  - set (t := filter _ (producers_of (with_producers l s) key)). set (t' := filter _ (producers_of s key)).
    assert (Ht : t ≡ₚ t') by (subst t t'; by rewrite Hp). unfold planOccupied. rewrite (earliest_perm t t' Ht).
    destruct t as [|p t], t' as [|p' t']; [done|by apply Permutation_nil_l in Ht|by apply Permutation_nil_r in Ht|done].
  - rewrite (earliest_perm _ _ Hp). set (e := earliest_of s key).
    change (resolveShared (with_producers l s)) with (resolveShared s). change (holder_live (with_producers l s)) with (holder_live s).
    assert (Hfree : plan_free (with_producers l s) key old e = plan_free s key old e) by (unfold plan_free; by rewrite withInterval_order).
    destruct old as [c|]; [|done]. destruct (holder_live s c).
    + unfold plan_held. change (resolveShared (with_producers l s)) with (resolveShared s). cbv zeta.
      destruct (resolveShared _ _ _ _). by rewrite !withInterval_order.
    + rewrite Hfree. destruct (resolveShared _ _ _ _). by rewrite !withInterval_order.
Qed.

Lemma plan_key_order (p : plan) (key : string) : plan_key (with_producers l s) p key = plan_key s p key.
Proof. unfold plan_key. by rewrite planKey_order. Qed.

Lemma planned_keys_order : planned_keys (with_producers l s) = planned_keys s.
Proof.
  unfold planned_keys. cbn [Producers Claims with_producers]. f_equal. f_equal. apply set_eq. intros x.
  rewrite !elem_of_union, !elem_of_list_to_set, !list_elem_of_fmap. by setoid_rewrite Hperm.
Qed.
End Order.

(** Seen earlier, or at once and by name. *)
Definition seen_before (a b : string * Time) : Prop := a.2 < b.2 \/ (a.2 = b.2 /\ str_le a.1 b.1).

#[export] Instance seen_before_trans : Transitive seen_before.
Proof. intros a b c [?|[? ?]] [?|[? ?]]; [left; lia|left; lia|left; lia|right]. split; [congruence|by etransitivity]. Qed.

Lemma seen_before_refl (a : string * Time) : seen_before a a.
Proof. right. split; [done|]. by destruct (total str_le a.1 a.1). Qed.

Lemma seen_before_antisym (a b : string * Time) : seen_before a b -> seen_before b a -> a = b.
Proof.
  intros [?|[Ht Hn]] [?|[Ht' Hn']]; [lia|lia|lia|]. destruct a as [n t], b as [n' t']. cbn in *. subst t'. f_equal. by apply (anti_symm str_le).
Qed.

Lemma ltb_le (a b : string) : if String.ltb a b then str_le a b else str_le b a.
Proof.
  unfold String.ltb, str_le, String.leb. rewrite (String.compare_antisym a b). by destruct (String.compare b a).
Qed.

Lemma older_min (best entry : string * Time) :
  best.1 <> ""%string ->
  (older best entry = best \/ older best entry = entry) /\ seen_before (older best entry) best /\ seen_before (older best entry) entry.
Proof.
  intros Hb. unfold older, Before. rewrite (proj2 (String.eqb_neq _ _) Hb). cbn [orb]. pose proof (ltb_le entry.1 best.1) as Hn.
  destruct (Z.ltb_spec entry.2 best.2); cbn [orb]; [split_and!; [by right|by left|apply seen_before_refl]|].
  destruct (Z.eqb_spec entry.2 best.2); cbn [andb].
  - destruct (String.ltb entry.1 best.1); [split_and!; [by right|by right|apply seen_before_refl]|].
    split_and!; [by left|apply seen_before_refl|by right].
  - split_and!; [by left|apply seen_before_refl|left; lia].
Qed.

Lemma foldl_older (l : list (string * Time)) (best : string * Time) :
  best.1 <> ""%string -> Forall (fun e => e.1 <> ""%string) l ->
  foldl older best l ∈ best :: l /\ forall e, e ∈ best :: l -> seen_before (foldl older best l) e.
Proof.
  intros Hb Hl. revert best Hb. induction Hl as [|e l He Hl IH]; intros best Hb; cbn [foldl].
  - split; [left|]. intros e ->%list_elem_of_singleton. apply seen_before_refl.
  - destruct (older_min best e Hb) as (Hor & H1 & H2). assert (Ho : (older best e).1 <> ""%string) by (by destruct Hor as [->| ->]).
    destruct (IH (older best e) Ho) as [Hin Hall]. pose proof (Hall (older best e) ltac:(left)) as Hfirst. split.
    + apply elem_of_cons in Hin as [->|Hin]; [|right; by right]. destruct Hor as [->| ->]; [left|right; left].
    + intros x [->|[->|Hx]%elem_of_cons]%elem_of_cons; [by etransitivity|by etransitivity|]. apply Hall. by right.
Qed.

Lemma older_start (e : string * Time) : older ("", zero_time)%string e = e.
Proof. done. Qed.

(** The loop over the map finds the same namespace in whatever order the entries
    come. *)
Lemma oldest_any_order (e : Strmap Time) (entries : list (string * Time)) :
  entries ≡ₚ map_to_list e -> e !! ""%string = None -> (foldl older (""%string, zero_time) entries).1 = oldestNamespace e.
Proof.
  intros Hp Hnone. unfold oldestNamespace. assert (Hne : Forall (fun e => e.1 <> ""%string) (map_to_list e)).
  { apply Forall_forall. intros [n t] Hin%elem_of_map_to_list. cbn. intros ->. congruence. }
  assert (Hne' : Forall (fun e => e.1 <> ""%string) entries) by by rewrite Hp.
  destruct entries as [|a l]; [by apply Permutation_nil_l in Hp as ->|]. destruct (map_to_list e) as [|a' l']; [by apply Permutation_nil_r in Hp|].
  cbn [foldl]. rewrite !older_start. apply Forall_cons in Hne as [Ha' Hl'], Hne' as [Ha Hl].
  destruct (foldl_older l a Ha Hl) as [Hin Hmin], (foldl_older l' a' Ha' Hl') as [Hin' Hmin'].
  f_equal. apply seen_before_antisym; [apply Hmin; by rewrite Hp|apply Hmin'; by rewrite <- Hp].
Qed.

(** C35: the plan of a pass is a function of what the cluster holds, not of the
    order in which it was read: however routes are listed, the same claims are
    written and deleted, and in whatever order the loop over the map of the
    namespaces that produce a key runs, it finds the same oldest one. *)
Theorem plan_order_free (s : snapshot) (l : list producer) (Hnamed : named s) (Hperm : l ≡ₚ Producers s) :
  planRouteNames (with_producers l s) = planRouteNames s /\
  forall key entries, entries ≡ₚ map_to_list (earliest_of s key) ->
    (foldl older (""%string, zero_time) entries).1 = oldestNamespace (earliest_of s key).
Proof.
  split.
  - unfold planRouteNames. rewrite (planned_keys_order s l Hperm). generalize (mkPlan [] []) as p.
    induction (planned_keys s) as [|k ks IH]; intros p; [done|]. cbn [foldl]. by rewrite plan_key_order, IH.
  - intros key entries He. apply oldest_any_order; [done|]. apply eq_None_not_Some. intros (p & Hp & Hns & _)%producing.
    unfold named in Hnamed. rewrite Forall_forall in Hnamed. by destruct (Hnamed p Hp).
Qed.

(** ** Keys. *)

Definition name_part (s : string) : Prop := s <> ""%string /\ str_forall is_name_char s = true.

Lemma fields_parts (s cur : string) : str_forall is_name_char cur = true -> Forall name_part (fields cur s).
Proof.
  revert cur. induction s as [|c s IH]; intros cur Hc; cbn [fields].
  - destruct (String.eqb_spec cur ""); repeat constructor; done.
  - destruct (is_name_char c) eqn:Hn.
    + apply IH. rewrite str_forall_app, Hc. simpl. by rewrite Hn.
    + destruct (String.eqb_spec cur ""); [by apply IH|]. constructor; [done|by apply IH].
Qed.

Lemma fields_part (w s cur : string) :
  str_forall is_name_char w = true -> fields cur (w ++ String "-" s)%string =
  (if (cur ++ w =? "")%string then fields "" s else (cur ++ w)%string :: fields "" s).
Proof.
  revert cur. induction w as [|c w IH]; intros cur Hw.
  - rewrite str_app_nil_r. done.
  - simpl in Hw. bool_to_prop. cbn [String.append fields]. replace (is_name_char c) with true by done.
    rewrite IH by done. by rewrite str_app_assoc.
Qed.

Lemma fields_last (w cur : string) :
  str_forall is_name_char w = true -> fields cur w = if (cur ++ w =? "")%string then [] else [(cur ++ w)%string].
Proof.
  revert cur. induction w as [|c w IH]; intros cur Hw.
  - rewrite str_app_nil_r. done.
  - simpl in Hw. bool_to_prop. cbn [fields]. replace (is_name_char c) with true by done. rewrite IH by done. by rewrite str_app_assoc.
Qed.

Lemma FieldsFunc_Join (parts : list string) : Forall name_part parts -> FieldsFunc (Join parts "-") = parts.
Proof.
  induction 1 as [|w ws [Hne Hw] Hws IH]; [done|]. unfold FieldsFunc in *. destruct ws as [|w' ws].
  - cbn [Join]. rewrite fields_last by done. cbn [String.append]. by rewrite (proj2 (String.eqb_neq _ _) Hne).
  - change (Join (w :: w' :: ws) "-") with (w ++ String "-" (Join (w' :: ws) "-"))%string. rewrite fields_part by done.
    cbn [String.append]. by rewrite (proj2 (String.eqb_neq _ _) Hne), IH.
Qed.

(** Two backends share a key exactly when their names have the same parts:
    namespace and service, joined by a dash and split at whatever is neither a
    letter nor a digit. So a key is its own normal form, and doubled or moved
    dashes do not tell two names apart. *)
Theorem key_shared_exact (n s n' s' : string) :
  (Key n s = Key n' s' <-> FieldsFunc (n ++ "-" ++ s) = FieldsFunc (n' ++ "-" ++ s')) /\
  Join (FieldsFunc (Key n s)) "-" = Key n s.
Proof.
  assert (Hparts : forall x, FieldsFunc (Join (FieldsFunc x) "-") = FieldsFunc x) by (intros x; by apply FieldsFunc_Join, fields_parts).
  unfold Key. split; [|by rewrite Hparts]. split; [|by intros ->].
  intros He. apply (f_equal FieldsFunc) in He. by rewrite !Hparts in He.
Qed.

Example moved_dash : Key "shop" "web-api" = Key "shop-web" "api" /\ Key "shop" "web--api" = Key "shop" "web-api".
Proof. by vm_compute. Qed.

Lemma demo_named (now : Time) (claims : Strmap claim) : named (demo_scan now [demo_web; demo_rival] claims).
Proof. repeat constructor; discriminate. Qed.

Lemma collision_recorded_witness :
  exists next, outcome demo_second demo_key = Some next /\ CUID next = "u1"%string /\ sharedBy next "shop-web" "u2" = true /\
    forall iv, iv ∈ Intervals next -> exists t, To iv = Some t.
Proof.
  destruct (collision_recorded demo_second demo_key (mkClaim demo_key "shop" "u1" [] ∅ false [mkInterval (100 * Second) None "g1"] None) demo_rival)
    as (next & Hout & _ & Hu & _ & Hby & _ & Hspans).
  1-3: vm_compute; reflexivity.
  { right. exists [], (mkInterval (100 * Second) None "g1"). split; [reflexivity|]. split; [reflexivity|constructor]. }
  { vm_compute; reflexivity. }
  { right. left. }
  { vm_compute; reflexivity. }
  { discriminate. }
  exists next. split; [exact Hout|]. split; [exact Hu|]. split; [apply Hby; vm_compute; discriminate|].
  intros iv Hiv. destruct (Hspans iv Hiv) as (t & Ht & _). exists t. exact Ht.
Defined.

Lemma demo_first_alone : alone_in demo_first demo_key "shop" "u1".
Proof.
  split; [reflexivity|reflexivity| | |].
  - exists demo_web. split; [left|]. split; [reflexivity|vm_compute; reflexivity].
  - intros p Hp _. apply list_elem_of_singleton in Hp as ->. reflexivity.
  - intros p q Hp Hq _ _. apply list_elem_of_singleton in Hp as ->, Hq as ->. reflexivity.
Qed.

Lemma lone_producer_attributed_witness :
  exists next iv, outcome demo_first demo_key = Some next /\ CUID next = "u1"%string /\ iv ∈ Intervals next /\ To iv = None.
Proof.
  destruct (lone_producer_attributed demo_first demo_key "shop" "u1") as (next & iv & Hout & _ & Hu & _ & Hiv & Hopen).
  - repeat constructor; discriminate.
  - vm_compute; reflexivity.
  - reflexivity.
  - exact demo_first_alone.
  - left. reflexivity.
  - exists next, iv. split; [exact Hout|]. split; [exact Hu|]. split; [exact Hiv|exact Hopen].
Defined.

Lemma plan_order_free_witness :
  planRouteNames (with_producers [demo_rival; demo_web] demo_second) = planRouteNames demo_second.
Proof.
  apply (plan_order_free demo_second [demo_rival; demo_web]); [apply demo_named|]. apply Permutation_swap.
Defined.
